(* ===== verification/_CoqProject ===== *)
-Q . S2P
Prelude.v
Lmb.v
Crc.v
Circbuf.v
Ctype.v
CString.v
Qsort.v
Hashtable.v
HashExport.v
EnvAttr.v
EnvFlags.v
Cli.v
Vsprintf.v
Env.v
Command.v
Shell.v
Digest.v
Sha256.v
Sha1.v
Md5.v
CArray.v
MultiDtb.v
BlockDev.v
EmmcPart.v
EmmcTable.v
Mmc.v
EmmcStack.v
MmcKey.v
Aes.v
Image.v
Burn.v
Sparse.v
Download.v
BufManager.v
BurnVerify.v
SdcBurn.v
Fat.v
FatDir.v
ImgDecoder.v
