(* ===== verification/Prelude.v ===== *)
(** * A verification development for the U-Boot tree of the Amlogic S905 board

    The program is the boot loader under src/u-boot, U-Boot 2015.01 with the
    Amlogic extensions (boards gxb, gxl and gxtvbb, and the Hardkernel Odroid
    C2).  This library models the parts of it that are its own logic and not
    hardware access: the environment with its storage format, the command
    line and the command table, the memory map of the boot path, the number
    and string routines everything is built on, the digests that images are
    checked with, the legacy image format, and of the Amlogic code the
    partition table on the eMMC card, the block layer below it and the tool
    that burns packages of images to the partitions.

    ** The parts and how they interact

    The environment is a hash table of strings (lib/hashtable.c).  Its entries
    pass a hook on every change, which checks the type and the access mode
    that a list of attributes gives the variable (common/env_attr.c,
    common/env_flags.c) and calls its callback (common/env_callback.c).  The
    table is exported to and imported from a linear text (second half of
    lib/hashtable.c) that is kept on storage with a CRC-32
    (common/env_common.c, lib/crc32.c); before relocation variables are read
    from that text (getenv_f of common/cmd_nvedit.c).  The command line
    (common/cli_simple.c) splits a line into commands and words, replaces
    variables and passes the words to the command table (common/command.c);
    commands such as run, bootd and setenv call back into the command line and
    the environment (common/cli.c, common/cmd_nvedit.c).  The boot path keeps
    RAM and reserved areas apart with lib/lmb.c.  The partition table of the
    card is computed from a device tree, which common/aml_dt.c picks out of a
    package by an environment variable, and is kept on the card
    (drivers/mmc/emmc_partitions.c, common/partitions.c), which is reached
    through the block layer of drivers/mmc/mmc.c, mmc_write.c and
    emmc_key.c.  The burning tool (drivers/usb/gadget/v2_burning) reads the
    items of a package (optimus_img_decoder.c), which is a file of a FAT card
    (optimus_fat.c), slot by slot into a transfer buffer
    (optimus_sdc_burn.c, optimus_buffer_manager.c), which hands its contents
    to the download code (optimus_download.c) and, for sparse images, to
    their interpreter (optimus_simg2img.c); what was written is read back and
    compared with a SHA-1.

    ** The files

    - Prelude.v (this file): machine integers with explicit wrap-around, bytes
      and literals, checked indexing, tactics and the hint database.
    - Lmb.v: lib/lmb.c.  Both tables with their stale slots; all operations.
    - Crc.v: lib/crc8.c, crc7.c, crc16.c, crc32.c, bitrev.c.
    - Circbuf.v: lib/circbuf.c.
    - Ctype.v, CString.v, CArray.v: lib/ctype.c and lib/string.c, on memory (a
      finite map from addresses to bytes) and on arrays as values.
    - Qsort.v: lib/qsort.c.
    - Hashtable.v, HashExport.v: lib/hashtable.c.  The state is the array of
      slots with the fill counter and the change_ok hook; the allocator and
      the initialisers of a new entry come through the class Hooks.
    - EnvAttr.v, EnvFlags.v: common/env_attr.c, common/env_flags.c,
      common/env_callback.c.  The change_ok hook of the environment is
      env_flags_validate of EnvFlags.v.
    - Cli.v: common/cli_simple.c.  What it needs of the environment and the
      console is the class Console.
    - Vsprintf.v: lib/vsprintf.c.
    - Env.v: common/env_common.c and the access functions of
      common/cmd_nvedit.c; the record genv is the state of gd they touch.
    - Command.v: common/command.c, common/cli.c, do_bootd of cmd_bootm.c.
    - Shell.v: the commands of common/cmd_nvedit.c, which joins Command.v,
      Cli.v and Env.v and gives the class Console its instance.
    - Digest.v, Sha256.v, Sha1.v, Md5.v: lib/sha256.c, sha1.c, md5.c.
    - MultiDtb.v: common/aml_dt.c.
    - BlockDev.v: the interface of a block device, the class BlockDev, and its
      laws BlockDevSpec.
    - EmmcPart.v, EmmcTable.v: drivers/mmc/emmc_partitions.c,
      common/partitions.c; the layout, and the table on the card with the
      start-up, against the class BlockDev.
    - Mmc.v: the block operations of drivers/mmc/mmc.c and mmc_write.c over a
      host controller given as the class of hosts, with the protection of the
      key area; it is an instance of BlockDev.  EmmcStack.v joins it with
      EmmcTable.v, MmcKey.v holds drivers/mmc/emmc_key.c.
    - Aes.v: lib/aes.c and the specification of FIPS 197.
    - Image.v: the legacy images of common/image.c and include/image.h.
    - Burn.v: the state of the burning tool (record world: memory, device, the
      static variables of its files), the monad M of its functions, the class
      Storage of the store command (common/cmd_burnup.c) and its laws
      StorageSpec.
    - Sparse.v: optimus_simg2img.c.  Download.v: optimus_download.c up to the
      read-back.  BufManager.v: optimus_buffer_manager.c and the loop that
      feeds it; the class Consumer of Download.v says what the buffer
      promises and needs, and is proved for plain and for sparse images.
    - BurnVerify.v: reading a partition back as the image that was burned.
      SdcBurn.v: optimus_sdc_burn.c on top of all of them, over the classes
      Item of BufManager.v and Package for what reads the package, with their
      laws ItemSpec and PackageSpec.
    - Fat.v: seeking and reading in files of optimus_fat.c, over the class
      BlockDev of a card.  FatDir.v: its boot sector, directories and
      descriptors, and the specification of the search in a directory.
      ImgDecoder.v: optimus_img_decoder.c on top of them, which is the instance
      of Item and Package and proves their laws.

    Each operation of the source is one definition of the same name; loops
    that C writes inside a function are named after it.  Definitions are
    executable.  None is undefined behaviour (an access outside an array, NULL,
    a freed or uninitialised object, division by zero); C errors are values
    of the result.  Integers are kept at their width: unsigned char, 32-bit
    and 64-bit values are Z with wrap written out, char is unsigned and
    unsigned long has 64 bits as on the target.

    ** What the theorems show

    - Environment.  The hash table refines a finite map of strings: entering,
      finding, deleting are insert, lookup, delete under the checks of the
      hook, and the probe sequences terminate (hsearch_enter_correct,
      hsearch_find_correct, hdelete_correct).  Export followed by import gives
      the variables back, also through the stored image with its checksum
      (export_import_roundtrip, hexport_correct, env_export_import); damage of
      up to four bytes is detected (env_import_detects).  What is set is read,
      in the table and in the raw image (setenv_getenv, getenv_early_agrees,
      setenv_number_roundtrip).  No sequence of changes without force changes
      a protected variable (protected_forever, access_policy).
    - Command line.  A line runs its commands in order with their words and
      variables expanded (run_command_executes, process_macros_expands,
      run_executes_variable, setenv_command, env_delete_correct); commands are
      found by their unique abbreviation and completed (find_cmd_tbl_correct,
      auto_complete_word); the recursion check makes bootd return
      (bootd_terminates).
    - Memory map.  Regions stay sorted, disjoint and merged, allocation
      returns only free aligned memory (lmb_add_region_correct,
      lmb_alloc_base_safe, lmb_free_correct, lmb_is_reserved_correct).
    - Numbers, strings, buffers.  The formatter writes the text of its
      directives, never past the buffer, and numbers are read back
      (vsnprintf_formats, vsnprintf_truncates, print_strtoul_roundtrip);
      env_attr_lookup_last, qsort_sorts, buf_push_fifo.
    - Checksums.  The table-driven CRC-32 is the bitwise one and detects bursts
      (crc32_bitwise, crc32_detects_burst); SHA-256, SHA-1, HMAC-SHA-1 and MD5
      are the functions of their standards for every chunk size
      (sha256_csum_correct, sha1_csum_correct, sha1_hmac_correct, md5_correct).
    - Partition table.  The partitions are disjoint, 8 MB apart and inside the
      card (partition_layout); a table written to the card is read back
      (write_read_table); start-up returns on any contents of the card and a
      second start-up changes nothing (device_init_settles); the tree named by
      the environment is taken from a package (multi_dt_selects).
    - Card.  Reading and writing through the block layer is reading and
      writing of blocks whatever the size of a transfer (block_layer_correct),
      so that the table keeps its properties over it (init_over_mmc); requests
      never reach the area of the keys, and keys are read back from either
      copy (key_area_kept, key_write_read).
    - Images.  The ramdisk is placed and copied intact outside of what is
      reserved (ramdisk_placed), damage is detected (ramdisk_damage_detected),
      components of a multi-file image are found (multi_components); AES-128
      is the cipher of its standard and CBC is inverted (aes_is_fips197,
      aes_cbc_roundtrip).
    - Burning.  A partition holds exactly what its plain or sparse image
      describes, however the file is cut into slots and write-backs, and the
      result tells whether the SHA-1 of what is read back is the expected one
      (partition_burned); for a list of partitions each one holds its image
      and nothing else of the device changes (package_burned).  Opening
      a file of a FAT card finds the first directory entry with its name
      (fat_open_finds), and a read at an offset of the file delivers its bytes
      wherever its clusters lie (fat_read_at), so that the result on packages
      holds from the sectors of the card to the partitions
      (card_package_burned).

    Each file also has the theorems that show where the code does not do what
    its comments or callers expect; they are listed as findings in the
    manifest.

    ** Fuel and bounds

    Loops over a counter are recursions on it.  A loop whose length is not a
    counter has fuel computed from its data, and the theorems show that the
    fuel is enough by giving the result: the mapped bytes of memory for the
    string functions, the table size for probe sequences, the buffer size for
    import and export, the length of a line for the parser, 64 bits for prime
    search and digit loops, the number of slots or chunks of an image and
    of clusters of a file for the loops of the burning tool.  The search of a
    directory, which the source does not bound, has fuel as an argument; one
    more than the sectors up to the entry is enough (fat_open_finds), and
    without a match or an end mark no amount is (root_without_end).  Command lines that run variables have a depth
    that the caller gives: bootd_terminates gives a depth that is enough, and
    run, which has no recursion check in the source, is shown not to have one
    (run_unbounded).

    ** Not modelled

    Output on the console; the hush shell (common/cli_hush.c), the parser that
    the Amlogic boards select, for which the simple parser stands behind the
    same interface; line editing (common/cli_readline.c); the heap
    (common/dlmalloc.c), whose requests are parameters; the commands that
    boot an image (common/bootm.c) and FIT images; device trees (lib/libfdt),
    compression (lib/zlib, lib/lzma, lib/bzip2, lib/lzo), public-key code
    (lib/rsa) and file systems (fs/), which are ports of other projects; card
    identification and host controllers below the block layer, the USB engine,
    the configuration file and the registration of the card of the burning
    tool, drivers, board,
    architecture and network code, which access hardware; host tools and
    tests.
*)

From stdpp Require Export strings base list gmap numbers option sorting.
From Stdlib Require Export ZArith Lia Ascii.

Declare Scope uboot_scope.
Delimit Scope uboot_scope with uboot.
#[global] Open Scope Z_scope.

Create HintDb uboot.

(** ** Machine integers

    An unsigned [w]-bit C value is a [Z] in [[0, 2^w)].  Every operation that
    may leave that range is followed by an explicit [wrap]. *)

Definition wrap (w z : Z) : Z := z mod 2 ^ w.

Abbreviation u8 := (wrap 8).
Abbreviation u16 := (wrap 16).
Abbreviation u32 := (wrap 32).
Abbreviation u64 := (wrap 64).

(** Two's complement reading of an unsigned [w]-bit value. *)
Definition to_signed (w z : Z) : Z :=
  let z := wrap w z in if z <? 2 ^ (w - 1) then z else z - 2 ^ w.

Abbreviation s8 := (to_signed 8).
Abbreviation s32 := (to_signed 32).
Abbreviation s64 := (to_signed 64).

(** [~x] on [w]-bit operands. *)
Definition lnotw (w z : Z) : Z := wrap w (Z.lnot z).

(** ** Bytes and C strings

    Characters are bytes, [Z] in [[0,256)]: [char] is unsigned on the ARM64
    target of this tree.  A C string value is the list of its bytes without
    the terminating NUL. *)

Abbreviation bytes := (list Z).

Definition byte_ok (b : Z) : Prop := 0 <= b < 256.
Definition char_ok (b : Z) : Prop := 0 < b < 256.
Definition cstr_ok (s : bytes) : Prop := Forall char_ok s.

#[global] Instance byte_ok_dec b : Decision (byte_ok b) := _.
#[global] Instance char_ok_dec b : Decision (char_ok b) := _.
#[global] Instance cstr_ok_dec s : Decision (cstr_ok s) := _.

(** Literals: ["abc"%string] as bytes. *)
Fixpoint str (s : string) : bytes :=
  match s with
  | EmptyString => []
  | String a s' => Z.of_N (N_of_ascii a) :: str s'
  end.

(** ** Indexing by [Z]

    C array subscripts are integers; an access outside the array is [None]. *)

Definition zget {A} (l : list A) (i : Z) : option A :=
  if 0 <=? i then l !! Z.to_nat i else None.

Definition zset {A} (l : list A) (i : Z) (x : A) : option (list A) :=
  if (0 <=? i) && (i <? Z.of_nat (length l)) then Some (<[Z.to_nat i := x]> l) else None.

(** ** Tactics *)

(** Turn boolean comparisons in hypotheses and goal into propositions. *)
Ltac zbool :=
  repeat match goal with
  | H : (_ && _)%bool = true |- _ => apply andb_prop in H; destruct H
  | H : (_ || _)%bool = false |- _ => apply orb_false_elim in H; destruct H
  | H : (_ <? _) = true |- _ => apply Z.ltb_lt in H
  | H : (_ <? _) = false |- _ => apply Z.ltb_ge in H
  | H : (_ <=? _) = true |- _ => apply Z.leb_le in H
  | H : (_ <=? _) = false |- _ => apply Z.leb_gt in H
  | H : (_ =? _) = true |- _ => apply Z.eqb_eq in H
  | H : (_ =? _) = false |- _ => apply Z.eqb_neq in H
  | H : negb _ = true |- _ => apply negb_true_iff in H
  | H : negb _ = false |- _ => apply negb_false_iff in H
  | H : bool_decide _ = true |- _ => apply bool_decide_eq_true in H
  | H : bool_decide _ = false |- _ => apply bool_decide_eq_false in H
  end.

(** Case analysis on the innermost boolean test of the goal. *)
Ltac bcase :=
  match goal with
  | |- context [ if ?b then _ else _ ] =>
      lazymatch type of b with
      | bool => let E := fresh "E" in destruct b eqn:E; zbool
      end
  end.

Ltac bcase_in H :=
  match type of H with
  | context [ if ?b then _ else _ ] =>
      lazymatch type of b with
      | bool => let E := fresh "E" in destruct b eqn:E; zbool
      end
  end.

(** Arithmetic on lengths of concatenations. *)
Ltac len := repeat (rewrite ?length_app in *; simpl in *); lia.

(** ** Generic lemmas *)

Lemma wrap_small w z : 0 <= z < 2 ^ w -> wrap w z = z.
Proof. apply Z.mod_small. Qed.

Lemma wrap_range w z : 0 <= w -> 0 <= wrap w z < 2 ^ w.
Proof. intros. apply Z.mod_pos_bound. by apply Z.pow_pos_nonneg. Qed.

Lemma wrap_wrap w z : wrap w (wrap w z) = wrap w z.
Proof. apply Zmod_mod. Qed.

Lemma wrap_add_l w a b : wrap w (wrap w a + b) = wrap w (a + b).
Proof. apply Zplus_mod_idemp_l. Qed.

Lemma wrap_add_r w a b : wrap w (a + wrap w b) = wrap w (a + b).
Proof. apply Zplus_mod_idemp_r. Qed.

Lemma s32_small n : 0 <= n < 2 ^ 31 -> s32 n = n.
Proof.
  intros Hn; unfold to_signed; rewrite wrap_small by lia.
  by destruct (Z.ltb_spec n (2 ^ (32 - 1))); [|lia].
Qed.

Lemma zget_Some {A} (l : list A) i x :
  zget l i = Some x <-> 0 <= i /\ l !! Z.to_nat i = Some x.
Proof. unfold zget. bcase; intuition (try discriminate; lia). Qed.

Lemma zget_nat {A} (l : list A) (n : nat) : zget l (Z.of_nat n) = l !! n.
Proof. unfold zget. bcase; [by rewrite Nat2Z.id | lia]. Qed.

Lemma zget_is_Some {A} (l : list A) i :
  is_Some (zget l i) <-> 0 <= i < Z.of_nat (length l).
Proof.
  unfold zget. bcase.
  - rewrite lookup_lt_is_Some. lia.
  - split; [by intros [? [=]] | lia].
Qed.

Lemma zset_Some {A} (l l' : list A) i x :
  zset l i x = Some l' <-> 0 <= i < Z.of_nat (length l) /\ l' = <[Z.to_nat i := x]> l.
Proof.
  unfold zset. bcase.
  - split; [intros [= <-] | intros [? ->]]; auto with lia.
  - apply andb_false_iff in E. split; [discriminate | intros [? _]].
    destruct E; zbool; lia.
Qed.

Lemma zset_in {A} (l : list A) i x :
  0 <= i < Z.of_nat (length l) -> zset l i x = Some (<[Z.to_nat i := x]> l).
Proof. intros. by apply zset_Some. Qed.

Lemma zset_length {A} (l l' : list A) i x : zset l i x = Some l' -> length l' = length l.
Proof. intros [_ ->]%zset_Some. apply length_insert. Qed.

Lemma zget_middle {A} (l1 l2 : list A) x i :
  i = Z.of_nat (length l1) -> zget (l1 ++ x :: l2) i = Some x.
Proof. intros ->. rewrite zget_nat. by apply list_lookup_middle. Qed.

Lemma zset_middle {A} (l1 l2 : list A) x y i :
  i = Z.of_nat (length l1) -> zset (l1 ++ x :: l2) i y = Some (l1 ++ y :: l2).
Proof.
  intros ->. rewrite zset_in by (rewrite length_app; simpl; lia).
  rewrite Nat2Z.id. f_equal. replace (length l1) with (length l1 + 0)%nat by lia.
  by rewrite insert_app_r.
Qed.

Lemma str_ok s : Forall byte_ok (str s).
Proof.
  induction s as [|a s IH]; constructor; auto.
  unfold byte_ok. pose proof (N_ascii_bounded a). lia.
Qed.

Lemma fold_left_cons {A B} (f : A -> B -> A) x l a :
  fold_left f (x :: l) a = fold_left f l (f a x).
Proof. reflexivity. Qed.

Lemma last_app_inv {A} (l : list A) : l = [] \/ exists l' x, l = l' ++ [x].
Proof. destruct l as [|x l' _] using rev_ind; [by left | right; by exists l', x]. Qed.

#[export] Hint Resolve wrap_range : uboot.
