(* ===== verification/Lmb.v ===== *)
(** * Logical memory blocks (lib/lmb.c, include/lmb.h)

    The allocator that the boot path uses to keep RAM banks and reserved areas
    apart: two tables ([memory] and [reserved]) of at most [MAX_LMB_REGIONS]
    live entries in arrays of [MAX_LMB_REGIONS + 1] slots.  [phys_addr_t],
    [phys_size_t] and [unsigned long] are 64 bits wide on this target
    (arch/arm/include/asm/types.h).  The model keeps the whole array, with the
    stale slots behind [cnt]; an access outside of the array is [None]. *)

From S2P Require Import Prelude.

Module Lmb.

Definition MAX_LMB_REGIONS : Z := 8.
Definition LMB_ALLOC_ANYWHERE : Z := 0.

Record lmb_property := Prop_ { base : Z; size : Z }.

Record lmb_region := Region { cnt : Z; rsize : Z; region : list lmb_property }.

Record lmb := Lmb_ { memory : lmb_region; reserved : lmb_region }.

#[global] Instance lmb_property_eq_dec : EqDecision lmb_property.
Proof. solve_decision. Defined.

#[global] Instance lmb_region_eq_dec : EqDecision lmb_region.
Proof. solve_decision. Defined.

(** [rgn->region[i]] and [rgn->region[i] = p]. *)
Definition rget (rgn : lmb_region) (i : Z) : option lmb_property := zget (region rgn) i.

Definition rset (rgn : lmb_region) (i : Z) (p : lmb_property) : option lmb_region :=
  l ← zset (region rgn) i p; Some (Region (cnt rgn) (rsize rgn) l).

Definition set_cnt (rgn : lmb_region) (c : Z) : lmb_region :=
  Region (u64 c) (rsize rgn) (region rgn).

Definition lmb_addrs_overlap (base1 size1 base2 size2 : Z) : bool :=
  (base1 <? u64 (base2 + size2)) && (base2 <? u64 (base1 + size1)).

Definition lmb_addrs_adjacent (base1 size1 base2 size2 : Z) : Z :=
  if base2 =? u64 (base1 + size1) then 1
  else if base1 =? u64 (base2 + size2) then -1
  else 0.

Definition lmb_regions_adjacent (rgn : lmb_region) (r1 r2 : Z) : option Z :=
  p1 ← rget rgn r1;
  p2 ← rget rgn r2;
  Some (lmb_addrs_adjacent (base p1) (size p1) (base p2) (size p2)).

(** [for (i = r; i < rgn->cnt - 1; i++) region[i] = region[i + 1];]
    The bound is an unsigned subtraction.  [n] bounds the iterations: the loop
    body faults at the end of the nine-slot array, so ten iterations are
    never exceeded. *)
Fixpoint remove_loop (n : nat) (i : Z) (rgn : lmb_region) : option lmb_region :=
  if i <? u64 (cnt rgn - 1) then
    match n with
    | O => None
    | S n' =>
        p ← rget rgn (i + 1);
        rgn' ← rset rgn i p;
        remove_loop n' (i + 1) rgn'
    end
  else Some rgn.

Definition lmb_remove_region (rgn : lmb_region) (r : Z) : option lmb_region :=
  rgn' ← remove_loop 10 r rgn;
  Some (set_cnt rgn' (cnt rgn' - 1)).

Definition lmb_coalesce_regions (rgn : lmb_region) (r1 r2 : Z) : option lmb_region :=
  p1 ← rget rgn r1;
  p2 ← rget rgn r2;
  rgn' ← rset rgn r1 (Prop_ (base p1) (u64 (size p1 + size p2)));
  lmb_remove_region rgn' r2.

(** [lmb_init] writes slot 0 and the counters only; the other slots keep what
    the caller's memory held. *)
Definition init_region (rgn : lmb_region) : option lmb_region :=
  rgn' ← rset rgn 0 (Prop_ 0 0);
  Some (Region 1 0 (region rgn')).

Definition lmb_init (l : lmb) : option lmb :=
  m ← init_region (memory l);
  r ← init_region (reserved l);
  Some (Lmb_ m r).

(** The first loop of [lmb_add_region]: look for an identical region (return
    0), or for one the new region can be glued to. *)
Inductive coalesce_res :=
| CoAlready
| CoDone (i coalesced : Z) (rgn : lmb_region).

Fixpoint coalesce_loop (n : nat) (i : Z) (rgn : lmb_region) (base_ size_ : Z)
  : option coalesce_res :=
  match n with
  | O => Some (CoDone i 0 rgn)
  | S n' =>
      p ← rget rgn i;
      let rgnbase := base p in
      let rgnsize := size p in
      if (rgnbase =? base_) && (rgnsize =? size_) then Some CoAlready
      else
        let adjacent := lmb_addrs_adjacent base_ size_ rgnbase rgnsize in
        if 0 <? adjacent then
          rgn' ← rset rgn i (Prop_ (u64 (rgnbase - size_)) (u64 (rgnsize + size_)));
          Some (CoDone i 1 rgn')
        else if adjacent <? 0 then
          rgn' ← rset rgn i (Prop_ rgnbase (u64 (rgnsize + size_)));
          Some (CoDone i 1 rgn')
        else coalesce_loop n' (i + 1) rgn base_ size_
  end.

(** [for (i = rgn->cnt-1; i >= 0; i--)], the sorted insertion; [n] is [i + 1]. *)
Fixpoint insert_loop (n : nat) (rgn : lmb_region) (base_ size_ : Z) : option lmb_region :=
  match n with
  | O => Some rgn
  | S i =>
      p ← rget rgn (Z.of_nat i);
      if base_ <? base p then
        rgn' ← rset rgn (Z.of_nat i + 1) p;
        insert_loop i rgn' base_ size_
      else rset rgn (Z.of_nat i + 1) (Prop_ base_ size_)
  end.

(** The second step of [lmb_add_region]: after a glue at index [i], merge with
    the next entry when they touch. *)
Definition merge_next (i coalesced : Z) (rgn1 : lmb_region) : option (Z * lmb_region) :=
  if i <? u64 (cnt rgn1 - 1) then
    adj ← lmb_regions_adjacent rgn1 i (i + 1);
    if adj =? 0 then Some (coalesced, rgn1)
    else rgn2 ← lmb_coalesce_regions rgn1 i (i + 1); Some (coalesced + 1, rgn2)
  else Some (coalesced, rgn1).

Definition lmb_add_region (rgn : lmb_region) (base_ size_ : Z) : option (Z * lmb_region) :=
  r0 ← rget rgn 0;
  if (cnt rgn =? 1) && (size r0 =? 0) then
    rgn' ← rset rgn 0 (Prop_ base_ size_);
    Some (0, rgn')
  else
    res ← coalesce_loop (Z.to_nat (cnt rgn)) 0 rgn base_ size_;
    match res with
    | CoAlready => Some (0, rgn)
    | CoDone i coalesced rgn1 =>
        '(coalesced, rgn2) ← merge_next i coalesced rgn1;
        if negb (coalesced =? 0) then Some (coalesced, rgn2)
        else if MAX_LMB_REGIONS <=? cnt rgn2 then Some (-1, rgn2)
        else
          rgn3 ← insert_loop (Z.to_nat (cnt rgn2)) rgn2 base_ size_;
          r0 ← rget rgn3 0;
          rgn4 ← (if base_ <? base r0 then rset rgn3 0 (Prop_ base_ size_) else Some rgn3);
          Some (0, set_cnt rgn4 (cnt rgn4 + 1))
    end.

Definition lmb_add (l : lmb) (base_ size_ : Z) : option (Z * lmb) :=
  '(r, m) ← lmb_add_region (memory l) base_ size_;
  Some (r, Lmb_ m (reserved l)).

Definition lmb_reserve (l : lmb) (base_ size_ : Z) : option (Z * lmb) :=
  '(r, m) ← lmb_add_region (reserved l) base_ size_;
  Some (r, Lmb_ (memory l) m).

(** The search loop of [lmb_free]: index and bounds of the region that holds
    [[base, end)], or [None] inside when the loop runs to [cnt]. *)
Fixpoint free_loop (n : nat) (i : Z) (rgn : lmb_region) (base_ end_ : Z)
  : option (option (Z * Z * Z)) :=
  match n with
  | O => Some None
  | S n' =>
      p ← rget rgn i;
      let rgnbegin := base p in
      let rgnend := u64 (rgnbegin + size p) in
      if (rgnbegin <=? base_) && (end_ <=? rgnend) then Some (Some (i, rgnbegin, rgnend))
      else free_loop n' (i + 1) rgn base_ end_
  end.

Definition free_region (rgn : lmb_region) (base_ size_ : Z) : option (Z * lmb_region) :=
  let end_ := u64 (base_ + size_) in
  found ← free_loop (Z.to_nat (cnt rgn)) 0 rgn base_ end_;
  match found with
  | None => Some (-1, rgn)
  | Some (i, rgnbegin, rgnend) =>
      if (rgnbegin =? base_) && (rgnend =? end_) then
        rgn' ← lmb_remove_region rgn i; Some (0, rgn')
      else
        p ← rget rgn i;
        if rgnbegin =? base_ then
          rgn' ← rset rgn i (Prop_ end_ (u64 (size p - size_))); Some (0, rgn')
        else if rgnend =? end_ then
          rgn' ← rset rgn i (Prop_ (base p) (u64 (size p - size_))); Some (0, rgn')
        else
          rgn' ← rset rgn i (Prop_ (base p) (u64 (base_ - base p)));
          lmb_add_region rgn' end_ (u64 (rgnend - end_))
  end.

Definition lmb_free (l : lmb) (base_ size_ : Z) : option (Z * lmb) :=
  '(r, m) ← free_region (reserved l) base_ size_;
  Some (r, Lmb_ (memory l) m).

Fixpoint overlaps_loop (n : nat) (i : Z) (rgn : lmb_region) (base_ size_ : Z) : option Z :=
  match n with
  | O => Some (-1)
  | S n' =>
      p ← rget rgn i;
      if lmb_addrs_overlap base_ size_ (base p) (size p) then Some i
      else overlaps_loop n' (i + 1) rgn base_ size_
  end.

Definition lmb_overlaps_region (rgn : lmb_region) (base_ size_ : Z) : option Z :=
  overlaps_loop (Z.to_nat (cnt rgn)) 0 rgn base_ size_.

Definition lmb_align_down (addr size_ : Z) : Z := Z.land addr (lnotw 64 (u64 (size_ - 1))).

Definition lmb_align_up (addr size_ : Z) : Z :=
  Z.land (u64 (addr + u64 (size_ - 1))) (lnotw 64 (u64 (size_ - 1))).

(** [while (base && lmbbase <= base)] of [__lmb_alloc_base].  [None] inside is
    "fell out of the loop", [Some (alloc, reserved)] is a [return].  [fuel]
    bounds the iterations: on a table sorted by base address every iteration
    moves to a lower entry, so [MAX_LMB_REGIONS + 1] are enough; a run that
    exceeds the bound is an outer [None]. *)
Fixpoint alloc_loop (fuel : nat) (res : lmb_region) (base_ size_ align lmbbase : Z)
  : option (option (Z * lmb_region)) :=
  if negb (base_ =? 0) && (lmbbase <=? base_) then
    match fuel with
    | O => None
    | S fuel' =>
        j ← lmb_overlaps_region res base_ size_;
        if j <? 0 then
          '(r, res') ← lmb_add_region res base_ (lmb_align_up size_ align);
          if r <? 0 then Some (Some (0, res')) else Some (Some (base_, res'))
        else
          p ← rget res j;
          let res_base := base p in
          if res_base <? size_ then Some None
          else alloc_loop fuel' res (lmb_align_down (u64 (res_base - size_)) align) size_ align lmbbase
    end
  else Some None.

(** [for (i = lmb->memory.cnt-1; i >= 0; i--)]; [n] is [i + 1]. *)
Fixpoint alloc_banks (n : nat) (l : lmb) (size_ align max_addr : Z) : option (Z * lmb_region) :=
  match n with
  | O => Some (0, reserved l)
  | S i =>
      p ← rget (memory l) (Z.of_nat i);
      let lmbbase := base p in
      let lmbsize := size p in
      if lmbsize <? size_ then alloc_banks i l size_ align max_addr
      else
        let try base_ :=
          r ← alloc_loop 10 (reserved l) base_ size_ align lmbbase;
          match r with
          | Some res => Some res
          | None => alloc_banks i l size_ align max_addr
          end in
        if max_addr =? LMB_ALLOC_ANYWHERE then
          try (lmb_align_down (u64 (lmbbase + lmbsize - size_)) align)
        else if lmbbase <? max_addr then
          let base_ := u64 (lmbbase + lmbsize) in
          let base_ := if base_ <? lmbbase then 2 ^ 64 - 1 else base_ in
          let base_ := Z.min base_ max_addr in
          try (lmb_align_down (u64 (base_ - size_)) align)
        else alloc_banks i l size_ align max_addr
  end.

Definition __lmb_alloc_base (l : lmb) (size_ align max_addr : Z) : option (Z * lmb) :=
  '(a, res) ← alloc_banks (Z.to_nat (cnt (memory l))) l size_ align max_addr;
  Some (a, Lmb_ (memory l) res).

(** Prints a message when the result is 0, and returns it. *)
Definition lmb_alloc_base (l : lmb) (size_ align max_addr : Z) : option (Z * lmb) :=
  __lmb_alloc_base l size_ align max_addr.

Definition lmb_alloc (l : lmb) (size_ align : Z) : option (Z * lmb) :=
  lmb_alloc_base l size_ align LMB_ALLOC_ANYWHERE.

Fixpoint is_reserved_loop (n : nat) (i : Z) (rgn : lmb_region) (addr : Z) : option Z :=
  match n with
  | O => Some 0
  | S n' =>
      p ← rget rgn i;
      let upper := u64 (base p + size p - 1) in
      if (base p <=? addr) && (addr <=? upper) then Some 1
      else is_reserved_loop n' (i + 1) rgn addr
  end.

Definition lmb_is_reserved (l : lmb) (addr : Z) : option Z :=
  is_reserved_loop (Z.to_nat (cnt (reserved l))) 0 (reserved l) addr.

Definition lmb_size_bytes (type : lmb_region) (region_nr : Z) : option Z :=
  p ← rget type region_nr; Some (size p).

(** ** Representation and invariant *)

(** First address behind a region. *)
Definition pend (p : lmb_property) : Z := base p + size p.

(** [rgn] holds exactly the live entries [l], whatever the stale slots are. *)
Definition holds (rgn : lmb_region) (l : list lmb_property) : Prop :=
  cnt rgn = Z.of_nat (length l) /\ Z.of_nat (length l) <= MAX_LMB_REGIONS /\
  exists stale, region rgn = l ++ stale /\ length (region rgn) = 9%nat.

(** A region that is not empty and whose end does not wrap around. *)
Definition prop_ok (p : lmb_property) : Prop :=
  0 <= base p /\ 0 < size p /\ pend p < 2 ^ 64.

(** Strictly below, with a gap: adjacent regions have been glued. *)
Definition gap (p q : lmb_property) : Prop := pend p < base q.

Definition sorted_ok (l : list lmb_property) : Prop :=
  Forall prop_ok l /\ StronglySorted gap l.

(** The table after [lmb_init]: one entry of size zero. *)
Definition fresh (rgn : lmb_region) : Prop := holds rgn [Prop_ 0 0].

Definition table_ok (rgn : lmb_region) : Prop :=
  fresh rgn \/ exists l, l <> [] /\ holds rgn l /\ sorted_ok l.

(** The addresses a table covers. *)
Definition covers (l : list lmb_property) (a : Z) : Prop :=
  exists p, p ∈ l /\ base p <= a < pend p.

Definition live (rgn : lmb_region) : list lmb_property :=
  take (Z.to_nat (cnt rgn)) (region rgn).

Definition covered (rgn : lmb_region) (a : Z) : Prop := covers (live rgn) a.

(** How a region [[b, b+s)] between the entries [L] below and [R] above it is
    glued to its neighbours: number of merges and resulting entries. *)
Inductive glued (b s : Z) : list lmb_property -> list lmb_property -> Z ->
    list lmb_property -> Prop :=
| glue_both L p r R : pend p = b -> base r = b + s ->
    glued b s (L ++ [p]) (r :: R) 2 (L ++ Prop_ (base p) (size p + s + size r) :: R)
| glue_left L p R : pend p = b -> Forall (fun r => b + s < base r) R ->
    glued b s (L ++ [p]) R 1 (L ++ Prop_ (base p) (size p + s) :: R)
| glue_right L r R : Forall (fun p => pend p < b) L -> base r = b + s ->
    glued b s L (r :: R) 1 (L ++ Prop_ b (size r + s) :: R)
| glue_none L R : Forall (fun p => pend p < b) L -> Forall (fun r => b + s < base r) R ->
    glued b s L R 0 (L ++ Prop_ b s :: R).

(** ** The array loops on represented tables *)

Lemma holds_live rgn l : holds rgn l -> live rgn = l.
Proof.
  intros (Hc & _ & st & Hr & _). unfold live.
  rewrite Hc, Hr, Nat2Z.id. apply take_app_length.
Qed.

Lemma remove_loop_spec suf : forall pre p stale c z n,
  c = Z.of_nat (length pre + 1 + length suf) -> c < 2 ^ 64 -> (length suf <= n)%nat ->
  exists stale',
    remove_loop n (Z.of_nat (length pre)) (Region c z (pre ++ p :: suf ++ stale)) =
      Some (Region c z (pre ++ suf ++ stale')) /\ length stale' = S (length stale).
Proof.
  induction suf as [|q suf IH]; intros pre p stale c z n Hc Hlt Hn; simpl in *.
  - exists (p :: stale). split; [|done].
    destruct n; simpl; (bcase; [rewrite wrap_small in E by lia; lia | done]).
  - destruct n as [|n]; [lia|]. simpl.
    rewrite wrap_small by lia. bcase; [|lia].
    unfold rget, rset; simpl.
    rewrite (cons_middle p), (app_assoc pre).
    rewrite zget_middle by (rewrite length_app; simpl; lia). simpl.
    rewrite <- (app_assoc pre). simpl.
    rewrite zset_middle by done. simpl.
    destruct (IH (pre ++ [q]) q stale c z n) as (st & Hst & Hl);
      [rewrite length_app; simpl; lia | done | lia |].
    exists st. split; [|done]. rewrite length_app in Hst; simpl in Hst.
    rewrite Nat2Z.inj_add in Hst. rewrite <- !app_assoc in Hst. simpl in Hst.
    exact Hst.
Qed.

Lemma lmb_remove_region_spec rgn pre p suf :
  holds rgn (pre ++ p :: suf) ->
  exists rgn', lmb_remove_region rgn (Z.of_nat (length pre)) = Some rgn' /\
    holds rgn' (pre ++ suf).
Proof.
  destruct rgn as [c z r]. intros (Hc & Hm & st & Hr & Hl); simpl in *. subst r.
  unfold MAX_LMB_REGIONS in *.
  rewrite <- app_assoc in *; simpl in *.
  destruct (remove_loop_spec suf pre p st c z 10) as (st' & E & Hst'); try len.
  unfold lmb_remove_region. rewrite E. simpl. eexists. split; [done|].
  split; [|split; [unfold MAX_LMB_REGIONS; len|]]; simpl.
  - rewrite wrap_small by len. len.
  - exists st'. split; [by rewrite app_assoc | len].
Qed.

Lemma rget_holds rgn pre p suf i :
  holds rgn (pre ++ p :: suf) -> i = Z.of_nat (length pre) -> rget rgn i = Some p.
Proof.
  intros (_ & _ & st & Hr & _) ->. unfold rget. rewrite Hr, <- app_assoc. simpl.
  by apply zget_middle.
Qed.

Lemma rset_holds rgn pre p q suf i :
  holds rgn (pre ++ p :: suf) -> i = Z.of_nat (length pre) ->
  exists rgn', rset rgn i q = Some rgn' /\ holds rgn' (pre ++ q :: suf).
Proof.
  intros (Hc & Hm & st & Hr & Hl) ->. unfold rset. rewrite Hr, <- app_assoc. simpl.
  rewrite zset_middle by done. simpl. eexists. split; [done|].
  rewrite Hr in Hl. split; [|split]; simpl; [len | len |].
  exists st. split; [by rewrite <- app_assoc | len].
Qed.

Lemma lmb_coalesce_regions_spec rgn pre p q suf i :
  holds rgn (pre ++ p :: q :: suf) -> i = Z.of_nat (length pre) ->
  size p + size q < 2 ^ 64 -> 0 <= size p -> 0 <= size q ->
  exists rgn', lmb_coalesce_regions rgn i (i + 1) = Some rgn' /\
    holds rgn' (pre ++ Prop_ (base p) (size p + size q) :: suf).
Proof.
  intros H -> ? ? ?. unfold lmb_coalesce_regions.
  rewrite (rget_holds _ pre p (q :: suf) (Z.of_nat (length pre))) by done. simpl.
  rewrite (rget_holds _ (pre ++ [p]) q suf) by (by rewrite <- ?app_assoc || len). simpl.
  rewrite wrap_small by lia.
  destruct (rset_holds _ _ _ (Prop_ (base p) (size p + size q)) _ _ H eq_refl)
    as (rgn' & -> & H'). simpl.
  rewrite cons_middle, app_assoc in H'.
  destruct (lmb_remove_region_spec _ _ _ _ H') as (rgn2 & E & Hh).
  rewrite length_app in E. simpl in E. rewrite Nat2Z.inj_add in E.
  exists rgn2. split; [exact E|]. by rewrite <- app_assoc in Hh.
Qed.

(** The glue loop skips the entries that are neither identical nor adjacent. *)
Definition loose (b s : Z) (p : lmb_property) : Prop :=
  prop_ok p /\ (pend p < b \/ b + s < base p).

Lemma coalesce_loop_skip b s (Hb : 0 <= b) (Hs : 0 < s) (He : b + s < 2 ^ 64) rgn L :
  forall pre suf n, holds rgn (pre ++ L ++ suf) -> Forall (loose b s) L ->
  coalesce_loop (length L + n) (Z.of_nat (length pre)) rgn b s =
  coalesce_loop n (Z.of_nat (length pre + length L)) rgn b s.
Proof.
  induction L as [|p L IH]; intros pre suf n H HL; simpl.
  { by rewrite Nat.add_0_r. }
  apply Forall_cons in HL as [((? & ? & ?) & Hlo) HL']. unfold pend in *.
  rewrite (rget_holds _ pre p (L ++ suf)) by done. simpl.
  assert (((base p =? b) && (size p =? s)) = false) as -> by (apply andb_false_iff; lia).
  unfold lmb_addrs_adjacent. rewrite !wrap_small by lia.
  assert ((base p =? b + s) = false) as -> by lia.
  assert ((b =? base p + size p) = false) as -> by lia. simpl.
  replace (Z.of_nat (length pre) + 1) with (Z.of_nat (length (pre ++ [p]))) by len.
  rewrite (IH (pre ++ [p]) suf) by (rewrite <- ?app_assoc; done).
  f_equal. len.
Qed.

Lemma coalesce_loop_skip0 b s (Hb : 0 <= b) (Hs : 0 < s) (He : b + s < 2 ^ 64) rgn L suf n :
  holds rgn (L ++ suf) -> Forall (loose b s) L ->
  coalesce_loop (length L + n) 0 rgn b s = coalesce_loop n (Z.of_nat (length L)) rgn b s.
Proof. intros. by apply (coalesce_loop_skip b s Hb Hs He rgn L [] suf n). Qed.

(** The new region starts where entry [p] ends. *)
Lemma coalesce_loop_left b s (Hb : 0 <= b) (Hs : 0 < s) (He : b + s < 2 ^ 64)
    rgn pre p suf n :
  holds rgn (pre ++ p :: suf) -> prop_ok p -> pend p = b ->
  exists rgn', coalesce_loop (S n) (Z.of_nat (length pre)) rgn b s =
    Some (CoDone (Z.of_nat (length pre)) 1 rgn') /\
    holds rgn' (pre ++ Prop_ (base p) (size p + s) :: suf).
Proof.
  intros H (? & ? & ?) ?. unfold pend in *. simpl.
  rewrite (rget_holds _ pre p suf) by done. simpl.
  assert (((base p =? b) && (size p =? s)) = false) as -> by (apply andb_false_iff; lia).
  unfold lmb_addrs_adjacent. rewrite !wrap_small by lia.
  assert ((base p =? b + s) = false) as -> by lia.
  assert ((b =? base p + size p) = true) as -> by lia. simpl.
  rewrite (wrap_small 64 (size p + s)) by lia.
  destruct (rset_holds _ _ _ (Prop_ (base p) (size p + s)) _ _ H eq_refl)
    as (rgn' & -> & H'). eauto.
Qed.

(** The new region ends where entry [p] starts. *)
Lemma coalesce_loop_right b s (Hb : 0 <= b) (Hs : 0 < s) (He : b + s < 2 ^ 64)
    rgn pre p suf n :
  holds rgn (pre ++ p :: suf) -> prop_ok p -> base p = b + s ->
  exists rgn', coalesce_loop (S n) (Z.of_nat (length pre)) rgn b s =
    Some (CoDone (Z.of_nat (length pre)) 1 rgn') /\
    holds rgn' (pre ++ Prop_ b (size p + s) :: suf).
Proof.
  intros H (? & ? & ?) ?. unfold pend in *. simpl.
  rewrite (rget_holds _ pre p suf) by done. simpl.
  assert (((base p =? b) && (size p =? s)) = false) as -> by (apply andb_false_iff; lia).
  unfold lmb_addrs_adjacent. rewrite !wrap_small by lia.
  assert ((base p =? b + s) = true) as -> by lia. simpl.
  replace (base p - s) with b by lia.
  rewrite ?(wrap_small 64 (size p + s)), ?(wrap_small 64 b) by lia.
  destruct (rset_holds _ _ _ (Prop_ b (size p + s)) _ _ H eq_refl)
    as (rgn' & -> & H'). eauto.
Qed.

(** Sorted insertion: the loop shifts the entries above the new one. *)
Lemma insert_loop_spec b s c z L R (HR : Forall (fun p => b < base p) R) :
  forall x rest, Forall (fun p => base p <= b) L ->
  insert_loop (length (L ++ R)) (Region c z (L ++ R ++ x :: rest)) b s =
  Some (Region c z (match L with
                    | [] => match R with [] => x | h :: _ => h end :: R ++ rest
                    | _ => L ++ Prop_ b s :: R ++ rest
                    end)).
Proof.
  induction R as [|r R IH] using rev_ind; intros x rest HL.
  - rewrite app_nil_r. destruct (last_app_inv L) as [-> | (L' & p & ->)]; [done|].
    rewrite length_app, Nat.add_comm. simpl. unfold rget, rset; simpl.
    rewrite <- app_assoc; simpl. rewrite zget_middle by done. simpl.
    apply Forall_app in HL as [_ [Hp _]%Forall_cons]. bcase; [lia|].
    rewrite (cons_middle p), app_assoc.
    rewrite zset_middle by len. simpl. by destruct L'.
  - apply Forall_app in HR as [HR [Hr _]%Forall_cons].
    rewrite app_assoc, length_app, Nat.add_comm. simpl. unfold rget, rset; simpl.
    rewrite <- !app_assoc; simpl. rewrite app_assoc.
    rewrite zget_middle by done. simpl. bcase; [|lia].
    rewrite (cons_middle r), (app_assoc (L ++ R)).
    rewrite zset_middle by len. simpl.
    rewrite <- !app_assoc. simpl. rewrite IH by done.
    do 2 f_equal. destruct L, R; simpl; rewrite <- ?app_assoc; done.
Qed.


Lemma merge_next_touch rgn pre p q suf c i :
  holds rgn (pre ++ p :: q :: suf) -> i = Z.of_nat (length pre) ->
  prop_ok p -> prop_ok q -> pend p = base q ->
  exists rgn', merge_next i c rgn = Some (c + 1, rgn') /\
    holds rgn' (pre ++ Prop_ (base p) (size p + size q) :: suf).
Proof.
  intros H -> (? & ? & ?) (? & ? & ?) ?. pose proof H as (Hc & Hm & _).
  unfold merge_next, pend, MAX_LMB_REGIONS in *. rewrite wrap_small by len.
  bcase; [|len]. unfold lmb_regions_adjacent.
  rewrite (rget_holds _ pre p (q :: suf) (Z.of_nat (length pre))) by done. simpl.
  rewrite (rget_holds _ (pre ++ [p]) q suf) by (by rewrite <- ?app_assoc || len). simpl.
  unfold lmb_addrs_adjacent. rewrite wrap_small by lia.
  assert ((base q =? base p + size p) = true) as -> by lia. simpl.
  destruct (lmb_coalesce_regions_spec _ _ _ _ _ _ H eq_refl) as (rgn' & -> & H'); try lia.
  eauto.
Qed.

Lemma merge_next_gap rgn pre p suf c i :
  holds rgn (pre ++ p :: suf) -> i = Z.of_nat (length pre) ->
  prop_ok p -> Forall prop_ok suf -> Forall (gap p) suf ->
  merge_next i c rgn = Some (c, rgn).
Proof.
  intros H -> (? & ? & ?) Hok Hgap. pose proof H as (Hc & Hm & _).
  unfold merge_next, pend, MAX_LMB_REGIONS in *.
  destruct suf as [|q suf]; (rewrite wrap_small by len; bcase); try len; [done|].
  unfold lmb_regions_adjacent.
  rewrite (rget_holds _ pre p (q :: suf) (Z.of_nat (length pre))) by done. simpl.
  rewrite (rget_holds _ (pre ++ [p]) q suf) by (by rewrite <- ?app_assoc || len). simpl.
  apply Forall_cons in Hok as [(? & ? & ?) _]. apply Forall_cons in Hgap as [Hg _].
  unfold lmb_addrs_adjacent, gap, pend in *. rewrite !wrap_small by lia.
  assert ((base q =? base p + size p) = false) as -> by lia.
  by assert ((base p =? base q + size q) = false) as -> by lia.
Qed.

Lemma sorted_ok_app l1 l2 :
  sorted_ok (l1 ++ l2) <->
  sorted_ok l1 /\ sorted_ok l2 /\ (forall p q, p ∈ l1 -> q ∈ l2 -> gap p q).
Proof. unfold sorted_ok. rewrite Forall_app, StronglySorted_app. tauto. Qed.

Lemma sorted_ok_cons p l :
  sorted_ok (p :: l) <-> prop_ok p /\ sorted_ok l /\ Forall (gap p) l.
Proof. unfold sorted_ok. rewrite Forall_cons, StronglySorted_cons. tauto. Qed.

Lemma sorted_ok_elem l p : sorted_ok l -> p ∈ l -> prop_ok p.
Proof. intros [H _]. by apply (proj1 (Forall_forall _ _) H). Qed.

Lemma holds_not_fresh rgn l :
  holds rgn l -> l <> [] -> sorted_ok l ->
  exists r0, rget rgn 0 = Some r0 /\ ((cnt rgn =? 1) && (size r0 =? 0)) = false.
Proof.
  intros H Hne Hs. destruct l as [|p l]; [done|].
  exists p. split; [by apply (rget_holds _ [] p l)|].
  apply sorted_ok_cons in Hs as ((? & ? & ?) & _ & _).
  apply andb_false_iff. right. lia.
Qed.

(** The generic continuation of [lmb_add_region] once the glue loop is done. *)
Lemma lmb_add_region_glued rgn l b s i c rgn1 rgn2 c' :
  holds rgn l -> l <> [] -> sorted_ok l ->
  coalesce_loop (length l) 0 rgn b s = Some (CoDone i c rgn1) ->
  merge_next i c rgn1 = Some (c', rgn2) -> c' <> 0 ->
  lmb_add_region rgn b s = Some (c', rgn2).
Proof.
  intros H Hne Hs E1 E2 Hc'. unfold lmb_add_region.
  destruct (holds_not_fresh _ _ H Hne Hs) as (r0 & -> & E0). simpl. rewrite E0.
  destruct H as (Hc & _ & _). rewrite Hc, Nat2Z.id, E1. simpl. rewrite E2. simpl.
  by assert ((c' =? 0) = false) as -> by lia.
Qed.

Lemma add_left rgn L p R b s :
  holds rgn (L ++ p :: R) -> sorted_ok (L ++ p :: R) -> 0 <= b -> 0 < s -> b + s < 2 ^ 64 ->
  pend p = b -> Forall (fun r => b + s <= base r) R ->
  exists r l' rgn', glued b s (L ++ [p]) R r l' /\
    lmb_add_region rgn b s = Some (r, rgn') /\ holds rgn' l'.
Proof.
  intros H Hs ? ? ? Hp HR.
  assert (L ++ p :: R <> []) as Hne by (by destruct L).
  pose proof Hs as (HsL & ((? & ? & ?) & HsR & HgR)%sorted_ok_cons & HLp)%sorted_ok_app.
  assert (Forall (loose b s) L) as HL.
  { apply Forall_forall. intros q Hq. split; [by apply (sorted_ok_elem L)|].
    left. specialize (HLp q p Hq (list_elem_of_here _ _)). unfold gap, pend in *. lia. }
  destruct (coalesce_loop_left b s ltac:(lia) ltac:(lia) ltac:(lia) rgn L p R (length R) H)
    as (rgn1 & E1 & Hh1); [done | done |].
  pose proof (coalesce_loop_skip0 b s ltac:(lia) ltac:(lia) ltac:(lia) rgn L (p :: R)
    (S (length R)) H HL) as E0. rewrite E1 in E0.
  replace (length L + S (length R))%nat with (length (L ++ p :: R)) in E0 by len.
  assert (prop_ok (Prop_ (base p) (size p + s))) by (unfold prop_ok, pend in *; simpl; lia).
  destruct R as [|r R].
  - eexists _, _, rgn1. split; [by apply glue_left|]. split; [|exact Hh1].
    apply (lmb_add_region_glued _ _ _ _ _ _ _ _ _ H Hne Hs E0); [|lia]. by eapply merge_next_gap.
  - apply sorted_ok_cons in HsR as (Hr & HsR & HgrR).
    destruct (decide (base r = b + s)) as [Hrb|Hrb].
    + destruct (merge_next_touch _ _ _ _ _ 1 _ Hh1 eq_refl) as (rgn2 & E2 & Hh2);
        [done | done | unfold pend in *; simpl; lia |].
      eexists _, _, rgn2. split; [by apply glue_both|]. split; [|exact Hh2].
      apply (lmb_add_region_glued _ _ _ _ _ _ _ _ _ H Hne Hs E0 E2). lia.
    + assert (Forall (fun q => b + s < base q) (r :: R)) as HR'.
      { constructor; [apply Forall_cons in HR as [? _]; lia|].
        eapply Forall_impl; [exact HgrR|]. intros q Hq. destruct Hr as (? & ? & ?).
        apply Forall_cons in HR as [? _]. unfold gap, pend in *. lia. }
      eexists _, _, rgn1. split; [by apply glue_left|]. split; [|exact Hh1].
      apply (lmb_add_region_glued _ _ _ _ _ _ _ _ _ H Hne Hs E0); [|lia].
      eapply merge_next_gap; eauto; [constructor; [done|apply HsR]|].
      eapply Forall_impl; [exact HR'|]. unfold gap, pend in *. simpl. intros. lia.
Qed.

Lemma add_right rgn L r R b s :
  holds rgn (L ++ r :: R) -> sorted_ok (L ++ r :: R) -> 0 <= b -> 0 < s -> b + s < 2 ^ 64 ->
  Forall (fun p => pend p < b) L -> base r = b + s ->
  exists r' l' rgn', glued b s L (r :: R) r' l' /\
    lmb_add_region rgn b s = Some (r', rgn') /\ holds rgn' l'.
Proof.
  intros H Hs ? ? ? HL Hr.
  assert (L ++ r :: R <> []) as Hne by (by destruct L).
  pose proof Hs as (HsL & (Hrok & HsR & HgR)%sorted_ok_cons & HLp)%sorted_ok_app.
  assert (Forall (loose b s) L) as HL'.
  { apply Forall_forall. intros q Hq. split; [by apply (sorted_ok_elem L)|].
    left. by apply (proj1 (Forall_forall _ _) HL). }
  destruct (coalesce_loop_right b s ltac:(lia) ltac:(lia) ltac:(lia) rgn L r R (length R) H)
    as (rgn1 & E1 & Hh1); [done | done |].
  pose proof (coalesce_loop_skip0 b s ltac:(lia) ltac:(lia) ltac:(lia) rgn L (r :: R)
    (S (length R)) H HL') as E0. rewrite E1 in E0.
  replace (length L + S (length R))%nat with (length (L ++ r :: R)) in E0 by len.
  eexists _, _, rgn1. split; [by apply glue_right|]. split; [|exact Hh1].
  destruct Hrok as (? & ? & ?).
  apply (lmb_add_region_glued _ _ _ _ _ _ _ _ _ H Hne Hs E0); [|lia].
  eapply merge_next_gap; eauto.
  - unfold prop_ok, pend in *; simpl; lia.
  - apply HsR.
  - eapply Forall_impl; [exact HgR|]. unfold gap, pend. simpl. intros. lia.
Qed.

Lemma add_none rgn L R b s :
  holds rgn (L ++ R) -> L ++ R <> [] -> sorted_ok (L ++ R) ->
  0 <= b -> 0 < s -> b + s < 2 ^ 64 ->
  Forall (fun p => pend p < b) L -> Forall (fun r => b + s < base r) R ->
  (length (L ++ R) = 8%nat /\ lmb_add_region rgn b s = Some (-1, rgn)) \/
  ((length (L ++ R) < 8)%nat /\ exists rgn', lmb_add_region rgn b s = Some (0, rgn') /\
    holds rgn' (L ++ Prop_ b s :: R)).
Proof.
  intros H Hne Hs ? ? ? HL HR.
  assert (Forall (loose b s) (L ++ R)) as Hloose.
  { apply Forall_forall. intros q Hq. split; [by apply (sorted_ok_elem (L ++ R))|].
    apply elem_of_app in Hq as [Hq|Hq]; [left; by apply (proj1 (Forall_forall _ _) HL)
      | right; by apply (proj1 (Forall_forall _ _) HR)]. }
  pose proof (coalesce_loop_skip0 b s ltac:(lia) ltac:(lia) ltac:(lia) rgn (L ++ R) [] 0
    ltac:(by rewrite app_nil_r) Hloose) as E0. rewrite Nat.add_0_r in E0.
  unfold lmb_add_region.
  destruct (holds_not_fresh _ _ H Hne Hs) as (r0 & -> & Er0). simpl. rewrite Er0.
  destruct rgn as [c z arr]. destruct H as (Hc & Hm & st & Hr & Hl).
  cbn [cnt rsize region] in *. subst c arr.
  rewrite Nat2Z.id, E0. simpl. unfold merge_next, MAX_LMB_REGIONS in *. simpl.
  assert (length (L ++ R) <> 0%nat) by (by rewrite length_zero_iff_nil).
  rewrite wrap_small by lia. bcase; [lia|]. simpl. bcase; [left; split; [lia | done]|].
  right. split; [lia|].
  destruct st as [|x st]; [rewrite app_nil_r in Hl; lia|].
  rewrite Nat2Z.id, <- app_assoc.
  assert (Forall (fun p => base p <= b) L) as HLb.
  { eapply Forall_impl; [|intros q; exact id]. apply Forall_forall. intros q Hq.
    pose proof (proj1 (Forall_forall _ _) HL q Hq) as Hqb. simpl in Hqb.
    destruct (sorted_ok_elem _ q Hs) as (? & ? & ?); [set_solver|]. unfold pend in *. lia. }
  assert (Forall (fun p => b < base p) R) as HRb.
  { eapply Forall_impl; [exact HR|]. simpl. intros. lia. }
  rewrite insert_loop_spec by done. simpl.
  assert (forall arr', arr' = (L ++ Prop_ b s :: R) ++ st ->
    holds (set_cnt (Region (Z.of_nat (length (L ++ R))) z arr')
      (Z.of_nat (length (L ++ R)) + 1)) (L ++ Prop_ b s :: R)) as Hfin.
  { intros arr' ->. split; [|split; [unfold MAX_LMB_REGIONS; len|]]; simpl.
    - rewrite wrap_small by len. len.
    - exists st. split; [done | len]. }
  destruct L as [|p L].
  - destruct R as [|h R]; [done|]. simpl.
    apply Forall_cons in HRb as [Hh _].
    assert ((b <? base h) = true) as -> by lia. simpl. eauto.
  - simpl. apply Forall_cons in HLb as [Hp _].
    assert ((b <? base p) = false) as -> by lia. simpl. eexists. split; [done|].
    apply Hfin. simpl. by rewrite <- app_assoc.
Qed.

(** ** Gluing keeps the table sorted and covers the union *)

Ltac props := unfold prop_ok, gap, pend in *; simpl in *.

Lemma covers_app l1 l2 a : covers (l1 ++ l2) a <-> covers l1 a \/ covers l2 a.
Proof. unfold covers. setoid_rewrite elem_of_app. firstorder. Qed.

Lemma covers_cons p l a : covers (p :: l) a <-> base p <= a < pend p \/ covers l a.
Proof.
  unfold covers. setoid_rewrite elem_of_cons. split.
  - intros (q & [-> | ?] & ?); [by left | right; eauto].
  - intros [? | (q & ? & ?)]; [exists p | exists q]; auto.
Qed.

Lemma covers_nil a : covers [] a <-> False.
Proof. unfold covers. split; [|done]. intros (p & Hp & _). by apply elem_of_nil in Hp. Qed.

Lemma glued_covers b s L R r l' a :
  glued b s L R r l' -> sorted_ok (L ++ R) -> 0 < s ->
  covers l' a <-> covers (L ++ R) a \/ b <= a < b + s.
Proof.
  intros Hg Hok Hs. pose proof Hok as (HL & HR & _)%sorted_ok_app.
  destruct Hg as [L p q R Hp Hq | L p R Hp HR' | L q R HL' Hq | L R HL' HR'];
    rewrite ?covers_app, ?covers_cons, ?covers_app, ?covers_cons, ?covers_nil; props.
  - apply sorted_ok_app in HL as (_ & ((? & ? & ?) & _)%sorted_ok_cons & _).
    apply sorted_ok_cons in HR as ((? & ? & ?) & _ & _). props.
    split; intros; destruct_or?; try tauto; lia || (assert (base p <= a < base p + size p \/ b <= a < b + s \/ base q <= a < base q + size q) by lia; tauto).
  - apply sorted_ok_app in HL as (_ & ((? & ? & ?) & _)%sorted_ok_cons & _). props.
    split; intros; destruct_or?; try tauto; lia || (assert (base p <= a < base p + size p \/ b <= a < b + s) by lia; tauto).
  - apply sorted_ok_cons in HR as ((? & ? & ?) & _ & _). props.
    split; intros; destruct_or?; try tauto; lia || (assert (base q <= a < base q + size q \/ b <= a < b + s) by lia; tauto).
  - tauto.
Qed.

Lemma glued_sorted b s L R r l' :
  glued b s L R r l' -> sorted_ok (L ++ R) -> 0 <= b -> 0 < s -> b + s < 2 ^ 64 ->
  sorted_ok l'.
Proof.
  intros Hg Hok Hb Hs He. pose proof Hok as (HL & HR & HLR)%sorted_ok_app.
  destruct Hg as [L p q R Hp Hq | L p R Hp HR' | L q R HL' Hq | L R HL' HR'].
  - apply sorted_ok_app in HL as (HL & ((? & ? & ?) & _)%sorted_ok_cons & HLp).
    apply sorted_ok_cons in HR as ((? & ? & ?) & HR & HqR).
    apply sorted_ok_app. split; [done|]. split.
    + apply sorted_ok_cons. split; [props; lia|]. split; [done|].
      eapply Forall_impl; [exact HqR|]. props. lia.
    + intros x y Hx [->|Hy]%elem_of_cons.
      * pose proof (HLp x p Hx ltac:(set_solver)). props. lia.
      * apply HLR; set_solver.
  - apply sorted_ok_app in HL as (HL & ((? & ? & ?) & _)%sorted_ok_cons & HLp).
    apply sorted_ok_app. split; [done|]. split.
    + apply sorted_ok_cons. split; [props; lia|]. split; [done|].
      eapply Forall_impl; [exact HR'|]. props. lia.
    + intros x y Hx [->|Hy]%elem_of_cons.
      * pose proof (HLp x p Hx ltac:(set_solver)). props. lia.
      * apply HLR; set_solver.
  - apply sorted_ok_cons in HR as ((? & ? & ?) & HR & HqR).
    apply sorted_ok_app. split; [done|]. split.
    + apply sorted_ok_cons. split; [props; lia|]. split; [done|].
      eapply Forall_impl; [exact HqR|]. props. lia.
    + intros x y Hx [->|Hy]%elem_of_cons.
      * pose proof (proj1 (Forall_forall _ _) HL' x Hx). props. lia.
      * apply HLR; set_solver.
  - apply sorted_ok_app. split; [done|]. split.
    + apply sorted_ok_cons. split; [props; lia|]. split; [done|].
      eapply Forall_impl; [exact HR'|]. props. lia.
    + intros x y Hx [->|Hy]%elem_of_cons.
      * pose proof (proj1 (Forall_forall _ _) HL' x Hx). props. lia.
      * by apply HLR.
Qed.

(** A region disjoint from a sorted table splits it. *)
Lemma split_disjoint l b s :
  sorted_ok l -> 0 < s -> (forall a, b <= a < b + s -> ~ covers l a) ->
  exists L R, l = L ++ R /\ Forall (fun p => pend p <= b) L /\
    Forall (fun r => b + s <= base r) R.
Proof.
  intros Hok Hs. induction l as [|p l IH]; intros Hd; [by exists [], []|].
  apply sorted_ok_cons in Hok as ((? & ? & ?) & Hok & Hg).
  destruct (decide (pend p <= b)) as [Hp|Hp].
  - destruct IH as (L & R & -> & HL & HR); [done | intros a Ha Hc; apply (Hd a Ha);
      apply covers_cons; by right |].
    exists (p :: L), R. split; [done|]. split; [by constructor | done].
  - assert (b + s <= base p) as Hb.
    { destruct (decide (b + s <= base p)) as [|Hn]; [done|]. exfalso.
      apply (Hd (Z.max b (base p))); [props; lia|]. apply covers_cons. left. props. lia. }
    exists [], (p :: l). split; [done|]. split; [done|]. constructor; [done|].
    eapply Forall_impl; [exact Hg|]. props. lia.
Qed.

Lemma add_region_glued rgn L R b s :
  holds rgn (L ++ R) -> L ++ R <> [] -> sorted_ok (L ++ R) ->
  0 <= b -> 0 < s -> b + s < 2 ^ 64 ->
  Forall (fun p => pend p <= b) L -> Forall (fun r => b + s <= base r) R ->
  exists r l', glued b s L R r l' /\
    ((length (L ++ R) = 8%nat /\ lmb_add_region rgn b s = Some (-1, rgn)) \/
     exists rgn', lmb_add_region rgn b s = Some (r, rgn') /\ holds rgn' l').
Proof.
  intros H Hne Hok Hb Hs He HL HR.
  pose proof Hok as (HokL & HokR & HLR)%sorted_ok_app.
  destruct (last_app_inv L) as [-> | (L' & p & ->)].
  - simpl in *. destruct R as [|q R]; [done|].
    apply sorted_ok_cons in HokR as ((? & ? & ?) & _ & HgR).
    apply Forall_cons in HR as [Hq HR]. destruct (decide (base q = b + s)).
    + destruct (add_right rgn [] q R b s) as (r & l' & rgn' & ? & ? & ?); eauto 10.
    + assert (Forall (fun r => b + s < base r) (q :: R)) as HR'.
      { constructor; [lia|]. eapply Forall_impl; [exact HgR|]. props. lia. }
      exists 0, (Prop_ b s :: q :: R). split; [by apply (glue_none b s [])|].
      destruct (add_none rgn [] (q :: R) b s) as [[? ?]|(? & ? & ? & ?)]; eauto.
  - apply Forall_app in HL as [HL [Hp _]%Forall_cons].
    apply sorted_ok_app in HokL as (_ & ((? & ? & ?) & _)%sorted_ok_cons & HLp).
    destruct (decide (pend p = b)) as [|Hpb].
    + rewrite <- app_assoc in *. destruct (add_left rgn L' p R b s) as (r & l' & rgn' & ? & ? & ?); eauto 10.
    + assert (Forall (fun q => pend q < b) (L' ++ [p])) as HL'.
      { apply Forall_app. split; [|constructor; [props; lia | done]].
        apply Forall_forall. intros x Hx. specialize (HLp x p Hx ltac:(set_solver)). props. lia. }
      destruct R as [|q R].
      * exists 0, ((L' ++ [p]) ++ [Prop_ b s]). split; [by apply glue_none|].
        destruct (add_none rgn (L' ++ [p]) [] b s) as [[? ?]|(? & ? & ? & ?)]; eauto.
      * apply sorted_ok_cons in HokR as ((? & ? & ?) & _ & HgR).
        apply Forall_cons in HR as [Hq HR]. destruct (decide (base q = b + s)).
        -- destruct (add_right rgn (L' ++ [p]) q R b s) as (r & l' & rgn' & ? & ? & ?); eauto 10.
        -- assert (Forall (fun r => b + s < base r) (q :: R)) as HR'.
           { constructor; [lia|]. eapply Forall_impl; [exact HgR|]. props. lia. }
           exists 0, ((L' ++ [p]) ++ Prop_ b s :: q :: R). split; [by apply glue_none|].
           destruct (add_none rgn (L' ++ [p]) (q :: R) b s) as [[? ?]|(? & ? & ? & ?)]; eauto.
Qed.

(** ** Alignment *)

Lemma Forall_app_cons {A} (P : A -> Prop) l1 x l2 :
  Forall P (l1 ++ x :: l2) -> Forall P l1 /\ P x /\ Forall P l2.
Proof. by rewrite Forall_app, Forall_cons. Qed.

Lemma lnotw_ones k : 0 <= k < 64 -> lnotw 64 (u64 (2 ^ k - 1)) = Z.ldiff (Z.ones 64) (Z.ones k).
Proof.
  intros Hk. assert (0 < 2 ^ k < 2 ^ 64).
  { split; [apply Z.pow_pos_nonneg; lia | apply Z.pow_lt_mono_r; lia]. }
  unfold lnotw. rewrite (wrap_small 64 (2 ^ k - 1)) by lia. unfold wrap.
  rewrite <- Z.land_ones by lia. rewrite Z.land_comm.
  replace (2 ^ k - 1) with (Z.ones k) by (rewrite Z.ones_equiv; lia).
  by rewrite <- Z.ldiff_land.
Qed.

Lemma lmb_align_down_spec x k :
  0 <= x < 2 ^ 64 -> 0 <= k < 64 -> lmb_align_down x (2 ^ k) = x - x mod 2 ^ k.
Proof.
  intros Hx Hk. unfold lmb_align_down. rewrite lnotw_ones by done.
  rewrite !Z.ldiff_land, Z.land_assoc, Z.land_ones by lia.
  rewrite Z.mod_small by lia. rewrite <- Z.ldiff_land, Z.ldiff_ones_r by lia.
  rewrite Z.shiftl_mul_pow2, Z.shiftr_div_pow2 by lia.
  pose proof (Z.div_mod x (2 ^ k) ltac:(apply Z.pow_nonzero; lia)). lia.
Qed.

Lemma lmb_align_down_le x k :
  0 <= x < 2 ^ 64 -> 0 <= k < 64 ->
  0 <= lmb_align_down x (2 ^ k) <= x /\ lmb_align_down x (2 ^ k) mod 2 ^ k = 0.
Proof.
  intros. rewrite lmb_align_down_spec by done.
  pose proof (Z.mod_pos_bound x (2 ^ k) ltac:(apply Z.pow_pos_nonneg; lia)).
  pose proof (Z.mod_le x (2 ^ k) ltac:(lia) ltac:(apply Z.pow_pos_nonneg; lia)).
  split; [lia|]. rewrite Zminus_mod_idemp_r. by rewrite Z.sub_diag.
Qed.

(** ** Overlap search *)

(** Enough for the search loops: bases strictly increase, nothing wraps. *)
Definition weak_ok (l : list lmb_property) : Prop :=
  Forall (fun p => 0 <= base p /\ 0 <= size p /\ pend p < 2 ^ 64) l /\
  StronglySorted (fun p q => base p < base q) l.

Definition apart (b s : Z) (p : lmb_property) : Prop := pend p <= b \/ b + s <= base p.

Lemma sorted_weak l : sorted_ok l -> weak_ok l.
Proof.
  intros [Ho Hs]. split.
  - eapply Forall_impl; [exact Ho|]. props. lia.
  - induction Hs as [|p l Hs IH Hg]; [constructor|].
    apply Forall_cons in Ho as [Hp Ho]. constructor; [by apply IH|].
    eapply Forall_impl; [exact Hg|]. props. lia.
Qed.

Lemma overlaps_loop_spec b s rgn suf :
  0 <= b -> 0 <= s -> b + s < 2 ^ 64 ->
  forall pre, holds rgn (pre ++ suf) ->
  Forall (fun p => 0 <= base p /\ 0 <= size p /\ pend p < 2 ^ 64) suf ->
  (overlaps_loop (length suf) (Z.of_nat (length pre)) rgn b s = Some (-1) /\
   Forall (apart b s) suf) \/
  (exists s1 p s2, suf = s1 ++ p :: s2 /\ ~ apart b s p /\
    overlaps_loop (length suf) (Z.of_nat (length pre)) rgn b s =
      Some (Z.of_nat (length pre + length s1))).
Proof.
  intros Hb Hs He. induction suf as [|p suf IH]; intros pre H Hok; [by left|].
  apply Forall_cons in Hok as [(? & ? & ?) Hok]. simpl.
  rewrite (rget_holds _ pre p suf) by done. simpl.
  unfold lmb_addrs_overlap, pend in *. rewrite !wrap_small by lia. bcase.
  - right. exists [], p, suf. split; [done|]. split; [unfold apart, pend; lia|].
    by rewrite Nat.add_0_r.
  - apply andb_false_iff in E.
    assert (apart b s p) by (unfold apart, pend; destruct E; zbool; lia).
    replace (Z.of_nat (length pre) + 1) with (Z.of_nat (length (pre ++ [p]))) by len.
    destruct (IH (pre ++ [p])) as [[E1 Ha] | (s1 & q & s2 & -> & Hq & E1)];
      [by rewrite <- app_assoc | done | left | right].
    + rewrite E1. split; [done | by constructor].
    + exists (p :: s1), q, s2. split; [done|]. split; [done|].
      rewrite E1. f_equal. len.
Qed.

Lemma lmb_overlaps_region_spec rgn l b s :
  0 <= b -> 0 <= s -> b + s < 2 ^ 64 -> holds rgn l -> weak_ok l ->
  (lmb_overlaps_region rgn b s = Some (-1) /\ Forall (apart b s) l) \/
  (exists l1 p l2, l = l1 ++ p :: l2 /\ ~ apart b s p /\
    lmb_overlaps_region rgn b s = Some (Z.of_nat (length l1))).
Proof.
  intros Hb Hs He H [Hok _]. unfold lmb_overlaps_region. pose proof H as (-> & _).
  rewrite Nat2Z.id. by apply (overlaps_loop_spec b s rgn l) with (pre := []).
Qed.

(** ** [lmb_add_region] never leaves the table *)

Lemma coalesce_loop_total b s rgn suf : forall pre, holds rgn (pre ++ suf) ->
  coalesce_loop (length suf) (Z.of_nat (length pre)) rgn b s = Some CoAlready \/
  coalesce_loop (length suf) (Z.of_nat (length pre)) rgn b s =
    Some (CoDone (Z.of_nat (length (pre ++ suf))) 0 rgn) \/
  exists s1 p p' s2 rgn', suf = s1 ++ p :: s2 /\ holds rgn' (pre ++ s1 ++ p' :: s2) /\
    coalesce_loop (length suf) (Z.of_nat (length pre)) rgn b s =
      Some (CoDone (Z.of_nat (length (pre ++ s1))) 1 rgn').
Proof.
  induction suf as [|p suf IH]; intros pre H; [right; left; by rewrite app_nil_r|].
  simpl. rewrite (rget_holds _ pre p suf) by done. simpl.
  bcase; [by left|].
  assert (forall p', exists rgn', rset rgn (Z.of_nat (length pre)) p' = Some rgn' /\
    holds rgn' (pre ++ p' :: suf)) as Hset by (intros; by eapply rset_holds).
  repeat (bcase; [edestruct Hset as (rgn' & -> & Hh); right; right; simpl;
    eexists [], p, _, suf, rgn'; rewrite app_nil_r; by eauto|]).
  replace (Z.of_nat (length pre) + 1) with (Z.of_nat (length (pre ++ [p]))) by len.
  destruct (IH (pre ++ [p])) as [Ei | [Ei | (s1 & q & q' & s2 & rgn' & -> & Hh & Ei)]];
    [by rewrite <- app_assoc | by left | right; left | right; right].
  - rewrite Ei. by rewrite <- app_assoc.
  - exists (p :: s1), q, q', s2, rgn'. rewrite Ei. rewrite <- !app_assoc in *. done.
Qed.

Lemma merge_next_total rgn l i c :
  holds rgn l -> l <> [] -> 0 <= i ->
  exists c' rgn' l', merge_next i c rgn = Some (c', rgn') /\ holds rgn' l' /\ l' <> [] /\
    c <= c' /\ (length l' <= length l)%nat.
Proof.
  intros H Hne Hi. pose proof H as (Hc & Hm & _). unfold merge_next, MAX_LMB_REGIONS in *.
  assert (length l <> 0%nat) by (by rewrite length_zero_iff_nil).
  rewrite wrap_small by lia. bcase; [|exists c, rgn, l; auto with lia].
  assert (exists pre p q suf, l = pre ++ p :: q :: suf /\ i = Z.of_nat (length pre))
    as (pre & p & q & suf & -> & ->).
  { destruct (lookup_lt_is_Some_2 l (Z.to_nat i)) as [p Hp]; [lia|].
    destruct (lookup_lt_is_Some_2 l (S (Z.to_nat i))) as [q Hq]; [lia|].
    apply list_elem_of_split_length in Hp as (l1 & l2 & -> & Hl1).
    rewrite lookup_app_r in Hq by lia.
    replace (S (Z.to_nat i) - length l1)%nat with 1%nat in Hq by lia.
    destruct l2 as [|q' l2]; simplify_eq/=. exists l1, p, q, l2. split; [done|lia]. }
  unfold lmb_regions_adjacent.
  rewrite (rget_holds _ pre p (q :: suf) (Z.of_nat (length pre))) by done. simpl.
  rewrite (rget_holds _ (pre ++ [p]) q suf) by (by rewrite <- ?app_assoc || len). simpl.
  bcase; [eexists _, _, _; split; [done|]; split; [done|]; auto with lia|].
  unfold lmb_coalesce_regions.
  rewrite (rget_holds _ pre p (q :: suf) (Z.of_nat (length pre))) by done. simpl.
  rewrite (rget_holds _ (pre ++ [p]) q suf) by (by rewrite <- ?app_assoc || len). simpl.
  destruct (rset_holds _ _ _ (Prop_ (base p) (u64 (size p + size q))) _ _ H eq_refl)
    as (rgn' & -> & H'). simpl.
  rewrite cons_middle, app_assoc in H'.
  destruct (lmb_remove_region_spec _ _ _ _ H') as (rgn2 & E2 & Hh).
  replace (Z.of_nat (length pre) + 1) with
    (Z.of_nat (length (pre ++ [Prop_ (base p) (u64 (size p + size q))]))) by len.
  rewrite E2. simpl. eexists _, _, _. split; [done|]. split; [done|].
  split; [by destruct pre|]. len.
Qed.

Lemma insert_loop_total b s c z l : forall x rest, exists arr,
  insert_loop (length l) (Region c z (l ++ x :: rest)) b s = Some (Region c z arr) /\
  length arr = length (l ++ x :: rest).
Proof.
  induction l as [|p l IH] using rev_ind; intros x rest; [by eexists|].
  rewrite length_app, Nat.add_comm. simpl. unfold rget, rset; simpl.
  rewrite <- app_assoc; simpl. rewrite zget_middle by done. simpl.
  rewrite (cons_middle p), app_assoc. bcase.
  - rewrite zset_middle by len. simpl. rewrite <- app_assoc. simpl.
    destruct (IH p (p :: rest)) as (arr & -> & Hl). eexists. split; [done|]. len.
  - rewrite zset_middle by len. simpl. eexists. split; [done|]. len.
Qed.

(** On every non-empty table, whatever the region to add: no access leaves the
    array and the result is again a table of at most [MAX_LMB_REGIONS]. *)
Lemma lmb_add_region_total rgn l b s :
  holds rgn l -> l <> [] ->
  exists r rgn' l', lmb_add_region rgn b s = Some (r, rgn') /\ holds rgn' l' /\ l' <> [].
Proof.
  intros H Hne. unfold lmb_add_region.
  destruct l as [|p0 l0]; [done|].
  rewrite (rget_holds _ [] p0 l0) by done. simpl. bcase.
  { destruct (rset_holds _ [] p0 (Prop_ b s) l0 0 H eq_refl) as (rgn' & -> & H').
    eexists _, _, _. split; [done|]. by split. }
  pose proof H as (Hc & Hm & _). rewrite Hc, Nat2Z.id.
  assert (forall c i rgn1 l1, holds rgn1 l1 -> l1 <> [] -> 0 <= i ->
    exists r rgn' l', (merge_next i c rgn1 ≫= fun '(coalesced, rgn2) =>
        if negb (coalesced =? 0) then Some (coalesced, rgn2)
        else if MAX_LMB_REGIONS <=? cnt rgn2 then Some (-1, rgn2)
        else
          rgn3 ← insert_loop (Z.to_nat (cnt rgn2)) rgn2 b s;
          r0 ← rget rgn3 0;
          rgn4 ← (if b <? base r0 then rset rgn3 0 (Prop_ b s) else Some rgn3);
          Some (0, set_cnt rgn4 (cnt rgn4 + 1))) = Some (r, rgn') /\
      holds rgn' l' /\ l' <> []) as Hcont.
  { intros c i rgn1 l1 H1 Hne1 Hi.
    destruct (merge_next_total rgn1 l1 i c H1 Hne1 Hi) as (c' & rgn2 & l2 & -> & H2 & Hne2 & _).
    simpl. bcase; [by eauto 10|]. bcase; [by eauto 10|].
    destruct rgn2 as [cn z arr]. destruct H2 as (Hc2 & Hm2 & st & Hr & Hl).
    cbn [cnt rsize region] in *. subst cn arr. unfold MAX_LMB_REGIONS in *.
    destruct st as [|x st]; [rewrite app_nil_r in Hl; lia|].
    rewrite Nat2Z.id. destruct (insert_loop_total b s (Z.of_nat (length l2)) z l2 x st)
      as (arr & -> & Harr). simpl. rewrite Hl in Harr.
    destruct arr as [|y arr]; [done|]. unfold rget, rset. simpl.
    assert (forall y', holds (Region (u64 (Z.of_nat (length l2) + 1)) z (y' :: arr))
      (take (S (length l2)) (y' :: arr))) as Hfin.
    { intros y'. split; [|split]; simpl in *; rewrite ?length_take.
      - rewrite wrap_small by lia. lia.
      - unfold MAX_LMB_REGIONS. lia.
      - exists (drop (length l2) arr). by rewrite take_drop. }
    bcase; simpl; (eexists _, _, _; split; [done|]; split; [apply Hfin | done]). }
  destruct (coalesce_loop_total b s rgn (p0 :: l0) [] H)
    as [Ei | [Ei | (s1 & q & q' & s2 & rgn' & Heq & Hh & Ei)]];
    change (Z.of_nat (length [])) with 0 in Ei; rewrite Ei.
  - eexists _, _, _. split; [done|]. by split.
  - apply (Hcont 0 _ _ (p0 :: l0)); [done | done | lia].
  - apply (Hcont 1 _ _ (s1 ++ q' :: s2)); [done | by destruct s1 | lia].
Qed.

Lemma alloc_loop_S fuel res base_ size_ align lmbbase :
  alloc_loop (S fuel) res base_ size_ align lmbbase =
  if negb (base_ =? 0) && (lmbbase <=? base_) then
    j ← lmb_overlaps_region res base_ size_;
    if j <? 0 then
      '(r, res') ← lmb_add_region res base_ (lmb_align_up size_ align);
      if r <? 0 then Some (Some (0, res')) else Some (Some (base_, res'))
    else
      p ← rget res j;
      if base p <? size_ then Some None
      else alloc_loop fuel res (lmb_align_down (u64 (base p - size_)) align) size_ align lmbbase
  else Some None.
Proof. done. Qed.

#[local] Arguments alloc_loop : simpl never.

Lemma alloc_loop_total res l size_ k lmbbase : holds res l -> l <> [] -> weak_ok l ->
  0 < size_ < 2 ^ 64 -> 0 <= k < 64 -> forall fuel base_, 0 <= base_ -> base_ + size_ < 2 ^ 64 ->
  (forall l1 p l2, l = l1 ++ p :: l2 -> base p < base_ + size_ -> (length l1 < fuel)%nat) ->
  alloc_loop (S fuel) res base_ size_ (2 ^ k) lmbbase = Some None \/
  exists a res' l', alloc_loop (S fuel) res base_ size_ (2 ^ k) lmbbase = Some (Some (a, res')) /\
    holds res' l' /\
    (a = 0 \/ lmbbase <= a <= base_ /\ a <> 0 /\
       (a mod 2 ^ k = 0 \/ a = base_) /\ Forall (apart a size_) l /\
       exists r, lmb_add_region res a (lmb_align_up size_ (2 ^ k)) = Some (r, res') /\ 0 <= r).
Proof.
  intros H Hne Hok Hsz Hk. induction fuel as [|fuel IH]; intros base_ Hb He Hf.
  all: rewrite alloc_loop_S; bcase; [|by left].
  all: destruct (lmb_overlaps_region_spec res l base_ size_)
    as [[-> Hap] | (l1 & p & l2 & -> & Hp & ->)]; auto with lia; simpl.
  1, 3: destruct (lmb_add_region_total res l base_ (lmb_align_up size_ (2 ^ k)) H Hne)
      as (r & res' & l' & E1 & Hh & _); right; rewrite E1; simpl; bcase;
      (eexists _, res', l'; split; [done|]; split; [done|]);
      [by left | right; split_and!; [lia | lia | lia | by right | done | exists r; auto with lia]].
  1: exfalso; specialize (Hf l1 p l2 eq_refl); unfold apart in Hp; lia.
  assert (0 <= Z.of_nat (length l1)) by lia.
  assert ((Z.of_nat (length l1) <? 0) = false) as -> by lia.
  rewrite (rget_holds _ l1 p l2) by done. simpl. bcase; [by left|].
  pose proof Hok as [(_ & (? & ? & ?) & _)%Forall_app_cons Hsort].
  rewrite wrap_small by (props; lia).
  destruct (lmb_align_down_le (base p - size_) k) as [? Hal]; [props; lia | done |].
  specialize (Hf l1 p l2 eq_refl).
  destruct (IH (lmb_align_down (base p - size_) (2 ^ k)))
    as [-> | (a & res' & l' & -> & Hh & Ha)]; [lia | props; lia | | by left |].
  { intros m1 q m2 Hm Hq.
    assert (length m1 < length l1)%nat; [|unfold apart in Hp; lia].
    destruct (decide (length m1 < length l1)%nat) as [|Hn]; [done|]. exfalso.
    assert (base p <= base q) as Hpq; [|lia].
    destruct (decide (length m1 = length l1)) as [Heq|Hneq].
    { apply app_inj_1 in Hm as [_ Hm]; [|done]. simplify_eq. lia. }
    assert (exists x, m1 = l1 ++ p :: x) as [x ->].
    { exists (drop (S (length l1)) m1).
      assert (take (length m1) (l1 ++ p :: l2) = m1) as Ht
        by (rewrite Hm; apply take_app_length).
      rewrite <- (take_drop (S (length l1)) m1) at 1. rewrite cons_middle, app_assoc. f_equal.
      rewrite <- Ht at 1. rewrite take_take, Nat.min_l by lia.
      rewrite take_app_ge by lia. by replace (S (length l1) - length l1)%nat with 1%nat by lia. }
    rewrite Hm in Hsort. rewrite <- app_assoc in Hsort. simpl in Hsort.
    apply StronglySorted_app in Hsort as (_ & _ & [Hp' _]%StronglySorted_cons).
    apply Forall_app in Hp' as [_ [? _]%Forall_cons]. lia. }
  right. exists a, res', l'. split; [done|]. split; [done|].
  destruct Ha as [-> | (? & ? & Hmod & ? & ?)]; [by left | right].
  split_and!; auto; [lia | unfold apart in Hp; lia | left; destruct Hmod as [? | ->]; done].
Qed.

Lemma table_ok_weak rgn : table_ok rgn -> exists l, holds rgn l /\ l <> [] /\ weak_ok l.
Proof.
  intros [H | (l & Hne & H & Hs)].
  - exists [Prop_ 0 0]. split; [done|]. split; [done|].
    split; repeat constructor; simpl; try lia.
  - exists l. split_and!; auto using sorted_weak.
Qed.

Lemma add_region_ok rgn b s :
  table_ok rgn -> 0 <= b -> 0 < s -> b + s < 2 ^ 64 ->
  (forall a, b <= a < b + s -> ~ covered rgn a) ->
  exists r rgn', lmb_add_region rgn b s = Some (r, rgn') /\ table_ok rgn' /\
    ((r = -1 /\ rgn' = rgn /\ cnt rgn = MAX_LMB_REGIONS) \/
     (0 <= r <= 2 /\ forall a, covered rgn' a <-> covered rgn a \/ b <= a < b + s)).
Proof.
  intros [H | (l & Hne & H & Hok)] Hb Hs He Hd.
  - destruct (rset_holds _ [] _ (Prop_ b s) [] 0 H eq_refl) as (rgn' & E1 & H').
    exists 0, rgn'. unfold lmb_add_region. rewrite (rget_holds _ [] (Prop_ 0 0) []) by done.
    pose proof H as (Hc & _). rewrite Hc. simpl. rewrite E1. split; [done|]. split.
    + right. exists [Prop_ b s]. split; [done|]. split; [done|].
      apply sorted_ok_cons. split; [props; lia|]. split; [by repeat constructor | done].
    + right. split; [lia|]. intros a. unfold covered.
      rewrite (holds_live _ _ H), (holds_live _ _ H'). simpl.
      rewrite !covers_cons, covers_nil. props. lia.
  - unfold covered in *. rewrite (holds_live _ _ H) in *.
    destruct (split_disjoint l b s Hok Hs Hd) as (L & R & -> & HL & HR).
    destruct (add_region_glued rgn L R b s) as (r & l' & Hg & [[Hl E1] | (rgn' & E1 & H')]); auto.
    + exists (-1), rgn. split; [done|]. split; [right; eauto|]. left.
      destruct H as (Hc & _). unfold MAX_LMB_REGIONS. split_and!; auto; lia.
    + exists r, rgn'. split; [done|]. split.
      * right. exists l'. split; [by destruct Hg; destruct L|]. split; [done|].
        eapply glued_sorted; eauto.
      * right. split; [destruct Hg; lia|]. intros a. rewrite (holds_live _ _ H').
        eapply glued_covers; eauto.
Qed.

Lemma lmb_align_up_multiple x k :
  0 <= x < 2 ^ 64 -> 0 <= k < 64 -> x mod 2 ^ k = 0 -> lmb_align_up x (2 ^ k) = x.
Proof.
  intros Hx Hk Hm. assert (0 < 2 ^ k < 2 ^ 64).
  { split; [apply Z.pow_pos_nonneg; lia | apply Z.pow_lt_mono_r; lia]. }
  change (lmb_align_down (u64 (x + u64 (2 ^ k - 1))) (2 ^ k) = x).
  assert (x + (2 ^ k - 1) < 2 ^ 64) as Hlt.
  { assert (2 ^ 64 = 2 ^ (64 - k) * 2 ^ k) as E64 by (rewrite <- Z.pow_add_r by lia; f_equal; lia).
    apply Z.div_exact in Hm; [|lia]. rewrite E64 in Hx |- *.
    set (q := x / 2 ^ k) in *. set (B := 2 ^ (64 - k)) in *.
    assert (q < B) by nia. nia. }
  rewrite (wrap_small 64 (2 ^ k - 1)), (wrap_small 64 (x + _)) by lia.
  rewrite lmb_align_down_spec by lia.
  rewrite Z.add_mod, Hm by lia. rewrite Z.add_0_l, Z.mod_mod by lia.
  rewrite Z.mod_small by lia. lia.
Qed.

Lemma apart_uncovered a s l : Forall (apart a s) l ->
  forall x, a <= x < a + s -> ~ covers l x.
Proof.
  intros Hap x Hx (p & Hp & ?). pose proof (proj1 (Forall_forall _ _) Hap p Hp) as Hq.
  unfold apart in Hq. lia.
Qed.

(** What a successful allocation promises. *)
Definition alloc_post (lm : list lmb_property) (res res' : lmb_region) (size_ k max_addr a : Z)
  : Prop :=
  a mod 2 ^ k = 0 /\
  (exists p, p ∈ lm /\ base p <= a /\ a + size_ <= pend p) /\
  (max_addr <> 0 -> a + size_ <= max_addr) /\
  (forall x, a <= x < a + size_ -> ~ covered res x) /\
  (size_ mod 2 ^ k = 0 -> table_ok res' /\
     forall x, covered res' x <-> covered res x \/ a <= x < a + size_).

Lemma alloc_loop_post lm p l size_ k max_addr base_ :
  table_ok (reserved l) -> 0 < size_ < 2 ^ 64 -> 0 <= k < 64 ->
  p ∈ lm -> 0 <= base p /\ 0 <= size p /\ pend p < 2 ^ 64 ->
  0 <= base_ -> base_ mod 2 ^ k = 0 -> base_ + size_ <= pend p ->
  (max_addr <> 0 -> base_ + size_ <= max_addr) ->
  alloc_loop 10 (reserved l) base_ size_ (2 ^ k) (base p) = Some None \/
  exists a res', alloc_loop 10 (reserved l) base_ size_ (2 ^ k) (base p) = Some (Some (a, res'))
    /\ (a = 0 \/ alloc_post lm (reserved l) res' size_ k max_addr a).
Proof.
  intros Hok Hsz Hk Hp (Hp1 & Hp2 & Hp3) Hb Hm He Hmax.
  destruct (table_ok_weak _ Hok) as (lr & H & Hne & Hw).
  destruct (alloc_loop_total (reserved l) lr size_ k (base p) H Hne Hw Hsz Hk 9 base_)
    as [-> | (a & res' & l' & -> & Hh & Ha)]; [lia | lia | | by left |].
  { intros l1 q l2 -> _. destruct H as (_ & Hl & _). unfold MAX_LMB_REGIONS in *. len. }
  right. exists a, res'. split; [done|].
  destruct Ha as [-> | (? & ? & Hmod & Hap & r & E1 & Hr)]; [by left | right].
  assert (a mod 2 ^ k = 0) by (by destruct Hmod as [? | ->]).
  assert (forall x, a <= x < a + size_ -> ~ covered (reserved l) x) as Hun.
  { unfold covered. rewrite (holds_live _ _ H). by apply apart_uncovered. }
  split_and!; auto; [exists p; split_and!; auto; lia | lia |].
  intros Hal. rewrite lmb_align_up_multiple in E1 by (auto; lia).
  destruct (add_region_ok (reserved l) a size_) as (r2 & rgn2 & E2 & Hok2 & Hc);
    auto; try lia. rewrite E1 in E2. simplify_eq. split; [done|].
  destruct Hc as [(? & _) | [_ ?]]; [lia | done].
Qed.

Lemma alloc_banks_ok lm l size_ k max_addr :
  holds (memory l) lm ->
  Forall (fun p => 0 <= base p /\ 0 <= size p /\ pend p < 2 ^ 64) lm ->
  table_ok (reserved l) -> 0 < size_ < 2 ^ 64 -> 0 <= k < 64 ->
  0 <= max_addr < 2 ^ 64 -> (max_addr = 0 \/ size_ <= max_addr) ->
  forall n, (n <= length lm)%nat ->
  exists a res', alloc_banks n l size_ (2 ^ k) max_addr = Some (a, res') /\
    (a = 0 \/ alloc_post lm (reserved l) res' size_ k max_addr a).
Proof.
  intros Hm Hlm Hok Hsz Hk Hmax Hms. induction n as [|n IH]; intros Hn; simpl.
  { eexists _, _. split; [done|]. by left. }
  destruct (lookup_lt_is_Some_2 lm n) as [p Hp]; [lia|].
  pose proof (list_elem_of_lookup_2 _ _ _ Hp) as Hin.
  pose proof (proj1 (Forall_forall _ _) Hlm p Hin) as (? & ? & ?).
  pose proof Hp as (l1 & l2 & -> & Hl1)%list_elem_of_split_length.
  rewrite (rget_holds _ l1 p l2) by (done || lia). simpl.
  specialize (IH ltac:(lia)). bcase; [done|].
  assert (forall b, 0 <= b -> b mod 2 ^ k = 0 -> b + size_ <= pend p ->
    (max_addr <> 0 -> b + size_ <= max_addr) ->
    exists a res', (r ← alloc_loop 10 (reserved l) b size_ (2 ^ k) (base p);
          match r with
          | Some res => Some res
          | None => alloc_banks n l size_ (2 ^ k) max_addr
          end) = Some (a, res') /\
      (a = 0 \/ alloc_post (l1 ++ p :: l2) (reserved l) res' size_ k max_addr a)) as Htry.
  { intros b Hb Hbm Hbe Hbx.
    destruct (alloc_loop_post (l1 ++ p :: l2) p l size_ k max_addr b)
      as [-> | (a & res' & -> & Ha)]; auto; simpl; eauto. }
  unfold LMB_ALLOC_ANYWHERE. unfold pend in *. bcase; [|bcase; [|done]].
  - rewrite wrap_small by lia.
    destruct (lmb_align_down_le (base p + size p - size_) k); [lia | done |].
    apply Htry; auto; lia.
  - rewrite (wrap_small 64 (base p + size p)) by lia.
    assert ((base p + size p <? base p) = false) as -> by lia.
    rewrite wrap_small by lia.
    destruct (lmb_align_down_le (Z.min (base p + size p) max_addr - size_) k); [lia | done |].
    apply Htry; auto; lia.
Qed.

Lemma is_reserved_loop_spec rgn addr suf : forall pre, holds rgn (pre ++ suf) ->
  Forall prop_ok suf -> 0 <= addr < 2 ^ 64 ->
  is_reserved_loop (length suf) (Z.of_nat (length pre)) rgn addr = Some 1 /\ covers suf addr \/
  is_reserved_loop (length suf) (Z.of_nat (length pre)) rgn addr = Some 0 /\ ~ covers suf addr.
Proof.
  induction suf as [|p suf IH]; intros pre H Hok Ha.
  { right. split; [done|]. intros Hc. by apply covers_nil in Hc. }
  apply Forall_cons in Hok as [(? & ? & ?) Hok]. simpl.
  rewrite (rget_holds _ pre p suf) by done. simpl. rewrite covers_cons.
  props. rewrite wrap_small by lia. bcase; [left; split; [done | lia]|].
  apply andb_false_iff in E.
  replace (Z.of_nat (length pre) + 1) with (Z.of_nat (length (pre ++ [p]))) by len.
  destruct (IH (pre ++ [p])) as [[-> ?] | [-> Hn]];
    [by rewrite <- app_assoc | done | done | left; split; [done | by right] | right].
  split; [done|]. intros [? | ?]; [|done]. destruct E; zbool; lia.
Qed.

Lemma free_loop_spec rgn b e suf : forall pre, holds rgn (pre ++ suf) -> Forall prop_ok suf ->
  (free_loop (length suf) (Z.of_nat (length pre)) rgn b e = Some None /\
   Forall (fun p => ~ (base p <= b /\ e <= pend p)) suf) \/
  exists s1 p s2, suf = s1 ++ p :: s2 /\ base p <= b /\ e <= pend p /\
    free_loop (length suf) (Z.of_nat (length pre)) rgn b e =
      Some (Some (Z.of_nat (length (pre ++ s1)), base p, pend p)).
Proof.
  induction suf as [|p suf IH]; intros pre H Hok; [by left|].
  apply Forall_cons in Hok as [(? & ? & ?) Hok]. simpl.
  rewrite (rget_holds _ pre p suf) by done. simpl. props. rewrite wrap_small by lia. bcase.
  - right. exists [], p, suf. rewrite app_nil_r. split_and!; auto.
  - apply andb_false_iff in E.
    replace (Z.of_nat (length pre) + 1) with (Z.of_nat (length (pre ++ [p]))) by len.
    destruct (IH (pre ++ [p])) as [[-> Hall] | (s1 & q & s2 & -> & Hq1 & Hq2 & ->)];
      [by rewrite <- app_assoc | done | left | right].
    + split; [done|]. constructor; [|done]. destruct E; zbool; lia.
    + exists (p :: s1), q, s2. rewrite <- app_assoc. by split_and!.
Qed.

(** Cutting a hole: the entries below, the two remaining parts, the entries above. *)
Lemma covers_hole pre p suf b e parts a :
  sorted_ok (pre ++ p :: suf) -> base p <= b -> b < e -> e <= pend p ->
  (covers parts a <-> base p <= a < b \/ e <= a < pend p) ->
  covers (pre ++ parts ++ suf) a <-> covers (pre ++ p :: suf) a /\ ~ (b <= a < e).
Proof.
  intros (Hpre & ((? & ? & ?) & Hsuf & Hgap)%sorted_ok_cons & Hlt)%sorted_ok_app Hb Hbe He Hparts.
  rewrite !covers_app, covers_cons, Hparts.
  assert (covers pre a -> a < base p) as Hlo.
  { intros (q & Hq & Hqa). specialize (Hlt q p Hq (list_elem_of_here _ _)). props. lia. }
  assert (covers suf a -> pend p < a) as Hhi.
  { intros (q & Hq & Hqa). pose proof (proj1 (Forall_forall _ _) Hgap q Hq). props. lia. }
  split.
  - intros [Hc | [Hc | Hc]]; [specialize (Hlo Hc) | | specialize (Hhi Hc)]; split; auto; lia.
  - intros [[Hc | [Hc | Hc]] Hn]; [by left | right; left; lia | by right; right].
Qed.

Lemma free_region_found rgn l b s :
  holds rgn l -> sorted_ok l -> 0 <= b -> 0 < s -> b + s < 2 ^ 64 ->
  (exists p, p ∈ l /\ base p <= b /\ b + s <= pend p) ->
  exists pre p suf, l = pre ++ p :: suf /\ base p <= b /\ b + s <= pend p /\
    free_loop (Z.to_nat (cnt rgn)) 0 rgn b (b + s) =
      Some (Some (Z.of_nat (length pre), base p, pend p)).
Proof.
  intros H [Hok _] Hb Hs He (p & Hp & ?). pose proof H as (-> & _). rewrite Nat2Z.id.
  destruct (free_loop_spec rgn b (b + s) l [] H Hok)
    as [[_ Hall] | (s1 & q & s2 & -> & ? & ? & E)].
  - exfalso. by apply (proj1 (Forall_forall _ _) Hall p Hp).
  - exists s1, q, s2. by split_and!.
Qed.

Lemma shrink_sorted pre p q suf :
  sorted_ok (pre ++ p :: suf) -> base p <= base q -> 0 < size q -> pend q <= pend p ->
  sorted_ok (pre ++ q :: suf).
Proof.
  intros (Hpre & ((? & ? & ?) & Hsuf & Hgap)%sorted_ok_cons & Hlt)%sorted_ok_app ? ? ?.
  apply sorted_ok_app. split; [done|]. split.
  - apply sorted_ok_cons. split; [props; lia|]. split; [done|].
    eapply Forall_impl; [exact Hgap|]. props. lia.
  - intros x y Hx [->|Hy]%elem_of_cons; [|by apply Hlt; [|right]].
    specialize (Hlt x p Hx (list_elem_of_here _ _)). props. lia.
Qed.

(** What [lmb_free] may do to the entries [l]. *)
Definition free_post (l l' : list lmb_property) (b s r : Z) : Prop :=
  (r = 0 /\ forall a, covers l' a <-> covers l a /\ ~ (b <= a < b + s)) \/
  (r = -1 /\ length l = 8%nat /\ exists p, p ∈ l /\ base p < b /\ b + s < pend p /\
     forall a, covers l' a <-> covers l a /\ ~ (b <= a < pend p)).

(** The region lies strictly inside entry [p]: shrink it and add the rest. *)
Lemma free_split rgn pre p suf b s :
  holds rgn (pre ++ Prop_ (base p) (b - base p) :: suf) -> sorted_ok (pre ++ p :: suf) ->
  0 < s -> base p < b -> b + s < pend p ->
  exists r rgn' l', lmb_add_region rgn (b + s) (pend p - (b + s)) = Some (r, rgn') /\
    holds rgn' l' /\ sorted_ok l' /\ free_post (pre ++ p :: suf) l' b s r.
Proof.
  intros H Hok Hs Hb He. set (p' := Prop_ (base p) (b - base p)) in *.
  pose proof Hok as (Hpre & ((? & ? & ?) & Hsuf & Hgap)%sorted_ok_cons & Hlt)%sorted_ok_app.
  assert (sorted_ok (pre ++ p' :: suf)) as Hok'
    by (apply (shrink_sorted pre p); auto; subst p'; props; lia).
  rewrite cons_middle, app_assoc in H, Hok'.
  assert (Forall (fun q => pend q < b + s) (pre ++ [p'])) as HL.
  { apply Forall_app. split; [|constructor; [subst p'; props; lia | done]].
    apply Forall_forall. intros x Hx. specialize (Hlt x p Hx (list_elem_of_here _ _)). props. lia. }
  assert (Forall (fun q => b + s + (pend p - (b + s)) < base q) suf) as HR.
  { eapply Forall_impl; [exact Hgap|]. props. lia. }
  destruct (add_none rgn (pre ++ [p']) suf (b + s) (pend p - (b + s)))
    as [[Hlen ->] | (Hlen & rgn2 & -> & Hh)]; auto; try lia; [by destruct pre | |].
  - exists (-1), rgn, ((pre ++ [p']) ++ suf). split; [done|]. split; [done|]. split; [done|].
    right. split; [done|]. split; [len|]. exists p. split; [set_solver|].
    split; [lia|]. split; [lia|]. intros a. rewrite <- app_assoc.
    apply (covers_hole pre p suf b (pend p) [p']); auto; try lia.
    rewrite covers_cons, covers_nil. subst p'. props. lia.
  - eexists 0, rgn2, _. split; [done|]. split; [exact Hh|]. split.
    + eapply (glued_sorted (b + s) (pend p - (b + s)) (pre ++ [p']) suf 0); auto; try lia.
      by apply glue_none.
    + left. split; [done|]. intros a. rewrite <- app_assoc.
      apply (covers_hole pre p suf b (b + s) [p'; Prop_ (b + s) (pend p - (b + s))]); auto; try lia.
      rewrite !covers_cons, covers_nil. subst p'. props. lia.
Qed.

(** The region is cut off at the front or the end of entry [p]. *)
Lemma free_trim rgn pre p q suf b s :
  holds rgn (pre ++ p :: suf) -> sorted_ok (pre ++ p :: suf) ->
  0 < s -> base p <= b -> b + s <= pend p -> 0 < size q ->
  (base q = b + s /\ base p = b /\ pend q = pend p) \/ (base q = base p /\ pend q = b /\ pend p = b + s) ->
  exists r rgn' l', (rgn' ← rset rgn (Z.of_nat (length pre)) q; Some (0, rgn')) = Some (r, rgn') /\
    holds rgn' l' /\ sorted_ok l' /\ free_post (pre ++ p :: suf) l' b s r.
Proof.
  intros H Hok Hs Hb He Hq Hcut.
  destruct (rset_holds _ _ _ q _ _ H eq_refl) as (rgn' & -> & H').
  eexists 0, rgn', _. split; [done|]. split; [done|].
  split; [eapply shrink_sorted; eauto; props; lia|].
  left. split; [done|]. intros a.
  apply (covers_hole pre p suf b (b + s) [q]); auto; try lia.
  rewrite covers_cons, covers_nil. props. lia.
Qed.

Lemma free_region_ok rgn l b s :
  holds rgn l -> sorted_ok l -> 0 <= b -> 0 < s -> b + s < 2 ^ 64 ->
  (exists p, p ∈ l /\ base p <= b /\ b + s <= pend p) ->
  exists r rgn' l', free_region rgn b s = Some (r, rgn') /\ holds rgn' l' /\ sorted_ok l' /\
    free_post l l' b s r.
Proof.
  intros H Hok Hb Hs He Hin.
  destruct (free_region_found rgn l b s H Hok Hb Hs He Hin) as (pre & p & suf & -> & Hpb & Hpe & E).
  unfold free_region. rewrite (wrap_small 64 (b + s)) by lia. rewrite E. simpl.
  pose proof Hok as (Hpre & ((Hp1 & Hp2 & Hp3) & Hsuf & Hgap)%sorted_ok_cons & Hlt)%sorted_ok_app.
  rewrite (rget_holds _ pre p suf) by done. simpl.
  destruct (decide (base p = b)) as [Eb|Eb]; destruct (decide (pend p = b + s)) as [Ee|Ee].
  - rewrite !(proj2 (Z.eqb_eq _ _)) by done. simpl.
    destruct (lmb_remove_region_spec _ _ _ _ H) as (rgn' & -> & H'). simpl.
    exists 0, rgn', (pre ++ suf). split; [done|]. split; [done|]. split.
    + apply sorted_ok_app. split_and!; auto. intros x y Hx Hy. apply Hlt; [done | by right].
    + left. split; [done|]. intros a.
      apply (covers_hole pre p suf b (b + s) []); auto; try lia.
      rewrite covers_nil. lia.
  - rewrite (proj2 (Z.eqb_eq _ _) Eb), (proj2 (Z.eqb_neq _ _) Ee). simpl.
    rewrite wrap_small by (props; lia). apply free_trim; auto; [|left]; props; lia.
  - rewrite (proj2 (Z.eqb_neq _ _) Eb), (proj2 (Z.eqb_eq _ _) Ee). simpl.
    rewrite wrap_small by (props; lia). apply free_trim; auto; [|right]; props; lia.
  - rewrite (proj2 (Z.eqb_neq _ _) Eb), (proj2 (Z.eqb_neq _ _) Ee). simpl.
    rewrite !wrap_small by (props; lia).
    destruct (rset_holds _ _ _ (Prop_ (base p) (b - base p)) _ _ H eq_refl) as (rgn' & -> & H').
    simpl. apply free_split; auto; lia.
Qed.

(** ** Properties *)

Definition zeros : list lmb_property := replicate 9 (Prop_ 0 0).

(** A machine with one gigabyte of RAM at address 0 and nothing reserved. *)
Definition board : lmb :=
  Lmb_ (Region 1 0 (<[0%nat := Prop_ 0 0x40000000]> zeros)) (Region 1 0 zeros).

(** Two reserved areas with a hole of 0x1000 bytes between them. *)
Definition two_areas : lmb_region :=
  Region 2 0 (<[0%nat := Prop_ 0x1000 0x1000]> (<[1%nat := Prop_ 0x3000 0x1000]> zeros)).

Lemma two_areas_ok : table_ok two_areas.
Proof.
  right. exists [Prop_ 0x1000 0x1000; Prop_ 0x3000 0x1000]. split; [done|]. split.
  - split; [done|]. split; [done|]. by exists (replicate 7 (Prop_ 0 0)).
  - split; repeat constructor; done.
Qed.

Lemma fresh_ok z : table_ok (Region 1 z zeros).
Proof. left. split; [done|]. split; [done|]. by exists (replicate 8 (Prop_ 0 0)). Qed.

(** C38: adding a region that is disjoint from a well-formed table either
    reports a full table and leaves it alone, or returns the number of merges
    and yields a well-formed (sorted, disjoint, fully glued) table that covers
    exactly the old addresses and the new region. *)
Theorem lmb_add_region_correct rgn b s
  (Hok : table_ok rgn) (Hb : 0 <= b) (Hs : 0 < s) (He : b + s < 2 ^ 64)
  (Hd : forall a, b <= a < b + s -> ~ covered rgn a) :
  exists r rgn', lmb_add_region rgn b s = Some (r, rgn') /\ table_ok rgn' /\
    ((r = -1 /\ rgn' = rgn /\ cnt rgn = MAX_LMB_REGIONS) \/
     (0 <= r <= 2 /\ forall a, covered rgn' a <-> covered rgn a \/ b <= a < b + s)).
Proof. by apply add_region_ok. Qed.

(** Filling the hole glues both neighbours: two merges. *)
Lemma lmb_add_region_correct_witness :
  lmb_add_region two_areas 0x2000 0x1000 =
    Some (2, Region 1 0 (<[0%nat := Prop_ 0x1000 0x3000]> (<[1%nat := Prop_ 0x3000 0x1000]> zeros)))
  /\ exists r rgn', lmb_add_region two_areas 0x2000 0x1000 = Some (r, rgn') /\ table_ok rgn' /\
    ((r = -1 /\ rgn' = two_areas /\ cnt two_areas = MAX_LMB_REGIONS) \/
     (0 <= r <= 2 /\
      forall a, covered rgn' a <-> covered two_areas a \/ 0x2000 <= a < 0x2000 + 0x1000)).
Proof.
  split; [vm_compute; reflexivity|].
  apply (lmb_add_region_correct two_areas 0x2000 0x1000 two_areas_ok); try lia.
  intros a Ha (p & Hp & Hx). change (p ∈ [Prop_ 0x1000 0x1000; Prop_ 0x3000 0x1000]) in Hp.
  rewrite !elem_of_cons in Hp. destruct Hp as [-> | [-> | Hp]]; unfold pend in Hx; simpl in Hx;
    [lia | lia | by apply elem_of_nil in Hp].
Defined.

(** An allocation. *)
Lemma alloc_base_ok l lm size_ k max_addr
  (Hm : holds (memory l) lm)
  (Hlm : Forall (fun p => 0 <= base p /\ 0 <= size p /\ pend p < 2 ^ 64) lm)
  (Hok : table_ok (reserved l)) (Hsz : 0 < size_ < 2 ^ 64) (Hk : 0 <= k < 64)
  (Hmax : 0 <= max_addr < 2 ^ 64) (Hms : max_addr = 0 \/ size_ <= max_addr) :
  exists a l', lmb_alloc_base l size_ (2 ^ k) max_addr = Some (a, l') /\
    memory l' = memory l /\
    (a = 0 \/ alloc_post lm (reserved l) (reserved l') size_ k max_addr a).
Proof.
  destruct (alloc_banks_ok lm l size_ k max_addr Hm Hlm Hok Hsz Hk Hmax Hms (length lm))
    as (a & res' & E & Ha); [done|].
  unfold lmb_alloc_base, __lmb_alloc_base. destruct Hm as (-> & _).
  rewrite Nat2Z.id, E. simpl. exists a, (Lmb_ (memory l) res'). by split_and!.
Qed.



(** [lmb_is_reserved] answers exactly whether the address lies in a
    reserved area. *)
Theorem lmb_is_reserved_correct l lr addr (H : holds (reserved l) lr) (Hok : sorted_ok lr)
  (Ha : 0 <= addr < 2 ^ 64) :
  (lmb_is_reserved l addr = Some 1 /\ covered (reserved l) addr) \/
  (lmb_is_reserved l addr = Some 0 /\ ~ covered (reserved l) addr).
Proof.
  unfold lmb_is_reserved, covered. rewrite (holds_live _ _ H). pose proof H as (-> & _).
  rewrite Nat2Z.id. apply (is_reserved_loop_spec (reserved l) addr lr []); auto. apply Hok.
Qed.

Lemma two_areas_holds : holds two_areas [Prop_ 0x1000 0x1000; Prop_ 0x3000 0x1000].
Proof. split; [done|]. split; [done|]. by exists (replicate 7 (Prop_ 0 0)). Qed.

Lemma two_areas_sorted : sorted_ok [Prop_ 0x1000 0x1000; Prop_ 0x3000 0x1000].
Proof. split; repeat constructor; done. Qed.

Lemma lmb_is_reserved_correct_witness :
  let l := Lmb_ (memory board) two_areas in
  lmb_is_reserved l 0x1fff = Some 1 /\ lmb_is_reserved l 0x2000 = Some 0 /\
  ((lmb_is_reserved l 0x1fff = Some 1 /\ covered (reserved l) 0x1fff) \/
   (lmb_is_reserved l 0x1fff = Some 0 /\ ~ covered (reserved l) 0x1fff)).
Proof.
  split; [reflexivity|]. split; [reflexivity|].
  apply (lmb_is_reserved_correct (Lmb_ (memory board) two_areas)
    [Prop_ 0x1000 0x1000; Prop_ 0x3000 0x1000] 0x1fff two_areas_holds two_areas_sorted). lia.
Defined.

(** Freeing a range inside one reserved area returns 0 and removes exactly
    that range, except when the hole splits an area of a full table: then -1
    is returned although the area has already been cut at the hole, so that
    everything from the hole to the end of the area is forgotten. *)
Theorem lmb_free_correct l lr b s (H : holds (reserved l) lr) (Hok : sorted_ok lr)
  (Hb : 0 <= b) (Hs : 0 < s) (He : b + s < 2 ^ 64)
  (Hin : exists p, p ∈ lr /\ base p <= b /\ b + s <= pend p) :
  exists r l' lr', lmb_free l b s = Some (r, l') /\ memory l' = memory l /\
    holds (reserved l') lr' /\ sorted_ok lr' /\ free_post lr lr' b s r.
Proof.
  destruct (free_region_ok _ _ _ _ H Hok Hb Hs He Hin) as (r & rgn' & lr' & E & ? & ? & ?).
  unfold lmb_free. rewrite E. simpl. exists r, (Lmb_ (memory l) rgn'), lr'. by split_and!.
Qed.

Lemma lmb_free_correct_witness :
  let l := Lmb_ (memory board) two_areas in
  exists r l' lr', lmb_free l 0x1400 0x100 = Some (r, l') /\ memory l' = memory l /\
    holds (reserved l') lr' /\ sorted_ok lr' /\
    free_post [Prop_ 0x1000 0x1000; Prop_ 0x3000 0x1000] lr' 0x1400 0x100 r.
Proof.
  apply (lmb_free_correct (Lmb_ (memory board) two_areas)
    [Prop_ 0x1000 0x1000; Prop_ 0x3000 0x1000] 0x1400 0x100 two_areas_holds two_areas_sorted);
    try lia.
  exists (Prop_ 0x1000 0x1000). split; [apply list_elem_of_here|]. unfold pend. simpl. lia.
Defined.

(** Freeing a range that no reserved area contains returns -1 and changes
    nothing. *)
Theorem lmb_free_not_found l lr b s (H : holds (reserved l) lr) (Hok : sorted_ok lr)
  (Hb : 0 <= b) (Hs : 0 < s) (He : b + s < 2 ^ 64)
  (Hout : forall p, p ∈ lr -> ~ (base p <= b /\ b + s <= pend p)) :
  lmb_free l b s = Some (-1, l).
Proof.
  unfold lmb_free, free_region. rewrite (wrap_small 64 (b + s)) by lia.
  pose proof H as (-> & _). rewrite Nat2Z.id.
  destruct (free_loop_spec (reserved l) b (b + s) lr [] H (proj1 Hok))
    as [[E _] | (s1 & q & s2 & -> & ? & ? & _)].
  - change (Z.of_nat (length [])) with 0 in E. rewrite E. simpl. by destruct l.
  - exfalso. apply (Hout q); [set_solver | done].
Qed.

Lemma lmb_free_not_found_witness :
  let l := Lmb_ (memory board) two_areas in lmb_free l 0x1800 0x1000 = Some (-1, l).
Proof.
  apply (lmb_free_not_found (Lmb_ (memory board) two_areas)
    [Prop_ 0x1000 0x1000; Prop_ 0x3000 0x1000] 0x1800 0x1000 two_areas_holds two_areas_sorted);
    try lia.
  intros p Hp. rewrite !elem_of_cons in Hp. destruct Hp as [-> | [-> | Hp]];
    unfold pend; simpl; [lia | lia | by apply elem_of_nil in Hp].
Defined.

(** After the only reserved area has been freed the table has no entry, and
    the next reservation at a higher address is lost: the stale slot becomes
    live again instead, and the call still reports success. *)
Theorem lmb_reserve_after_last_free :
  exists l1 l2 l3, lmb_reserve board 0x1000 0x100 = Some (0, l1) /\
    lmb_free l1 0x1000 0x100 = Some (0, l2) /\
    lmb_reserve l2 0x2000 0x100 = Some (0, l3) /\
    lmb_is_reserved l3 0x2000 = Some 0 /\ lmb_is_reserved l3 0x1000 = Some 1.
Proof.
  eexists _, _, _. split; [vm_compute; reflexivity|]. split; [vm_compute; reflexivity|].
  split; [vm_compute; reflexivity|]. split; vm_compute; reflexivity.
Qed.

(** A request for more bytes than [max_addr] wraps around: the allocator
    returns an address at the top of the 64-bit space, outside of every RAM
    bank. *)
Theorem lmb_alloc_base_wraps :
  exists l', lmb_alloc_base board 0x2000 0x1000 0x1000 = Some (2 ^ 64 - 0x1000, l') /\
    ~ covered (memory board) (2 ^ 64 - 0x1000).
Proof.
  eexists. split; [vm_compute; reflexivity|].
  intros (p & Hp & Hx). change (p ∈ [Prop_ 0 0x40000000]) in Hp.
  apply list_elem_of_singleton in Hp as ->. unfold pend in Hx. simpl in Hx. lia.
Qed.

End Lmb.
