(* ===== verification/Crc.v ===== *)
(** * Checksums (lib/crc8.c, lib/crc7.c, lib/crc16.c, lib/crc32.c, lib/bitrev.c)

    The table-driven and the bitwise CRC routines.  A buffer is its list of
    bytes, and for [crc32_no_comp], which works on aligned 32-bit words, also
    its address.  The target is little endian, so [cpu_to_le32], [le32_to_cpu]
    and [tole] are the identity. *)

From S2P Require Import Prelude.

Module Crc.

(** [tab[i]] for an index that is known to be in range. *)
Definition tab_get (t : list Z) (i : Z) : Z := default 0 (zget t i).

(** ** lib/crc8.c *)

(** [for (i = 8; i; i--) { if (crc & 0x8000) crc ^= (0x1070 << 3); crc <<= 1; }] *)
Definition crc8_bit (crc : Z) : Z :=
  let crc := if negb (Z.land crc 0x8000 =? 0) then Z.lxor crc (Z.shiftl 0x1070 3) else crc in
  u32 (Z.shiftl crc 1).

Definition crc8_byte (crc d : Z) : Z :=
  Nat.iter 8 crc8_bit (Z.lxor crc (Z.shiftl d 8)).

Definition crc8 (vptr : bytes) : Z :=
  Z.land (Z.shiftr (fold_left crc8_byte vptr 0) 8) 0xff.

(** ** lib/crc7.c and include/linux/crc7.h *)

Definition crc7_syndrome_table : list Z :=
  [ 0x00; 0x09; 0x12; 0x1b; 0x24; 0x2d; 0x36; 0x3f;
    0x48; 0x41; 0x5a; 0x53; 0x6c; 0x65; 0x7e; 0x77;
    0x19; 0x10; 0x0b; 0x02; 0x3d; 0x34; 0x2f; 0x26;
    0x51; 0x58; 0x43; 0x4a; 0x75; 0x7c; 0x67; 0x6e;
    0x32; 0x3b; 0x20; 0x29; 0x16; 0x1f; 0x04; 0x0d;
    0x7a; 0x73; 0x68; 0x61; 0x5e; 0x57; 0x4c; 0x45;
    0x2b; 0x22; 0x39; 0x30; 0x0f; 0x06; 0x1d; 0x14;
    0x63; 0x6a; 0x71; 0x78; 0x47; 0x4e; 0x55; 0x5c;
    0x64; 0x6d; 0x76; 0x7f; 0x40; 0x49; 0x52; 0x5b;
    0x2c; 0x25; 0x3e; 0x37; 0x08; 0x01; 0x1a; 0x13;
    0x7d; 0x74; 0x6f; 0x66; 0x59; 0x50; 0x4b; 0x42;
    0x35; 0x3c; 0x27; 0x2e; 0x11; 0x18; 0x03; 0x0a;
    0x56; 0x5f; 0x44; 0x4d; 0x72; 0x7b; 0x60; 0x69;
    0x1e; 0x17; 0x0c; 0x05; 0x3a; 0x33; 0x28; 0x21;
    0x4f; 0x46; 0x5d; 0x54; 0x6b; 0x62; 0x79; 0x70;
    0x07; 0x0e; 0x15; 0x1c; 0x23; 0x2a; 0x31; 0x38;
    0x41; 0x48; 0x53; 0x5a; 0x65; 0x6c; 0x77; 0x7e;
    0x09; 0x00; 0x1b; 0x12; 0x2d; 0x24; 0x3f; 0x36;
    0x58; 0x51; 0x4a; 0x43; 0x7c; 0x75; 0x6e; 0x67;
    0x10; 0x19; 0x02; 0x0b; 0x34; 0x3d; 0x26; 0x2f;
    0x73; 0x7a; 0x61; 0x68; 0x57; 0x5e; 0x45; 0x4c;
    0x3b; 0x32; 0x29; 0x20; 0x1f; 0x16; 0x0d; 0x04;
    0x6a; 0x63; 0x78; 0x71; 0x4e; 0x47; 0x5c; 0x55;
    0x22; 0x2b; 0x30; 0x39; 0x06; 0x0f; 0x14; 0x1d;
    0x25; 0x2c; 0x37; 0x3e; 0x01; 0x08; 0x13; 0x1a;
    0x6d; 0x64; 0x7f; 0x76; 0x49; 0x40; 0x5b; 0x52;
    0x3c; 0x35; 0x2e; 0x27; 0x18; 0x11; 0x0a; 0x03;
    0x74; 0x7d; 0x66; 0x6f; 0x50; 0x59; 0x42; 0x4b;
    0x17; 0x1e; 0x05; 0x0c; 0x33; 0x3a; 0x21; 0x28;
    0x5f; 0x56; 0x4d; 0x44; 0x7b; 0x72; 0x69; 0x60;
    0x0e; 0x07; 0x1c; 0x15; 0x2a; 0x23; 0x38; 0x31;
    0x46; 0x4f; 0x54; 0x5d; 0x62; 0x6b; 0x70; 0x79 ].

(** The index [(crc << 1) ^ data] is not masked. *)
Definition crc7_byte (crc data : Z) : option Z :=
  zget crc7_syndrome_table (Z.lxor (Z.shiftl crc 1) data).

Fixpoint crc7 (crc : Z) (buffer : bytes) : option Z :=
  match buffer with
  | [] => Some crc
  | b :: rest => crc' ← crc7_byte crc b; crc7 crc' rest
  end.

(** ** lib/crc16.c *)

Definition crc16_tab : list Z :=
  [ 0x0000; 0x1021; 0x2042; 0x3063; 0x4084; 0x50a5; 0x60c6; 0x70e7;
    0x8108; 0x9129; 0xa14a; 0xb16b; 0xc18c; 0xd1ad; 0xe1ce; 0xf1ef;
    0x1231; 0x0210; 0x3273; 0x2252; 0x52b5; 0x4294; 0x72f7; 0x62d6;
    0x9339; 0x8318; 0xb37b; 0xa35a; 0xd3bd; 0xc39c; 0xf3ff; 0xe3de;
    0x2462; 0x3443; 0x0420; 0x1401; 0x64e6; 0x74c7; 0x44a4; 0x5485;
    0xa56a; 0xb54b; 0x8528; 0x9509; 0xe5ee; 0xf5cf; 0xc5ac; 0xd58d;
    0x3653; 0x2672; 0x1611; 0x0630; 0x76d7; 0x66f6; 0x5695; 0x46b4;
    0xb75b; 0xa77a; 0x9719; 0x8738; 0xf7df; 0xe7fe; 0xd79d; 0xc7bc;
    0x48c4; 0x58e5; 0x6886; 0x78a7; 0x0840; 0x1861; 0x2802; 0x3823;
    0xc9cc; 0xd9ed; 0xe98e; 0xf9af; 0x8948; 0x9969; 0xa90a; 0xb92b;
    0x5af5; 0x4ad4; 0x7ab7; 0x6a96; 0x1a71; 0x0a50; 0x3a33; 0x2a12;
    0xdbfd; 0xcbdc; 0xfbbf; 0xeb9e; 0x9b79; 0x8b58; 0xbb3b; 0xab1a;
    0x6ca6; 0x7c87; 0x4ce4; 0x5cc5; 0x2c22; 0x3c03; 0x0c60; 0x1c41;
    0xedae; 0xfd8f; 0xcdec; 0xddcd; 0xad2a; 0xbd0b; 0x8d68; 0x9d49;
    0x7e97; 0x6eb6; 0x5ed5; 0x4ef4; 0x3e13; 0x2e32; 0x1e51; 0x0e70;
    0xff9f; 0xefbe; 0xdfdd; 0xcffc; 0xbf1b; 0xaf3a; 0x9f59; 0x8f78;
    0x9188; 0x81a9; 0xb1ca; 0xa1eb; 0xd10c; 0xc12d; 0xf14e; 0xe16f;
    0x1080; 0x00a1; 0x30c2; 0x20e3; 0x5004; 0x4025; 0x7046; 0x6067;
    0x83b9; 0x9398; 0xa3fb; 0xb3da; 0xc33d; 0xd31c; 0xe37f; 0xf35e;
    0x02b1; 0x1290; 0x22f3; 0x32d2; 0x4235; 0x5214; 0x6277; 0x7256;
    0xb5ea; 0xa5cb; 0x95a8; 0x8589; 0xf56e; 0xe54f; 0xd52c; 0xc50d;
    0x34e2; 0x24c3; 0x14a0; 0x0481; 0x7466; 0x6447; 0x5424; 0x4405;
    0xa7db; 0xb7fa; 0x8799; 0x97b8; 0xe75f; 0xf77e; 0xc71d; 0xd73c;
    0x26d3; 0x36f2; 0x0691; 0x16b0; 0x6657; 0x7676; 0x4615; 0x5634;
    0xd94c; 0xc96d; 0xf90e; 0xe92f; 0x99c8; 0x89e9; 0xb98a; 0xa9ab;
    0x5844; 0x4865; 0x7806; 0x6827; 0x18c0; 0x08e1; 0x3882; 0x28a3;
    0xcb7d; 0xdb5c; 0xeb3f; 0xfb1e; 0x8bf9; 0x9bd8; 0xabbb; 0xbb9a;
    0x4a75; 0x5a54; 0x6a37; 0x7a16; 0x0af1; 0x1ad0; 0x2ab3; 0x3a92;
    0xfd2e; 0xed0f; 0xdd6c; 0xcd4d; 0xbdaa; 0xad8b; 0x9de8; 0x8dc9;
    0x7c26; 0x6c07; 0x5c64; 0x4c45; 0x3ca2; 0x2c83; 0x1ce0; 0x0cc1;
    0xef1f; 0xff3e; 0xcf5d; 0xdf7c; 0xaf9b; 0xbfba; 0x8fd9; 0x9ff8;
    0x6e17; 0x7e36; 0x4e55; 0x5e74; 0x2e93; 0x3eb2; 0x0ed1; 0x1ef0 ].

Definition crc16_step (cksum b : Z) : Z :=
  u16 (Z.lxor (tab_get crc16_tab (Z.land (Z.lxor (Z.shiftr cksum 8) b) 0xFF)) (Z.shiftl cksum 8)).

Definition cyg_crc16 (buf : bytes) : Z := fold_left crc16_step buf 0.

(** ** lib/crc32.c *)

(** The generator of the table, compiled in when DYNAMIC_CRC_TABLE is set. *)
Definition crc_terms : list Z := [0;1;2;4;5;7;8;10;11;12;16;22;23;26].

Definition crc_poly : Z := fold_left (fun poly p => Z.lor poly (Z.shiftl 1 (31 - p))) crc_terms 0.

Definition crc32_bit (c : Z) : Z :=
  if negb (Z.land c 1 =? 0) then Z.lxor crc_poly (Z.shiftr c 1) else Z.shiftr c 1.

Definition make_crc_table : list Z :=
  (fun n : nat => Nat.iter 8 crc32_bit (Z.of_nat n)) <$> seq 0 256.

Definition crc_table : list Z :=
  [ 0x00000000; 0x77073096; 0xee0e612c; 0x990951ba; 0x076dc419; 0x706af48f;
    0xe963a535; 0x9e6495a3; 0x0edb8832; 0x79dcb8a4; 0xe0d5e91e; 0x97d2d988;
    0x09b64c2b; 0x7eb17cbd; 0xe7b82d07; 0x90bf1d91; 0x1db71064; 0x6ab020f2;
    0xf3b97148; 0x84be41de; 0x1adad47d; 0x6ddde4eb; 0xf4d4b551; 0x83d385c7;
    0x136c9856; 0x646ba8c0; 0xfd62f97a; 0x8a65c9ec; 0x14015c4f; 0x63066cd9;
    0xfa0f3d63; 0x8d080df5; 0x3b6e20c8; 0x4c69105e; 0xd56041e4; 0xa2677172;
    0x3c03e4d1; 0x4b04d447; 0xd20d85fd; 0xa50ab56b; 0x35b5a8fa; 0x42b2986c;
    0xdbbbc9d6; 0xacbcf940; 0x32d86ce3; 0x45df5c75; 0xdcd60dcf; 0xabd13d59;
    0x26d930ac; 0x51de003a; 0xc8d75180; 0xbfd06116; 0x21b4f4b5; 0x56b3c423;
    0xcfba9599; 0xb8bda50f; 0x2802b89e; 0x5f058808; 0xc60cd9b2; 0xb10be924;
    0x2f6f7c87; 0x58684c11; 0xc1611dab; 0xb6662d3d; 0x76dc4190; 0x01db7106;
    0x98d220bc; 0xefd5102a; 0x71b18589; 0x06b6b51f; 0x9fbfe4a5; 0xe8b8d433;
    0x7807c9a2; 0x0f00f934; 0x9609a88e; 0xe10e9818; 0x7f6a0dbb; 0x086d3d2d;
    0x91646c97; 0xe6635c01; 0x6b6b51f4; 0x1c6c6162; 0x856530d8; 0xf262004e;
    0x6c0695ed; 0x1b01a57b; 0x8208f4c1; 0xf50fc457; 0x65b0d9c6; 0x12b7e950;
    0x8bbeb8ea; 0xfcb9887c; 0x62dd1ddf; 0x15da2d49; 0x8cd37cf3; 0xfbd44c65;
    0x4db26158; 0x3ab551ce; 0xa3bc0074; 0xd4bb30e2; 0x4adfa541; 0x3dd895d7;
    0xa4d1c46d; 0xd3d6f4fb; 0x4369e96a; 0x346ed9fc; 0xad678846; 0xda60b8d0;
    0x44042d73; 0x33031de5; 0xaa0a4c5f; 0xdd0d7cc9; 0x5005713c; 0x270241aa;
    0xbe0b1010; 0xc90c2086; 0x5768b525; 0x206f85b3; 0xb966d409; 0xce61e49f;
    0x5edef90e; 0x29d9c998; 0xb0d09822; 0xc7d7a8b4; 0x59b33d17; 0x2eb40d81;
    0xb7bd5c3b; 0xc0ba6cad; 0xedb88320; 0x9abfb3b6; 0x03b6e20c; 0x74b1d29a;
    0xead54739; 0x9dd277af; 0x04db2615; 0x73dc1683; 0xe3630b12; 0x94643b84;
    0x0d6d6a3e; 0x7a6a5aa8; 0xe40ecf0b; 0x9309ff9d; 0x0a00ae27; 0x7d079eb1;
    0xf00f9344; 0x8708a3d2; 0x1e01f268; 0x6906c2fe; 0xf762575d; 0x806567cb;
    0x196c3671; 0x6e6b06e7; 0xfed41b76; 0x89d32be0; 0x10da7a5a; 0x67dd4acc;
    0xf9b9df6f; 0x8ebeeff9; 0x17b7be43; 0x60b08ed5; 0xd6d6a3e8; 0xa1d1937e;
    0x38d8c2c4; 0x4fdff252; 0xd1bb67f1; 0xa6bc5767; 0x3fb506dd; 0x48b2364b;
    0xd80d2bda; 0xaf0a1b4c; 0x36034af6; 0x41047a60; 0xdf60efc3; 0xa867df55;
    0x316e8eef; 0x4669be79; 0xcb61b38c; 0xbc66831a; 0x256fd2a0; 0x5268e236;
    0xcc0c7795; 0xbb0b4703; 0x220216b9; 0x5505262f; 0xc5ba3bbe; 0xb2bd0b28;
    0x2bb45a92; 0x5cb36a04; 0xc2d7ffa7; 0xb5d0cf31; 0x2cd99e8b; 0x5bdeae1d;
    0x9b64c2b0; 0xec63f226; 0x756aa39c; 0x026d930a; 0x9c0906a9; 0xeb0e363f;
    0x72076785; 0x05005713; 0x95bf4a82; 0xe2b87a14; 0x7bb12bae; 0x0cb61b38;
    0x92d28e9b; 0xe5d5be0d; 0x7cdcefb7; 0x0bdbdf21; 0x86d3d2d4; 0xf1d4e242;
    0x68ddb3f8; 0x1fda836e; 0x81be16cd; 0xf6b9265b; 0x6fb077e1; 0x18b74777;
    0x88085ae6; 0xff0f6a70; 0x66063bca; 0x11010b5c; 0x8f659eff; 0xf862ae69;
    0x616bffd3; 0x166ccf45; 0xa00ae278; 0xd70dd2ee; 0x4e048354; 0x3903b3c2;
    0xa7672661; 0xd06016f7; 0x4969474d; 0x3e6e77db; 0xaed16a4a; 0xd9d65adc;
    0x40df0b66; 0x37d83bf0; 0xa9bcae53; 0xdebb9ec5; 0x47b2cf7f; 0x30b5ffe9;
    0xbdbdf21c; 0xcabac28a; 0x53b39330; 0x24b4a3a6; 0xbad03605; 0xcdd70693;
    0x54de5729; 0x23d967bf; 0xb3667a2e; 0xc4614ab8; 0x5d681b02; 0x2a6f2b94;
    0xb40bbe37; 0xc30c8ea1; 0x5a05df1b; 0x2d02ef8d ].

(** [#define DO_CRC(x) crc = tab[(crc ^ (x)) & 255] ^ (crc >> 8)] *)
Definition DO_CRC (crc x : Z) : Z :=
  Z.lxor (tab_get crc_table (Z.land (Z.lxor crc x) 255)) (Z.shiftr crc 8).

(** The byte loop up to the first aligned address. *)
Fixpoint align_loop (crc p : Z) (buf : bytes) : Z * bytes :=
  match buf with
  | [] => (crc, [])
  | x :: rest =>
      if Z.land p 3 =? 0 then (crc, buf) else align_loop (DO_CRC crc x) (p + 1) rest
  end.

(** [*++b]: a 32-bit little-endian load. *)
Definition le32 (b0 b1 b2 b3 : Z) : Z :=
  b0 + b1 * 2 ^ 8 + b2 * 2 ^ 16 + b3 * 2 ^ 24.

(** The word loop, [len >> 2] iterations. *)
Fixpoint word_loop (len : nat) (crc : Z) (buf : bytes) : Z * bytes :=
  match len, buf with
  | S len', b0 :: b1 :: b2 :: b3 :: rest =>
      let crc := Z.lxor crc (le32 b0 b1 b2 b3) in
      let crc := DO_CRC crc 0 in
      let crc := DO_CRC crc 0 in
      let crc := DO_CRC crc 0 in
      let crc := DO_CRC crc 0 in
      word_loop len' crc rest
  | _, _ => (crc, buf)
  end.

Definition crc32_no_comp (crc addr : Z) (buf : bytes) : Z :=
  let '(crc, buf) := align_loop crc addr buf in
  let '(crc, buf) := word_loop (length buf / 4)%nat crc buf in
  fold_left DO_CRC buf crc.

Definition crc32 (crc p : Z) (buf : bytes) : Z :=
  Z.lxor (crc32_no_comp (Z.lxor crc 0xffffffff) p buf) 0xffffffff.

(** The loop of [crc32_wd] in a build with a watchdog: [fuel] bounds the
    chunks; a [chunk_sz] of at least one byte needs no more than [len] of
    them. *)
Fixpoint crc32_wd_loop (fuel : nat) (crc curr : Z) (buf : bytes) (chunk_sz : Z) : option Z :=
  match buf with
  | [] => Some crc
  | _ =>
      match fuel with
      | O => None
      | S fuel' =>
          let chunk := Z.of_nat (length buf) in
          let chunk := if chunk_sz <? chunk then chunk_sz else chunk in
          let n := Z.to_nat chunk in
          crc32_wd_loop fuel' (crc32 crc curr (take n buf)) (curr + chunk) (drop n buf) chunk_sz
      end
  end.

Definition crc32_wd (watchdog : bool) (crc addr : Z) (buf : bytes) (chunk_sz : Z) : option Z :=
  if watchdog then crc32_wd_loop (length buf) crc addr buf chunk_sz
  else Some (crc32 crc addr buf).

(** Four bytes of the CRC in network order. *)
Definition crc32_wd_buf (watchdog : bool) (addr : Z) (input : bytes) (chunk_sz : Z)
  : option bytes :=
  crc ← crc32_wd watchdog 0 addr input chunk_sz;
  Some [Z.land (Z.shiftr crc 24) 255; Z.land (Z.shiftr crc 16) 255;
        Z.land (Z.shiftr crc 8) 255; Z.land crc 255].

(** ** lib/bitrev.c *)

Definition byte_rev_table : list Z :=
  [ 0x00; 0x80; 0x40; 0xc0; 0x20; 0xa0; 0x60; 0xe0;
    0x10; 0x90; 0x50; 0xd0; 0x30; 0xb0; 0x70; 0xf0;
    0x08; 0x88; 0x48; 0xc8; 0x28; 0xa8; 0x68; 0xe8;
    0x18; 0x98; 0x58; 0xd8; 0x38; 0xb8; 0x78; 0xf8;
    0x04; 0x84; 0x44; 0xc4; 0x24; 0xa4; 0x64; 0xe4;
    0x14; 0x94; 0x54; 0xd4; 0x34; 0xb4; 0x74; 0xf4;
    0x0c; 0x8c; 0x4c; 0xcc; 0x2c; 0xac; 0x6c; 0xec;
    0x1c; 0x9c; 0x5c; 0xdc; 0x3c; 0xbc; 0x7c; 0xfc;
    0x02; 0x82; 0x42; 0xc2; 0x22; 0xa2; 0x62; 0xe2;
    0x12; 0x92; 0x52; 0xd2; 0x32; 0xb2; 0x72; 0xf2;
    0x0a; 0x8a; 0x4a; 0xca; 0x2a; 0xaa; 0x6a; 0xea;
    0x1a; 0x9a; 0x5a; 0xda; 0x3a; 0xba; 0x7a; 0xfa;
    0x06; 0x86; 0x46; 0xc6; 0x26; 0xa6; 0x66; 0xe6;
    0x16; 0x96; 0x56; 0xd6; 0x36; 0xb6; 0x76; 0xf6;
    0x0e; 0x8e; 0x4e; 0xce; 0x2e; 0xae; 0x6e; 0xee;
    0x1e; 0x9e; 0x5e; 0xde; 0x3e; 0xbe; 0x7e; 0xfe;
    0x01; 0x81; 0x41; 0xc1; 0x21; 0xa1; 0x61; 0xe1;
    0x11; 0x91; 0x51; 0xd1; 0x31; 0xb1; 0x71; 0xf1;
    0x09; 0x89; 0x49; 0xc9; 0x29; 0xa9; 0x69; 0xe9;
    0x19; 0x99; 0x59; 0xd9; 0x39; 0xb9; 0x79; 0xf9;
    0x05; 0x85; 0x45; 0xc5; 0x25; 0xa5; 0x65; 0xe5;
    0x15; 0x95; 0x55; 0xd5; 0x35; 0xb5; 0x75; 0xf5;
    0x0d; 0x8d; 0x4d; 0xcd; 0x2d; 0xad; 0x6d; 0xed;
    0x1d; 0x9d; 0x5d; 0xdd; 0x3d; 0xbd; 0x7d; 0xfd;
    0x03; 0x83; 0x43; 0xc3; 0x23; 0xa3; 0x63; 0xe3;
    0x13; 0x93; 0x53; 0xd3; 0x33; 0xb3; 0x73; 0xf3;
    0x0b; 0x8b; 0x4b; 0xcb; 0x2b; 0xab; 0x6b; 0xeb;
    0x1b; 0x9b; 0x5b; 0xdb; 0x3b; 0xbb; 0x7b; 0xfb;
    0x07; 0x87; 0x47; 0xc7; 0x27; 0xa7; 0x67; 0xe7;
    0x17; 0x97; 0x57; 0xd7; 0x37; 0xb7; 0x77; 0xf7;
    0x0f; 0x8f; 0x4f; 0xcf; 0x2f; 0xaf; 0x6f; 0xef;
    0x1f; 0x9f; 0x5f; 0xdf; 0x3f; 0xbf; 0x7f; 0xff ].

Definition bitrev8 (byte : Z) : Z := tab_get byte_rev_table byte.

Definition bitrev16 (x : Z) : Z :=
  u16 (Z.lor (Z.shiftl (bitrev8 (Z.land x 0xff)) 8) (bitrev8 (Z.shiftr x 8))).

Definition bitrev32 (x : Z) : Z :=
  u32 (Z.lor (Z.shiftl (bitrev16 (Z.land x 0xffff)) 16) (bitrev16 (Z.shiftr x 16))).

(** ** Reference definitions: one bit at a time *)

(** LSB-first CRC-32: the register absorbs a byte and is shifted eight times. *)
Definition crc32_ref (c : Z) (buf : bytes) : Z :=
  fold_left (fun c x => Nat.iter 8 crc32_bit (Z.lxor c x)) buf c.

(** MSB-first step of a [w]-bit register. *)
Definition msb_bit (w poly c : Z) : Z :=
  wrap w (Z.lxor (Z.shiftl c 1) (if Z.testbit c (w - 1) then poly else 0)).

(** x^16 + x^12 + x^5 + 1 *)
Definition crc16_ref (c : Z) (buf : bytes) : Z :=
  fold_left (fun c x => Nat.iter 8 (msb_bit 16 0x1021) (Z.lxor c (Z.shiftl x 8))) buf c.

(** x^8 + x^2 + x + 1 *)
Definition crc8_ref (c : Z) (buf : bytes) : Z :=
  fold_left (fun c x => Nat.iter 8 (msb_bit 8 0x07) (Z.lxor c x)) buf c.

(** x^7 + x^3 + 1, the register in the upper seven bits of a byte. *)
Definition crc7_ref (c : Z) (buf : bytes) : Z :=
  fold_left (fun c x => Z.shiftr (Nat.iter 8 (msb_bit 8 0x12) (Z.lxor (Z.shiftl c 1) x)) 1) buf c.

(** ** Linearity over exclusive or *)

Section Linear.
Context (f : Z -> Z).
Context (f_lin : forall a b, f (Z.lxor a b) = Z.lxor (f a) (f b)).

Lemma iter_lxor n a b : Nat.iter n f (Z.lxor a b) = Z.lxor (Nat.iter n f a) (Nat.iter n f b).
Proof. induction n as [|n IH]; [done|]. simpl. by rewrite IH, f_lin. Qed.
End Linear.

Lemma land_mod2 c : Z.land c 1 = c mod 2.
Proof. apply (Z.land_ones c 1). lia. Qed.

Lemma land_mod256 c : Z.land c 255 = c mod 256.
Proof. apply (Z.land_ones c 8). lia. Qed.

Lemma crc32_bit_alt c :
  crc32_bit c = Z.lxor (Z.shiftr c 1) (if Z.testbit c 0 then crc_poly else 0).
Proof.
  unfold crc32_bit. rewrite land_mod2, Zmod_odd, Z.bit0_odd.
  destruct (Z.odd c); simpl; [apply Z.lxor_comm | by rewrite Z.lxor_0_r].
Qed.

Lemma lxor_shuffle a b c d :
  Z.lxor (Z.lxor a b) (Z.lxor c d) = Z.lxor (Z.lxor a c) (Z.lxor b d).
Proof. apply Z.bits_inj'. intros. rewrite !Z.lxor_spec. by destruct (Z.testbit a n), (Z.testbit b n), (Z.testbit c n), (Z.testbit d n). Qed.

Lemma crc32_bit_lxor a b : crc32_bit (Z.lxor a b) = Z.lxor (crc32_bit a) (crc32_bit b).
Proof.
  rewrite !crc32_bit_alt, Z.shiftr_lxor, Z.lxor_spec, lxor_shuffle. f_equal.
  by destruct (Z.testbit a 0), (Z.testbit b 0);
    rewrite ?Z.lxor_0_r, ?Z.lxor_0_l, ?Z.lxor_nilpotent.
Qed.

Lemma crc32_iter_high h n : Nat.iter n crc32_bit (Z.shiftl h (Z.of_nat n)) = h.
Proof.
  revert h. induction n as [|n IH]; intros h; [apply Z.shiftl_0_r|].
  rewrite Nat.iter_succ_r. rewrite <- (IH h) at 2. f_equal.
  rewrite crc32_bit_alt, Z.shiftl_spec_low by lia. rewrite Z.lxor_0_r.
  rewrite Z.shiftr_shiftl_l by lia. f_equal. lia.
Qed.

Lemma split_low c n : 0 <= n ->
  c = Z.lxor (Z.land c (Z.ones n)) (Z.shiftl (Z.shiftr c n) n).
Proof.
  intros Hn. apply Z.bits_inj'. intros i Hi. rewrite Z.lxor_spec, Z.land_spec.
  destruct (decide (i < n)).
  - rewrite Z.ones_spec_low, Z.shiftl_spec_low by lia. by destruct (Z.testbit c i).
  - rewrite Z.ones_spec_high, Z.shiftl_spec, Z.shiftr_spec by lia.
    replace (i - n + n) with i by lia. by destruct (Z.testbit c i).
Qed.

Lemma tab_get_map (f : nat -> Z) t i :
  t = f <$> seq 0 256 -> 0 <= i < 256 -> tab_get t i = f (Z.to_nat i).
Proof.
  intros -> Hi. unfold tab_get, zget. bcase; [|lia].
  rewrite list_lookup_fmap, lookup_seq_lt by lia. done.
Qed.

Lemma land_255 x : 0 <= Z.land x 255 < 256.
Proof. rewrite land_mod256. apply Z.mod_pos_bound. lia. Qed.

Lemma crc_table_ok : crc_table = make_crc_table.
Proof. vm_compute. reflexivity. Qed.

Lemma byte_shiftr x : byte_ok x -> Z.shiftr x 8 = 0.
Proof. intros Hx. rewrite Z.shiftr_div_pow2 by lia. by apply Z.div_small. Qed.

Lemma DO_CRC_bits c x : byte_ok x -> DO_CRC c x = Nat.iter 8 crc32_bit (Z.lxor c x).
Proof.
  intros Hx. unfold DO_CRC.
  rewrite (tab_get_map (fun n => Nat.iter 8 crc32_bit (Z.of_nat n)) _ _ crc_table_ok)
    by apply land_255.
  pose proof (land_255 (Z.lxor c x)). rewrite Z2Nat.id by lia.
  rewrite (split_low (Z.lxor c x) 8) at 2 by lia.
  rewrite (iter_lxor _ crc32_bit_lxor). f_equal.
  rewrite (crc32_iter_high _ 8). by rewrite Z.shiftr_lxor, (byte_shiftr x), Z.lxor_0_r.
Qed.

Lemma fold_DO_CRC buf : Forall byte_ok buf -> forall c, fold_left DO_CRC buf c = crc32_ref c buf.
Proof.
  induction 1 as [|x buf Hx _ IH]; intros c; [done|]. simpl. rewrite DO_CRC_bits by done. apply IH.
Qed.

(** One word is absorbed like its four bytes. *)
Lemma DO_CRC_word c w x : byte_ok x -> Z.land w 255 = x ->
  DO_CRC (Z.lxor c w) 0 = Z.lxor (DO_CRC c x) (Z.shiftr w 8).
Proof.
  intros Hx Hw. unfold DO_CRC. rewrite Z.lxor_0_r, Z.shiftr_lxor.
  assert (Z.land (Z.lxor c w) 255 = Z.land (Z.lxor c x) 255) as ->.
  { subst x. apply Z.bits_inj'. intros i Hi. rewrite !Z.land_spec, !Z.lxor_spec, Z.land_spec.
    by destruct (Z.testbit 255 i), (Z.testbit c i), (Z.testbit w i). }
  symmetry. apply Z.lxor_assoc.
Qed.

Lemma le32_low b0 b1 b2 b3 : byte_ok b0 -> Z.land (le32 b0 b1 b2 b3) 255 = b0.
Proof.
  intros Hb. rewrite land_mod256. unfold le32, byte_ok in *.
  replace (b0 + b1 * 2 ^ 8 + b2 * 2 ^ 16 + b3 * 2 ^ 24)
    with (b0 + (b1 + b2 * 2 ^ 8 + b3 * 2 ^ 16) * 256) by lia.
  rewrite Z.mod_add by lia. by apply Z.mod_small.
Qed.

Lemma le32_shift b0 b1 b2 b3 : byte_ok b0 ->
  Z.shiftr (le32 b0 b1 b2 b3) 8 = le32 b1 b2 b3 0.
Proof.
  intros Hb. rewrite Z.shiftr_div_pow2 by lia. unfold le32, byte_ok in *.
  replace (b0 + b1 * 2 ^ 8 + b2 * 2 ^ 16 + b3 * 2 ^ 24)
    with (b0 + (b1 + b2 * 2 ^ 8 + b3 * 2 ^ 16) * 2 ^ 8) by lia.
  rewrite Z.div_add by lia. rewrite Z.div_small by lia. lia.
Qed.

Lemma word_step c b0 b1 b2 b3 : Forall byte_ok [b0; b1; b2; b3] ->
  DO_CRC (DO_CRC (DO_CRC (DO_CRC (Z.lxor c (le32 b0 b1 b2 b3)) 0) 0) 0) 0 =
  fold_left DO_CRC [b0; b1; b2; b3] c.
Proof.
  intros Hb. do 4 (apply Forall_cons in Hb as [? Hb]).
  assert (byte_ok 0) by (unfold byte_ok; lia). simpl.
  rewrite (DO_CRC_word c _ b0), le32_shift by (done || by apply le32_low).
  rewrite (DO_CRC_word (DO_CRC c b0) _ b1), le32_shift by (done || by apply le32_low).
  rewrite (DO_CRC_word (DO_CRC (DO_CRC c b0) b1) _ b2), le32_shift by (done || by apply le32_low).
  rewrite (DO_CRC_word _ _ b3), le32_shift by (done || by apply le32_low).
  by rewrite Z.lxor_0_r.
Qed.

Lemma word_loop_spec n : forall c buf c' rest, Forall byte_ok buf ->
  word_loop n c buf = (c', rest) ->
  Forall byte_ok rest /\ fold_left DO_CRC rest c' = fold_left DO_CRC buf c.
Proof.
  induction n as [|n IH]; intros c buf c' rest Hb E; simpl in E; [by simplify_eq|].
  destruct buf as [|b0 [|b1 [|b2 [|b3 buf]]]]; simplify_eq; try done.
  apply IH in E; [|by do 4 apply Forall_cons in Hb as [_ Hb]].
  destruct E as [? ->]. split; [done|]. rewrite word_step; [done|].
  do 4 (apply Forall_cons in Hb as [? Hb]). by rewrite !Forall_cons.
Qed.

Lemma align_loop_spec buf : forall c p c' rest, Forall byte_ok buf ->
  align_loop c p buf = (c', rest) ->
  Forall byte_ok rest /\ fold_left DO_CRC rest c' = fold_left DO_CRC buf c.
Proof.
  induction buf as [|x buf IH]; intros c p c' rest Hb E; simpl in E; [by simplify_eq|].
  bcase_in E; simplify_eq; [done|]. apply Forall_cons in Hb as [_ Hb]. by eapply IH.
Qed.

Lemma crc32_no_comp_ref crc addr buf : Forall byte_ok buf ->
  crc32_no_comp crc addr buf = crc32_ref crc buf.
Proof.
  intros Hb. unfold crc32_no_comp.
  destruct (align_loop crc addr buf) as [c1 b1] eqn:E1.
  apply align_loop_spec in E1 as [Hb1 E1]; [|done].
  destruct (word_loop _ c1 b1) as [c2 b2] eqn:E2.
  apply word_loop_spec in E2 as [Hb2 E2]; [|done].
  rewrite E2, E1. by apply fold_DO_CRC.
Qed.

Lemma lxor_twice a b : Z.lxor (Z.lxor a b) b = a.
Proof. by rewrite Z.lxor_assoc, Z.lxor_nilpotent, Z.lxor_0_r. Qed.

Lemma crc32_app c p q r a b : Forall byte_ok a -> Forall byte_ok b ->
  crc32 (crc32 c p a) q b = crc32 c r (a ++ b).
Proof.
  intros Ha Hb. unfold crc32. rewrite lxor_twice.
  rewrite !crc32_no_comp_ref by (try apply Forall_app_2; done).
  unfold crc32_ref. by rewrite fold_left_app.
Qed.

Lemma crc32_nil c p : crc32 c p [] = c.
Proof. unfold crc32. rewrite crc32_no_comp_ref by done. apply lxor_twice. Qed.

Lemma crc32_wd_loop_spec fuel : forall crc curr buf chunk_sz, (length buf <= fuel)%nat ->
  Forall byte_ok buf -> 1 <= chunk_sz ->
  crc32_wd_loop fuel crc curr buf chunk_sz = Some (crc32 crc curr buf).
Proof.
  induction fuel as [|fuel IH]; intros crc curr buf chunk_sz Hl Hb Hc.
  { destruct buf; [|simpl in Hl; lia]. by rewrite crc32_nil. }
  destruct buf as [|x buf]; [by rewrite crc32_nil|].
  cbn [crc32_wd_loop]. set (n := Z.to_nat _).
  assert (1 <= n)%nat by (subst n; bcase; simpl in *; lia).
  rewrite IH; [|rewrite length_drop; simpl in *; lia | by apply Forall_drop | done].
  f_equal. rewrite (crc32_app _ _ _ curr) by (apply Forall_take || apply Forall_drop; done).
  by rewrite take_drop.
Qed.

(** ** MSB-first registers *)

Lemma wrap_lxor w a b : 0 <= w -> wrap w (Z.lxor a b) = Z.lxor (wrap w a) (wrap w b).
Proof.
  intros Hw. unfold wrap. rewrite <- !Z.land_ones by done.
  apply Z.bits_inj'. intros. rewrite !Z.land_spec, !Z.lxor_spec, !Z.land_spec.
  by destruct (Z.testbit (Z.ones w) n), (Z.testbit a n), (Z.testbit b n).
Qed.

Lemma msb_bit_lxor w poly a b : 0 <= w ->
  msb_bit w poly (Z.lxor a b) = Z.lxor (msb_bit w poly a) (msb_bit w poly b).
Proof.
  intros Hw. unfold msb_bit. rewrite <- wrap_lxor by done. f_equal.
  rewrite Z.shiftl_lxor, Z.lxor_spec, lxor_shuffle. f_equal.
  by destruct (Z.testbit a _), (Z.testbit b _);
    rewrite ?Z.lxor_0_r, ?Z.lxor_0_l, ?Z.lxor_nilpotent.
Qed.

Lemma crc16_tab_ok :
  crc16_tab = (fun n : nat => Nat.iter 8 (msb_bit 16 0x1021) (Z.shiftl (Z.of_nat n) 8)) <$> seq 0 256.
Proof. vm_compute. reflexivity. Qed.

Lemma crc16_low_ok :
  forallb (fun n : nat => Nat.iter 8 (msb_bit 16 0x1021) (Z.of_nat n) =? Z.shiftl (Z.of_nat n) 8)
    (seq 0 256) = true.
Proof. vm_compute. reflexivity. Qed.

Lemma crc16_low c : 0 <= c < 256 -> Nat.iter 8 (msb_bit 16 0x1021) c = Z.shiftl c 8.
Proof.
  intros Hc. pose proof (proj1 (forallb_forall _ _) crc16_low_ok (Z.to_nat c)) as H.
  cbv beta in H. rewrite Z2Nat.id in H by lia. apply Z.eqb_eq, H, in_seq. lia.
Qed.

Lemma msb_iter_range w poly n c : 0 <= w -> 0 <= Nat.iter (S n) (msb_bit w poly) c < 2 ^ w.
Proof. intros Hw. rewrite Nat.iter_succ. by apply wrap_range. Qed.

Lemma lxor_lt a b n : 0 <= n -> 0 <= a < 2 ^ n -> 0 <= b < 2 ^ n -> 0 <= Z.lxor a b < 2 ^ n.
Proof.
  intros Hn Ha Hb.
  assert (wrap n (Z.lxor a b) = Z.lxor a b) as <-
    by (rewrite wrap_lxor, !wrap_small by done; done).
  by apply wrap_range.
Qed.

Lemma shiftl_low c : wrap 16 (Z.shiftl c 8) = Z.shiftl (Z.land c 255) 8.
Proof.
  unfold wrap. rewrite land_mod256, !Z.shiftl_mul_pow2 by lia.
  change (2 ^ 16) with (256 * 256). change (2 ^ 8) with 256.
  by rewrite Z.mul_mod_distr_r by lia.
Qed.

Lemma crc16_tab_get i : 0 <= i < 2 ^ 8 ->
  tab_get crc16_tab i = Nat.iter 8 (msb_bit 16 0x1021) (Z.shiftl i 8).
Proof.
  intros Hi. rewrite (tab_get_map _ _ _ crc16_tab_ok) by done. by rewrite Z2Nat.id by lia.
Qed.

(** A register split into its bytes: the low byte moves up, the high one is
    absorbed together with the input. *)
Lemma crc16_split c x : 0 <= c < 2 ^ 16 ->
  Nat.iter 8 (msb_bit 16 0x1021) (Z.lxor c (Z.shiftl x 8)) =
  Z.lxor (Z.shiftl (Z.land c 255) 8)
    (Nat.iter 8 (msb_bit 16 0x1021) (Z.shiftl (Z.lxor (Z.shiftr c 8) x) 8)).
Proof.
  intros Hc. rewrite (split_low c 8) at 1 by lia. rewrite Z.lxor_assoc, <- Z.shiftl_lxor.
  rewrite (iter_lxor _ (fun a b => msb_bit_lxor 16 0x1021 a b ltac:(lia))).
  change (Z.ones 8) with 255. by rewrite (crc16_low (Z.land c 255)) by apply land_255.
Qed.

Lemma crc16_index c x : 0 <= c < 2 ^ 16 -> byte_ok x ->
  0 <= Z.lxor (Z.shiftr c 8) x < 2 ^ 8.
Proof.
  intros Hc Hx.
  assert (0 <= Z.shiftr c 8 < 2 ^ 8) as Hhi.
  { rewrite Z.shiftr_div_pow2 by lia. split; [apply Z.div_pos; lia | apply Z.div_lt_upper_bound; lia]. }
  apply (lxor_lt (Z.shiftr c 8) x 8 ltac:(lia) Hhi Hx).
Qed.

Lemma crc16_mix r c : 0 <= r < 2 ^ 16 ->
  wrap 16 (Z.lxor r (Z.shiftl c 8)) = Z.lxor (Z.shiftl (Z.land c 255) 8) r.
Proof. intros Hr. rewrite wrap_lxor, shiftl_low, wrap_small by lia. apply Z.lxor_comm. Qed.

Lemma crc16_step_bits c x : 0 <= c < 2 ^ 16 -> byte_ok x ->
  crc16_step c x = Nat.iter 8 (msb_bit 16 0x1021) (Z.lxor c (Z.shiftl x 8)).
Proof.
  intros Hc Hx. pose proof (crc16_index c x Hc Hx) as Hi.
  rewrite crc16_split by done. rewrite <- crc16_mix by (apply msb_iter_range; lia).
  rewrite <- crc16_tab_get by done. unfold crc16_step.
  by rewrite land_mod256, (Z.mod_small _ 256).
Qed.

Lemma crc16_fold buf : Forall byte_ok buf -> forall c, 0 <= c < 2 ^ 16 ->
  fold_left crc16_step buf c = crc16_ref c buf.
Proof.
  induction 1 as [|x buf Hx _ IH]; intros c Hc; [done|].
  change (fold_left crc16_step buf (crc16_step c x) =
    crc16_ref (Nat.iter 8 (msb_bit 16 0x1021) (Z.lxor c (Z.shiftl x 8))) buf).
  rewrite <- crc16_step_bits by done. apply IH. by apply wrap_range.
Qed.

(** ** crc7 and crc8 *)

Lemma crc7_table_ok :
  crc7_syndrome_table =
    (fun n : nat => Z.shiftr (Nat.iter 8 (msb_bit 8 0x12) (Z.of_nat n)) 1) <$> seq 0 256.
Proof. vm_compute. reflexivity. Qed.

Lemma crc7_byte_bits c x : 0 <= c < 2 ^ 7 -> byte_ok x ->
  exists c', crc7_byte c x = Some c' /\ 0 <= c' < 2 ^ 7 /\
    c' = Z.shiftr (Nat.iter 8 (msb_bit 8 0x12) (Z.lxor (Z.shiftl c 1) x)) 1.
Proof.
  intros Hc Hx. unfold crc7_byte.
  assert (0 <= Z.lxor (Z.shiftl c 1) x < 2 ^ 8) as Hi.
  { apply lxor_lt; [lia | rewrite Z.shiftl_mul_pow2 by lia; lia | done]. }
  eexists. split; [|split; [|reflexivity]].
  - rewrite crc7_table_ok. unfold zget. bcase; [|lia].
    rewrite list_lookup_fmap, lookup_seq_lt by lia. simpl option_fmap.
    cbn -[Nat.iter]. by rewrite Z2Nat.id by lia.
  - pose proof (msb_iter_range 8 0x12 7 (Z.lxor (Z.shiftl c 1) x) ltac:(lia)) as Hr.
    rewrite Z.shiftr_div_pow2 by lia. split; [apply Z.div_pos; lia|].
    apply Z.div_lt_upper_bound; lia.
Qed.

Lemma crc7_fold buf : Forall byte_ok buf -> forall c, 0 <= c < 2 ^ 7 ->
  crc7 c buf = Some (crc7_ref c buf).
Proof.
  induction 1 as [|x buf Hx _ IH]; intros c Hc; [done|]. cbn [crc7].
  destruct (crc7_byte_bits c x Hc Hx) as (c' & -> & Hc' & ->). cbn [mbind option_bind].
  by rewrite IH.
Qed.

(** The 16-bit register of [crc8] keeps its low byte zero. *)
Lemma crc8_bit_shift c : 0 <= c < 2 ^ 8 ->
  crc8_bit (Z.shiftl c 8) = Z.shiftl (msb_bit 8 0x07 c) 8.
Proof.
  intros Hc.
  assert (forallb (fun n : nat => crc8_bit (Z.shiftl (Z.of_nat n) 8) =?
    Z.shiftl (msb_bit 8 0x07 (Z.of_nat n)) 8) (seq 0 256) = true) as H by (vm_compute; reflexivity).
  pose proof (proj1 (forallb_forall _ _) H (Z.to_nat c)) as Hn. cbv beta in Hn.
  rewrite Z2Nat.id in Hn by lia. apply Z.eqb_eq, Hn, in_seq. lia.
Qed.

Lemma crc8_iter_shift n : forall c, 0 <= c < 2 ^ 8 ->
  Nat.iter n crc8_bit (Z.shiftl c 8) = Z.shiftl (Nat.iter n (msb_bit 8 0x07) c) 8.
Proof.
  induction n as [|n IH]; intros c Hc; [done|].
  rewrite !Nat.iter_succ_r. rewrite crc8_bit_shift by done. apply IH. by apply wrap_range.
Qed.

Lemma crc8_byte_shift c x : 0 <= c < 2 ^ 8 -> byte_ok x ->
  crc8_byte (Z.shiftl c 8) x = Z.shiftl (Nat.iter 8 (msb_bit 8 0x07) (Z.lxor c x)) 8.
Proof.
  intros Hc Hx. unfold crc8_byte. rewrite <- Z.shiftl_lxor.
  apply crc8_iter_shift, lxor_lt; [lia | done | done].
Qed.

Lemma crc8_ref_cons c x buf :
  crc8_ref c (x :: buf) = crc8_ref (Nat.iter 8 (msb_bit 8 0x07) (Z.lxor c x)) buf.
Proof. reflexivity. Qed.

Lemma crc8_fold buf : Forall byte_ok buf -> forall c, 0 <= c < 2 ^ 8 ->
  fold_left crc8_byte buf (Z.shiftl c 8) = Z.shiftl (crc8_ref c buf) 8 /\
  0 <= crc8_ref c buf < 2 ^ 8.
Proof.
  induction 1 as [|x buf Hx _ IH]; intros c Hc; [done|].
  rewrite crc8_ref_cons, fold_left_cons.
  rewrite crc8_byte_shift by done. apply IH, msb_iter_range. lia.
Qed.

(** ** Bit reversal *)

Lemma bitrev8_ok : forallb (fun n : nat => forallb (fun i : nat =>
    Bool.eqb (Z.testbit (bitrev8 (Z.of_nat n)) (Z.of_nat i)) (Z.testbit (Z.of_nat n) (7 - Z.of_nat i)))
  (seq 0 8)) (seq 0 256) && forallb (fun n : nat => bitrev8 (Z.of_nat n) <? 256) (seq 0 256)
  && forallb (fun n : nat => 0 <=? bitrev8 (Z.of_nat n)) (seq 0 256) = true.
Proof. vm_compute. reflexivity. Qed.

Lemma bitrev8_spec x i : 0 <= x < 256 -> 0 <= i < 8 ->
  Z.testbit (bitrev8 x) i = Z.testbit x (7 - i).
Proof.
  intros Hx Hi. pose proof bitrev8_ok as [[H _]%andb_prop _]%andb_prop.
  pose proof (proj1 (forallb_forall _ _) H (Z.to_nat x) ltac:(apply in_seq; lia)) as H1.
  pose proof (proj1 (forallb_forall _ _) H1 (Z.to_nat i) ltac:(apply in_seq; lia)) as H2.
  cbv beta in H2. rewrite !Z2Nat.id in H2 by lia. by apply Bool.eqb_prop.
Qed.

Lemma bitrev8_range x : 0 <= x < 256 -> 0 <= bitrev8 x < 2 ^ 8.
Proof.
  intros Hx. pose proof bitrev8_ok as [[_ Hu]%andb_prop Hl]%andb_prop.
  pose proof (proj1 (forallb_forall _ _) Hu (Z.to_nat x) ltac:(apply in_seq; lia)) as H1.
  pose proof (proj1 (forallb_forall _ _) Hl (Z.to_nat x) ltac:(apply in_seq; lia)) as H2.
  cbv beta in H1, H2. rewrite Z2Nat.id in H1, H2 by lia. zbool. lia.
Qed.

(** Reversal of a double-width value from the reversal [rev] of a half. *)
Section Double.
Context (n : Z) (rev : Z -> Z) (Hn : 0 < n).
Context (rev_spec : forall x i, 0 <= x < 2 ^ n -> 0 <= i < n ->
  Z.testbit (rev x) i = Z.testbit x (n - 1 - i)).
Context (rev_range : forall x, 0 <= x < 2 ^ n -> 0 <= rev x < 2 ^ n).

Lemma rev_double x i : 0 <= x < 2 ^ (2 * n) -> 0 <= i < 2 * n ->
  Z.testbit (wrap (2 * n) (Z.lor (Z.shiftl (rev (Z.land x (Z.ones n))) n) (rev (Z.shiftr x n)))) i =
  Z.testbit x (2 * n - 1 - i).
Proof.
  intros Hx Hi. unfold wrap. rewrite Z.mod_pow2_bits_low, Z.lor_spec by lia.
  assert (0 <= Z.land x (Z.ones n) < 2 ^ n) as Hlo.
  { rewrite Z.land_ones by lia. apply Z.mod_pos_bound. lia. }
  assert (0 <= Z.shiftr x n < 2 ^ n) as Hhi.
  { rewrite Z.shiftr_div_pow2 by lia. replace (2 * n) with (n + n) in Hx by lia.
    rewrite Z.pow_add_r in Hx by lia.
    split; [apply Z.div_pos; lia | apply Z.div_lt_upper_bound; lia]. }
  destruct (decide (i < n)).
  - rewrite Z.shiftl_spec_low, rev_spec, Z.shiftr_spec by lia. simpl. f_equal. lia.
  - rewrite Z.shiftl_spec, rev_spec, Z.land_spec, Z.ones_spec_low by lia.
    rewrite <- (wrap_small n (rev (Z.shiftr x n))) by auto.
    unfold wrap. rewrite Z.mod_pow2_bits_high by lia.
    rewrite andb_true_r, orb_false_r. f_equal. lia.
Qed.
End Double.

Lemma bitrev16_spec x i : 0 <= x < 2 ^ 16 -> 0 <= i < 16 ->
  Z.testbit (bitrev16 x) i = Z.testbit x (15 - i).
Proof. apply (rev_double 8 bitrev8); [lia | apply bitrev8_spec | apply bitrev8_range]. Qed.

Lemma bitrev32_spec x i : 0 <= x < 2 ^ 32 -> 0 <= i < 32 ->
  Z.testbit (bitrev32 x) i = Z.testbit x (31 - i).
Proof.
  apply (rev_double 16 bitrev16); [lia | apply bitrev16_spec | intros; by apply wrap_range].
Qed.

(** ** Error detection *)

(** The bytes of a window as one number, first byte lowest. *)
Fixpoint le_word (w : bytes) : Z :=
  match w with [] => 0 | x :: w => Z.lxor x (Z.shiftl (le_word w) 8) end.

(** Absorbing a window is absorbing that number at once. *)
Lemma crc32_ref_window c w :
  crc32_ref c w = Nat.iter (8 * length w) crc32_bit (Z.lxor c (le_word w)).
Proof.
  revert c; induction w as [|x w IH]; intros c; [simpl; by rewrite Z.lxor_0_r|].
  change (crc32_ref c (x :: w)) with (crc32_ref (Nat.iter 8 crc32_bit (Z.lxor c x)) w).
  rewrite IH. replace (8 * length (x :: w))%nat with (8 * length w + 8)%nat by (simpl; lia).
  rewrite Nat.iter_add. f_equal. cbn [le_word].
  rewrite <- Z.lxor_assoc, (iter_lxor _ crc32_bit_lxor 8 (Z.lxor c x)). f_equal.
  symmetry. apply (crc32_iter_high (le_word w) 8).
Qed.

Lemma lxor_range a b : 0 <= a < 2 ^ 32 -> 0 <= b < 2 ^ 32 -> 0 <= Z.lxor a b < 2 ^ 32.
Proof.
  intros Ha Hb. assert (0 <= Z.lxor a b) as Hn by (apply Z.lxor_nonneg; lia). split; [done|].
  destruct (Z.eq_dec (Z.lxor a b) 0) as [->|Hne]; [lia|]. apply Z.log2_lt_pow2; [lia|].
  eapply Z.le_lt_trans; [apply Z.log2_lxor; lia|].
  assert (forall z, 0 <= z < 2 ^ 32 -> Z.log2 z < 32) as Hlog.
  { intros z Hz. destruct (Z.eq_dec z 0) as [->|]; [by vm_compute | apply Z.log2_lt_pow2; lia]. }
  apply Z.max_lub_lt; by apply Hlog.
Qed.

Lemma crc32_bit_range c : 0 <= c < 2 ^ 32 -> 0 <= crc32_bit c < 2 ^ 32.
Proof.
  intros Hc. unfold crc32_bit. rewrite Z.shiftr_div_pow2 by lia. change (2 ^ 1) with 2.
  assert (0 <= c / 2 < 2 ^ 32) by (Z.to_euclidean_division_equations; lia).
  bcase; [|lia]. change crc_poly with 0xedb88320. by apply lxor_range.
Qed.

(** The register never loses a difference: the polynomial has its top bit set. *)
Lemma crc32_bit_nonzero c : 0 < c < 2 ^ 32 -> crc32_bit c <> 0.
Proof.
  intros Hc E. rewrite crc32_bit_alt in E. apply Z.lxor_eq in E.
  rewrite Z.shiftr_div_pow2 in E by lia. change (2 ^ 1) with 2 in E. rewrite Z.bit0_odd in E.
  pose proof (Zmod_odd c) as Ho. destruct (Z.odd c).
  - change crc_poly with 0xedb88320 in E. Z.to_euclidean_division_equations; lia.
  - Z.to_euclidean_division_equations; lia.
Qed.

Lemma crc32_iter_nonzero n c : 0 < c < 2 ^ 32 -> 0 < Nat.iter n crc32_bit c < 2 ^ 32.
Proof.
  intros Hc. induction n as [|n IH]; [done|]. simpl.
  pose proof (crc32_bit_nonzero _ IH). pose proof (crc32_bit_range (Nat.iter n crc32_bit c)). lia.
Qed.

Lemma crc32_ref_diff c d buf : 0 < Z.lxor c d < 2 ^ 32 ->
  0 < Z.lxor (crc32_ref c buf) (crc32_ref d buf) < 2 ^ 32.
Proof.
  intros Hd. rewrite !crc32_ref_window, <- (iter_lxor _ crc32_bit_lxor), lxor_shuffle, Z.lxor_nilpotent, Z.lxor_0_r.
  by apply crc32_iter_nonzero.
Qed.

Lemma le_word_range w : Forall byte_ok w -> 0 <= le_word w < 2 ^ (8 * Z.of_nat (length w)).
Proof.
  induction 1 as [|x w Hx Hw IH]; [simpl; lia|]. cbn [le_word length].
  rewrite <- Z.add_nocarry_lxor.
  - rewrite Z.shiftl_mul_pow2 by lia. unfold byte_ok in Hx.
    rewrite Nat2Z.inj_succ. replace (8 * Z.succ (Z.of_nat (length w))) with (8 + 8 * Z.of_nat (length w)) by lia.
    rewrite Z.pow_add_r by lia. change (2 ^ 8) with 256. nia.
  - apply Z.bits_inj'. intros n Hn. rewrite Z.land_spec, Z.bits_0.
    destruct (Z.ltb_spec n 8); [by rewrite Z.shiftl_spec_low, andb_false_r|].
    destruct (Z.eq_dec x 0) as [->|]; [by rewrite Z.bits_0|].
    rewrite (Z.bits_above_log2 x); [done | unfold byte_ok in Hx; lia |].
    assert (Z.log2 x < 8) by (apply Z.log2_lt_pow2; unfold byte_ok in Hx; lia). lia.
Qed.

Lemma le_word_inj w w' : Forall byte_ok w -> Forall byte_ok w' -> length w = length w' ->
  le_word w = le_word w' -> w = w'.
Proof.
  intros Hw. revert w'; induction Hw as [|x w Hx Hw IH]; intros [|y w'] Hw' Hl E; try done.
  apply Forall_cons in Hw' as [Hy Hw']. cbn [le_word] in E.
  assert (forall z r, byte_ok z -> Z.lxor z (Z.shiftl r 8) mod 256 = z) as Hlow.
  { intros z r Hz. rewrite <- land_mod256. apply Z.bits_inj'. intros n Hn.
    rewrite Z.land_spec, Z.lxor_spec. change 255 with (Z.ones 8).
    destruct (Z.ltb_spec n 8).
    - rewrite Z.ones_spec_low, Z.shiftl_spec_low by lia. by rewrite xorb_false_r, andb_true_r.
    - rewrite Z.ones_spec_high by lia. rewrite andb_false_r. symmetry.
      destruct (Z.eq_dec z 0) as [->|]; [apply Z.bits_0|]. unfold byte_ok in Hz.
      apply Z.bits_above_log2; [lia|]. assert (Z.log2 z < 8) by (apply Z.log2_lt_pow2; lia). lia. }
  assert (x = y) as -> by (rewrite <- (Hlow x (le_word w) Hx), E; by apply Hlow).
  f_equal. apply IH; [done | simpl in Hl; lia |].
  apply (f_equal (fun z => Z.shiftr (Z.lxor y z) 8)) in E.
  rewrite <- !Z.lxor_assoc, Z.lxor_nilpotent, !Z.lxor_0_l, !Z.shiftr_shiftl_l in E by lia.
  by rewrite !Z.shiftl_0_r in E.
Qed.

(** The address only decides how the buffer is read. *)
Lemma crc32_addr crc addr addr' buf : Forall byte_ok buf -> crc32 crc addr buf = crc32 crc addr' buf.
Proof. intros Hb. unfold crc32. by rewrite !crc32_no_comp_ref. Qed.

(** Two buffers that differ only inside a window of at most four bytes have
    different checksums. *)
Lemma crc32_burst crc addr addr' a w w' b :
  Forall byte_ok (a ++ w ++ b) -> Forall byte_ok w' ->
  length w = length w' -> (length w <= 4)%nat -> w <> w' ->
  crc32 crc addr (a ++ w ++ b) <> crc32 crc addr' (a ++ w' ++ b).
Proof.
  intros Hall Hw' Hlen H4 Hne E. apply Forall_app in Hall as [Ha Hall]. apply Forall_app in Hall as [Hw Hb].
  unfold crc32 in E. rewrite !crc32_no_comp_ref in E by (by repeat apply Forall_app_2).
  apply (f_equal (fun z => Z.lxor z 0xffffffff)) in E.
  rewrite !Z.lxor_assoc, !Z.lxor_nilpotent, !Z.lxor_0_r in E.
  unfold crc32_ref in E. rewrite !fold_left_app in E.
  set (c := fold_left _ a _) in E. fold (crc32_ref c w) in E. fold (crc32_ref c w') in E.
  fold (crc32_ref (crc32_ref c w) b) in E. fold (crc32_ref (crc32_ref c w') b) in E.
  assert (0 < Z.lxor (le_word w) (le_word w') < 2 ^ 32) as Hd.
  { pose proof (le_word_range w Hw). pose proof (le_word_range w' Hw').
    assert (2 ^ (8 * Z.of_nat (length w)) <= 2 ^ 32) by (apply Z.pow_le_mono_r; lia).
    rewrite <- Hlen in *.
    pose proof (lxor_range (le_word w) (le_word w')).
    assert (Z.lxor (le_word w) (le_word w') <> 0) as Hn0; [|lia].
    intros E0%Z.lxor_eq. apply Hne. by apply le_word_inj. }
  assert (0 < Z.lxor (crc32_ref c w) (crc32_ref c w') < 2 ^ 32) as Hs.
  { rewrite !crc32_ref_window, <- Hlen, <- (iter_lxor _ crc32_bit_lxor), lxor_shuffle, Z.lxor_nilpotent, Z.lxor_0_l.
    by apply crc32_iter_nonzero. }
  pose proof (crc32_ref_diff _ _ b Hs) as Hf. rewrite E, Z.lxor_nilpotent in Hf. lia.
Qed.

(** ** Properties *)

(** C6: [crc32] detects every error burst of up to 32 bits at byte boundaries:
    buffers that differ only inside a window of at most four bytes have
    different checksums, whatever their addresses. *)
Theorem crc32_detects_burst crc addr addr' a w w' b :
  Forall byte_ok (a ++ w ++ b) -> Forall byte_ok w' ->
  length w = length w' -> (length w <= 4)%nat -> w <> w' ->
  crc32 crc addr (a ++ w ++ b) <> crc32 crc addr' (a ++ w' ++ b).
Proof. apply crc32_burst. Qed.

Lemma crc32_detects_burst_witness :
  crc32 0 4 (str "ab" ++ str "cde" ++ str "f") <> crc32 0 1 (str "ab" ++ str "cxe" ++ str "f").
Proof.
  apply crc32_detects_burst; [apply (str_ok "abcdef") | apply str_ok | done | vm_compute; lia | done].
Defined.

Definition check_input : bytes := str "123456789".

(** [crc32], with its alignment prologue, word-at-a-time loop and tail, is
    the bitwise CRC-32 of the bytes, whatever the buffer's address. *)
Theorem crc32_bitwise crc addr buf (Hb : Forall byte_ok buf) :
  crc32 crc addr buf = Z.lxor (crc32_ref (Z.lxor crc 0xffffffff) buf) 0xffffffff.
Proof. unfold crc32. by rewrite crc32_no_comp_ref. Qed.

Lemma crc32_bitwise_witness :
  crc32 0 1 check_input = 0xcbf43926 /\
  crc32 0 1 check_input = Z.lxor (crc32_ref (Z.lxor 0 0xffffffff) check_input) 0xffffffff.
Proof. split; [vm_compute; reflexivity|]. apply crc32_bitwise. apply str_ok. Defined.

(** The watchdog variant, which feeds the data in chunks, terminates and
    returns the CRC of the whole buffer for every positive chunk size. *)
Theorem crc32_wd_whole watchdog crc addr buf chunk_sz (Hb : Forall byte_ok buf)
  (Hc : 1 <= chunk_sz) :
  crc32_wd watchdog crc addr buf chunk_sz = Some (crc32 crc addr buf).
Proof. destruct watchdog; [|done]. by apply crc32_wd_loop_spec. Qed.

Lemma crc32_wd_whole_witness :
  crc32_wd true 0 2 check_input 4 = Some (crc32 0 2 check_input).
Proof. apply (crc32_wd_whole true 0 2 check_input 4); [apply str_ok | lia]. Defined.

(** The table-driven 16-bit CRC is the bitwise CRC with polynomial
    x^16 + x^12 + x^5 + 1. *)
Theorem cyg_crc16_bitwise buf (Hb : Forall byte_ok buf) : cyg_crc16 buf = crc16_ref 0 buf.
Proof. by apply crc16_fold. Qed.

Lemma cyg_crc16_bitwise_witness :
  cyg_crc16 check_input = 0x31c3 /\ cyg_crc16 check_input = crc16_ref 0 check_input.
Proof. split; [vm_compute; reflexivity|]. apply (cyg_crc16_bitwise check_input), str_ok. Defined.

(** [crc7] never indexes outside of its table when it starts from a 7-bit
    value, and computes the bitwise CRC-7; [crc8] computes the bitwise CRC-8. *)
Theorem crc7_crc8_bitwise c buf (Hc : 0 <= c < 2 ^ 7) (Hb : Forall byte_ok buf) :
  crc7 c buf = Some (crc7_ref c buf) /\ crc8 buf = crc8_ref 0 buf.
Proof.
  split; [by apply crc7_fold|]. unfold crc8.
  destruct (crc8_fold buf Hb 0 ltac:(lia)) as [E Hr]. change (Z.shiftl 0 8) with 0 in E.
  rewrite E, Z.shiftr_shiftl_l by lia. rewrite Z.shiftl_0_r.
  rewrite land_mod256. by apply Z.mod_small.
Qed.

Lemma crc7_crc8_bitwise_witness :
  crc7 0 check_input = Some 0x75 /\ crc8 check_input = 0xf4 /\
  crc7 0 check_input = Some (crc7_ref 0 check_input) /\ crc8 check_input = crc8_ref 0 check_input.
Proof.
  split; [vm_compute; reflexivity|]. split; [vm_compute; reflexivity|].
  apply (crc7_crc8_bitwise 0 check_input); [lia | apply str_ok].
Defined.

(** [bitrev32] reverses the bits of a 32-bit value. *)
Theorem bitrev32_reverses x i (Hx : 0 <= x < 2 ^ 32) (Hi : 0 <= i < 32) :
  Z.testbit (bitrev32 x) i = Z.testbit x (31 - i).
Proof. by apply bitrev32_spec. Qed.

Lemma bitrev32_reverses_witness :
  bitrev32 0x12345678 = 0x1e6a2c48 /\ Z.testbit (bitrev32 0x12345678) 3 = Z.testbit 0x12345678 (31 - 3).
Proof. split; [vm_compute; reflexivity|]. apply (bitrev32_reverses 0x12345678 3); lia. Defined.

End Crc.
