(* ===== verification/Circbuf.v ===== *)
(** * Circular byte buffer (lib/circbuf.c, include/circbuf.h)

    The buffer of the USB serial driver.  Pointers into the data area are
    offsets from [data]; [end] is the offset [totalsize].  [buf_push] may
    overwrite the oldest bytes.  The abstract specification is a bounded FIFO
    queue that keeps the newest [totalsize] bytes. *)

From S2P Require Import Prelude.

Module Circbuf.

Record circbuf_t := Circbuf_ {
  size : Z;        (** current number of bytes held *)
  totalsize : Z;   (** number of bytes allocated *)
  top : Z;         (** offset of the first byte held *)
  tail : Z;        (** offset of the space for the next byte *)
  data : bytes;    (** the data area; [end] is its length *)
}.

Definition end_ (buf : circbuf_t) : Z := Z.of_nat (length (data buf)).

(** [area] is what [malloc] returned: [size] bytes of unknown content. *)
Definition buf_init (area : bytes) : Z * circbuf_t :=
  (1, Circbuf_ 0 (Z.of_nat (length area)) 0 0 area).

(** [free (buf->data); memset (buf, 0, sizeof (circbuf_t));] *)
Definition buf_free (buf : circbuf_t) : Z * circbuf_t := (1, Circbuf_ 0 0 0 0 []).

(** [p++], and back to [buf->data] at [buf->end]. *)
Definition advance (buf : circbuf_t) (p : Z) : Z :=
  if p + 1 =? end_ buf then 0 else p + 1.

Fixpoint pop_loop (n : nat) (buf : circbuf_t) (p : Z) : option (bytes * Z) :=
  match n with
  | O => Some ([], p)
  | S n' =>
      x ← zget (data buf) p;
      '(dest, p') ← pop_loop n' buf (advance buf p);
      Some (x :: dest, p')
  end.

(** Returns the number of bytes, the bytes written to [dest] and the buffer. *)
Definition buf_pop (buf : circbuf_t) (len : Z) : option (Z * bytes * circbuf_t) :=
  let len := if size buf <? len then size buf else len in
  '(dest, p) ← pop_loop (Z.to_nat len) buf (top buf);
  Some (len, dest, Circbuf_ (u32 (size buf - len)) (totalsize buf) p (tail buf) (data buf)).

(** One iteration of the loop of [buf_push]; [tail] plays the local [p]. *)
Definition push_byte (buf : circbuf_t) (c : Z) : option circbuf_t :=
  d ← zset (data buf) (tail buf) c;
  let p := advance buf (tail buf) in
  if size buf <? totalsize buf then
    Some (Circbuf_ (u32 (size buf + 1)) (totalsize buf) (top buf) p d)
  else
    Some (Circbuf_ (size buf) (totalsize buf) (advance buf (top buf)) p d).

Fixpoint push_loop (src : bytes) (buf : circbuf_t) : option circbuf_t :=
  match src with
  | [] => Some buf
  | c :: src' => buf' ← push_byte buf c; push_loop src' buf'
  end.

Definition buf_push (buf : circbuf_t) (src : bytes) : option (Z * circbuf_t) :=
  buf' ← push_loop src buf;
  Some (Z.of_nat (length src), buf').

(** ** Abstract queue and representation *)

(** Appending to a queue of capacity [n] drops the oldest bytes. *)
Definition bounded_app (n : nat) (q src : bytes) : bytes :=
  drop (length (q ++ src) - n) (q ++ src).

(** The buffer holds the queue [q]. *)
Record repr (buf : circbuf_t) (q : bytes) : Prop := Repr {
  repr_pos : 0 < totalsize buf < 2 ^ 32;
  repr_data : totalsize buf = Z.of_nat (length (data buf));
  repr_size : size buf = Z.of_nat (length q);
  repr_cap : size buf <= totalsize buf;
  repr_top : 0 <= top buf < totalsize buf;
  repr_tail : tail buf = (top buf + size buf) mod totalsize buf;
  repr_get : forall i x, q !! i = Some x ->
    zget (data buf) ((top buf + Z.of_nat i) mod totalsize buf) = Some x;
}.

(** ** Lemmas *)

Lemma advance_mod buf p : 0 <= p < end_ buf -> advance buf p = (p + 1) mod end_ buf.
Proof.
  intros Hp. unfold advance. bcase; [rewrite E; by rewrite Z_mod_same_full|].
  symmetry. apply Z.mod_small. lia.
Qed.

Lemma repr_end buf q : repr buf q -> end_ buf = totalsize buf.
Proof. intros H. unfold end_. by rewrite (repr_data _ _ H). Qed.

Lemma mod_shift a i n : 0 < n -> (a mod n + i) mod n = (a + i) mod n.
Proof. intros. apply Zplus_mod_idemp_l. Qed.

Lemma mod_inj a i j n : 0 < n -> 0 <= i < n -> 0 <= j < n ->
  (a + i) mod n = (a + j) mod n -> i = j.
Proof.
  intros Hn Hi Hj E.
  assert ((i - j) mod n = 0) as H.
  { replace (i - j) with ((a + i) - (a + j)) by lia.
    rewrite Zminus_mod, E, Z.sub_diag. apply Zmod_0_l. }
  apply Z.mod_divide in H as [k Hk]; [|lia]. clear E. assert (k = 0) by nia. lia.
Qed.

(** Reading after a write through the ring. *)
Lemma ring_set (d d' : bytes) a i j n x : zset d ((a + j) mod n) x = Some d' ->
  0 < n -> 0 <= i < n -> 0 <= j < n -> i <> j ->
  zget d' ((a + i) mod n) = zget d ((a + i) mod n).
Proof.
  intros [_ ->]%zset_Some Hn Hi Hj Hne.
  pose proof (Z.mod_pos_bound (a + i) n Hn). pose proof (Z.mod_pos_bound (a + j) n Hn).
  unfold zget. bcase; [|done]. apply list_lookup_insert_ne.
  intros E'. apply Hne, (mod_inj a i j n); auto. lia.
Qed.

Lemma ring_set_same (d d' : bytes) a j n x : zset d ((a + j) mod n) x = Some d' -> 0 < n ->
  zget d' ((a + j) mod n) = Some x.
Proof.
  intros [Hr ->]%zset_Some Hn. unfold zget. bcase; [|lia].
  apply list_lookup_insert_eq. lia.
Qed.

Lemma push_byte_repr buf q c : repr buf q ->
  exists buf', push_byte buf c = Some buf' /\ totalsize buf' = totalsize buf /\
    repr buf' (bounded_app (Z.to_nat (totalsize buf)) q [c]).
Proof.
  intros H. pose proof (repr_end _ _ H) as He. destruct H as [Hp Hd Hs Hc Ht Htl Hg].
  pose proof (Z.mod_pos_bound (top buf + size buf) (totalsize buf) ltac:(lia)) as Hb.
  unfold push_byte. destruct (zset (data buf) (tail buf) c) as [d|] eqn:E.
  2: { rewrite zset_in in E by lia. done. }
  pose proof (zset_length _ _ _ _ E) as Hlen. rewrite Htl in E.
  rewrite advance_mod, He by (rewrite He; lia). simpl. bcase.
  - rewrite wrap_small by lia. eexists. split; [done|]. split; [done|].
    unfold bounded_app. rewrite length_app. simpl.
    replace (length q + 1 - Z.to_nat (totalsize buf))%nat with 0%nat by lia. rewrite drop_0.
    constructor; simpl; try lia; [len | rewrite Htl, mod_shift by lia; f_equal; lia |].
    intros i x [[Hi Hx] | [-> <-]]%lookup_snoc_Some.
    + rewrite (ring_set (data buf) d _ _ (size buf) _ c) by (done || lia). by apply Hg.
    + rewrite <- Hs. apply (ring_set_same (data buf) d _ _ _ _ E). lia.
  - eexists. split; [done|]. split; [done|].
    assert (size buf = totalsize buf) as Hfull by lia.
    unfold bounded_app. rewrite length_app. simpl.
    replace (length q + 1 - Z.to_nat (totalsize buf))%nat with 1%nat by lia.
    rewrite advance_mod, He by (rewrite He; lia).
    pose proof (Z.mod_pos_bound (top buf + 1) (totalsize buf) ltac:(lia)).
    destruct q as [|y q]; [simpl in *; lia|]. simpl in *. rewrite drop_0.
    constructor; simpl; try lia; [len | | ].
    + rewrite Htl, !mod_shift by lia. f_equal. lia.
    + intros i x Hi. rewrite mod_shift by lia. rewrite <- Z.add_assoc.
      apply lookup_snoc_Some in Hi as [[Hi Hx] | [-> <-]].
      * rewrite Hfull in E.
        assert ((top buf + totalsize buf) mod totalsize buf = (top buf + 0) mod totalsize buf) as Ew.
        { replace (top buf + totalsize buf) with (top buf + 0 + 1 * totalsize buf) by lia.
          apply Z.mod_add. lia. }
        rewrite Ew in E.
        rewrite (ring_set (data buf) d _ _ 0 _ c) by (done || lia).
        replace (1 + Z.of_nat i) with (Z.of_nat (S i)) by lia. by apply Hg.
      * replace (1 + Z.of_nat (length q)) with (size buf) by lia.
        apply (ring_set_same (data buf) d _ _ _ _ E). lia.
Qed.

Lemma bounded_app_app n q a b :
  bounded_app n (bounded_app n q a) b = bounded_app n q (a ++ b).
Proof.
  unfold bounded_app. rewrite app_assoc. set (l := q ++ a).
  rewrite !length_app, length_drop.
  destruct (decide (length l <= n)%nat).
  - replace (length l - n)%nat with 0%nat by lia. rewrite drop_0. f_equal. lia.
  - rewrite <- (drop_app_le l b (length l - n)) by lia. rewrite drop_drop. f_equal. lia.
Qed.

Lemma push_loop_repr src : forall buf q, repr buf q ->
  exists buf', push_loop src buf = Some buf' /\ totalsize buf' = totalsize buf /\
    repr buf' (bounded_app (Z.to_nat (totalsize buf)) q src).
Proof.
  induction src as [|c src IH]; intros buf q H.
  - exists buf. split; [done|]. split; [done|]. unfold bounded_app. rewrite app_nil_r.
    destruct H. replace (length q - _)%nat with 0%nat by lia. rewrite drop_0. by constructor.
  - destruct (push_byte_repr buf q c H) as (b1 & E1 & Ht1 & H1).
    destruct (IH b1 _ H1) as (b2 & E2 & Ht2 & H2).
    exists b2. simpl. rewrite E1. simpl. split; [done|]. split; [congruence|].
    rewrite Ht1, bounded_app_app in H2. done.
Qed.

Lemma pop_loop_repr n : forall buf q p k, repr buf q -> (n + k <= length q)%nat ->
  p = (top buf + Z.of_nat k) mod totalsize buf ->
  pop_loop n buf p = Some (take n (drop k q), (top buf + Z.of_nat (n + k)) mod totalsize buf).
Proof.
  induction n as [|n IH]; intros buf q p k H Hn Hp.
  - by subst p.
  - pose proof (repr_end _ _ H) as He. pose proof (repr_pos _ _ H).
    destruct (lookup_lt_is_Some_2 q k) as [x Hx]; [lia|].
    pose proof (Z.mod_pos_bound (top buf + Z.of_nat k) (totalsize buf) ltac:(lia)).
    cbn [pop_loop]. rewrite Hp at 1. rewrite (repr_get _ _ H k x Hx). simpl.
    rewrite advance_mod, He by (rewrite He; lia).
    rewrite (IH buf q _ (S k) H) by (lia || (rewrite Hp, mod_shift by lia; f_equal; lia)).
    simpl. rewrite (drop_S q x k Hx). simpl. do 3 f_equal. lia.
Qed.

(** ** Properties *)

(** [buf_push] appends the new bytes to the queue the buffer holds and
    keeps the newest [totalsize] of them; it never writes outside of the data
    area. *)
Theorem buf_push_fifo buf q src (H : repr buf q) :
  exists buf', buf_push buf src = Some (Z.of_nat (length src), buf') /\
    repr buf' (bounded_app (Z.to_nat (totalsize buf)) q src).
Proof.
  destruct (push_loop_repr src buf q H) as (buf' & E & _ & H').
  exists buf'. unfold buf_push. by rewrite E.
Qed.

(** [buf_pop] returns the oldest [min len size] bytes in order and leaves
    the rest. *)
Theorem buf_pop_fifo buf q len (H : repr buf q) (Hl : 0 <= len) :
  exists buf', buf_pop buf len =
      Some (Z.min len (size buf), take (Z.to_nat len) q, buf') /\
    repr buf' (drop (Z.to_nat len) q).
Proof.
  unfold buf_pop. pose proof H as [Hp Hd Hs Hc Ht Htl Hg].
  set (n := if size buf <? len then size buf else len).
  assert (n = Z.min len (size buf)) as Hn by (subst n; bcase; lia).
  assert (forall k : nat, k = Z.to_nat n -> take (Z.to_nat len) q = take k q /\
    drop (Z.to_nat len) q = drop k q) as Htd.
  { intros k ->. rewrite Hn. destruct (decide (len <= size buf)).
    - by replace (Z.min len (size buf)) with len by lia.
    - rewrite !take_ge, !drop_ge by lia. done. }
  destruct (Htd _ eq_refl) as [-> ->]. rewrite Hn in *.
  rewrite (pop_loop_repr _ buf q _ 0 H) by
    (lia || (rewrite Z.add_0_r; symmetry; apply Z.mod_small; lia)).
  simpl. rewrite drop_0. eexists. split; [done|].
  pose proof (Z.mod_pos_bound (top buf + Z.of_nat (Z.to_nat (Z.min len (size buf)) + 0))
    (totalsize buf) ltac:(lia)).
  constructor; simpl; try lia; rewrite ?wrap_small by lia; try lia; [rewrite length_drop; lia | |].
  - rewrite mod_shift, Htl by lia. f_equal. lia.
  - intros i x Hi. rewrite lookup_drop in Hi. rewrite mod_shift by lia.
    rewrite <- (Hg _ _ Hi). f_equal. f_equal. lia.
Qed.

(** A four-byte buffer that wrapped around: "cdef" with the oldest at offset 2. *)
Definition wrapped : circbuf_t := Circbuf_ 4 4 2 2 (str "efcd").

Lemma wrapped_repr : repr wrapped (str "cdef").
Proof.
  constructor; simpl; try lia; try done.
  intros i x Hi. do 4 (destruct i as [|i]; [by simplify_eq/=|]). done.
Qed.

Lemma buf_push_fifo_witness :
  buf_push wrapped (str "gh") = Some (2, Circbuf_ 4 4 0 0 (str "efgh")) /\
  exists buf', buf_push wrapped (str "gh") = Some (Z.of_nat (length (str "gh")), buf') /\
    repr buf' (bounded_app (Z.to_nat (totalsize wrapped)) (str "cdef") (str "gh")).
Proof. split; [reflexivity|]. apply (buf_push_fifo wrapped (str "cdef") (str "gh") wrapped_repr). Defined.

Lemma buf_pop_fifo_witness :
  buf_pop wrapped 3 = Some (3, str "cde", Circbuf_ 1 4 1 2 (str "efcd")) /\
  exists buf', buf_pop wrapped 3 = Some (Z.min 3 (size wrapped), take (Z.to_nat 3) (str "cdef"), buf') /\
    repr buf' (drop (Z.to_nat 3) (str "cdef")).
Proof. split; [reflexivity|]. apply (buf_pop_fifo wrapped (str "cdef") 3 wrapped_repr). lia. Defined.

End Circbuf.
