(* ===== verification/Ctype.v ===== *)
(** * Character classes (lib/ctype.c, include/linux/ctype.h) *)

From S2P Require Import Prelude.

Module Ctype.

Definition _U : Z := 0x01.
Definition _L : Z := 0x02.
Definition _D : Z := 0x04.
Definition _C : Z := 0x08.
Definition _P : Z := 0x10.
Definition _S : Z := 0x20.
Definition _X : Z := 0x40.
Definition _SP : Z := 0x80.

Definition _ctype : list Z :=
  [ _C; _C; _C; _C; _C; _C; _C; _C;
    _C; Z.lor _C _S; Z.lor _C _S; Z.lor _C _S; Z.lor _C _S; Z.lor _C _S; _C; _C;
    _C; _C; _C; _C; _C; _C; _C; _C;
    _C; _C; _C; _C; _C; _C; _C; _C;
    Z.lor _S _SP; _P; _P; _P; _P; _P; _P; _P;
    _P; _P; _P; _P; _P; _P; _P; _P;
    _D; _D; _D; _D; _D; _D; _D; _D;
    _D; _D; _P; _P; _P; _P; _P; _P;
    _P; Z.lor _U _X; Z.lor _U _X; Z.lor _U _X; Z.lor _U _X; Z.lor _U _X; Z.lor _U _X; _U;
    _U; _U; _U; _U; _U; _U; _U; _U;
    _U; _U; _U; _U; _U; _U; _U; _U;
    _U; _U; _U; _P; _P; _P; _P; _P;
    _P; Z.lor _L _X; Z.lor _L _X; Z.lor _L _X; Z.lor _L _X; Z.lor _L _X; Z.lor _L _X; _L;
    _L; _L; _L; _L; _L; _L; _L; _L;
    _L; _L; _L; _L; _L; _L; _L; _L;
    _L; _L; _L; _P; _P; _P; _P; _C;
    0; 0; 0; 0; 0; 0; 0; 0;
    0; 0; 0; 0; 0; 0; 0; 0;
    0; 0; 0; 0; 0; 0; 0; 0;
    0; 0; 0; 0; 0; 0; 0; 0;
    Z.lor _S _SP; _P; _P; _P; _P; _P; _P; _P;
    _P; _P; _P; _P; _P; _P; _P; _P;
    _P; _P; _P; _P; _P; _P; _P; _P;
    _P; _P; _P; _P; _P; _P; _P; _P;
    _U; _U; _U; _U; _U; _U; _U; _U;
    _U; _U; _U; _U; _U; _U; _U; _U;
    _U; _U; _U; _U; _U; _U; _U; _P;
    _U; _U; _U; _U; _U; _U; _U; _L;
    _L; _L; _L; _L; _L; _L; _L; _L;
    _L; _L; _L; _L; _L; _L; _L; _L;
    _L; _L; _L; _L; _L; _L; _L; _P;
    _L; _L; _L; _L; _L; _L; _L; _L ].

(** The index is converted to [unsigned char], so it is always in range. *)
Definition __ismask (x : Z) : Z := default 0 (zget _ctype (u8 x)).

Definition has (c mask : Z) : bool := negb (Z.land (__ismask c) mask =? 0).

Definition isalnum (c : Z) : bool := has c (Z.lor _U (Z.lor _L _D)).
Definition isalpha (c : Z) : bool := has c (Z.lor _U _L).
Definition iscntrl (c : Z) : bool := has c _C.
Definition isdigit (c : Z) : bool := has c _D.
Definition isgraph (c : Z) : bool := has c (Z.lor _P (Z.lor _U (Z.lor _L _D))).
Definition islower (c : Z) : bool := has c _L.
Definition isprint (c : Z) : bool := has c (Z.lor _P (Z.lor _U (Z.lor _L (Z.lor _D _SP)))).
Definition ispunct (c : Z) : bool := has c _P.
Definition isspace (c : Z) : bool := has c _S.
Definition isupper (c : Z) : bool := has c _U.
Definition isxdigit (c : Z) : bool := has c (Z.lor _D _X).

Definition isblank (c : Z) : bool := (c =? 32) || (c =? 9).

Definition tolower (c : Z) : Z := if isupper c then u8 (c - (65 - 97)) else c.
Definition toupper (c : Z) : Z := if islower c then u8 (c - (97 - 65)) else c.

(** ** Lemmas *)

(** A predicate on bytes that holds for all 256 of them. *)
Lemma all_bytes (P : Z -> bool) :
  forallb (fun n : nat => P (Z.of_nat n)) (seq 0 256) = true -> forall c, byte_ok c -> P c = true.
Proof.
  intros H c Hc. pose proof (proj1 (forallb_forall _ _) H (Z.to_nat c)) as Hn. cbv beta in Hn.
  unfold byte_ok in *. rewrite Z2Nat.id in Hn by lia. apply Hn, in_seq. lia.
Qed.

Lemma isdigit_spec c : byte_ok c -> isdigit c = ((48 <=? c) && (c <=? 57)).
Proof.
  intros Hc. apply Bool.eqb_prop.
  by apply (all_bytes (fun c => Bool.eqb (isdigit c) ((48 <=? c) && (c <=? 57)))).
Qed.

Lemma isxdigit_spec c : byte_ok c ->
  isxdigit c = ((48 <=? c) && (c <=? 57) || (65 <=? c) && (c <=? 70) || (97 <=? c) && (c <=? 102)).
Proof.
  intros Hc. apply Bool.eqb_prop.
  by apply (all_bytes (fun c => Bool.eqb (isxdigit c)
    ((48 <=? c) && (c <=? 57) || (65 <=? c) && (c <=? 70) || (97 <=? c) && (c <=? 102)))).
Qed.

Lemma tolower_idem c : byte_ok c -> tolower (tolower c) = tolower c /\ byte_ok (tolower c).
Proof.
  intros Hc. assert ((tolower (tolower c) =? tolower c) && (0 <=? tolower c) && (tolower c <? 256) = true)
    as H by (by apply (all_bytes (fun c => (tolower (tolower c) =? tolower c) && (0 <=? tolower c)
      && (tolower c <? 256)))).
  zbool. unfold byte_ok. lia.
Qed.

End Ctype.
