(* ===== verification/CString.v ===== *)
(** * String and memory functions (lib/string.c)

    Memory is a finite map from addresses to bytes; an access to an unmapped
    address is [None].  Pointers are addresses, NULL is 0.  A loop that walks
    upwards through memory makes at most [size m] successful accesses, so
    [S (size m)] is enough fuel for it: running out of fuel is not
    distinguishable from (and always preceded by) leaving the mapped memory.
    [size_t] and [unsigned long] are 64 bits wide, [char] is unsigned. *)

From S2P Require Import Prelude Ctype.

Module CString.
Import Ctype.

Abbreviation mem := (gmap Z Z).

Definition NULL : Z := 0.

Definition load (m : mem) (p : Z) : option Z := m !! p.

Definition store (m : mem) (p v : Z) : option mem :=
  _ ← m !! p; Some (<[p := u8 v]> m).

(** Little-endian accesses of [n] bytes. *)
Fixpoint load_le (n : nat) (m : mem) (p : Z) : option Z :=
  match n with
  | O => Some 0
  | S n' => b ← load m p; v ← load_le n' m (p + 1); Some (b + 256 * v)
  end.

Fixpoint store_le (n : nat) (m : mem) (p v : Z) : option mem :=
  match n with
  | O => Some m
  | S n' => m' ← store m p v; store_le n' m' (p + 1) (Z.shiftr v 8)
  end.

(** [n] bytes from [p]. *)
Fixpoint read_bytes (m : mem) (p : Z) (n : nat) : option bytes :=
  match n with O => Some [] | S n' => b ← load m p; l ← read_bytes m (p + 1) n'; Some (b :: l) end.

Definition fuel_of (m : mem) : nat := S (size m).

(** ** Comparison *)

(** The [do ... while (--len)] loop of [strncasecmp]. *)
Fixpoint ncase_loop (fuel : nat) (m : mem) (s1 s2 len : Z) : option Z :=
  match fuel with
  | O => None
  | S fuel' =>
      c1 ← load m s1;
      c2 ← load m s2;
      if c1 =? 0 then Some (c1 - c2)
      else if c2 =? 0 then Some (c1 - c2)
      else
        let next c1 c2 :=
          if u64 (len - 1) =? 0 then Some (c1 - c2)
          else ncase_loop fuel' m (s1 + 1) (s2 + 1) (u64 (len - 1)) in
        if c1 =? c2 then next c1 c2
        else
          let c1 := tolower c1 in
          let c2 := tolower c2 in
          if negb (c1 =? c2) then Some (c1 - c2) else next c1 c2
  end.

Definition strncasecmp (m : mem) (s1 s2 len : Z) : option Z :=
  if len =? 0 then Some 0 else ncase_loop (fuel_of m) m s1 s2 len.

(** The limit is [-1U], an [unsigned int]. *)
Definition strcasecmp (m : mem) (s1 s2 : Z) : option Z := strncasecmp m s1 s2 (2 ^ 32 - 1).

(** [__res] is a [signed char]. *)
Fixpoint strcmp_loop (fuel : nat) (m : mem) (cs ct : Z) : option Z :=
  match fuel with
  | O => None
  | S fuel' =>
      c1 ← load m cs;
      c2 ← load m ct;
      let __res := s8 (c1 - c2) in
      if negb (__res =? 0) || (c1 =? 0) then Some __res
      else strcmp_loop fuel' m (cs + 1) (ct + 1)
  end.

Definition strcmp (m : mem) (cs ct : Z) : option Z := strcmp_loop (fuel_of m) m cs ct.

Fixpoint strncmp_loop (fuel : nat) (m : mem) (cs ct count : Z) : option Z :=
  if count =? 0 then Some 0
  else
    match fuel with
    | O => None
    | S fuel' =>
        c1 ← load m cs;
        c2 ← load m ct;
        let __res := s8 (c1 - c2) in
        if negb (__res =? 0) || (c1 =? 0) then Some __res
        else strncmp_loop fuel' m (cs + 1) (ct + 1) (count - 1)
    end.

Definition strncmp (m : mem) (cs ct count : Z) : option Z :=
  strncmp_loop (fuel_of m) m cs ct count.

Fixpoint memcmp_loop (count : nat) (m : mem) (su1 su2 : Z) : option Z :=
  match count with
  | O => Some 0
  | S count' =>
      c1 ← load m su1;
      c2 ← load m su2;
      if negb (c1 - c2 =? 0) then Some (c1 - c2)
      else memcmp_loop count' m (su1 + 1) (su2 + 1)
  end.

Definition memcmp (m : mem) (cs ct count : Z) : option Z :=
  memcmp_loop (Z.to_nat count) m cs ct.

(** ** Length and search *)

Fixpoint strlen_loop (fuel : nat) (m : mem) (sc : Z) : option Z :=
  match fuel with
  | O => None
  | S fuel' => c ← load m sc; if c =? 0 then Some sc else strlen_loop fuel' m (sc + 1)
  end.

Definition strlen (m : mem) (s : Z) : option Z :=
  sc ← strlen_loop (fuel_of m) m s; Some (sc - s).

Fixpoint strnlen_loop (fuel : nat) (m : mem) (sc count : Z) : option Z :=
  if count =? 0 then Some sc
  else
    match fuel with
    | O => None
    | S fuel' =>
        c ← load m sc;
        if c =? 0 then Some sc else strnlen_loop fuel' m (sc + 1) (count - 1)
    end.

Definition strnlen (m : mem) (s count : Z) : option Z :=
  sc ← strnlen_loop (fuel_of m) m s count; Some (sc - s).

Fixpoint strchr_loop (fuel : nat) (m : mem) (s c : Z) : option Z :=
  match fuel with
  | O => None
  | S fuel' =>
      x ← load m s;
      if x =? u8 c then Some s
      else if x =? 0 then Some NULL
      else strchr_loop fuel' m (s + 1) c
  end.

Definition strchr (m : mem) (s c : Z) : option Z := strchr_loop (fuel_of m) m s c.

(** [do { if ( *p == c) return p; } while (--p >= s);] with [n] = [p - s + 1]. *)
Fixpoint strrchr_loop (n : nat) (m : mem) (s c : Z) : option Z :=
  match n with
  | O => Some NULL
  | S n' =>
      x ← load m (s + Z.of_nat n');
      if x =? u8 c then Some (s + Z.of_nat n') else strrchr_loop n' m s c
  end.

Definition strrchr (m : mem) (s c : Z) : option Z :=
  l ← strlen m s; strrchr_loop (S (Z.to_nat l)) m s c.

(** Does the character [x] occur in the string at [a]?  The inner loop of
    [strspn] and [strpbrk]. *)
Fixpoint in_set (fuel : nat) (m : mem) (x a : Z) : option bool :=
  match fuel with
  | O => None
  | S fuel' =>
      c ← load m a;
      if c =? 0 then Some false else if x =? c then Some true else in_set fuel' m x (a + 1)
  end.

Fixpoint strspn_loop (fuel : nat) (m : mem) (p accept count : Z) : option Z :=
  match fuel with
  | O => None
  | S fuel' =>
      x ← load m p;
      if x =? 0 then Some count
      else
        hit ← in_set (fuel_of m) m x accept;
        if hit : bool then strspn_loop fuel' m (p + 1) accept (count + 1) else Some count
  end.

Definition strspn (m : mem) (s accept : Z) : option Z := strspn_loop (fuel_of m) m s accept 0.

Fixpoint strpbrk_loop (fuel : nat) (m : mem) (sc1 ct : Z) : option Z :=
  match fuel with
  | O => None
  | S fuel' =>
      x ← load m sc1;
      if x =? 0 then Some NULL
      else
        hit ← in_set (fuel_of m) m x ct;
        if hit : bool then Some sc1 else strpbrk_loop fuel' m (sc1 + 1) ct
  end.

Definition strpbrk (m : mem) (cs ct : Z) : option Z := strpbrk_loop (fuel_of m) m cs ct.

(** [l1] and [l2] are [int]; [n] is [l1 - l2 + 1], the number of positions left. *)
Fixpoint strstr_loop (n : nat) (m : mem) (s1 s2 l2 : Z) : option Z :=
  match n with
  | O => Some NULL
  | S n' =>
      r ← memcmp m s1 s2 l2;
      if r =? 0 then Some s1 else strstr_loop n' m (s1 + 1) s2 l2
  end.

Definition strstr (m : mem) (s1 s2 : Z) : option Z :=
  l2 ← strlen m s2;
  if l2 =? 0 then Some s1
  else
    l1 ← strlen m s1;
    strstr_loop (Z.to_nat (l1 - l2 + 1)) m s1 s2 l2.

Fixpoint memscan_loop (size : nat) (m : mem) (p c : Z) : option Z :=
  match size with
  | O => Some p
  | S size' => x ← load m p; if x =? c then Some p else memscan_loop size' m (p + 1) c
  end.

Definition memscan (m : mem) (addr c size : Z) : option Z :=
  memscan_loop (Z.to_nat size) m addr c.

Fixpoint memchr_loop (n : nat) (m : mem) (p c : Z) : option Z :=
  match n with
  | O => Some NULL
  | S n' => x ← load m p; if u8 c =? x then Some p else memchr_loop n' m (p + 1) c
  end.

Definition memchr (m : mem) (s c n : Z) : option Z := memchr_loop (Z.to_nat n) m s c.

Fixpoint check_bytes8 (bytes_ : nat) (m : mem) (start value : Z) : option Z :=
  match bytes_ with
  | O => Some NULL
  | S n =>
      x ← load m start;
      if negb (x =? value) then Some start else check_bytes8 n m (start + 1) value
  end.

(** The word loop and the tail of [memchr_inv]. *)
Fixpoint inv_words (words : nat) (m : mem) (start value value64 rest : Z) : option Z :=
  match words with
  | O => check_bytes8 (Z.to_nat rest) m start value
  | S words' =>
      w ← load_le 8 m start;
      if negb (w =? value64) then check_bytes8 8 m start value
      else inv_words words' m (start + 8) value value64 rest
  end.

Definition memchr_inv (m : mem) (start c bytes_ : Z) : option Z :=
  let value := u8 c in
  if bytes_ <=? 16 then check_bytes8 (Z.to_nat bytes_) m start value
  else
    let value64 := value in
    let value64 := Z.lor value64 (u64 (Z.shiftl value64 8)) in
    let value64 := Z.lor value64 (u64 (Z.shiftl value64 16)) in
    let value64 := Z.lor value64 (u64 (Z.shiftl value64 32)) in
    let prefix := start mod 8 in
    let words start bytes_ :=
      inv_words (Z.to_nat (bytes_ / 8)) m start value value64 (bytes_ mod 8) in
    if negb (prefix =? 0) then
      let prefix := 8 - prefix in
      r ← check_bytes8 (Z.to_nat prefix) m start value;
      if negb (r =? NULL) then Some r else words (start + prefix) (bytes_ - prefix)
    else words start bytes_.

(** ** Copying *)

Fixpoint strcpy_loop (fuel : nat) (m : mem) (dest src : Z) : option mem :=
  match fuel with
  | O => None
  | S fuel' =>
      c ← load m src;
      m' ← store m dest c;
      if c =? 0 then Some m' else strcpy_loop fuel' m' (dest + 1) (src + 1)
  end.

Definition strcpy (m : mem) (dest src : Z) : option (Z * mem) :=
  m' ← strcpy_loop (fuel_of m) m dest src; Some (dest, m').

Fixpoint strncpy_loop (fuel : nat) (m : mem) (dest src count : Z) : option mem :=
  if count =? 0 then Some m
  else
    match fuel with
    | O => None
    | S fuel' =>
        c ← load m src;
        m' ← store m dest c;
        if c =? 0 then Some m' else strncpy_loop fuel' m' (dest + 1) (src + 1) (count - 1)
    end.

Definition strncpy (m : mem) (dest src count : Z) : option (Z * mem) :=
  m' ← strncpy_loop (fuel_of m) m dest src count; Some (dest, m').

Definition strcat (m : mem) (dest src : Z) : option (Z * mem) :=
  e ← strlen_loop (fuel_of m) m dest;
  m' ← strcpy_loop (fuel_of m) m e src;
  Some (dest, m').

Fixpoint strncat_loop (fuel : nat) (m : mem) (dest src count : Z) : option mem :=
  match fuel with
  | O => None
  | S fuel' =>
      c ← load m src;
      m' ← store m dest c;
      if c =? 0 then Some m'
      else if count - 1 =? 0 then store m' (dest + 1) 0
      else strncat_loop fuel' m' (dest + 1) (src + 1) (count - 1)
  end.

Definition strncat (m : mem) (dest src count : Z) : option (Z * mem) :=
  if count =? 0 then Some (dest, m)
  else
    e ← strlen_loop (fuel_of m) m dest;
    m' ← strncat_loop (fuel_of m) m e src count;
    Some (dest, m').

Fixpoint copy_up (count : nat) (m : mem) (tmp s : Z) : option mem :=
  match count with
  | O => Some m
  | S count' => c ← load m s; m' ← store m tmp c; copy_up count' m' (tmp + 1) (s + 1)
  end.

(** [tmp = dest + count; s = src + count; while (count--) *--tmp = *--s;] *)
Fixpoint copy_down (count : nat) (m : mem) (dest src : Z) : option mem :=
  match count with
  | O => Some m
  | S count' =>
      c ← load m (src + Z.of_nat count');
      m' ← store m (dest + Z.of_nat count') c;
      copy_down count' m' dest src
  end.

Definition bcopy (m : mem) (src dest count : Z) : option (Z * mem) :=
  m' ← copy_up (Z.to_nat count) m dest src; Some (dest, m').

Fixpoint copy_words (n : nat) (m : mem) (dl sl : Z) : option mem :=
  match n with
  | O => Some m
  | S n' => w ← load_le 8 m sl; m' ← store_le 8 m dl w; copy_words n' m' (dl + 8) (sl + 8)
  end.

Definition memcpy (m : mem) (dest src count : Z) : option (Z * mem) :=
  if src =? dest then Some (dest, m)
  else if Z.land (Z.lor dest src) 7 =? 0 then
    let w := count / 8 in
    m' ← copy_words (Z.to_nat w) m dest src;
    m' ← copy_up (Z.to_nat (count - 8 * w)) m' (dest + 8 * w) (src + 8 * w);
    Some (dest, m')
  else m' ← copy_up (Z.to_nat count) m dest src; Some (dest, m').

Definition memmove (m : mem) (dest src count : Z) : option (Z * mem) :=
  if src =? dest then Some (dest, m)
  else if dest <=? src then m' ← copy_up (Z.to_nat count) m dest src; Some (dest, m')
  else m' ← copy_down (Z.to_nat count) m dest src; Some (dest, m').

Fixpoint fill (count : nat) (m : mem) (s8 c : Z) : option mem :=
  match count with
  | O => Some m
  | S count' => m' ← store m s8 c; fill count' m' (s8 + 1) c
  end.

Fixpoint fill_words (n : nat) (m : mem) (sl cl : Z) : option mem :=
  match n with
  | O => Some m
  | S n' => m' ← store_le 8 m sl cl; fill_words n' m' (sl + 8) cl
  end.

Definition memset (m : mem) (s c count : Z) : option (Z * mem) :=
  if Z.land s 7 =? 0 then
    let cl := Nat.iter 8 (fun cl => Z.lor (u64 (Z.shiftl cl 8)) (Z.land c 0xff)) 0 in
    let w := count / 8 in
    m' ← fill_words (Z.to_nat w) m s cl;
    m' ← fill (Z.to_nat (count - 8 * w)) m' (s + 8 * w) c;
    Some (s, m')
  else m' ← fill (Z.to_nat count) m s c; Some (s, m').

Definition strlcpy (m : mem) (dest src size : Z) : option (Z * mem) :=
  ret ← strlen m src;
  if size =? 0 then Some (ret, m)
  else
    let len := if size <=? ret then size - 1 else ret in
    '(_, m1) ← memcpy m dest src len;
    m2 ← store m1 (dest + len) 0;
    Some (ret, m2).

(** [malloc] is a parameter: the address of a block of the given size and the
    memory that has it mapped, or [None] for NULL. *)
Definition strdup (malloc : mem -> Z -> option (Z * mem)) (m : mem) (s : Z) : option (Z * mem) :=
  if s =? NULL then Some (NULL, m)
  else
    l ← strlen m s;
    match malloc m (l + 1) with
    | None => Some (NULL, m)
    | Some (new, m1) => '(_, m2) ← strcpy m1 new s; Some (new, m2)
    end.

(** ** Tokenizing *)

(** [___strtok] is the static state: the rest of the string, or NULL. *)
Definition strtok (m : mem) (___strtok s ct : Z) : option (Z * Z * mem) :=
  let sbegin := if negb (s =? NULL) then s else ___strtok in
  if sbegin =? NULL then Some (NULL, ___strtok, m)
  else
    n ← strspn m sbegin ct;
    let sbegin := sbegin + n in
    c ← load m sbegin;
    if c =? 0 then Some (NULL, NULL, m)
    else
      send ← strpbrk m sbegin ct;
      if send =? NULL then Some (sbegin, send, m)
      else
        e ← load m send;
        if e =? 0 then Some (sbegin, send, m)
        else m' ← store m send 0; Some (sbegin, send + 1, m').

(** Returns the token, the new value of [*s] and the memory. *)
Definition strsep (m : mem) (s ct : Z) : option (Z * Z * mem) :=
  if s =? NULL then Some (NULL, s, m)
  else
    end_ ← strpbrk m s ct;
    if end_ =? NULL then Some (s, end_, m)
    else m' ← store m end_ 0; Some (s, end_ + 1, m').

Fixpoint strswab_loop (fuel : nat) (m : mem) (p : Z) : option mem :=
  match fuel with
  | O => None
  | S fuel' =>
      x ← load m p;
      if x =? 0 then Some m
      else
        y ← load m (p + 1);
        if y =? 0 then Some m
        else
          m1 ← store m p y;
          m2 ← store m1 (p + 1) x;
          strswab_loop fuel' m2 (p + 2)
  end.

Definition strswab (m : mem) (s : Z) : option (Z * mem) :=
  if s =? NULL then Some (NULL, m)
  else
    x ← load m s;
    if x =? 0 then Some (NULL, m)
    else m' ← strswab_loop (fuel_of m) m s; Some (s, m').

(** ** Strings in memory *)

(** The bytes [l] lie at address [p]. *)
Definition bytes_at (m : mem) (p : Z) (l : bytes) : Prop :=
  forall i x, l !! i = Some x -> m !! (p + Z.of_nat i) = Some x.

(** The NUL-terminated string [s] lies at address [p]. *)
Definition cstr_at (m : mem) (p : Z) (s : bytes) : Prop :=
  bytes_at m p (s ++ [0]) /\ cstr_ok s.

(** The [n] bytes at [p] are mapped. *)
Definition mapped (m : mem) (p : Z) (n : nat) : Prop :=
  forall i, (i < n)%nat -> is_Some (m !! (p + Z.of_nat i)).

Fixpoint write_bytes (m : mem) (p : Z) (l : bytes) : mem :=
  match l with
  | [] => m
  | x :: l' => write_bytes (<[p := x]> m) (p + 1) l'
  end.

(** Little-endian value of a byte list. *)
Fixpoint le_Z (l : bytes) : Z :=
  match l with [] => 0 | x :: l' => x + 256 * le_Z l' end.

(** What [strcmp] computes on the string values. *)
Fixpoint strcmp_str (s t : bytes) : Z :=
  match s, t with
  | [], [] => 0
  | [], d :: _ => s8 (0 - d)
  | c :: _, [] => s8 (c - 0)
  | c :: s', d :: t' => if s8 (c - d) =? 0 then strcmp_str s' t' else s8 (c - d)
  end.

(** What [strncmp] computes on the string values. *)
Fixpoint strncmp_str (n : nat) (s t : bytes) : Z :=
  match n, s, t with
  | O, _, _ => 0
  | _, [], [] => 0
  | _, [], d :: _ => s8 (0 - d)
  | _, c :: _, [] => s8 (c - 0)
  | S n', c :: s', d :: t' => if s8 (c - d) =? 0 then strncmp_str n' s' t' else s8 (c - d)
  end.

(** [t] occurs in [s] at position [i]. *)
Definition occurs_at (s t : bytes) (i : nat) : Prop := t `prefix_of` drop i s.

(** ** Lemmas on memory *)

Lemma bytes_at_nil m p : bytes_at m p [].
Proof. intros i x Hi. by rewrite lookup_nil in Hi. Qed.

Lemma bytes_at_cons m p x l : bytes_at m p (x :: l) <-> m !! p = Some x /\ bytes_at m (p + 1) l.
Proof.
  split.
  - intros H. split; [rewrite <- (H 0%nat x eq_refl); f_equal; lia|].
    intros i y Hi. rewrite <- (H (S i) y Hi). f_equal. lia.
  - intros [Hx Hl] [|i] y Hi; simplify_eq/=; [by rewrite Z.add_0_r|].
    rewrite <- (Hl i y Hi). f_equal. lia.
Qed.

Lemma bytes_at_app m p l1 l2 :
  bytes_at m p (l1 ++ l2) <-> bytes_at m p l1 /\ bytes_at m (p + Z.of_nat (length l1)) l2.
Proof.
  revert p. induction l1 as [|x l1 IH]; intros p; simpl.
  - rewrite Z.add_0_r. split; [intros H; split; [apply bytes_at_nil | done] | by intros [_ H]].
  - rewrite !bytes_at_cons, IH.
    replace (p + 1 + Z.of_nat (length l1)) with (p + Z.of_nat (S (length l1))) by lia. tauto.
Qed.

Lemma bytes_at_mapped m p l : bytes_at m p l -> mapped m p (length l).
Proof. intros H i [x Hx]%lookup_lt_is_Some_2. exists x. by apply H. Qed.

(** A mapped range is no longer than the memory. *)
Lemma mapped_size m p n : mapped m p n -> (n <= size m)%nat.
Proof.
  intros H.
  assert (exists l : list Z, length l = n /\ NoDup l /\ forall a, a ∈ l -> a ∈ dom m)
    as (l & <- & Hnd & Hl).
  { exists ((fun i : nat => p + Z.of_nat i) <$> seq 0 n).
    rewrite length_fmap, length_seq. split; [done|]. split.
    - apply NoDup_fmap_2; [intros a b ?; lia | apply NoDup_seq].
    - intros a (i & -> & Hi)%list_elem_of_fmap. apply elem_of_seq in Hi.
      apply elem_of_dom, H. lia. }
  rewrite <- size_dom, <- (size_list_to_set (C := gset Z) l Hnd).
  apply subseteq_size. intros a. rewrite elem_of_list_to_set. apply Hl.
Qed.

Lemma store_ok m p v : is_Some (m !! p) -> store m p v = Some (<[p := u8 v]> m).
Proof. intros [x Hx]. unfold store. by rewrite Hx. Qed.

Lemma bytes_at_insert m p l a v : bytes_at m p l -> (a < p \/ p + Z.of_nat (length l) <= a) ->
  bytes_at (<[a := v]> m) p l.
Proof.
  intros H Ha i x Hi. pose proof (lookup_lt_Some _ _ _ Hi).
  rewrite lookup_insert_ne by lia. by apply H.
Qed.

Lemma mapped_insert m p n a v : mapped m p n -> mapped (<[a := v]> m) p n.
Proof.
  intros H i Hi. destruct (decide (a = p + Z.of_nat i)) as [->|].
  - rewrite lookup_insert_eq. eauto.
  - rewrite lookup_insert_ne by done. by apply H.
Qed.

Lemma mapped_tail m p n : mapped m p (S n) -> is_Some (m !! p) /\ mapped m (p + 1) n.
Proof.
  intros H. split; [rewrite <- (Z.add_0_r p); apply (H 0%nat); lia|].
  intros i Hi. replace (p + 1 + Z.of_nat i) with (p + Z.of_nat (S i)) by lia. apply H. lia.
Qed.

Lemma mapped_app m p n k :
  mapped m p (n + k) -> mapped m p n /\ mapped m (p + Z.of_nat n) k.
Proof.
  intros H. split; intros i Hi; [apply H; lia|].
  replace (p + Z.of_nat n + Z.of_nat i) with (p + Z.of_nat (n + i)) by lia. apply H. lia.
Qed.

Lemma lookup_write_bytes m p l a :
  write_bytes m p l !! a =
  if decide (p <= a < p + Z.of_nat (length l)) then l !! Z.to_nat (a - p) else m !! a.
Proof.
  revert m p. induction l as [|x l IH]; intros m p; simpl.
  - case_decide; [lia | done].
  - rewrite IH. destruct (decide (a = p)) as [->|Hne].
    + rewrite decide_False by lia. rewrite decide_True by lia.
      rewrite lookup_insert_eq. by rewrite Z.sub_diag.
    + repeat case_decide; try lia.
      * by replace (Z.to_nat (a - p)) with (S (Z.to_nat (a - (p + 1)))) by lia.
      * by rewrite lookup_insert_ne.
Qed.

Lemma bytes_at_write m p l : bytes_at (write_bytes m p l) p l.
Proof.
  intros i x Hi. pose proof (lookup_lt_Some _ _ _ Hi). rewrite lookup_write_bytes.
  rewrite decide_True by lia. by replace (Z.to_nat (p + Z.of_nat i - p)) with i by lia.
Qed.

Lemma bytes_at_write_other m p l q t : bytes_at m q t ->
  p + Z.of_nat (length l) <= q \/ q + Z.of_nat (length t) <= p ->
  bytes_at (write_bytes m p l) q t.
Proof.
  intros H Hd i x Hi. pose proof (lookup_lt_Some _ _ _ Hi). rewrite lookup_write_bytes.
  rewrite decide_False by lia. by apply H.
Qed.

Lemma mapped_write m p l q n : mapped m q n -> mapped (write_bytes m p l) q n.
Proof.
  revert m p. induction l as [|x l IH]; intros m p H; simpl; [done|].
  by apply IH, mapped_insert.
Qed.

Lemma write_bytes_app m p l1 l2 :
  write_bytes m p (l1 ++ l2) = write_bytes (write_bytes m p l1) (p + Z.of_nat (length l1)) l2.
Proof.
  revert m p. induction l1 as [|x l1 IH]; intros m p; simpl; [by rewrite Z.add_0_r|].
  rewrite IH. f_equal. lia.
Qed.

Lemma write_bytes_snoc m p l x :
  write_bytes m p (l ++ [x]) = write_bytes (<[p + Z.of_nat (length l) := x]> m) p l.
Proof.
  apply map_eq. intros a. rewrite !lookup_write_bytes, length_app. simpl.
  destruct (decide (a = p + Z.of_nat (length l))) as [->|Hne].
  - rewrite decide_True, decide_False by lia. rewrite lookup_insert_eq.
    replace (Z.to_nat (p + Z.of_nat (length l) - p)) with (length l) by lia.
    by apply list_lookup_middle.
  - repeat case_decide; try lia.
    + apply lookup_app_l. lia.
    + by rewrite lookup_insert_ne.
Qed.

(** Writing what is already there changes nothing. *)
Lemma write_bytes_same m p l : bytes_at m p l -> write_bytes m p l = m.
Proof.
  intros H. apply map_eq. intros a. rewrite lookup_write_bytes. case_decide; [|done].
  destruct (lookup_lt_is_Some_2 l (Z.to_nat (a - p)) ltac:(lia)) as [x Hx].
  rewrite Hx. symmetry. replace a with (p + Z.of_nat (Z.to_nat (a - p))) by lia. by apply H.
Qed.

Lemma read_bytes_at l : forall m p, bytes_at m p l -> read_bytes m p (length l) = Some l.
Proof.
  induction l as [|x l IH]; intros m p H; [done|]; apply bytes_at_cons in H as [Hx Hl]; cbn [read_bytes length].
  unfold load; rewrite Hx; cbn [mbind option_bind]; by rewrite IH.
Qed.

Lemma write_disjoint m p l q t : q + Z.of_nat (length t) <= p \/ p + Z.of_nat (length l) <= q ->
  write_bytes (write_bytes m p l) q t = write_bytes (write_bytes m q t) p l.
Proof. intros Hd; apply map_eq; intros a; rewrite !lookup_write_bytes; repeat case_decide; done || lia. Qed.

Lemma split_at (l : bytes) n : (n <= length l)%nat -> exists l1 l2, l = l1 ++ l2 /\ length l1 = n /\ length l2 = (length l - n)%nat.
Proof. intros H; exists (take n l), (drop n l); rewrite take_drop, length_take, length_drop; lia || (split; [done|lia]). Qed.

(** The part at offset [o]. *)
Lemma bytes_at_sub m p l o n : bytes_at m p l -> bytes_at m (p + Z.of_nat o) (take n (drop o l)).
Proof.
  intros Hb i x Hi; assert (i < n)%nat as Hn.
  { apply lookup_lt_Some in Hi; rewrite length_take in Hi; lia. }
  rewrite lookup_take_lt, lookup_drop in Hi by done.
  rewrite <- (Hb _ _ Hi); f_equal; lia.
Qed.

Lemma cstr_at_inv m p c s :
  cstr_at m p (c :: s) -> load m p = Some c /\ char_ok c /\ cstr_at m (p + 1) s.
Proof.
  intros [[Hx Hl]%bytes_at_cons Hok]. apply Forall_cons in Hok as [? ?].
  split; [done|]. split; [done|]. by split.
Qed.

Lemma cstr_at_nil m p : cstr_at m p [] -> load m p = Some 0.
Proof. by intros [[Hx _]%bytes_at_cons _]. Qed.

Lemma cstr_at_fuel m p s : cstr_at m p s -> (length s < fuel_of m)%nat.
Proof.
  intros [H _]. apply bytes_at_mapped, mapped_size in H. rewrite length_app in H.
  unfold fuel_of. simpl in H. lia.
Qed.

(** ** Lemmas on the loops *)

Lemma strlen_loop_spec s : forall fuel m p, cstr_at m p s -> (length s < fuel)%nat ->
  strlen_loop fuel m p = Some (p + Z.of_nat (length s)).
Proof.
  induction s as [|c s IH]; intros [|fuel] m p H Hf; simpl in *; try lia.
  - rewrite (cstr_at_nil _ _ H). simpl. f_equal. lia.
  - apply cstr_at_inv in H as (-> & Hc & H). simpl. unfold char_ok in Hc.
    assert ((c =? 0) = false) as -> by lia. rewrite IH by (done || lia). f_equal. lia.
Qed.

Lemma strlen_spec m p s : cstr_at m p s -> strlen m p = Some (Z.of_nat (length s)).
Proof.
  intros H. unfold strlen. rewrite (strlen_loop_spec s) by (done || by eapply cstr_at_fuel).
  simpl. f_equal. lia.
Qed.

Lemma s8_zero a b : byte_ok a -> byte_ok b -> s8 (a - b) = 0 <-> a = b.
Proof.
  unfold byte_ok, to_signed, wrap. intros Ha Hb. simpl.
  pose proof (Z.mod_pos_bound (a - b) 256 ltac:(lia)).
  split; [|intros ->; by rewrite Z.sub_diag].
  change (2 ^ 8) with 256. change (2 ^ 7) with 128. bcase; intros; [|lia].
  assert ((a - b) mod 256 = 0) as Hm by lia. apply Z.mod_divide in Hm as [k Hk]; lia.
Qed.

Lemma char_byte c : char_ok c -> byte_ok c.
Proof. unfold char_ok, byte_ok. lia. Qed.

Lemma byte0 : byte_ok 0.
Proof. unfold byte_ok. lia. Qed.

#[local] Hint Resolve char_byte byte0 : uboot.

Lemma s8_nonzero c : char_ok c -> s8 (c - 0) <> 0 /\ s8 (0 - c) <> 0.
Proof.
  intros Hc. rewrite !s8_zero by auto with uboot. unfold char_ok in Hc. lia.
Qed.

Lemma strcmp_loop_spec s : forall t fuel m p q, cstr_at m p s -> cstr_at m q t ->
  (length s < fuel)%nat -> strcmp_loop fuel m p q = Some (strcmp_str s t).
Proof.
  induction s as [|c s IH]; intros t [|fuel] m p q Hs Ht Hf; simpl in *; try lia.
  - rewrite (cstr_at_nil _ _ Hs). simpl. destruct t as [|d t].
    + by rewrite (cstr_at_nil _ _ Ht).
    + apply cstr_at_inv in Ht as (-> & Hd & _). simpl. by rewrite orb_true_r.
  - apply cstr_at_inv in Hs as (-> & Hc & Hs). simpl. destruct t as [|d t].
    + rewrite (cstr_at_nil _ _ Ht). simpl.
      by rewrite (proj2 (Z.eqb_neq _ _) (proj1 (s8_nonzero c Hc))).
    + apply cstr_at_inv in Ht as (-> & Hd & Ht). simpl.
      destruct (s8 (c - d) =? 0); simpl; [|done].
      unfold char_ok in Hc. assert ((c =? 0) = false) as -> by lia. apply IH; (done || lia).
Qed.

Lemma strcmp_str_zero s : forall t, cstr_ok s -> cstr_ok t -> strcmp_str s t = 0 <-> s = t.
Proof.
  induction s as [|c s IH]; intros [|d t] Hs Ht; simpl; try done.
  - apply Forall_cons in Ht as [Hd _]. pose proof (s8_nonzero d Hd). naive_solver.
  - apply Forall_cons in Hs as [Hc _]. pose proof (s8_nonzero c Hc). naive_solver.
  - apply Forall_cons in Hs as [Hc Hs]. apply Forall_cons in Ht as [Hd Ht].
    pose proof (s8_zero c d ltac:(auto with uboot) ltac:(auto with uboot)) as Hz.
    destruct (Z.eqb_spec (s8 (c - d)) 0) as [E|E]; [rewrite IH by done|]; naive_solver.
Qed.

Lemma strncmp_loop_spec s : forall t n fuel m p q, cstr_at m p s -> cstr_at m q t ->
  (length s < fuel)%nat -> strncmp_loop fuel m p q (Z.of_nat n) = Some (strncmp_str n s t).
Proof.
  induction s as [|c s IH]; intros t [|n] [|fuel] m p q Hs Ht Hf;
    cbn [strncmp_loop strncmp_str]; try (simpl in *; lia); try done;
    rewrite (proj2 (Z.eqb_neq (Z.of_nat (S n)) 0)) by lia.
  - rewrite (cstr_at_nil _ _ Hs). cbn [mbind option_bind]. destruct t as [|d t].
    + by rewrite (cstr_at_nil _ _ Ht).
    + apply cstr_at_inv in Ht as (-> & Hd & _). cbn [mbind option_bind]. by rewrite orb_true_r.
  - apply cstr_at_inv in Hs as (-> & Hc & Hs). cbn [mbind option_bind]. destruct t as [|d t].
    + rewrite (cstr_at_nil _ _ Ht). cbn [mbind option_bind].
      by rewrite (proj2 (Z.eqb_neq _ _) (proj1 (s8_nonzero c Hc))).
    + apply cstr_at_inv in Ht as (-> & Hd & Ht). cbn [mbind option_bind].
      destruct (s8 (c - d) =? 0); simpl negb; [|done].
      unfold char_ok in Hc. assert ((c =? 0) = false) as -> by lia. simpl orb.
      replace (Z.of_nat (S n) - 1) with (Z.of_nat n) by lia. apply IH; (done || simpl in *; lia).
Qed.

Lemma strncmp_str_zero s : forall t n, cstr_ok s -> cstr_ok t ->
  strncmp_str n s t = 0 <-> take n s = take n t.
Proof.
  induction s as [|c s IH]; intros [|d t] [|n] Hs Ht; simpl; try done.
  - apply Forall_cons in Ht as [Hd _]. pose proof (s8_nonzero d Hd) as Hnz. naive_solver.
  - apply Forall_cons in Hs as [Hc _]. pose proof (s8_nonzero c Hc) as Hnz. naive_solver.
  - apply Forall_cons in Hs as [Hc Hs]. apply Forall_cons in Ht as [Hd Ht].
    pose proof (s8_zero c d ltac:(auto with uboot) ltac:(auto with uboot)) as Hz.
    destruct (Z.eqb_spec (s8 (c - d)) 0) as [E|E].
    + rewrite IH by done. rewrite (proj1 Hz E). split; [by intros -> | by intros [= ->]].
    + split; [done|]. intros [= He _]. tauto.
Qed.

(** *** Copy loops *)

Lemma copy_up_spec l : forall m dest src, bytes_at m src l -> Forall byte_ok l ->
  mapped m dest (length l) -> dest <= src \/ src + Z.of_nat (length l) <= dest ->
  copy_up (length l) m dest src = Some (write_bytes m dest l).
Proof.
  induction l as [|x l IH]; intros m dest src Hb Hok Hm Hd; simpl in *; [done|].
  apply bytes_at_cons in Hb as [Hx Hb]. apply Forall_cons in Hok as [Hx8 Hok].
  apply mapped_tail in Hm as [Hd0 Hm]. unfold load. rewrite Hx. simpl.
  rewrite store_ok by done. simpl. rewrite (wrap_small 8) by done.
  apply IH; [|done|by apply mapped_insert|lia].
  apply bytes_at_insert; [done|lia].
Qed.

Lemma copy_down_spec l : forall m dest src, bytes_at m src l -> Forall byte_ok l ->
  mapped m dest (length l) -> src <= dest ->
  copy_down (length l) m dest src = Some (write_bytes m dest l).
Proof.
  induction l as [|x l IH] using rev_ind; intros m dest src Hb Hok Hm Hd; [done|].
  rewrite length_app in *. rewrite Nat.add_comm. simpl.
  apply bytes_at_app in Hb as [Hb [Hx _]%bytes_at_cons].
  apply Forall_app in Hok as [Hok [Hx8 _]%Forall_cons].
  apply mapped_app in Hm as [Hm Hm1]. apply mapped_tail in Hm1 as [Hd0 _].
  unfold load. rewrite Hx. simpl. rewrite store_ok by done. simpl.
  rewrite (wrap_small 8) by done. rewrite write_bytes_snoc.
  apply IH; [|done|by apply mapped_insert|done].
  apply bytes_at_insert; [done|lia].
Qed.

Lemma load_le_spec l : forall m p, bytes_at m p l -> load_le (length l) m p = Some (le_Z l).
Proof.
  induction l as [|x l IH]; intros m p Hb; simpl; [done|].
  apply bytes_at_cons in Hb as [Hx Hb]. unfold load. rewrite Hx. simpl. by rewrite IH.
Qed.

Lemma u8_add x v : byte_ok x -> u8 (x + 256 * v) = x.
Proof.
  intros Hx. unfold wrap. change (2 ^ 8) with 256.
  rewrite Z.mul_comm, Z.mod_add by lia. by apply Z.mod_small.
Qed.

Lemma shiftr8_add x v : byte_ok x -> Z.shiftr (x + 256 * v) 8 = v.
Proof.
  intros Hx. rewrite Z.shiftr_div_pow2 by lia. change (2 ^ 8) with 256.
  rewrite Z.mul_comm, Z.div_add by lia. unfold byte_ok in Hx. rewrite Z.div_small; lia.
Qed.

Lemma store_le_spec l : forall m p, Forall byte_ok l -> mapped m p (length l) ->
  store_le (length l) m p (le_Z l) = Some (write_bytes m p l).
Proof.
  induction l as [|x l IH]; intros m p Hok Hm; simpl store_le; [done|].
  apply Forall_cons in Hok as [Hx Hok]. apply mapped_tail in Hm as [Hp Hm].
  rewrite store_ok by done. simpl. rewrite u8_add, shiftr8_add by done.
  apply IH; [done|]. by apply mapped_insert.
Qed.

(** A list of at least [8 * S n] bytes starts with one word. *)
Lemma split_word (l : bytes) (n : nat) : length l = (8 * S n)%nat ->
  exists w r, l = w ++ r /\ length w = 8%nat /\ length r = (8 * n)%nat.
Proof.
  intros H. exists (take 8 l), (drop 8 l).
  rewrite take_drop, length_take, length_drop. split; [done|]. lia.
Qed.

Lemma copy_words_spec n : forall l m dest src, length l = (8 * n)%nat ->
  bytes_at m src l -> Forall byte_ok l -> mapped m dest (length l) ->
  dest <= src \/ src + Z.of_nat (length l) <= dest ->
  copy_words n m dest src = Some (write_bytes m dest l).
Proof.
  induction n as [|n IH]; intros l m dest src Hl Hb Hok Hm Hd; cbn [copy_words].
  - by destruct l.
  - destruct (split_word l n Hl) as (w & r & -> & Hw & Hr).
    apply bytes_at_app in Hb as [Hbw Hbr]. apply Forall_app in Hok as [Hokw Hokr].
    rewrite length_app in *. apply mapped_app in Hm as [Hmw Hmr].
    rewrite Hw in Hbr, Hmr. rewrite <- Hw, (load_le_spec w) by done.
    cbn [mbind option_bind]. rewrite store_le_spec by done.
    cbn [mbind option_bind]. rewrite write_bytes_app, Hw. apply IH; try done.
    + apply bytes_at_write_other; [done|lia].
    + rewrite Hr in *. by apply mapped_write.
    + lia.
Qed.

(** The source's word/byte split of a transfer of [length l] bytes. *)
Lemma split_words (l : bytes) : exists w r, l = w ++ r /\
  length w = (8 * Z.to_nat (Z.of_nat (length l) / 8))%nat /\
  length r = Z.to_nat (Z.of_nat (length l) - 8 * (Z.of_nat (length l) / 8)) /\
  Z.of_nat (length w) = 8 * (Z.of_nat (length l) / 8).
Proof.
  pose proof (Z.div_mod (Z.of_nat (length l)) 8 ltac:(lia)) as Hdm.
  pose proof (Z.mod_pos_bound (Z.of_nat (length l)) 8 ltac:(lia)) as Hmb.
  set (k := (8 * Z.to_nat (Z.of_nat (length l) / 8))%nat).
  exists (take k l), (drop k l). rewrite take_drop, length_take, length_drop.
  split; [done|]. lia.
Qed.

Lemma memcpy_spec m dest src l : bytes_at m src l -> Forall byte_ok l ->
  mapped m dest (length l) -> dest <= src \/ src + Z.of_nat (length l) <= dest ->
  memcpy m dest src (Z.of_nat (length l)) = Some (dest, write_bytes m dest l).
Proof.
  intros Hb Hok Hm Hd. unfold memcpy. repeat bcase; subst.
  - rewrite write_bytes_same by done. done.
  - destruct (split_words l) as (w & r & Hl & Hw & Hr & Hwz).
    rewrite <- Hwz, <- Hr in *. rewrite Hl in Hb, Hok, Hm, Hd.
    apply bytes_at_app in Hb as [Hbw Hbr]. apply Forall_app in Hok as [Hokw Hokr].
    rewrite length_app in *. apply mapped_app in Hm as [Hmw Hmr].
    rewrite (copy_words_spec _ w) by (done || lia). cbn [mbind option_bind].
    rewrite copy_up_spec; [by rewrite Hl, write_bytes_app| |done|by apply mapped_write|lia].
    apply bytes_at_write_other; [done|lia].
  - by rewrite Nat2Z.id, copy_up_spec.
Qed.

(** *** Fill loops *)

Lemma land_0xff c : Z.land c 0xff = u8 c.
Proof. change 0xff with (Z.ones 8). by rewrite Z.land_ones. Qed.

Lemma u8_ok c : byte_ok (u8 c).
Proof. apply (wrap_range 8). lia. Qed.

#[local] Hint Resolve u8_ok : uboot.

Lemma memset_word c :
  Nat.iter 8 (fun cl => Z.lor (u64 (Z.shiftl cl 8)) (Z.land c 0xff)) 0 =
  le_Z (replicate 8 (u8 c)).
Proof.
  rewrite land_0xff.
  apply Z.eqb_eq, (all_bytes (fun b =>
    Nat.iter 8 (fun cl => Z.lor (u64 (Z.shiftl cl 8)) b) 0 =? le_Z (replicate 8 b)));
    [vm_compute; reflexivity | apply u8_ok].
Qed.

Lemma Forall_replicate_byte n c : Forall byte_ok (replicate n (u8 c)).
Proof. apply Forall_replicate, u8_ok. Qed.

Lemma fill_spec n : forall m s c, mapped m s n ->
  fill n m s c = Some (write_bytes m s (replicate n (u8 c))).
Proof.
  induction n as [|n IH]; intros m s c Hm; simpl; [done|].
  apply mapped_tail in Hm as [Hs Hm]. rewrite store_ok by done. simpl.
  by apply IH, mapped_insert.
Qed.

Lemma fill_words_spec n : forall m s c, mapped m s (8 * n) ->
  fill_words n m s (le_Z (replicate 8 (u8 c))) =
  Some (write_bytes m s (replicate (8 * n) (u8 c))).
Proof.
  induction n as [|n IH]; intros m s c Hm; cbn [fill_words]; [done|].
  replace (8 * S n)%nat with (8 + 8 * n)%nat in * by lia.
  apply mapped_app in Hm as [Hw Hm].
  pose proof (store_le_spec (replicate 8 (u8 c)) m s) as Hst.
  rewrite length_replicate in Hst. rewrite Hst by auto using Forall_replicate_byte.
  cbn [mbind option_bind]. rewrite IH by (by apply mapped_write).
  by rewrite replicate_add, write_bytes_app, length_replicate.
Qed.

(** *** Comparison and search loops *)

Lemma memcmp_loop_spec l1 : forall l2 m p q, length l1 = length l2 ->
  bytes_at m p l1 -> bytes_at m q l2 ->
  exists r, memcmp_loop (length l1) m p q = Some r /\ (r = 0 <-> l1 = l2).
Proof.
  induction l1 as [|x l1 IH]; intros [|y l2] m p q Hl H1 H2; simplify_eq/=; [by exists 0|].
  apply bytes_at_cons in H1 as [Hx H1]. apply bytes_at_cons in H2 as [Hy H2].
  unfold load. rewrite Hx, Hy. simpl. bcase.
  - eexists; split; [done|]. split; [lia|]. intros [= -> ->]. lia.
  - destruct (IH l2 m (p + 1) (q + 1)) as (r & -> & Hr); [done..|].
    exists r. split; [done|]. rewrite Hr. assert (x = y) as -> by lia. naive_solver.
Qed.

Lemma occurs_at_cons x s t i : occurs_at (x :: s) t (S i) <-> occurs_at s t i.
Proof. done. Qed.

Lemma occurs_at_length s t i : occurs_at s t i -> (length t <= length s - i)%nat.
Proof. intros H%prefix_length. by rewrite length_drop in H. Qed.

(** First occurrence, or none. *)
Definition first_occurrence (s t : bytes) (p r : Z) : Prop :=
  (r = NULL /\ forall i, ~ occurs_at s t i) \/
  (exists i, r = p + Z.of_nat i /\ occurs_at s t i /\ forall j, (j < i)%nat -> ~ occurs_at s t j).

Lemma first_occurrence_here s t p : t `prefix_of` s -> first_occurrence s t p p.
Proof. intros H. right. exists 0%nat. rewrite Z.add_0_r. split; [done|]. split; [done|lia]. Qed.

Lemma first_occurrence_next x s t p r : ~ t `prefix_of` x :: s ->
  first_occurrence s t (p + 1) r -> first_occurrence (x :: s) t p r.
Proof.
  intros Hn [[-> H]|(i & -> & Hi & Hj)].
  - left. split; [done|]. intros [|i]; [done|]. apply H.
  - right. exists (S i). split; [lia|]. split; [done|]. intros [|j] Hlt; [done|].
    apply Hj. lia.
Qed.

Lemma first_occurrence_short s t p : (length s < length t)%nat -> first_occurrence s t p NULL.
Proof. intros H. left. split; [done|]. intros i Hi%occurs_at_length. lia. Qed.

Lemma prefix_take (s t : bytes) : (length t <= length s)%nat ->
  t `prefix_of` s <-> take (length t) s = t.
Proof.
  intros Hl. split.
  - intros [k ->]. by rewrite take_app_length.
  - intros <-. by apply prefix_take.
Qed.

Lemma strstr_loop_spec t : t <> [] -> forall s m p q, bytes_at m p s -> bytes_at m q t ->
  exists r, strstr_loop (Z.to_nat (Z.of_nat (length s) - Z.of_nat (length t) + 1)) m p q
              (Z.of_nat (length t)) = Some r /\ first_occurrence s t p r.
Proof.
  intros Hne. induction s as [|x s IH]; intros m p q Hs Ht.
  { destruct t; [done|]. simpl length. replace (Z.to_nat _) with 0%nat by lia.
    eexists; split; [done|]. apply first_occurrence_short. simpl. lia. }
  destruct (decide (length t <= length (x :: s))%nat) as [Hl|Hl].
  - replace (Z.to_nat _) with (S (Z.to_nat (Z.of_nat (length s) - Z.of_nat (length t) + 1)))
      by (simpl in *; lia).
    cbn [strstr_loop]. unfold memcmp. rewrite Nat2Z.id.
    pose proof Hs as Hpre. rewrite <- (take_drop (length t) (x :: s)) in Hpre.
    apply bytes_at_app in Hpre as [Hpre _]. apply bytes_at_cons in Hs as [_ Hs].
    assert (length (take (length t) (x :: s)) = length t) as Hlt by (rewrite length_take; lia).
    destruct (memcmp_loop_spec _ t m p q Hlt Hpre Ht) as (r & Hr & Hz).
    rewrite Hlt in Hr. rewrite Hr. cbn [mbind option_bind]. rewrite <- prefix_take in Hz by done.
    bcase.
    + eexists; split; [done|]. apply first_occurrence_here. tauto.
    + destruct (IH m (p + 1) q Hs Ht) as (r' & -> & Hf). eexists; split; [done|].
      apply first_occurrence_next; [tauto|done].
  - replace (Z.to_nat _) with 0%nat by lia. eexists; split; [done|].
    apply first_occurrence_short. lia.
Qed.

(** The first byte of [l] (at [p]) that is not [v], or NULL. *)
Fixpoint first_not (v p : Z) (l : bytes) : Z :=
  match l with
  | [] => NULL
  | x :: l' => if x =? v then first_not v (p + 1) l' else p
  end.

Lemma check_bytes8_spec v l : forall m p, bytes_at m p l ->
  check_bytes8 (length l) m p v = Some (first_not v p l).
Proof.
  induction l as [|x l IH]; intros m p Hb; simpl; [done|].
  apply bytes_at_cons in Hb as [Hx Hb]. unfold load. rewrite Hx. simpl. bcase; simpl.
  - assert ((x =? v) = false) as -> by lia. done.
  - assert ((x =? v) = true) as -> by lia. by apply IH.
Qed.

Lemma first_not_app v l1 : forall p l2, 0 < p -> first_not v p (l1 ++ l2) =
  if first_not v p l1 =? NULL then first_not v (p + Z.of_nat (length l1)) l2
  else first_not v p l1.
Proof.
  induction l1 as [|x l1 IH]; intros p l2 Hp; simpl first_not.
  - simpl. by rewrite Z.add_0_r.
  - rewrite IH by lia. simpl length. destruct (x =? v); [|simpl].
    + replace (p + 1 + Z.of_nat (length l1)) with (p + Z.of_nat (S (length l1))) by lia. done.
    + assert ((p =? NULL) = false) as -> by (unfold NULL; lia). done.
Qed.

Lemma first_not_replicate v n p : first_not v p (replicate n v) = NULL.
Proof. revert p. induction n; intros p; simpl; [done|]. by rewrite Z.eqb_refl. Qed.

Lemma first_not_hit v l : forall p, 0 < p -> first_not v p l = NULL -> l = replicate (length l) v.
Proof.
  induction l as [|x l IH]; intros p Hp; simpl; [done|]. bcase.
  - intros H. subst. f_equal. apply (IH (p + 1)); [lia|done].
  - unfold NULL. lia.
Qed.

Lemma le_Z_inj l1 : forall l2, length l1 = length l2 -> Forall byte_ok l1 -> Forall byte_ok l2 ->
  le_Z l1 = le_Z l2 -> l1 = l2.
Proof.
  unfold byte_ok. induction l1 as [|x l1 IH]; intros [|y l2] Hl H1 H2 He; simplify_eq/=; [done|].
  apply Forall_cons in H1 as [? H1]. apply Forall_cons in H2 as [? H2].
  f_equal; [lia|]. apply IH; try done. lia.
Qed.

Lemma memchr_inv_word c : let value64 := u8 c in
  let value64 := Z.lor value64 (u64 (Z.shiftl value64 8)) in
  let value64 := Z.lor value64 (u64 (Z.shiftl value64 16)) in
  Z.lor value64 (u64 (Z.shiftl value64 32)) = le_Z (replicate 8 (u8 c)).
Proof.
  apply Z.eqb_eq, (all_bytes (fun b => let value64 := b in
    let value64 := Z.lor value64 (u64 (Z.shiftl value64 8)) in
    let value64 := Z.lor value64 (u64 (Z.shiftl value64 16)) in
    Z.lor value64 (u64 (Z.shiftl value64 32)) =? le_Z (replicate 8 b)));
    [vm_compute; reflexivity | apply u8_ok].
Qed.

Lemma inv_words_spec n : forall l r m p c, length l = (8 * n)%nat -> 0 < p ->
  bytes_at m p (l ++ r) -> Forall byte_ok l ->
  inv_words n m p (u8 c) (le_Z (replicate 8 (u8 c))) (Z.of_nat (length r)) =
  Some (first_not (u8 c) p (l ++ r)).
Proof.
  induction n as [|n IH]; intros l r m p c Hl Hp Hb Hok; cbn [inv_words].
  - destruct l; [|done]. rewrite Nat2Z.id. by apply check_bytes8_spec.
  - destruct (split_word l n Hl) as (w & l' & -> & Hw & Hl').
    rewrite <- app_assoc in *. apply bytes_at_app in Hb as [Hbw Hb].
    apply Forall_app in Hok as [Hokw Hok]. rewrite <- Hw at 1. rewrite load_le_spec by done.
    cbn [mbind option_bind]. rewrite first_not_app by done.
    destruct (Z.eqb_spec (le_Z w) (le_Z (replicate 8 (u8 c)))) as [E|E]; cbn [negb].
    + apply le_Z_inj in E; [|done..|apply Forall_replicate_byte]. subst w.
      rewrite first_not_replicate, length_replicate. simpl (NULL =? NULL).
      rewrite length_replicate in Hb. apply IH; (done || lia).
    + rewrite <- Hw at 1. rewrite check_bytes8_spec by done.
      destruct (Z.eqb_spec (first_not (u8 c) p w) NULL) as [Hz|]; [|done].
      apply first_not_hit in Hz; [|done]. rewrite Hw in Hz. by subst w.
Qed.

Lemma inv_tail l m p c : 0 < p -> bytes_at m p l -> Forall byte_ok l ->
  inv_words (Z.to_nat (Z.of_nat (length l) / 8)) m p (u8 c) (le_Z (replicate 8 (u8 c)))
    (Z.of_nat (length l) mod 8) = Some (first_not (u8 c) p l).
Proof.
  intros Hp Hb Hok. destruct (split_words l) as (w & r & Hl & Hw & Hr & _).
  assert (Z.of_nat (length l) mod 8 = Z.of_nat (length r)) as ->.
  { pose proof (Z.div_mod (Z.of_nat (length l)) 8 ltac:(lia)).
    pose proof (Z.mod_pos_bound (Z.of_nat (length l)) 8 ltac:(lia)). lia. }
  rewrite Hl in Hok, Hb. apply Forall_app in Hok as [Hok _].
  rewrite (inv_words_spec _ w r) by done. by rewrite Hl.
Qed.

(** ** Properties *)

(** [strcmp] on two terminated strings always returns, and returns 0
    exactly when the strings are equal; [strncmp] does so for the first
    [n] characters. *)
Theorem strcmp_zero_iff m p q s t n : cstr_at m p s -> cstr_at m q t ->
  (exists r, strcmp m p q = Some r /\ (r = 0 <-> s = t)) /\
  (exists r, strncmp m p q (Z.of_nat n) = Some r /\ (r = 0 <-> take n s = take n t)).
Proof.
  intros Hs Ht. pose proof (cstr_at_fuel _ _ _ Hs). split.
  - exists (strcmp_str s t). split; [by apply strcmp_loop_spec|].
    apply strcmp_str_zero; [apply Hs | apply Ht].
  - exists (strncmp_str n s t). split; [by apply strncmp_loop_spec|].
    apply strncmp_str_zero; [apply Hs | apply Ht].
Qed.

(** [strcmp] keeps the difference of two characters in a [signed char],
    so its sign is not the order of the strings: the one-character string
    0x01 compares greater than the string 0x82. *)
Theorem strcmp_sign_wraps : exists m, cstr_at m 100 [0x01] /\ cstr_at m 200 [0x82] /\
  strcmp m 100 200 = Some 127.
Proof.
  exists (write_bytes (write_bytes ∅ 100 [0x01; 0]) 200 [0x82; 0]).
  split; [|split; [|by vm_compute]].
  - split; [|by repeat constructor].
    apply bytes_at_write_other; [apply bytes_at_write | simpl; lia].
  - split; [apply bytes_at_write | by repeat constructor].
Qed.

(** [memmove] copies the bytes at [src] to [dest] whatever the overlap of
    the two ranges, and changes nothing else. *)
Theorem memmove_correct m dest src l : bytes_at m src l -> Forall byte_ok l ->
  mapped m dest (length l) ->
  memmove m dest src (Z.of_nat (length l)) = Some (dest, write_bytes m dest l).
Proof.
  intros Hb Hok Hm. unfold memmove. rewrite Nat2Z.id. repeat bcase; subst.
  - by rewrite write_bytes_same.
  - by rewrite copy_up_spec by auto.
  - rewrite copy_down_spec by (done || lia). done.
Qed.

(** The word-at-a-time [memcpy] has the effect of the bytewise copy, for
    disjoint ranges and for a destination below the source. *)
Theorem memcpy_correct m dest src l : bytes_at m src l -> Forall byte_ok l ->
  mapped m dest (length l) -> dest <= src \/ src + Z.of_nat (length l) <= dest ->
  memcpy m dest src (Z.of_nat (length l)) = Some (dest, write_bytes m dest l).
Proof. apply memcpy_spec. Qed.

(** The word-at-a-time [memset] writes [count] copies of the low byte of
    [c] and nothing else. *)
Theorem memset_correct m s c n : mapped m s n ->
  memset m s c (Z.of_nat n) = Some (s, write_bytes m s (replicate n (u8 c))).
Proof.
  intros Hm. unfold memset. rewrite memset_word. bcase; [|by rewrite Nat2Z.id, fill_spec].
  destruct (split_words (replicate n (u8 c))) as (w & r & Hl & Hw & Hr & Hwz).
  pose proof (f_equal length Hl) as Hlen. rewrite length_app in Hlen.
  rewrite length_replicate in *. rewrite Hlen in Hm. apply mapped_app in Hm as [Hmw Hmr].
  rewrite <- Hwz in *. rewrite <- Hr. rewrite Hw in Hmw at 1. rewrite fill_words_spec by done.
  cbn [mbind option_bind]. rewrite <- Hw. rewrite fill_spec by (by apply mapped_write).
  cbn [mbind option_bind]. rewrite Hlen, replicate_add, write_bytes_app.
  by rewrite length_replicate.
Qed.

(** [strstr] returns the first position of [s] at which [t] occurs, and
    NULL exactly when there is none. *)
Theorem strstr_first m p q s t : cstr_at m p s -> cstr_at m q t ->
  exists r, strstr m p q = Some r /\ first_occurrence s t p r.
Proof.
  intros Hs Ht. unfold strstr. rewrite (strlen_spec m q t Ht). cbn [mbind option_bind]. bcase.
  - destruct t; [|by simpl in E; lia]. eexists; split; [done|].
    apply first_occurrence_here, prefix_nil.
  - rewrite (strlen_spec m p s Hs). cbn [mbind option_bind].
    apply strstr_loop_spec; [by intros ->| |].
    + by destruct Hs as [[Hs _]%bytes_at_app _].
    + by destruct Ht as [[Ht _]%bytes_at_app _].
Qed.

(** [memchr_inv], with its byte prefix, 64-bit words and byte tail, finds
    the first byte that differs from [c]. *)
Theorem memchr_inv_first m p l c : bytes_at m p l -> Forall byte_ok l -> 0 < p ->
  memchr_inv m p c (Z.of_nat (length l)) = Some (first_not (u8 c) p l).
Proof.
  intros Hb Hok Hp. unfold memchr_inv. rewrite memchr_inv_word.
  bcase; [by rewrite Nat2Z.id, check_bytes8_spec|]. bcase; [|by apply inv_tail].
  set (k := 8 - p mod 8).
  pose proof (Z.mod_pos_bound p 8 ltac:(lia)).
  assert (l = take (Z.to_nat k) l ++ drop (Z.to_nat k) l) as Hl by (by rewrite take_drop).
  assert (length (take (Z.to_nat k) l) = Z.to_nat k) as Hk by (rewrite length_take; lia).
  assert (Z.of_nat (length l) - k = Z.of_nat (length (drop (Z.to_nat k) l))) as Hr
    by (rewrite length_drop; lia).
  rewrite Hr. rewrite Hl in Hb, Hok. apply bytes_at_app in Hb as [Hb1 Hb2].
  apply Forall_app in Hok as [_ Hok]. rewrite <- Hk at 1.
  rewrite check_bytes8_spec by done. cbn [mbind option_bind].
  rewrite (f_equal (first_not (u8 c) p) Hl), first_not_app by done.
  destruct (_ =? NULL); [|done]. cbn [negb].
  rewrite Hk in Hb2. rewrite Hk, Z2Nat.id in * by lia. apply inv_tail; (done || lia).
Qed.

(** [strlcpy] returns the length of the source; with a non-zero size it
    leaves the longest prefix that fits, always terminated, within the first
    [size] bytes of [dest], and nothing else is written. *)
Theorem strlcpy_bounded m dest src s size : cstr_at m src s -> 0 < size ->
  mapped m dest (Z.to_nat size) ->
  dest <= src \/ src + Z.of_nat (length s) < dest ->
  strlcpy m dest src size =
    Some (Z.of_nat (length s), write_bytes m dest (take (Z.to_nat (size - 1)) s ++ [0])).
Proof.
  intros Hs Hsz Hm Hd. unfold strlcpy. rewrite (strlen_spec m src s Hs). cbn [mbind option_bind].
  assert ((size =? 0) = false) as -> by lia.
  set (l := take (Z.to_nat (size - 1)) s).
  assert (length l = Nat.min (Z.to_nat (size - 1)) (length s)) as Hll by apply length_take.
  assert ((if size <=? Z.of_nat (length s) then size - 1 else Z.of_nat (length s))
          = Z.of_nat (length l)) as -> by (bcase; lia).
  destruct Hs as [[Hb _]%bytes_at_app Hok].
  rewrite <- (take_drop (Z.to_nat (size - 1)) s) in Hb, Hok.
  apply bytes_at_app in Hb as [Hb _]. apply Forall_app in Hok as [Hok _].
  replace (Z.to_nat size) with (length l + (Z.to_nat size - length l))%nat in Hm by lia.
  apply mapped_app in Hm as [Hm1 Hm2].
  rewrite memcpy_spec; [|done|by eapply Forall_impl, char_byte|done|lia].
  cbn [mbind option_bind]. rewrite store_ok; [by rewrite write_bytes_app|].
  apply (mapped_write m dest l) in Hm2. rewrite <- (Z.add_0_r (_ + _)). apply (Hm2 0%nat). lia.
Qed.

(** A memory for the witnesses: two strings and a block of 32 bytes. *)
Definition demo : mem :=
  write_bytes (write_bytes (write_bytes ∅ 100 (str "bootcmd" ++ [0])) 203 (str "cmd" ++ [0]))
    304 (replicate 32 7).

Lemma demo_bootcmd : cstr_at demo 100 (str "bootcmd").
Proof.
  split; [|by repeat constructor].
  do 2 (apply bytes_at_write_other; [|simpl; lia]). apply bytes_at_write.
Qed.

Lemma demo_cmd : cstr_at demo 203 (str "cmd").
Proof.
  split; [|by repeat constructor].
  apply bytes_at_write_other; [|simpl; lia]. apply bytes_at_write.
Qed.

Lemma demo_block : bytes_at demo 304 (replicate 32 7).
Proof. apply bytes_at_write. Qed.

Lemma demo_block_ok : Forall byte_ok (replicate 32 7).
Proof. by apply Forall_replicate. Qed.

Lemma demo_mapped n : (n <= 32)%nat -> mapped demo 304 n.
Proof. intros Hn i Hi. apply (bytes_at_mapped _ _ _ demo_block). simpl. lia. Qed.

Lemma strcmp_zero_iff_witness :
  exists r, strcmp demo 100 203 = Some r /\ (r = 0 <-> str "bootcmd" = str "cmd").
Proof. apply (strcmp_zero_iff demo 100 203 _ _ 3 demo_bootcmd demo_cmd). Defined.

Lemma memmove_correct_witness :
  memmove demo 306 304 10 = Some (306, write_bytes demo 306 (replicate 10 7)).
Proof.
  apply (memmove_correct demo 306 304 (replicate 10 7)).
  - apply (proj1 (bytes_at_app demo 304 (replicate 10 7) (replicate 22 7))), demo_block.
  - by apply Forall_replicate.
  - apply (mapped_app demo 304 2 10). apply demo_mapped. lia.
Defined.

Lemma memcpy_correct_witness :
  memcpy demo 304 312 20 = Some (304, write_bytes demo 304 (replicate 20 7)).
Proof.
  apply (memcpy_correct demo 304 312 (replicate 20 7)).
  - apply (proj1 (bytes_at_app demo 312 (replicate 20 7) (replicate 4 7))).
    apply (proj1 (bytes_at_app demo 304 (replicate 8 7) (replicate 24 7))), demo_block.
  - by apply Forall_replicate.
  - apply demo_mapped. simpl. lia.
  - simpl. lia.
Defined.

Lemma memset_correct_witness :
  memset demo 304 0x1ff 19 = Some (304, write_bytes demo 304 (replicate 19 0xff)).
Proof. apply (memset_correct demo 304 0x1ff 19). apply demo_mapped. lia. Defined.

Lemma strstr_first_witness :
  exists r, strstr demo 100 203 = Some r /\ first_occurrence (str "bootcmd") (str "cmd") 100 r.
Proof. apply (strstr_first demo 100 203 _ _ demo_bootcmd demo_cmd). Defined.

Lemma memchr_inv_first_witness : memchr_inv demo 304 7 32 = Some NULL.
Proof.
  refine (eq_trans (memchr_inv_first demo 304 (replicate 32 7) 7 demo_block demo_block_ok _) _);
    [lia | by vm_compute].
Defined.

Lemma strlcpy_bounded_witness :
  strlcpy demo 304 100 5 = Some (7, write_bytes demo 304 (str "boot" ++ [0])).
Proof.
  refine (strlcpy_bounded demo 304 100 _ 5 demo_bootcmd _ _ _); [lia | | right; simpl; lia].
  apply demo_mapped. simpl. lia.
Defined.

End CString.
