(* ===== verification/Qsort.v ===== *)
(** * The shell sort of lib/qsort.c

    [qsort] works on [nel] elements of [width] bytes.  An element is moved
    only as a whole (the innermost [do ... while (--k)] swaps [width] bytes),
    so the array is a list of elements and the byte offset [off] is the
    element [off / width]; an offset that is not a multiple of [width], or not
    inside the array, is [None].  All offsets stay in bytes, as in the source. *)

From S2P Require Import Prelude.

Module Qsort.

Section qsort.
Context {A : Type} (comp : A -> A -> Z) (width : Z).

Definition elem (base : list A) (off : Z) : option A :=
  if off mod width =? 0 then zget base (off / width) else None.

(** The byte loop that exchanges the elements at [a] and [b]. *)
Definition swap (base : list A) (a b : Z) : option (list A) :=
  x ← elem base a;
  y ← elem base b;
  base ← zset base (a / width) y;
  zset base (b / width) x.

(** The innermost [do ... while (j >= wgap)]. *)
Fixpoint sift (fuel : nat) (wgap : Z) (base : list A) (j : Z) : option (list A) :=
  match fuel with
  | O => None
  | S fuel' =>
      let j := j - wgap in
      a ← elem base j;
      b ← elem base (j + wgap);
      if comp a b <=? 0 then Some base
      else
        base ← swap base j (j + wgap);
        if wgap <=? j then sift fuel' wgap base j else Some base
  end.

(** [do { ...; i += width; } while (i < nel)]; [nel] is in bytes here. *)
Fixpoint pass (fuel : nat) (wgap nel : Z) (base : list A) (i : Z) : option (list A) :=
  match fuel with
  | O => None
  | S fuel' =>
      base ← sift (S (Z.to_nat i)) wgap base i;
      let i := i + width in
      if i <? nel then pass fuel' wgap nel base i else Some base
  end.

(** [do { pass; wgap = (wgap - width)/3; } while (wgap)] *)
Fixpoint passes (fuel : nat) (wgap nel : Z) (base : list A) : option (list A) :=
  match fuel with
  | O => None
  | S fuel' =>
      base ← pass (S (Z.to_nat nel)) wgap nel base wgap;
      let wgap := (wgap - width) / 3 in
      if negb (wgap =? 0) then passes fuel' wgap nel base else Some base
  end.

(** [do { wgap = 3 * wgap + 1; } while (wgap < (nel-1)/3)] *)
Fixpoint first_gap (fuel : nat) (wgap nel : Z) : option Z :=
  match fuel with
  | O => None
  | S fuel' =>
      let wgap := 3 * wgap + 1 in
      if wgap <? (nel - 1) / 3 then first_gap fuel' wgap nel else Some wgap
  end.

Definition qsort (base : list A) (nel : Z) : option (list A) :=
  if (1 <? nel) && (0 <? width) then
    wgap ← first_gap (S (Z.to_nat nel)) 0 nel;
    let wgap := wgap * width in
    passes (S (Z.to_nat wgap)) wgap (nel * width) base
  else Some base.

(** ** Lemmas *)

Context (Hwidth : 0 < width).

Lemma elem_mul base k : elem base (k * width) = zget base k.
Proof.
  unfold elem. rewrite Z.mod_mul, Z.div_mul by lia. done.
Qed.

Lemma zget_second (p q r : list A) x y i :
  i = Z.of_nat (length p) + Z.of_nat (S (length q)) -> zget (p ++ x :: q ++ y :: r) i = Some y.
Proof.
  intros ->. replace (p ++ x :: q ++ y :: r) with ((p ++ x :: q) ++ y :: r)
    by by rewrite <- app_assoc.
  apply zget_middle. rewrite length_app. simpl. lia.
Qed.

Lemma swap_split (p q r : list A) x y g :
  g = Z.of_nat (length p) ->
  swap (p ++ x :: q ++ y :: r) (g * width) ((g + Z.of_nat (S (length q))) * width) =
  Some (p ++ y :: q ++ x :: r).
Proof.
  intros ->. unfold swap. rewrite !elem_mul, !Z.div_mul by lia.
  rewrite (zget_middle p _ x (Z.of_nat (length p))) by done. cbn [mbind option_bind].
  rewrite zget_second by lia. cbn [mbind option_bind].
  rewrite (zset_middle p _ x y (Z.of_nat (length p))) by done. cbn [mbind option_bind].
  replace (p ++ y :: q ++ y :: r) with ((p ++ y :: q) ++ y :: r) by by rewrite <- app_assoc.
  rewrite zset_middle by (rewrite length_app; simpl; lia). by rewrite <- app_assoc.
Qed.

(** Two positions of a list split it. *)
Lemma split_two (l : list A) i g : 0 <= i -> 0 < g -> i + g < Z.of_nat (length l) ->
  exists p x q y r, l = p ++ x :: q ++ y :: r /\ i = Z.of_nat (length p) /\
    g = Z.of_nat (S (length q)).
Proof.
  intros Hi Hg Hl.
  destruct (lookup_lt_is_Some_2 l (Z.to_nat i)) as [x Hx]; [lia|].
  apply list_elem_of_split_length in Hx as (p & t & -> & Hp).
  rewrite length_app in Hl. simpl in Hl.
  destruct (lookup_lt_is_Some_2 t (Z.to_nat (g - 1))) as [y Hy]; [lia|].
  apply list_elem_of_split_length in Hy as (q & r & -> & Hq).
  exists p, x, q, y, r. split; [done|]. lia.
Qed.

Lemma swap_perm (p q r : list A) x y : p ++ y :: q ++ x :: r ≡ₚ p ++ x :: q ++ y :: r.
Proof. apply Permutation_app_head. rewrite <- !Permutation_middle. apply Permutation_swap. Qed.

(** Every step of the sort stays inside the array and permutes it. *)
Lemma sift_perm fuel : forall base g i, 0 < g -> g <= i -> i < Z.of_nat (length base) ->
  (Z.to_nat (i * width) < fuel)%nat ->
  exists base', sift fuel (g * width) base (i * width) = Some base' /\ base' ≡ₚ base.
Proof.
  induction fuel as [|fuel IH]; intros base g i Hg Hi Hl Hf; [lia|]. cbn [sift].
  rewrite <- Z.mul_sub_distr_r, <- Z.mul_add_distr_r.
  destruct (split_two base (i - g) g) as (p & x & q & y & r & -> & Hp & Hq); [lia..|].
  rewrite !elem_mul. rewrite (zget_middle p _ x (i - g)) by done. cbn [mbind option_bind].
  rewrite zget_second by lia.
  cbn [mbind option_bind]. bcase; [by eexists|].
  pose proof (swap_split p q r x y (i - g) Hp) as Hs. rewrite <- Hq in Hs. rewrite Hs.
  cbn [mbind option_bind]. bcase.
  - destruct (IH (p ++ y :: q ++ x :: r) g (i - g)) as (b & -> & Hb); [nia..| |nia|].
    + rewrite !length_app in *. simpl in *. rewrite !length_app in *. simpl in *. lia.
    + eexists; split; [done|]. rewrite Hb. apply swap_perm.
  - eexists; split; [done|]. apply swap_perm.
Qed.

Lemma pass_perm fuel : forall base g i n, 0 < g -> g <= i -> i < n ->
  n = Z.of_nat (length base) -> (Z.to_nat (n - i) < fuel)%nat ->
  exists base', pass fuel (g * width) (n * width) base (i * width) = Some base' /\ base' ≡ₚ base.
Proof.
  induction fuel as [|fuel IH]; intros base g i n Hg Hi Hin Hn Hf; [lia|]. cbn [pass].
  destruct (sift_perm (S (Z.to_nat (i * width))) base g i) as (b & -> & Hb); [lia..|].
  cbn [mbind option_bind]. replace (i * width + width) with ((i + 1) * width) by lia.
  bcase; [|by eexists].
  destruct (IH b g (i + 1) n) as (b' & -> & Hb'); [nia..| |lia|].
  - by rewrite Hb.
  - eexists; split; [done|]. by rewrite Hb'.
Qed.

(** The gaps 1, 4, 13, ... *)
Inductive gap : Z -> Prop :=
| gap_1 : gap 1
| gap_S g : gap g -> gap (3 * g + 1).

Lemma gap_pos g : gap g -> 1 <= g.
Proof. induction 1; lia. Qed.

Lemma first_gap_spec fuel : forall h n, h = 0 \/ gap h -> h = 0 \/ h < (n - 1) / 3 -> 1 < n ->
  (Z.to_nat (n - h) < fuel)%nat ->
  exists g, first_gap fuel h n = Some g /\ gap g /\ g < n.
Proof.
  induction fuel as [|fuel IH]; intros h n Hh Hlt Hn Hf; [lia|]. cbn [first_gap].
  assert (0 <= h) by (destruct Hh as [|?%gap_pos]; lia).
  assert (gap (3 * h + 1)) by (destruct Hh as [->|]; [constructor|by constructor]).
  pose proof (Z.div_mod (n - 1) 3 ltac:(lia)). pose proof (Z.mod_pos_bound (n - 1) 3 ltac:(lia)).
  bcase; [apply IH; auto; lia|]. eexists. split; [done|]. split; [done|]. lia.
Qed.

(** The array at a state of [passes] with gap [g]: the rest of the run is a
    permutation followed by one pass with gap 1. *)
Lemma passes_spec g : gap g -> forall fuel base n, n = Z.of_nat (length base) -> g < n ->
  (Z.to_nat (g * width) < fuel)%nat ->
  exists base1 base2, passes fuel (g * width) (n * width) base = Some base2 /\ base1 ≡ₚ base /\
    pass (S (Z.to_nat (n * width))) width (n * width) base1 width = Some base2.
Proof.
  induction 1 as [|g Hg IH]; intros [|fuel] base n Hn Hgn Hf; try lia; cbn [passes].
  - destruct (pass_perm (S (Z.to_nat (n * width))) base 1 1 n) as (b & Hb & _); [nia..|].
    rewrite !Z.mul_1_l in *. rewrite Hb. cbn [mbind option_bind].
    rewrite Z.sub_diag. exists base, b. by rewrite Hb.
  - pose proof (gap_pos g Hg).
    destruct (pass_perm (S (Z.to_nat (n * width))) base (3 * g + 1) (3 * g + 1) n)
      as (b & -> & Hb); [nia..|]. cbn [mbind option_bind].
    replace (((3 * g + 1) * width - width) / 3) with (g * width).
    2: { replace ((3 * g + 1) * width - width) with (g * width * 3) by lia.
         by rewrite Z.div_mul. }
    assert ((g * width =? 0) = false) as -> by nia. simpl negb. cbv iota.
    destruct (IH fuel b n) as (b1 & b2 & -> & Hb1 & Hp); [by rewrite Hb|nia..|].
    exists b1, b2. split; [done|]. split; [by rewrite Hb1|done].
Qed.

(** *** The last pass is an insertion sort *)

Definition le (a b : A) : Prop := comp a b <= 0.

(** The order laws are needed on the elements of the array only. *)
Context (P : A -> Prop).
Context (le_trans : forall a b c, P a -> P b -> P c -> le a b -> le b c -> le a c).
Context (le_total : forall a b, P a -> P b -> le a b \/ le b a).

Lemma Forall_perm (l l' : list A) : l ≡ₚ l' -> Forall P l' -> Forall P l.
Proof. intros Hp. by rewrite Hp. Qed.

Lemma sorted_insert p1 y x p2 : Forall P (p1 ++ y :: x :: p2) -> StronglySorted le (p1 ++ y :: p2) -> le y x ->
  Forall (le x) p2 -> StronglySorted le (p1 ++ y :: x :: p2).
Proof.
  intros HP Hs Hyx Hx. rewrite Forall_forall in HP. apply StronglySorted_app in Hs as (Hc & Hp1 & Hs).
  apply StronglySorted_cons in Hs as [Hy Hp2]. apply StronglySorted_app.
  rewrite !StronglySorted_cons, Forall_cons. repeat split; try done.
  intros a b Ha Hb. apply elem_of_cons in Hb as [->|Hb]; [apply Hc; set_solver|].
  apply elem_of_cons in Hb as [->|Hb]; [|apply Hc; set_solver].
  apply (le_trans _ y); try (apply HP; set_solver); [apply Hc; set_solver|done].
Qed.

Lemma sift_sorted p1 : forall p2 x r fuel, Forall P (p1 ++ x :: p2) -> StronglySorted le (p1 ++ p2) ->
  Forall (le x) p2 -> p1 <> [] -> (Z.to_nat (Z.of_nat (length p1) * width) < fuel)%nat ->
  exists q, sift fuel width (p1 ++ x :: p2 ++ r) (Z.of_nat (length p1) * width) = Some (q ++ r) /\
    StronglySorted le q /\ q ≡ₚ p1 ++ x :: p2.
Proof.
  induction p1 as [|y p1 IH] using rev_ind; intros p2 x r [|fuel] HP Hs Hx Hne Hf; try done; [lia|].
  rewrite <- (app_assoc p1 [y]) in HP. simpl in HP.
  cbn [sift]. rewrite length_app. simpl length. set (k := Z.of_nat (length p1)).
  replace (Z.of_nat (length p1 + 1) * width - width) with (k * width) by (unfold k; lia).
  replace (k * width + width) with ((k + 1) * width) by lia.
  rewrite !elem_mul. rewrite <- (app_assoc p1 [y]). cbn [app].
  rewrite (zget_middle p1 _ y k) by done. cbn [mbind option_bind].
  rewrite (zget_second p1 [] (p2 ++ r) y x) by (simpl; lia). cbn [mbind option_bind].
  rewrite <- app_assoc in Hs. simpl in Hs. bcase.
  - exists (p1 ++ y :: x :: p2). split; [by rewrite <- !app_assoc|].
    split; [|by rewrite <- app_assoc].
    by apply sorted_insert.
  - assert (le x y) as Hxy.
    { pose proof HP as HP'. rewrite Forall_forall in HP'.
      destruct (le_total x y) as [|Hyx]; try (apply HP'; set_solver); [done|].
      unfold le in Hyx. lia. }
    pose proof (swap_split p1 [] (p2 ++ r) y x k eq_refl) as Hsw. cbn [length app] in Hsw. change (Z.of_nat 1) with 1 in Hsw.
    rewrite Hsw. cbn [mbind option_bind]. destruct (decide (length p1 = 0)%nat) as [Hp1|Hp1].
    + apply nil_length_inv in Hp1. subst p1.
      rewrite (proj2 (Z.leb_gt width (k * width))) by (unfold k; simpl; lia).
      exists (x :: y :: p2). split; [done|]. split; [|by apply Permutation_swap].
      apply StronglySorted_cons. by rewrite Forall_cons.
    + assert (p1 <> []) as Hne1 by (by intros ->). assert (1 <= k) by (unfold k; lia).
      rewrite (proj2 (Z.leb_le width (k * width))) by nia.
      rewrite length_app in Hf. simpl in Hf.
      destruct (IH (y :: p2) x r fuel) as (q & Hq & Hqs & Hqp); [|done|by constructor|done|nia|].
      { eapply Forall_perm; [|exact HP]. apply Permutation_app_head, Permutation_swap. }
      exists q. split; [done|]. split; [done|]. rewrite Hqp, <- app_assoc. simpl.
      apply Permutation_app_head, Permutation_swap.
Qed.

Lemma pass_sorted fuel : forall p r n, Forall P (p ++ r) -> StronglySorted le p -> p <> [] -> r <> [] ->
  n = Z.of_nat (length (p ++ r)) -> (Z.to_nat (n - Z.of_nat (length p)) < fuel)%nat ->
  exists base, pass fuel width (n * width) (p ++ r) (Z.of_nat (length p) * width) = Some base /\
    StronglySorted le base.
Proof.
  induction fuel as [|fuel IH]; intros p r n HP Hs Hp Hr Hn Hf; [lia|].
  destruct r as [|x r]; [done|]. rewrite length_app in Hn. simpl in Hn. cbn [pass].
  assert (StronglySorted le (p ++ [])) as Hs' by (by rewrite app_nil_r).
  destruct (sift_sorted p [] x r (S (Z.to_nat (Z.of_nat (length p) * width))))
    as (q & Hsi & Hqs & Hqp); [|done|constructor|done|lia|].
  { apply (Forall_app _ _ r). by rewrite <- app_assoc. }
  cbn [app] in Hsi. rewrite Hsi. cbn [mbind option_bind].
  apply Permutation_length in Hqp as Hql. rewrite length_app in Hql. simpl in Hql.
  replace (Z.of_nat (length p) * width + width) with (Z.of_nat (length q) * width) by nia.
  bcase.
  - apply IH; [|done| | |rewrite length_app; lia|lia].
    + eapply Forall_perm; [|exact HP]. rewrite Hqp, <- app_assoc. done.
    + intros ->. simpl in *. lia.
    + intros ->. simpl in *. nia.
  - exists (q ++ r). split; [done|]. destruct r; [by rewrite app_nil_r|]. simpl in *. nia.
Qed.

End qsort.

Lemma qsort_perm {A} (comp : A -> A -> Z) (width : Z) (base : list A) : 0 < width ->
  exists base', qsort comp width base (Z.of_nat (length base)) = Some base' /\ base' ≡ₚ base.
Proof.
  intros Hw. unfold qsort. rewrite (proj2 (Z.ltb_lt 0 width) Hw), andb_true_r.
  bcase; [|by eexists].
  destruct (first_gap_spec (S (Z.to_nat (Z.of_nat (length base)))) 0 (Z.of_nat (length base)))
    as (g & -> & Hg & Hgn); [by left..|done|lia|]. cbn [mbind option_bind].
  destruct (passes_spec comp width Hw g Hg (S (Z.to_nat (g * width))) base
    (Z.of_nat (length base))) as (b1 & b2 & -> & Hb1 & Hp); [done..|lia|].
  exists b2. split; [done|].
  destruct (pass_perm comp width Hw (S (Z.to_nat (Z.of_nat (length base) * width))) b1 1 1
    (Z.of_nat (length base))) as (b & Hb & Hbp); [lia..| |nia|].
  { by rewrite Hb1. }
  rewrite Z.mul_1_l in Hb. rewrite Hp in Hb. simplify_eq. by rewrite Hbp.
Qed.

Lemma qsort_sorted {A} (comp : A -> A -> Z) (width : Z) (base : list A) : 0 < width ->
  (forall a b c, a ∈ base -> b ∈ base -> c ∈ base -> le comp a b -> le comp b c -> le comp a c) ->
  (forall a b, a ∈ base -> b ∈ base -> le comp a b \/ le comp b a) ->
  exists base', qsort comp width base (Z.of_nat (length base)) = Some base' /\
    StronglySorted (le comp) base'.
Proof.
  intros Hw Htr Hto. unfold qsort. rewrite (proj2 (Z.ltb_lt 0 width) Hw), andb_true_r. bcase.
  - destruct (first_gap_spec (S (Z.to_nat (Z.of_nat (length base)))) 0 (Z.of_nat (length base)))
      as (g & -> & Hg & Hgn); [by left..|done|lia|]. cbn [mbind option_bind].
    destruct (passes_spec comp width Hw g Hg (S (Z.to_nat (g * width))) base
      (Z.of_nat (length base))) as (b1 & b2 & -> & Hb1 & Hp); [done..|lia|].
    exists b2. split; [done|]. pose proof Hb1 as Hl1. apply Permutation_length in Hl1.
    destruct b1 as [|x [|y b1]]; simpl in Hl1; try lia.
    destruct (pass_sorted comp width Hw (.∈ base) Htr Hto (S (Z.to_nat (Z.of_nat (length base) * width)))
      [x] (y :: b1) (Z.of_nat (length base))) as (b & Hb & Hs);
      [|by repeat constructor|done..|simpl; lia|simpl; nia|].
    { apply Forall_forall. intros a Ha. by rewrite <- Hb1. }
    simpl length in Hb. rewrite Z.mul_1_l in Hb. cbn [app] in Hb. rewrite Hp in Hb. by simplify_eq.
  - exists base. split; [done|]. destruct base as [|x [|y base]]; simpl in *; [constructor| |lia].
    by repeat constructor.
Qed.

(** ** Properties *)

(** [qsort] never leaves the array, always terminates, and permutes the
    elements, whatever the comparison function returns. *)
Theorem qsort_permutes {A} (comp : A -> A -> Z) (width : Z) (base : list A) : 0 < width ->
  exists base', qsort comp width base (Z.of_nat (length base)) = Some base' /\ base' ≡ₚ base.
Proof. apply qsort_perm. Qed.

(** With a comparison function that is a total preorder on the elements
    of the array, the result of
    [qsort] is sorted. *)
Theorem qsort_sorts {A} (comp : A -> A -> Z) (width : Z) (base : list A) : 0 < width ->
  (forall a b c, a ∈ base -> b ∈ base -> c ∈ base -> le comp a b -> le comp b c -> le comp a c) ->
  (forall a b, a ∈ base -> b ∈ base -> le comp a b \/ le comp b a) ->
  exists base', qsort comp width base (Z.of_nat (length base)) = Some base' /\
    StronglySorted (le comp) base'.
Proof. apply qsort_sorted. Qed.

Lemma qsort_permutes_witness :
  exists l, qsort Z.sub 8 [5; 3; 9; 1; 1; 7] 6 = Some l /\ l ≡ₚ [5; 3; 9; 1; 1; 7].
Proof. apply (qsort_permutes Z.sub 8 [5; 3; 9; 1; 1; 7]). lia. Defined.

Lemma qsort_sorts_witness :
  exists l, qsort Z.sub 8 [5; 3; 9; 1; 1; 7] 6 = Some l /\ StronglySorted (le Z.sub) l.
Proof.
  apply (qsort_sorts Z.sub 8 [5; 3; 9; 1; 1; 7]); [|intros ??????|intros ????]; unfold le; lia.
Defined.

End Qsort.
