(* ===== verification/Hashtable.v ===== *)
(** * The environment hash table (lib/hashtable.c, include/search.h)

    Open addressing with double hashing.  The table is an array of
    [size + 1] slots; slot 0 is never used; [used] is 0 for a slot that was
    never used, -1 for a deleted one and the first hash value of the key
    otherwise.

    Key and data are owned strings: the model keeps their values.  [None] in
    [key] or [data] is a pointer that may not be dereferenced (NULL, or freed
    by [_hdelete]).  An operation that dereferences such a pointer, leaves the
    table, or divides by zero is [None]; every other outcome, errors included,
    is [Some] of a result with the returned [int], [*retval] (the index of the
    slot it points into), the value stored to [errno] if any, and the table.

    String comparison is [CString.strcmp_str]/[strncmp_str], which the lemmas
    of [CString] show to be what [strcmp]/[strncmp] compute. *)

From S2P Require Import Prelude Ctype CString Qsort.
From Stdlib Require Import Zdivisibility.

Module Hashtable.
Import CString.

Inductive env_op := env_op_create | env_op_delete | env_op_overwrite.

Inductive ACTION := FIND | ENTER.

Definition callback_fn := bytes -> option bytes -> env_op -> Z -> Z.

Record ENTRY := mkENTRY {
  key : option bytes;
  data : option bytes;
  callback : option callback_fn;
  flags : Z }.

Record _ENTRY := mk_ENTRY { used : Z; entry : ENTRY }.

Record hsearch_data := mkH {
  table : option (list _ENTRY);
  size : Z;
  filled : Z;
  change_ok : option (ENTRY -> option bytes -> env_op -> Z -> Z) }.

Definition ESRCH := 3.
Definition EPERM := 1.
Definition ENOMEM := 12.
Definition EINVAL := 22.

Definition CONFIG_ENV_MIN_ENTRIES := 64.
Definition CONFIG_ENV_MAX_ENTRIES := 512.

Definition H_NOCLEAR := 1.
Definition H_FORCE := 2.
Definition H_INTERACTIVE := 4.
Definition H_HIDE_DOT := 8.
Definition H_MATCH_KEY := 16.
Definition H_MATCH_DATA := 32.
Definition H_MATCH_IDENT := 64.
Definition H_MATCH_SUBSTR := 128.
Definition H_MATCH_REGEX := 256.
Definition H_MATCH_METHOD := 448.

(** What the table needs from the rest of the program: whether the allocator
    can serve a request, and the two initialisers of common/env_callback.c and
    common/env_flags.c, which set the corresponding field of a new entry. *)
Class Hooks := {
  malloc_ok : hsearch_data -> Z -> bool;
  env_callback_init : hsearch_data -> ENTRY -> option callback_fn;
  env_flags_init : hsearch_data -> ENTRY -> Z }.

Record hret := mkR { h_ret : Z; h_retval : option Z; h_errno : option Z; h_htab : hsearch_data }.

(** An error return: [*retval = NULL], [errno] set, 0 returned. *)
Definition fail (e : Z) (h : hsearch_data) : hret := mkR 0 None (Some e) h.

Definition empty_entry : ENTRY := mkENTRY None None None 0.
Definition empty_slot : _ENTRY := mk_ENTRY 0 empty_entry.

Definition slot (h : hsearch_data) (i : Z) : option _ENTRY := t ← table h; zget t i.

Definition set_slot (h : hsearch_data) (i : Z) (s : _ENTRY) : option hsearch_data :=
  t ← table h; t' ← zset t i s; Some (mkH (Some t') (size h) (filled h) (change_ok h)).

Definition set_filled (h : hsearch_data) (n : Z) : hsearch_data :=
  mkH (table h) (size h) n (change_ok h).

(** ** Creation *)

(** [while (div * div < number && number % div != 0) div += 2;] *)
Fixpoint isprime_loop (fuel : nat) (number div : Z) : option Z :=
  match fuel with
  | O => None
  | S fuel' =>
      if (u32 (div * div) <? number) && negb (number mod div =? 0)
      then isprime_loop fuel' number (u32 (div + 2))
      else Some div
  end.

Definition isprime (number : Z) : option bool :=
  div ← isprime_loop (S (Z.to_nat number)) number 3; Some (negb (number mod div =? 0)).

(** [while (!isprime(nel)) nel += 2;] *)
Fixpoint next_prime (fuel : nat) (nel : Z) : option Z :=
  match fuel with
  | O => None
  | S fuel' => p ← isprime (u32 nel); if p : bool then Some nel else next_prime fuel' (u64 (nel + 2))
  end.

Section ops.
Context `{Hooks}.

(** Returns the result and the table; [htab] itself is not NULL here. *)
Definition hcreate_r (nel : Z) (h : hsearch_data) : option (Z * hsearch_data) :=
  match table h with
  | Some _ => Some (0, h)
  | None =>
      let nel := Z.lor nel 1 in
      nel ← next_prime (S (Z.to_nat nel)) nel;
      let size := u32 nel in
      if malloc_ok h (u32 (size + 1) * 40) then
        Some (1, mkH (Some (replicate (Z.to_nat (size + 1)) empty_slot)) size 0 (change_ok h))
      else Some (0, mkH None size 0 (change_ok h))
  end.

(** The scan of [hdestroy_r]: the slots whose key and data are freed. *)
Fixpoint destroy_loop (n : nat) (h : hsearch_data) (i : Z) : option (list Z) :=
  match n with
  | O => Some []
  | S n' =>
      s ← slot h i;
      r ← destroy_loop n' h (i + 1);
      Some (if 0 <? used s then i :: r else r)
  end.

Definition hdestroy_r (h : hsearch_data) : option (list Z * hsearch_data) :=
  fr ← destroy_loop (Z.to_nat (size h)) h 1;
  Some (fr, mkH None (size h) (filled h) (change_ok h)).

(** ** Search *)

(** [for (idx = last_idx + 1; idx < htab->size; ++idx)] *)
Fixpoint match_loop (n : nat) (m : bytes) (h : hsearch_data) (idx : Z) : option hret :=
  if idx <? size h then
    match n with
    | O => None
    | S n' =>
        s ← slot h idx;
        if used s <=? 0 then match_loop n' m h (idx + 1)
        else
          k ← key (entry s);
          if strncmp_str (length m) m k =? 0 then Some (mkR idx (Some idx) None h)
          else match_loop n' m h (idx + 1)
    end
  else Some (fail ESRCH h).

Definition hmatch_r (m : bytes) (last_idx : Z) (h : hsearch_data) : option hret :=
  match_loop (Z.to_nat (size h)) m h (u32 (last_idx + 1)).

Definition change_rejected (h : hsearch_data) (e : ENTRY) (newval : option bytes) (op : env_op)
    (flag : Z) : bool :=
  match change_ok h with Some f => negb (f e newval op flag =? 0) | None => false end.

Definition callback_rejected (e : ENTRY) (name : bytes) (value : option bytes) (op : env_op)
    (flag : Z) : bool :=
  match callback e with Some f => negb (f name value op flag =? 0) | None => false end.

(** lib/string.c: NULL for a NULL argument or when there is no memory. *)
Definition strdup (h : hsearch_data) (s : option bytes) : option bytes :=
  s ← s; if malloc_ok h (Z.of_nat (length s) + 1) then Some s else None.

(** The branch of [_compare_and_overwrite_entry] for a matching entry. *)
Definition overwrite_entry (item : ENTRY) (action : ACTION) (h : hsearch_data) (flag idx : Z)
    (s : _ENTRY) : option hret :=
  ikey ← key item;
  match action, data item with
  | ENTER, Some _ =>
      if change_rejected h (entry s) (data item) env_op_overwrite flag then Some (fail EPERM h)
      else if callback_rejected (entry s) ikey (data item) env_op_overwrite flag
      then Some (fail EINVAL h)
      else
        let d := strdup h (data item) in
        h' ← set_slot h idx (mk_ENTRY (used s)
               (mkENTRY (key (entry s)) d (callback (entry s)) (flags (entry s))));
        match d with
        | None => Some (fail ENOMEM h')
        | Some _ => Some (mkR idx (Some idx) None h')
        end
  | _, _ => Some (mkR idx (Some idx) None h)
  end.

(** [Some None] is the -1 of the source: keep searching. *)
Definition _compare_and_overwrite_entry (item : ENTRY) (action : ACTION) (h : hsearch_data)
    (flag hval idx : Z) : option (option hret) :=
  s ← slot h idx;
  if u32 (used s) =? hval then
    ikey ← key item;
    skey ← key (entry s);
    if strcmp_str ikey skey =? 0
    then r ← overwrite_entry item action h flag idx s; Some (Some r)
    else Some None
  else Some None.

(** Frees key and data of the slot and marks it deleted. *)
Definition _hdelete (h : hsearch_data) (idx : Z) : option hsearch_data :=
  h' ← set_slot h idx (mk_ENTRY (-1) empty_entry);
  Some (set_filled h' (u32 (filled h - 1))).

(** The hash of the string: [hval = len; while (count-- > 0) ...]. *)
Fixpoint hash_chars (s : bytes) (hval : Z) : Z :=
  match s with
  | [] => hval
  | c :: s' => u32 (u32 (Z.shiftl (hash_chars s' hval) 4) + c)
  end.

(** First hash function: take the remainder but prevent zero. *)
Definition hash1 (n : Z) (s : bytes) : Z :=
  let hval := hash_chars s (u32 (Z.of_nat (length s))) mod n in
  if hval =? 0 then hval + 1 else hval.

Definition hash2 (n hval : Z) : Z := 1 + hval mod u32 (n - 2).

Definition next_idx (n hval2 idx : Z) : Z :=
  if idx <=? hval2 then u32 (n + idx - hval2) else idx - hval2.

Inductive probe_result := Found (r : hret) | Free (idx : Z).

(** The [do ... while (htab->table[idx].used)] of [hsearch_r]. *)
Fixpoint probe_loop (fuel : nat) (item : ENTRY) (action : ACTION) (h : hsearch_data)
    (flag hval hval2 idx : Z) : option probe_result :=
  match fuel with
  | O => None
  | S fuel' =>
      let idx := next_idx (size h) hval2 idx in
      if idx =? hval then Some (Free idx)
      else
        r ← _compare_and_overwrite_entry item action h flag hval idx;
        match r with
        | Some r => Some (Found r)
        | None =>
            s ← slot h idx;
            if used s =? 0 then Some (Free idx)
            else probe_loop fuel' item action h flag hval hval2 idx
        end
  end.

(** The end of [hsearch_r], from "An empty bucket has been found". *)
Definition hsearch_new (item : ENTRY) (action : ACTION) (h : hsearch_data)
    (flag hval first_deleted idx : Z) : option hret :=
  match action with
  | FIND => Some (fail ESRCH h)
  | ENTER =>
      if filled h =? size h then Some (fail ENOMEM h)
      else
        let idx := if negb (first_deleted =? 0) then first_deleted else idx in
        s ← slot h idx;
        ikey ← key item;
        let k := strdup h (key item) in
        let d := strdup h (data item) in
        let e := mkENTRY k d (callback (entry s)) (flags (entry s)) in
        h1 ← set_slot h idx (mk_ENTRY (s32 hval) e);
        match k, d with
        | Some _, Some _ =>
            let h1 := set_filled h1 (u32 (filled h1 + 1)) in
            let e := mkENTRY k d (env_callback_init h1 e) (flags e) in
            h2 ← set_slot h1 idx (mk_ENTRY (s32 hval) e);
            let e := mkENTRY k d (callback e) (env_flags_init h2 e) in
            h3 ← set_slot h2 idx (mk_ENTRY (s32 hval) e);
            if change_rejected h3 e (data item) env_op_create flag then
              h4 ← _hdelete h3 idx; Some (fail EPERM h4)
            else if callback_rejected e ikey (data item) env_op_create flag then
              h4 ← _hdelete h3 idx; Some (fail EINVAL h4)
            else Some (mkR 1 (Some idx) None h3)
        | _, _ => Some (fail ENOMEM h1)
        end
  end.

Definition hsearch_r (item : ENTRY) (action : ACTION) (h : hsearch_data) (flag : Z) : option hret :=
  ikey ← key item;
  if size h =? 0 then None
  else
    let hval := hash1 (size h) ikey in
    s ← slot h hval;
    if negb (used s =? 0) then
      let first_deleted := if used s =? -1 then hval else 0 in
      r ← _compare_and_overwrite_entry item action h flag hval hval;
      match r with
      | Some r => Some r
      | None =>
          if u32 (size h - 2) =? 0 then None
          else
            p ← probe_loop (Z.to_nat (size h)) item action h flag hval
                  (hash2 (size h) hval) hval;
            match p with
            | Found r => Some r
            | Free idx => hsearch_new item action h flag hval first_deleted idx
            end
      end
    else hsearch_new item action h flag hval 0 hval.

(** ** Deletion *)

(** [e.data] is uninitialised in the source; the search does not read it. *)
Definition hdelete_r (k : bytes) (h : hsearch_data) (flag : Z) : option (Z * option Z * hsearch_data) :=
  r ← hsearch_r (mkENTRY (Some k) None None 0) FIND h 0;
  if h_ret r =? 0 then Some (0, Some ESRCH, h_htab r)
  else
    let h := h_htab r in
    ep ← h_retval r;
    e ← slot h ep;
    if change_rejected h (entry e) None env_op_delete flag then Some (0, Some EPERM, h)
    else
      s ← slot h (h_ret r);
      if callback_rejected (entry s) k None env_op_delete flag then Some (0, Some EINVAL, h)
      else h' ← _hdelete h (h_ret r); Some (1, None, h').

(** ** Walking *)

(** The callback may change the entry; a non-zero result stops the walk. *)
Fixpoint walk_loop (n : nat) (cb : ENTRY -> Z * ENTRY) (h : hsearch_data) (i : Z) :
    option (Z * hsearch_data) :=
  match n with
  | O => Some (0, h)
  | S n' =>
      s ← slot h i;
      if 0 <? used s then
        let '(retval, e) := cb (entry s) in
        h' ← set_slot h i (mk_ENTRY (used s) e);
        if negb (retval =? 0) then Some (retval, h') else walk_loop n' cb h' (i + 1)
      else walk_loop n' cb h (i + 1)
  end.

Definition hwalk_r (h : hsearch_data) (cb : ENTRY -> Z * ENTRY) : option (Z * hsearch_data) :=
  walk_loop (Z.to_nat (size h)) cb h 1.

End ops.

(** ** The probe sequence *)

(** The [j]-th slot index that [hsearch_r] visits for a first hash [hval]. *)
Definition probe (n hval : Z) (j : nat) : Z := Nat.iter j (next_idx n (hash2 n hval)) hval.

Section probe.
Context (n : Z) (Hprime : Z.prime n) (Hn : 5 <= n < 2 ^ 31).
Context (hval : Z) (Hhval : 1 <= hval < n).

Lemma hash2_range : 1 <= hash2 n hval <= n - 2.
Proof.
  unfold hash2. rewrite wrap_small by lia.
  pose proof (Z.mod_pos_bound hval (n - 2) ltac:(lia)). lia.
Qed.

Lemma next_idx_spec idx : 1 <= idx <= n ->
  1 <= next_idx n (hash2 n hval) idx <= n /\
  exists c, next_idx n (hash2 n hval) idx = idx - hash2 n hval + c * n.
Proof.
  intros Hi. pose proof hash2_range. unfold next_idx. bcase.
  - rewrite wrap_small by lia. split; [lia|]. exists 1. lia.
  - split; [lia|]. exists 0. lia.
Qed.

Lemma probe_spec j : 1 <= probe n hval j <= n /\
  exists c, probe n hval j = hval - Z.of_nat j * hash2 n hval + c * n.
Proof.
  induction j as [|j [Hr [c Hc]]].
  - unfold probe. simpl. split; [lia|]. exists 0. lia.
  - unfold probe in *. rewrite Nat.iter_succ.
    destruct (next_idx_spec _ Hr) as [Hr' [c' Hc']]. split; [done|].
    exists (c + c'). rewrite Hc', Hc. lia.
Qed.

Lemma probe_S j : probe n hval (S j) = next_idx n (hash2 n hval) (probe n hval j).
Proof. apply Nat.iter_succ. Qed.

(** Equal modulo [n] and both in [1..n]. *)
Lemma mod_range_eq a b c : 1 <= a <= n -> 1 <= b <= n -> a = b + c * n -> a = b.
Proof. intros. assert (c = 0) by nia. lia. Qed.

(** "Because SIZE is prime this guarantees to step through all available
    indices": the first [n] probes are pairwise different ... *)
Lemma probe_inj i j : (i < j)%nat -> (j < Z.to_nat n)%nat -> probe n hval i <> probe n hval j.
Proof.
  intros Hij Hj He. destruct (probe_spec i) as [_ [c Hc]]. destruct (probe_spec j) as [_ [d Hd]].
  assert (Hdiv : (n | hash2 n hval * Z.of_nat (j - i))).
  { exists (d - c). rewrite Nat2Z.inj_sub by lia. lia. }
  pose proof hash2_range.
  apply Z.divide_prime_mul in Hdiv as [Hk|Hk]; [| | done]; apply Z.divide_pos_le in Hk; lia.
Qed.

(** ... the [n]-th one is the first again ... *)
Lemma probe_wraps : probe n hval (Z.to_nat n) = hval.
Proof.
  destruct (probe_spec (Z.to_nat n)) as [Hr [c Hc]].
  apply (mod_range_eq _ _ (c - hash2 n hval)); [done|lia|]. lia.
Qed.

(** ... and every index is among them. *)
Lemma probe_covers i : 1 <= i <= n -> exists j, (j < Z.to_nat n)%nat /\ probe n hval j = i.
Proof.
  intros Hi. pose proof hash2_range.
  destruct (Z.Bezout_coprime n (hash2 n hval)) as (v & u & Huv).
  { apply Z.coprime_prime_small; [done|lia]. }
  exists (Z.to_nat (((hval - i) * u) mod n)).
  pose proof (Z.mod_pos_bound ((hval - i) * u) n ltac:(lia)).
  split; [lia|]. destruct (probe_spec (Z.to_nat (((hval - i) * u) mod n))) as [Hr [c Hc]].
  rewrite Z2Nat.id in Hc by lia. pose proof (Z.div_mod ((hval - i) * u) n ltac:(lia)) as Hdm.
  set (r := ((hval - i) * u) mod n) in *. set (q := ((hval - i) * u) / n) in *.
  apply (mod_range_eq _ _ (c + v * (hval - i) + q * hash2 n hval)); [done..|]. rewrite Hc. nia.
Qed.

End probe.

(** ** Invariant and abstraction *)

(** The slot holds the variable [k] with the value [d]. *)
Definition holds (s : _ENTRY) (k d : bytes) : Prop :=
  0 < used s /\ key (entry s) = Some k /\ data (entry s) = Some d.

(** Slot [i] is on the probe sequence of [hval], behind used slots only. *)
Definition reachable (h : hsearch_data) (hval i : Z) : Prop :=
  exists j, (j < Z.to_nat (size h))%nat /\ probe (size h) hval j = i /\
    forall j', (j' < j)%nat ->
      exists s, slot h (probe (size h) hval j') = Some s /\ used s <> 0.

Definition live_ok (h : hsearch_data) (i : Z) (s : _ENTRY) : Prop :=
  exists k d, holds s k d /\ cstr_ok k /\ cstr_ok d /\ used s = hash1 (size h) k /\
    reachable h (hash1 (size h) k) i.

Definition is_live (s : _ENTRY) : bool := 0 <? used s.
Definition is_used (s : _ENTRY) : bool := negb (used s =? 0).

Fixpoint count {A} (f : A -> bool) (l : list A) : Z :=
  match l with [] => 0 | x :: l' => Z.b2z (f x) + count f l' end.

Record wf (h : hsearch_data) : Prop := {
  wf_prime : Z.prime (size h);
  wf_size : 5 <= size h < 2 ^ 31;
  wf_table : exists t, table h = Some t /\ length t = S (Z.to_nat (size h)) /\
    filled h = count is_live t;
  wf_zero : exists s, slot h 0 = Some s /\ used s = 0;
  wf_slot : forall i s, slot h i = Some s -> used s = 0 \/ used s = -1 \/ live_ok h i s;
  wf_unique : forall i j s s' k d d', slot h i = Some s -> slot h j = Some s' ->
    holds s k d -> holds s' k d' -> i = j }.

(** The table [h] implements the map [m] from names to values. *)
Definition rep (h : hsearch_data) (m : gmap bytes bytes) : Prop :=
  wf h /\ forall k d, m !! k = Some d <-> exists i s, slot h i = Some s /\ holds s k d.

(** A slot that was never used is left: a search for an absent key stops there. *)
Definition has_free (h : hsearch_data) : Prop :=
  exists i s, 1 <= i <= size h /\ slot h i = Some s /\ used s = 0.

(** How many slots have been used, deleted ones included. *)
Definition consumed (h : hsearch_data) : Z :=
  match table h with Some t => count is_used t | None => 0 end.

(** *** Lemmas on counts and slots *)

Lemma count_insert {A} (f : A -> bool) (l : list A) i x y : l !! i = Some x ->
  count f (<[i := y]> l) = count f l - Z.b2z (f x) + Z.b2z (f y).
Proof.
  revert i. induction l as [|z l IH]; intros [|i] Hi; simplify_eq/=; [lia|].
  rewrite (IH _ Hi). lia.
Qed.

Lemma count_full {A} (f : A -> bool) (l : list A) :
  (forall x, x ∈ l -> f x = true) -> count f l = Z.of_nat (length l).
Proof.
  induction l as [|x l IH]; intros Hl; simpl; [done|].
  rewrite Hl, IH; [simpl; lia | | left]. intros y Hy. apply Hl. by right.
Qed.

Lemma count_bounds {A} (f : A -> bool) (l : list A) : 0 <= count f l <= Z.of_nat (length l).
Proof. induction l as [|x l IH]; simpl; [lia|]. destruct (f x); simpl; lia. Qed.

Lemma count_le {A} (f g : A -> bool) (l : list A) :
  (forall x, f x = true -> g x = true) -> count f l <= count g l.
Proof.
  intros Hfg. induction l as [|x l IH]; simpl; [lia|].
  destruct (f x) eqn:E; [rewrite (Hfg _ E); simpl; lia|]. destruct (g x); simpl; lia.
Qed.

Definition upd (h : hsearch_data) (i : Z) (s : _ENTRY) : hsearch_data :=
  mkH ((fun t => <[Z.to_nat i := s]> t) <$> table h) (size h) (filled h) (change_ok h).

Lemma slot_Some h i s : slot h i = Some s <->
  exists t, table h = Some t /\ 0 <= i /\ t !! Z.to_nat i = Some s.
Proof.
  unfold slot. destruct (table h) as [t|]; simpl.
  - rewrite zget_Some. naive_solver.
  - naive_solver.
Qed.

Lemma set_slot_upd h i s0 s : slot h i = Some s0 -> set_slot h i s = Some (upd h i s).
Proof.
  intros (t & Ht & Hi & Hs)%slot_Some. unfold set_slot, upd. rewrite Ht. simpl.
  rewrite zset_in; [done|]. apply lookup_lt_Some in Hs. lia.
Qed.

Lemma slot_upd h i j s0 s : slot h i = Some s0 ->
  slot (upd h i s) j = if decide (j = i) then Some s else slot h j.
Proof.
  intros (t & Ht & Hi & Hs)%slot_Some. unfold slot, upd. rewrite Ht. simpl. unfold zget.
  apply lookup_lt_Some in Hs. bcase; [|by rewrite decide_False by lia].
  case_decide as Hj; [subst; by rewrite list_lookup_insert_eq|].
  apply list_lookup_insert_ne. lia.
Qed.

Lemma slot_upd_eq h i s0 s : slot h i = Some s0 -> slot (upd h i s) i = Some s.
Proof. intros Hs. by rewrite (slot_upd _ _ _ _ _ Hs), decide_True by done. Qed.

Lemma slot_set_filled h f j : slot (set_filled h f) j = slot h j.
Proof. done. Qed.

Lemma upd_upd h i s s' : upd (upd h i s) i s' = upd h i s'.
Proof.
  unfold upd. simpl. f_equal. destruct (table h); simpl; [|done].
  by rewrite list_insert_insert_eq.
Qed.

Lemma wf_slot_some h i : wf h -> 0 <= i <= size h -> exists s, slot h i = Some s.
Proof.
  intros [_ Hsz (t & Ht & Hl & _) _ _ _] Hi.
  destruct (lookup_lt_is_Some_2 t (Z.to_nat i)) as [s Hs]; [lia|].
  exists s. apply slot_Some. exists t. split; [done|]. split; [lia|done].
Qed.

Lemma hash1_range n k : 2 <= n -> 1 <= hash1 n k < n.
Proof.
  intros Hn. unfold hash1. cbv zeta.
  pose proof (Z.mod_pos_bound (hash_chars k (u32 (Z.of_nat (length k)))) n ltac:(lia)).
  bcase; lia.
Qed.

Lemma wf_hash1 h k : wf h -> 1 <= hash1 (size h) k < size h.
Proof. intros Hw. apply hash1_range. pose proof (wf_size _ Hw). lia. Qed.

Lemma wf_probe_inj h k i j : wf h -> (i < Z.to_nat (size h))%nat -> (j < Z.to_nat (size h))%nat ->
  probe (size h) (hash1 (size h) k) i = probe (size h) (hash1 (size h) k) j -> i = j.
Proof.
  intros Hw Hi Hj He. destruct (lt_eq_lt_dec i j) as [[Hlt|]|Hlt]; [|done|]; exfalso;
    eapply (probe_inj (size h)); eauto using wf_prime, wf_size, wf_hash1.
Qed.

Lemma wf_probe_range h k j : wf h -> 1 <= probe (size h) (hash1 (size h) k) j <= size h.
Proof. intros Hw. apply probe_spec; auto using wf_prime, wf_size, wf_hash1. Qed.

Lemma wf_holds h i s k d : wf h -> slot h i = Some s -> holds s k d ->
  cstr_ok k /\ cstr_ok d /\ used s = hash1 (size h) k /\ reachable h (hash1 (size h) k) i.
Proof.
  intros Hw Hs Hh. destruct (wf_slot _ Hw _ _ Hs) as [Hu|[Hu|(k' & d' & Hh' & ? & ? & ? & ?)]].
  - destruct Hh; lia.
  - destruct Hh; lia.
  - destruct Hh as (_ & Hk & Hd). destruct Hh' as (_ & Hk' & Hd'). simplify_eq. done.
Qed.

Lemma reachable_range h k i : wf h -> reachable h (hash1 (size h) k) i -> 1 <= i <= size h.
Proof. intros Hw (j & _ & <- & _). by apply wf_probe_range. Qed.

Lemma rep_lookup h m i s k d : rep h m -> slot h i = Some s -> holds s k d -> m !! k = Some d.
Proof. intros [_ Hm] Hs Hh. apply Hm. eauto. Qed.

(** Only filling slots keeps what is reachable. *)
Lemma reachable_upd h i s s' f hval k : slot h i = Some s -> used s' <> 0 ->
  reachable h hval k -> reachable (set_filled (upd h i s') f) hval k.
Proof.
  intros Hs Hu (j & Hj & Hp & Hall). exists j. split; [done|]. split; [done|].
  intros j' Hj'. destruct (Hall j' Hj') as (sj & Hsj & Huj). change (size (set_filled _ _)) with (size h).
  rewrite slot_set_filled, (slot_upd _ _ _ _ _ Hs). case_decide; eauto.
Qed.

(** *** The update lemma

    Replacing slot [i] by a used slot [s'] keeps the invariant, and the map
    becomes: what [s'] holds, and what the other slots held. *)
Lemma rep_update h m m' i s s' f : rep h m -> 1 <= i -> slot h i = Some s ->
  used s' = -1 \/
    live_ok h i s' /\
    (forall k d, holds s' k d -> forall j sj dj, slot h j = Some sj -> holds sj k dj -> j = i) ->
  f = filled h - Z.b2z (is_live s) + Z.b2z (is_live s') ->
  (forall k d, m' !! k = Some d <->
    holds s' k d \/ (m !! k = Some d /\ forall d', ~ holds s k d')) ->
  rep (set_filled (upd h i s') f) m'.
Proof.
  intros [Hw Hm] Hi Hs Hok Hf Hm'.
  assert (Hu : used s' <> 0).
  { destruct Hok as [->|[(k & d & [? _] & _) _]]; lia. }
  pose proof (slot_upd h i) as Hsl.
  split; [split|].
  - apply Hw.
  - apply Hw.
  - destruct (wf_table _ Hw) as (t & Ht & Hl & Hc). exists (<[Z.to_nat i := s']> t).
    simpl. rewrite Ht. split; [done|]. split; [by rewrite length_insert|].
    apply slot_Some in Hs as (t' & Ht' & _ & Hs). simplify_eq.
    by rewrite (count_insert _ _ _ _ _ Hs), <- Hc.
  - destruct (wf_zero _ Hw) as (s0 & Hs0 & Hu0). exists s0.
    rewrite slot_set_filled, (Hsl _ _ _ Hs), decide_False by lia. done.
  - intros j sj. rewrite slot_set_filled, (Hsl _ _ _ Hs). case_decide as Hj.
    + intros [= <-]. right. destruct Hok as [?|[(k & d & Hh & ? & ? & ? & Hr) _]]; [by left|right].
      exists k, d. subst j. repeat (split; [done|]). by eapply reachable_upd.
    + intros Hsj. destruct (wf_slot _ Hw _ _ Hsj) as [|[|(k & d & ? & ? & ? & ? & Hr)]]; auto.
      right. right. exists k, d. repeat (split; [done|]). by eapply reachable_upd.
  - intros j1 j2 s1 s2 k d1 d2. rewrite !slot_set_filled, !(Hsl _ _ _ Hs).
    assert (Hnew : forall j sj d dj, holds s' k d -> slot h j = Some sj -> holds sj k dj -> j = i).
    { intros j sj d dj Hh Hsj Hhj. destruct Hok as [Hm1|[_ Hun]]; [destruct Hh; lia|eauto]. }
    repeat case_decide; intros ?? Hh1 Hh2; simplify_eq; [done| | |].
    + symmetry. by eapply Hnew.
    + by eapply Hnew.
    + by eapply (wf_unique _ Hw).
  - intros k d. rewrite Hm', Hm. split.
    + intros [Hh|[(j & sj & Hsj & Hhj) Hno]].
      * exists i, s'. by rewrite slot_set_filled, (Hsl _ _ _ Hs), decide_True.
      * exists j, sj. rewrite slot_set_filled, (Hsl _ _ _ Hs), decide_False; [done|].
        intros ->. simplify_eq. by apply (Hno d).
    + intros (j & sj & Hsj & Hhj). rewrite slot_set_filled, (Hsl _ _ _ Hs) in Hsj.
      case_decide; simplify_eq; [by left|right]. split; [by eauto|].
      intros d' Hh. by pose proof (wf_unique _ Hw _ _ _ _ _ _ _ Hsj Hs Hhj Hh).
Qed.

(** *** Lemmas on the search *)

Section search.
Context `{Hooks} (h : hsearch_data) (m : gmap bytes bytes) (Hrep : rep h m).
Context (item : ENTRY) (k : bytes) (Hkey : key item = Some k) (Hk : cstr_ok k).
Context (action : ACTION) (flag : Z).

#[local] Abbreviation n := (size h).
#[local] Abbreviation hv := (hash1 (size h) k).
#[local] Abbreviation compare := (_compare_and_overwrite_entry item action h flag hv).

#[local] Definition Hwf : wf h := proj1 Hrep.

(** [used] as the unsigned value the comparison sees. *)
Lemma used_is_hval i s : slot h i = Some s -> u32 (used s) = hv -> 0 < used s.
Proof.
  intros Hs Hu. pose proof (wf_hash1 h k Hwf). pose proof (wf_size h Hwf).
  destruct (wf_slot _ Hwf _ _ Hs) as [E|[E|(? & ? & [? _] & _)]]; [| |done]; rewrite E in Hu.
  - change (u32 0) with 0 in Hu. lia.
  - change (u32 (-1)) with (2 ^ 32 - 1) in Hu. lia.
Qed.

Lemma compare_miss i s : slot h i = Some s -> (forall d, ~ holds s k d) -> compare i = Some None.
Proof.
  intros Hs Hno. unfold _compare_and_overwrite_entry. rewrite Hs. cbn [mbind option_bind].
  bcase; [|done]. rewrite Hkey. cbn [mbind option_bind].
  pose proof (used_is_hval _ _ Hs E) as Hpos.
  destruct (wf_slot _ Hwf _ _ Hs) as [|[|(k' & d' & Hh & Hk' & _)]]; [lia..|].
  pose proof Hh as (_ & -> & _). cbn [mbind option_bind]. bcase; [|done].
  apply strcmp_str_zero in E0; [subst|done..]. by destruct (Hno d').
Qed.

Lemma compare_hit i s d : slot h i = Some s -> holds s k d ->
  compare i = r ← overwrite_entry item action h flag i s; Some (Some r).
Proof.
  intros Hs Hh. unfold _compare_and_overwrite_entry. rewrite Hs. cbn [mbind option_bind].
  destruct (wf_holds _ _ _ _ _ Hwf Hs Hh) as (_ & _ & Hu & _).
  pose proof (wf_hash1 h k Hwf). pose proof (wf_size h Hwf).
  rewrite wrap_small by lia. rewrite Hu, Z.eqb_refl, Hkey. cbn [mbind option_bind].
  destruct Hh as (_ & -> & _). cbn [mbind option_bind].
  by rewrite (proj2 (strcmp_str_zero k k Hk Hk) eq_refl).
Qed.

Lemma probe_loop_hit i s d J : slot h i = Some s -> holds s k d ->
  (J < Z.to_nat n)%nat -> probe n hv J = i ->
  (forall j', (j' < J)%nat -> exists s, slot h (probe n hv j') = Some s /\ used s <> 0) ->
  forall fuel c, (c < J)%nat -> (J - c <= fuel)%nat ->
  probe_loop fuel item action h flag hv (hash2 n hv) (probe n hv c) =
    r ← overwrite_entry item action h flag i s; Some (Found r).
Proof.
  intros Hs Hh HJ HJi Hall. induction fuel as [|fuel IH]; intros c Hc Hf; [lia|].
  cbn [probe_loop]. rewrite <- probe_S.
  assert ((probe n hv (S c) =? hv) = false) as ->.
  { apply Z.eqb_neq. intros E. apply (wf_probe_inj h k (S c) 0 Hwf) in E; lia. }
  destruct (decide (S c = J)) as [E|E].
  - rewrite E, HJi, (compare_hit _ _ _ Hs Hh).
    by destruct (overwrite_entry item action h flag i s).
  - destruct (Hall (S c)) as (s' & Hs' & Hu'); [lia|].
    rewrite (compare_miss _ _ Hs').
    + cbn [mbind option_bind]. rewrite Hs'. cbn [mbind option_bind].
      rewrite (proj2 (Z.eqb_neq _ _) Hu'). apply IH; lia.
    + intros d' Hh'. pose proof (wf_unique _ Hwf _ _ _ _ _ _ _ Hs' Hs Hh' Hh) as He.
      rewrite <- HJi in He. apply (wf_probe_inj h k _ _ Hwf) in He; lia.
Qed.

Lemma probe_loop_miss : m !! k = None -> forall fuel c,
  (c < Z.to_nat n)%nat -> (Z.to_nat n - c <= fuel)%nat ->
  (forall j, (j <= c)%nat -> exists s, slot h (probe n hv j) = Some s /\ used s <> 0) ->
  exists J, probe_loop fuel item action h flag hv (hash2 n hv) (probe n hv c) =
      Some (Free (probe n hv J)) /\ (J <= Z.to_nat n)%nat /\
    (forall j, (j < J)%nat -> exists s, slot h (probe n hv j) = Some s /\ used s <> 0) /\
    (J = Z.to_nat n \/ exists s, slot h (probe n hv J) = Some s /\ used s = 0).
Proof.
  intros Hno. induction fuel as [|fuel IH]; intros c Hc Hf Hall; [lia|].
  cbn [probe_loop]. rewrite <- probe_S.
  assert (Hall' : forall j, (j < S c)%nat -> exists s, slot h (probe n hv j) = Some s /\ used s <> 0)
    by (intros j Hj; apply Hall; lia).
  bcase.
  - exists (S c). split; [done|]. split; [lia|]. split; [done|]. left.
    destruct (decide (S c = Z.to_nat n)); [done|exfalso].
    apply (wf_probe_inj h k (S c) 0 Hwf) in E; lia.
  - destruct (wf_slot_some h (probe n hv (S c)) Hwf) as [s Hs].
    { pose proof (wf_probe_range h k (S c) Hwf). lia. }
    rewrite (compare_miss _ _ Hs).
    2:{ intros d Hh. by rewrite (rep_lookup _ _ _ _ _ _ Hrep Hs Hh) in Hno. }
    cbn [mbind option_bind]. rewrite Hs. cbn [mbind option_bind]. bcase.
    + exists (S c). split; [done|]. split; [lia|]. split; [done|]. right. eauto.
    + assert (S c <> Z.to_nat n).
      { intros HE. apply E. rewrite HE.
        apply probe_wraps; auto using wf_prime, wf_size, wf_hash1, Hwf. }
      apply IH; [lia..|]. intros j Hj. destruct (decide (j = S c)) as [->|]; [eauto|apply Hall; lia].
Qed.

Lemma size_nonzero : (n =? 0) = false /\ (u32 (n - 2) =? 0) = false.
Proof. pose proof (wf_size h Hwf). rewrite wrap_small by lia. lia. Qed.

(** A key in the map is found, wherever it is. *)
Lemma hsearch_hit d : m !! k = Some d -> exists i s, 1 <= i <= n /\ slot h i = Some s /\
  holds s k d /\ hsearch_r item action h flag = overwrite_entry item action h flag i s.
Proof.
  intros (i & s & Hs & Hh)%(proj2 Hrep). exists i, s.
  destruct (wf_holds _ _ _ _ _ Hwf Hs Hh) as (_ & _ & Hu & Hr).
  split; [by eapply reachable_range; [apply Hwf|]|]. split; [done|]. split; [done|].
  destruct Hr as (J & HJ & HJi & Hall). destruct size_nonzero as [Hz Hz2].
  unfold hsearch_r. rewrite Hkey. cbn [mbind option_bind]. rewrite Hz. cbv zeta.
  destruct J as [|J].
  - change (probe n hv 0) with hv in HJi. rewrite HJi, Hs. cbn [mbind option_bind].
    assert ((used s =? 0) = false) as -> by (destruct Hh; lia). cbn [negb].
    rewrite <- HJi at 1. rewrite (compare_hit _ _ _ Hs Hh).
    by destruct (overwrite_entry item action h flag i s).
  - destruct (Hall 0%nat) as (s0 & Hs0 & Hu0); [lia|]. change (probe n hv 0) with hv in Hs0.
    rewrite Hs0. cbn [mbind option_bind]. rewrite (proj2 (Z.eqb_neq _ _) Hu0). cbn [negb].
    rewrite (compare_miss _ _ Hs0); cbn [mbind option_bind].
    + rewrite Hz2. pose proof (probe_loop_hit i s d (S J) Hs Hh HJ HJi Hall (Z.to_nat n) 0) as Hp.
      change (probe n hv 0) with hv in Hp. rewrite Hp by lia.
      by destruct (overwrite_entry item action h flag i s).
    + intros d' Hh'. pose proof (wf_unique _ Hwf _ _ _ _ _ _ _ Hs0 Hs Hh' Hh) as He.
      rewrite <- HJi in He. change hv with (probe n hv 0) in He at 1.
      apply (wf_probe_inj h k _ _ Hwf) in He; lia.
Qed.

(** The slot [hsearch_new] would fill. *)
Definition target (first_deleted idx : Z) : Z :=
  if negb (first_deleted =? 0) then first_deleted else idx.

(** An absent key: the search ends at a slot where it can be inserted, if
    there is a slot that was never used. *)
Lemma hsearch_miss : m !! k = None -> exists fd i,
  hsearch_r item action h flag = hsearch_new item action h flag hv fd i /\
  (has_free h -> reachable h hv (target fd i) /\
     exists s, slot h (target fd i) = Some s /\ used s <= 0).
Proof.
  intros Hno. destruct size_nonzero as [Hz Hz2]. pose proof (wf_hash1 h k Hwf) as Hhv.
  assert (Hr0 : reachable h hv hv).
  { exists 0%nat. split; [lia|]. split; [done|lia]. }
  unfold hsearch_r. rewrite Hkey. cbn [mbind option_bind]. rewrite Hz. cbv zeta.
  destruct (wf_slot_some h hv Hwf) as [s0 Hs0]; [lia|]. rewrite Hs0. cbn [mbind option_bind].
  destruct (Z.eqb_spec (used s0) 0) as [E|E]; cbn [negb].
  { exists 0, hv. split; [done|]. intros _. unfold target. simpl. split; [done|].
      exists s0. split; [done|lia]. }
  rewrite (compare_miss _ _ Hs0); cbn [mbind option_bind].
  2:{ intros d Hh. by rewrite (rep_lookup _ _ _ _ _ _ Hrep Hs0 Hh) in Hno. }
  rewrite Hz2. destruct (probe_loop_miss Hno (Z.to_nat n) 0) as (J & Hp & HJn & Hall & HJ); [lia..| |].
  { intros j Hj. replace j with 0%nat by lia. change (probe n hv 0) with hv. eauto. }
  change (probe n hv 0) with hv in Hp. rewrite Hp. cbn [mbind option_bind].
  eexists _, _. split; [done|]. intros (f & sf & Hf & Hsf & Huf). unfold target.
  destruct (Z.eqb_spec (used s0) (-1)) as [E1|E1].
  - assert ((hv =? 0) = false) as -> by lia. cbn [negb]. split; [done|]. exists s0. split; [done|lia].
  - cbn [negb Z.eqb]. assert (J <> Z.to_nat n) as HJne.
    { intros ->. destruct (probe_covers n (wf_prime _ Hwf) (wf_size _ Hwf) hv Hhv f Hf) as (j & Hj & Hjf).
      destruct (Hall j Hj) as (s & Hs & Hu). rewrite Hjf in Hs. by simplify_eq. }
    destruct HJ as [?|(s & Hs & Hu)]; [done|]. split.
    + exists J. split; [lia|done].
    + exists s. split; [done|lia].
Qed.

End search.

(** *** The four updates of a slot *)

Definition tombstone : _ENTRY := mk_ENTRY (-1) empty_entry.

Lemma not_holds s k d : used s <= 0 -> ~ holds s k d.
Proof. intros Hu [? _]. lia. Qed.

Lemma is_live_holds s k d : holds s k d -> is_live s = true.
Proof. intros [? _]. unfold is_live. lia. Qed.

Lemma is_live_dead s : used s <= 0 -> is_live s = false.
Proof. unfold is_live. lia. Qed.

Lemma holds_inj s k d k' d' : holds s k d -> holds s k' d' -> k' = k /\ d' = d.
Proof. intros (_ & ? & ?) (_ & ? & ?). by simplify_eq. Qed.

Section updates.
Context (h : hsearch_data) (m : gmap bytes bytes) (Hrep : rep h m).
Context (i : Z) (s : _ENTRY) (Hs : slot h i = Some s).

Lemma rep_insert k d e : m !! k = None -> reachable h (hash1 (size h) k) i -> used s <= 0 ->
  cstr_ok k -> cstr_ok d -> key e = Some k -> data e = Some d ->
  rep (set_filled (upd h i (mk_ENTRY (hash1 (size h) k) e)) (filled h + 1)) (<[k := d]> m).
Proof.
  intros Hno Hr Hu Hk Hd Hek Hed. pose proof (proj1 Hrep) as Hw. pose proof (wf_hash1 h k Hw).
  assert (Hh : holds (mk_ENTRY (hash1 (size h) k) e) k d) by (split; simpl; [lia|done]).
  pose proof (reachable_range _ _ _ Hw Hr).
  apply (rep_update h m _ i s); [done|lia|done| | |].
  - right. split; [by exists k, d|]. intros k' d' Hh' j sj dj Hsj Hhj.
    destruct (holds_inj _ _ _ _ _ Hh Hh') as [-> ->].
    by rewrite (rep_lookup _ _ _ _ _ _ Hrep Hsj Hhj) in Hno.
  - rewrite (is_live_holds _ _ _ Hh), is_live_dead by done. simpl. lia.
  - intros k' d'. rewrite lookup_insert_Some. split.
    + intros [[<- <-]|[Hne Hm]]; [by left|right]. split; [done|].
      intros d'' Hh'. by apply not_holds in Hh'.
    + intros [Hh'|[Hm _]].
      * left. destruct (holds_inj _ _ _ _ _ Hh Hh') as [-> ->]. done.
      * right. split; [|done]. intros <-. by rewrite Hm in Hno.
Qed.

Lemma rep_tombstone : 1 <= i -> used s <= 0 -> rep (set_filled (upd h i tombstone) (filled h)) m.
Proof.
  intros Hi Hu. apply (rep_update h m _ i s); [done|lia|done|by left| |].
  - rewrite is_live_dead by done. simpl. lia.
  - intros k d. split.
    + intros Hm. right. split; [done|]. intros d' Hh. by apply not_holds in Hh.
    + intros [Hh|[? _]]; [by apply not_holds in Hh|done].
Qed.

Lemma rep_delete k d : 1 <= i -> holds s k d ->
  rep (set_filled (upd h i tombstone) (filled h - 1)) (delete k m).
Proof.
  intros Hi Hh. apply (rep_update h m _ i s); [done|lia|done|by left| |].
  - rewrite (is_live_holds _ _ _ Hh). simpl. lia.
  - intros k' d'. rewrite lookup_delete_Some. split.
    + intros [Hne Hm]. right. split; [done|]. intros d'' Hh'.
      by destruct (holds_inj _ _ _ _ _ Hh Hh').
    + intros [Hh'|[Hm Hno]]; [by apply not_holds in Hh'|].
      split; [|done]. intros <-. by apply (Hno d).
Qed.

Lemma rep_overwrite k d0 d e : holds s k d0 -> cstr_ok d -> key e = Some k -> data e = Some d ->
  rep (upd h i (mk_ENTRY (used s) e)) (<[k := d]> m).
Proof.
  intros Hh Hd Hek Hed. pose proof (proj1 Hrep) as Hw.
  destruct (wf_holds _ _ _ _ _ Hw Hs Hh) as (Hk & _ & Hu & Hr).
  assert (Hh' : holds (mk_ENTRY (used s) e) k d) by (split; [apply Hh|done]).
  change (upd h i (mk_ENTRY (used s) e)) with
    (set_filled (upd h i (mk_ENTRY (used s) e)) (filled h)).
  pose proof (reachable_range _ _ _ Hw Hr).
  apply (rep_update h m _ i s); [done|lia|done| | |].
  - right. split; [by exists k, d|]. intros k' d' Hh1 j sj dj Hsj Hhj.
    destruct (holds_inj _ _ _ _ _ Hh' Hh1) as [-> ->].
    by apply (wf_unique _ Hw _ _ _ _ _ _ _ Hsj Hs Hhj Hh).
  - rewrite (is_live_holds _ _ _ Hh), (is_live_holds _ _ _ Hh'). lia.
  - intros k' d'. rewrite lookup_insert_Some. split.
    + intros [[<- <-]|[Hne Hm]]; [by left|right]. split; [done|].
      intros d'' Hh2. by destruct (holds_inj _ _ _ _ _ Hh Hh2).
    + intros [Hh2|[Hm Hno]].
      * left. destruct (holds_inj _ _ _ _ _ Hh' Hh2) as [-> ->]. done.
      * right. split; [|done]. intros <-. by apply (Hno d0).
Qed.

(** How many slots a write consumes. *)
Lemma consumed_upd s' f : consumed (set_filled (upd h i s') f) =
  consumed h - Z.b2z (is_used s) + Z.b2z (is_used s').
Proof.
  apply slot_Some in Hs as (t & Ht & _ & Hs'). unfold consumed. simpl. rewrite Ht. simpl.
  by apply count_insert.
Qed.

End updates.

(** A table with a free slot is not full. *)
Lemma has_free_not_full h : wf h -> has_free h -> 0 <= filled h < size h.
Proof.
  intros Hw (i & s & Hi & Hs & Hu). destruct (wf_table _ Hw) as (t & Ht & Hl & ->).
  destruct (wf_zero _ Hw) as (s0 & Hs0 & Hu0).
  apply slot_Some in Hs as (t1 & Ht1 & _ & Hs). apply slot_Some in Hs0 as (t2 & Ht2 & _ & Hs0).
  assert (t1 = t) as -> by congruence. assert (t2 = t) as -> by congruence.
  set (y := mk_ENTRY 1 empty_entry).
  pose proof (count_insert is_live t 0 s0 y Hs0) as H1.
  assert (<[0%nat := y]> t !! Z.to_nat i = Some s) as Hs'
    by (rewrite list_lookup_insert_ne; [done|lia]).
  pose proof (count_insert is_live _ _ s y Hs') as H2.
  pose proof (count_bounds is_live (<[Z.to_nat i := y]> (<[0%nat := y]> t))) as H3.
  rewrite !length_insert in H3. rewrite H2, H1 in H3.
  rewrite (is_live_dead s0), (is_live_dead s) in H3 by lia. change (is_live y) with true in H3. simpl in H3.
  pose proof (count_bounds is_live t). lia.
Qed.

(** A table with unconsumed slots has a free one. *)
Lemma consumed_has_free h : wf h -> consumed h < size h -> has_free h.
Proof.
  intros Hw Hc. destruct (wf_table _ Hw) as (t & Ht & Hl & _).
  destruct (wf_zero _ Hw) as (s0 & Hs0 & Hu0). unfold consumed in Hc. rewrite Ht in Hc.
  apply slot_Some in Hs0 as (t2 & Ht2 & _ & Hs0).
  assert (t2 = t) as -> by congruence. destruct t as [|s1 t]; [done|].
  assert (s1 = s0) as -> by (simpl in Hs0; congruence). simpl in Hl, Hc.
  destruct (decide (Forall (fun s => is_used s = true) t)) as [Hall|Hex].
  - rewrite Forall_forall in Hall. rewrite (count_full is_used t Hall) in Hc.
    unfold is_used in Hc. destruct (negb _); simpl in Hc; lia.
  - apply not_Forall_Exists in Hex; [|apply _]. apply Exists_exists in Hex as (s & Hin & Hs).
    apply list_elem_of_lookup in Hin as [j Hj]. pose proof (lookup_lt_Some _ _ _ Hj).
    exists (Z.of_nat (S j)), s. split; [lia|]. split.
    + apply slot_Some. exists (s0 :: t). rewrite Nat2Z.id. split; [done|]. split; [lia|done].
    + unfold is_used in Hs. apply not_true_is_false in Hs. zbool. done.
Qed.

(** The permission checks of [hsearch_r], and the error they lead to. *)
Definition rejected (h : hsearch_data) (e : ENTRY) (k d : bytes) (op : env_op) (flag : Z) : bool :=
  change_rejected h e (Some d) op flag || callback_rejected e k (Some d) op flag.

Definition reject_errno (h : hsearch_data) (e : ENTRY) (d : bytes) (op : env_op) (flag : Z) : Z :=
  if change_rejected h e (Some d) op flag then EPERM else EINVAL.

Section enter.
Context `{Hooks} (h : hsearch_data) (m : gmap bytes bytes) (Hrep : rep h m).
Context (k d : bytes) (Hk : cstr_ok k) (Hd : cstr_ok d).
Context (Hmk : malloc_ok h (Z.of_nat (length k) + 1) = true).
Context (Hmd : malloc_ok h (Z.of_nat (length d) + 1) = true).
Context (flag : Z).

#[local] Abbreviation item := (mkENTRY (Some k) (Some d) None 0).
#[local] Abbreviation hv := (hash1 (size h) k).

Lemma hsearch_new_ok fd i s : has_free h -> slot h (target fd i) = Some s ->
  exists e, key e = Some k /\ data e = Some d /\
    (exists h0 e0, callback e = env_callback_init h0 e0) /\
    hsearch_new item ENTER h flag hv fd i = Some (
      if rejected h e k d env_op_create flag
      then fail (reject_errno h e d env_op_create flag)
             (set_filled (upd h (target fd i) tombstone) (filled h))
      else mkR 1 (Some (target fd i)) None
             (set_filled (upd h (target fd i) (mk_ENTRY hv e)) (filled h + 1))).
Proof.
  intros Hfree Hs. pose proof (proj1 Hrep) as Hw. pose proof (has_free_not_full _ Hw Hfree).
  pose proof (wf_size _ Hw). pose proof (wf_hash1 h k Hw).
  unfold hsearch_new. assert ((filled h =? size h) = false) as -> by lia.
  fold (target fd i). rewrite Hs. cbn [mbind option_bind key data strdup]. rewrite Hmk, Hmd.
  assert (s32 hv = hv) as ->.
  { unfold to_signed. rewrite wrap_small by lia. bcase; lia. }
  rewrite (set_slot_upd _ _ _ _ Hs). cbn [mbind option_bind].
  set (e0 := mkENTRY (Some k) (Some d) (callback (entry s)) (flags (entry s))).
  set (h1 := upd h (target fd i) _).
  assert (Hs1 : slot h1 (target fd i) = Some (mk_ENTRY hv e0)).
  { unfold h1. by apply (slot_upd_eq _ _ _ _ Hs). }
  change (filled h1) with (filled h). rewrite (wrap_small 32) by lia.
  set (h1' := set_filled h1 (filled h + 1)). cbn [callback flags].
  set (e1 := mkENTRY _ _ (env_callback_init h1' e0) _).
  assert (Hs1' : slot h1' (target fd i) = Some (mk_ENTRY hv e0)) by done.
  rewrite (set_slot_upd _ _ _ _ Hs1'). cbn [mbind option_bind].
  set (h2 := upd h1' _ _).
  set (e2 := mkENTRY _ _ _ (env_flags_init h2 e1)).
  assert (Hs2 : slot h2 (target fd i) = Some (mk_ENTRY hv e1)).
  { unfold h2. by apply (slot_upd_eq _ _ _ _ Hs1'). }
  rewrite (set_slot_upd _ _ _ _ Hs2). cbn [mbind option_bind].
  assert (Hh3 : upd h2 (target fd i) (mk_ENTRY hv e2) =
    set_filled (upd h (target fd i) (mk_ENTRY hv e2)) (filled h + 1)).
  { unfold h2. rewrite upd_upd. unfold h1', h1.
    change (upd (set_filled (upd h (target fd i) (mk_ENTRY hv e0)) (filled h + 1))
      (target fd i) (mk_ENTRY hv e2)) with
      (set_filled (upd (upd h (target fd i) (mk_ENTRY hv e0)) (target fd i) (mk_ENTRY hv e2))
        (filled h + 1)). by rewrite upd_upd. }
  rewrite Hh3. exists e2. split; [done|]. split; [done|]. split; [by eexists _, _|].
  assert (Hdel : forall X, _hdelete (set_filled (upd h (target fd i) X) (filled h + 1)) (target fd i)
    = Some (set_filled (upd h (target fd i) tombstone) (filled h))).
  { intros X. unfold _hdelete. rewrite (set_slot_upd _ _ X).
    - cbn [mbind option_bind filled set_filled]. replace (filled h + 1 - 1) with (filled h) by lia.
      rewrite (wrap_small 32) by lia. f_equal.
      rewrite <- (upd_upd h (target fd i) X tombstone). done.
    - by apply (slot_upd_eq _ _ _ _ Hs). }
  rewrite Hdel. unfold rejected, reject_errno.
  change (change_rejected (set_filled (upd h (target fd i) (mk_ENTRY hv e2)) (filled h + 1)))
    with (change_rejected h).
  destruct (change_rejected h e2 (Some d) env_op_create flag); [done|].
  by destruct (callback_rejected e2 k (Some d) env_op_create flag).
Qed.

Lemma overwrite_ok i s d0 : slot h i = Some s -> holds s k d0 ->
  overwrite_entry item ENTER h flag i s = Some (
    if rejected h (entry s) k d env_op_overwrite flag
    then fail (reject_errno h (entry s) d env_op_overwrite flag) h
    else mkR i (Some i) None (upd h i (mk_ENTRY (used s)
           (mkENTRY (Some k) (Some d) (callback (entry s)) (flags (entry s)))))).
Proof.
  intros Hs (_ & Hkey & _). unfold overwrite_entry, rejected, reject_errno, strdup.
  cbn [mbind option_bind key data].
  destruct (change_rejected h (entry s) (Some d) env_op_overwrite flag); [done|].
  destruct (callback_rejected (entry s) k (Some d) env_op_overwrite flag); [done|].
  rewrite Hmd, Hkey, (set_slot_upd _ _ _ _ Hs). done.
Qed.

(** The outcome of entering [k = d]: one permission check decides between an
    error with the map unchanged, and the map with [k] bound to [d]; at most
    one more slot is consumed. *)
Definition enter_outcome (r : hret) : Prop :=
  exists e, key e = Some k /\
  (m !! k = None -> exists h0 e0, callback e = env_callback_init h0 e0) /\
  let op := match m !! k with Some _ => env_op_overwrite | None => env_op_create end in
  consumed (h_htab r) <= consumed h + 1 /\ size (h_htab r) = size h /\
  change_ok (h_htab r) = change_ok h /\
  if rejected h e k d op flag
  then exists h', r = fail (reject_errno h e d op flag) h' /\ rep h' m
  else exists i s h', r = mkR (match m !! k with Some _ => i | None => 1 end) (Some i) None h' /\
    rep h' (<[k := d]> m) /\ slot h' i = Some s /\ holds s k d.

Lemma enter_existing d0 : m !! k = Some d0 ->
  exists r, hsearch_r item ENTER h flag = Some r /\ enter_outcome r.
Proof.
  intros Hm. destruct (hsearch_hit h m Hrep item k eq_refl Hk ENTER flag d0 Hm)
    as (i & s & Hi & Hs & Hh & ->). rewrite (overwrite_ok i s d0 Hs Hh).
  eexists; split; [done|]. exists (entry s). split; [apply Hh|]. rewrite Hm. cbv zeta.
  split; [done|].
  destruct (rejected h (entry s) k d env_op_overwrite flag).
  - simpl. split; [lia|]. split; [done|]. split; [done|]. by exists h.
  - cbn [h_htab]. set (s' := mk_ENTRY _ _). split.
    { change (upd h i s') with (set_filled (upd h i s') (filled h)).
      rewrite (consumed_upd _ _ s Hs). destruct (is_used s), (is_used s'); simpl; lia. }
    split; [done|]. split; [done|]. exists i, s', (upd h i s'). split; [done|]. split.
    + by apply (rep_overwrite h m Hrep i s Hs k d0).
    + rewrite (slot_upd_eq _ _ _ _ Hs). split; [done|].
      split; [apply Hh|done].
Qed.

Lemma enter_new : m !! k = None -> has_free h ->
  exists r, hsearch_r item ENTER h flag = Some r /\ enter_outcome r.
Proof.
  intros Hm Hfree. destruct (hsearch_miss h m Hrep item k eq_refl Hk ENTER flag Hm)
    as (fd & i & -> & Hi). destruct (Hi Hfree) as (Hr & s & Hs & Hu).
  destruct (hsearch_new_ok fd i s Hfree Hs) as (e & Hek & Hed & Hcb & ->).
  set (T := target fd i) in *. eexists; split; [done|]. exists e. split; [done|]. split; [done|].
  rewrite Hm. cbv zeta. pose proof (reachable_range _ _ _ (proj1 Hrep) Hr).
  assert (Hc : forall s' f, consumed (set_filled (upd h T s') f) <= consumed h + 1).
  { intros s' f. rewrite (consumed_upd _ _ s Hs). destruct (is_used s), (is_used s'); simpl; lia. }
  destruct (rejected h e k d env_op_create flag).
  - simpl. split; [apply Hc|]. split; [done|]. split; [done|]. eexists; split; [done|].
    apply (rep_tombstone h m Hrep T s Hs); lia.
  - cbn [h_htab]. split; [apply Hc|]. split; [done|]. split; [done|].
    eexists T, _, _. split; [done|]. split.
    + by apply (rep_insert h m Hrep T s Hs).
    + rewrite slot_set_filled, (slot_upd_eq _ _ _ _ Hs). split; [done|].
      pose proof (wf_hash1 h k (proj1 Hrep)). split; simpl; [lia|done].
Qed.

End enter.

(** *** Deletion *)

Lemma holds_filled h i s k d : wf h -> slot h i = Some s -> holds s k d -> 1 <= filled h <= size h + 1.
Proof.
  intros Hw Hs Hh. destruct (wf_table _ Hw) as (t & Ht & Hl & ->).
  apply slot_Some in Hs as (t1 & Ht1 & _ & Hs). assert (t1 = t) as -> by congruence.
  pose proof (count_insert is_live t _ s tombstone Hs) as H1.
  rewrite (is_live_holds _ _ _ Hh) in H1. change (is_live tombstone) with false in H1. simpl in H1.
  pose proof (count_bounds is_live (<[Z.to_nat i := tombstone]> t)).
  pose proof (count_bounds is_live t). pose proof (wf_size _ Hw). lia.
Qed.

Lemma hdelete_slot h i s k d : wf h -> slot h i = Some s -> holds s k d ->
  _hdelete h i = Some (set_filled (upd h i tombstone) (filled h - 1)).
Proof.
  intros Hw Hs Hh. unfold _hdelete. rewrite (set_slot_upd _ _ _ _ Hs). cbn [mbind option_bind].
  pose proof (holds_filled _ _ _ _ _ Hw Hs Hh). pose proof (wf_size _ Hw).
  by rewrite (wrap_small 32) by lia.
Qed.

Lemma hdelete_absent `{Hooks} h m k flag : rep h m -> cstr_ok k -> m !! k = None ->
  hdelete_r k h flag = Some (0, Some ESRCH, h).
Proof.
  intros Hrep Hk Hm. unfold hdelete_r.
  by destruct (hsearch_miss h m Hrep (mkENTRY (Some k) None None 0) k eq_refl Hk FIND 0 Hm)
    as (fd & i & -> & _).
Qed.

(** *** Creation *)

(** No odd number from 3 up to (excluding) [div] divides [number]. *)
Definition no_odd_divisor (number div : Z) : Prop :=
  forall a, 1 < a < div -> Z.odd a = true -> ~ (a | number).

Lemma isprime_loop_spec fuel : forall number div, 5 <= number < 2 ^ 31 ->
  3 <= div -> Z.odd div = true -> div = 3 \/ (div - 2) * (div - 2) < number ->
  no_odd_divisor number div -> (Z.to_nat (number - div) < fuel)%nat ->
  exists div', isprime_loop fuel number div = Some div' /\ 3 <= div' < number /\
    no_odd_divisor number div' /\ (number <= div' * div' \/ (div' | number)).
Proof.
  induction fuel as [|fuel IH]; intros number div Hn Hd Hodd Hsq Hno Hf; [lia|].
  cbn [isprime_loop].
  assert (div * div < 2 ^ 32) by (destruct Hsq; nia).
  rewrite (wrap_small 32) by nia. bcase.
  - rewrite (wrap_small 32) by nia. apply IH; [done|lia| |right; lia| |nia].
    + by rewrite Z.odd_add, Hodd.
    + intros a Ha Hao. destruct (decide (a = div)) as [->|].
      * rewrite <- Z.mod_divide by lia. done.
      * destruct (decide (a = div + 1)) as [->|]; [|apply Hno; [lia|done]].
        rewrite Z.odd_add, Hodd in Hao. done.
  - exists div. split; [done|]. split; [destruct Hsq; nia|]. split; [done|].
    apply andb_false_iff in E as [E|E]; zbool; [by left|right]. by apply Z.mod_divide; [lia|].
Qed.

Lemma odd_divisor number a : Z.odd number = true -> (a | number) -> Z.odd a = true.
Proof.
  intros Ho [b ->]. rewrite Z.odd_mul in Ho. by apply andb_prop in Ho as [_ ?].
Qed.

Lemma no_divisor_prime number div : 5 <= number -> Z.odd number = true ->
  no_odd_divisor number div -> number <= div * div -> 3 <= div -> ~ (div | number) ->
  Z.prime number.
Proof.
  intros Hn Ho Hno Hsq Hd Hnd. split; [lia|]. intros a Ha [b Hab].
  assert (Hsmall : forall x y, 1 < x -> x <= y -> number = x * y -> False).
  { intros x y Hx Hxy He. assert (Hx' : (x | number)) by (exists y; lia).
    destruct (decide (x = div)) as [->|]; [done|].
    apply (Hno x); [nia| by eapply odd_divisor|done]. }
  destruct (decide (a <= b)); [apply (Hsmall a b)|apply (Hsmall b a)]; nia.
Qed.

Lemma isprime_spec number : 5 <= number < 2 ^ 31 -> Z.odd number = true ->
  exists b, isprime number = Some b /\ (b = true <-> Z.prime number).
Proof.
  intros Hn Ho. unfold isprime.
  destruct (isprime_loop_spec (S (Z.to_nat number)) number 3) as (div & -> & Hd & Hno & Hend);
    [done|lia|done|by left| |lia|].
  { intros a Ha Hao. assert (a = 2) as -> by lia. done. }
  cbn [mbind option_bind]. eexists; split; [done|]. split.
  - intros Hb. zbool. assert (~ (div | number)) by (rewrite <- Z.mod_divide by lia; done).
    destruct Hend; [|done]. by apply (no_divisor_prime number div); try lia.
  - intros [_ Hp]. apply negb_true_iff, Z.eqb_neq. rewrite Z.mod_divide by lia. apply Hp. lia.
Qed.

(** The loop of [hcreate_r] ends, checked for every request of the range. *)
Lemma next_prime_range nel : 4 <= nel <= 1024 -> exists n,
  next_prime (S (Z.to_nat (Z.lor nel 1))) (Z.lor nel 1) = Some n /\ nel <= n <= 1033 /\
  Z.odd n = true /\ isprime n = Some true.
Proof.
  intros Hnel.
  set (f := fun nel => match next_prime (S (Z.to_nat (Z.lor nel 1))) (Z.lor nel 1) with
    | Some n => (nel <=? n) && (n <=? 1033) && Z.odd n && bool_decide (isprime n = Some true)
    | None => false end).
  assert (Hall : forallb (fun k => f (Z.of_nat k)) (seq 4 1021) = true) by (by vm_compute).
  rewrite forallb_forall in Hall. specialize (Hall (Z.to_nat nel)).
  rewrite Z2Nat.id in Hall by lia. unfold f in Hall.
  destruct (next_prime _ _) as [n|]; [|exfalso; by discriminate Hall; apply in_seq; lia].
  exists n. split; [done|]. specialize (Hall ltac:(apply in_seq; lia)). zbool. done.
Qed.

(** The empty table of [n] slots. *)
Definition fresh (n : Z) (ok : option (ENTRY -> option bytes -> env_op -> Z -> Z)) : hsearch_data :=
  mkH (Some (replicate (Z.to_nat (n + 1)) empty_slot)) n 0 ok.

Lemma slot_fresh n ok i s : slot (fresh n ok) i = Some s -> s = empty_slot.
Proof. intros (t & [= <-] & _ & [-> _]%lookup_replicate)%slot_Some. done. Qed.

Lemma count_replicate {A} (f : A -> bool) x n : f x = false -> count f (replicate n x) = 0.
Proof. intros Hf. induction n; simpl; [done|]. by rewrite Hf, IHn. Qed.

Lemma fresh_rep n ok : Z.prime n -> 5 <= n < 2 ^ 31 ->
  rep (fresh n ok) ∅ /\ consumed (fresh n ok) = 0.
Proof.
  intros Hp Hn. split; [|by apply count_replicate].
  assert (Hno : forall i s k d, slot (fresh n ok) i = Some s -> ~ holds s k d).
  { intros i s k d ->%slot_fresh [Hu _]. simpl in Hu. lia. }
  split; [split|].
  - done.
  - done.
  - eexists. split; [done|]. rewrite length_replicate. split; [simpl; lia|].
    by rewrite count_replicate.
  - exists empty_slot. split; [|done]. apply slot_Some. eexists. split; [done|]. split; [lia|].
    apply lookup_replicate. split; [done|]. simpl. lia.
  - intros i s ->%slot_fresh. by left.
  - intros i j s s' k d d' Hs _ Hh. by destruct (Hno i s k d Hs).
  - intros k d. rewrite lookup_empty. split; [done|].
    intros (i & s & Hs & Hh). by destruct (Hno i s k d Hs).
Qed.

Lemma hcreate_spec `{Hooks} h nel : table h = None -> 4 <= nel <= 1024 ->
  (forall n, malloc_ok h n = true) ->
  exists n, hcreate_r nel h = Some (1, fresh n (change_ok h)) /\
    nel <= n <= 1033 /\ Z.prime n /\ rep (fresh n (change_ok h)) ∅.
Proof.
  intros Ht Hnel Hm. destruct (next_prime_range nel Hnel) as (n & Hnp & Hn & Hodd & Hpr).
  exists n. unfold hcreate_r. rewrite Ht, Hnp. cbn [mbind option_bind].
  rewrite (wrap_small 32 n) by lia. rewrite Hm.
  assert (n <> 4) by (by intros ->).
  assert (Z.prime n) as Hprime.
  { destruct (isprime_spec n) as (b & Hb & Hiff); [lia|done|]. apply Hiff. congruence. }
  split; [done|]. split; [lia|]. split; [done|]. apply fresh_rep; [done|lia].
Qed.

(** ** Properties *)

Section props.
Context `{Hooks}.

Lemma hsearch_find_spec h m item k flag : rep h m -> key item = Some k -> cstr_ok k ->
  match m !! k with
  | Some d => exists i s, hsearch_r item FIND h flag = Some (mkR i (Some i) None h) /\
      1 <= i <= size h /\ slot h i = Some s /\ holds s k d
  | None => hsearch_r item FIND h flag = Some (fail ESRCH h)
  end.
Proof.
  intros Hrep Hkey Hk. destruct (m !! k) as [d|] eqn:Hm.
  - destruct (hsearch_hit h m Hrep item k Hkey Hk FIND flag d Hm) as (i & s & Hi & Hs & Hh & ->).
    exists i, s. unfold overwrite_entry. by rewrite Hkey.
  - by destruct (hsearch_miss h m Hrep item k Hkey Hk FIND flag Hm) as (fd & i & -> & _).
Qed.

(** C33: looking a name up with [hsearch_r] (action FIND) always terminates,
    never leaves the table, does not change it, and returns exactly what the
    abstract map says: the slot that holds the name and its value, or
    ESRCH. *)
Theorem hsearch_find_correct h m item k flag : rep h m -> key item = Some k -> cstr_ok k ->
  match m !! k with
  | Some d => exists i s, hsearch_r item FIND h flag = Some (mkR i (Some i) None h) /\
      1 <= i <= size h /\ slot h i = Some s /\ holds s k d
  | None => hsearch_r item FIND h flag = Some (fail ESRCH h)
  end.
Proof. apply hsearch_find_spec. Qed.

Lemma hsearch_enter_spec h m k d flag : rep h m -> cstr_ok k -> cstr_ok d ->
  malloc_ok h (Z.of_nat (length k) + 1) = true -> malloc_ok h (Z.of_nat (length d) + 1) = true ->
  has_free h ->
  exists r, hsearch_r (mkENTRY (Some k) (Some d) None 0) ENTER h flag = Some r /\
    enter_outcome h m k d flag r.
Proof.
  intros Hrep Hk Hd Hmk Hmd Hfree. destruct (m !! k) as [d0|] eqn:Hm.
  - by apply (enter_existing h m Hrep k d Hk Hd Hmd flag d0).
  - by apply (enter_new h m Hrep k d Hk Hd Hmk Hmd flag).
Qed.


Lemma hdelete_spec h m k flag : rep h m -> cstr_ok k ->
  match m !! k with
  | None => hdelete_r k h flag = Some (0, Some ESRCH, h)
  | Some d => exists e, key e = Some k /\ data e = Some d /\
      if change_rejected h e None env_op_delete flag then hdelete_r k h flag = Some (0, Some EPERM, h)
      else if callback_rejected e k None env_op_delete flag
      then hdelete_r k h flag = Some (0, Some EINVAL, h)
      else exists h', hdelete_r k h flag = Some (1, None, h') /\ rep h' (delete k m) /\
        consumed h' = consumed h /\ size h' = size h /\ change_ok h' = change_ok h
  end.
Proof.
  intros Hrep Hk. destruct (m !! k) as [d|] eqn:Hm.
  - unfold hdelete_r. set (item := mkENTRY _ _ _ _).
    destruct (hsearch_hit h m Hrep item k eq_refl Hk FIND 0 d Hm) as (i & s & Hi & Hs & Hh & ->).
    exists (entry s). split; [apply Hh|]. split; [apply Hh|].
    cbn [overwrite_entry item key mbind option_bind h_ret h_retval h_htab].
    assert ((i =? 0) = false) as -> by lia. rewrite Hs. cbn [mbind option_bind].
    destruct (change_rejected h (entry s) None env_op_delete flag); [done|].
    destruct (callback_rejected (entry s) k None env_op_delete flag); [done|].
    rewrite (hdelete_slot _ _ _ _ _ (proj1 Hrep) Hs Hh). eexists. split; [done|]. split.
    + apply (rep_delete h m Hrep i s Hs k d); [lia|done].
    + rewrite (consumed_upd _ _ s Hs). unfold is_used. change (used tombstone) with (-1).
      assert ((used s =? 0) = false) as -> by (destruct Hh; lia). simpl. split; [lia | done].
  - by apply (hdelete_absent h m).
Qed.

(** C34: [hdelete_r] of an unbound name fails with ESRCH; of a bound one it
    fails with EPERM or EINVAL when the permission check says so, leaving the
    table as it is, and otherwise re-establishes the invariant for the map
    without the name (the slot becomes a deleted one, so that probe sequences
    through it stay intact). *)
Theorem hdelete_correct h m k flag : rep h m -> cstr_ok k ->
  match m !! k with
  | None => hdelete_r k h flag = Some (0, Some ESRCH, h)
  | Some d => exists e, key e = Some k /\ data e = Some d /\
      if change_rejected h e None env_op_delete flag then hdelete_r k h flag = Some (0, Some EPERM, h)
      else if callback_rejected e k None env_op_delete flag
      then hdelete_r k h flag = Some (0, Some EINVAL, h)
      else exists h', hdelete_r k h flag = Some (1, None, h') /\ rep h' (delete k m) /\
        consumed h' = consumed h /\ size h' = size h /\ change_ok h' = change_ok h
  end.
Proof. apply hdelete_spec. Qed.

(** For the sizes [himport_r] asks for, and up to 1024, [hcreate_r]
    terminates, and when memory can be allocated makes an empty table whose
    size is a prime not smaller than requested. *)
Theorem hcreate_correct h nel : table h = None -> 4 <= nel <= 1024 ->
  (forall n, malloc_ok h n = true) ->
  exists n, hcreate_r nel h = Some (1, fresh n (change_ok h)) /\
    nel <= n <= 1033 /\ Z.prime n /\ rep (fresh n (change_ok h)) ∅.
Proof. apply hcreate_spec. Qed.

End props.

(** ** Concrete runs *)

(** Allocation succeeds, no callbacks and no flags. *)
Definition plain_hooks : Hooks :=
  {| malloc_ok := fun _ _ => true; env_callback_init := fun _ _ => None;
     env_flags_init := fun _ _ => 0 |}.

Definition no_table : hsearch_data := mkH None 0 0 None.

(** A sequence of operations on the table. *)
Inductive hop := Enter (k d : bytes) | Delete (k : bytes).

Definition do_hop `{Hooks} (h : hsearch_data) (o : hop) : option hsearch_data :=
  match o with
  | Enter k d => r ← hsearch_r (mkENTRY (Some k) (Some d) None 0) ENTER h 0;
                 match h_retval r with Some _ => Some (h_htab r) | None => None end
  | Delete k => r ← hdelete_r k h 0; let '(ret, _, h') := r in if ret =? 1 then Some h' else None
  end.

Fixpoint do_hops `{Hooks} (h : hsearch_data) (l : list hop) : option hsearch_data :=
  match l with [] => Some h | o :: l' => h' ← do_hop h o; do_hops h' l' end.

Definition find_value `{Hooks} (h : hsearch_data) (k : bytes) : option bytes :=
  r ← hsearch_r (mkENTRY (Some k) None None 0) FIND h 0;
  i ← h_retval r; s ← slot h i; data (entry s).

Lemma prime_5 : Z.prime 5.
Proof. destruct (isprime_spec 5) as (b & [= <-] & Hb); [lia|done|]. by apply Hb. Qed.

Definition five : hsearch_data := fresh 5 None.

Lemma five_rep : rep five ∅.
Proof. apply fresh_rep; [apply prime_5 | lia]. Qed.

Lemma five_free : has_free five.
Proof. exists 1, empty_slot. by vm_compute. Qed.

Lemma hsearch_find_correct_witness :
  hsearch_r (H := plain_hooks) (mkENTRY (Some (str "bootcmd")) None None 0) FIND five 0 =
    Some (fail ESRCH five).
Proof.
  apply (hsearch_find_correct (H := plain_hooks) five ∅
    (mkENTRY (Some (str "bootcmd")) None None 0) (str "bootcmd") 0 five_rep eq_refl).
  by repeat constructor.
Defined.


Lemma hdelete_correct_witness :
  hdelete_r (H := plain_hooks) (str "a") five 0 = Some (0, Some ESRCH, five).
Proof.
  apply (hdelete_correct (H := plain_hooks) five ∅ (str "a") 0 five_rep). by repeat constructor.
Defined.

Lemma hcreate_correct_witness :
  exists n, hcreate_r (H := plain_hooks) 64 no_table = Some (1, fresh n None) /\
    64 <= n <= 1033 /\ Z.prime n /\ rep (fresh n None) ∅.
Proof.
  apply (hcreate_correct (H := plain_hooks) no_table 64); [done | lia | done].
Defined.

(** Six operations that leave no never-used slot, with four live entries. *)
Definition history : list hop :=
  [Enter (str "a") (str "1"); Enter (str "e") (str "2"); Enter (str "f") (str "3");
   Delete (str "e"); Enter (str "h") (str "4"); Enter (str "b") (str "5")].

Definition after_history : hsearch_data :=
  Eval vm_compute in default five (do_hops (H := plain_hooks) five history).

(** A deleted slot is only reused when it is the first one of the probe
    sequence.  Once no never-used slot is left, the search for a new name
    ends where it began and [hsearch_r] overwrites the live entry there: in a
    table of 5, after six successful operations, entering "g" succeeds and
    the variable "h" is gone, although the table held 4 entries. *)
Theorem hsearch_overwrites_live :
  do_hops (H := plain_hooks) five history = Some after_history /\
  filled after_history = 4 /\
  find_value (H := plain_hooks) after_history (str "h") = Some (str "4") /\
  exists h', do_hop (H := plain_hooks) after_history (Enter (str "g") (str "6")) = Some h' /\
    find_value (H := plain_hooks) h' (str "h") = None.
Proof.
  split; [vm_compute; reflexivity|]. split; [reflexivity|]. split; [vm_compute; reflexivity|].
  destruct (do_hop after_history (Enter (str "g") (str "6"))) as [h'|] eqn:E;
    vm_compute in E; [|discriminate E].
  exists h'. split; [done|]. injection E as <-. vm_compute. reflexivity.
Qed.

(** [hmatch_r] stops before the last slot ([idx < htab->size], where slots
    run up to [size]): a variable stored there is found by name but never
    matched. *)
Theorem hmatch_misses_last : exists k d s,
  slot after_history 5 = Some s /\ holds s k d /\
  find_value (H := plain_hooks) after_history k = Some d /\
  hmatch_r k 0 after_history = Some (fail ESRCH after_history).
Proof.
  exists (str "b"), (str "5"), (mk_ENTRY 4 (mkENTRY (Some (str "b")) (Some (str "5")) None 0)).
  split; [vm_compute; reflexivity|]. split; [by split|].
  split; vm_compute; reflexivity.
Qed.

(** When [strdup] fails, [hsearch_r] reports ENOMEM but leaves the slot
    marked as used with a NULL key: the next search for a name with that hash
    value dereferences NULL. *)
Theorem hsearch_enomem_poisons : exists hooks h,
  hsearch_r (H := hooks) (mkENTRY (Some (str "a")) (Some (str "1")) None 0) ENTER five 0 =
    Some (fail ENOMEM h) /\
  hsearch_r (H := hooks) (mkENTRY (Some (str "a")) None None 0) FIND h 0 = None.
Proof.
  exists {| malloc_ok := fun _ _ => false; env_callback_init := fun _ _ => None;
            env_flags_init := fun _ _ => 0 |}.
  eexists. split; [vm_compute; reflexivity|]. vm_compute. reflexivity.
Qed.

End Hashtable.
