(* ===== verification/HashExport.v ===== *)
(** * Export and import of the environment (lib/hashtable.c, second half)

    [hexport_r] linearises the table into a buffer, [himport_r] parses such a
    buffer in place in a private copy.  Buffers are lists of bytes; a read or
    write outside of the buffer is [None].  CONFIG_REGEX is not defined for
    the boards of this tree: [H_MATCH_REGEX] falls into the default case. *)

From S2P Require Import Prelude Ctype CString Qsort Hashtable.

Module HashExport.
Import Ctype CString Hashtable.

(** ** Matching *)

(** What [strstr(str, pat) != NULL] says of the string values. *)
Fixpoint strstr_str (s t : bytes) : bool :=
  bool_decide (t `prefix_of` s) || match s with [] => false | _ :: s' => strstr_str s' t end.

Definition cmpkey (e1 e2 : ENTRY) : Z :=
  match key e1, key e2 with Some k1, Some k2 => strcmp_str k1 k2 | _, _ => 0 end.

Definition match_string (flag : Z) (s pat : bytes) : bool :=
  if Z.land flag H_MATCH_METHOD =? H_MATCH_IDENT then strcmp_str s pat =? 0
  else if Z.land flag H_MATCH_METHOD =? H_MATCH_SUBSTR then strstr_str s pat
  else false.

Fixpoint match_entry (ep : ENTRY) (flag : Z) (argv : list bytes) : option bool :=
  match argv with
  | [] => Some false
  | arg :: argv' =>
      let data_part :=
        if negb (Z.land flag H_MATCH_DATA =? 0)
        then d ← data ep;
             if match_string flag d arg then Some true else match_entry ep flag argv'
        else match_entry ep flag argv' in
      if negb (Z.land flag H_MATCH_KEY =? 0)
      then k ← key ep; if match_string flag k arg then Some true else data_part
      else data_part
  end.

(** ** Export *)

(** The length a value takes with its escapes ([sep != '\0']). *)
Fixpoint escaped_len (sep : Z) (s : bytes) : Z :=
  match s with
  | [] => 0
  | c :: s' => 1 + (if (c =? sep) || (c =? 92) then 1 else 0) + escaped_len sep s'
  end.

(** Pass 1: the entries to export and the total length. *)
Fixpoint export_scan (n : nat) (h : hsearch_data) (sep flag : Z) (argv : list bytes) (i totlen : Z) :
    option (list ENTRY * Z) :=
  match n with
  | O => Some ([], totlen)
  | S n' =>
      s ← slot h i;
      if 0 <? used s then
        let ep := entry s in
        found ← match_entry ep flag argv;
        if (0 <? Z.of_nat (length argv)) && negb found
        then export_scan n' h sep flag argv (i + 1) totlen
        else
          k ← key ep;
          if negb (Z.land flag H_HIDE_DOT =? 0) && bool_decide (k !! 0%nat = Some 46)
          then export_scan n' h sep flag argv (i + 1) totlen
          else
            d ← data ep;
            let totlen := totlen + (Z.of_nat (length k) + 2) in
            let totlen :=
              if sep =? 0 then totlen + Z.of_nat (length d) else totlen + escaped_len sep d in
            let totlen := totlen + 2 in
            '(l, tot) ← export_scan n' h sep flag argv (i + 1) totlen;
            Some (ep :: l, tot)
      else export_scan n' h sep flag argv (i + 1) totlen
  end.

(** [while ( *s) *p++ = *s++;] *)
Fixpoint put_key (buf : bytes) (p : Z) (s : bytes) : option (bytes * Z) :=
  match s with
  | [] => Some (buf, p)
  | c :: s' => buf ← zset buf p c; put_key buf (p + 1) s'
  end.

(** The loop that copies the value and escapes it. *)
Fixpoint put_data (sep : Z) (buf : bytes) (p : Z) (s : bytes) : option (bytes * Z) :=
  match s with
  | [] => Some (buf, p)
  | c :: s' =>
      if (c =? sep) || (c =? 92)
      then buf ← zset buf p 92; buf ← zset buf (p + 1) c; put_data sep buf (p + 2) s'
      else buf ← zset buf p c; put_data sep buf (p + 1) s'
  end.

(** Pass 2. *)
Fixpoint export_list (sep : Z) (buf : bytes) (p : Z) (l : list ENTRY) : option (bytes * Z) :=
  match l with
  | [] => Some (buf, p)
  | e :: l' =>
      k ← key e;
      '(buf, p) ← put_key buf p k;
      buf ← zset buf p 61;
      d ← data e;
      '(buf, p) ← put_data sep buf (p + 1) d;
      buf ← zset buf p sep;
      export_list sep buf (p + 1) l'
  end.

Section ops.
Context `{Hooks}.

(** [resp] is the caller's buffer, if any.  Returns the result, the value
    stored to [errno], and the buffer [*resp] points to in the end. *)
Definition hexport_r (h : hsearch_data) (sep flag : Z) (resp : option bytes) (size_ : Z)
    (argv : list bytes) : option (Z * option Z * option bytes) :=
  '(list, totlen) ← export_scan (Z.to_nat (size h)) h sep flag argv 1 0;
  list ← Qsort.qsort cmpkey 8 list (Z.of_nat (length list));
  if negb (size_ =? 0) && (size_ <? totlen + 1) then Some (-1, Some ENOMEM, resp)
  else
    let size_ := if size_ =? 0 then totlen + 1 else size_ in
    let write (res : bytes) :=
      '(res, p) ← export_list sep res 0 list;
      res ← zset res p 0;
      Some (size_, None, Some res) in
    match resp with
    | Some res =>
        if size_ <=? Z.of_nat (length res)
        then write (replicate (Z.to_nat size_) 0 ++ drop (Z.to_nat size_) res)
        else None
    | None =>
        if malloc_ok h size_ then write (replicate (Z.to_nat size_) 0)
        else Some (-1, Some ENOMEM, None)
    end.

(** ** Import *)

Fixpoint drop_loop (name : bytes) (vars : list (option bytes)) : bool * list (option bytes) :=
  match vars with
  | [] => (false, [])
  | None :: vars' => let '(res, vs) := drop_loop name vars' in (res, None :: vs)
  | Some v :: vars' =>
      let '(res, vs) := drop_loop name vars' in
      if strcmp_str name v =? 0 then (true, None :: vs) else (res, Some v :: vs)
  end.

Definition drop_var_from_set (name : bytes) (vars : list (option bytes)) : bool * list (option bytes) :=
  match vars with [] => (true, vars) | _ => drop_loop name vars end.

(** The string at index [i] of the buffer. *)
Fixpoint cstr_from (fuel : nat) (buf : bytes) (i : Z) : option bytes :=
  match fuel with
  | O => None
  | S fuel' =>
      c ← zget buf i;
      if c =? 0 then Some [] else s ← cstr_from fuel' buf (i + 1); Some (c :: s)
  end.

Definition cstr_in (buf : bytes) (i : Z) : option bytes := cstr_from (S (length buf)) buf i.

(** Remove carriage returns in front of line feeds: the [for] loop, with
    [size] the size of the whole buffer. *)
Fixpoint crlf_loop (fuel : nat) (data : bytes) (size_ dp ignored_crs : Z) : option (bytes * Z) :=
  match fuel with
  | O => None
  | S fuel' =>
      if dp <? size_ then
        c ← zget data dp;
        if c =? 0 then Some (data, ignored_crs)
        else
          let keep :=
            data ← zset data (dp - ignored_crs) c;
            crlf_loop fuel' data size_ (dp + 1) ignored_crs in
          if (c =? 13) && (dp <? size_ - 1) then
            c2 ← zget data (dp + 1);
            if c2 =? 10 then crlf_loop fuel' data size_ (dp + 1) (ignored_crs + 1) else keep
          else keep
      else Some (data, ignored_crs)
  end.

Fixpoint skip_blank (fuel : nat) (data : bytes) (dp : Z) : option Z :=
  match fuel with
  | O => None
  | S fuel' => c ← zget data dp; if isblank c then skip_blank fuel' data (dp + 1) else Some dp
  end.

(** [while ( *dp && ( *dp != sep)) ++dp;] *)
Fixpoint skip_comment (fuel : nat) (data : bytes) (sep dp : Z) : option Z :=
  match fuel with
  | O => None
  | S fuel' =>
      c ← zget data dp;
      if negb (c =? 0) && negb (c =? sep) then skip_comment fuel' data sep (dp + 1) else Some dp
  end.

(** [for (name = dp; *dp != '=' && *dp && *dp != sep; ++dp);] *)
Fixpoint parse_name (fuel : nat) (data : bytes) (sep dp : Z) : option Z :=
  match fuel with
  | O => None
  | S fuel' =>
      c ← zget data dp;
      if negb (c =? 61) && negb (c =? 0) && negb (c =? sep)
      then parse_name fuel' data sep (dp + 1) else Some dp
  end.

(** The loop that unescapes the value in place; returns the buffer, [sp] and
    [dp]. *)
Fixpoint parse_value (fuel : nat) (data : bytes) (sep sp dp : Z) : option (bytes * Z * Z) :=
  match fuel with
  | O => None
  | S fuel' =>
      c ← zget data dp;
      if negb (c =? 0) && negb (c =? sep) then
        c1 ← (if c =? 92 then zget data (dp + 1) else Some 0);
        let dp := if (c =? 92) && negb (c1 =? 0) then dp + 1 else dp in
        c' ← zget data dp;
        data ← zset data sp c';
        parse_value fuel' data sep (sp + 1) (dp + 1)
      else Some (data, sp, dp)
  end.

(** "name" and "name=" entries: [*dp == '\0' || *(dp + 1) == '\0' || *dp ==
    sep || *(dp + 1) == sep], evaluated left to right. *)
Definition is_delete (data : bytes) (sep dp : Z) : option bool :=
  c ← zget data dp;
  if c =? 0 then Some true
  else
    c1 ← zget data (dp + 1);
    Some ((c1 =? 0) || (c =? sep) || (c1 =? sep)).

(** What one iteration of the parser ends with. *)
Inductive step_result :=
| Next (data : bytes) (dp : Z) (h : hsearch_data) (vars : list (option bytes))
| EmptyKey (h : hsearch_data).

(** One iteration of the [do ... while] loop of [himport_r]. *)
Definition import_step (data : bytes) (sep flag dp : Z) (h : hsearch_data)
    (vars : list (option bytes)) : option step_result :=
  let fuel := S (length data) in
  dp ← skip_blank fuel data dp;
  c ← zget data dp;
  if c =? 35 then
    dp ← skip_comment fuel data sep dp;
    Some (Next data (dp + 1) h vars)
  else
    let name := dp in
    dp ← parse_name fuel data sep dp;
    del ← is_delete data sep dp;
    if del : bool then
      c ← zget data dp;
      '(data, dp) ← (if c =? 61 then data ← zset data dp 0; Some (data, dp + 1) else Some (data, dp));
      data ← zset data dp 0;
      let dp := dp + 1 in
      name ← cstr_in data name;
      let '(res, vars) := drop_var_from_set name vars in
      if negb res then Some (Next data dp h vars)
      else
        '(_, _, h) ← hdelete_r name h flag;
        Some (Next data dp h vars)
    else
      data ← zset data dp 0;
      let value := dp + 1 in
      '(data, sp, dp) ← parse_value fuel data sep value value;
      data ← zset data sp 0;
      let dp := dp + 1 in
      c ← zget data name;
      if c =? 0 then Some (EmptyKey h)
      else
        name ← cstr_in data name;
        let '(res, vars) := drop_var_from_set name vars in
        if negb res then Some (Next data dp h vars)
        else
          value ← cstr_in data value;
          r ← hsearch_r (mkENTRY (Some name) (Some value) None 0) ENTER h flag;
          Some (Next data dp (h_htab r) vars).

(** [do { ... } while ((dp < data + size) && *dp);] *)
Fixpoint import_loop (fuel : nat) (data : bytes) (size_ sep flag dp : Z) (h : hsearch_data)
    (vars : list (option bytes)) : option step_result :=
  match fuel with
  | O => None
  | S fuel' =>
      r ← import_step data sep flag dp h vars;
      match r with
      | EmptyKey h => Some (EmptyKey h)
      | Next data dp h vars =>
          if dp <? size_ then
            c ← zget data dp;
            if negb (c =? 0) then import_loop fuel' data size_ sep flag dp h vars
            else Some (Next data dp h vars)
          else Some (Next data dp h vars)
      end
  end.

(** Variables of the list that the imported data did not mention. *)
Fixpoint delete_rest (flag : Z) (h : hsearch_data) (vars : list (option bytes)) : option hsearch_data :=
  match vars with
  | [] => Some h
  | None :: vars' => delete_rest flag h vars'
  | Some v :: vars' => '(_, _, h) ← hdelete_r v h flag; delete_rest flag h vars'
  end.

(** [if (!htab->table)]: the new table, or [None] in the first component when
    it cannot be created. *)
Definition import_create (size_ : Z) (h : hsearch_data) : option (bool * hsearch_data) :=
  match table h with
  | Some _ => Some (true, h)
  | None =>
      let nent := s32 (CONFIG_ENV_MIN_ENTRIES + size_ / 8) in
      let nent := if CONFIG_ENV_MAX_ENTRIES <? nent then CONFIG_ENV_MAX_ENTRIES else nent in
      '(ret, h) ← hcreate_r (u64 nent) h;
      Some (negb (ret =? 0), h)
  end.

Definition himport_r (h : hsearch_data) (env : bytes) (size_ sep flag : Z) (crlf_is_lf : bool)
    (vars : list bytes) : option (Z * option Z * hsearch_data) :=
  if negb (malloc_ok h size_) then Some (0, Some ENOMEM, h)
  else if Z.of_nat (length env) <? size_ then None
  else
    let data := take (Z.to_nat size_) env in
    let localvars := Some <$> vars in
    h ← (if Z.land flag H_NOCLEAR =? 0 then
           match table h with
           | Some _ => '(_, h) ← hdestroy_r h; Some h
           | None => Some h
           end
         else Some h);
    '(ok, h) ← import_create size_ h;
    if negb ok then Some (0, None, h)
    else if size_ =? 0 then Some (1, None, h)
    else
      '(data, size_) ← (if crlf_is_lf
        then '(data, ignored_crs) ← crlf_loop (S (length data)) data size_ 0 0;
             Some (data, size_ - ignored_crs)
        else Some (data, size_));
      r ← import_loop (S (length data)) data size_ sep flag 0 h localvars;
      match r with
      | EmptyKey h => Some (0, Some EINVAL, h)
      | Next _ _ h localvars => h ← delete_rest flag h localvars; Some (1, None, h)
      end.

End ops.

(** ** The serialised form *)

(** A value with its escapes. *)
Fixpoint esc (sep : Z) (s : bytes) : bytes :=
  match s with
  | [] => []
  | c :: s' => if (c =? sep) || (c =? 92) then 92 :: c :: esc sep s' else c :: esc sep s'
  end.

Definition ser (sep : Z) (kd : bytes * bytes) : bytes := kd.1 ++ 61 :: esc sep kd.2 ++ [sep].

Definition ser_all (sep : Z) (l : list (bytes * bytes)) : bytes := concat (ser sep <$> l).

Definition pair_of (e : ENTRY) : bytes * bytes := (default [] (key e), default [] (data e)).

Definition full (e : ENTRY) : Prop := is_Some (key e) /\ is_Some (data e).

(** The lexicographic order of byte strings. *)
Fixpoint lex_le (s t : bytes) : bool :=
  match s, t with
  | [], _ => true
  | _ :: _, [] => false
  | c :: s', d :: t' => (c <? d) || ((c =? d) && lex_le s' t')
  end.

Definition ascii_str (s : bytes) : Prop := Forall (fun c => 0 < c < 128) s.

(** *** Writing *)

Lemma zset_app (a b : bytes) p c : p = Z.of_nat (length a) -> (0 < length b)%nat ->
  zset (a ++ b) p c = Some ((a ++ [c]) ++ drop 1 b).
Proof.
  intros Hp Hb. destruct b as [|x b]; [simpl in Hb; lia|].
  rewrite zset_middle by done. by rewrite <- app_assoc.
Qed.

Lemma put_key_spec s : forall a b p, p = Z.of_nat (length a) -> (length s <= length b)%nat ->
  put_key (a ++ b) p s = Some ((a ++ s) ++ drop (length s) b, p + Z.of_nat (length s)).
Proof.
  induction s as [|c s IH]; intros a b p Hp Hb; simpl in *.
  - by rewrite app_nil_r, drop_0, Z.add_0_r.
  - rewrite zset_app by (done || lia). cbn [mbind option_bind].
    rewrite IH by (rewrite ?length_app, ?length_drop; simpl; lia).
    rewrite drop_drop, <- !app_assoc. simpl. f_equal. f_equal. lia.
Qed.

Lemma put_data_spec sep s : forall a b p, p = Z.of_nat (length a) ->
  (length (esc sep s) <= length b)%nat ->
  put_data sep (a ++ b) p s =
    Some ((a ++ esc sep s) ++ drop (length (esc sep s)) b, p + Z.of_nat (length (esc sep s))).
Proof.
  induction s as [|c s IH]; intros a b p Hp Hb; cbn [put_data esc] in *.
  - by rewrite app_nil_r, drop_0, Z.add_0_r.
  - destruct ((c =? sep) || (c =? 92)); simpl in Hb |- *.
    + rewrite zset_app by (done || lia). cbn [mbind option_bind].
      rewrite zset_app by (rewrite ?length_app, ?length_drop; simpl; lia). cbn [mbind option_bind].
      rewrite IH by (rewrite ?length_app, ?length_drop; simpl; lia).
      rewrite !drop_drop, <- !app_assoc. simpl. f_equal. f_equal. lia.
    + rewrite zset_app by (done || lia). cbn [mbind option_bind].
      rewrite IH by (rewrite ?length_app, ?length_drop; simpl; lia).
      rewrite drop_drop, <- !app_assoc. simpl. f_equal. f_equal. lia.
Qed.

Lemma length_ser sep kd :
  length (ser sep kd) = (length kd.1 + length (esc sep kd.2) + 2)%nat.
Proof. unfold ser. rewrite length_app. simpl. rewrite length_app. simpl. lia. Qed.

Lemma ser_all_cons sep kd l : ser_all sep (kd :: l) = ser sep kd ++ ser_all sep l.
Proof. done. Qed.

Lemma ser_all_length sep l : (length l <= length (ser_all sep l))%nat.
Proof.
  induction l as [|kd l IH]; [done|]. rewrite ser_all_cons, length_app, length_ser. simpl. lia.
Qed.

Lemma export_list_spec sep l : Forall full l -> forall a b p, p = Z.of_nat (length a) ->
  (length (ser_all sep (pair_of <$> l)) <= length b)%nat ->
  export_list sep (a ++ b) p l =
    Some ((a ++ ser_all sep (pair_of <$> l)) ++ drop (length (ser_all sep (pair_of <$> l))) b,
          p + Z.of_nat (length (ser_all sep (pair_of <$> l)))).
Proof.
  induction 1 as [|e l [[k Hk] [d Hd]] Hl IH]; intros a b p Hp Hb.
  - simpl. by rewrite app_nil_r, drop_0, Z.add_0_r.
  - assert (pair_of e = (k, d)) as Hpe by (unfold pair_of; by rewrite Hk, Hd).
    rewrite fmap_cons, Hpe, ser_all_cons in *. set (t := ser_all sep (pair_of <$> l)) in *.
    rewrite length_app, length_ser in Hb. cbn [fst snd] in Hb. cbn [export_list].
    rewrite Hk. cbn [mbind option_bind]. rewrite put_key_spec by (done || lia).
    cbn [mbind option_bind].
    rewrite zset_app by (rewrite ?length_app, ?length_drop; simpl; lia). cbn [mbind option_bind].
    rewrite Hd. cbn [mbind option_bind].
    rewrite put_data_spec by (rewrite ?length_app, ?length_drop; simpl; lia).
    cbn [mbind option_bind].
    rewrite zset_app by (rewrite ?length_app, ?length_drop; simpl; lia). cbn [mbind option_bind].
    rewrite IH by (rewrite ?length_app, ?length_drop; simpl; lia).
    rewrite !drop_drop, length_app, length_ser. unfold ser. cbn [fst snd]. f_equal. f_equal; [|lia].
    rewrite <- !app_assoc. simpl. rewrite <- !app_assoc. simpl.
    assert ((length k + S (length (esc sep d) + S (length t)))%nat =
            (length k + length (esc sep d) + 2 + length t)%nat) as -> by lia.
    done.
Qed.

Lemma escaped_len_esc sep s : escaped_len sep s = Z.of_nat (length (esc sep s)).
Proof.
  induction s as [|c s IH]; cbn [escaped_len esc]; [done|].
  destruct ((c =? sep) || (c =? 92)); simpl; lia.
Qed.

(** *** The entries of the table *)

(** The live entries among the [n] slots from [i] on. *)
Fixpoint lives (n : nat) (h : hsearch_data) (i : Z) : list ENTRY :=
  match n with
  | O => []
  | S n' =>
      match slot h i with
      | Some s => if 0 <? used s then entry s :: lives n' h (i + 1) else lives n' h (i + 1)
      | None => lives n' h (i + 1)
      end
  end.

(** The room pass 1 reserves for the pairs. *)
Definition room (sep : Z) (l : list (bytes * bytes)) : Z :=
  foldr (fun kd r => Z.of_nat (length kd.1) + 4 +
    (if sep =? 0 then Z.of_nat (length kd.2) else Z.of_nat (length (esc sep kd.2))) + r) 0 l.

Lemma room_cons sep kd l : room sep (kd :: l) = Z.of_nat (length kd.1) + 4 +
    (if sep =? 0 then Z.of_nat (length kd.2) else Z.of_nat (length (esc sep kd.2))) + room sep l.
Proof. done. Qed.

Lemma room_perm sep l l' : l ≡ₚ l' -> room sep l = room sep l'.
Proof. induction 1; rewrite ?room_cons; lia. Qed.

Lemma live_pair h i s : wf h -> slot h i = Some s -> 0 < used s ->
  exists k d, holds s k d /\ pair_of (entry s) = (k, d).
Proof.
  intros Hw Hs Hu. destruct (wf_slot _ Hw _ _ Hs) as [|[|(k & d & Hh & _)]]; [lia..|].
  exists k, d. split; [done|]. destruct Hh as (_ & Hk & Hd). unfold pair_of. by rewrite Hk, Hd.
Qed.

Lemma export_scan_spec n : forall h sep flag i tot, wf h -> Z.land flag H_HIDE_DOT = 0 ->
  1 <= i -> i + Z.of_nat n <= size h + 1 ->
  export_scan n h sep flag [] i tot =
    Some (lives n h i, tot + room sep (pair_of <$> lives n h i)).
Proof.
  induction n as [|n IH]; intros h sep flag i tot Hw Hfl Hi Hn; cbn [export_scan lives].
  - rewrite fmap_nil. simpl. by rewrite Z.add_0_r.
  - destruct (wf_slot_some h i Hw) as [s Hs]; [lia|]. rewrite Hs. cbn [mbind option_bind].
    bcase; [|apply IH; (done || lia)]. cbn [match_entry length mbind option_bind].
    change ((0 <? Z.of_nat 0) && negb false) with false. cbv iota.
    destruct (live_pair _ _ _ Hw Hs E) as (k & d & (_ & Hk & Hd) & Hp).
    rewrite Hk. cbn [mbind option_bind]. rewrite Hfl. change (negb (0 =? 0)) with false.
    cbn [andb]. rewrite Hd. cbn [mbind option_bind]. rewrite IH by (done || lia).
    cbn [mbind option_bind]. rewrite fmap_cons, room_cons, Hp. cbn [fst snd].
    rewrite escaped_len_esc. f_equal. f_equal.
    destruct (sep =? 0); lia.
Qed.

Lemma lives_full n : forall h i, wf h -> Forall full (lives n h i).
Proof.
  induction n as [|n IH]; intros h i Hw; cbn [lives]; [constructor|].
  destruct (slot h i) as [s|] eqn:Hs; [|by apply IH]. bcase; [|by apply IH].
  constructor; [|by apply IH].
  destruct (live_pair _ _ _ Hw Hs E) as (k & d & (_ & Hk & Hd) & _). split; eauto.
Qed.

Lemma elem_lives n : forall h i k d, wf h -> (k, d) ∈ pair_of <$> lives n h i <->
  exists j s, i <= j < i + Z.of_nat n /\ slot h j = Some s /\ holds s k d.
Proof.
  induction n as [|n IH]; intros h i k d Hw; cbn [lives].
  { split; [by intros ?%elem_of_nil|]. intros (j & _ & ? & _). lia. }
  assert (Hsplit : forall P : Z -> Prop, (exists j, i <= j < i + Z.of_nat (S n) /\ P j) <->
    P i \/ exists j, i + 1 <= j < i + 1 + Z.of_nat n /\ P j).
  { intros P. split.
    - intros (j & Hj & HP). destruct (decide (j = i)) as [->|]; [by left|right].
      exists j. split; [lia|done].
    - intros [HP|(j & Hj & HP)]; [exists i|exists j]; (split; [lia|done]). }
  assert (Hbind : forall a c, (exists j s, a <= j < c /\ slot h j = Some s /\ holds s k d) <->
    (exists j, a <= j < c /\ exists s, slot h j = Some s /\ holds s k d)) by naive_solver.
  rewrite Hbind, Hsplit, <- Hbind, <- (IH h (i + 1) k d Hw).
  destruct (slot h i) as [s|] eqn:Hs; [|split; [by right|intros [(? & ? & _)|]; done]].
  destruct (Z.ltb_spec 0 (used s)) as [Hu|Hu].
  - rewrite fmap_cons, elem_of_cons.
    destruct (live_pair _ _ _ Hw Hs Hu) as (k' & d' & Hh & ->). split.
    + intros [[= -> ->]|?]; [left; eauto|by right].
    + intros [(s' & [= <-] & Hh')|?]; [left|by right].
      by destruct (holds_inj _ _ _ _ _ Hh Hh') as [-> ->].
  - split; [by right|]. intros [(s' & [= <-] & Hh')|?]; [|done]. by apply not_holds in Hh'.
Qed.

Lemma nodup_lives n : forall h i, wf h -> NoDup (pair_of <$> lives n h i).
Proof.
  induction n as [|n IH]; intros h i Hw; cbn [lives]; [constructor|].
  destruct (slot h i) as [s|] eqn:Hs; [|by apply IH]. bcase; [|by apply IH].
  rewrite fmap_cons. constructor; [|by apply IH].
  destruct (live_pair _ _ _ Hw Hs E) as (k & d & Hh & ->).
  intros (j & s' & Hj & Hs' & Hh')%(elem_lives _ _ _ _ _ Hw).
  pose proof (wf_unique _ Hw _ _ _ _ _ _ _ Hs Hs' Hh Hh'). lia.
Qed.

(** The live entries are the pairs of the map. *)
Lemma lives_map h m : rep h m -> pair_of <$> lives (Z.to_nat (size h)) h 1 ≡ₚ map_to_list m.
Proof.
  intros Hrep. pose proof (proj1 Hrep) as Hw. apply NoDup_Permutation.
  - by apply nodup_lives.
  - apply NoDup_map_to_list.
  - intros [k d]. rewrite elem_of_map_to_list, (elem_lives _ _ _ _ _ Hw), (proj2 Hrep). split.
    + intros (j & s & _ & ? & ?). eauto.
    + intros (j & s & Hs & Hh). exists j, s. split; [|done].
      destruct (wf_holds _ _ _ _ _ Hw Hs Hh) as (_ & _ & _ & Hr).
      apply (reachable_range _ _ _ Hw) in Hr. pose proof (wf_size _ Hw). lia.
Qed.

(** *** The order of the keys *)

Lemma s8_small z : -128 <= z < 128 -> s8 z = z.
Proof.
  intros Hz. unfold to_signed, wrap. change (2 ^ 8) with 256. change (2 ^ (8 - 1)) with 128.
  destruct (decide (0 <= z)) as [Hp|Hp].
  - rewrite Z.mod_small by lia. bcase; lia.
  - assert (z mod 256 = z + 256) as ->; [|bcase; lia].
    rewrite <- (Z.mod_add z 1) by lia. apply Z.mod_small. lia.
Qed.

(** On ASCII strings the sign of [strcmp] is the lexicographic order. *)
Lemma strcmp_lex s : forall t, ascii_str s -> ascii_str t -> (strcmp_str s t <=? 0) = lex_le s t.
Proof.
  induction s as [|c s IH]; intros [|d t] Hs Ht; simpl; try done.
  - apply Forall_cons in Ht as [Hd _]. rewrite s8_small by lia. lia.
  - apply Forall_cons in Hs as [Hc _]. rewrite s8_small by lia. lia.
  - apply Forall_cons in Hs as [Hc Hs]. apply Forall_cons in Ht as [Hd Ht].
    rewrite s8_small by lia. destruct (Z.eqb_spec (c - d) 0) as [E|E].
    + rewrite IH by done. assert (c = d) as -> by lia. by rewrite Z.ltb_irrefl, Z.eqb_refl.
    + assert ((c =? d) = false) as -> by lia. rewrite andb_false_l, orb_false_r. lia.
Qed.

Lemma lex_le_total s : forall t, lex_le s t = true \/ lex_le t s = true.
Proof.
  induction s as [|c s IH]; intros [|d t]; simpl; auto.
  destruct (Z.lt_total c d) as [Hlt|[->|Hlt]].
  - left. by rewrite (proj2 (Z.ltb_lt _ _) Hlt).
  - rewrite !Z.ltb_irrefl, !Z.eqb_refl. apply IH.
  - right. by rewrite (proj2 (Z.ltb_lt _ _) Hlt).
Qed.

Lemma lex_le_trans s : forall t u, lex_le s t = true -> lex_le t u = true -> lex_le s u = true.
Proof.
  induction s as [|c s IH]; intros [|d t] [|e u] H1 H2; simpl in *; try done.
  apply orb_true_iff in H1 as [H1|H1]; apply orb_true_iff in H2 as [H2|H2]; zbool;
    apply orb_true_iff; [left; lia|left; lia|left; lia|right].
  subst. rewrite Z.eqb_refl. by apply (IH t).
Qed.

(** *** Parsing *)

(** Names that survive a round trip: what [setenv] and the text format allow. *)
Definition name_ok (sep : Z) (k : bytes) : Prop :=
  cstr_ok k /\ 61 ∉ k /\ sep ∉ k /\
  match k with [] => False | c :: _ => isblank c = false /\ c <> 35 end.

Definition value_ok (d : bytes) : Prop := cstr_ok d /\ d <> [].

Lemma zget_app_head (a b : bytes) i c : i = Z.of_nat (length a) -> zget (a ++ c :: b) i = Some c.
Proof. apply zget_middle. Qed.

Lemma cstr_from_spec s : forall fuel a t i, cstr_ok s -> i = Z.of_nat (length a) ->
  (length s < fuel)%nat -> cstr_from fuel (a ++ s ++ 0 :: t) i = Some s.
Proof.
  induction s as [|c s IH]; intros [|fuel] a t i Hok Hi Hf; try (simpl in Hf; lia).
  - cbn [cstr_from app]. by rewrite zget_app_head by done.
  - apply Forall_cons in Hok as [Hc Hok]. cbn [cstr_from app].
    rewrite zget_app_head by done. cbn [mbind option_bind]. unfold char_ok in Hc.
    assert ((c =? 0) = false) as -> by lia.
    replace (a ++ c :: s ++ 0 :: t) with ((a ++ [c]) ++ s ++ 0 :: t) by by rewrite <- app_assoc.
    rewrite IH; [done|done|rewrite length_app; simpl; lia|simpl in Hf; lia].
Qed.

Lemma cstr_in_spec s a t i : cstr_ok s -> i = Z.of_nat (length a) ->
  cstr_in (a ++ s ++ 0 :: t) i = Some s.
Proof.
  intros Hs Hi. apply cstr_from_spec; [done..|]. rewrite !length_app. simpl. lia.
Qed.

Lemma parse_name_spec sep k : forall fuel a t i, cstr_ok k -> 61 ∉ k -> sep ∉ k ->
  i = Z.of_nat (length a) -> (length k < fuel)%nat ->
  parse_name fuel (a ++ k ++ 61 :: t) sep i = Some (i + Z.of_nat (length k)).
Proof.
  induction k as [|c k IH]; intros [|fuel] a t i Hok H61 Hsep Hi Hf; try (simpl in Hf; lia).
  - cbn [parse_name app]. rewrite zget_app_head by done. simpl. by rewrite Z.add_0_r.
  - apply Forall_cons in Hok as [Hc Hok]. rewrite not_elem_of_cons in H61, Hsep.
    destruct H61 as [Hc61 H61]. destruct Hsep as [Hcs Hsep]. cbn [parse_name app].
    rewrite zget_app_head by done. cbn [mbind option_bind]. unfold char_ok in Hc.
    assert ((c =? 61) = false) as -> by lia. assert ((c =? 0) = false) as -> by lia.
    assert ((c =? sep) = false) as -> by lia. cbn [negb andb].
    replace (a ++ c :: k ++ 61 :: t) with ((a ++ [c]) ++ k ++ 61 :: t) by by rewrite <- app_assoc.
    simpl in Hf. rewrite IH by (done || (rewrite length_app; simpl; lia) || lia).
    f_equal. simpl. lia.
Qed.

(** One character with its escape. *)
Definition enc (sep c : Z) : bytes := if (c =? sep) || (c =? 92) then [92; c] else [c].

Lemma esc_cons sep c d : esc sep (c :: d) = enc sep c ++ esc sep d.
Proof. unfold enc. cbn [esc]. by destruct ((c =? sep) || (c =? 92)). Qed.

(** One round of the unescaping loop: [x] is what is in front of [sp], [g] the
    bytes between [sp] and [dp]. *)
Lemma parse_value_step sep fuel x g c t sp dp : sep <> 92 -> char_ok c ->
  sp = Z.of_nat (length x) -> dp = sp + Z.of_nat (length g) ->
  parse_value (S fuel) (x ++ g ++ enc sep c ++ t) sep sp dp =
  parse_value fuel ((x ++ [c]) ++ drop 1 (g ++ enc sep c) ++ t) sep (sp + 1)
    (dp + Z.of_nat (length (enc sep c))).
Proof.
  intros Hs Hc Hsp Hdp. unfold char_ok in Hc.
  assert (Hset : zset (x ++ g ++ enc sep c ++ t) sp c
    = Some ((x ++ [c]) ++ drop 1 (g ++ enc sep c) ++ t)).
  { assert (0 < length (g ++ enc sep c))%nat as Hl
      by (rewrite length_app; unfold enc; destruct (_ || _); simpl; lia).
    rewrite (app_assoc g), zset_app by (done || (rewrite !length_app in *; lia)).
    by rewrite drop_app_le by lia. }
  revert Hset. unfold enc. destruct ((c =? sep) || (c =? 92)) eqn:E; intros Hset;
    cbn [parse_value length Z.of_nat].
  - assert (zget (x ++ g ++ [92; c] ++ t) dp = Some 92) as ->.
    { rewrite app_assoc. apply zget_app_head. rewrite length_app. lia. }
    assert (zget (x ++ g ++ [92; c] ++ t) (dp + 1) = Some c) as Hc1.
    { replace (x ++ g ++ [92; c] ++ t) with ((x ++ g ++ [92]) ++ c :: t) by by rewrite <- !app_assoc.
      apply zget_app_head. rewrite !length_app. simpl. lia. }
    cbn [mbind option_bind]. assert ((92 =? sep) = false) as -> by lia.
    change (92 =? 0) with false. change (92 =? 92) with true. cbn [negb andb].
    rewrite Hc1. cbn [mbind option_bind]. assert ((c =? 0) = false) as -> by lia. cbn [negb].
    rewrite Hc1. cbn [mbind option_bind]. rewrite Hset. cbn [mbind option_bind]. f_equal. lia.
  - apply orb_false_iff in E as [E1 E2].
    assert (zget (x ++ g ++ [c] ++ t) dp = Some c) as Hc1.
    { rewrite app_assoc. apply zget_app_head. rewrite length_app. lia. }
    rewrite Hc1. cbn [mbind option_bind]. rewrite E1, E2.
    assert ((c =? 0) = false) as -> by lia. cbn [negb andb mbind option_bind].
    rewrite Hc1. cbn [mbind option_bind]. by rewrite Hset.
Qed.

Lemma parse_value_spec sep d : sep <> 92 -> forall fuel x g r sp dp, cstr_ok d ->
  sp = Z.of_nat (length x) -> dp = sp + Z.of_nat (length g) -> (length d < fuel)%nat ->
  exists g', parse_value fuel (x ++ g ++ esc sep d ++ sep :: r) sep sp dp =
    Some ((x ++ d) ++ g' ++ sep :: r, sp + Z.of_nat (length d),
          dp + Z.of_nat (length (esc sep d))) /\
    (length d + length g' = length g + length (esc sep d))%nat.
Proof.
  intros Hs92. induction d as [|c d IH]; intros [|fuel] x g r sp dp Hok Hsp Hdp Hf;
    try (simpl in Hf; lia); simpl in Hf.
  - cbn [parse_value esc app]. rewrite (app_assoc x g).
    rewrite (zget_app_head (x ++ g) r dp sep) by (rewrite length_app; lia). cbn [mbind option_bind].
    rewrite Z.eqb_refl, andb_false_r. exists g. rewrite app_nil_r, <- app_assoc. simpl.
    rewrite !Z.add_0_r, Nat.add_0_r. done.
  - apply Forall_cons in Hok as [Hc Hok]. rewrite esc_cons, <- app_assoc.
    rewrite parse_value_step by done.
    assert (1 <= length (enc sep c))%nat by (unfold enc; destruct (_ || _); simpl; lia).
    destruct (IH fuel (x ++ [c]) (drop 1 (g ++ enc sep c)) r (sp + 1)
      (dp + Z.of_nat (length (enc sep c)))) as (g' & -> & Hl);
      [done|rewrite length_app; simpl; lia|rewrite length_drop, length_app; lia|lia|].
    exists g'. rewrite length_drop, !length_app in *. rewrite <- (app_assoc x [c]). simpl length.
    split; [|lia]. f_equal. f_equal; [f_equal|]; lia || (f_equal; lia).
Qed.

Lemma skip_blank_none fuel data dp c : zget data dp = Some c -> isblank c = false ->
  skip_blank (S fuel) data dp = Some dp.
Proof. intros Hg Hb. cbn [skip_blank]. rewrite Hg. cbn [mbind option_bind]. by rewrite Hb. Qed.

Lemma esc_head sep d : sep <> 92 -> value_ok d ->
  exists c t, esc sep d = c :: t /\ c <> 0 /\ c <> sep.
Proof.
  intros Hs [Hok Hne]. destruct d as [|c d]; [done|]. apply Forall_cons in Hok as [Hc _].
  unfold char_ok in Hc. cbn [esc]. destruct ((c =? sep) || (c =? 92)) eqn:E.
  - exists 92, (c :: esc sep d). split; [done|]. split; [done|]. lia.
  - exists c, (esc sep d). split; [done|]. zbool. lia.
Qed.

(** The data part of an iteration on a "name=value" entry: the buffer as it is
    after it, and the strings the table sees. *)
Lemma parse_entry sep k d a r : sep <> 92 -> sep <> 61 -> name_ok sep k -> value_ok d ->
  let buf := a ++ ser sep (k, d) ++ r in
  let i := Z.of_nat (length a) in
  let e := i + Z.of_nat (length k) in
  parse_name (S (length buf)) buf sep i = Some e /\ is_delete buf sep e = Some false /\
  exists buf1 buf2 b3, zset buf e 0 = Some buf1 /\ length buf1 = length buf /\
    parse_value (S (length buf)) buf1 sep (e + 1) (e + 1) =
      Some (buf2, e + 1 + Z.of_nat (length d), e + 1 + Z.of_nat (length (esc sep d))) /\
    zset buf2 (e + 1 + Z.of_nat (length d)) 0 = Some (a ++ k ++ 0 :: d ++ 0 :: b3 ++ r) /\
    (length d + length b3 = length (esc sep d))%nat.
Proof.
  intros Hs92 Hs61 (Hk & H61 & Hsep & _) Hd buf i e.
  assert (Hbuf : buf = a ++ k ++ 61 :: esc sep d ++ sep :: r).
  { unfold buf, ser. cbn [fst snd]. rewrite <- !app_assoc. simpl. by rewrite <- app_assoc. }
  assert (Hlb : (length k + length (esc sep d) < length buf)%nat).
  { rewrite Hbuf, !length_app. simpl. rewrite length_app. simpl. lia. }
  assert (Hle : (length d <= length (esc sep d))%nat).
  { clear. induction d as [|c d IH]; [done|]. rewrite esc_cons, length_app. unfold enc.
    destruct (_ || _); simpl; lia. }
  assert (He : e = Z.of_nat (length (a ++ k))) by (rewrite length_app; unfold e, i; lia).
  split; [|split].
  - rewrite Hbuf at 2. apply parse_name_spec; [done..|lia].
  - unfold is_delete. destruct (esc_head sep d Hs92 Hd) as (c & t & Ht & Hc0 & Hcs).
    rewrite Hbuf, Ht, (app_assoc a k). rewrite (zget_app_head (a ++ k) _ e) by done.
    cbn [mbind option_bind]. change (61 =? 0) with false. cbv iota. cbn [app].
    replace ((a ++ k) ++ 61 :: c :: t ++ sep :: r) with (((a ++ k) ++ [61]) ++ c :: t ++ sep :: r)
      by by rewrite <- (app_assoc (a ++ k)).
    rewrite zget_app_head by (rewrite length_app; simpl; lia). cbn [mbind option_bind].
    f_equal. lia.
  - set (x := (a ++ k) ++ [0]).
    assert (Hx : e + 1 = Z.of_nat (length x)) by (unfold x; rewrite length_app; simpl; lia).
    destruct (parse_value_spec sep d Hs92 (S (length buf)) x [] r (e + 1) (e + 1))
      as (g' & Hpv & Hl); [apply Hd|done|simpl; lia|lia|].
    cbn [app] in Hpv. exists (x ++ esc sep d ++ sep :: r), ((x ++ d) ++ g' ++ sep :: r),
      (drop 1 (g' ++ [sep])). split; [|split; [|split; [done|split]]].
    + rewrite Hbuf, (app_assoc a k), zset_app by (done || (simpl; lia)). done.
    + unfold x. rewrite Hbuf, !length_app. simpl. rewrite !length_app. simpl. lia.
    + rewrite zset_app by (rewrite !length_app; simpl; lia).
      f_equal. unfold x. rewrite <- !app_assoc. simpl.
      assert (drop 1 (g' ++ sep :: r) = drop 1 (g' ++ [sep]) ++ r) as ->; [|done].
      destruct g' as [|y g']; [done|].
      change (g' ++ sep :: r = (g' ++ [sep]) ++ r). by rewrite <- app_assoc.
    + rewrite length_drop, length_app. simpl in *. lia.
Qed.

Section import.
Context `{Hooks}.

Lemma import_step_entry sep flag k d a r h : sep <> 92 -> sep <> 61 -> name_ok sep k -> value_ok d ->
  exists b, length b = length (a ++ ser sep (k, d)) /\
    import_step (a ++ ser sep (k, d) ++ r) sep flag (Z.of_nat (length a)) h [] =
      res ← hsearch_r (mkENTRY (Some k) (Some d) None 0) ENTER h flag;
      Some (Next (b ++ r) (Z.of_nat (length b)) (h_htab res) []).
Proof.
  intros Hs92 Hs61 Hk Hd.
  destruct (parse_entry sep k d a r Hs92 Hs61 Hk Hd)
    as (Hpn & Hdel & buf1 & buf2 & b3 & Hz1 & Hl1 & Hpv & Hz2 & Hl).
  exists (a ++ k ++ 0 :: d ++ 0 :: b3). split.
  { rewrite !length_app, length_ser. simpl. rewrite !length_app. simpl. lia. }
  destruct Hk as (Hkok & _ & _ & Hhead). destruct k as [|c k]; [done|]. destruct Hhead as [Hbl Hcom].
  apply Forall_cons in Hkok as Hkc. destruct Hkc as [Hc _]. unfold char_ok in Hc.
  set (buf := a ++ ser sep (c :: k, d) ++ r) in *.
  assert (Hg : zget buf (Z.of_nat (length a)) = Some c) by (by apply zget_app_head).
  unfold import_step. rewrite (skip_blank_none _ _ _ _ Hg Hbl). cbn [mbind option_bind].
  rewrite Hg. cbn [mbind option_bind]. assert ((c =? 35) = false) as -> by lia.
  rewrite Hpn. cbn [mbind option_bind]. rewrite Hdel. cbn [mbind option_bind].
  rewrite Hz1. cbn [mbind option_bind]. rewrite Hpv. cbn [mbind option_bind]. rewrite Hz2.
  cbn [mbind option_bind]. set (buf3 := a ++ (c :: k) ++ 0 :: d ++ 0 :: b3 ++ r).
  assert (zget buf3 (Z.of_nat (length a)) = Some c) as -> by (by apply zget_app_head).
  cbn [mbind option_bind]. assert ((c =? 0) = false) as -> by lia.
  assert (cstr_in buf3 (Z.of_nat (length a)) = Some (c :: k)) as -> by (by apply cstr_in_spec).
  cbn [mbind option_bind drop_var_from_set negb].
  assert (cstr_in buf3 (Z.of_nat (length a) + Z.of_nat (length (c :: k)) + 1) = Some d) as ->.
  { unfold buf3. replace (a ++ (c :: k) ++ 0 :: d ++ 0 :: b3 ++ r)
      with ((a ++ (c :: k) ++ [0]) ++ d ++ 0 :: b3 ++ r) by (rewrite <- !app_assoc; done).
    apply cstr_in_spec; [apply Hd|]. rewrite !length_app. simpl. lia. }
  cbn [mbind option_bind]. destruct (hsearch_r _ _ _ _) as [res|]; [|done].
  cbn [mbind option_bind]. f_equal. f_equal.
  - unfold buf3. rewrite <- !app_assoc. simpl. by rewrite <- !app_assoc.
  - rewrite !length_app. simpl. rewrite !length_app. simpl. lia.
Qed.

(** Importing needs nobody's permission. *)
Definition permissive (h : hsearch_data) : Prop :=
  change_ok h = None /\ forall h0 e0, env_callback_init h0 e0 = None.

Lemma permissive_accepts h e h0 e0 k d op flag : permissive h ->
  callback e = env_callback_init h0 e0 -> rejected h e k d op flag = false.
Proof.
  intros [Hc Hi] He. unfold rejected, change_rejected, callback_rejected.
  by rewrite Hc, He, Hi.
Qed.

Context (Hmal : forall h n, malloc_ok h n = true).
Context (sep flag : Z) (Hs92 : sep <> 92) (Hs61 : sep <> 61).

Lemma import_entry k d a r h m : name_ok sep k -> value_ok d -> rep h m -> permissive h ->
  m !! k = None -> consumed h < size h ->
  exists b h', length b = length (a ++ ser sep (k, d)) /\
    import_step (a ++ ser sep (k, d) ++ r) sep flag (Z.of_nat (length a)) h [] =
      Some (Next (b ++ r) (Z.of_nat (length b)) h' []) /\
    rep h' (<[k := d]> m) /\ permissive h' /\ size h' = size h /\ consumed h' <= consumed h + 1.
Proof.
  intros Hk Hd Hrep Hper Hmk Hcons.
  destruct (import_step_entry sep flag k d a r h Hs92 Hs61 Hk Hd) as (b & Hb & ->).
  destruct (enter_new h m Hrep k d (proj1 Hk) (proj1 Hd) (Hmal _ _) (Hmal _ _) flag Hmk)
    as (res & -> & e & _ & Hcb & Hc & Hsz & Hch & Hout);
    [by apply (consumed_has_free _ (proj1 Hrep))|].
  destruct (Hcb Hmk) as (h0 & e0 & He).
  rewrite Hmk, (permissive_accepts _ _ _ _ _ _ _ _ Hper He) in Hout.
  destruct Hout as (i & s & h' & -> & Hrep' & _). cbn [h_htab mbind option_bind] in *.
  exists b, h'. split; [done|]. split; [done|]. split; [done|]. split; [|done].
  destruct Hper as [Hch0 Hini]. split; [congruence|done].
Qed.

Lemma ser_head l r : Forall (fun kd => name_ok sep kd.1 /\ value_ok kd.2) l -> l <> [] ->
  exists c t, ser_all sep l ++ r = c :: t /\ c <> 0.
Proof.
  intros Hok Hne. destruct l as [|[k d] l]; [done|]. apply Forall_cons in Hok as [[Hk _] _].
  destruct Hk as (Hk & _ & _ & Hh). destruct k as [|c k]; [done|].
  apply Forall_cons in Hk as [Hc _]. unfold char_ok in Hc.
  eexists c, _. split; [done|]. cbn in Hc. lia.
Qed.

(** The parser on the entries [kd :: l], the table growing from [m]. *)
Lemma import_loop_spec pad l : forall kd a fuel h m n,
  Forall (fun kd => name_ok sep kd.1 /\ value_ok kd.2) (kd :: l) ->
  rep h m -> permissive h -> consumed h + Z.of_nat (length l) < size h ->
  NoDup (kd :: l).*1 -> (forall k, k ∈ (kd :: l).*1 -> m !! k = None) ->
  (length l < fuel)%nat -> n = Z.of_nat (length (a ++ ser_all sep (kd :: l) ++ 0 :: pad)) ->
  exists data' dp' h',
    import_loop fuel (a ++ ser_all sep (kd :: l) ++ 0 :: pad) n sep flag
      (Z.of_nat (length a)) h [] = Some (Next data' dp' h' []) /\
    rep h' (list_to_map (kd :: l) ∪ m).
Proof.
  induction l as [|kd' l IH]; intros [k d] a [|fuel] h m n Hok Hrep Hper Hcons Hnd Hfresh Hf Hn;
    try lia; apply Forall_cons in Hok as [[Hk Hd] Hok]; cbn [fst snd] in Hk, Hd;
    cbn [import_loop];
    (assert (Hmk : m !! k = None) by (apply Hfresh; rewrite fmap_cons; left));
    rewrite ser_all_cons, <- (app_assoc (ser sep (k, d))) in *.
  - destruct (import_entry k d a (ser_all sep [] ++ 0 :: pad) h m Hk Hd Hrep Hper Hmk)
      as (b & h' & Hb & -> & Hrep' & _); [simpl in Hcons; lia|].
    cbn [mbind option_bind ser_all fmap list_fmap concat app].
    rewrite zget_app_head by done. cbn [mbind option_bind].
    exists (b ++ 0 :: pad), (Z.of_nat (length b)), h'. split; [by destruct (_ <? _)|].
    rewrite list_to_map_cons, list_to_map_nil, <- insert_union_l, (left_id_L ∅ (∪)). done.
  - destruct (import_entry k d a (ser_all sep (kd' :: l) ++ 0 :: pad) h m Hk Hd Hrep Hper Hmk)
      as (b & h' & Hb & -> & Hrep' & Hper' & Hsz & Hc); [simpl in Hcons; lia|].
    cbn [mbind option_bind].
    assert (n = Z.of_nat (length (b ++ ser_all sep (kd' :: l) ++ 0 :: pad))) as Hn'.
    { rewrite Hn, !length_app, Hb, !length_app. lia. }
    destruct (ser_head (kd' :: l) (0 :: pad) Hok) as (c & t & Hct & Hc0); [done|].
    assert (zget (b ++ ser_all sep (kd' :: l) ++ 0 :: pad) (Z.of_nat (length b)) = Some c) as ->.
    { rewrite Hct. by apply zget_app_head. }
    assert ((Z.of_nat (length b) <? n) = true) as ->.
    { apply Z.ltb_lt. rewrite Hn', Hct, length_app. simpl. lia. }
    cbn [mbind option_bind]. assert ((c =? 0) = false) as -> by lia. cbn [negb].
    rewrite fmap_cons in Hnd. apply NoDup_cons in Hnd as [Hkn Hnd].
    destruct (IH kd' b fuel h' (<[k := d]> m) n) as (data' & dp' & h2 & Hloop & Hrep2);
      [done..|simpl in Hcons; lia|done| |simpl in Hf; lia|done|].
    { intros k' Hk'. rewrite lookup_insert_ne; [apply Hfresh; rewrite fmap_cons; by right|].
      by intros <-. }
    exists data', dp', h2. split; [done|].
    rewrite list_to_map_cons, <- insert_union_l, insert_union_r; [done|].
    by apply not_elem_of_list_to_map_1.
Qed.

(** Nothing to import: the empty name is deleted in vain. *)
Lemma import_nothing fuel h z : rep h ∅ ->
  exists data' dp', import_loop (S fuel) (0 :: replicate z 0)
    (Z.of_nat (length (0 :: replicate z 0))) sep flag 0 h [] = Some (Next data' dp' h []).
Proof.
  intros Hrep. cbn [import_loop]. unfold import_step.
  rewrite (skip_blank_none _ _ 0 0) by done. cbn [mbind option_bind].
  change (zget (0 :: replicate z 0) 0) with (Some 0). cbn [mbind option_bind].
  change (0 =? 35) with false. cbv iota. cbn [parse_name].
  change (zget (0 :: replicate z 0) 0) with (Some 0). cbn [mbind option_bind].
  change (negb (0 =? 61) && negb (0 =? 0) && negb (0 =? sep)) with false. cbv iota.
  cbn [mbind option_bind]. change (is_delete (0 :: replicate z 0) sep 0) with (Some true).
  cbn [mbind option_bind].
  change (zget (0 :: replicate z 0) 0) with (Some 0). cbn [mbind option_bind].
  change (0 =? 61) with false. cbv iota. cbn [mbind option_bind].
  assert (zset (0 :: replicate z 0) 0 0 = Some (0 :: replicate z 0)) as ->
    by (by apply (zset_middle [])).
  cbn [mbind option_bind]. change (cstr_in (0 :: replicate z 0) 0) with (Some (@nil Z)).
  cbn [mbind option_bind drop_var_from_set].
  cbn [negb]. rewrite (hdelete_absent h ∅ [] flag Hrep); [|constructor|apply lookup_empty].
  cbn [mbind option_bind].
  change (0 + 1) with 1. destruct (Z.ltb_spec 1 (Z.of_nat (length (0 :: replicate z 0)))) as [Hl|Hl].
  - assert (zget (0 :: replicate z 0) 1 = Some 0) as ->.
    { destruct z; [simpl in Hl; lia|done]. }
    cbn [mbind option_bind]. change (negb (0 =? 0)) with false. cbv iota. eauto.
  - eauto.
Qed.

Lemma destroy_loop_ok n : forall h i, wf h -> 1 <= i -> i + Z.of_nat n <= size h + 1 ->
  exists l, destroy_loop n h i = Some l.
Proof.
  induction n as [|n IH]; intros h i Hw Hi Hn; cbn [destroy_loop]; [by eexists|].
  destruct (wf_slot_some h i Hw) as [s ->]; [lia|]. cbn [mbind option_bind].
  destruct (IH h (i + 1) Hw) as [l ->]; [lia..|]. cbn [mbind option_bind]. by eexists.
Qed.

(** The table the import starts from. *)
Lemma import_clear h : table h = None \/ wf h -> exists h',
  match table h with Some _ => '(_, h) ← hdestroy_r h; Some h | None => Some h end = Some h' /\
  table h' = None /\ change_ok h' = change_ok h.
Proof.
  intros [Ht|Hw]; [rewrite Ht; eauto|].
  destruct (wf_table _ Hw) as (t & Ht & _ & _). rewrite Ht. unfold hdestroy_r.
  pose proof (wf_size _ Hw).
  destruct (destroy_loop_ok (Z.to_nat (size h)) h 1 Hw) as [l ->]; [lia..|].
  cbn [mbind option_bind]. by eexists.
Qed.

Lemma import_create_ok h n : table h = None -> 0 <= n < 2 ^ 31 ->
  exists p, import_create n h = Some (true, fresh p (change_ok h)) /\
    Z.min 512 (64 + n / 8) <= p /\ 64 <= p < 2 ^ 31 /\ Z.prime p /\ rep (fresh p (change_ok h)) ∅.
Proof.
  intros Ht Hn. unfold import_create. rewrite Ht.
  assert (0 <= n / 8 < 2 ^ 29) as Hq.
  { split; [apply Z.div_pos; lia|]. apply Z.div_lt_upper_bound; lia. }
  assert (s32 (CONFIG_ENV_MIN_ENTRIES + n / 8) = 64 + n / 8) as ->.
  { unfold to_signed, CONFIG_ENV_MIN_ENTRIES. rewrite wrap_small by lia. bcase; lia. }
  assert ((if CONFIG_ENV_MAX_ENTRIES <? 64 + n / 8 then CONFIG_ENV_MAX_ENTRIES else 64 + n / 8)
    = Z.min 512 (64 + n / 8)) as -> by (unfold CONFIG_ENV_MAX_ENTRIES; bcase; lia).
  rewrite (wrap_small 64) by lia.
  destruct (hcreate_spec h (Z.min 512 (64 + n / 8)) Ht) as (p & -> & Hp & Hpr & Hrep); [lia|done|].
  cbn [mbind option_bind]. exists p. split; [done|]. split; [lia|]. split; [lia|done].
Qed.

(** Importing the linearised pairs [l] into a fresh table. *)
Lemma himport_spec h l z n : table h = None \/ wf h -> permissive h ->
  Z.land flag H_NOCLEAR = 0 ->
  Forall (fun kd => name_ok sep kd.1 /\ value_ok kd.2) l -> NoDup l.*1 ->
  n = Z.of_nat (length (ser_all sep l ++ 0 :: replicate z 0)) -> n < 2 ^ 31 ->
  Z.of_nat (length l) <= Z.min 512 (64 + n / 8) ->
  exists h', himport_r h (ser_all sep l ++ 0 :: replicate z 0) n sep flag false [] =
      Some (1, None, h') /\ rep h' (list_to_map l).
Proof.
  intros Htab Hper Hflag Hok Hnd Hn Hn31 Hfit. unfold himport_r. rewrite Hmal. cbn [negb].
  assert ((Z.of_nat (length (ser_all sep l ++ 0 :: replicate z 0)) <? n) = false) as -> by lia.
  rewrite Hflag. change (0 =? 0) with true. cbv iota.
  destruct (import_clear h Htab) as (h1 & -> & Ht1 & Hch). cbn [mbind option_bind].
  destruct (import_create_ok h1 n Ht1) as (p & -> & Hfp & Hp & Hpr & Hrep); [lia|].
  cbn [mbind option_bind negb].
  assert ((n =? 0) = false) as -> by (rewrite length_app in Hn; simpl in Hn; lia).
  cbn [mbind option_bind fmap list_fmap]. rewrite take_ge by lia.
  pose proof (proj2 (fresh_rep p (change_ok h1) Hpr ltac:(lia))) as Hcons.
  assert (permissive (fresh p (change_ok h1))) as Hper'.
  { destruct Hper as [Hc Hi]. split; [simpl; congruence|done]. }
  destruct l as [|kd l].
  - destruct (import_nothing (length (ser_all sep [] ++ 0 :: replicate z 0)) _ z Hrep)
      as (data' & dp' & Hloop). rewrite Hn. cbn [ser_all fmap list_fmap concat app] in *.
    rewrite Hloop. cbn [mbind option_bind delete_rest]. by eexists.
  - destruct (import_loop_spec (replicate z 0) l kd []
      (S (length (ser_all sep (kd :: l) ++ 0 :: replicate z 0))) _ ∅ n Hok Hrep Hper')
      as (data' & dp' & h' & Hloop & Hrep');
      [rewrite Hcons; simpl in *; lia|done|by intros; apply lookup_empty| |done|].
    { rewrite length_app. pose proof (ser_all_length sep (kd :: l)). simpl in *. lia. }
    cbn [app length] in Hloop. change (Z.of_nat 0) with 0 in Hloop. rewrite Hloop. cbn [mbind option_bind delete_rest].
    exists h'. split; [done|]. by rewrite (right_id_L ∅ (∪)) in Hrep'.
Qed.

End import.

(** *** Export as a whole *)

Lemma esc_length_perm sep l l' : l ≡ₚ l' -> length (ser_all sep l) = length (ser_all sep l').
Proof. induction 1; rewrite ?ser_all_cons, ?length_app in *; lia. Qed.

Lemma room_ser sep l : sep <> 0 ->
  room sep l = Z.of_nat (length (ser_all sep l)) + 2 * Z.of_nat (length l).
Proof.
  intros Hs. induction l as [|kd l IH]; [done|].
  rewrite room_cons, ser_all_cons, length_app, length_ser, IH.
  assert ((sep =? 0) = false) as -> by lia. simpl length. lia.
Qed.

Lemma room_nonneg sep l : 0 <= room sep l.
Proof. induction l as [|kd l IH]; [done|]. rewrite room_cons. bcase; lia. Qed.

(** Sorting keeps the entries. *)
Lemma qsort_entries l : exists l', Qsort.qsort cmpkey 8 l (Z.of_nat (length l)) = Some l' /\ l' ≡ₚ l.
Proof. by apply Qsort.qsort_perm. Qed.

Lemma pair_key e k d : pair_of e = (k, d) -> full e -> key e = Some k.
Proof. intros Hp [[k' Hk] _]. unfold pair_of in Hp. rewrite Hk in *. by simplify_eq/=. Qed.

Lemma cmpkey_lex e1 e2 : full e1 -> full e2 -> ascii_str (pair_of e1).1 -> ascii_str (pair_of e2).1 ->
  (cmpkey e1 e2 <=? 0) = lex_le (pair_of e1).1 (pair_of e2).1.
Proof.
  intros [[k1 H1] _] [[k2 H2] _]. unfold cmpkey, pair_of. rewrite H1, H2. simpl. apply strcmp_lex.
Qed.

(** With ASCII names, sorting by [cmpkey] is sorting by name. *)
Lemma qsort_by_name l l' : Forall full l -> Forall (fun e => ascii_str (pair_of e).1) l ->
  Qsort.qsort cmpkey 8 l (Z.of_nat (length l)) = Some l' ->
  StronglySorted (fun a b => lex_le a b = true) (pair_of <$> l').*1.
Proof.
  intros Hf Ha Hq. rewrite Forall_forall in Hf, Ha.
  assert (Hle : forall e1 e2, e1 ∈ l -> e2 ∈ l ->
    Qsort.le cmpkey e1 e2 <-> lex_le (pair_of e1).1 (pair_of e2).1 = true).
  { intros e1 e2 H1 H2. unfold Qsort.le.
    rewrite <- Z.leb_le, (cmpkey_lex e1 e2) by auto. done. }
  destruct (Qsort.qsort_sorted cmpkey 8 l) as (l2 & Hq2 & Hs); [lia| | |].
  { intros a b c Ha' Hb' Hc'. rewrite !Hle by done. apply lex_le_trans. }
  { intros a b Ha' Hb'. rewrite !Hle by done. apply lex_le_total. }
  rewrite Hq in Hq2. injection Hq2 as <-.
  destruct (Qsort.qsort_perm cmpkey 8 l) as (l3 & Hq3 & Hp); [lia|].
  rewrite Hq in Hq3. injection Hq3 as <-.
  assert (Hin : Forall (.∈ l) l') by (apply Forall_forall; intros e He; by rewrite <- Hp).
  clear Hq Hp. induction Hs as [|e l1 Hs IH Hall]; [constructor|].
  apply Forall_cons in Hin as [He Hin]. rewrite !fmap_cons. constructor; [by apply IH|].
  rewrite !Forall_fmap. rewrite Forall_forall in *. intros e' He'. simpl.
  apply Hle; auto.
Qed.

Section props.
Context `{Hooks}.

(** What [hexport_r] does for all variables: the buffer is the pairs, one
    after the other, with zeros up to its size. *)
Lemma hexport_spec h m sep flag size_ : rep h m -> Z.land flag H_HIDE_DOT = 0 -> 0 <= size_ ->
  (forall n, malloc_ok h n = true) ->
  sep <> 0 \/ Z.of_nat (length (ser_all 0 (map_to_list m))) <= room 0 (map_to_list m) ->
  let need := room sep (map_to_list m) + 1 in
  exists l, l ≡ₚ map_to_list m /\
    (Forall (fun kd => ascii_str kd.1) l -> StronglySorted (fun a b => lex_le a b = true) l.*1) /\
    hexport_r h sep flag None size_ [] =
      if negb (size_ =? 0) && (size_ <? need) then Some (-1, Some ENOMEM, None)
      else
        let n := if size_ =? 0 then need else size_ in
        Some (n, None, Some (ser_all sep l ++ 0 :: replicate (Z.to_nat n - 1 - length (ser_all sep l)) 0)).
Proof.
  intros Hrep Hflag Hsz Hmal Hroom need. pose proof (proj1 Hrep) as Hw.
  pose proof (wf_size _ Hw). set (lv := lives (Z.to_nat (size h)) h 1).
  pose proof (lives_full (Z.to_nat (size h)) h 1 Hw) as Hfull. fold lv in Hfull.
  destruct (qsort_entries lv) as (l' & Hq & Hp).
  assert (Hpm : pair_of <$> l' ≡ₚ map_to_list m) by (rewrite Hp; by apply lives_map).
  exists (pair_of <$> l'). split; [done|]. split.
  { intros Ha. apply (qsort_by_name lv l'); [done| |done]. rewrite Forall_fmap in Ha.
    rewrite <- Hp. done. }
  unfold hexport_r. rewrite export_scan_spec by (done || lia). fold lv. cbn [mbind option_bind].
  rewrite Hq. cbn [mbind option_bind]. rewrite Z.add_0_l.
  rewrite (room_perm sep (pair_of <$> lv) (map_to_list m)) by (rewrite <- Hp; done). fold need.
  destruct (negb (size_ =? 0) && (size_ <? need)) eqn:E; [done|]. rewrite Hmal.
  set (n := if size_ =? 0 then need else size_). set (t := ser_all sep (pair_of <$> l')).
  assert (Hfit : Z.of_nat (length t) < n).
  { assert (Z.of_nat (length t) < need) as Ht.
    { unfold t, need. rewrite (esc_length_perm _ _ _ Hpm). destruct (decide (sep = 0)) as [->|Hs].
      - destruct Hroom; [done|lia].
      - rewrite room_ser by done. lia. }
    unfold n. apply andb_false_iff in E as [E|E]; zbool; bcase; lia. }
  assert (Hfull' : Forall full l') by (by rewrite Hp).
  pose proof (export_list_spec sep l' Hfull' [] (replicate (Z.to_nat n) 0) 0 eq_refl) as He.
  fold t in He. rewrite length_replicate in He. cbn [app] in He. rewrite He by lia.
  cbn [mbind option_bind]. rewrite Z.add_0_l, drop_replicate.
  rewrite zset_app by (done || rewrite length_replicate; lia). cbn [mbind option_bind].
  rewrite drop_replicate, <- app_assoc.
  by replace (Z.to_nat n - length t - 1)%nat with (Z.to_nat n - 1 - length t)%nat by lia.
Qed.

(** The same text goes into a buffer of the caller that has exactly the given
    size. *)
Lemma hexport_into h sep flag size_ res n buf : (forall n, malloc_ok h n = true) ->
  size_ = Z.of_nat (length res) -> size_ <> 0 ->
  hexport_r h sep flag None size_ [] = Some (n, None, Some buf) ->
  hexport_r h sep flag (Some res) size_ [] = Some (n, None, Some buf).
Proof.
  intros Hmal Hsz Hne. unfold hexport_r.
  destruct (export_scan _ _ _ _ _ _ _) as [[l tot]|]; [|done]. cbn [mbind option_bind].
  destruct (Qsort.qsort _ _ _ _) as [l'|]; [|done]. cbn [mbind option_bind].
  destruct (negb (size_ =? 0) && (size_ <? tot + 1)); [done|].
  rewrite Hmal, (proj2 (Z.eqb_neq size_ 0)) by done.
  rewrite (proj2 (Z.leb_le size_ _)) by lia.
  rewrite drop_ge by lia. by rewrite app_nil_r.
Qed.

(** Exporting the whole table: with a separator, or with NUL and few
    enough backslashes, the buffer receives the "name=value" pairs of the map,
    each once and ordered by name when the names are ASCII, escaped,
    separated, terminated and zero-padded, without leaving the buffer; a
    caller's size that is too small is refused with ENOMEM. *)
Theorem hexport_correct h m sep flag size_ : rep h m -> Z.land flag H_HIDE_DOT = 0 -> 0 <= size_ ->
  (forall n, malloc_ok h n = true) ->
  sep <> 0 \/ Z.of_nat (length (ser_all 0 (map_to_list m))) <= room 0 (map_to_list m) ->
  let need := room sep (map_to_list m) + 1 in
  exists l, l ≡ₚ map_to_list m /\
    (Forall (fun kd => ascii_str kd.1) l -> StronglySorted (fun a b => lex_le a b = true) l.*1) /\
    hexport_r h sep flag None size_ [] =
      if negb (size_ =? 0) && (size_ <? need) then Some (-1, Some ENOMEM, None)
      else
        let n := if size_ =? 0 then need else size_ in
        Some (n, None, Some (ser_all sep l ++ 0 :: replicate (Z.to_nat n - 1 - length (ser_all sep l)) 0)).
Proof. apply hexport_spec. Qed.


End props.

(** ** Concrete runs *)

(** A table with the variable "a". *)
Definition one (d : bytes) : hsearch_data :=
  default five (do_hops (H := plain_hooks) five [Enter (str "a") d]).

(** With the separator NUL, pass 2 of [hexport_r] still escapes
    backslashes, although the comment says it does not and pass 1 does not
    count them: a value of three backslashes makes it write past the end of
    the buffer it has just allocated. *)
Theorem hexport_nul_overflows :
  find_value (H := plain_hooks) (one [92; 92; 92]) (str "a") = Some [92; 92; 92] /\
  hexport_r (H := plain_hooks) (one [92; 92; 92]) 0 0 None 0 [] = None /\
  hexport_r (H := plain_hooks) (one [92]) 0 0 None 0 [] =
    Some (7, None, Some [97; 61; 92; 92; 0; 0; 0]).
Proof. split; [vm_compute; reflexivity|]. split; vm_compute; reflexivity. Qed.

(** [himport_r] stops at [size] only between entries: text that does not
    end in a separator or NUL is read (and its terminator written) past the
    end of the private copy, in spite of the comment on the loop condition. *)
Theorem himport_unterminated_overreads :
  himport_r (H := plain_hooks) no_table (str "a=1") 3 10 0 false [] = None /\
  exists h, himport_r (H := plain_hooks) no_table (str "a=1" ++ [10]) 4 10 0 false [] =
    Some (1, None, h) /\ find_value (H := plain_hooks) h (str "a") = Some (str "1").
Proof.
  split; [vm_compute; reflexivity|].
  destruct (himport_r (H := plain_hooks) no_table (str "a=1" ++ [10]) 4 10 0 false [])
    as [[[ret e] h]|] eqn:E; vm_compute in E; [|discriminate E].
  injection E as <- <- <-. eexists. split; [reflexivity|]. vm_compute. reflexivity.
Qed.

Definition demo_map : gmap bytes bytes := {[ str "a" := str "x" ]}.

Lemma demo_rep : exists h, rep h demo_map.
Proof.
  destruct (enter_new (H := plain_hooks) five ∅ five_rep (str "a") (str "x"))
    with (flag := 0) as (r & _ & e & _ & Hcb & Hout); try done; [by repeat constructor..|apply five_free|].
  destruct (Hcb eq_refl) as (h0 & e0 & He). rewrite lookup_empty in Hout. cbv zeta in Hout.
  rewrite (permissive_accepts (H := plain_hooks) five e h0 e0) in Hout by done.
  destruct Hout as (_ & _ & _ & i & s & h' & _ & Hrep & _). by exists h'.
Qed.

Lemma hexport_correct_witness : exists h l, l ≡ₚ map_to_list demo_map /\
  hexport_r (H := plain_hooks) h 10 0 None 3 [] = Some (-1, Some ENOMEM, None).
Proof.
  destruct demo_rep as [h Hrep]. exists h.
  destruct (hexport_correct (H := plain_hooks) h demo_map 10 0 3 Hrep) as (l & Hl & _ & Hex);
    [reflexivity | lia | done | left; lia |].
  exists l. split; [exact Hl|]. exact Hex.
Defined.


End HashExport.
