(* ===== verification/EnvAttr.v ===== *)
(** * Attribute lists of environment variables (common/env_attr.c,
      lib/linux_string.c)

    A list "name:attributes,name:attributes,..." gives variables their flags
    or callbacks.  Strings are values (bytes without the terminating NUL);
    pointers into the list are indices.  [env_attr_lookup] also reads bytes in
    front of the list: [before] are those bytes, the nearest first. *)

From S2P Require Import Prelude Ctype CString Hashtable.

Module EnvAttr.
Import Ctype CString Hashtable.

Definition ENV_ATTR_LIST_DELIM : Z := 44.
Definition ENV_ATTR_SEP : Z := 58.

(** ** lib/linux_string.c *)

Fixpoint skip_spaces (s : bytes) : bytes :=
  match s with
  | [] => []
  | c :: s' => if isspace c then skip_spaces s' else s
  end.

(** [end = s + size - 1; while (end >= s && isspace( *end)) end--;] with [n]
    the number of characters kept. *)
Fixpoint trim_end (n : nat) (s : bytes) : nat :=
  match n with
  | O => O
  | S n' =>
      match s !! n' with
      | Some c => if isspace c then trim_end n' s else n
      | None => n
      end
  end.

Definition strim (s : bytes) : bytes :=
  let s := skip_spaces s in
  if (length s =? 0)%nat then s else take (trim_end (length s) s) s.

(** ** Walking a list *)

(** [strchr]: what is in front of the first [c], and what is behind it. *)
Fixpoint split_chr (c : Z) (s : bytes) : bytes * option bytes :=
  match s with
  | [] => ([], None)
  | x :: s' =>
      if x =? c then ([], Some s')
      else let '(a, b) := split_chr c s' in (x :: a, b)
  end.

Section walk.
Context {St : Type} (malloc_ok : Z -> bool) (callback : St -> bytes -> option bytes -> Z * St).

(** The part of the loop body that works on the copy of one entry. *)
Definition walk_entry (st : St) (entry_cpy : bytes) : Z * St :=
  let '(name, attributes) := split_chr ENV_ATTR_SEP entry_cpy in
  let attributes := strim <$> attributes in
  let name := strim name in
  if negb (length name =? 0)%nat then callback st name attributes else (0, st).

Fixpoint walk_loop (fuel : nat) (st : St) (entry : bytes) : option (Z * St) :=
  match fuel with
  | O => None
  | S fuel' =>
      let '(this, rest) := split_chr ENV_ATTR_LIST_DELIM entry in
      let next st := match rest with None => Some (0, st) | Some entry => walk_loop fuel' st entry end in
      if negb (length this =? 0)%nat then
        if malloc_ok (Z.of_nat (length this) + 1) then
          let '(retval, st) := walk_entry st this in
          if negb (retval =? 0) then Some (retval, st) else next st
        else Some (- ENOMEM, st)
      else next st
  end.

Definition env_attr_walk (attr_list : option bytes) (st : St) : option (Z * St) :=
  match attr_list with
  | None => Some (1, st)
  | Some l => walk_loop (S (length l)) st l
  end.

End walk.

(** ** Looking a name up *)

(** The first position of [t] in [s]; [CString.strstr_first] shows that this
    is what [strstr] computes. *)
Fixpoint strstr_pos (s t : bytes) : option nat :=
  if bool_decide (t `prefix_of` s) then Some O
  else match s with [] => None | _ :: s' => S <$> strstr_pos s' t end.

Fixpoint reverse_loop (fuel : nat) (list search_for : bytes) (searched_start : option nat)
    (searched : nat) (result : option nat) : option (option nat) :=
  match fuel with
  | O => None
  | S fuel' =>
      match strstr_pos (drop searched list) search_for with
      | None => Some result
      | Some i =>
          let m := (searched + i)%nat in
          if match searched_start with
             | Some e => (e <? m + length search_for)%nat
             | None => false
             end
          then Some result
          else reverse_loop fuel' list search_for searched_start (S m) (Some m)
      end
  end.

(** [searched] is the start of the list in every call. *)
Definition reverse_strstr (list search_for : bytes) (searched_start : option nat) :
    option (option nat) :=
  if (length search_for =? 0)%nat then Some (Some O)
  else reverse_loop (S (length list)) list search_for searched_start O None.

(** The character at index [i] of the list, its NUL included. *)
Definition at_ (list : bytes) (i : nat) : option Z := (list ++ [0]) !! i.

(** [while ( *nextch == ' ') nextch++;], [s] what is left of the list. *)
Fixpoint skip_fwd (s : bytes) (i : nat) : nat :=
  match s with
  | [] => i
  | c :: s' => if c =? 32 then skip_fwd s' (S i) else i
  end.

(** [while ( *prevch == ' ') prevch--;] on the bytes in front of the entry,
    the nearest first; the character it stops at. *)
Fixpoint skip_back (s : bytes) : option Z :=
  match s with
  | [] => None
  | c :: s' => if c =? 32 then skip_back s' else Some c
  end.

Definition prev_char (before list : bytes) (entry : nat) : option Z :=
  skip_back (reverse (take entry list) ++ before).

Definition next_char (list : bytes) (i : nat) : option Z := at_ list (skip_fwd (drop i list) i).

(** The test for an exact match; reads both neighbours first. *)
Definition is_exact (before list name : bytes) (entry : nat) : option bool :=
  prevch ← prev_char before list entry;
  nextch ← next_char list (entry + length name);
  Some (((entry =? 0)%nat || (prevch =? ENV_ATTR_LIST_DELIM)) &&
        ((nextch =? ENV_ATTR_SEP) || (nextch =? ENV_ATTR_LIST_DELIM) || (nextch =? 0))).

Fixpoint lookup_loop (fuel : nat) (before list name : bytes) (entry : option nat) :
    option (option nat) :=
  match fuel with
  | O => None
  | S fuel' =>
      match entry with
      | None => Some None
      | Some e =>
          ok ← is_exact before list name e;
          if ok : bool then Some (Some e)
          else entry ← reverse_strstr list name (Some e); lookup_loop fuel' before list name entry
      end
  end.

(** The attributes of the entry whose name ends at [i]: up to the next comma
    or space, [strpbrk(entry, ", ")]. *)
Fixpoint until_delim (s : bytes) : bytes :=
  match s with
  | [] => []
  | c :: s' => if (c =? ENV_ATTR_LIST_DELIM) || (c =? 32) then [] else c :: until_delim s'
  end.

Definition attr_text (list : bytes) (i : nat) : option bytes :=
  let i := skip_fwd (drop i list) i in
  c ← at_ list i;
  if negb (c =? ENV_ATTR_SEP) then Some []
  else
    let i := S i in
    let i := skip_fwd (drop i list) i in
    Some (until_delim (drop i list)).

(** Returns the code and, on success, the string left in [attributes], a
    buffer of [cap] bytes. *)
Definition env_attr_lookup (before : bytes) (attr_list : option bytes) (name : bytes) (cap : Z) :
    option (Z * option bytes) :=
  match attr_list with
  | None => Some (1, None)
  | Some list =>
      entry ← reverse_strstr list name None;
      entry ← lookup_loop (S (S (length list))) before list name entry;
      match entry with
      | None => Some (2, None)
      | Some e =>
          attributes ← attr_text list (e + length name);
          if Z.of_nat (length attributes) <? cap then Some (0, Some attributes) else None
      end
  end.

(** ** Lemmas *)

(** [res] is the greatest position with property [P]. *)
Definition is_last (P : nat -> Prop) (res : option nat) : Prop :=
  match res with
  | Some m => P m /\ forall m', P m' -> (m' <= m)%nat
  | None => forall m, ~ P m
  end.

Lemma strstr_pos_spec s t :
  match strstr_pos s t with
  | Some i => occurs_at s t i /\ forall j, (j < i)%nat -> ~ occurs_at s t j
  | None => forall i, ~ occurs_at s t i
  end.
Proof.
  induction s as [|x s IH]; cbn [strstr_pos].
  - destruct (bool_decide_reflect (t `prefix_of` [])) as [Hp|Hp]; [split; [done|lia]|].
    intros i Hi. apply Hp. unfold occurs_at in Hi. by rewrite drop_nil in Hi.
  - destruct (bool_decide_reflect (t `prefix_of` x :: s)) as [Hp|Hp]; [split; [done|lia]|].
    destruct (strstr_pos s t) as [i|]; simpl.
    + destruct IH as [Hi Hj]. split; [done|]. intros [|j] Hlt; [done|]. apply Hj. lia.
    + intros [|i]; [done|]. apply IH.
Qed.

Lemma occurs_drop s t k i : occurs_at (drop k s) t i <-> occurs_at s t (k + i).
Proof. unfold occurs_at. by rewrite drop_drop. Qed.

Lemma occurs_bound s t m : t <> [] -> occurs_at s t m -> (m + length t <= length s)%nat.
Proof.
  intros Ht H%occurs_at_length. destruct t; [done|]. simpl in *. lia.
Qed.

(** A match that [reverse_strstr] accepts. *)
Definition within (list t : bytes) (start : option nat) (m : nat) : Prop :=
  occurs_at list t m /\ match start with Some e => (m + length t <= e)%nat | None => True end.

Lemma reverse_loop_spec list t start : t <> [] -> forall fuel searched result,
  (length list - searched < fuel)%nat ->
  is_last (fun m => within list t start m /\ (m < searched)%nat) result ->
  (forall m, occurs_at list t m -> (m < searched)%nat -> within list t start m) ->
  exists res, reverse_loop fuel list t start searched result = Some res /\
    is_last (within list t start) res.
Proof.
  intros Ht. induction fuel as [|fuel IH]; intros searched result Hf Hlast Hall; [lia|].
  cbn [reverse_loop]. pose proof (strstr_pos_spec (drop searched list) t) as Hpos.
  assert (Hstop : (forall m, within list t start m -> (m < searched)%nat) ->
    is_last (within list t start) result).
  { intros Hlt. destruct result as [r|]; simpl in *.
    - destruct Hlast as [[Hr _] Hmax]. split; [done|]. intros m Hm. apply Hmax. auto.
    - intros m Hm. apply (Hlast m). auto. }
  destruct (strstr_pos (drop searched list) t) as [i|].
  - destruct Hpos as [Hi Hfirst]. apply occurs_drop in Hi.
    assert (Hfirst' : forall m, occurs_at list t m -> (searched <= m)%nat -> (searched + i <= m)%nat).
    { intros m Hm Hle. destruct (decide (searched + i <= m)%nat) as [|Hgt]; [done|].
      destruct (Hfirst (m - searched)%nat); [lia|]. apply occurs_drop.
      by replace (searched + (m - searched))%nat with m by lia. }
    destruct (match start with Some e => (e <? searched + i + length t)%nat | None => false end) eqn:E.
    + eexists. split; [done|]. apply Hstop. intros m [Hm Hlim]. destruct start as [e|]; [|done].
      apply Nat.ltb_lt in E. destruct (decide (m < searched)%nat) as [|Hge]; [done|].
      pose proof (Hfirst' m Hm ltac:(lia)). lia.
    + assert (Hin : within list t start (searched + i)).
      { split; [done|]. destruct start as [e|]; [|done]. by apply Nat.ltb_ge in E. }
      pose proof (occurs_bound _ _ _ Ht Hi). assert (0 < length t)%nat by (destruct t; simpl; [done|lia]).
      apply IH; [lia| |].
      * split; [split; [done|lia]|]. intros m [_ Hm]. lia.
      * intros m Hm Hlt. destruct (decide (m < searched)%nat) as [|Hge]; [by apply Hall|].
        pose proof (Hfirst' m Hm ltac:(lia)). by replace m with (searched + i)%nat by lia.
  - eexists. split; [done|]. apply Hstop. intros m [Hm _].
    destruct (decide (m < searched)%nat) as [|Hge]; [done|]. destruct (Hpos (m - searched)%nat).
    apply occurs_drop. by replace (searched + (m - searched))%nat with m by lia.
Qed.

Lemma reverse_strstr_spec list t start : t <> [] ->
  exists res, reverse_strstr list t start = Some res /\ is_last (within list t start) res.
Proof.
  intros Ht. unfold reverse_strstr. destruct t as [|c t]; [done|]. cbn [length Nat.eqb].
  apply reverse_loop_spec; [done|lia| |lia]. intros m [_ Hm]. lia.
Qed.

Lemma skip_fwd_bound s i : (skip_fwd s i <= i + length s)%nat.
Proof.
  revert i. induction s as [|c s IH]; intros i; simpl; [lia|]. bcase; [|lia].
  pose proof (IH (S i)). lia.
Qed.

Lemma next_char_some list i : (i <= length list)%nat -> exists c, next_char list i = Some c.
Proof.
  intros Hi. unfold next_char, at_. apply lookup_lt_is_Some. rewrite length_app. simpl.
  pose proof (skip_fwd_bound (drop i list) i) as Hb. rewrite length_drop in Hb. lia.
Qed.

Lemma skip_back_some s c before : c <> 32 -> exists x, skip_back (s ++ c :: before) = Some x.
Proof.
  intros Hc. induction s as [|y s IH]; simpl.
  - rewrite (proj2 (Z.eqb_neq _ _) Hc). eauto.
  - bcase; eauto.
Qed.

Lemma until_delim_length s : (length (until_delim s) <= length s)%nat.
Proof. induction s as [|c s IH]; simpl; [lia|]. destruct (_ || _); simpl; lia. Qed.

Lemma attr_text_total list i : (i <= length list)%nat ->
  exists a, attr_text list i = Some a /\ (length a <= length list)%nat.
Proof.
  intros Hi. unfold attr_text. destruct (next_char_some list i Hi) as [c Hc].
  unfold next_char in Hc. rewrite Hc. cbn [mbind option_bind]. bcase.
  - exists []. split; [done|]. simpl. lia.
  - eexists. split; [done|]. etransitivity; [apply until_delim_length|].
    rewrite length_drop. lia.
Qed.

(** A plain name has none of the characters that end a name in a list. *)
Definition plain (name : bytes) : Prop :=
  name <> [] /\ Forall (fun c => 0 < c /\ c <> 32 /\ c <> ENV_ATTR_SEP /\ c <> ENV_ATTR_LIST_DELIM) name.

(** The name stands at [e] as a whole entry name. *)
Definition exact (before list name : bytes) (e : nat) : Prop :=
  occurs_at list name e /\ is_exact before list name e = Some true.

Section lookup.
Context (b : Z) (before' list name : bytes) (Hb : b <> 32) (Hname : plain name).

#[local] Abbreviation before := (b :: before').

Lemma is_exact_total e : (e + length name <= length list)%nat ->
  exists r, is_exact before list name e = Some r.
Proof.
  intros He. unfold is_exact, prev_char.
  destruct (skip_back_some (reverse (take e list)) b before' Hb) as [x ->].
  destruct (next_char_some list (e + length name)) as [c ->]; [done|]. cbn [mbind option_bind]. eauto.
Qed.

Lemma occurs_lookup t s m i : occurs_at s t m -> (i < length t)%nat -> s !! (m + i)%nat = t !! i.
Proof.
  intros [k Hk] Hi. rewrite <- lookup_drop, Hk. by apply lookup_app_l.
Qed.

(** Whole entries do not overlap other occurrences of the name to their right. *)
Lemma exact_no_overlap m e : exact before list name m -> occurs_at list name e -> (m < e)%nat ->
  (m + length name <= e)%nat.
Proof.
  intros [Hm Hex] He Hlt. destruct (decide (m + length name <= e)%nat) as [|Hgt]; [done|exfalso].
  destruct Hname as [Hne Hall].
  assert (Hlen : (m + length name - e < length name)%nat) by lia.
  pose proof (occurs_lookup name list e (m + length name - e) He Hlen) as Hl.
  replace (e + (m + length name - e))%nat with (m + length name)%nat in Hl by lia.
  destruct (lookup_lt_is_Some_2 name _ Hlen) as [c Hc]. rewrite Hc in Hl.
  pose proof (proj1 (Forall_lookup _ _) Hall _ _ Hc) as (Hpos & H32 & Hsep & Hdel).
  unfold is_exact, next_char, at_ in Hex. rewrite (drop_S _ _ _ Hl) in Hex.
  cbn [skip_fwd] in Hex. rewrite (proj2 (Z.eqb_neq _ _) H32) in Hex.
  rewrite (lookup_app_l_Some _ _ _ _ Hl) in Hex.
  destruct (prev_char before list m) as [x|]; [|done]. cbn [mbind option_bind] in Hex.
  injection Hex as Hex. apply andb_prop in Hex as [_ Hex].
  rewrite (proj2 (Z.eqb_neq _ _) Hsep), (proj2 (Z.eqb_neq _ _) Hdel) in Hex. simpl in Hex. lia.
Qed.

Lemma lookup_loop_spec : forall fuel start entry,
  is_last (within list name start) entry ->
  (forall m, exact before list name m -> within list name start m) ->
  (match entry with Some e => S e | None => 0 end < fuel)%nat ->
  exists res, lookup_loop fuel before list name entry = Some res /\
    is_last (exact before list name) res.
Proof.
  induction fuel as [|fuel IH]; intros start entry Hlast Hall Hf; [lia|]. cbn [lookup_loop].
  destruct entry as [e|].
  - destruct Hlast as [[He Hlim] Hmax]. destruct Hname as [Hne _].
    destruct (is_exact_total e) as [r Hr]; [by apply occurs_bound|].
    rewrite Hr. cbn [mbind option_bind]. destruct r.
    + eexists. split; [done|]. split; [done|]. intros m Hm. by apply Hmax, Hall.
    + destruct (reverse_strstr_spec list name (Some e) Hne) as (entry' & -> & Hlast').
      cbn [mbind option_bind]. apply (IH (Some e)); [done| |].
      * intros m Hm. split; [apply Hm|].
        assert (m <> e). { intros ->. destruct Hm as [_ Hm]. congruence. }
        pose proof (Hmax m (Hall m Hm)). apply exact_no_overlap; [done|done|lia].
      * assert (0 < length name)%nat by (destruct name; simpl; [done|lia]).
        destruct entry' as [e'|]; [|lia]. destruct Hlast' as [[_ Hle] _]. lia.
  - eexists. split; [done|]. intros m Hm. by apply (Hlast m), Hall.
Qed.

End lookup.

(** ** Properties *)

(** Looking a plain name up terminates, and finds the last place of the
    list where the name stands as a whole entry name (at the start or behind
    a comma, followed by a colon, a comma or the end, blanks ignored): it
    returns that entry's attributes, or 2 when there is no such place.  Being
    a substring of another name or of attributes does not count. *)
Theorem env_attr_lookup_last b before list name cap : b <> 32 -> plain name ->
  Z.of_nat (length list) < cap ->
  exists res, is_last (exact (b :: before) list name) res /\
    match res with
    | None => env_attr_lookup (b :: before) (Some list) name cap = Some (2, None)
    | Some e => exists a, attr_text list (e + length name) = Some a /\
        env_attr_lookup (b :: before) (Some list) name cap = Some (0, Some a)
    end.
Proof.
  intros Hb Hname Hcap. unfold env_attr_lookup.
  destruct (reverse_strstr_spec list name None (proj1 Hname)) as (entry & -> & Hlast).
  cbn [mbind option_bind].
  destruct (lookup_loop_spec b before list name Hb Hname (S (S (length list))) None entry Hlast)
    as (res & -> & Hres).
  - intros m [Hm _]. by split.
  - destruct entry as [e|]; [|lia]. destruct Hlast as [[He _] _].
    apply occurs_bound in He; [lia|apply Hname].
  - exists res. split; [done|]. cbn [mbind option_bind]. destruct res as [e|]; [|done].
    destruct Hres as [[He _] _]. apply occurs_bound in He; [|apply Hname].
    destruct (attr_text_total list (e + length name) He) as (a & Ha & Hla).
    exists a. split; [done|]. rewrite Ha. cbn [mbind option_bind].
    assert ((Z.of_nat (length a) <? cap) = true) as -> by lia. done.
Qed.

Lemma env_attr_lookup_last_witness :
  exists res, is_last (exact [0] (str "ethaddr:ma,eth:x, ip :i") (str "eth")) res /\
    match res with
    | None => env_attr_lookup [0] (Some (str "ethaddr:ma,eth:x, ip :i")) (str "eth") 256 = Some (2, None)
    | Some e => exists a, attr_text (str "ethaddr:ma,eth:x, ip :i") (e + 3) = Some a /\
        env_attr_lookup [0] (Some (str "ethaddr:ma,eth:x, ip :i")) (str "eth") 256 = Some (0, Some a)
    end.
Proof.
  apply (env_attr_lookup_last 0 [] (str "ethaddr:ma,eth:x, ip :i") (str "eth") 256).
  - lia.
  - split; [done|]. by repeat constructor.
  - vm_compute. reflexivity.
Defined.

(** [env_attr_lookup] reads the byte in front of the list when the name
    stands at its start; nothing need be there. *)
Theorem env_attr_lookup_underrun :
  env_attr_lookup [] (Some (str "ethaddr:ma")) (str "ethaddr") 256 = None /\
  env_attr_lookup [0] (Some (str "ethaddr:ma")) (str "ethaddr") 256 = Some (0, Some (str "ma")).
Proof. split; vm_compute; reflexivity. Qed.

(** For the empty name the search never ends: at every fuel the loop of
    [env_attr_lookup] on "a" is still running. *)
Theorem env_attr_lookup_empty_name fuel :
  lookup_loop fuel [0] (str "a") [] (Some O) = None.
Proof. by induction fuel as [|fuel IH]. Qed.

End EnvAttr.
