(* ===== verification/EnvFlags.v ===== *)
(** * Flags and callbacks of environment variables (common/env_flags.c,
      common/env_callback.c)

    Type and access checks of variables, the lists that assign flags and
    callbacks to names, and their use as hooks of the hash table.  The
    configuration is that of the boards of this tree: CONFIG_CMD_NET and
    CONFIG_ENV_OVERWRITE are defined, so that the static flags list is
    "ethaddr:ma,".

    Pointers into a value are represented by the rest of the string. *)

From S2P Require Import Prelude Ctype CString Hashtable EnvAttr.

Module EnvFlags.
Import Ctype CString Hashtable EnvAttr.

(** ** Types and access modes *)

Definition env_flags_vartype_string : Z := 0.
Definition env_flags_vartype_decimal : Z := 1.
Definition env_flags_vartype_hex : Z := 2.
Definition env_flags_vartype_bool : Z := 3.
Definition env_flags_vartype_ipaddr : Z := 4.
Definition env_flags_vartype_macaddr : Z := 5.
Definition env_flags_vartype_end : Z := 6.

Definition env_flags_varaccess_any : Z := 0.
Definition env_flags_varaccess_readonly : Z := 1.
Definition env_flags_varaccess_writeonce : Z := 2.
Definition env_flags_varaccess_changedefault : Z := 3.

Definition ENV_FLAGS_VARTYPE_BIN_MASK : Z := 0x07.
Definition ENV_FLAGS_VARACCESS_PREVENT_DELETE : Z := 0x08.
Definition ENV_FLAGS_VARACCESS_PREVENT_CREATE : Z := 0x10.
Definition ENV_FLAGS_VARACCESS_PREVENT_OVERWR : Z := 0x20.
Definition ENV_FLAGS_VARACCESS_PREVENT_NONDEF_OVERWR : Z := 0x40.
Definition ENV_FLAGS_VARACCESS_BIN_MASK : Z := 0x78.

Definition ENV_FLAGS_ATTR_MAX_LEN : Z := 2.
Definition ENV_FLAGS_VARTYPE_LOC : nat := 0.
Definition ENV_FLAGS_VARACCESS_LOC : nat := 1.

Definition env_flags_vartype_rep : bytes := str "sdxbim".
Definition env_flags_varaccess_rep : bytes := str "aroc".

Definition env_flags_varaccess_mask : list Z :=
  [0;
   Z.lor (Z.lor ENV_FLAGS_VARACCESS_PREVENT_DELETE ENV_FLAGS_VARACCESS_PREVENT_CREATE)
     ENV_FLAGS_VARACCESS_PREVENT_OVERWR;
   Z.lor ENV_FLAGS_VARACCESS_PREVENT_DELETE ENV_FLAGS_VARACCESS_PREVENT_OVERWR;
   Z.lor ENV_FLAGS_VARACCESS_PREVENT_DELETE ENV_FLAGS_VARACCESS_PREVENT_NONDEF_OVERWR].

Definition ENV_FLAGS_LIST_STATIC : bytes := str "ethaddr:ma,".

Definition ENV_FLAGS_VAR : bytes := str ".flags".
Definition ENV_CALLBACK_VAR : bytes := str ".callbacks".

Definition ENV_CALLBACK_LIST_STATIC : bytes :=
  str ".callbacks:callbacks,.flags:flags,baudrate:baudrate,bootfile:bootfile,loadaddr:loadaddr,stdin:console,stdout:console,stderr:console,".

(** [strchr(rep, c) - rep] *)
Fixpoint index_of (c : Z) (rep : bytes) : option Z :=
  match rep with
  | [] => None
  | x :: rep' => if x =? c then Some 0 else Z.succ <$> index_of c rep'
  end.

Definition env_flags_parse_vartype (flags : bytes) : Z :=
  match flags !! ENV_FLAGS_VARTYPE_LOC with
  | None => env_flags_vartype_string
  | Some c => default env_flags_vartype_string (index_of c env_flags_vartype_rep)
  end.

Definition env_flags_parse_varaccess (flags : bytes) : Z :=
  match flags !! ENV_FLAGS_VARACCESS_LOC with
  | None => env_flags_varaccess_any
  | Some c => default env_flags_varaccess_any (index_of c env_flags_varaccess_rep)
  end.

(** The loop bound is [sizeof] of the array of [int]: 16, not 4; an access
    behind the array is [None]. *)
Fixpoint binflags_loop (n : nat) (i : Z) (binflags : Z) : option Z :=
  match n with
  | O => Some env_flags_varaccess_any
  | S n' =>
      x ← zget env_flags_varaccess_mask i;
      if x =? Z.land binflags ENV_FLAGS_VARACCESS_BIN_MASK then Some i
      else binflags_loop n' (i + 1) binflags
  end.

Definition env_flags_parse_varaccess_from_binflags (binflags : Z) : option Z :=
  binflags_loop 16 0 binflags.

Definition env_parse_flags_to_bin (flags : bytes) : option Z :=
  x ← zget env_flags_varaccess_mask (env_flags_parse_varaccess flags);
  Some (Z.lor (Z.land (env_flags_parse_vartype flags) ENV_FLAGS_VARTYPE_BIN_MASK) x).

(** ** Checking a value against a type *)

Definition hd_char (s : bytes) : Z := default 0 (head s).

Definition is_hex_prefix (value : bytes) : bool :=
  (hd_char value =? 48) && ((hd_char (tail value) =? 120) || (hd_char (tail value) =? 88)).

(** [for (i = max_digits; i != 0; i--)]; -1 is no limit. *)
Fixpoint skip_digits (hex : bool) (value : bytes) (i : Z) : bytes :=
  if i =? 0 then value
  else
    match value with
    | [] => value
    | c :: value' =>
        if (hex && negb (isxdigit c)) || (negb hex && negb (isdigit c)) then value
        else skip_digits hex value' (i - 1)
    end.

(** Returns [*end]. *)
Definition skip_num (hex : bool) (value : bytes) (max_digits : Z) : bytes :=
  let value := if hex && is_hex_prefix value then tail (tail value) else value in
  skip_digits hex value max_digits.

(** The [ipaddr] case, [n] groups left. *)
Fixpoint ip_loop (n : nat) (cur : bytes) : Z :=
  match n with
  | O => 0
  | S n' =>
      let end_ := skip_num false cur 3 in
      if (length cur =? length end_)%nat then -1
      else if negb (n' =? 0)%nat && negb (hd_char end_ =? 46) then -1
      else if (n' =? 0)%nat && negb (hd_char end_ =? 0) then -1
      else ip_loop n' (tail end_)
  end.

(** The [macaddr] case. *)
Fixpoint mac_loop (n : nat) (cur : bytes) : Z :=
  match n with
  | O => 0
  | S n' =>
      let end_ := skip_num true cur 2 in
      if (length cur =? length end_)%nat then -1
      else if (length cur =? 2 + length end_)%nat && is_hex_prefix cur then -1
      else if negb (n' =? 0)%nat && negb (hd_char end_ =? 58) then -1
      else if (n' =? 0)%nat && negb (hd_char end_ =? 0) then -1
      else mac_loop n' (tail end_)
  end.

Definition _env_flags_validate_type (value : bytes) (type : Z) : Z :=
  if type =? env_flags_vartype_string then 0
  else if type =? env_flags_vartype_decimal then
    if negb (hd_char (skip_num false value (-1)) =? 0) then -1 else 0
  else if type =? env_flags_vartype_hex then
    let end_ := skip_num true value (-1) in
    if negb (hd_char end_ =? 0) then -1
    else if (length value =? 2 + length end_)%nat && is_hex_prefix value then -1 else 0
  else if type =? env_flags_vartype_bool then
    if negb (bool_decide (hd_char value ∈ str "1ytYT0nfNF")) then -1
    else if negb (hd_char (tail value) =? 0) then -1 else 0
  else if type =? env_flags_vartype_ipaddr then ip_loop 4 value
  else if type =? env_flags_vartype_macaddr then mac_loop 6 value
  else if type =? env_flags_vartype_end then -1
  else 0.

(** ** Permission to change a variable *)

Section validate.
Context (getenv_default : bytes -> option bytes).

(** [None]: the old value is dereferenced and there is none. *)
Definition env_flags_validate (item : ENTRY) (newval : option bytes) (op : env_op) (flag : Z) :
    option Z :=
  let oldval := match op with env_op_create => None | _ => data item end in
  let newval := default [] newval in
  let type := Z.land ENV_FLAGS_VARTYPE_BIN_MASK (flags item) in
  if match op with env_op_delete => false | _ => _env_flags_validate_type newval type <? 0 end
  then Some (-1)
  else if negb (Z.land flag H_FORCE =? 0) then Some 0
  else
    match op with
    | env_op_delete =>
        if negb (Z.land (flags item) ENV_FLAGS_VARACCESS_PREVENT_DELETE =? 0) then Some 1 else Some 0
    | env_op_overwrite =>
        if negb (Z.land (flags item) ENV_FLAGS_VARACCESS_PREVENT_OVERWR =? 0) then Some 1
        else if negb (Z.land (flags item) ENV_FLAGS_VARACCESS_PREVENT_NONDEF_OVERWR =? 0) then
          name ← key item;
          let defval := default [] (getenv_default name) in
          oldval ← oldval;
          if negb (strcmp_str oldval defval =? 0) then Some 1 else Some 0
        else Some 0
    | env_op_create =>
        if negb (Z.land (flags item) ENV_FLAGS_VARACCESS_PREVENT_CREATE =? 0) then Some 1 else Some 0
    end.

End validate.

(** ** The lists *)

Section lists.
(** What lies in front of the cached lists and of the static ones. *)
Context (before before_static : bytes).

Definition env_flags_lookup (flags_list : option bytes) (name : bytes) : option (Z * option bytes) :=
  let cap := ENV_FLAGS_ATTR_MAX_LEN + 1 in
  '(ret, fl) ← (match flags_list with
                | Some _ => env_attr_lookup before flags_list name cap
                | None => Some (1, None)
                end);
  if negb (ret =? 0) then env_attr_lookup before_static (Some ENV_FLAGS_LIST_STATIC) name cap
  else Some (ret, fl).

(** The static variables [first_call] and [flags_list] (or [callback_list]). *)
Record statics := mkStatics { first_call : bool; cached_list : option bytes }.

(** [getenv] is the value of ".flags" at the time of the call; returns the new
    value of [var_entry->flags]. *)
Definition env_flags_init (st : statics) (getenv : option bytes) (var_entry : ENTRY) :
    option (statics * Z) :=
  let st := if first_call st then mkStatics false getenv else st in
  var_name ← key var_entry;
  '(ret, fl) ← env_flags_lookup (cached_list st) var_name;
  let fl := default [] fl in
  if (ret =? 0) && negb (length fl =? 0)%nat
  then b ← env_parse_flags_to_bin fl; Some (st, b)
  else Some (st, flags var_entry).

(** The linker list of callbacks. *)
Fixpoint find_env_callback (tbl : list (bytes * callback_fn)) (name : bytes) : option callback_fn :=
  match tbl with
  | [] => None
  | (n, f) :: tbl' => if strcmp_str name n =? 0 then Some f else find_env_callback tbl' name
  end.

(** Returns the new value of [var_entry->callback]. *)
Definition env_callback_init (tbl : list (bytes * callback_fn)) (st : statics) (getenv : option bytes)
    (var_entry : ENTRY) : option (statics * option callback_fn) :=
  let st := if first_call st then mkStatics false getenv else st in
  var_name ← key var_entry;
  '(ret, nm) ← (match cached_list st with
                | Some _ => env_attr_lookup before (cached_list st) var_name 256
                | None => Some (1, None)
                end);
  '(ret, nm) ← (if negb (ret =? 0)
                then env_attr_lookup before_static (Some ENV_CALLBACK_LIST_STATIC) var_name 256
                else Some (ret, nm));
  let nm := default [] nm in
  if (ret =? 0) && negb (length nm =? 0)%nat
  then match find_env_callback tbl nm with
       | Some f => Some (st, Some f)
       | None => Some (st, callback var_entry)
       end
  else Some (st, callback var_entry).

(** The host tools (tools/env) look the flags up by name. *)
Definition env_flags_get_type (getenv : option bytes) (name : bytes) : option Z :=
  '(ret, fl) ← env_flags_lookup getenv name;
  let fl := default [] fl in
  if negb (ret =? 0) then Some env_flags_vartype_string
  else if (length fl <=? ENV_FLAGS_VARTYPE_LOC)%nat then Some env_flags_vartype_string
  else Some (env_flags_parse_vartype fl).

Definition env_flags_get_varaccess (getenv : option bytes) (name : bytes) : option Z :=
  '(ret, fl) ← env_flags_lookup getenv name;
  let fl := default [] fl in
  if negb (ret =? 0) then Some env_flags_varaccess_any
  else if (length fl <=? ENV_FLAGS_VARACCESS_LOC)%nat then Some env_flags_varaccess_any
  else Some (env_flags_parse_varaccess fl).

Definition env_flags_validate_type (getenv : option bytes) (name : bytes) (value : option bytes) :
    option Z :=
  match value with
  | None => Some 0
  | Some value =>
      type ← env_flags_get_type getenv name;
      if _env_flags_validate_type value type <? 0 then Some (-1) else Some 0
  end.

Definition env_flags_validate_varaccess (getenv : option bytes) (name : bytes) (check_mask : Z) :
    option bool :=
  access ← env_flags_get_varaccess getenv name;
  access_mask ← zget env_flags_varaccess_mask access;
  Some (negb (Z.land check_mask access_mask =? 0)).

Definition env_flags_validate_env_set_params (getenv : option bytes) (argv : list bytes) : option Z :=
  match argv with
  | _ :: name :: value :: rest =>
      type ← env_flags_get_type getenv name;
      if negb (type =? env_flags_vartype_string) && negb (length rest =? 0)%nat then Some (-1)
      else env_flags_validate_type getenv name (Some value)
  | _ => Some 0
  end.

End lists.

(** ** Updating the table from a list *)

Definition clear_flags (e : ENTRY) : Z * ENTRY := (0, mkENTRY (key e) (data e) (callback e) 0).

Definition clear_callback (e : ENTRY) : Z * ENTRY := (0, mkENTRY (key e) (data e) None (flags e)).

Section update.
Context `{Hooks}.

(** Find the entry of [name] and store the result of [f] in it. *)
Definition change_entry (h : hsearch_data) (name : bytes) (f : ENTRY -> option ENTRY) :
    option hsearch_data :=
  r ← hsearch_r (mkENTRY (Some name) None None 0) FIND h 0;
  match h_retval r with
  | None => Some (h_htab r)
  | Some ep =>
      s ← slot (h_htab r) ep;
      e ← f (entry s);
      set_slot (h_htab r) ep (mk_ENTRY (used s) e)
  end.

Definition flags_entry (value : option bytes) (e : ENTRY) : option ENTRY :=
  match value with
  | Some (c :: v) =>
      b ← env_parse_flags_to_bin (c :: v); Some (mkENTRY (key e) (data e) (callback e) b)
  | _ => Some (mkENTRY (key e) (data e) (callback e) 0)
  end.

(** The callbacks of [env_attr_walk] thread the table; [None] is a fault. *)
Definition set_flags (h : option hsearch_data) (name : bytes) (value : option bytes) :
    Z * option hsearch_data :=
  (0, h ← h; change_entry h name (flags_entry value)).

Definition callback_entry (tbl : list (bytes * callback_fn)) (value : option bytes) (e : ENTRY) :
    option ENTRY :=
  match value with
  | Some (c :: v) =>
      match find_env_callback tbl (c :: v) with
      | Some f => Some (mkENTRY (key e) (data e) (Some f) (flags e))
      | None => Some e
      end
  | _ => Some (mkENTRY (key e) (data e) None (flags e))
  end.

Definition set_callback (tbl : list (bytes * callback_fn)) (h : option hsearch_data) (name : bytes)
    (value : option bytes) : Z * option hsearch_data :=
  (0, h ← h; change_entry h name (callback_entry tbl value)).

Definition on_flags (h : hsearch_data) (value : option bytes) : option (Z * hsearch_data) :=
  '(_, h1) ← hwalk_r h clear_flags;
  '(_, h2) ← env_attr_walk (malloc_ok h1) set_flags (Some ENV_FLAGS_LIST_STATIC) (Some h1);
  h2 ← h2;
  '(_, h3) ← env_attr_walk (malloc_ok h2) set_flags value (Some h2);
  h3 ← h3;
  Some (0, h3).

Definition on_callbacks (tbl : list (bytes * callback_fn)) (h : hsearch_data) (value : option bytes) :
    option (Z * hsearch_data) :=
  '(_, h1) ← hwalk_r h clear_callback;
  '(_, h2) ← env_attr_walk (malloc_ok h1) (set_callback tbl) (Some ENV_CALLBACK_LIST_STATIC) (Some h1);
  h2 ← h2;
  '(_, h3) ← env_attr_walk (malloc_ok h2) (set_callback tbl) value (Some h2);
  h3 ← h3;
  Some (0, h3).

End update.

(** ** Lemmas *)

(** *** Values *)

(** A group of an IP address. *)
Definition group_ok (g : bytes) : Prop := Forall (fun c => isdigit c = true) g /\ (1 <= length g <= 3)%nat.

Fixpoint join (sep : Z) (gs : list bytes) : bytes :=
  match gs with
  | [] => []
  | [g] => g
  | g :: gs' => g ++ sep :: join sep gs'
  end.

Lemma skip_digits_split s : forall i, 0 <= i -> exists g, s = g ++ skip_digits false s i /\
  Forall (fun c => isdigit c = true) g /\ Z.of_nat (length g) <= i.
Proof.
  induction s as [|c s IH]; intros i Hi; cbn [skip_digits].
  - exists []. split; [by bcase|]. split; [constructor|simpl; lia].
  - bcase; [exists []; split; [done|]; split; [constructor|simpl; lia]|].
    cbn [andb orb negb]. destruct (isdigit c) eqn:Hc; cbn [negb].
    + destruct (IH (i - 1)) as (g & Hg & Hd & Hl); [lia|]. exists (c :: g).
      split; [simpl; by rewrite <- Hg|]. split; [by constructor|simpl; lia].
    + exists []. split; [done|]. split; [constructor|simpl; lia].
Qed.

Lemma skip_digits_group g : forall r i, Forall (fun c => isdigit c = true) g ->
  Z.of_nat (length g) <= i -> isdigit (hd_char r) = false -> skip_digits false (g ++ r) i = r.
Proof.
  induction g as [|c g IH]; intros r i Hg Hi Hr; simpl in *.
  - destruct r as [|c r]; cbn [skip_digits]; [by bcase|]. bcase; [done|].
    change (hd_char (c :: r)) with c in Hr. by rewrite Hr.
  - apply Forall_cons in Hg as [Hc Hg]. cbn [skip_digits]. bcase; [lia|]. rewrite Hc. simpl.
    apply IH; [done|lia|done].
Qed.

Lemma skip_num_dec s i : skip_num false s i = skip_digits false s i.
Proof. done. Qed.

Lemma hd_char_nul s : cstr_ok s -> hd_char s = 0 -> s = [].
Proof.
  destruct s as [|c s]; [done|]. intros [Hc _]%Forall_cons Hh. unfold char_ok in Hc.
  change (hd_char (c :: s)) with c in Hh. lia.
Qed.

Lemma cstr_app s t : cstr_ok (s ++ t) -> cstr_ok s /\ cstr_ok t.
Proof. apply Forall_app. Qed.

(** The loop over the groups of an IP address. *)
Lemma ip_loop_spec n : forall cur, (0 < n)%nat -> cstr_ok cur ->
  ip_loop n cur = 0 <-> exists gs, length gs = n /\ Forall group_ok gs /\ cur = join 46 gs.
Proof.
  induction n as [|n IH]; intros cur Hn Hok; [lia|]. cbn [ip_loop]. rewrite skip_num_dec. split.
  - destruct (skip_digits_split cur 3) as (g & Hg & Hd & Hl); [lia|].
    set (e := skip_digits false cur 3) in *. rewrite Hg in Hok. apply cstr_app in Hok as [_ Hoke].
    destruct (Nat.eqb_spec (length cur) (length e)) as [|Hne]; [done|].
    assert (Hgok : group_ok g) by (split; [done|]; rewrite Hg, length_app in Hne; lia).
    destruct (Nat.eqb_spec n 0) as [->|Hn0]; cbn [negb andb].
    + destruct (Z.eqb_spec (hd_char e) 0) as [He|]; [|done]. intros _.
      apply hd_char_nul in He; [|done]. exists [g]. split; [done|]. split; [by constructor|].
      rewrite Hg, He. by rewrite app_nil_r.
    + destruct (Z.eqb_spec (hd_char e) 46) as [He|]; [|done]. cbn [negb]. intros Hl2.
      destruct e as [|c e']; [done|]. change (hd_char (c :: e')) with c in He. subst c. cbn [tail] in Hl2.
      apply Forall_cons in Hoke as [_ Hoke].
      apply IH in Hl2 as (gs & Hlen & Hall & ->); [|lia|done].
      exists (g :: gs). split; [simpl; lia|]. split; [by constructor|]. rewrite Hg.
      destruct gs; [simpl in Hlen; lia|done].
  - intros (gs & Hlen & Hall & ->). destruct gs as [|g gs]; [done|]. simpl in Hlen.
    apply Forall_cons in Hall as [[Hd Hg] Hall]. destruct gs as [|g2 gs].
    + assert (n = 0%nat) as -> by (simpl in Hlen; lia). cbn [join].
      pose proof (skip_digits_group g [] 3 Hd ltac:(lia) eq_refl) as He. rewrite app_nil_r in He.
      rewrite He. simpl.
      destruct g; [simpl in Hg; lia|done].
    + assert (n <> 0%nat) as Hn0 by (simpl in Hlen; lia). cbn [join].
      rewrite skip_digits_group by (done || lia).
      rewrite (proj2 (Nat.eqb_neq _ _)) by (rewrite length_app; lia).
      rewrite (proj2 (Nat.eqb_neq _ _) Hn0). cbn [negb andb hd_char head default tail].
      change (46 =? 46) with true. cbn [negb]. apply IH; [lia| |].
      * cbn [join] in Hok. apply cstr_app in Hok as [_ Hok]. by apply Forall_cons in Hok as [_ Hok].
      * exists (g2 :: gs). split; [simpl in *; lia|done].
Qed.

(** *** Binary flags *)

Lemma index_of_bound c rep i : index_of c rep = Some i -> 0 <= i < Z.of_nat (length rep).
Proof.
  revert i. induction rep as [|x rep IH]; intros i; simpl; [done|]. bcase.
  - intros [= <-]. lia.
  - destruct (index_of c rep) as [j|]; simpl; [|done]. intros [= <-]. pose proof (IH j eq_refl). lia.
Qed.

Lemma vartype_range fl : 0 <= env_flags_parse_vartype fl < 6.
Proof.
  unfold env_flags_parse_vartype. destruct (fl !! _) as [c|]; [|by vm_compute].
  destruct (index_of c env_flags_vartype_rep) as [i|] eqn:E; simpl; [|by vm_compute].
  by apply index_of_bound in E.
Qed.

Lemma varaccess_range fl : 0 <= env_flags_parse_varaccess fl < 4.
Proof.
  unfold env_flags_parse_varaccess. destruct (fl !! _) as [c|]; [|by vm_compute].
  destruct (index_of c env_flags_varaccess_rep) as [i|] eqn:E; simpl; [|by vm_compute].
  by apply index_of_bound in E.
Qed.

(** A statement about the binary flags of every type and access mode. *)
Lemma all_flags (P : Z -> Z -> Z -> bool) :
  forallb (fun t => forallb (fun a => match zget env_flags_varaccess_mask (Z.of_nat a) with
    | Some x => P (Z.of_nat t) (Z.of_nat a) (Z.lor (Z.land (Z.of_nat t) ENV_FLAGS_VARTYPE_BIN_MASK) x)
    | None => false end) (seq 0 4)) (seq 0 6) = true ->
  forall fl b, env_parse_flags_to_bin fl = Some b ->
    P (env_flags_parse_vartype fl) (env_flags_parse_varaccess fl) b = true.
Proof.
  intros H fl b Hb. unfold env_parse_flags_to_bin in Hb.
  pose proof (vartype_range fl) as Ht. pose proof (varaccess_range fl) as Ha.
  set (t := env_flags_parse_vartype fl) in *. set (a := env_flags_parse_varaccess fl) in *.
  rewrite forallb_forall in H. specialize (H (Z.to_nat t) ltac:(apply in_seq; lia)).
  rewrite forallb_forall in H. specialize (H (Z.to_nat a) ltac:(apply in_seq; lia)). cbv beta in H.
  rewrite !Z2Nat.id in H by lia.
  destruct (zget env_flags_varaccess_mask a); simpl in Hb; [|done]. by injection Hb as <-.
Qed.

(** *** Tables that differ in flags and callbacks only *)

Definition slot_sim (s s' : _ENTRY) : Prop :=
  used s = used s' /\ key (entry s) = key (entry s') /\ data (entry s) = data (entry s').

Definition sim (h h' : hsearch_data) : Prop :=
  size h = size h' /\ filled h = filled h' /\ option_Forall2 (Forall2 slot_sim) (table h) (table h').

#[local] Instance slot_sim_equiv : Equivalence slot_sim.
Proof.
  split; [by intros s| |].
  - intros s s' (? & ? & ?). by split_and!.
  - intros s1 s2 s3 (? & ? & ?) (? & ? & ?). split_and!; congruence.
Qed.

#[global] Instance sim_equiv : Equivalence sim.
Proof.
  split.
  - intros h. split; [done|]. split; [done|]. reflexivity.
  - intros h h' (? & ? & Ht). split; [done|]. split; [done|]. by symmetry.
  - intros h1 h2 h3 (? & ? & Ht) (? & ? & Ht'). split; [congruence|]. split; [congruence|].
    by etransitivity.
Qed.

Lemma sim_slot h h' i s : sim h h' -> slot h i = Some s -> exists s', slot h' i = Some s' /\ slot_sim s s'.
Proof.
  intros (_ & _ & Ht) (t & Htt & Hi & Hs)%slot_Some. rewrite Htt in Ht.
  inversion Ht as [? t' Hf Heq1 Heq2|]; subst.
  destruct (Forall2_lookup_l _ _ _ _ _ Hf Hs) as (s' & Hs' & Hsim). exists s'.
  split; [|done]. apply slot_Some. eauto.
Qed.

Lemma sim_holds s s' k d : slot_sim s s' -> holds s k d -> holds s' k d.
Proof. intros (Hu & Hk & Hd) (? & ? & ?). unfold holds. by rewrite <- Hu, <- Hk, <- Hd. Qed.

Lemma sim_reachable h h' hval i : sim h h' -> reachable h hval i -> reachable h' hval i.
Proof.
  intros Hsim (j & Hj & Hp & Hall). pose proof (proj1 Hsim) as Hsz. rewrite Hsz in *.
  exists j. split; [done|]. split; [done|]. intros j' Hj'.
  destruct (Hall j' Hj') as (s & Hs & Hu). destruct (sim_slot _ _ _ _ Hsim Hs) as (s' & Hs' & Hss).
  exists s'. split; [done|]. by rewrite <- (proj1 Hss).
Qed.

Lemma sim_count t t' : Forall2 slot_sim t t' -> count is_live t = count is_live t'.
Proof.
  induction 1 as [|s s' t t' [Hu _] _ IH]; [done|]. cbn [count]. rewrite IH.
  unfold is_live. by rewrite Hu.
Qed.

Lemma rep_sim h h' m : sim h h' -> rep h m -> rep h' m.
Proof.
  intros Hsim [Hw Hm]. pose proof (symmetry Hsim) as Hsim'. pose proof (proj1 Hsim) as Hsz.
  split; [split|].
  - rewrite <- Hsz. apply Hw.
  - rewrite <- Hsz. apply Hw.
  - destruct (wf_table _ Hw) as (t & Ht & Hl & Hc). destruct Hsim as (_ & Hf & Htab).
    rewrite Ht in Htab. inversion Htab as [? t' Hf2 Heq1 Heq2|]; subst. exists t'.
    split; [done|]. split; [by rewrite <- (Forall2_length _ _ _ Hf2), <- Hsz|].
    by rewrite <- Hf, Hc, (sim_count _ _ Hf2).
  - destruct (wf_zero _ Hw) as (s & Hs & Hu). destruct (sim_slot _ _ _ _ Hsim Hs) as (s' & Hs' & Hss).
    exists s'. split; [done|]. by rewrite <- (proj1 Hss).
  - intros i s' Hs'. destruct (sim_slot _ _ _ _ Hsim' Hs') as (s & Hs & Hss).
    rewrite (proj1 Hss). destruct (wf_slot _ Hw _ _ Hs) as [?|[?|(k & d & Hh & ? & ? & Hu & Hr)]]; auto.
    right. right. exists k, d. split; [by apply (sim_holds s); [symmetry|]|]. split; [done|].
    split; [done|]. rewrite (proj1 Hss), <- Hsz. split; [done|]. by apply (sim_reachable h).
  - intros i j s s' k d d' Hs Hs' Hh Hh'.
    destruct (sim_slot _ _ _ _ Hsim' Hs) as (s0 & Hs0 & Hss).
    destruct (sim_slot _ _ _ _ Hsim' Hs') as (s0' & Hs0' & Hss').
    by apply (wf_unique _ Hw _ _ _ _ k d d' Hs0 Hs0'); [apply (sim_holds s)|apply (sim_holds s')].
  - intros k d. rewrite Hm. split; intros (i & s & Hs & Hh).
    + destruct (sim_slot _ _ _ _ Hsim Hs) as (s' & Hs' & Hss). exists i, s'.
      split; [done|]. by apply (sim_holds s).
    + destruct (sim_slot _ _ _ _ Hsim' Hs) as (s' & Hs' & Hss). exists i, s'.
      split; [done|]. by apply (sim_holds s).
Qed.

#[global] Instance rep_proper : Proper (sim ==> eq ==> iff) rep.
Proof. intros h h' Hsim m m' <-. split; apply rep_sim; [done|by symmetry]. Qed.

Lemma sim_upd h i s s' : slot h i = Some s -> slot_sim s s' -> sim h (upd h i s').
Proof.
  intros (t & Ht & Hi & Hs)%slot_Some Hss. split; [done|]. split; [done|]. simpl. rewrite Ht.
  simpl. constructor. rewrite <- (list_insert_id t _ _ Hs) at 1. by apply Forall2_insert.
Qed.

(** A function on entries that keeps key and data. *)
Definition keeps (f : ENTRY -> ENTRY) : Prop := forall e, key (f e) = key e /\ data (f e) = data e.

(** [hwalk_r] with such a function and result 0 goes through the whole table. *)
Lemma walk_sim f n : keeps f -> forall h i m, rep h m -> 1 <= i -> i + Z.of_nat n <= size h + 1 ->
  exists h', Hashtable.walk_loop n (fun e => (0, f e)) h i = Some (0, h') /\ sim h h'.
Proof.
  intros Hf. induction n as [|n IH]; intros h i m Hrep Hi Hn; cbn [Hashtable.walk_loop].
  - exists h. split; [done|reflexivity].
  - destruct (wf_slot_some h i (proj1 Hrep)) as [s Hs]; [lia|]. rewrite Hs. cbn [mbind option_bind].
    bcase; [|apply (IH h (i + 1) m); (done || lia)].
    rewrite (set_slot_upd _ _ _ _ Hs). cbn [mbind option_bind Z.eqb negb].
    set (s' := mk_ENTRY (used s) (f (entry s))).
    assert (Hss : slot_sim s s') by (split; [done|]; destruct (Hf (entry s)); by split).
    pose proof (sim_upd h i s s' Hs Hss) as Hsim.
    destruct (IH (upd h i s') (i + 1) m) as (h' & -> & Hsim'); [by rewrite <- Hsim|lia|simpl; lia|].
    exists h'. split; [done|]. by etransitivity.
Qed.

Lemma hwalk_sim h m f : rep h m -> keeps f ->
  exists h', hwalk_r h (fun e => (0, f e)) = Some (0, h') /\ sim h h'.
Proof.
  intros Hrep Hf. apply (walk_sim f _ Hf h 1 m Hrep); [lia|].
  pose proof (wf_size _ (proj1 Hrep)). lia.
Qed.

(** *** Walking an attribute list *)

Lemma split_chr_ok c s : cstr_ok s -> cstr_ok (split_chr c s).1 /\
  match (split_chr c s).2 with Some r => cstr_ok r /\ (length r < length s)%nat | None => True end.
Proof.
  induction s as [|x s IH]; intros Hs; simpl; [done|]. apply Forall_cons in Hs as [Hx Hs].
  destruct (x =? c); simpl; [split; [constructor|split; [done|lia]]|].
  destruct (IH Hs) as [Ha Hb]. destruct (split_chr c s) as [a b]; simpl in *.
  split; [by constructor|]. destruct b; [|done]. destruct Hb. split; [done|lia].
Qed.

Lemma strim_ok s : cstr_ok s -> cstr_ok (strim s).
Proof.
  intros Hs. assert (cstr_ok (skip_spaces s)) as Hk.
  { induction s as [|c s IH]; simpl; [done|]. apply Forall_cons in Hs as [Hc Hs].
    destruct (isspace c); [by apply IH|by constructor]. }
  unfold strim. destruct (_ =? 0)%nat; [done|]. by apply Forall_take.
Qed.

(** A walk with a callback that returns 0 and keeps [P] goes through the list
    (unless memory runs out) and keeps [P]. *)
Lemma env_attr_walk_inv {St} (mal : Z -> bool) (cb : St -> bytes -> option bytes -> Z * St)
    (P : St -> Prop) l st :
  (forall st name value, P st -> cstr_ok name -> (cb st name value).1 = 0 /\ P (cb st name value).2) ->
  cstr_ok l -> P st ->
  exists ret st', env_attr_walk mal cb (Some l) st = Some (ret, st') /\ P st'.
Proof.
  intros Hcb Hl HP. unfold env_attr_walk. assert (length l < S (length l))%nat as Hf by lia.
  revert Hf. generalize (S (length l)) as fuel. intros fuel. revert l st Hl HP.
  induction fuel as [|fuel IH]; intros l st Hl HP Hf; [lia|]. cbn [EnvAttr.walk_loop].
  destruct (split_chr_ok ENV_ATTR_LIST_DELIM l Hl) as [Ha Hb].
  destruct (split_chr ENV_ATTR_LIST_DELIM l) as [this rest]. simpl in Ha, Hb.
  assert (Hnext : forall st, P st -> exists ret st',
    match rest with None => Some (0, st) | Some e => EnvAttr.walk_loop mal cb fuel st e end =
      Some (ret, st') /\ P st').
  { intros st0 HP0. destruct rest as [r|]; [|eauto]. destruct Hb. apply IH; [done|done|lia]. }
  bcase; [|by apply Hnext]. bcase; [|eauto].
  assert (Hwe : exists st', walk_entry cb st this = (0, st') /\ P st').
  { unfold walk_entry. destruct (split_chr_ok ENV_ATTR_SEP this Ha) as [Hn _].
    destruct (split_chr ENV_ATTR_SEP this) as [name attrs]. simpl in Hn. bcase; [|eauto].
    destruct (Hcb st (strim name) (strim <$> attrs) HP (strim_ok _ Hn)) as [H0 HP'].
    destruct (cb st (strim name) (strim <$> attrs)) as [r st']. simpl in *. subst. eauto. }
  destruct Hwe as (st' & -> & HP'). cbn [negb Z.eqb]. by apply Hnext.
Qed.

Section on.
Context `{Hooks}.

Lemma change_entry_sim h m name f : rep h m -> cstr_ok name ->
  (forall e, exists e', f e = Some e' /\ key e' = key e /\ data e' = data e) ->
  exists h', change_entry h name f = Some h' /\ sim h h'.
Proof.
  intros Hrep Hn Hf. unfold change_entry. set (item := mkENTRY _ _ _ _).
  destruct (m !! name) as [d|] eqn:Hm.
  - destruct (hsearch_hit h m Hrep item name eq_refl Hn FIND 0 d Hm) as (i & s & Hi & Hs & Hh & ->).
    cbn [overwrite_entry item key mbind option_bind h_retval h_htab]. rewrite Hs.
    cbn [mbind option_bind]. destruct (Hf (entry s)) as (e' & -> & Hk & Hd).
    cbn [mbind option_bind]. rewrite (set_slot_upd _ _ _ _ Hs). eexists. split; [done|].
    apply (sim_upd h i s); [done|]. by split_and!.
  - destruct (hsearch_miss h m Hrep item name eq_refl Hn FIND 0 Hm) as (fd & i & -> & _).
    cbn [hsearch_new mbind option_bind h_retval h_htab fail]. exists h. split; [done|reflexivity].
Qed.

Lemma flags_entry_keeps value e :
  exists e', flags_entry value e = Some e' /\ key e' = key e /\ data e' = data e.
Proof.
  unfold flags_entry, env_parse_flags_to_bin. destruct value as [[|c v]|]; [by eexists| |by eexists].
  pose proof (varaccess_range (c :: v)) as Hr.
  destruct (proj2 (zget_is_Some env_flags_varaccess_mask (env_flags_parse_varaccess (c :: v))))
    as [x ->]; [done|]. cbn [mbind option_bind]. by eexists.
Qed.

Lemma callback_entry_keeps tbl value e :
  exists e', callback_entry tbl value e = Some e' /\ key e' = key e /\ data e' = data e.
Proof.
  unfold callback_entry. destruct value as [[|c v]|]; [by eexists| |by eexists].
  destruct (find_env_callback tbl (c :: v)); by eexists.
Qed.

(** One walk of the table through a list. *)
Lemma walk_table mal (f : option bytes -> ENTRY -> option ENTRY) l h m : rep h m -> cstr_ok l ->
  (forall value e, exists e', f value e = Some e' /\ key e' = key e /\ data e' = data e) ->
  exists ret h', env_attr_walk mal
      (fun h name value => (0, h ← h; change_entry h name (f value))) (Some l) (Some h) =
    Some (ret, Some h') /\ sim h h'.
Proof.
  intros Hrep Hl Hf.
  destruct (env_attr_walk_inv mal (fun h name value => (0, h ← h; change_entry h name (f value)))
    (fun st => exists h', st = Some h' /\ sim h h') l (Some h))
    as (ret & st' & -> & h' & -> & Hsim); [|done| |].
  - intros st name value (h1 & -> & Hsim) Hn. cbn [fst snd mbind option_bind]. split; [done|].
    destruct (change_entry_sim h1 m name (f value)) as (h2 & -> & Hsim2); [by rewrite <- Hsim|done|by auto|].
    exists h2. split; [done|]. by etransitivity.
  - exists h. split; [done|reflexivity].
  - exists ret, h'. done.
Qed.

Lemma on_list_sim mal1 (f : option bytes -> ENTRY -> option ENTRY) g static value h m :
  rep h m -> cstr_ok static -> (forall v, value = Some v -> cstr_ok v) -> keeps g ->
  (forall value e, exists e', f value e = Some e' /\ key e' = key e /\ data e' = data e) ->
  exists h3, ('(_, h1) ← hwalk_r h (fun e => (0, g e));
    '(_, h2) ← env_attr_walk (mal1 h1) (fun h name value => (0, h ← h; change_entry h name (f value)))
      (Some static) (Some h1);
    h2 ← h2;
    '(_, h3) ← env_attr_walk (mal1 h2) (fun h name value => (0, h ← h; change_entry h name (f value)))
      value (Some h2);
    h3 ← h3; Some (0, h3)) = Some (0, h3) /\ sim h h3.
Proof.
  intros Hrep Hst Hval Hg Hf. destruct (hwalk_sim h m g Hrep Hg) as (h1 & -> & Hsim1).
  cbn [mbind option_bind].
  destruct (walk_table (mal1 h1) f static h1 m) as (ret & h2 & -> & Hsim2); [by rewrite <- Hsim1|done..|].
  cbn [mbind option_bind]. destruct value as [v|].
  - destruct (walk_table (mal1 h2) f v h2 m) as (ret3 & h3 & -> & Hsim3);
      [by rewrite <- Hsim2, <- Hsim1|by apply Hval|done|].
    cbn [mbind option_bind]. exists h3. split; [done|]. by do 2 (etransitivity; [done|]).
  - cbn [env_attr_walk mbind option_bind]. exists h2. split; [done|]. by etransitivity.
Qed.

End on.

(** *** Write-once variables *)

Lemma skip_all_digits s : forall i, i < 0 -> cstr_ok s ->
  hd_char (skip_digits false s i) = 0 <-> Forall (fun c => isdigit c = true) s.
Proof.
  induction s as [|c s IH]; intros i Hi Hok; cbn [skip_digits].
  - bcase; split; [done..|by constructor|done].
  - apply Forall_cons in Hok as [Hc Hok]. bcase; [lia|]. cbn [andb orb negb].
    rewrite Forall_cons. destruct (isdigit c) eqn:Hd; cbn [negb].
    + rewrite IH by (done || lia). tauto.
    + change (hd_char (c :: s)) with c. unfold char_ok in Hc. split; [lia|]. by intros [? _].
Qed.

(** The permission hook of the environment, common/cmd_nvedit.c's
    [.change_ok = env_flags_validate]. *)
Definition flags_change_ok (getdef : bytes -> option bytes) :
    ENTRY -> option bytes -> env_op -> Z -> Z :=
  fun e newval op flag => default 1 (env_flags_validate getdef e newval op flag).

(** The entry of [k] forbids overwriting and deleting. *)
Definition protected (h : hsearch_data) (k d : bytes) : Prop :=
  exists i s, slot h i = Some s /\ holds s k d /\
    Z.land (flags (entry s)) ENV_FLAGS_VARACCESS_PREVENT_OVERWR <> 0 /\
    Z.land (flags (entry s)) ENV_FLAGS_VARACCESS_PREVENT_DELETE <> 0.

Lemma protected_rejects getdef h e newval op flag :
  change_ok h = Some (flags_change_ok getdef) -> Z.land flag H_FORCE = 0 -> op <> env_op_create ->
  Z.land (flags e) ENV_FLAGS_VARACCESS_PREVENT_OVERWR <> 0 ->
  Z.land (flags e) ENV_FLAGS_VARACCESS_PREVENT_DELETE <> 0 ->
  change_rejected h e newval op flag = true.
Proof.
  intros Hc Hf Hop Ho Hd. unfold change_rejected. rewrite Hc. unfold flags_change_ok, env_flags_validate.
  rewrite Hf, (proj2 (Z.eqb_neq _ _) Ho), (proj2 (Z.eqb_neq _ _) Hd). change (0 =? 0) with true.
  cbn [negb]. destruct op; [done| |]; [done|]. by destruct (_ <? 0).
Qed.

(** A command on the environment. *)
Inductive cmd := SetVar (k d : bytes) (flag : Z) | DelVar (k : bytes) (flag : Z).

Definition cmd_ok (c : cmd) : Prop :=
  match c with
  | SetVar k d flag => cstr_ok k /\ cstr_ok d /\ Z.land flag H_FORCE = 0
  | DelVar k flag => cstr_ok k /\ Z.land flag H_FORCE = 0
  end.

Section once.
Context `{Hooks} (Hmal : forall h n, malloc_ok h n = true) (getdef : bytes -> option bytes).

Definition run_cmd (h : hsearch_data) (c : cmd) : option hsearch_data :=
  match c with
  | SetVar k d flag =>
      r ← hsearch_r (mkENTRY (Some k) (Some d) None 0) ENTER h flag; Some (h_htab r)
  | DelVar k flag => '(_, _, h') ← hdelete_r k h flag; Some h'
  end.

Fixpoint run_cmds (h : hsearch_data) (l : list cmd) : option hsearch_data :=
  match l with [] => Some h | c :: l' => h' ← run_cmd h c; run_cmds h' l' end.

(** Entering one variable leaves the slots of the others alone. *)
Lemma enter_frame h m k d flag r : rep h m -> cstr_ok k -> cstr_ok d -> has_free h ->
  hsearch_r (mkENTRY (Some k) (Some d) None 0) ENTER h flag = Some r ->
  forall i s k0 d0, slot h i = Some s -> holds s k0 d0 -> k0 <> k -> slot (h_htab r) i = Some s.
Proof.
  intros Hrep Hk Hd Hfree Hr i s k0 d0 Hs Hh Hne. set (item := mkENTRY _ _ _ _) in Hr.
  destruct (m !! k) as [d1|] eqn:Hm.
  - destruct (hsearch_hit h m Hrep item k eq_refl Hk ENTER flag d1 Hm) as (j & sj & _ & Hsj & Hhj & He).
    rewrite He in Hr. unfold item in Hr.
    rewrite (overwrite_ok h k d (Hmal _ _) flag j sj d1 Hsj Hhj) in Hr. injection Hr as <-.
    destruct (rejected h (entry sj) k d env_op_overwrite flag); [done|]. cbn [h_htab].
    rewrite (slot_upd _ _ _ _ _ Hsj), decide_False; [done|]. intros ->. simplify_eq.
    by destruct (holds_inj _ _ _ _ _ Hh Hhj).
  - destruct (hsearch_miss h m Hrep item k eq_refl Hk ENTER flag Hm) as (fd & j & He & Hj).
    destruct (Hj Hfree) as (_ & sj & Hsj & Hu).
    destruct (hsearch_new_ok h m Hrep k d (Hmal _ _) (Hmal _ _) flag fd j sj Hfree Hsj)
      as (e & _ & _ & _ & Hnew). rewrite He in Hr. unfold item in Hr. rewrite Hnew in Hr. injection Hr as <-.
    assert (i <> target fd j) by (intros ->; simplify_eq; destruct Hh; lia).
    destruct (rejected h e k d env_op_create flag); cbn [h_htab fail];
      rewrite slot_set_filled, (slot_upd _ _ _ _ _ Hsj), decide_False; done.
Qed.

Lemma set_protected h m k d k' d' flag : rep h m -> protected h k d ->
  change_ok h = Some (flags_change_ok getdef) -> cmd_ok (SetVar k' d' flag) -> has_free h ->
  exists h', run_cmd h (SetVar k' d' flag) = Some h' /\ protected h' k d /\
    change_ok h' = change_ok h /\ size h' = size h /\ consumed h' <= consumed h + 1 /\
    exists m', rep h' m'.
Proof.
  intros Hrep (i & s & Hs & Hh & Ho & Hde) Hch (Hk' & Hd' & Hfl) Hfree. cbn [run_cmd].
  pose proof (rep_lookup _ _ _ _ _ _ Hrep Hs Hh) as Hm.
  destruct (decide (k = k')) as [<-|Hne].
  - destruct (hsearch_hit h m Hrep (mkENTRY (Some k) (Some d') None 0) k eq_refl Hk' ENTER flag d Hm)
      as (j & sj & _ & Hsj & Hhj & ->).
    pose proof (wf_unique _ (proj1 Hrep) _ _ _ _ _ _ _ Hs Hsj Hh Hhj) as ->.
    assert (sj = s) as -> by congruence.
    rewrite (overwrite_ok h k d' (Hmal _ _) flag j s d Hsj Hhj). unfold rejected.
    rewrite (protected_rejects getdef) by done. cbn [orb mbind option_bind h_htab fail].
    exists h. split; [done|]. split; [by exists j, s|]. do 2 (split; [done|]). split; [lia|eauto].
  - assert (Hen : exists r, hsearch_r (mkENTRY (Some k') (Some d') None 0) ENTER h flag = Some r /\
      enter_outcome h m k' d' flag r).
    { destruct (m !! k') as [d1|] eqn:Hm'.
      - by apply (enter_existing h m Hrep k' d' Hk' Hd' (Hmal _ _) flag d1).
      - by apply (enter_new h m Hrep k' d' Hk' Hd' (Hmal _ _) (Hmal _ _) flag). }
    destruct Hen as (r & Hr & e & _ & _ & Hc & Hsz & Hch' & Hout).
    pose proof (enter_frame h m k' d' flag r Hrep Hk' Hd' Hfree Hr i s k d Hs Hh Hne) as Hs'.
    rewrite Hr. cbn [mbind option_bind]. exists (h_htab r). split; [done|].
    split; [by exists i, s|]. do 2 (split; [done|]). split; [done|].
    destruct (rejected h e k' d' _ flag).
    + destruct Hout as (h' & -> & Hrep'). eauto.
    + destruct Hout as (j & sj & h' & -> & Hrep' & _). eauto.
Qed.

Lemma del_protected h m k d k' flag : rep h m -> protected h k d ->
  change_ok h = Some (flags_change_ok getdef) -> cmd_ok (DelVar k' flag) ->
  exists h', run_cmd h (DelVar k' flag) = Some h' /\ protected h' k d /\
    change_ok h' = change_ok h /\ size h' = size h /\ consumed h' <= consumed h + 1 /\
    exists m', rep h' m'.
Proof.
  intros Hrep (i & s & Hs & Hh & Ho & Hde) Hch [Hk' Hfl]. cbn [run_cmd].
  assert (Hkeep : exists h', Some h = Some h' /\ protected h' k d /\ change_ok h' = change_ok h /\
    size h' = size h /\ consumed h' <= consumed h + 1 /\ exists m', rep h' m').
  { exists h. split; [done|]. split; [by exists i, s|]. do 2 (split; [done|]). split; [lia|eauto]. }
  destruct (m !! k') as [d1|] eqn:Hm'.
  - unfold hdelete_r. set (item := mkENTRY _ _ _ _).
    destruct (hsearch_hit h m Hrep item k' eq_refl Hk' FIND 0 d1 Hm') as (j & sj & Hj & Hsj & Hhj & ->).
    cbn [overwrite_entry item key mbind option_bind h_ret h_retval h_htab].
    assert ((j =? 0) = false) as -> by lia. rewrite Hsj. cbn [mbind option_bind].
    destruct (change_rejected h (entry sj) None env_op_delete flag) eqn:Hrej; [done|].
    destruct (callback_rejected (entry sj) k' None env_op_delete flag); [done|].
    rewrite (hdelete_slot _ _ _ _ _ (proj1 Hrep) Hsj Hhj). cbn [mbind option_bind].
    assert (i <> j).
    { intros ->. simplify_eq. by rewrite (protected_rejects getdef) in Hrej. }
    eexists. split; [done|]. split; [|split; [done|split; [done|split]]].
    + exists i, s. rewrite slot_set_filled, (slot_upd _ _ _ _ _ Hsj), decide_False by done. done.
    + rewrite (consumed_upd _ _ sj Hsj). destruct (is_used sj), (is_used tombstone); simpl; lia.
    + exists (delete k' m). apply (rep_delete h m Hrep j sj Hsj k' d1); [lia|done].
  - rewrite (hdelete_absent h m k' flag Hrep Hk' Hm'). cbn [mbind option_bind]. done.
Qed.

End once.

(** ** Properties *)


(** The access policy.  For flags parsed from a flags string, a valid new
    value and no H_FORCE, [env_flags_validate] accepts exactly what the access
    mode allows: everything for "any", nothing for "read-only", only creation
    for "write-once", and for "change-default" creation, and overwriting as
    long as the old value is the default. *)
Theorem access_policy getdef fl item name old newval op flag :
  env_parse_flags_to_bin fl = Some (flags item) -> key item = Some name -> data item = Some old ->
  cstr_ok old -> cstr_ok (default [] (getdef name)) ->
  Z.land flag H_FORCE = 0 ->
  op = env_op_delete \/ _env_flags_validate_type newval (env_flags_parse_vartype fl) = 0 ->
  env_flags_validate getdef item (Some newval) op flag = Some (
    let access := env_flags_parse_varaccess fl in
    if match op with
       | env_op_create => negb (access =? env_flags_varaccess_readonly)
       | env_op_delete => access =? env_flags_varaccess_any
       | env_op_overwrite =>
           (access =? env_flags_varaccess_any) ||
           ((access =? env_flags_varaccess_changedefault) && bool_decide (old = default [] (getdef name)))
       end
    then 0 else 1).
Proof.
  intros Hb Hk Hd Hold Hdef Hf Hval. unfold env_flags_validate. rewrite Hf, Hk, Hd.
  pose proof (all_flags (fun t a b =>
    (Z.land ENV_FLAGS_VARTYPE_BIN_MASK b =? t) &&
    Bool.eqb (Z.land b ENV_FLAGS_VARACCESS_PREVENT_DELETE =? 0) (a =? env_flags_varaccess_any) &&
    Bool.eqb (Z.land b ENV_FLAGS_VARACCESS_PREVENT_CREATE =? 0)
      (negb (a =? env_flags_varaccess_readonly)) &&
    Bool.eqb (Z.land b ENV_FLAGS_VARACCESS_PREVENT_OVERWR =? 0)
      ((a =? env_flags_varaccess_any) || (a =? env_flags_varaccess_changedefault)) &&
    Bool.eqb (Z.land b ENV_FLAGS_VARACCESS_PREVENT_NONDEF_OVERWR =? 0)
      (negb (a =? env_flags_varaccess_changedefault))) eq_refl fl (flags item) Hb) as Hbits.
  apply andb_prop in Hbits as [Hbits Hn]. apply andb_prop in Hbits as [Hbits Ho].
  apply andb_prop in Hbits as [Hbits Hc]. apply andb_prop in Hbits as [Ht Hde].
  apply Bool.eqb_prop in Hn, Ho, Hc, Hde. apply Z.eqb_eq in Ht.
  rewrite Ht, Hn, Ho, Hc, Hde. change (default [] (Some newval)) with newval. change (0 =? 0) with true. cbn [negb].
  set (a := env_flags_parse_varaccess fl). cbv zeta.
  destruct op; (destruct Hval as [Hval|Hval]; [try done|]); rewrite ?Hval; try change (0 <? 0) with false;
    cbv iota.
  - by destruct (a =? env_flags_varaccess_readonly).
  - by destruct (a =? env_flags_varaccess_any).
  - by destruct (a =? env_flags_varaccess_any).
  - destruct (Z.eqb_spec a env_flags_varaccess_any) as [E|E].
    + rewrite E. done.
    + destruct (a =? env_flags_varaccess_changedefault); cbn [orb andb negb]; [|done].
      cbn [mbind option_bind].
      destruct (Z.eqb_spec (strcmp_str old (default [] (getdef name))) 0) as [Hz|Hz];
        rewrite (strcmp_str_zero old _ Hold Hdef) in Hz; cbn [negb].
      * by rewrite bool_decide_eq_true_2.
      * by rewrite bool_decide_eq_false_2.
Qed.

(** Type checks.  The decimal check accepts exactly the digit strings (the
    empty one included), the IP address check exactly four dot-separated
    groups of one to three digits. *)
Theorem validate_type_correct value : cstr_ok value ->
  (_env_flags_validate_type value env_flags_vartype_decimal = 0 <->
    Forall (fun c => isdigit c = true) value) /\
  (_env_flags_validate_type value env_flags_vartype_ipaddr = 0 <->
    exists gs, length gs = 4%nat /\ Forall group_ok gs /\ value = join 46 gs).
Proof.
  intros Hok. split.
  - change (_env_flags_validate_type value env_flags_vartype_decimal) with
      (if negb (hd_char (skip_digits false value (-1)) =? 0) then -1 else 0).
    rewrite <- (skip_all_digits value (-1)) by (done || lia). bcase; split; (done || lia).
  - apply ip_loop_spec; [lia|done].
Qed.

(** The binary form of a flags string gives the access mode back. *)
Theorem varaccess_roundtrip fl b : env_parse_flags_to_bin fl = Some b ->
  env_flags_parse_varaccess_from_binflags b = Some (env_flags_parse_varaccess fl).
Proof.
  intros Hb. refine (bool_decide_eq_true_1 _ (all_flags
    (fun _ a b => bool_decide (env_flags_parse_varaccess_from_binflags b = Some a)) eq_refl fl b Hb)).
Qed.

(** Applying a new flags list or callbacks list to the table ([on_flags],
    [on_callbacks]) terminates without a fault and changes no variable. *)
Theorem on_lists_keep_variables `{Hooks} tbl h m value : rep h m ->
  (forall v, value = Some v -> cstr_ok v) ->
  (exists h', on_flags h value = Some (0, h') /\ rep h' m) /\
  (exists h', on_callbacks tbl h value = Some (0, h') /\ rep h' m).
Proof.
  intros Hrep Hval. split.
  - destruct (on_list_sim malloc_ok flags_entry (fun e => mkENTRY (key e) (data e) (callback e) 0)
      ENV_FLAGS_LIST_STATIC value h m Hrep) as (h' & He & Hsim);
      [by repeat constructor|done|done|apply flags_entry_keeps|].
    exists h'. split; [exact He|]. by rewrite <- Hsim.
  - destruct (on_list_sim malloc_ok (callback_entry tbl)
      (fun e => mkENTRY (key e) (data e) None (flags e)) ENV_CALLBACK_LIST_STATIC value h m Hrep)
      as (h' & He & Hsim); [by repeat constructor|done|done|apply callback_entry_keeps|].
    exists h'. split; [exact He|]. by rewrite <- Hsim.
Qed.

(** ** Concrete runs *)

(** "serial" with the flags "so" (string, write-once) in a table of 5. *)
Definition serial_bin : Z := Eval vm_compute in default 0 (env_parse_flags_to_bin (str "so")).

Definition guarded : hsearch_data := fresh 5 (Some (flags_change_ok (fun _ => None))).

Definition serial_entry : ENTRY := mkENTRY (Some (str "serial")) (Some (str "42")) None serial_bin.

Definition serial_slot : Z := Eval vm_compute in hash1 5 (str "serial").

Definition serial_table : hsearch_data :=
  set_filled (upd guarded serial_slot (mk_ENTRY serial_slot serial_entry)) 1.

Lemma serial_rep : rep serial_table {[ str "serial" := str "42" ]}.
Proof.
  destruct (fresh_rep 5 (Some (flags_change_ok (fun _ => None))) prime_5 ltac:(lia)) as [Hrep _].
  change {[ str "serial" := str "42" ]} with (<[str "serial" := str "42"]> (∅ : gmap bytes bytes)).
  apply (rep_insert guarded ∅ Hrep serial_slot empty_slot eq_refl (str "serial") (str "42") serial_entry).
  - apply lookup_empty.
  - exists 0%nat. split; [vm_compute; lia|]. split; [reflexivity|lia].
  - simpl. lia.
  - by repeat constructor.
  - by repeat constructor.
  - done.
  - done.
Qed.

Lemma serial_protected : protected serial_table (str "serial") (str "42").
Proof.
  exists serial_slot, (mk_ENTRY serial_slot serial_entry). split; [reflexivity|].
  split; [by split|]. split; by vm_compute.
Qed.


Lemma access_policy_witness :
  env_flags_validate (fun _ => None) serial_entry (Some (str "x")) env_op_overwrite 0 = Some 1.
Proof.
  apply (access_policy (fun _ => None) (str "so") serial_entry (str "serial") (str "42") (str "x")
    env_op_overwrite 0).
  - reflexivity.
  - reflexivity.
  - reflexivity.
  - by repeat constructor.
  - constructor.
  - reflexivity.
  - right. reflexivity.
Defined.

Lemma validate_type_correct_witness :
  _env_flags_validate_type (str "192.168.1.999") env_flags_vartype_ipaddr = 0.
Proof.
  apply (validate_type_correct (str "192.168.1.999")); [by repeat constructor|].
  exists [str "192"; str "168"; str "1"; str "999"]. split; [reflexivity|]. split; [|reflexivity].
  repeat constructor; simpl; lia.
Defined.

Lemma varaccess_roundtrip_witness : env_flags_parse_varaccess_from_binflags 0x28 = Some 2.
Proof. apply (varaccess_roundtrip (str "so") 0x28). reflexivity. Defined.

Lemma on_lists_keep_variables_witness :
  exists h', on_flags (H := plain_hooks) serial_table (Some (str "serial:sa, foo :d")) = Some (0, h') /\
    rep h' {[ str "serial" := str "42" ]}.
Proof.
  apply (on_lists_keep_variables (H := plain_hooks) [] serial_table _
    (Some (str "serial:sa, foo :d")) serial_rep).
  intros v [= <-]. by repeat constructor.
Defined.

(** [env_flags_parse_varaccess_from_binflags] bounds its loop by the size
    of the array in bytes: access bits that match none of the four modes make
    it read behind the array instead of printing its warning. *)
Theorem binflags_overrun :
  env_flags_parse_varaccess_from_binflags ENV_FLAGS_VARACCESS_PREVENT_CREATE = None.
Proof. reflexivity. Qed.

(** The ".flags" list is only read at the first call: when the variable
    did not exist then, a list set later is never consulted for a new
    variable, which the comment of [env_flags_init] says it is for. *)
Theorem flags_list_stale :
  let foo := mkENTRY (Some (str "foo")) (Some (str "1")) None 0 in
  let st := mkStatics false None in
  env_flags_init [0] [0] (mkStatics true None) None foo = Some (st, 0) /\
  env_flags_init [0] [0] st (Some (str "foo:so")) foo = Some (st, 0) /\
  env_flags_init [0] [0] (mkStatics true None) (Some (str "foo:so")) foo =
    Some (mkStatics false (Some (str "foo:so")), serial_bin).
Proof. split; [|split]; vm_compute; reflexivity. Qed.

(** Attributes longer than two characters overflow the buffer
    [env_flags_init] passes to [env_attr_lookup]. *)
Theorem flags_buffer_overflow :
  env_flags_lookup [0] [0] (Some (str "foo:sax")) (str "foo") = None /\
  env_flags_lookup [0] [0] (Some (str "foo:sa")) (str "foo") = Some (0, Some (str "sa")).
Proof. split; vm_compute; reflexivity. Qed.

End EnvFlags.
