(* ===== verification/Cli.v ===== *)
(** * The simple command line (common/cli_simple.c)

    Splitting a line into commands and words, and replacing variables.  Lines
    are values; a pointer into a line is the rest of the line.  The buffer
    sizes CONFIG_SYS_CBSIZE and CONFIG_SYS_MAXARGS and the functions that are
    called ([getenv], [cmd_process] and the ctrl-C flag) are parameters. *)

From S2P Require Import Prelude Ctype.

Module Cli.
Import Ctype.

(** ** Words *)

Fixpoint skip_blanks (line : bytes) : bytes :=
  match line with
  | [] => []
  | c :: line' => if isblank c then skip_blanks line' else line
  end.

(** [while ( *line && !isblank( *line)) ++line;]: the argument and what follows. *)
Fixpoint take_word (line : bytes) : bytes * bytes :=
  match line with
  | [] => ([], [])
  | c :: line' => if isblank c then ([], line) else let '(w, r) := take_word line' in (c :: w, r)
  end.

(** [n] is CONFIG_SYS_MAXARGS - nargs.  Returns [argv] and whether it was
    terminated with NULL. *)
Fixpoint parse_loop (n : nat) (line : bytes) : list bytes * bool :=
  match n with
  | O => ([], false)
  | S n' =>
      match skip_blanks line with
      | [] => ([], true)
      | line =>
          let '(w, r) := take_word line in
          match r with
          | [] => ([w], true)
          | _ :: r' => let '(l, t) := parse_loop n' r' in (w :: l, t)
          end
      end
  end.

Definition cli_simple_parse_line (maxargs : nat) (line : bytes) : list bytes * bool :=
  parse_loop maxargs line.

(** ** Variables *)

Record macro_state := mkM {
  state : Z;
  output : bytes;
  outputcnt : Z;
  varname_start : bytes }.

Section macros.
Context (getenv : bytes -> option bytes).

Definition emit (m : macro_state) (st : Z) (l : bytes) : macro_state :=
  let l := take (Z.to_nat (outputcnt m)) l in
  mkM st (output m ++ l) (outputcnt m - Z.of_nat (length l)) (varname_start m).

(** The [switch] on the state; [input] is what follows the character [c]. *)
Definition macro_step (m : macro_state) (c prev : Z) (input : bytes) : macro_state :=
  if state m =? 0 then
    if (c =? 39) && negb (prev =? 92) then mkM 3 (output m) (outputcnt m) (varname_start m)
    else if (c =? 36) && negb (prev =? 92) then mkM 1 (output m) (outputcnt m) (varname_start m)
    else mkM 0 (output m ++ [c]) (outputcnt m - 1) (varname_start m)
  else if state m =? 1 then
    if (c =? 40) || (c =? 123) then mkM 2 (output m) (outputcnt m) input
    else
      let m := mkM 0 (output m ++ [36]) (outputcnt m - 1) (varname_start m) in
      if negb (outputcnt m =? 0) then mkM 0 (output m ++ [c]) (outputcnt m - 1) (varname_start m) else m
  else if state m =? 2 then
    if (c =? 41) || (c =? 125) then
      let envcnt := (length (varname_start m) - length input - 1)%nat in
      let envname := take envcnt (varname_start m) in
      match getenv envname with
      | Some envval => emit m 0 envval
      | None => mkM 0 (output m) (outputcnt m) (varname_start m)
      end
    else m
  else
    if (c =? 39) && negb (prev =? 92) then mkM 0 (output m) (outputcnt m) (varname_start m)
    else mkM 3 (output m ++ [c]) (outputcnt m - 1) (varname_start m).

(** [while (inputcnt && outputcnt)]; [inputcnt] is the length of [input]. *)
Fixpoint macro_loop (input : bytes) (prev : Z) (m : macro_state) : macro_state :=
  match input with
  | [] => m
  | c :: input =>
      if outputcnt m =? 0 then m
      else if negb (state m =? 3) && ((c =? 92) && negb (prev =? 92)) then
        match input with
        | [] => m
        | c' :: input => macro_loop input c' (macro_step m c' c input)
        end
      else macro_loop input c (macro_step m c prev input)
  end.

Definition cli_simple_process_macros (cbsize : Z) (input : bytes) : bytes :=
  let m := macro_loop input 0 (mkM 0 [] cbsize []) in
  if negb (outputcnt m =? 0) then output m else take (length (output m) - 1) (output m).

End macros.

(** ** Commands *)

(** Find the separator: the token and, behind a ';', the rest of the line.
    [start] says that [sep == str]; [prev] is [*(sep - 1)]. *)
Fixpoint find_sep (str : bytes) (start : bool) (prev : Z) (inquotes : bool) : bytes * option bytes :=
  match str with
  | [] => ([], None)
  | c :: str' =>
      let inquotes := if (c =? 39) && negb (prev =? 92) then negb inquotes else inquotes in
      if negb inquotes && (c =? 59) && negb start && negb (prev =? 92) then ([], Some str')
      else let '(t, r) := find_sep str' false c inquotes in (c :: t, r)
  end.

(** The length of the string at the start of a memory area. *)
Fixpoint until_nul (l : bytes) : option nat :=
  match l with
  | [] => None
  | c :: l => if c =? 0 then Some O else n ← until_nul l; Some (S n)
  end.

(** What the command line uses of the rest of the system: reading a variable
    and the flag that records ctrl-C. *)
Class Console (St : Type) := {
  getenv : St -> bytes -> option bytes;
  clear_ctrlc : St -> St;
  had_ctrlc : St -> bool }.

Section run.
Context {St : Type} `{Console St} (cbsize : Z) (maxargs : nat).
(** [cmd_process] with its flag, [argv] and [*repeatable]: its result, the
    [*repeatable] it leaves and the state; [None] when it does not return. *)
Context (cmd_process : St -> Z -> list bytes -> Z -> option (Z * Z * St)).

(** [while ( *str)]; [prev] is the byte in front of [str]. *)
Fixpoint run_loop (fuel : nat) (flag : Z) (str : bytes) (prev : Z) (rc repeatable : Z) (st : St) :
    option (Z * St) :=
  match fuel with
  | O => None
  | S fuel' =>
      match str with
      | [] => Some (if negb (rc =? 0) then rc else repeatable, st)
      | _ =>
          let '(token, rest) := find_sep str true prev false in
          let str := default [] rest in
          let finaltoken := cli_simple_process_macros (getenv st) cbsize token in
          let '(argv, _) := cli_simple_parse_line maxargs finaltoken in
          match argv with
          | [] => run_loop fuel' flag str 0 (-1) repeatable st
          | _ =>
              '(ret, repeatable, st) ← cmd_process st flag argv repeatable;
              let rc := if negb (ret =? 0) then -1 else rc in
              if had_ctrlc st then Some (-1, st) else run_loop fuel' flag str 0 rc repeatable st
          end
      end
  end.

(** [before] is the byte in front of [cmdbuf]. *)
Definition cli_simple_run_command (before : Z) (cmd : option bytes) (flag : Z) (st : St) : option (Z * St) :=
  let st := clear_ctrlc st in
  match cmd with
  | None | Some [] => Some (-1, st)
  | Some cmd =>
      if cbsize <=? Z.of_nat (length cmd) then Some (-1, st)
      else run_loop (S (length cmd)) flag cmd before 0 1 st
  end.

(** The lines of [cli_simple_run_command_list]; [line] is the current line so
    far.  The lines run with the flag 0. *)
Fixpoint list_loop (before : Z) (next line : bytes) (st : St) : option (Z * St) :=
  match next with
  | [] =>
      match line with
      | [] => Some (0, st)
      | _ => '(r, st) ← cli_simple_run_command before (Some line) 0 st; Some (Z.b2z (r <? 0), st)
      end
  | c :: next' =>
      if c =? 10 then
        match line with
        | [] => list_loop before next' [] st
        | _ =>
            '(r, st) ← cli_simple_run_command before (Some line) 0 st;
            if r <? 0 then Some (1, st) else list_loop before next' [] st
        end
      else list_loop before next' (line ++ [c]) st
  end.

Definition cli_simple_run_command_list (before : Z) (cmd : bytes) (flag : Z) (st : St) : option (Z * St) :=
  list_loop before cmd [] st.

(** *** common/cli.c, for the simple parser *)

Definition run_command (before : Z) (cmd : option bytes) (flag : Z) (st : St) : option (Z * St) :=
  '(r, st) ← cli_simple_run_command before cmd flag st;
  Some (if r =? -1 then 1 else 0, st).

Definition run_command_repeatable (before : Z) (cmd : option bytes) (flag : Z) (st : St) : option (Z * St) :=
  cli_simple_run_command before cmd flag st.

(** [cmd] is the memory from the pointer on, [malloc] says whether a request
    succeeds.  A buffer is a string up to its first NUL. *)
Definition run_command_list (malloc : Z -> bool) (before : Z) (cmd : bytes) (len flag : Z) (st : St) :
    option (Z * St) :=
  bl ← (if len =? -1 then
          n ← until_nul cmd; Some (bool_decide (10 ∈ take n cmd), n)
        else Some (true, Z.to_nat len));
  let '(need_buff, len) := (bl : bool * nat) in
  if need_buff then
    if negb (malloc (Z.of_nat len + 1)) then Some (1, st)
    else if (length cmd <? len)%nat then None
    else
      let buff := take len cmd ++ [0] in
      n ← until_nul buff;
      cli_simple_run_command_list before (take n buff) flag st
  else cli_simple_run_command_list before (take len cmd) flag st.

(** *** The interactive loop

    One round of [cli_simple_loop]; [lastcommand] and [rc] are the variables
    the rounds share, [len] and [console_buffer] what [cli_readline] gave
    (CONFIG_BOOT_RETRY_TIME is off). *)
Definition CMD_FLAG_REPEAT : Z := 1.

Definition loop_round (before : Z) (len : Z) (console_buffer : bytes) (lastcommand : bytes) (rc : Z) (st : St) :
    option (bytes * Z * St) :=
  let lastcommand := if 0 <? len then console_buffer else lastcommand in
  let flag := if len =? 0 then CMD_FLAG_REPEAT else 0 in
  r ← (if len =? -1 then Some (rc, st)
       else run_command_repeatable before (Some lastcommand) flag st);
  let '(rc, st) := r in
  Some (if rc <=? 0 then [] else lastcommand, rc, st).

(** [cli_simple_loop] on a sequence of results of [cli_readline]. *)
Fixpoint loop_rounds (before : Z) (inputs : list (Z * bytes)) (lastcommand : bytes) (rc : Z) (st : St) :
    option (bytes * Z * St) :=
  match inputs with
  | [] => Some (lastcommand, rc, st)
  | (len, buf) :: inputs =>
      '(lastcommand, rc, st) ← loop_round before len buf lastcommand rc st;
      loop_rounds before inputs lastcommand rc st
  end.

Definition cli_simple_loop (before : Z) (inputs : list (Z * bytes)) (st : St) : option (bytes * Z * St) :=
  loop_rounds before inputs [] 1 st.

End run.

(** ** Words: the loop is a split at blanks *)

(** The words of a line; [cur] is the word being read. *)
Fixpoint words (cur s : bytes) : list bytes :=
  match s with
  | [] => match cur with [] => [] | _ => [cur] end
  | c :: s =>
      if isblank c then match cur with [] => words [] s | _ => cur :: words [] s end
      else words (cur ++ [c]) s
  end.

Lemma words_skip s : words [] (skip_blanks s) = words [] s.
Proof. induction s as [|c s IH]; [done | simpl]. by destruct (isblank c) eqn:E; [|simpl; rewrite E]. Qed.

Lemma skip_blanks_head s c s' : skip_blanks s = c :: s' -> isblank c = false.
Proof.
  induction s as [|d s IH]; simpl; [done|].
  destruct (isblank d) eqn:E; [auto | by intros [= <- _]].
Qed.

(** One word: [words] reads it as [take_word] does. *)
Lemma words_take_word s cur w r :
  take_word s = (w, r) -> cur ++ w <> [] ->
  words cur s = (cur ++ w) :: match r with [] => [] | _ :: r' => words [] r' end.
Proof.
  revert cur w; induction s as [|c s IH]; intros cur w; simpl.
  - intros [= <- <-]. rewrite app_nil_r. by destruct cur.
  - destruct (isblank c).
    + intros [= <- <-]. rewrite app_nil_r. by destruct cur.
    + destruct (take_word s) as [w' r'] eqn:Hw. intros [= <- <-] _.
      rewrite (IH (cur ++ [c]) w' eq_refl), <- app_assoc; [done | by destruct cur].
Qed.

Lemma parse_loop_words n s :
  (parse_loop n s).1 = take n (words [] s) /\
  ((length (words [] s) < n)%nat -> (parse_loop n s).2 = true).
Proof.
  revert s; induction n as [|n IH]; intros s; [split; [done | simpl; lia]|].
  cbn [parse_loop]. rewrite <- (words_skip s).
  destruct (skip_blanks s) as [|c line] eqn:Hs; [done|].
  apply skip_blanks_head in Hs.
  destruct (take_word (c :: line)) as [w r] eqn:Hw.
  assert (w <> []) as Hne.
  { simpl in Hw. rewrite Hs in Hw. destruct (take_word line). by simplify_eq. }
  rewrite (words_take_word _ [] w r Hw Hne).
  destruct r as [|b r]; [split; [by destruct n | done]|].
  destruct (IH r) as [IH1 IH2]. destruct (parse_loop n r) as [l t].
  simpl in *. split; [by rewrite IH1 | intros; apply IH2; lia].
Qed.

(** For every line, cli_simple_parse_line stores the blank-separated words
    of the line, the first CONFIG_SYS_MAXARGS of them; when there are fewer
    words than that, argv is terminated with NULL. *)
Theorem parse_line_words maxargs line :
  (cli_simple_parse_line maxargs line).1 = take maxargs (words [] line) /\
  ((length (words [] line) < maxargs)%nat -> (cli_simple_parse_line maxargs line).2 = true).
Proof. apply parse_loop_words. Qed.

(** With CONFIG_SYS_MAXARGS words and a trailing blank, argv is not
    terminated: the entry argv[MAXARGS] stays uninitialised, although the array
    is documented as NULL terminated. *)
Theorem parse_line_unterminated :
  cli_simple_parse_line 2 (str "a b ") = ([str "a"; str "b"], false).
Proof. reflexivity. Qed.

(** ** Variables: the output stays inside its buffer *)

Definition room (cbsize : Z) (m : macro_state) : Prop :=
  0 <= outputcnt m /\ Z.of_nat (length (output m)) + outputcnt m = cbsize.

Lemma emit_room getcb m st l : room getcb m -> room getcb (emit m st l).
Proof. unfold room, emit; simpl. rewrite length_app, length_take. lia. Qed.

Lemma macro_step_room getenv cbsize m c prev input :
  room cbsize m -> outputcnt m <> 0 -> room cbsize (macro_step getenv m c prev input).
Proof.
  intros Hm Hne. unfold macro_step. repeat bcase; try destruct (getenv _);
    try (by apply emit_room); unfold room in *; simpl in *; rewrite ?length_app; simpl; lia.
Qed.

Lemma macro_loop_room getenv cbsize input prev m :
  room cbsize m -> room cbsize (macro_loop getenv input prev m).
Proof.
  remember (length input) as n eqn:Hn.
  revert input prev m Hn; induction n as [n IH] using lt_wf_ind; intros input prev m -> Hm.
  destruct input as [|c input]; [done | simpl].
  destruct (outputcnt m =? 0) eqn:E; [done | zbool].
  destruct (negb _ && _).
  - destruct input as [|c' input]; [done|].
    eapply IH; [| reflexivity | by apply macro_step_room]. simpl; lia.
  - eapply IH; [| reflexivity | by apply macro_step_room]. simpl; lia.
Qed.

(** Whatever the input and the values of the variables,
    cli_simple_process_macros writes at most CONFIG_SYS_CBSIZE bytes, the
    terminating NUL included. *)
Theorem process_macros_bounded getenv cbsize input :
  0 < cbsize ->
  Z.of_nat (length (cli_simple_process_macros getenv cbsize input)) + 1 <= cbsize.
Proof.
  intros Hcb. unfold cli_simple_process_macros.
  pose proof (macro_loop_room getenv cbsize input 0 (mkM 0 [] cbsize []) ltac:(unfold room; simpl; lia))
    as [H1 H2].
  bcase; [lia | rewrite length_take; lia].
Qed.

Lemma process_macros_bounded_witness :
  0 < 4 /\ Z.of_nat (length (cli_simple_process_macros (fun _ => Some (str "long")) 4 (str "$(x)"))) + 1 <= 4.
Proof. split; [lia | apply process_macros_bounded; lia]. Defined.

(** ** Variables: the language of lines *)

(** The pieces a line is written with: plain text, an escaped character, text
    in single quotes, and a variable, in either kind of brackets. *)
Inductive piece :=
  | Text (s : bytes)
  | Esc (c : Z)
  | Quoted (s : bytes)
  | Var (o cl : Z) (name : bytes).

Definition piece_ok (p : piece) : Prop :=
  match p with
  | Text s => Forall (fun c => c <> 39 /\ c <> 36 /\ c <> 92) s
  | Esc c => c <> 92
  | Quoted s => Forall (fun c => c <> 39) s /\ last s <> Some 92
  | Var o cl name =>
      (o = 40 \/ o = 123) /\ (cl = 41 \/ cl = 125) /\
      Forall (fun c => c <> 41 /\ c <> 125 /\ c <> 92) name
  end.

Definition render (p : piece) : bytes :=
  match p with
  | Text s => s
  | Esc c => [92; c]
  | Quoted s => 39 :: s ++ [39]
  | Var o cl name => 36 :: o :: name ++ [cl]
  end.

Section expand.
Context (getenv : bytes -> option bytes).

Definition value (p : piece) : bytes :=
  match p with
  | Text s => s
  | Esc c => [c]
  | Quoted s => s
  | Var _ _ name => default [] (getenv name)
  end.

(** [m'] is [m] after writing [v], as far as there is room. *)
Definition adv (m : macro_state) (v : bytes) (m' : macro_state) : Prop :=
  output m' = output m ++ take (Z.to_nat (outputcnt m)) v /\
  outputcnt m' = outputcnt m - Z.of_nat (length (take (Z.to_nat (outputcnt m)) v)).

(** From state [st] with previous character [prev], the input [i] writes [v]. *)
Definition runs (st prev : Z) (i v : bytes) (st' prev' : Z) : Prop :=
  forall rest m, 0 <= outputcnt m -> (outputcnt m <> 0 -> state m = st) ->
  exists m', macro_loop getenv (i ++ rest) prev m = macro_loop getenv rest prev' m' /\
    adv m v m' /\ (outputcnt m' <> 0 -> state m' = st').

Lemma adv_nil m m' : output m' = output m -> outputcnt m' = outputcnt m -> adv m [] m'.
Proof. intros H1 H2. unfold adv. rewrite take_nil, app_nil_r. split; [done | simpl; lia]. Qed.

Lemma adv_one m c m' :
  0 < outputcnt m -> output m' = output m ++ [c] -> outputcnt m' = outputcnt m - 1 -> adv m [c] m'.
Proof. intros H1 H2 H3. unfold adv. rewrite take_ge by (simpl; lia). done. Qed.

Lemma adv_app m v1 m1 v2 m2 :
  0 <= outputcnt m -> adv m v1 m1 -> adv m1 v2 m2 -> adv m (v1 ++ v2) m2.
Proof.
  intros Hm [H1 H2] [H3 H4]. unfold adv. rewrite take_app.
  rewrite H3, H4, H1, H2, length_take, <- app_assoc, length_app, !length_take.
  split; [do 3 f_equal |]; lia.
Qed.

Lemma macro_loop_full rest prev m : outputcnt m = 0 -> macro_loop getenv rest prev m = m.
Proof. intros H. destruct rest; simpl; [done | by rewrite H]. Qed.

(** It is enough to look at a buffer with room left. *)
Lemma runs_room st prev i v st' prev' :
  (forall rest m, 0 < outputcnt m -> state m = st ->
    exists m', macro_loop getenv (i ++ rest) prev m = macro_loop getenv rest prev' m' /\
      adv m v m' /\ (outputcnt m' <> 0 -> state m' = st')) ->
  runs st prev i v st' prev'.
Proof.
  intros H rest m Hm Hst. destruct (decide (outputcnt m = 0)) as [E|E].
  - exists m. rewrite !macro_loop_full by done. unfold adv. rewrite E. simpl.
    rewrite app_nil_r. by repeat split.
  - apply H; [lia | auto].
Qed.

Lemma adv_nonneg m v m' : 0 <= outputcnt m -> adv m v m' -> 0 <= outputcnt m'.
Proof. intros Hm [_ H]. rewrite H, length_take. lia. Qed.

Lemma runs_nil st prev : runs st prev [] [] st prev.
Proof. intros rest m Hm Hst. exists m. split; [done|]. by split; [apply adv_nil|]. Qed.

Lemma runs_app st prev i1 v1 st1 prev1 i2 v2 st2 prev2 :
  runs st prev i1 v1 st1 prev1 -> runs st1 prev1 i2 v2 st2 prev2 ->
  runs st prev (i1 ++ i2) (v1 ++ v2) st2 prev2.
Proof.
  intros H1 H2 rest m Hm Hst.
  destruct (H1 (i2 ++ rest) m Hm Hst) as (m1 & E1 & A1 & S1).
  destruct (H2 rest m1 (adv_nonneg _ _ _ Hm A1) S1) as (m2 & E2 & A2 & S2).
  exists m2. rewrite <- app_assoc, E1, E2. by split; [| split; [eapply adv_app |]].
Qed.

Ltac cases := repeat (bcase; try (simpl in *; lia); try congruence).

(** One character: no escape, whatever the state. *)
Lemma macro_loop_char st prev c rest m :
  0 < outputcnt m -> state m = st -> (st = 3 \/ c <> 92) ->
  macro_loop getenv (c :: rest) prev m = macro_loop getenv rest c (macro_step getenv m c prev rest).
Proof.
  intros Hm Hst Hc. cbn [macro_loop].
  rewrite (proj2 (Z.eqb_neq (outputcnt m) 0)) by lia.
  destruct Hc as [-> | Hc]; [by rewrite Hst|].
  rewrite (proj2 (Z.eqb_neq c 92) Hc), andb_false_r. done.
Qed.

Lemma runs_char prev c : c <> 39 -> c <> 36 -> c <> 92 -> runs 0 prev [c] [c] 0 c.
Proof.
  intros H1 H2 H3. apply runs_room. intros rest m Hm Hst. eexists.
  split; [by apply (macro_loop_char 0); auto|].
  unfold macro_step. rewrite Hst. simpl. cases. by split; [apply adv_one|].
Qed.

Lemma runs_esc prev c : prev <> 92 -> runs 0 prev [92; c] [c] 0 c.
Proof.
  intros Hp. apply runs_room. intros rest m Hm Hst. exists (mkM 0 (output m ++ [c]) (outputcnt m - 1) (varname_start m)).
  split; [| by split; [apply adv_one|]].
  simpl. rewrite (proj2 (Z.eqb_neq (outputcnt m) 0)), (proj2 (Z.eqb_neq prev 92)), Hst by lia.
  simpl. unfold macro_step. rewrite Hst. simpl. by rewrite !andb_false_r.
Qed.

Lemma runs_quote st prev :
  prev <> 92 -> st = 0 \/ st = 3 -> runs st prev [39] [] (3 - st) 39.
Proof.
  intros Hp Hst. apply runs_room. intros rest m Hm Hs. eexists.
  split; [by apply (macro_loop_char st); auto; right|].
  unfold macro_step. rewrite Hs, (proj2 (Z.eqb_neq prev 92)) by done.
  destruct Hst as [-> | ->]; by split; [apply adv_nil|].
Qed.

Lemma runs_in_quotes prev s :
  Forall (fun c => c <> 39) s -> runs 3 prev s s 3 (default prev (last s)).
Proof.
  intros Hs. revert prev. induction Hs as [|c s Hc Hs IH]; intros prev; [apply runs_nil|].
  replace (default prev (last (c :: s))) with (default c (last s))
    by (rewrite last_cons; by destruct (last s)).
  apply (runs_app 3 prev [c] [c] 3 c s s); [| apply IH].
  apply runs_room. intros rest m Hm Hst. eexists.
  split; [by apply (macro_loop_char 3); auto|].
  unfold macro_step. rewrite Hst. simpl. cases. by split; [apply adv_one|].
Qed.

Lemma macro_loop_name cl name rest prev m :
  0 < outputcnt m -> state m = 2 -> cl = 41 \/ cl = 125 ->
  Forall (fun c => c <> 41 /\ c <> 125 /\ c <> 92) name ->
  macro_loop getenv (name ++ cl :: rest) prev m =
    macro_loop getenv rest cl (macro_step getenv m cl (default prev (last name)) rest).
Proof.
  intros Hm Hst Hcl Hn. revert prev. induction Hn as [|c name (H1 & H2 & H3) Hn IH]; intros prev.
  - apply (macro_loop_char 2); auto. right. lia.
  - cbn [app]. rewrite (macro_loop_char 2) by auto.
    replace (macro_step getenv m c prev (name ++ cl :: rest)) with m.
    + rewrite IH, last_cons. by destruct (last name).
    + unfold macro_step. rewrite Hst. simpl. cases.
Qed.

Lemma runs_var prev o cl name :
  prev <> 92 -> piece_ok (Var o cl name) ->
  runs 0 prev (render (Var o cl name)) (value (Var o cl name)) 0 cl.
Proof.
  intros Hp (Ho & Hcl & Hn). apply runs_room. intros rest m Hm Hst.
  cbn [render app]. rewrite (macro_loop_char 0) by auto with lia.
  unfold macro_step at 1. rewrite Hst, (proj2 (Z.eqb_neq prev 92)) by done. cbn [Z.eqb Pos.eqb andb orb negb].
  rewrite (macro_loop_char 1) by (simpl; auto with lia).
  unfold macro_step at 1. cbn [state outputcnt output varname_start].
  replace ((o =? 40) || (o =? 123)) with true by (destruct Ho as [-> | ->]; done).
  cbn [Z.eqb Pos.eqb andb orb negb]. rewrite <- app_assoc. cbn [app].
  eexists. split; [by apply macro_loop_name|].
  unfold macro_step. cbn [state outputcnt output varname_start].
  replace ((cl =? 41) || (cl =? 125)) with true by (destruct Hcl as [-> | ->]; done).
  cbn [Z.eqb Pos.eqb andb orb negb].
  replace (length (name ++ cl :: rest) - length rest - 1)%nat with (length name)
    by (rewrite length_app; simpl; lia).
  rewrite take_app_length. cbn [value].
  destruct (getenv name) as [v|]; [done|]. by split; [apply adv_nil|].
Qed.

Lemma runs_text prev s :
  prev <> 92 -> piece_ok (Text s) -> exists prev', prev' <> 92 /\ runs 0 prev s s 0 prev'.
Proof.
  intros Hp Hs. cbn [piece_ok] in Hs. revert prev Hp. induction Hs as [|c s (H1 & H2 & H3) Hs IH]; intros prev Hp.
  - exists prev. split; [done | apply runs_nil].
  - destruct (IH c H3) as (p' & Hp' & Hr). exists p'. split; [done|].
    apply (runs_app 0 prev [c] [c] 0 c s s); [by apply runs_char | done].
Qed.

Lemma runs_piece prev p :
  prev <> 92 -> piece_ok p -> exists prev', prev' <> 92 /\ runs 0 prev (render p) (value p) 0 prev'.
Proof.
  destruct p as [s|c|s|o cl name]; intros Hp Hok.
  - by apply runs_text.
  - exists c. split; [done | by apply runs_esc].
  - destruct Hok as [Hs Hl]. exists 39. split; [done|]. cbn [render value].
    apply (runs_app 0 prev [39] [] 3 39 (s ++ [39]) s); [apply (runs_quote 0); auto|].
    rewrite <- (app_nil_r s) at 2.
    eapply runs_app; [by apply runs_in_quotes | apply (runs_quote 3); [|auto]].
    destruct (last s); simpl; congruence.
  - exists cl. split; [destruct Hok as (_ & ? & _); lia | by apply runs_var].
Qed.

Lemma runs_pieces prev ps :
  prev <> 92 -> Forall piece_ok ps ->
  exists prev', runs 0 prev (concat (map render ps)) (concat (map value ps)) 0 prev'.
Proof.
  intros Hp Hps. revert prev Hp. induction Hps as [|p ps Hok Hps IH]; intros prev Hp; simpl.
  - exists prev. apply runs_nil.
  - destruct (runs_piece prev p Hp Hok) as (p1 & Hp1 & H1).
    destruct (IH p1 Hp1) as (p2 & H2). exists p2. by eapply runs_app.
Qed.

Lemma process_macros_expands_aux cbsize ps :
  0 < cbsize -> Forall piece_ok ps ->
  cli_simple_process_macros getenv cbsize (concat (map render ps)) =
    take (Z.to_nat (cbsize - 1)) (concat (map value ps)).
Proof.
  intros Hcb Hps. unfold cli_simple_process_macros.
  destruct (runs_pieces 0 ps ltac:(done) Hps) as (prev & H).
  destruct (H [] (mkM 0 [] cbsize []) ltac:(simpl; lia) ltac:(done)) as (m & E & (Ho & Hc) & _).
  rewrite app_nil_r in E. rewrite E. cbn [macro_loop]. rewrite Ho, Hc. simpl.
  set (v := concat (map value ps)). rewrite length_take.
  bcase; zbool.
  - rewrite !take_ge; [done | lia | lia].
  - rewrite take_take. f_equal. lia.
Qed.

(** On a line written with plain text, escaped characters, single quotes and
    variables, cli_simple_process_macros writes the text with the escapes and
    quotes removed and each variable replaced by its value (nothing when it is
    not set), cut at CONFIG_SYS_CBSIZE - 1 bytes. *)
Theorem process_macros_expands cbsize ps :
  0 < cbsize -> Forall piece_ok ps ->
  cli_simple_process_macros getenv cbsize (concat (map render ps)) =
    take (Z.to_nat (cbsize - 1)) (concat (map value ps)).
Proof. apply process_macros_expands_aux. Qed.

End expand.

Definition sample_env (n : bytes) : option bytes :=
  if bool_decide (n = str "ip") then Some (str "10.1") else None.

Lemma process_macros_expands_witness :
  cli_simple_process_macros sample_env 16 (str "a '$x' \$ $(ip) ${no}.") = str "a $x $ 10.1 .".
Proof.
  refine (eq_trans (process_macros_expands sample_env 16
    [Text (str "a "); Quoted (str "$x"); Text (str " "); Esc 36; Text (str " ");
     Var 40 41 (str "ip"); Text (str " "); Var 123 125 (str "no"); Text (str ".")] _ _) _).
  - lia.
  - repeat constructor; simpl; try discriminate; lia.
  - vm_compute. reflexivity.
Defined.

(** ** Commands *)

(** A piece of a command: outside quotes and escapes it has no separator. *)
Definition in_command (p : piece) : Prop :=
  piece_ok p /\
  match p with
  | Text s => Forall (fun c => c <> 59) s
  | Var _ _ name => Forall (fun c => c <> 59 /\ c <> 39) name
  | _ => True
  end.

Definition rendering (c : list piece) : bytes := concat (map render c).

Definition command_ok (c : list piece) : Prop := Forall in_command c /\ rendering c <> [].

Fixpoint command_line (cs : list (list piece)) : bytes :=
  match cs with
  | [] => []
  | [c] => rendering c
  | c :: cs => rendering c ++ 59 :: command_line cs
  end.

(** The scan for the separator passes over [i]. *)
Definition scans (q : bool) (prev : Z) (i : bytes) (q' : bool) (prev' : Z) : Prop :=
  forall rest start,
  find_sep (i ++ rest) start prev q =
    let '(t, r) := find_sep rest (match i with [] => start | _ => false end) prev' q' in (i ++ t, r).

Lemma scans_nil q prev : scans q prev [] q prev.
Proof. intros rest start. simpl. by destruct (find_sep _ _ _ _). Qed.

Lemma scans_app q prev i1 q1 prev1 i2 q2 prev2 :
  scans q prev i1 q1 prev1 -> scans q1 prev1 i2 q2 prev2 -> scans q prev (i1 ++ i2) q2 prev2.
Proof.
  intros H1 H2 rest start. rewrite <- app_assoc, H1, H2.
  replace (match i1 ++ i2 with [] => start | _ => false end)
    with (match i2 with [] => match i1 with [] => start | _ => false end | _ => false end)
    by (by destruct i1, i2).
  destruct (find_sep rest _ _ _). by rewrite app_assoc.
Qed.

Lemma scans_char q prev c :
  c <> 39 \/ prev = 92 -> q = true \/ c <> 59 \/ prev = 92 -> scans q prev [c] q c.
Proof.
  intros Hq Hs rest start. simpl.
  replace ((c =? 39) && negb (prev =? 92)) with false
    by (destruct Hq as [Hq%Z.eqb_neq | ->]; [by rewrite Hq | by rewrite andb_false_r]).
  replace (negb q && (c =? 59) && negb start && negb (prev =? 92)) with false; [done|].
  destruct Hs as [-> | [Hs%Z.eqb_neq | ->]]; [done | |]; rewrite ?Hs, ?andb_false_r; done.
Qed.

Lemma scans_quote q prev : prev <> 92 -> scans q prev [39] (negb q) 39.
Proof.
  intros Hp%Z.eqb_neq rest start. simpl. rewrite Hp. simpl.
  by rewrite !andb_false_r.
Qed.

Lemma scans_chars q prev s :
  Forall (fun c => c <> 39 /\ (q = true \/ c <> 59)) s ->
  scans q prev s q (default prev (last s)).
Proof.
  intros Hs. revert prev. induction Hs as [|c s [H1 H2] Hs IH]; intros prev; [apply scans_nil|].
  replace (default prev (last (c :: s))) with (default c (last s))
    by (rewrite last_cons; by destruct (last s)).
  apply (scans_app q prev [c] q c s); [apply scans_char; tauto | apply IH].
Qed.

Lemma last_not (P : Z -> Prop) s prev : Forall P s -> P prev -> P (default prev (last s)).
Proof.
  intros Hs Hp. destruct (last s) as [x|] eqn:E; [|done]. simpl.
  apply last_Some_elem_of in E. by eapply Forall_forall in Hs.
Qed.

Lemma scans_piece prev p :
  prev <> 92 -> in_command p -> exists prev', prev' <> 92 /\ scans false prev (render p) false prev'.
Proof.
  intros Hp [Hok Hin]. destruct p as [s|c|s|o cl name]; simpl in Hok, Hin.
  - exists (default prev (last s)). split.
    + apply (last_not (fun c => c <> 92)); [|done]. eapply Forall_impl; [exact Hok | naive_solver].
    + apply scans_chars. rewrite Forall_forall in *. naive_solver.
  - exists c. split; [done|]. cbn [render].
    apply (scans_app false prev [92] false 92 [c]); apply scans_char; naive_solver.
  - destruct Hok as [Hs Hl]. exists 39. split; [done|]. cbn [render].
    apply (scans_app false prev [39] true 39 (s ++ [39])); [by apply scans_quote|].
    eapply scans_app; [apply scans_chars; eapply Forall_impl; [exact Hs | naive_solver]|].
    apply scans_quote. destruct (last s); simpl; congruence.
  - destruct Hok as (Ho & Hcl & Hn). exists cl. split; [lia|].
    replace (render (Var o cl name)) with ([36; o] ++ name ++ [cl]) by done.
    eapply scans_app; [apply (scans_chars false prev [36; o])|].
    { repeat constructor; lia. }
    eapply scans_app; [apply scans_chars; rewrite Forall_forall in *; naive_solver|].
    apply scans_char; left + right; lia.
Qed.

Lemma scans_command prev c :
  prev <> 92 -> Forall in_command c -> exists prev', prev' <> 92 /\ scans false prev (rendering c) false prev'.
Proof.
  intros Hp Hc. revert prev Hp. induction Hc as [|p c Hok Hc IH]; intros prev Hp.
  - exists prev. split; [done | apply scans_nil].
  - destruct (scans_piece prev p Hp Hok) as (p1 & Hp1 & H1).
    destruct (IH p1 Hp1) as (p2 & Hp2 & H2). exists p2. split; [done|].
    by eapply scans_app.
Qed.

Lemma find_sep_command prev c rest :
  prev <> 92 -> command_ok c ->
  find_sep (rendering c ++ 59 :: rest) true prev false = (rendering c, Some rest) /\
  find_sep (rendering c) true prev false = (rendering c, None).
Proof.
  intros Hp [Hc Hne]. destruct (scans_command prev c Hp Hc) as (p' & Hp' & H).
  apply Z.eqb_neq in Hp'. split.
  - rewrite H. destruct (rendering c); [done|]. simpl. rewrite Hp'. simpl. by rewrite app_nil_r.
  - rewrite <- (app_nil_r (rendering c)) at 1. rewrite H. simpl. by rewrite app_nil_r.
Qed.

Lemma find_sep_shorter str start prev q t r :
  find_sep str start prev q = (t, Some r) -> (length r < length str)%nat.
Proof.
  revert start prev q t; induction str as [|c str IH]; intros start prev q t; simpl; [done|].
  destruct (negb _ && _ && _ && _).
  - intros [= _ <-]. lia.
  - destruct (find_sep str false c _) as [t' r'] eqn:E. intros [= _ ->].
    apply IH in E. lia.
Qed.

Section run_spec.
Context {St : Type} `{Console St} (cbsize : Z) (maxargs : nat).
Context (cmd_process : St -> Z -> list bytes -> Z -> option (Z * Z * St)).

(** The arguments of a command: its words after expansion in the state in
    which it runs. *)
Definition arguments (st : St) (c : list piece) : list bytes :=
  take maxargs (words [] (take (Z.to_nat (cbsize - 1)) (concat (map (value (getenv st)) c)))).

(** Running the commands one after the other: each sees the state the previous
    one left; a failure is remembered, ctrl-C stops. *)
Fixpoint execute (flag : Z) (cs : list (list piece)) (rc repeatable : Z) (st : St) : option (Z * St) :=
  match cs with
  | [] => Some (if negb (rc =? 0) then rc else repeatable, st)
  | c :: cs =>
      match arguments st c with
      | [] => execute flag cs (-1) repeatable st
      | argv =>
          '(ret, repeatable, st) ← cmd_process st flag argv repeatable;
          if had_ctrlc st then Some (-1, st)
          else execute flag cs (if negb (ret =? 0) then -1 else rc) repeatable st
      end
  end.

Lemma run_loop_execute fuel flag cs prev rc rep st :
  0 < cbsize -> prev <> 92 -> Forall command_ok cs -> (length (command_line cs) < fuel)%nat ->
  run_loop cbsize maxargs cmd_process fuel flag (command_line cs) prev rc rep st =
    execute flag cs rc rep st.
Proof.
  intros Hcb. revert cs prev rc rep st.
  induction fuel as [|fuel IH]; intros cs prev rc rep st Hp Hcs Hf; [lia|].
  destruct Hcs as [|c cs Hc Hcs]; [done|].
  assert (exists rest, find_sep (command_line (c :: cs)) true prev false = (rendering c, rest) /\
            default [] rest = command_line cs) as (rest & Hfind & Hrest).
  { destruct cs as [|c2 cs2].
    - exists None. by split; [apply (find_sep_command prev c [] Hp Hc)|].
    - exists (Some (command_line (c2 :: cs2))).
      by split; [apply (find_sep_command prev c _ Hp Hc)|]. }
  assert (command_line (c :: cs) <> [] /\ (length (command_line cs) < length (command_line (c :: cs)))%nat)
    as [Hne Hlt].
  { destruct Hc as [_ Hne]. destruct cs as [|c2 cs2]; cbn [command_line].
    - split; [done|]. destruct (rendering c); simpl; [done | lia].
    - rewrite length_app. split; [by destruct (rendering c) | simpl; lia]. }
  cbn [run_loop]. rewrite Hfind, Hrest.
  destruct (command_line (c :: cs)) as [|x l]; [done|].
  unfold rendering. rewrite process_macros_expands_aux by (done || by eapply Forall_impl; [apply Hc | intros ? []]).
  pose proof (parse_loop_words maxargs (take (Z.to_nat (cbsize - 1)) (concat (map (value (getenv st)) c))))
    as [Hargs _].
  unfold cli_simple_parse_line. destruct (parse_loop _ _) as [argv t]. simpl in Hargs.
  cbn [execute]. unfold arguments. rewrite <- Hargs.
  destruct argv as [|a argv]; [apply IH; done || lia|].
  destruct (cmd_process st flag (a :: argv) rep) as [[[ret rep'] st']|]; [simpl | done].
  destruct (had_ctrlc st'); [done | apply IH; done || lia].
Qed.

(** A processor that returns, whatever the state. *)
Definition returns : Prop := forall st flag argv rep, is_Some (cmd_process st flag argv rep).

Lemma run_loop_total fuel flag str prev rc rep st :
  returns -> (length str < fuel)%nat ->
  is_Some (run_loop cbsize maxargs cmd_process fuel flag str prev rc rep st).
Proof.
  intros Hret. revert str prev rc rep st; induction fuel as [|fuel IH]; intros str prev rc rep st Hf; [lia|].
  cbn [run_loop]. destruct str as [|c str]; [by eexists|].
  destruct (find_sep (c :: str) true prev false) as [t rest] eqn:E.
  assert (length (default [] rest) < fuel)%nat as Hr.
  { destruct rest; simpl; [apply find_sep_shorter in E; simpl in E, Hf; lia | simpl in Hf; lia]. }
  destruct (cli_simple_parse_line _ _) as [[|a argv] ?]; [by apply IH|].
  destruct (Hret st flag (a :: argv) rep) as [[[ret rep'] st'] ->]. simpl.
  destruct (had_ctrlc st'); [by eexists | by apply IH].
Qed.

Lemma run_command_execute before cs flag st :
  0 < cbsize -> before <> 92 -> Forall command_ok cs -> cs <> [] ->
  Z.of_nat (length (command_line cs)) < cbsize ->
  cli_simple_run_command cbsize maxargs cmd_process before (Some (command_line cs)) flag st =
    execute flag cs 0 1 (clear_ctrlc st).
Proof.
  intros Hcb Hb Hcs Hne Hlen. unfold cli_simple_run_command.
  assert (command_line cs <> []) as Hl.
  { destruct Hcs as [|c [|c2 cs] [_ Hc]]; [done | done |].
    cbn [command_line]. by destruct (rendering c). }
  destruct (command_line cs) as [|x l] eqn:E; [done|]. rewrite <- E in *.
  rewrite (proj2 (Z.leb_gt _ _)) by done.
  apply run_loop_execute; done || lia.
Qed.


Lemma run_command_is_Some before cmd flag st :
  returns -> is_Some (cli_simple_run_command cbsize maxargs cmd_process before cmd flag st).
Proof.
  intros Hret. unfold cli_simple_run_command. destruct cmd as [[|c s]|]; [by eexists | | by eexists].
  bcase; [by eexists | apply run_loop_total; done || lia].
Qed.

Lemma list_loop_is_Some before next line st :
  returns -> is_Some (list_loop cbsize maxargs cmd_process before next line st).
Proof.
  intros Hret. revert line st; induction next as [|c next IH]; intros line st; cbn [list_loop].
  - destruct line; [by eexists|].
    destruct (run_command_is_Some before (Some (z :: line)) 0 st Hret) as [[r st'] ->]. by eexists.
  - bcase; [|apply IH]. destruct line; [apply IH|].
    destruct (run_command_is_Some before (Some (z :: line)) 0 st Hret) as [[r st'] ->]. simpl.
    bcase; [by eexists | apply IH].
Qed.

(** The lines of a script: the non-empty ones run in order until one fails. *)
Fixpoint execute_lines (before : Z) (ls : list bytes) (st : St) : option (Z * St) :=
  match ls with
  | [] => Some (0, st)
  | [] :: ls => execute_lines before ls st
  | l :: ls =>
      '(r, st) ← cli_simple_run_command cbsize maxargs cmd_process before (Some l) 0 st;
      if r <? 0 then Some (1, st) else execute_lines before ls st
  end.

Lemma list_loop_line before l next line st :
  Forall (fun c => c <> 10) l ->
  list_loop cbsize maxargs cmd_process before (l ++ next) line st =
  list_loop cbsize maxargs cmd_process before next (line ++ l) st.
Proof.
  intros Hl. revert line; induction Hl as [|c l Hc Hl IH]; intros line; [by rewrite app_nil_r|].
  simpl. rewrite (proj2 (Z.eqb_neq c 10) Hc), IH, <- app_assoc. done.
Qed.

(** The text of a script: lines ended by newlines, and a last line without. *)
Fixpoint script (ls : list bytes) (lastline : bytes) : bytes :=
  match ls with
  | [] => lastline
  | l :: ls => l ++ 10 :: script ls lastline
  end.

(** Cli_simple_run_command_list runs the non-empty lines of its argument in
    order, each in the state the previous one left, and stops with 1 at the
    first line whose command fails; it returns when every command returns. *)
Theorem run_command_list_lines before ls lastline flag st :
  Forall (Forall (fun c => c <> 10)) (ls ++ [lastline]) ->
  cli_simple_run_command_list cbsize maxargs cmd_process before (script ls lastline) flag st =
    execute_lines before (ls ++ [lastline]) st /\
  (returns -> is_Some (execute_lines before (ls ++ [lastline]) st)).
Proof.
  intros Hls. unfold cli_simple_run_command_list.
  assert (list_loop cbsize maxargs cmd_process before (script ls lastline) [] st =
          execute_lines before (ls ++ [lastline]) st) as E;
    [| rewrite <- E; split; [done | intros; by apply list_loop_is_Some]].
  revert st; induction ls as [|l ls IH]; intros st; simpl in Hls; apply Forall_cons in Hls as [Hl Hls].
  - cbn [script app execute_lines]. rewrite <- (app_nil_r lastline) at 1.
    rewrite list_loop_line by done. cbn [list_loop app].
    destruct lastline as [|c l]; [done|].
    destruct (cli_simple_run_command _ _ _ _ _ _ _) as [[r st']|]; [|done]. simpl. by destruct (r <? 0).
  - cbn [script app execute_lines]. rewrite list_loop_line by done. cbn [list_loop app].
    destruct l as [|c l]; [by apply IH|]. simpl (10 =? 10).
    destruct (cli_simple_run_command _ _ _ _ _ _ _) as [[r st']|]; [|done]. simpl.
    destruct (r <? 0); [done | by apply IH].
Qed.

(** *** A processor that returns more often *)

Lemma run_loop_mono cp' fuel flag str prev rc rep st r :
  (forall st argv rep r, cmd_process st flag argv rep = Some r -> cp' st flag argv rep = Some r) ->
  run_loop cbsize maxargs cmd_process fuel flag str prev rc rep st = Some r ->
  run_loop cbsize maxargs cp' fuel flag str prev rc rep st = Some r.
Proof.
  intros Hle. revert str prev rc rep st; induction fuel as [|fuel IH]; intros str prev rc rep st; [done|].
  cbn [run_loop]. destruct str as [|c str]; [done|].
  destruct (find_sep (c :: str) true prev false) as [t rest].
  destruct (cli_simple_parse_line _ _) as [[|a argv] ?]; [apply IH|].
  destruct (cmd_process st flag (a :: argv) rep) as [[[ret rep'] st']|] eqn:E; [|done].
  rewrite (Hle _ _ _ _ E). simpl. destruct (had_ctrlc st'); [done | apply IH].
Qed.

Lemma run_command_mono cp' before cmd flag st r :
  (forall st argv rep r, cmd_process st flag argv rep = Some r -> cp' st flag argv rep = Some r) ->
  cli_simple_run_command cbsize maxargs cmd_process before cmd flag st = Some r ->
  cli_simple_run_command cbsize maxargs cp' before cmd flag st = Some r.
Proof.
  intros Hle. unfold cli_simple_run_command. destruct cmd as [[|c s]|]; [done | | done].
  bcase; [done | by apply run_loop_mono].
Qed.

(** *** The interactive loop *)

(** The Enter key repeats.  After a line that returned 1 (no failure and
    every command repeatable), an empty line runs the same line again with
    CMD_FLAG_REPEAT; after a line that failed or is not repeatable, and until
    the next line is typed, empty lines run nothing and only forget ctrl-C. *)
Theorem enter_repeats before l last rc st rc' st' :
  l <> [] ->
  cli_simple_run_command cbsize maxargs cmd_process before (Some l) 0 st = Some (rc', st') ->
  loop_rounds cbsize maxargs cmd_process before [(Z.of_nat (length l), l); (0, [])] last rc st =
    if 0 <? rc' then
      '(rc'', st'') ← cli_simple_run_command cbsize maxargs cmd_process before (Some l) CMD_FLAG_REPEAT st';
      Some (if rc'' <=? 0 then [] else l, rc'', st'')
    else Some ([], -1, clear_ctrlc st').
Proof.
  intros Hl Hrun. cbn [loop_rounds]. unfold loop_round.
  assert (0 < Z.of_nat (length l)) as Hlen by (destruct l; simpl; [done | lia]).
  rewrite (proj2 (Z.ltb_lt _ _) Hlen), (proj2 (Z.eqb_neq (Z.of_nat (length l)) 0)),
    (proj2 (Z.eqb_neq (Z.of_nat (length l)) (-1))) by lia.
  unfold run_command_repeatable. rewrite Hrun. cbn [mbind option_bind].
  destruct (rc' <=? 0) eqn:E, (0 <? rc') eqn:E'; zbool; try lia; [done|].
  change (0 =? -1) with false. change (0 <? 0) with false. change (0 =? 0) with true. cbv iota.
  destruct (cli_simple_run_command _ _ _ _ _ CMD_FLAG_REPEAT _) as [[rc2 st2]|]; reflexivity.
Qed.

End run_spec.

(** A command processor for the witnesses: it records the commands, fails on
    'false' and knows one variable. *)
#[export] Instance sample_console : Console (list (list bytes)) := {|
  getenv := fun _ => sample_env;
  clear_ctrlc := fun st => st;
  had_ctrlc := fun _ => false |}.

Definition sample_process (st : list (list bytes)) (flag : Z) (argv : list bytes) (rep : Z) :
    option (Z * Z * list (list bytes)) :=
  Some (Z.b2z (bool_decide (argv = [str "false"])), rep, st ++ [argv]).


Lemma run_command_list_lines_witness :
  cli_simple_run_command_list 64 8 sample_process 0
    (script [str "a"; []; str "false"; str "b"] []) 0 [] = Some (1, [[str "a"]; [str "false"]]).
Proof.
  refine (eq_trans (proj1 (run_command_list_lines 64 8 sample_process 0
    [str "a"; []; str "false"; str "b"] [] 0 [] _)) _).
  - vm_compute. repeat constructor; discriminate.
  - vm_compute. reflexivity.
Defined.

Lemma enter_repeats_witness :
  cli_simple_loop 64 8 sample_process 0 [(1, str "a"); (0, [])] [] = Some (str "a", 1, [[str "a"]; [str "a"]]).
Proof.
  refine (eq_trans (enter_repeats 64 8 sample_process 0 (str "a") [] 1 [] 1 [[str "a"]] _ _) _).
  - discriminate.
  - vm_compute. reflexivity.
  - vm_compute. reflexivity.
Defined.

(** The scan reads the byte in front of the working copy when the command
    starts with a quote: if that byte happens to be a backslash, the quote is
    not seen and a quoted separator splits the command. *)
Theorem run_command_reads_before :
  cli_simple_run_command 64 8 sample_process 0 (Some (str "'a;b'")) 0 [] =
    Some (1, [[str "a;b"]]) /\
  cli_simple_run_command 64 8 sample_process 92 (Some (str "'a;b'")) 0 [] =
    Some (1, [[str "a"]; [str "b"]]).
Proof. split; vm_compute; reflexivity. Qed.

End Cli.
