(* ===== verification/Vsprintf.v ===== *)
(** * Numbers and text (lib/vsprintf.c)

    Parsing numbers, the decimal conversion without division, and the
    formatter behind printf.  A string that is only read is a value and a
    pointer into it the rest of the string; the destination is memory, written
    through [ADDCH].  The compile-time switch CONFIG_SYS_VSNPRINTF is the
    parameter [vsn].  Variable arguments are a list of tagged values; fetching
    an argument of the wrong type is undefined behaviour and gives [None].
    Widths and precisions are unbounded integers. *)

From S2P Require Import Prelude Ctype CString.

Module Vsprintf.
Import Ctype CString.

(** The character a pointer points at; NUL at the end. *)
Definition cur (s : bytes) : Z := hd 0 s.

(** ** Parsing *)

Definition digit_value (c : Z) : Z :=
  if isdigit c then c - 48 else (if islower c then toupper c else c) - 65 + 10.

Fixpoint digits_loop (cp : bytes) (base result : Z) : Z * bytes :=
  match cp with
  | [] => (result, [])
  | c :: cp' =>
      if isxdigit c && (digit_value c <? base)
      then digits_loop cp' base (u64 (result * base + digit_value c))
      else (result, cp)
  end.

(** The prefix: the base and the pointer behind it. *)
Definition parse_base (cp : bytes) (base : Z) : Z * bytes :=
  let '(base, cp) :=
    if cur cp =? 48 then
      let cp := tail cp in
      let '(base, cp) :=
        if (cur cp =? 120) && isxdigit (cur (tail cp)) then (16, tail cp) else (base, cp) in
      (if base =? 0 then 8 else base, cp)
    else (base, cp) in
  (if base =? 0 then 10 else base, cp).

(** The result and [*endp]. *)
Definition simple_strtoul (cp : bytes) (base : Z) : Z * bytes :=
  let '(base, cp) := parse_base cp base in digits_loop cp base 0.

Definition simple_strtoull (cp : bytes) (base : Z) : Z * bytes :=
  let '(base, cp) := parse_base cp base in digits_loop cp base 0.

Definition EINVAL : Z := 22.

(** The return value and [*res]. *)
Definition strict_strtoul (cp : bytes) (base : Z) : Z * Z :=
  let len := length cp in
  if (len =? 0)%nat then (- EINVAL, 0)
  else
    let '(val, tail) := simple_strtoul cp base in
    if (length tail =? len)%nat then (- EINVAL, 0)
    else if (cur tail =? 0) || ((len =? len - length tail + 1)%nat && (cur tail =? 10)) then (0, val)
    else (- EINVAL, 0).

Definition simple_strtol (cp : bytes) (base : Z) : Z * bytes :=
  if cur cp =? 45 then
    let '(r, endp) := simple_strtoul (tail cp) base in (s64 (- r), endp)
  else let '(r, endp) := simple_strtoul cp base in (s64 r, endp).

(** The suffixes: the [switch] falls through from G to M to K. *)
Definition suffix (result : Z) (endp : bytes) : Z * bytes :=
  let c := cur endp in
  let result := if c =? 71 then u64 (result * 1024) else result in
  let result := if (c =? 71) || (c =? 77) then u64 (result * 1024) else result in
  if (c =? 71) || (c =? 77) || (c =? 75) || (c =? 107) then
    (u64 (result * 1024),
     if cur (drop 1 endp) =? 105 then
       if cur (drop 2 endp) =? 66 then drop 3 endp else drop 2 endp
     else endp)
  else (result, endp).

Definition ustrtoul (cp : bytes) (base : Z) : Z * bytes :=
  let '(result, endp) := simple_strtoul cp base in suffix result endp.

Definition ustrtoull (cp : bytes) (base : Z) : Z * bytes :=
  let '(result, endp) := simple_strtoull cp base in suffix result endp.

Definition is_digit (c : Z) : bool := (48 <=? c) && (c <=? 57).

(** The number and the rest of the format; [int] arithmetic. *)
Fixpoint atoi_loop (s : bytes) (i : Z) : Z * bytes :=
  match s with
  | [] => (i, [])
  | c :: s' => if is_digit c then atoi_loop s' (s32 (i * 10 + c - 48)) else (i, s)
  end.

Definition skip_atoi (s : bytes) : Z * bytes := atoi_loop s 0.

(** ** Decimal digits, least significant first *)

Definition put_dec_trunc (q : Z) : bytes :=
  let d1 := Z.land (Z.shiftr q 4) 0xf in
  let d2 := Z.land (Z.shiftr q 8) 0xf in
  let d3 := Z.shiftr q 12 in
  let d0 := u32 (6 * (d3 + d2 + d1) + Z.land q 0xf) in
  let q := Z.shiftr (u32 (d0 * 0xcd)) 11 in
  let d0 := u32 (d0 - 10 * q) in
  u8 (d0 + 48) ::
  let d1 := u32 (q + 9 * d3 + 5 * d2 + d1) in
  if negb (d1 =? 0) then
    let q := Z.shiftr (u32 (d1 * 0xcd)) 11 in
    let d1 := u32 (d1 - 10 * q) in
    u8 (d1 + 48) ::
    let d2 := u32 (q + 2 * d2) in
    if negb (d2 =? 0) || negb (d3 =? 0) then
      let q := Z.shiftr (u32 (d2 * 0xd)) 7 in
      let d2 := u32 (d2 - 10 * q) in
      u8 (d2 + 48) ::
      let d3 := u32 (q + 4 * d3) in
      if negb (d3 =? 0) then
        let q := Z.shiftr (u32 (d3 * 0xcd)) 11 in
        let d3 := u32 (d3 - 10 * q) in
        u8 (d3 + 48) :: if negb (q =? 0) then [u8 (q + 48)] else []
      else []
    else []
  else [].

Definition put_dec_full (q : Z) : bytes :=
  let d1 := Z.land (Z.shiftr q 4) 0xf in
  let d2 := Z.land (Z.shiftr q 8) 0xf in
  let d3 := Z.shiftr q 12 in
  let d0 := u32 (6 * (d3 + d2 + d1) + Z.land q 0xf) in
  let q := Z.shiftr (u32 (d0 * 0xcd)) 11 in
  let d0 := u32 (d0 - 10 * q) in
  let d1 := u32 (q + 9 * d3 + 5 * d2 + d1) in
  let q := Z.shiftr (u32 (d1 * 0xcd)) 11 in
  let d1 := u32 (d1 - 10 * q) in
  let d2 := u32 (q + 2 * d2) in
  let q := Z.shiftr (u32 (d2 * 0xd)) 7 in
  let d2 := u32 (d2 - 10 * q) in
  let d3 := u32 (q + 4 * d3) in
  let q := Z.shiftr (u32 (d3 * 0xcd)) 11 in
  let d3 := u32 (d3 - 10 * q) in
  [u8 (d0 + 48); u8 (d1 + 48); u8 (d2 + 48); u8 (d3 + 48); u8 (q + 48)].

(** [while (1)]; a 64-bit number takes at most four rounds. *)
Fixpoint put_dec_loop (fuel : nat) (num : Z) : bytes :=
  match fuel with
  | O => []
  | S fuel' =>
      if num <? 100000 then put_dec_trunc num
      else put_dec_full (num mod 100000) ++ put_dec_loop fuel' (num / 100000)
  end.

Definition put_dec (num : Z) : bytes := put_dec_loop 4 num.

(** ** The destination *)

Definition ZEROPAD : Z := 1.
Definition SIGN : Z := 2.
Definition PLUS : Z := 4.
Definition SPACE : Z := 8.
Definition LEFT : Z := 16.
Definition SMALL : Z := 32.
Definition SPECIAL : Z := 64.

Definition flag (type mask : Z) : bool := negb (Z.land type mask =? 0).

(** The memory and the pointer [str] (or [buf]) into it. *)
Abbreviation out := (mem * Z)%type.

(** What [%n] stores: the pointer, the width and the value. *)
Abbreviation stores := (list (Z * Z * Z)).

Section format.
Context (vsn : bool) (end_ : Z).

Definition ADDCH (o : out) (ch : Z) : out :=
  let '(m, str) := o in
  (if negb vsn || (str <? end_) then <[str := u8 ch]> m else m, str + 1).

Fixpoint addn (n : nat) (o : out) (ch : Z) : out :=
  match n with
  | O => o
  | S n' => addn n' (ADDCH o ch) ch
  end.

Fixpoint addl (o : out) (l : bytes) : out :=
  match l with
  | [] => o
  | ch :: l' => addl (ADDCH o ch) l'
  end.

(** [while (--size >= 0) ADDCH(buf, c);]: [size] characters when it is
    positive; the counter is negative afterwards. *)
Definition pad (o : out) (c size : Z) : out * Z :=
  (addn (Z.to_nat size) o c, Z.min (size - 1) (-1)).

(** The [do ... while (num)] loop for bases 8 and 16. *)
Fixpoint digit_loop (fuel : nat) (num mask shift locase : Z) : bytes :=
  match fuel with
  | O => []
  | S fuel' =>
      let digits := str "0123456789ABCDEF" in
      Z.lor (default 0 (zget digits (Z.land (u8 num) mask))) locase ::
      let num := Z.shiftr num shift in
      if negb (num =? 0) then digit_loop fuel' num mask shift locase else []
  end.

Definition number (o : out) (num base size precision type : Z) : out :=
  let need_pfx := flag type SPECIAL && negb (base =? 10) in
  let locase := Z.land type SMALL in
  let type := if flag type LEFT then Z.land type (Z.lnot ZEROPAD) else type in
  let '(sign, num, size) :=
    if flag type SIGN then
      if s64 num <? 0 then (45, u64 (- s64 num), size - 1)
      else if flag type PLUS then (43, num, size - 1)
      else if flag type SPACE then (32, num, size - 1)
      else (0, num, size)
    else (0, num, size) in
  let size := if need_pfx then if base =? 16 then size - 1 - 1 else size - 1 else size in
  let tmp :=
    if num =? 0 then [48]
    else if negb (base =? 10) then
      digit_loop 22 num (base - 1) (if base =? 16 then 4 else 3) locase
    else put_dec num in
  let i := Z.of_nat (length tmp) in
  let precision := if precision <? i then i else precision in
  let size := size - precision in
  let '(o, size) := if negb (flag type (ZEROPAD + LEFT)) then pad o 32 size else (o, size) in
  let o := if negb (sign =? 0) then ADDCH o sign else o in
  let o :=
    if need_pfx then
      let o := ADDCH o 48 in if base =? 16 then ADDCH o (Z.lor 88 locase) else o
    else o in
  let '(o, size) :=
    if negb (flag type LEFT) then pad o (if flag type ZEROPAD then 48 else 32) size else (o, size) in
  let o := addn (Z.to_nat (precision - i)) o 48 in
  let o := addl o (rev tmp) in
  (pad o 32 size).1.

(** [while (len < field_width--) ADDCH(buf, ' ');] *)
Definition pad_to (o : out) (len field_width : Z) : out * Z :=
  (addn (Z.to_nat (field_width - len)) o 32, Z.min field_width len - 1).

Definition string (o : out) (s : option bytes) (field_width precision flags : Z) : out :=
  let s := default (str "<NULL>") s in
  let len := Z.min (Z.of_nat (length s)) (u64 precision) in
  let '(o, field_width) :=
    if negb (flag flags LEFT) then pad_to o len field_width else (o, field_width) in
  let o := addl o (take (Z.to_nat len) s) in
  (pad_to o len field_width).1.

(** ** Addresses; [peek] is the byte at an address *)

Context (peek : Z -> Z).

Definition hex_asc (x : Z) : Z := default 0 (zget (str "0123456789abcdef") x).
Definition pack_hex_byte (byte : Z) : bytes :=
  [hex_asc (Z.shiftr (Z.land byte 0xf0) 4); hex_asc (Z.land byte 0x0f)].

Definition mac_bytes (addr flags : Z) : bytes :=
  concat (map (fun i => pack_hex_byte (peek (addr + i)) ++
    if negb (flag flags SPECIAL) && negb (i =? 5) then [58] else []) [0; 1; 2; 3; 4; 5]).

Definition mac_address_string (o : out) (addr field_width precision flags : Z) : out :=
  string o (Some (mac_bytes addr flags)) field_width precision (Z.land flags (Z.lnot SPECIAL)).

Definition ip6_bytes (addr flags : Z) : bytes :=
  concat (map (fun i => pack_hex_byte (peek (addr + 2 * i)) ++ pack_hex_byte (peek (addr + (2 * i + 1))) ++
    if negb (flag flags SPECIAL) && negb (i =? 7) then [58] else []) [0; 1; 2; 3; 4; 5; 6; 7]).

Definition ip6_addr_string (o : out) (addr field_width precision flags : Z) : out :=
  string o (Some (ip6_bytes addr flags)) field_width precision (Z.land flags (Z.lnot SPECIAL)).

Definition ip4_bytes (addr : Z) : bytes :=
  concat (map (fun i => rev (put_dec_trunc (peek (addr + i))) ++
    if negb (i =? 3) then [46] else []) [0; 1; 2; 3]).

Definition ip4_addr_string (o : out) (addr field_width precision flags : Z) : out :=
  string o (Some (ip4_bytes addr)) field_width precision (Z.land flags (Z.lnot SPECIAL)).

(** [*(phys_addr_t * )ptr] *)
Fixpoint peek_le (n : nat) (p : Z) : Z :=
  match n with
  | O => 0
  | S n' => peek p + 256 * peek_le n' (p + 1)
  end.

Definition pointer (fmt : bytes) (o : out) (ptr field_width precision flags : Z) : out :=
  let finish num field_width flags :=
    let flags := Z.lor flags SMALL in
    if field_width =? -1 then number o num 16 (2 * 8) precision (Z.lor flags ZEROPAD)
    else number o num 16 field_width precision flags in
  let c := cur fmt in
  if c =? 97 then finish (peek_le 8 ptr) (8 * 2 + 2) (Z.lor flags (Z.lor SPECIAL ZEROPAD))
  else if (c =? 109) || (c =? 77) then
    let flags := if c =? 109 then Z.lor flags SPECIAL else flags in
    mac_address_string o ptr field_width precision flags
  else if (c =? 105) || (c =? 73) then
    let flags := if c =? 105 then Z.lor flags SPECIAL else flags in
    if cur (tail fmt) =? 54 then ip6_addr_string o ptr field_width precision flags
    else if cur (tail fmt) =? 52 then ip4_addr_string o ptr field_width precision flags
    else finish ptr field_width (Z.land flags (Z.lnot SPECIAL))
  else finish ptr field_width flags.

(** ** The format *)

(** Variable arguments: 32- and 64-bit integers, strings, other pointers. *)
Inductive va :=
  | VInt (z : Z)
  | VLong (z : Z)
  | VStr (s : option bytes)
  | VPtr (p : Z).

Definition va_int (args : list va) : option (Z * list va) :=
  match args with VInt z :: args => Some (z, args) | _ => None end.

Definition va_long (args : list va) : option (Z * list va) :=
  match args with VLong z :: args => Some (z, args) | _ => None end.

Fixpoint parse_flags (fmt : bytes) (flags : Z) : Z * bytes :=
  match fmt with
  | [] => (flags, [])
  | c :: fmt' =>
      if c =? 45 then parse_flags fmt' (Z.lor flags LEFT)
      else if c =? 43 then parse_flags fmt' (Z.lor flags PLUS)
      else if c =? 32 then parse_flags fmt' (Z.lor flags SPACE)
      else if c =? 35 then parse_flags fmt' (Z.lor flags SPECIAL)
      else if c =? 48 then parse_flags fmt' (Z.lor flags ZEROPAD)
      else (flags, fmt)
  end.

Definition get_width (fmt : bytes) (flags : Z) (args : list va) : option (Z * Z * bytes * list va) :=
  if is_digit (cur fmt) then let '(w, fmt) := skip_atoi fmt in Some (w, flags, fmt, args)
  else if cur fmt =? 42 then
    '(w, args) ← va_int args;
    if s32 w <? 0 then Some (- s32 w, Z.lor flags LEFT, tail fmt, args)
    else Some (s32 w, flags, tail fmt, args)
  else Some (-1, flags, fmt, args).

Definition get_precision (fmt : bytes) (args : list va) : option (Z * bytes * list va) :=
  if cur fmt =? 46 then
    let fmt := tail fmt in
    '(p, fmt, args) ←
      (if is_digit (cur fmt) then let '(p, fmt) := skip_atoi fmt in Some (p, fmt, args)
       else if cur fmt =? 42 then '(p, args) ← va_int args; Some (s32 p, tail fmt, args)
       else Some (-1, fmt, args));
    Some (if p <? 0 then 0 else p, fmt, args)
  else Some (-1, fmt, args).

Definition get_qualifier (fmt : bytes) : Z * bytes :=
  let c := cur fmt in
  if (c =? 104) || (c =? 108) || (c =? 76) || (c =? 90) || (c =? 122) || (c =? 116) then
    if (c =? 108) && (cur (tail fmt) =? 108) then (76, tail (tail fmt)) else (c, tail fmt)
  else (-1, fmt).

(** The integer argument, sign-extended to 64 bits when it is signed. *)
Definition get_number (qualifier flags : Z) (args : list va) : option (Z * list va) :=
  if (qualifier =? 76) || (qualifier =? 108) || (qualifier =? 90) || (qualifier =? 122)
     || (qualifier =? 116) then
    '(n, args) ← va_long args; Some (u64 n, args)
  else
    '(n, args) ← va_int args;
    if qualifier =? 104 then
      Some (if flag flags SIGN then u64 (to_signed 16 n) else u16 n, args)
    else Some (if flag flags SIGN then u64 (s32 n) else u32 n, args).

Fixpoint skip_alnum (fmt : bytes) : bytes :=
  match fmt with
  | [] => []
  | c :: fmt' => if isalnum c then skip_alnum fmt' else fmt
  end.

Definition out_char (o : out) (c field_width flags : Z) : out :=
  let '(o, field_width) :=
    if negb (flag flags LEFT) then (addn (Z.to_nat (field_width - 1)) o 32, Z.min (field_width - 1) 0)
    else (o, field_width) in
  let o := ADDCH o (u8 c) in
  addn (Z.to_nat (field_width - 1)) o 32.

(** The conversion at [fmt]; the result has the format behind it.  [buf] is the
    start of the destination. *)
Definition convert (buf : Z) (fmt : bytes) (flags field_width precision qualifier : Z)
    (args : list va) (o : out) : option (out * stores * bytes * list va) :=
  let num base flags :=
    '(n, args) ← get_number qualifier flags args;
    Some (number o n base field_width precision flags, [], tail fmt, args) in
  let c := cur fmt in
  if c =? 99 then
    '(z, args) ← va_int args; Some (out_char o z field_width flags, [], tail fmt, args)
  else if c =? 115 then
    match args with
    | VStr s :: args => Some (string o s field_width precision flags, [], tail fmt, args)
    | _ => None
    end
  else if c =? 112 then
    match args with
    | VPtr p :: args =>
        Some (pointer (tail fmt) o p field_width precision flags, [], skip_alnum (tail fmt), args)
    | _ => None
    end
  else if c =? 110 then
    match args with
    | VPtr p :: args =>
        let n := o.2 - buf in
        Some (o, [(p, if qualifier =? 108 then 8 else 4, n)], tail fmt, args)
    | _ => None
    end
  else if c =? 37 then Some (ADDCH o 37, [], tail fmt, args)
  else if c =? 111 then num 8 flags
  else if c =? 120 then num 16 (Z.lor flags SMALL)
  else if c =? 88 then num 16 flags
  else if (c =? 100) || (c =? 105) then num 10 (Z.lor flags SIGN)
  else if c =? 117 then num 10 flags
  else
    let o := ADDCH o 37 in
    if negb (c =? 0) then Some (ADDCH o c, [], tail fmt, args) else Some (o, [], [], args).

Fixpoint format_loop (fuel : nat) (buf : Z) (fmt : bytes) (args : list va) (o : out) :
    option (out * stores) :=
  match fuel with
  | O => None
  | S fuel' =>
      match fmt with
      | [] => Some (o, [])
      | c :: fmt =>
          if negb (c =? 37) then format_loop fuel' buf fmt args (ADDCH o c)
          else
            let '(flags, fmt) := parse_flags fmt 0 in
            '(field_width, flags, fmt, args) ← get_width fmt flags args;
            '(precision, fmt, args) ← get_precision fmt args;
            let '(qualifier, fmt) := get_qualifier fmt in
            '(o, st, fmt, args) ← convert buf fmt flags field_width precision qualifier args o;
            '(o, st') ← format_loop fuel' buf fmt args o;
            Some (o, st ++ st')
      end
  end.

End format.

(** The return value, the memory and what [%n] stored. *)
Definition vsnprintf_internal (vsn : bool) (peek : Z -> Z) (m : mem) (buf size : Z) (fmt : bytes)
    (args : list va) : option (Z * mem * stores) :=
  let end_ := u64 (buf + size) in
  let '(end_, size) :=
    if vsn && (end_ <? buf) then (2 ^ 64 - 1, 2 ^ 64 - 1 - buf) else (end_, size) in
  '((m, str), st) ← format_loop vsn end_ peek (S (length fmt)) buf fmt args (m, buf);
  if vsn then
    if 0 <? size then
      let '(m, str) := ADDCH vsn end_ (m, str) 0 in
      let m := if end_ <? str then <[end_ - 1 := 0]> m else m in
      Some (str - 1 - buf, m, st)
    else Some (str - buf, m, st)
  else Some (str - buf, <[str := 0]> m, st).

Definition vsnprintf peek m buf size fmt args := vsnprintf_internal true peek m buf size fmt args.

Definition vscnprintf peek m buf size fmt args : option (Z * mem * stores) :=
  '(i, m, st) ← vsnprintf peek m buf size fmt args;
  if u64 i <? size then Some (i, m, st)
  else if negb (size =? 0) then Some (size - 1, m, st)
  else Some (0, m, st).

Definition INT_MAX : Z := 2 ^ 31 - 1.

Definition vsprintf (vsn : bool) peek m buf fmt args := vsnprintf_internal vsn peek m buf INT_MAX fmt args.

(** [local] has room for 21 digits; the result is the string from [p + 1]. *)
Fixpoint itoa_loop (fuel : nat) (i : Z) (acc : bytes) : option bytes :=
  match fuel with
  | O => None
  | S fuel' =>
      let acc := 48 + i mod 10 :: acc in
      let i := i / 10 in
      if 0 <? i then itoa_loop fuel' i acc else Some acc
  end.

Definition simple_itoa (i : Z) : option bytes := itoa_loop 21 i [].

(** ** What is written

    Every output function adds characters that do not depend on the
    destination. *)

Section emits.
Context (vsn : bool) (end_ : Z).

Lemma addl_app o l1 l2 : addl vsn end_ o (l1 ++ l2) = addl vsn end_ (addl vsn end_ o l1) l2.
Proof. revert o; induction l1 as [|c l1 IH]; intros o; [done | apply IH]. Qed.

Lemma addn_addl n o c : addn vsn end_ n o c = addl vsn end_ o (replicate n c).
Proof. revert o; induction n as [|n IH]; intros o; [done | apply IH]. Qed.

Lemma addl_one o c : ADDCH vsn end_ o c = addl vsn end_ o [c].
Proof. done. Qed.

Lemma addl_nil o : o = addl vsn end_ o [].
Proof. done. Qed.

Lemma addl_pos o l : (addl vsn end_ o l).2 = o.2 + Z.of_nat (length l).
Proof.
  revert o; induction l as [|c l IH]; intros [m p]; [simpl; lia|].
  cbn [addl]. rewrite IH. simpl. lia.
Qed.

End emits.

(** The effect on memory: everything without CONFIG_SYS_VSNPRINTF, what is in
    front of [end_] with it. *)
Lemma addl_unbounded end_ m p l :
  addl false end_ (m, p) l = (write_bytes m p (map u8 l), p + Z.of_nat (length l)).
Proof.
  revert m p; induction l as [|c l IH]; intros m p; simpl; [by rewrite Z.add_0_r|].
  rewrite IH. f_equal. lia.
Qed.

Lemma addl_bounded end_ m p l :
  addl true end_ (m, p) l =
    (write_bytes m p (take (Z.to_nat (end_ - p)) (map u8 l)), p + Z.of_nat (length l)).
Proof.
  revert m p; induction l as [|c l IH]; intros m p; simpl; [by rewrite Z.add_0_r, take_nil|].
  rewrite IH. bcase; zbool.
  - replace (Z.to_nat (end_ - p)) with (S (Z.to_nat (end_ - (p + 1)))) by lia.
    simpl. f_equal. lia.
  - replace (Z.to_nat (end_ - p)) with O by lia.
    replace (Z.to_nat (end_ - (p + 1))) with O by lia. simpl. f_equal. lia.
Qed.

(** ** Numbers: the text *)

(** What the sign bits of the flags ask for, and the magnitude. *)
Definition sign_text (type num : Z) : bytes :=
  if flag type SIGN then
    if s64 num <? 0 then [45] else if flag type PLUS then [43] else if flag type SPACE then [32] else []
  else [].

Definition magnitude (type num : Z) : Z :=
  if flag type SIGN && (s64 num <? 0) then u64 (- s64 num) else num.

Definition prefix_text (type base : Z) : bytes :=
  if flag type SPECIAL && negb (base =? 10) then
    if base =? 16 then [48; Z.lor 88 (Z.land type SMALL)] else [48]
  else [].

(** The digits, most significant first. *)
Definition digits_text (type base num : Z) : bytes :=
  rev (if num =? 0 then [48]
       else if negb (base =? 10) then
         digit_loop 22 num (base - 1) (if base =? 16 then 4 else 3) (Z.land type SMALL)
       else put_dec num).

(** Sign and prefix, at least [precision] digits, filled to [size] characters:
    with blanks behind, with zeros in front of the digits, or with blanks in
    front. *)
Definition number_text (num base size precision type : Z) : bytes :=
  let head := sign_text type num ++ prefix_text type base in
  let digits := digits_text type base (magnitude type num) in
  let body := replicate (Z.to_nat (precision - Z.of_nat (length digits))) 48 ++ digits in
  let fill := Z.to_nat (size - Z.of_nat (length (head ++ body))) in
  if flag type LEFT then head ++ body ++ replicate fill 32
  else if flag type ZEROPAD then head ++ replicate fill 48 ++ body
  else replicate fill 32 ++ head ++ body.

Lemma flag_or a m1 m2 : flag a (Z.lor m1 m2) = flag a m1 || flag a m2.
Proof.
  unfold flag. rewrite Z.land_lor_distr_r. apply Bool.eq_iff_eq_true.
  rewrite orb_true_iff, !negb_true_iff, !Z.eqb_neq, Z.lor_eq_0_iff. lia.
Qed.

Lemma flag_clear a m1 m2 : flag (Z.land a (Z.lnot m1)) m2 = flag a (Z.land (Z.lnot m1) m2).
Proof. unfold flag. by rewrite <- Z.land_assoc. Qed.

Lemma flag_lor a b m : flag (Z.lor a b) m = flag a m || flag b m.
Proof. unfold flag. rewrite !(Z.land_comm _ m). apply (flag_or m a b). Qed.

Section number.
Context (vsn : bool) (end_ : Z).

(** The two optional paddings around sign and prefix and the last one. *)
Lemma pad_text o c size : (pad vsn end_ o c size).1 = addl vsn end_ o (replicate (Z.to_nat size) c).
Proof. apply addn_addl. Qed.

Lemma head_text o type num base :
  let o' := if negb (hd 0 (sign_text type num) =? 0) then ADDCH vsn end_ o (hd 0 (sign_text type num)) else o in
  (if flag type SPECIAL && negb (base =? 10) then
     if base =? 16 then ADDCH vsn end_ (ADDCH vsn end_ o' 48) (Z.lor 88 (Z.land type SMALL))
     else ADDCH vsn end_ o' 48
   else o') = addl vsn end_ o (sign_text type num ++ prefix_text type base).
Proof.
  cbv zeta. rewrite addl_app.
  replace (if negb (hd 0 (sign_text type num) =? 0) then _ else o)
    with (addl vsn end_ o (sign_text type num)) by (unfold sign_text; by repeat bcase).
  unfold prefix_text. by repeat bcase.
Qed.

Lemma pad_done size c o : addn vsn end_ (Z.to_nat (Z.min (size - 1) (-1))) o c = o.
Proof. by replace (Z.to_nat (Z.min (size - 1) (-1))) with O by lia. Qed.

Lemma number_emits o num base size precision type :
  number vsn end_ o num base size precision type =
    addl vsn end_ o (number_text num base size precision type).
Proof.
  unfold number, number_text.
  set (type' := if flag type LEFT then _ else type).
  assert (flag type' SIGN = flag type SIGN /\ flag type' PLUS = flag type PLUS /\
          flag type' SPACE = flag type SPACE /\ flag type' LEFT = flag type LEFT /\
          flag type' ZEROPAD = flag type ZEROPAD && negb (flag type LEFT)) as (-> & -> & -> & HL & HZ).
  { subst type'. destruct (flag type LEFT) eqn:E; [|by rewrite E, andb_true_r].
    rewrite !flag_clear. simpl (Z.land _ _). rewrite andb_false_r. repeat split; try done.
    unfold flag. by rewrite Z.land_0_r. }
  set (need := flag type SPECIAL && negb (base =? 10)).
  set (head := sign_text type num ++ prefix_text type base).
  set (n := magnitude type num).
  replace (if flag type SIGN then _ else (0, num, size))
    with (hd 0 (sign_text type num), n, size - Z.of_nat (length (sign_text type num))).
  2: { unfold n, magnitude, sign_text. repeat bcase; simpl; try done; repeat f_equal; lia. }
  change (ZEROPAD + LEFT) with (Z.lor ZEROPAD LEFT). rewrite flag_or, HL, HZ.
  rewrite <- (length_rev (if n =? 0 then _ else _)).
  change (rev (if n =? 0 then _ else _)) with (digits_text type base n).
  set (ds := digits_text type base n).
  set (size1 := size - Z.of_nat (length (sign_text type num))).
  replace (if need then if base =? 16 then size1 - 1 - 1 else size1 - 1 else size1)
    with (size - Z.of_nat (length head)).
  2: { subst head size1 need. unfold prefix_text. rewrite length_app. repeat bcase; simpl; lia. }
  set (prec := if precision <? Z.of_nat (length ds) then Z.of_nat (length ds) else precision).
  set (body := replicate _ 48 ++ ds).
  assert (Z.of_nat (length body) = prec) as Hbody.
  { subst body prec. rewrite length_app, length_replicate. bcase; lia. }
  replace (Z.to_nat (size - Z.of_nat (length (head ++ body))))
    with (Z.to_nat (size - Z.of_nat (length head) - prec)) by (rewrite length_app; lia).
  replace (Z.to_nat (prec - Z.of_nat (length ds))) with (Z.to_nat (precision - Z.of_nat (length ds)))
    by (subst prec; bcase; lia).
  set (size2 := size - Z.of_nat (length head) - prec). unfold pad.
  pose proof (fun o => head_text o type num base) as Hhead. cbv zeta in Hhead. fold need head in Hhead.
  assert (forall o, addl vsn end_ (addn vsn end_ (Z.to_nat (precision - Z.of_nat (length ds))) o 48) ds =
          addl vsn end_ o body) as Hb by (intros o'; subst body; by rewrite addl_app, addn_addl).
  change (rev (if n =? 0 then _ else _)) with ds.
  destruct (flag type LEFT), (flag type ZEROPAD); cbn [negb andb orb fst snd];
    rewrite Hhead, Hb, ?pad_done, ?addn_addl, ?addl_app; done.
Qed.

End number.

(** ** Strings, pointers and conversions: the text *)

Definition string_text (s : option bytes) (field_width precision flags : Z) : bytes :=
  let s := default (str "<NULL>") s in
  let t := take (Z.to_nat (u64 precision)) s in
  let fill := replicate (Z.to_nat (field_width - Z.of_nat (length t))) 32 in
  if flag flags LEFT then t ++ fill else fill ++ t.

Definition char_text (c field_width flags : Z) : bytes :=
  let fill := replicate (Z.to_nat (field_width - 1)) 32 in
  if flag flags LEFT then u8 c :: fill else fill ++ [u8 c].

Lemma string_emits vsn end_ o s fw prec flags :
  string vsn end_ o s fw prec flags = addl vsn end_ o (string_text s fw prec flags).
Proof.
  unfold string, string_text, pad_to. set (t := default _ s).
  pose proof (wrap_range 64 prec ltac:(lia)) as Hr.
  replace (take (Z.to_nat (Z.min (Z.of_nat (length t)) (u64 prec))) t) with (take (Z.to_nat (u64 prec)) t).
  2: { destruct (Z.min_spec (Z.of_nat (length t)) (u64 prec)) as [[? ->] | [? ->]]; [|done].
       rewrite !take_ge by lia. done. }
  replace (Z.of_nat (length (take (Z.to_nat (u64 prec)) t))) with (Z.min (Z.of_nat (length t)) (u64 prec))
    by (rewrite length_take; lia).
  set (len := Z.min _ _). destruct (flag flags LEFT); cbn [negb fst].
  - by rewrite addl_app, addn_addl.
  - replace (Z.to_nat (Z.min fw len - 1 - len)) with O by lia. by rewrite addl_app, !addn_addl.
Qed.

Lemma char_emits vsn end_ o c fw flags :
  out_char vsn end_ o c fw flags = addl vsn end_ o (char_text c fw flags).
Proof.
  unfold out_char, char_text. destruct (flag flags LEFT); cbn [negb].
  - by rewrite addn_addl.
  - replace (Z.to_nat (Z.min (fw - 1) 0 - 1)) with O by lia. by rewrite addl_app, !addn_addl.
Qed.

(** A pointer is shown as a number or as a string. *)
Lemma pointer_emits peek fmt p fw prec flags : exists cs, forall vsn end_ o,
  pointer vsn end_ peek fmt o p fw prec flags = addl vsn end_ o cs.
Proof.
  unfold pointer, mac_address_string, ip6_addr_string, ip4_addr_string.
  repeat bcase; eexists; intros vsn end_ o; apply number_emits || apply string_emits.
Qed.

(** One conversion: an undefined one, or a text, what is stored and the rest
    of format and arguments, whatever the destination. *)
Lemma convert_emits peek off fmt flags fw prec q args :
  (forall vsn end_ buf o, o.2 - buf = off ->
     convert vsn end_ peek buf fmt flags fw prec q args o = None) \/
  (exists cs st fmt' args', forall vsn end_ buf o, o.2 - buf = off ->
     convert vsn end_ peek buf fmt flags fw prec q args o =
       Some (addl vsn end_ o cs, st, fmt', args')).
Proof.
  unfold convert. repeat bcase;
    try (destruct (get_number q _ args) as [[n args']|]; [right | by left];
         eexists _, [], _, _; intros; cbn [mbind option_bind]; by rewrite number_emits).
  - destruct (va_int args) as [[z args']|]; [right | by left].
    eexists _, [], _, _. intros. cbn [mbind option_bind]. by rewrite char_emits.
  - destruct args as [|[]]; try by left. right. eexists _, [], _, _. intros. by rewrite string_emits.
  - destruct args as [|[]]; try by left. destruct (pointer_emits peek (tail fmt) p fw prec flags) as [cs Hcs].
    right. eexists cs, [], _, _. intros. by rewrite Hcs.
  - destruct args as [|[]]; try by left. right. eexists [], [_], _, _. intros vsn end_ buf o ->. done.
  - destruct args as [|[]]; try by left. right. eexists [], [_], _, _. intros vsn end_ buf o ->. done.
  - right. by eexists [_], [], _, _.
  - right. by eexists [_; _], [], _, _.
  - right. by eexists [_], [], _, _.
Qed.

Lemma format_loop_emits peek fuel off fmt args :
  (forall vsn end_ buf o, o.2 - buf = off -> format_loop vsn end_ peek fuel buf fmt args o = None) \/
  (exists cs st, forall vsn end_ buf o, o.2 - buf = off ->
     format_loop vsn end_ peek fuel buf fmt args o = Some (addl vsn end_ o cs, st)).
Proof.
  revert off fmt args; induction fuel as [|fuel IH]; intros off fmt args; [by left|].
  destruct fmt as [|c fmt]; [right; by exists [], []|]. cbn [format_loop].
  destruct (negb (c =? 37)).
  { destruct (IH (off + 1) fmt args) as [H | (cs & st & H)]; [left | right; exists (c :: cs), st];
      intros vsn end_ buf [m p] Ho; (rewrite H; [done | simpl in *; lia]). }
  destruct (parse_flags fmt 0) as [flags fmt1].
  destruct (get_width fmt1 flags args) as [[[[fw flags2] fmt2] args2]|]; [|by left]. cbn [mbind option_bind].
  destruct (get_precision fmt2 args2) as [[[prec fmt3] args3]|]; [|by left]. cbn [mbind option_bind].
  destruct (get_qualifier fmt3) as [q fmt4].
  destruct (convert_emits peek off fmt4 flags2 fw prec q args3) as [H | (cs & st & fmt5 & args5 & H)].
  { left. intros vsn end_ buf o Ho. by rewrite H. }
  destruct (IH (off + Z.of_nat (length cs)) fmt5 args5) as [H2 | (cs2 & st2 & H2)];
    [left | right; exists (cs ++ cs2), (st ++ st2)]; intros vsn end_ buf o Ho;
    rewrite H by done; cbn [mbind option_bind];
    (rewrite H2; [cbn [mbind option_bind]; by rewrite ?addl_app | rewrite addl_pos; lia]).
Qed.

(** ** The destination buffer *)

Lemma vsprintf_spec peek m buf size fmt args :
  vsnprintf_internal false peek m buf size fmt args =
    '((m, str), st) ← format_loop false (u64 (buf + size)) peek (S (length fmt)) buf fmt args (m, buf);
    Some (str - buf, <[str := 0]> m, st).
Proof. done. Qed.

(** Terminating a text of which only the part in front of [end_] was written. *)
Lemma terminate_spec m buf size (cs : bytes) :
  0 < size ->
  let '(m1, s1) := ADDCH true (buf + size)
      (write_bytes m buf (take (Z.to_nat size) (map u8 cs)), buf + Z.of_nat (length cs)) 0 in
  (if buf + size <? s1 then <[buf + size - 1 := 0]> m1 else m1) =
    write_bytes m buf (take (Z.to_nat (size - 1)) (map u8 cs) ++ [0]) /\
  s1 - 1 - buf = Z.of_nat (length cs).
Proof.
  intros Hsz. simpl. split; [|lia].
  destruct (decide (Z.of_nat (length cs) < size)) as [Hlt | Hge].
  - rewrite (proj2 (Z.ltb_lt (buf + Z.of_nat (length cs)) _)), (proj2 (Z.ltb_ge (buf + size) _)) by lia.
    rewrite !take_ge by (rewrite length_map; lia).
    rewrite write_bytes_app, length_map. done.
  - rewrite (proj2 (Z.ltb_ge (buf + Z.of_nat (length cs)) _)), (proj2 (Z.ltb_lt (buf + size) _)) by lia.
    replace (Z.to_nat size) with (S (Z.to_nat (size - 1))) by lia.
    destruct (lookup_lt_is_Some_2 (map u8 cs) (Z.to_nat (size - 1))) as [x Hx];
      [rewrite length_map; lia|].
    rewrite (take_S_r _ _ _ Hx), !write_bytes_app, length_take, length_map. simpl.
    replace (buf + Z.of_nat (Z.to_nat (size - 1) `min` length cs)) with (buf + size - 1) by lia.
    by rewrite insert_insert_eq.
Qed.

Lemma vsnprintf_spec peek m buf size fmt args cs st :
  0 <= buf -> 0 <= size -> buf + size < 2 ^ 64 ->
  (forall vsn end_ buf o, o.2 - buf = 0 ->
     format_loop vsn end_ peek (S (length fmt)) buf fmt args o = Some (addl vsn end_ o cs, st)) ->
  vsnprintf peek m buf size fmt args =
    Some (Z.of_nat (length cs),
          if size =? 0 then m else write_bytes m buf (take (Z.to_nat (size - 1)) (map u8 cs) ++ [0]), st).
Proof.
  intros H0 H1 H2 H. unfold vsnprintf, vsnprintf_internal. rewrite wrap_small by lia.
  rewrite (proj2 (Z.ltb_ge (buf + size) buf)) by lia. cbn [andb].
  rewrite H by (simpl; lia). cbn [mbind option_bind]. rewrite addl_bounded.
  replace (Z.to_nat (buf + size - buf)) with (Z.to_nat size) by lia.
  destruct (decide (size = 0)) as [-> | Hne].
  - simpl. do 3 f_equal. lia.
  - rewrite (proj2 (Z.ltb_lt 0 size)), (proj2 (Z.eqb_neq size 0)) by lia.
    pose proof (terminate_spec m buf size cs ltac:(lia)) as Ht.
    destruct (ADDCH _ _ _ _) as [m1 s1]. destruct Ht as [-> ->]. done.
Qed.

(** C40: If vsprintf formats a text, vsnprintf formats the same text into any
    buffer of any size: it returns the length of the whole text, stores what fits
    with a terminating NUL behind it, and writes nothing outside the [size]
    bytes it was given (nothing at all for size 0). *)
Theorem vsnprintf_truncates peek m0 buf0 fmt args n m1 st :
  vsprintf false peek m0 buf0 fmt args = Some (n, m1, st) ->
  exists cs, n = Z.of_nat (length cs) /\ m1 = write_bytes m0 buf0 (map u8 cs ++ [0]) /\
  forall m buf size, 0 <= buf -> 0 <= size -> buf + size < 2 ^ 64 ->
  vsnprintf peek m buf size fmt args =
    Some (n, if size =? 0 then m
             else write_bytes m buf (take (Z.to_nat (size - 1)) (map u8 cs) ++ [0]), st) /\
  (forall m', vsnprintf peek m buf size fmt args = Some (n, m', st) ->
     forall a, a < buf \/ buf + size <= a -> m' !! a = m !! a).
Proof.
  unfold vsprintf. rewrite vsprintf_spec. intros H.
  destruct (format_loop_emits peek (S (length fmt)) 0 fmt args) as [Hn | (cs & st' & Hs)].
  { rewrite Hn in H by (simpl; lia). done. }
  rewrite Hs in H by (simpl; lia). cbn [mbind option_bind] in H. rewrite addl_unbounded in H.
  injection H as <- <- <-. exists cs. split; [lia|]. split.
  { by rewrite write_bytes_app, length_map. }
  intros m buf size H0 H1 H2.
  replace (buf0 + Z.of_nat (length cs) - buf0) with (Z.of_nat (length cs)) by lia.
  rewrite (vsnprintf_spec peek m buf size fmt args cs st') by done.
  split; [done|]. intros m' [= <-] a Ha.
  destruct (Z.eqb_spec size 0); [done|].
  rewrite lookup_write_bytes, decide_False; [done|].
  rewrite length_app, length_take, length_map. simpl. lia.
Qed.

(** ** Digits *)

(** The value of digits, least significant first. *)
Fixpoint eval (b : Z) (ds : list Z) : Z :=
  match ds with [] => 0 | d :: ds => d + b * eval b ds end.

(** [ds] are the digits of [n] without leading zeros; 0 has one digit. *)
Definition digits (b n : Z) (ds : list Z) : Prop :=
  Forall (fun d => 0 <= d < b) ds /\ eval b ds = n /\ ds <> [] /\ (last ds = Some 0 -> ds = [0]).

Lemma eval_nonneg b ds : 0 <= b -> Forall (fun d => 0 <= d < b) ds -> 0 <= eval b ds.
Proof. intros Hb. induction 1 as [|d ds Hd Hds IH]; simpl; nia. Qed.

Lemma eval_zero b ds : 0 < b -> Forall (fun d => 0 <= d < b) ds -> eval b ds = 0 -> Forall (eq 0) ds.
Proof.
  intros Hb. induction 1 as [|d ds Hd Hds IH]; simpl; [done|]. intros E.
  pose proof (eval_nonneg b ds ltac:(lia) Hds). constructor; [nia | apply IH; nia].
Qed.

Lemma digits_last b ds : 0 < b -> digits b 0 ds -> ds = [0].
Proof.
  intros Hb (H1 & H2 & H3 & H4). apply H4.
  pose proof (eval_zero b ds Hb H1 H2) as Hz.
  destruct (last ds) as [x|] eqn:E; [|by apply last_None in E].
  apply last_Some_elem_of in E. rewrite Forall_forall in Hz. by rewrite <- (Hz x E).
Qed.

Lemma digits_cons b d n ds : 0 <= d < b -> 0 < n -> digits b n ds -> digits b (d + b * n) (d :: ds).
Proof.
  intros Hd Hn (H1 & H2 & H3 & H4). split; [by constructor|]. split; [simpl; by rewrite H2|].
  split; [done|]. intros E. exfalso. destruct ds as [|d' ds]; [done|].
  rewrite last_cons_cons in E. apply H4 in E. injection E as -> ->. simpl in H2. lia.
Qed.

Lemma digits_one b d : 0 <= d < b -> digits b d [d].
Proof. intros Hd. split; [by apply Forall_singleton|]. simpl. split; [lia|]. by split; [|intros [= ->]]. Qed.

Lemma digits_unique b n ds ds' : 1 < b -> digits b n ds -> digits b n ds' -> ds = ds'.
Proof.
  intros Hb H H'. revert n ds' H H'.
  induction ds as [|d ds IH]; intros n ds' H H'; [by destruct H as (_ & _ & ? & _)|].
  destruct ds' as [|d' ds']; [by destruct H' as (_ & _ & ? & _)|].
  destruct H as (H1 & H2 & H3 & H4), H' as (H1' & H2' & H3' & H4').
  apply Forall_cons in H1 as [Hd H1]. apply Forall_cons in H1' as [Hd' H1']. simpl in H2, H2'.
  assert (eval b ds = eval b ds' /\ d = d') as [Hev ->]
    by (apply (Z.div_mod_unique b); [lia | lia | lia]). f_equal.
  assert (forall l, Forall (fun d => 0 <= d < b) l -> (last (d' :: l) = Some 0 -> d' :: l = [0]) ->
            l <> [] -> digits b (eval b l) l) as Hdig.
  { intros l Hl Hlast Hne. split; [done|]. split; [done|]. split; [done|].
    intros E. destruct l as [|x l]; [done|]. rewrite last_cons_cons in Hlast. by apply Hlast in E. }
  destruct ds as [|x ds], ds' as [|y ds']; [done | | |].
  - pose proof (Hdig _ H1' H4' ltac:(done)) as Hy. rewrite <- Hev in Hy. simpl in Hy.
    apply digits_last in Hy; [|lia]. injection Hy as -> ->. by specialize (H4' eq_refl).
  - pose proof (Hdig _ H1 H4 ltac:(done)) as Hx. rewrite Hev in Hx. simpl in Hx.
    apply digits_last in Hx; [|lia]. injection Hx as -> ->. by specialize (H4 eq_refl).
  - apply (IH (eval b (x :: ds))); [by apply Hdig | rewrite Hev; by apply Hdig].
Qed.

(** ** Decimal conversion without division *)

Lemma div10_cd x : 0 <= x < 1029 -> Z.shiftr (u32 (x * 0xcd)) 11 = x / 10.
Proof.
  intros Hx. rewrite wrap_small by lia. rewrite Z.shiftr_div_pow2 by lia.
  change (2 ^ 11) with 2048. Z.to_euclidean_division_equations; lia.
Qed.

Lemma div10_d x : 0 <= x < 69 -> Z.shiftr (u32 (x * 0xd)) 7 = x / 10.
Proof.
  intros Hx. rewrite wrap_small by lia. rewrite Z.shiftr_div_pow2 by lia.
  change (2 ^ 7) with 128. Z.to_euclidean_division_equations; lia.
Qed.

Lemma nibbles q : 0 <= q < 100000 ->
  let d1 := Z.land (Z.shiftr q 4) 0xf in let d2 := Z.land (Z.shiftr q 8) 0xf in
  let d3 := Z.shiftr q 12 in let d0 := Z.land q 0xf in
  0 <= d0 < 16 /\ 0 <= d1 < 16 /\ 0 <= d2 < 16 /\ 0 <= d3 < 25 /\
  q = d0 + 16 * d1 + 256 * d2 + 4096 * d3.
Proof.
  intros Hq. cbv zeta. change 0xf with (Z.ones 4). rewrite !Z.land_ones, !Z.shiftr_div_pow2 by lia.
  change (2 ^ 4) with 16. change (2 ^ 8) with 256. change (2 ^ 12) with 4096.
  Z.to_euclidean_division_equations; lia.
Qed.

Lemma u32_rem x : 0 <= x < 2 ^ 32 -> u32 (x - 10 * (x / 10)) = x mod 10.
Proof. intros Hx. rewrite wrap_small; Z.to_euclidean_division_equations; lia. Qed.

Lemma u8_digit x : 0 <= x < 10 -> u8 (x + 48) = x + 48.
Proof. intros. apply wrap_small. lia. Qed.

Definition ascii_digit (d : Z) : Z := d + 48.

(** The four quotients of both routines and their bounds. *)
Record dec_steps (q d0 d1 d2 d3 x0 x1 x2 x3 : Z) : Prop := {
  ds_x0 : x0 = 6 * (d3 + d2 + d1) + d0 /\ 0 <= x0 < 400;
  ds_x1 : x1 = x0 / 10 + 9 * d3 + 5 * d2 + d1 /\ 0 <= x1 < 400;
  ds_x2 : x2 = x1 / 10 + 2 * d2 /\ 0 <= x2 < 69;
  ds_x3 : x3 = x2 / 10 + 4 * d3 /\ 0 <= x3 < 100;
  ds_nonneg : 0 <= d0 /\ 0 <= d1 /\ 0 <= d2 /\ 0 <= d3;
  ds_value : q = d0 + 16 * d1 + 256 * d2 + 4096 * d3 }.

Lemma dec_steps_ok q : 0 <= q < 100000 ->
  let d1 := Z.land (Z.shiftr q 4) 0xf in let d2 := Z.land (Z.shiftr q 8) 0xf in
  let d3 := Z.shiftr q 12 in let d0 := Z.land q 0xf in
  exists x0 x1 x2 x3, dec_steps q d0 d1 d2 d3 x0 x1 x2 x3.
Proof.
  intros Hq d1 d2 d3 d0. destruct (nibbles q Hq) as (R0 & R1 & R2 & R3 & Eq).
  fold d1 d2 d3 d0 in R0, R1, R2, R3, Eq. clearbody d0 d1 d2 d3.
  eexists _, _, _, _. split; [split; [reflexivity|] .. | |]; [.. | lia | exact Eq];
    Z.to_euclidean_division_equations; lia.
Qed.

Ltac dec_start :=
  cbv zeta;
  match goal with
  | H : dec_steps ?q ?d0 ?d1 ?d2 ?d3 ?x0 ?x1 ?x2 ?x3 |- _ =>
      destruct H as [[E0 B0] [E1 B1] [E2 B2] [E3 B3] HN HV];
      rewrite <- E0; rewrite (wrap_small 32 x0), (div10_cd x0) by lia;
      rewrite <- E1; rewrite (wrap_small 32 x1), (div10_cd x1) by lia;
      rewrite <- E2; rewrite (wrap_small 32 x2), (div10_d x2) by lia;
      rewrite <- E3; rewrite (wrap_small 32 x3), (div10_cd x3) by lia;
      rewrite !u32_rem by lia;
      rewrite !u8_digit by (Z.to_euclidean_division_equations; lia)
  end.

Lemma put_dec_full_digits q : 0 <= q < 100000 ->
  exists ds, put_dec_full q = map ascii_digit ds /\ Forall (fun d => 0 <= d < 10) ds /\
    eval 10 ds = q /\ length ds = 5%nat.
Proof.
  intros Hq. destruct (dec_steps_ok q Hq) as (x0 & x1 & x2 & x3 & H). unfold put_dec_full. dec_start.
  exists [x0 mod 10; x1 mod 10; x2 mod 10; x3 mod 10; x3 / 10].
  split; [done|]. split; [|split; [|done]].
  - repeat constructor; Z.to_euclidean_division_equations; lia.
  - simpl. Z.to_euclidean_division_equations; lia.
Qed.

Ltac digs := repeat (apply Forall_cons; split); try apply Forall_nil; done || lia ||
  (Z.to_euclidean_division_equations; lia).

Lemma digits_intro b n ds x :
  Forall (fun d => 0 <= d < b) (ds ++ [x]) -> eval b (ds ++ [x]) = n -> ds = [] \/ x <> 0 ->
  digits b n (ds ++ [x]).
Proof.
  intros H1 H2 H3. split; [done|]. split; [done|]. split; [by destruct ds|].
  rewrite last_snoc. intros [= ->]. destruct H3 as [-> | ?]; done.
Qed.

Lemma put_dec_trunc_digits q : 0 <= q < 100000 ->
  exists ds, put_dec_trunc q = map ascii_digit ds /\ digits 10 q ds.
Proof.
  intros Hq. destruct (dec_steps_ok q Hq) as (x0 & x1 & x2 & x3 & H). unfold put_dec_trunc. dec_start.
  bcase; [| exists [x0 mod 10]; split; [done|]; apply (digits_intro 10 q []); simpl; auto;
             [digs | Z.to_euclidean_division_equations; lia]].
  destruct (negb (x2 =? 0) || negb (Z.shiftr q 12 =? 0)) eqn:E2'.
  2: { zbool. exists [x0 mod 10; x1 mod 10]. split; [done|]. apply (digits_intro 10 q [_]);
         [digs | simpl | right]; Z.to_euclidean_division_equations; lia. }
  apply orb_true_iff in E2'. rewrite !negb_true_iff, !Z.eqb_neq in E2'.
  bcase.
  2: { exists [x0 mod 10; x1 mod 10; x2 mod 10]. split; [done|]. apply (digits_intro 10 q [_; _]);
         [digs | simpl | right]; Z.to_euclidean_division_equations; lia. }
  bcase.
  - exists [x0 mod 10; x1 mod 10; x2 mod 10; x3 mod 10; x3 / 10]. split; [done|].
    apply (digits_intro 10 q [_; _; _; _]); [digs | simpl | right]; Z.to_euclidean_division_equations; lia.
  - exists [x0 mod 10; x1 mod 10; x2 mod 10; x3 mod 10]. split; [done|].
    apply (digits_intro 10 q [_; _; _]); [digs | simpl | right]; Z.to_euclidean_division_equations; lia.
Qed.

Lemma eval_app b ds ds' : eval b (ds ++ ds') = eval b ds + b ^ Z.of_nat (length ds) * eval b ds'.
Proof.
  induction ds as [|d ds IH]; cbn [app eval length]; [by rewrite Z.pow_0_r, Z.mul_1_l|].
  rewrite IH, Nat2Z.inj_succ, Z.pow_succ_r by lia. ring.
Qed.

Lemma digits_prepend b ds n ds' :
  1 < b -> Forall (fun d => 0 <= d < b) ds -> 0 < n -> digits b n ds' ->
  digits b (eval b ds + b ^ Z.of_nat (length ds) * n) (ds ++ ds').
Proof.
  intros Hb Hds Hn (H1 & H2 & H3 & H4). split; [by apply Forall_app|].
  split; [by rewrite eval_app, H2|]. split; [by destruct ds, ds'|].
  intros E. exfalso. rewrite last_app in E. destruct (last ds') as [x|] eqn:El.
  - injection E as ->. rewrite (H4 eq_refl) in H2. simpl in H2. lia.
  - by apply last_None in El.
Qed.

Lemma put_dec_loop_digits fuel num : 0 <= num < 100000 ^ Z.of_nat fuel ->
  (0 < fuel)%nat -> exists ds, put_dec_loop fuel num = map ascii_digit ds /\ digits 10 num ds.
Proof.
  revert num; induction fuel as [|fuel IH]; intros num Hn Hf; [lia|]. cbn [put_dec_loop].
  bcase; [apply put_dec_trunc_digits; lia|].
  rewrite Nat2Z.inj_succ, Z.pow_succ_r in Hn by lia.
  destruct (put_dec_full_digits (num mod 100000)) as (ds & -> & Hds & Hev & Hlen);
    [apply Z.mod_pos_bound; lia|].
  destruct fuel as [|fuel]; [simpl in Hn; lia|].
  destruct (IH (num / 100000)) as (ds' & -> & Hd); [| lia |].
  { split; [apply Z.div_pos; lia | apply Z.div_lt_upper_bound; lia]. }
  exists (ds ++ ds'). split; [by rewrite map_app|].
  assert (0 < num / 100000) as Hpos by (Z.to_euclidean_division_equations; lia).
  pose proof (digits_prepend 10 ds (num / 100000) ds' ltac:(lia) Hds Hpos Hd) as Hfin.
  rewrite Hlen, Hev in Hfin. change (10 ^ Z.of_nat 5) with 100000 in Hfin.
  by rewrite Z.add_comm, <- Z.div_mod in Hfin.
Qed.

(** The division-free decimal conversion terminates with the decimal digits
    of any 64-bit number, least significant first and without leading zeros. *)
Theorem put_dec_decimal num :
  0 <= num < 2 ^ 64 -> exists ds, put_dec num = map ascii_digit ds /\ digits 10 num ds.
Proof. intros H. apply put_dec_loop_digits; [simpl; lia | lia]. Qed.

Lemma put_dec_decimal_witness :
  exists ds, put_dec 1844674407370955161 = map ascii_digit ds /\ digits 10 1844674407370955161 ds.
Proof. apply put_dec_decimal. lia. Defined.

(** Letters above 9; [locase] is 0 or 0x20. *)
Definition digit_char (locase d : Z) : Z := Z.lor (if d <? 10 then d + 48 else d + 55) locase.

Lemma small_bit type : Z.land type SMALL = 0 \/ Z.land type SMALL = 32.
Proof.
  unfold SMALL. destruct (Z.testbit type 5) eqn:E; [right | left]; apply Z.bits_inj'; intros n Hn;
    rewrite Z.land_spec; change 32 with (2 ^ 5); rewrite Z.pow2_bits_eqb by lia;
    destruct (Z.eqb_spec 5 n) as [<-|]; rewrite ?E, ?andb_false_r, ?Z.bits_0; done.
Qed.

Lemma digit_char_lookup locase d : 0 <= d < 16 ->
  Z.lor (default 0 (zget (str "0123456789ABCDEF") d)) locase = digit_char locase d.
Proof.
  intros Hd. unfold digit_char. f_equal.
  assert (d = Z.of_nat (Z.to_nat d)) as -> by lia. assert (Z.to_nat d < 16)%nat as Hn by lia.
  revert Hn. generalize (Z.to_nat d) as n. intros n Hn.
  do 16 (destruct n as [|n]; [reflexivity|]). lia.
Qed.

Lemma ascii_digit_char locase d : locase = 0 \/ locase = 32 -> 0 <= d < 10 ->
  ascii_digit d = digit_char locase d.
Proof.
  intros Hl Hd. unfold ascii_digit, digit_char. rewrite (proj2 (Z.ltb_lt d 10)) by lia.
  assert (d = Z.of_nat (Z.to_nat d)) as -> by lia. assert (Z.to_nat d < 10)%nat as Hn by lia.
  revert Hn. generalize (Z.to_nat d) as n. intros n Hn.
  destruct Hl as [-> | ->]; do 10 (destruct n as [|n]; [reflexivity|]); lia.
Qed.

Lemma digit_loop_digits fuel num shift locase :
  3 <= shift <= 4 -> 0 < num < 2 ^ (shift * Z.of_nat fuel) ->
  exists ds, digit_loop fuel num (2 ^ shift - 1) shift locase = map (digit_char locase) ds /\
    digits (2 ^ shift) num ds.
Proof.
  intros Hs. revert num; induction fuel as [|fuel IH]; intros num Hn.
  { rewrite Z.mul_0_r in Hn. simpl in Hn. lia. }
  cbn [digit_loop].
  assert (Z.land (u8 num) (2 ^ shift - 1) = num mod 2 ^ shift) as ->.
  { rewrite Z.sub_1_r, <- Z.ones_equiv. unfold wrap.
    rewrite Z.land_ones by lia. replace 8 with (shift + (8 - shift)) by lia.
    rewrite Z.pow_add_r, Z.rem_mul_r by lia. rewrite Z.mul_comm, Z_mod_plus_full. apply Zmod_mod. }
  pose proof (Z.mod_pos_bound num (2 ^ shift) ltac:(lia)) as Hm.
  assert (8 <= 2 ^ shift <= 16) as Hb.
  { split; [change 8 with (2 ^ 3) | change 16 with (2 ^ 4)]; apply Z.pow_le_mono_r; lia. }
  rewrite digit_char_lookup by lia. rewrite Z.shiftr_div_pow2 by lia.
  pose proof (Z.div_mod num (2 ^ shift) ltac:(lia)) as Hdm. bcase.
  - destruct (IH (num / 2 ^ shift)) as (ds & -> & Hd).
    + split; [pose proof (Z.div_pos num (2 ^ shift)); lia|].
      apply Z.div_lt_upper_bound; [lia|]. rewrite <- Z.pow_add_r by lia.
      replace (shift + shift * Z.of_nat fuel) with (shift * Z.of_nat (S fuel)) by lia. lia.
    + exists (num mod 2 ^ shift :: ds). split; [done|]. rewrite Hdm at 1. rewrite Z.add_comm.
      apply digits_cons; [lia | pose proof (Z.div_pos num (2 ^ shift)); lia | done].
  - exists [num mod 2 ^ shift]. split; [done|]. rewrite E, Z.mul_0_r in Hdm. rewrite Hdm at 1.
    rewrite Z.add_0_l. by apply digits_one.
Qed.

Definition base_ok (base : Z) : Prop := base = 8 \/ base = 10 \/ base = 16.

Lemma digits_text_ok type base num : base_ok base -> 0 <= num < 2 ^ 64 ->
  exists ds, digits_text type base num = map (digit_char (Z.land type SMALL)) (rev ds) /\
    digits base num ds.
Proof.
  intros Hb Hn. unfold digits_text. pose proof (small_bit type) as Hl.
  destruct (Z.eqb_spec num 0) as [-> | Hne].
  { exists [0]. split; [by destruct Hl as [-> | ->] | apply digits_one; destruct Hb; lia]. }
  destruct Hb as [-> | [-> | ->]]; cbn [Z.eqb Pos.eqb negb].
  - destruct (digit_loop_digits 22 num 3 (Z.land type SMALL)) as (ds & E & Hd); [lia | simpl; lia |].
    exists ds. change (8 - 1) with (2 ^ 3 - 1). rewrite E, map_rev. done.
  - destruct (put_dec_loop_digits 4 num) as (ds & E & Hd); [simpl; lia | lia |].
    exists ds. unfold put_dec. rewrite E. split; [|done]. rewrite map_rev. f_equal.
    apply map_ext_in. intros d Hin. apply ascii_digit_char; [done|].
    destruct Hd as (Hd & _). rewrite List.Forall_forall in Hd. by apply Hd.
  - destruct (digit_loop_digits 22 num 4 (Z.land type SMALL)) as (ds & E & Hd); [lia | simpl; lia |].
    exists ds. change (16 - 1) with (2 ^ 4 - 1). rewrite E, map_rev. done.
Qed.

(** ** Parsing digits *)

(** The value of digits, most significant first, behind the value [r]. *)
Definition horner (b r : Z) (ms : list Z) : Z := fold_left (fun a d => a * b + d) ms r.

Lemma horner_rev b ds r : horner b r (rev ds) = r * b ^ Z.of_nat (length ds) + eval b ds.
Proof.
  unfold horner. induction ds as [|d ds IH]; cbn [rev length eval]; [simpl; lia|].
  rewrite fold_left_app, IH, Nat2Z.inj_succ, Z.pow_succ_r by lia. simpl. ring.
Qed.

Lemma horner_le b ms r : 1 <= b -> 0 <= r -> Forall (fun d => 0 <= d) ms -> r <= horner b r ms.
Proof.
  intros Hb Hr Hms. revert r Hr; induction Hms as [|d ms Hd Hms IH]; intros r Hr; [simpl; unfold horner; simpl; lia|].
  change (horner b r (d :: ms)) with (horner b (r * b + d) ms).
  specialize (IH (r * b + d) ltac:(nia)). nia.
Qed.

Lemma digit_char_value locase d : locase = 0 \/ locase = 32 -> 0 <= d < 16 ->
  isxdigit (digit_char locase d) = true /\ digit_value (digit_char locase d) = d /\
  (digit_char locase d = 48 <-> d = 0) /\ digit_char locase d <> 120 /\ digit_char locase d <> 45.
Proof.
  intros Hl Hd.
  assert (d = Z.of_nat (Z.to_nat d)) as -> by lia. assert (Z.to_nat d < 16)%nat as Hn by lia.
  revert Hn. generalize (Z.to_nat d) as n. intros n Hn. clear Hd.
  destruct Hl as [-> | ->]; do 16 (destruct n as [|n]; [vm_compute; intuition congruence|]); lia.
Qed.

Lemma digits_loop_digits b locase ms r rest :
  1 < b <= 16 -> locase = 0 \/ locase = 32 -> Forall (fun d => 0 <= d < b) ms -> 0 <= r ->
  horner b r ms < 2 ^ 64 ->
  digits_loop (map (digit_char locase) ms ++ rest) b r = digits_loop rest b (horner b r ms).
Proof.
  intros Hb Hl Hms. revert r; induction Hms as [|d ms Hd Hms IH]; intros r Hr Hlt; [done|].
  destruct (digit_char_value locase d Hl ltac:(lia)) as (Hx & Hv & _).
  cbn [map app digits_loop]. rewrite Hx, Hv, (proj2 (Z.ltb_lt d b)) by lia. cbn [andb].
  change (horner b r (d :: ms)) with (horner b (r * b + d) ms) in *.
  assert (r * b + d <= horner b (r * b + d) ms) as Hle.
  { apply horner_le; [lia | nia | eapply Forall_impl; [exact Hms | simpl; lia]]. }
  rewrite wrap_small by nia. apply IH; [nia | done].
Qed.

(** What may follow a number. *)
Definition ends_number (rest : bytes) : Prop := isxdigit (cur rest) = false /\ cur rest <> 120.

Lemma digits_loop_stop b r rest : ends_number rest -> digits_loop rest b r = (r, rest).
Proof. intros [H _]. destruct rest as [|c rest]; [done|]. simpl in *. by rewrite H. Qed.

Lemma digits_horner b n ds : digits b n ds -> horner b 0 (rev ds) = n.
Proof. intros (_ & H & _). by rewrite horner_rev, H. Qed.

(** The digits of a number, in front of the end of the number. *)
Lemma digits_loop_number b locase n ds rest :
  1 < b <= 16 -> locase = 0 \/ locase = 32 -> digits b n ds -> n < 2 ^ 64 -> ends_number rest ->
  digits_loop (map (digit_char locase) (rev ds) ++ rest) b 0 = (n, rest).
Proof.
  intros Hb Hl Hd Hn Hr. rewrite digits_loop_digits; try done.
  - by rewrite (digits_horner b n ds Hd), digits_loop_stop.
  - apply Forall_rev. apply Hd.
  - by rewrite (digits_horner b n ds Hd).
Qed.

(** Canonical digits start with 0 only for the number 0. *)
Lemma digits_first b n ds : 1 < b -> digits b n ds ->
  ds = [0] \/ exists d ms, rev ds = d :: ms /\ 0 < d < b.
Proof.
  intros Hb (H1 & _ & H3 & H4). destruct (last_app_inv ds) as [-> | (ds' & d & ->)]; [done|].
  rewrite last_snoc in H4. apply Forall_app in H1 as [_ H1]. rewrite Forall_singleton in H1.
  destruct (decide (d = 0)) as [-> | Hne]; [left; auto | right].
  exists d, (rev ds'). rewrite rev_app_distr. split; [done | lia].
Qed.

Lemma parse_base_digits b locase n ds rest :
  1 < b <= 16 -> locase = 0 \/ locase = 32 -> digits b n ds -> n < 2 ^ 64 -> ends_number rest ->
  simple_strtoul (map (digit_char locase) (rev ds) ++ rest) b = (n, rest).
Proof.
  intros Hb Hl Hd Hn Hr. unfold simple_strtoul, parse_base.
  destruct (digits_first b n ds ltac:(lia) Hd) as [-> | (d & ms & E & Hm)].
  - destruct Hd as (_ & <- & _). cbn [rev app map].
    replace (digit_char locase 0) with 48 by (by destruct Hl as [-> | ->]). cbn [cur hd tail].
    change (hd 0 rest) with (cur rest). destruct Hr as [Hr1 Hr2].
    rewrite (proj2 (Z.eqb_neq (cur rest) 120)) by done. cbn [andb Z.eqb Pos.eqb].
    rewrite !(proj2 (Z.eqb_neq b 0)) by lia. rewrite digits_loop_stop; [|done]. f_equal. cbn [eval]. lia.
  - rewrite E. cbn [map app cur hd].
    destruct (digit_char_value locase d Hl ltac:(lia)) as (_ & _ & H48 & _).
    rewrite (proj2 (Z.eqb_neq (digit_char locase d) 48)) by (rewrite H48; lia).
    rewrite (proj2 (Z.eqb_neq b 0)) by lia.
    change (digit_char locase d :: map (digit_char locase) ms ++ rest)
      with (map (digit_char locase) (d :: ms) ++ rest).
    rewrite <- E. by apply digits_loop_number.
Qed.

(** With the prefix, the base is found. *)
Lemma parse_prefixed type base n ds rest :
  base_ok base -> flag type SPECIAL = true -> Z.land type SMALL = 32 ->
  digits base n ds -> n < 2 ^ 64 -> ends_number rest ->
  simple_strtoul (prefix_text type base ++ map (digit_char 32) (rev ds) ++ rest) 0 = (n, rest).
Proof.
  intros Hb Hsp Hsm Hd Hn Hr. unfold prefix_text. rewrite Hsp, Hsm. unfold simple_strtoul, parse_base.
  assert (exists d ms, rev ds = d :: ms /\ 0 <= d < base) as (d & ms & E & Hm).
  { assert (1 < base) as Hb1 by (unfold base_ok in Hb; lia).
    destruct (digits_first base n ds Hb1 Hd) as [-> | (d & ms & E & ?)];
      [exists 0, [] | exists d, ms]; split; done || lia. }
  assert (0 <= d < 16) as Hd16 by (unfold base_ok in Hb; lia).
  destruct (digit_char_value 32 d ltac:(auto) Hd16) as (Hx & _ & H48 & H120 & _).
  assert (forall b, 1 < b <= 16 -> digits b n ds ->
    digits_loop (digit_char 32 d :: map (digit_char 32) ms ++ rest) b 0 = (n, rest)) as Hloop.
  { intros b Hb' Hd'. rewrite <- (digits_loop_number b 32 n ds rest) by auto. by rewrite E. }
  destruct Hb as [-> | [-> | ->]]; cbn [andb negb Z.eqb Pos.eqb app].
  - cbn [cur hd tail Z.eqb Pos.eqb]. rewrite E. cbn [map app hd].
    rewrite (proj2 (Z.eqb_neq _ 120)) by done. cbn [andb Z.eqb].
    apply Hloop; auto; lia.
  - destruct (digits_first 10 n ds ltac:(lia) Hd) as [-> | (d' & ms' & E' & Hm')].
    + destruct Hd as (_ & <- & _). cbn [rev app map cur hd tail]. simpl (digit_char 32 0 =? 48).
      cbn iota. change (hd 0 rest) with (cur rest). destruct Hr as [Hr1 Hr2].
      rewrite (proj2 (Z.eqb_neq (cur rest) 120)) by done. cbn [andb Z.eqb Pos.eqb].
      by rewrite digits_loop_stop.
    + rewrite E in E'. injection E' as <- <-. rewrite E. cbn [map app cur hd].
      rewrite (proj2 (Z.eqb_neq _ 48)) by (rewrite H48; lia). cbn [Z.eqb].
      apply Hloop; auto; lia.
  - cbn [cur hd tail Z.eqb Pos.eqb]. simpl (Z.lor 88 32 =? 120). rewrite E. cbn [map app hd cur].
    rewrite Hx. cbn [andb Z.eqb tail].
    apply Hloop; auto; lia.
Qed.

(** ** Printing and reading back *)

(** A conversion without width, precision and padding flags. *)
Lemma number_text_plain num base type : flag type LEFT = false -> flag type ZEROPAD = false ->
  number_text num base (-1) (-1) type =
    sign_text type num ++ prefix_text type base ++ digits_text type base (magnitude type num).
Proof.
  intros H1 H2. unfold number_text. rewrite H1, H2.
  rewrite !(Z2Nat.nonpos (-1 - _)) by lia. simpl. by rewrite <- app_assoc.
Qed.

Lemma digit_char_byte locase d : locase = 0 \/ locase = 32 -> 0 <= d < 16 -> u8 (digit_char locase d) = digit_char locase d.
Proof.
  intros Hl Hd. assert (d = Z.of_nat (Z.to_nat d)) as -> by lia. assert (Z.to_nat d < 16)%nat as Hn by lia.
  revert Hn. generalize (Z.to_nat d) as n. intros n Hn. clear Hd.
  destruct Hl as [-> | ->]; do 16 (destruct n as [|n]; [reflexivity|]); lia.
Qed.

Lemma digits_text_bytes type base num : base_ok base -> 0 <= num < 2 ^ 64 ->
  map u8 (digits_text type base num) = digits_text type base num.
Proof.
  intros Hb Hn. destruct (digits_text_ok type base num Hb Hn) as (ds & -> & (Hd & _)).
  rewrite map_map. apply map_ext_in. intros d Hin. apply digit_char_byte; [apply small_bit|].
  apply in_rev in Hin. rewrite List.Forall_forall in Hd. specialize (Hd d Hin). simpl in Hd.
  unfold base_ok in Hb. lia.
Qed.

Lemma digit_loop_length fuel num mask shift locase :
  (length (digit_loop fuel num mask shift locase) <= fuel)%nat.
Proof.
  revert num; induction fuel as [|fuel IH]; intros num; cbn [digit_loop length]; [lia|].
  bcase; [specialize (IH (Z.shiftr num shift)) | simpl]; lia.
Qed.

Lemma put_dec_loop_length fuel num : (length (put_dec_loop fuel num) <= 5 * fuel)%nat.
Proof.
  revert num; induction fuel as [|fuel IH]; intros num; cbn [put_dec_loop length]; [lia|].
  bcase.
  - unfold put_dec_trunc. cbv zeta. repeat bcase; simpl; lia.
  - rewrite length_app. specialize (IH (num / 100000)). simpl. lia.
Qed.

Lemma digits_text_length type base num : (length (digits_text type base num) <= 22)%nat.
Proof.
  unfold digits_text. rewrite length_rev. repeat bcase; [simpl; lia | apply digit_loop_length ..|].
  unfold put_dec. pose proof (put_dec_loop_length 4 num). lia.
Qed.

(** One conversion without width, precision and padding flags, for a buffer
    that is large enough. *)
Lemma vsnprintf_plain peek m buf size fmt n base type :
  (forall vsn end_ buf o, format_loop vsn end_ peek (S (length fmt)) buf fmt [VLong n] o =
     Some (number vsn end_ o (u64 n) base (-1) (-1) type, [])) ->
  flag type LEFT = false -> flag type ZEROPAD = false -> base_ok base ->
  0 <= buf -> 25 < size -> buf + size < 2 ^ 64 ->
  let cs := sign_text type (u64 n) ++ prefix_text type base ++
            digits_text type base (magnitude type (u64 n)) in
  vsnprintf peek m buf size fmt [VLong n] =
    Some (Z.of_nat (length cs), write_bytes m buf (cs ++ [0]), []).
Proof.
  intros H HL HZ Hb H1 H2 H3 cs.
  rewrite (vsnprintf_spec peek m buf size fmt [VLong n] cs []) by (try done; try lia;
    intros; by rewrite H, number_emits, number_text_plain).
  rewrite (proj2 (Z.eqb_neq size 0)) by lia. do 3 f_equal.
  assert (map u8 cs = cs) as ->.
  { subst cs. rewrite !map_app. f_equal; [|f_equal].
    - unfold sign_text. by repeat bcase.
    - unfold prefix_text. destruct (small_bit type) as [-> | ->]; by repeat bcase.
    - apply digits_text_bytes; [done|]. unfold magnitude. bcase; apply wrap_range; lia. }
  rewrite take_ge; [done|]. subst cs. rewrite !length_app.
  pose proof (digits_text_length type base (magnitude type (u64 n))).
  assert (length (sign_text type (u64 n)) <= 1)%nat by (unfold sign_text; repeat bcase; simpl; lia).
  assert (length (prefix_text type base) <= 2)%nat by (unfold prefix_text; repeat bcase; simpl; lia).
  lia.
Qed.

(** The conversions and the base to read them with. *)
Definition conversions : list (bytes * Z) :=
  [(str "%lo", 8); (str "%lu", 10); (str "%lx", 16); (str "%lX", 16); (str "%#lx", 0)].

Lemma print_plain peek m buf size n fmt base type rest :
  0 <= n < 2 ^ 64 -> 0 <= buf -> 25 < size -> buf + size < 2 ^ 64 -> ends_number rest ->
  base_ok base -> type = 0 \/ type = 32 ->
  (forall vsn end_ buf o, format_loop vsn end_ peek (S (length fmt)) buf fmt [VLong n] o =
     Some (number vsn end_ o (u64 n) base (-1) (-1) type, [])) ->
  exists cs, vsnprintf peek m buf size fmt [VLong n] =
    Some (Z.of_nat (length cs), write_bytes m buf (cs ++ [0]), []) /\
  simple_strtoul (cs ++ rest) base = (n, rest).
Proof.
  intros Hn H0 H1 H2 Hr Hb Ht H. exists (digits_text type base n).
  assert (u64 n = n) as Hu by (apply wrap_small; lia).
  split.
  - rewrite (vsnprintf_plain peek m buf size fmt n base type) by (done || by destruct Ht as [-> | ->]).
    rewrite Hu. by destruct Ht as [-> | ->].
  - destruct (digits_text_ok type base n Hb Hn) as (ds & -> & Hd).
    apply parse_base_digits; try done; [unfold base_ok in Hb; lia | apply small_bit | lia].
Qed.

(** Every unsigned 64-bit number printed with %lo, %lu, %lx or %lX is read
    back by simple_strtoul with the corresponding base, up to whatever follows
    it; printed with %#lx it is read back with base 0. *)
Theorem print_strtoul_roundtrip peek m buf size n fmt base rest :
  0 <= n < 2 ^ 64 -> 0 <= buf -> 25 < size -> buf + size < 2 ^ 64 -> ends_number rest ->
  (fmt, base) ∈ conversions ->
  exists cs, vsnprintf peek m buf size fmt [VLong n] =
    Some (Z.of_nat (length cs), write_bytes m buf (cs ++ [0]), []) /\
  simple_strtoul (cs ++ rest) base = (n, rest).
Proof.
  intros Hn H0 H1 H2 Hr Hin. unfold conversions in Hin.
  rewrite !elem_of_cons, elem_of_nil in Hin.
  destruct Hin as [[= -> ->] | [[= -> ->] | [[= -> ->] | [[= -> ->] | [[= -> ->] | []]]]]].
  - apply (print_plain peek m buf size n _ 8 0); unfold base_ok; auto.
  - apply (print_plain peek m buf size n _ 10 0); unfold base_ok; auto.
  - apply (print_plain peek m buf size n _ 16 32); unfold base_ok; auto.
  - apply (print_plain peek m buf size n _ 16 0); unfold base_ok; auto.
  - assert (u64 n = n) as Hu by (apply wrap_small; lia).
    destruct (digits_text_ok 96 16 n ltac:(unfold base_ok; auto) Hn) as (ds & E & Hd).
    exists (prefix_text 96 16 ++ digits_text 96 16 n). split.
    + rewrite (vsnprintf_plain peek m buf size _ n 16 96) by (done || (unfold base_ok; auto)).
      by rewrite Hu.
    + rewrite E, <- app_assoc. apply (parse_prefixed 96 16); unfold base_ok; auto; lia.
Qed.

Lemma print_strtoul_roundtrip_witness :
  exists cs, vsnprintf (fun _ => 0) ∅ 4096 32 (str "%#lx") [VLong 48879] =
    Some (Z.of_nat (length cs), write_bytes ∅ 4096 (cs ++ [0]), []) /\
  simple_strtoul (cs ++ str " -") 0 = (48879, str " -").
Proof.
  apply print_strtoul_roundtrip; [lia | lia | lia | lia | by split |].
  vm_compute. do 4 right. left.
Defined.

(** Every signed 64-bit number printed with %ld is read back by
    simple_strtol. *)
Theorem print_strtol_roundtrip peek m buf size z rest :
  - 2 ^ 63 <= z < 2 ^ 63 -> 0 <= buf -> 25 < size -> buf + size < 2 ^ 64 -> ends_number rest ->
  exists cs, vsnprintf peek m buf size (str "%ld") [VLong z] =
    Some (Z.of_nat (length cs), write_bytes m buf (cs ++ [0]), []) /\
  simple_strtol (cs ++ rest) 10 = (z, rest).
Proof.
  intros Hz H0 H1 H2 Hr.
  assert (s64 (u64 z) = z) as Hs.
  { unfold to_signed. rewrite wrap_wrap. unfold wrap.
    destruct (decide (z < 0)).
    - rewrite <- (Z_mod_plus_full z 1), (Z.mod_small (z + 1 * 2 ^ 64)) by lia. bcase; lia.
    - rewrite Z.mod_small by lia. bcase; lia. }
  set (mag := magnitude 2 (u64 z)).
  assert (mag = Z.abs z) as Hmag.
  { subst mag. unfold magnitude. change (flag 2 SIGN) with true. rewrite Hs. cbn [andb]. bcase.
    - rewrite wrap_small; lia.
    - rewrite wrap_small; lia. }
  destruct (digits_text_ok 2 10 mag ltac:(unfold base_ok; auto) ltac:(lia)) as (ds & E & Hd).
  exists (sign_text 2 (u64 z) ++ digits_text 2 10 mag). split.
  { by rewrite (vsnprintf_plain peek m buf size _ z 10 2) by (done || (unfold base_ok; auto)). }
  assert (simple_strtoul (digits_text 2 10 mag ++ rest) 10 = (mag, rest)) as Hp.
  { rewrite E. apply parse_base_digits; [lia | apply small_bit | done | lia | done]. }
  assert (cur (digits_text 2 10 mag ++ rest) <> 45) as H45.
  { rewrite E. destruct (digits_first 10 mag ds ltac:(lia) Hd) as [-> | (d & ms & -> & Hm)]; [done|].
    cbn [map app cur hd]. by apply digit_char_value; [apply small_bit | lia]. }
  unfold sign_text. change (flag 2 SIGN) with true. rewrite Hs. unfold simple_strtol. rewrite <- app_assoc. destruct (z <? 0) eqn:Ez; zbool.
  - cbn [app cur hd Z.eqb Pos.eqb tail]. rewrite Hp. f_equal. rewrite Hmag.
    unfold to_signed, wrap. rewrite <- (Z_mod_plus_full _ 1), Z.mod_small by lia. bcase; lia.
  - change (flag 2 PLUS) with false. change (flag 2 SPACE) with false. cbn [app].
    rewrite (proj2 (Z.eqb_neq _ 45)) by done. rewrite Hp. f_equal. rewrite Hmag.
    unfold to_signed. rewrite wrap_small by lia. bcase; lia.
Qed.

Lemma print_strtol_roundtrip_witness :
  exists cs, vsnprintf (fun _ => 0) ∅ 4096 32 (str "%ld") [VLong (-42)] =
    Some (Z.of_nat (length cs), write_bytes ∅ 4096 (cs ++ [0]), []) /\
  simple_strtol (cs ++ []) 10 = (-42, []).
Proof. apply print_strtol_roundtrip; [lia | lia | lia | lia | by split]. Defined.

Lemma itoa_loop_digits fuel i acc : 0 <= i < 10 ^ Z.of_nat fuel ->
  (0 < fuel)%nat ->
  exists ds, itoa_loop fuel i acc = Some (map ascii_digit (rev ds) ++ acc) /\ digits 10 i ds.
Proof.
  revert i acc; induction fuel as [|fuel IH]; intros i acc Hi Hf; [lia|].
  rewrite Nat2Z.inj_succ, Z.pow_succ_r in Hi by lia. cbn [itoa_loop]. bcase.
  - destruct (IH (i / 10) (48 + i mod 10 :: acc)) as (ds & -> & Hd).
    { split; [lia | apply Z.div_lt_upper_bound; lia]. }
    { destruct fuel; [simpl in Hi; Z.to_euclidean_division_equations; lia | lia]. }
    exists (i mod 10 :: ds). split.
    + cbn [rev]. rewrite map_app, <- app_assoc. simpl. unfold ascii_digit at 2. by rewrite Z.add_comm.
    + rewrite (Z.div_mod i 10) at 1 by lia. rewrite Z.add_comm.
      apply digits_cons; [apply Z.mod_pos_bound; lia | lia | done].
  - exists [i]. assert (0 <= i < 10) by (Z.to_euclidean_division_equations; lia). split.
    + rewrite Z.mod_small by lia. simpl. unfold ascii_digit. by rewrite Z.add_comm.
    + by apply digits_one.
Qed.

Lemma simple_itoa_spec i : 0 <= i < 2 ^ 64 -> simple_itoa i = Some (digits_text 0 10 i).
Proof.
  intros Hi. destruct (itoa_loop_digits 21 i []) as (ds & E & Hd); [simpl; lia | lia |].
  destruct (digits_text_ok 0 10 i ltac:(unfold base_ok; auto) Hi) as (ds' & -> & Hd').
  unfold simple_itoa. rewrite E, app_nil_r. rewrite (digits_unique 10 i ds ds') by (done || lia).
  f_equal. apply map_ext_in. intros d Hin. apply ascii_digit_char; [auto|].
  apply in_rev in Hin. destruct Hd' as (Hd' & _). rewrite List.Forall_forall in Hd'. by apply Hd'.
Qed.

(** Simple_itoa stays inside its 22-byte buffer and produces the same text
    as %lu. *)
Theorem simple_itoa_decimal i : 0 <= i < 2 ^ 64 -> simple_itoa i = Some (digits_text 0 10 i).
Proof. apply simple_itoa_spec. Qed.

Lemma simple_itoa_decimal_witness : simple_itoa 1200 = Some (digits_text 0 10 1200).
Proof. apply simple_itoa_decimal. lia. Defined.

(** ** The language of formats *)

Record spec := mkSpec { sp_flags : bytes; sp_width : option Z; sp_prec : option Z }.

Definition spec_ok (sp : spec) : Prop :=
  Forall (fun c => c ∈ str "-+ #0") (sp_flags sp) /\
  (forall w, sp_width sp = Some w -> 0 < w < 2 ^ 31) /\
  (forall p, sp_prec sp = Some p -> 0 <= p < 2 ^ 31).

Inductive qual := QNone | QShort | QLong | QLongLong | QSize.
Inductive conv := Co | Cu | Cx | CX | Cd.

(** Plain characters, %%, integers, strings and characters. *)
Inductive directive :=
  | DLit (c : Z)
  | DPercent
  | DNum (sp : spec) (q : qual) (cv : conv) (n : Z)
  | DStr (sp : spec) (s : option bytes)
  | DChar (sp : spec) (c : Z).

Definition directive_ok (d : directive) : Prop :=
  match d with
  | DLit c => c <> 37
  | DPercent => True
  | DNum sp _ _ _ | DStr sp _ | DChar sp _ => spec_ok sp
  end.

(** As it is written in the format. *)
Definition render_spec (sp : spec) : bytes :=
  sp_flags sp ++ from_option (digits_text 0 10) [] (sp_width sp) ++
  from_option (fun p => 46 :: digits_text 0 10 p) [] (sp_prec sp).

Definition render_qual (q : qual) : bytes :=
  match q with
  | QNone => [] | QShort => str "h" | QLong => str "l" | QLongLong => str "ll" | QSize => str "z"
  end.

Definition conv_char (cv : conv) : Z :=
  match cv with Co => 111 | Cu => 117 | Cx => 120 | CX => 88 | Cd => 100 end.

Definition render_directive (d : directive) : bytes :=
  match d with
  | DLit c => [c]
  | DPercent => [37; 37]
  | DNum sp q cv _ => 37 :: render_spec sp ++ render_qual q ++ [conv_char cv]
  | DStr sp _ => 37 :: render_spec sp ++ [115]
  | DChar sp _ => 37 :: render_spec sp ++ [99]
  end.

(** The argument it takes. *)
Definition argument (d : directive) : list va :=
  match d with
  | DLit _ | DPercent => []
  | DNum _ (QNone | QShort) _ n => [VInt n]
  | DNum _ _ _ n => [VLong n]
  | DStr _ s => [VStr s]
  | DChar _ c => [VInt c]
  end.

(** What it means. *)
Definition flag_bit (c : Z) : Z :=
  if c =? 45 then LEFT else if c =? 43 then PLUS else if c =? 32 then SPACE
  else if c =? 35 then SPECIAL else ZEROPAD.

Definition flags_of (fs : bytes) : Z := fold_left (fun a c => Z.lor a (flag_bit c)) fs 0.

Definition conv_base (cv : conv) : Z := match cv with Co => 8 | Cx | CX => 16 | Cu | Cd => 10 end.
Definition conv_flags (cv : conv) : Z := match cv with Cx => SMALL | Cd => SIGN | _ => 0 end.

(** The argument as a 64-bit number. *)
Definition conv_value (q : qual) (cv : conv) (n : Z) : Z :=
  match q, cv with
  | QNone, Cd => u64 (s32 n)
  | QNone, _ => u32 n
  | QShort, Cd => u64 (to_signed 16 n)
  | QShort, _ => u16 n
  | _, _ => u64 n
  end.

Definition text (d : directive) : bytes :=
  match d with
  | DLit c => [c]
  | DPercent => [37]
  | DNum sp q cv n =>
      number_text (conv_value q cv n) (conv_base cv) (default (-1) (sp_width sp))
        (default (-1) (sp_prec sp)) (Z.lor (flags_of (sp_flags sp)) (conv_flags cv))
  | DStr sp s => string_text s (default (-1) (sp_width sp)) (default (-1) (sp_prec sp)) (flags_of (sp_flags sp))
  | DChar sp c => char_text c (default (-1) (sp_width sp)) (flags_of (sp_flags sp))
  end.

(** *** Reading a specification back *)

Lemma parse_flags_render fs a rest :
  Forall (fun c => c ∈ str "-+ #0") fs -> cur rest ∉ str "-+ #0" ->
  parse_flags (fs ++ rest) a = (fold_left (fun a c => Z.lor a (flag_bit c)) fs a, rest).
Proof.
  intros Hfs Hr. revert a; induction Hfs as [|c fs Hc Hfs IH]; intros a.
  - change (str "-+ #0") with [45; 43; 32; 35; 48] in Hr. rewrite !not_elem_of_cons in Hr.
    destruct rest as [|c rest]; [done|]. simpl in *. destruct Hr as (H1 & H2 & H3 & H4 & H5 & _).
    by rewrite !(proj2 (Z.eqb_neq c _)) by done.
  - change (str "-+ #0") with [45; 43; 32; 35; 48] in Hc. rewrite !elem_of_cons, elem_of_nil in Hc.
    cbn [app parse_flags fold_left]. rewrite <- IH. unfold flag_bit.
    destruct Hc as [-> | [-> | [-> | [-> | [-> | []]]]]]; reflexivity.
Qed.

Lemma is_digit_char d : 0 <= d < 10 -> is_digit (digit_char 0 d) = true /\ digit_char 0 d - 48 = d.
Proof.
  intros Hd. rewrite <- (ascii_digit_char 0 d) by auto. unfold ascii_digit, is_digit.
  rewrite !(proj2 (Z.leb_le _ _)) by lia. split; [done | lia].
Qed.

Lemma atoi_loop_digits ms r rest : Forall (fun d => 0 <= d < 10) ms -> 0 <= r ->
  horner 10 r ms < 2 ^ 31 ->
  atoi_loop (map (digit_char 0) ms ++ rest) r = atoi_loop rest (horner 10 r ms).
Proof.
  intros Hms. revert r; induction Hms as [|d ms Hd Hms IH]; intros r Hr Hlt; [done|].
  destruct (is_digit_char d Hd) as [H1 H2]. cbn [map app atoi_loop]. rewrite H1.
  change (horner 10 r (d :: ms)) with (horner 10 (r * 10 + d) ms) in *.
  assert (r * 10 + d <= horner 10 (r * 10 + d) ms)
    by (apply horner_le; [lia | lia | eapply Forall_impl; [exact Hms | simpl; lia]]).
  replace (s32 (r * 10 + digit_char 0 d - 48)) with (r * 10 + d).
  2: { replace (r * 10 + digit_char 0 d - 48) with (r * 10 + d) by lia.
       unfold to_signed. rewrite wrap_small by lia. bcase; lia. }
  apply IH; [lia | done].
Qed.

Lemma skip_atoi_text w rest : 0 <= w < 2 ^ 31 -> is_digit (cur rest) = false ->
  is_digit (cur (digits_text 0 10 w ++ rest)) = true /\ skip_atoi (digits_text 0 10 w ++ rest) = (w, rest).
Proof.
  intros Hw Hr. destruct (digits_text_ok 0 10 w ltac:(unfold base_ok; auto) ltac:(lia)) as (ds & -> & Hd).
  change (Z.land 0 SMALL) with 0. assert (Forall (fun d => 0 <= d < 10) (rev ds)) as Hds.
  { apply Forall_rev. apply Hd. }
  split.
  - destruct (rev ds) as [|d ms] eqn:E.
    + destruct Hd as (_ & _ & Hne & _). apply (f_equal (@rev Z)) in E. by rewrite rev_involutive in E.
    + apply Forall_cons in Hds as [Hd0 _]. cbn [map app cur hd]. by apply is_digit_char.
  - unfold skip_atoi. rewrite atoi_loop_digits by (done || by rewrite (digits_horner 10 w); lia || done).
    rewrite (digits_horner 10 w) by done.
    destruct rest as [|c rest]; [done|]. simpl in *. by rewrite Hr.
Qed.

Lemma width_not_flag w rest : 0 < w < 2 ^ 31 -> cur (digits_text 0 10 w ++ rest) ∉ str "-+ #0".
Proof.
  intros Hw. destruct (digits_text_ok 0 10 w ltac:(unfold base_ok; auto) ltac:(lia)) as (ds & -> & Hd).
  destruct (digits_first 10 w ds ltac:(lia) Hd) as [-> | (d & ms & -> & Hm)].
  { destruct Hd as (_ & Hd & _). simpl in Hd. lia. }
  change (Z.land 0 SMALL) with 0. cbn [map app cur hd]. rewrite <- (ascii_digit_char 0 d) by (auto || lia).
  change (str "-+ #0") with [45; 43; 32; 35; 48]. rewrite !elem_of_cons, elem_of_nil. unfold ascii_digit. lia.
Qed.

(** What follows a specification. *)
Definition conv_start (rest : bytes) : Prop := cur rest ∈ str "hlzouxXdsc".

Lemma conv_start_facts rest : conv_start rest ->
  (cur rest ∉ str "-+ #0") /\ is_digit (cur rest) = false /\ cur rest <> 46 /\ cur rest <> 42.
Proof.
  unfold conv_start. change (str "hlzouxXdsc") with [104; 108; 122; 111; 117; 120; 88; 100; 115; 99].
  change (str "-+ #0") with [45; 43; 32; 35; 48]. rewrite !elem_of_cons, !elem_of_nil. intros H.
  split; [lia|]. split; [|lia]. unfold is_digit. apply andb_false_iff. rewrite !Z.leb_gt. lia.
Qed.

Definition prec_text (sp : spec) : bytes := from_option (fun p => 46 :: digits_text 0 10 p) [] (sp_prec sp).

Lemma prec_text_start sp rest : conv_start rest ->
  (cur (prec_text sp ++ rest) ∉ str "-+ #0") /\ is_digit (cur (prec_text sp ++ rest)) = false /\
  cur (prec_text sp ++ rest) <> 42.
Proof.
  intros Hr. unfold prec_text. destruct (sp_prec sp); cbn [from_option app].
  - split; [|done]. change (str "-+ #0") with [45; 43; 32; 35; 48].
    rewrite !elem_of_cons, elem_of_nil. simpl. lia.
  - apply conv_start_facts in Hr. tauto.
Qed.

Lemma get_width_render sp rest flags args : spec_ok sp -> conv_start rest ->
  get_width (from_option (digits_text 0 10) [] (sp_width sp) ++ prec_text sp ++ rest) flags args =
    Some (default (-1) (sp_width sp), flags, prec_text sp ++ rest, args).
Proof.
  intros (_ & Hw & _) Hr. destruct (prec_text_start sp rest Hr) as (_ & H1 & H2). unfold get_width.
  destruct (sp_width sp) as [w|]; cbn [from_option app default].
  - destruct (skip_atoi_text w (prec_text sp ++ rest)) as [-> ->]; [specialize (Hw w eq_refl); lia | done |].
    done.
  - rewrite H1, (proj2 (Z.eqb_neq _ 42)) by done. done.
Qed.

Lemma get_precision_render sp rest args : spec_ok sp -> conv_start rest ->
  get_precision (prec_text sp ++ rest) args = Some (default (-1) (sp_prec sp), rest, args).
Proof.
  intros (_ & _ & Hp) Hr. apply conv_start_facts in Hr as (_ & H1 & H2 & H3). unfold get_precision, prec_text.
  destruct (sp_prec sp) as [p|]; cbn [from_option app].
  - cbn [cur hd tail Z.eqb Pos.eqb]. specialize (Hp p eq_refl).
    destruct (skip_atoi_text p rest) as [-> ->]; [lia | done |]. cbn [mbind option_bind].
    rewrite (proj2 (Z.ltb_ge p 0)) by lia. done.
  - rewrite (proj2 (Z.eqb_neq _ 46)) by done. done.
Qed.

Lemma parse_flags_spec sp rest : spec_ok sp -> conv_start rest ->
  parse_flags (render_spec sp ++ rest) 0 =
    (flags_of (sp_flags sp), from_option (digits_text 0 10) [] (sp_width sp) ++ prec_text sp ++ rest).
Proof.
  intros Hsp Hr. unfold render_spec. fold (prec_text sp). rewrite <- !app_assoc.
  apply parse_flags_render; [apply Hsp|]. destruct Hsp as (_ & Hw & _).
  destruct (sp_width sp) as [w|]; cbn [from_option app].
  - apply width_not_flag. auto.
  - by apply prec_text_start.
Qed.

(** *** One round of the loop *)

Definition qual_code (q : qual) : Z :=
  match q with QNone => -1 | QShort => 104 | QLong => 108 | QLongLong => 76 | QSize => 122 end.

Lemma get_qualifier_render q cv rest :
  get_qualifier (render_qual q ++ conv_char cv :: rest) = (qual_code q, conv_char cv :: rest).
Proof. destruct q, cv; reflexivity. Qed.

Lemma convert_num vsn end_ peek buf cv rest flags fw prec q args o :
  convert vsn end_ peek buf (conv_char cv :: rest) flags fw prec q args o =
    '(n, args) ← get_number q (Z.lor flags (conv_flags cv)) args;
    Some (number vsn end_ o n (conv_base cv) fw prec (Z.lor flags (conv_flags cv)), [], rest, args).
Proof. destruct cv; cbn [conv_flags conv_base]; rewrite ?Z.lor_0_r; reflexivity. Qed.

Lemma flags_of_sign fs : flag (flags_of fs) SIGN = false.
Proof.
  unfold flags_of. assert (flag 0 SIGN = false) as H by done. revert H. generalize 0 as a.
  induction fs as [|c fs IH]; intros a Ha; [done|]. cbn [fold_left]. apply IH.
  rewrite flag_lor, Ha. unfold flag_bit. by repeat bcase.
Qed.

Lemma get_number_arg sp q cv n fs args :
  get_number (qual_code q) (Z.lor (flags_of fs) (conv_flags cv)) (argument (DNum sp q cv n) ++ args) =
    Some (conv_value q cv n, args).
Proof.
  unfold get_number. rewrite flag_lor, flags_of_sign. destruct q, cv; reflexivity.
Qed.

Lemma format_directive vsn end_ peek fuel buf d rest args o :
  directive_ok d ->
  format_loop vsn end_ peek (S fuel) buf (render_directive d ++ rest) (argument d ++ args) o =
    format_loop vsn end_ peek fuel buf rest args (addl vsn end_ o (text d)).
Proof.
  intros Hok.
  assert (forall sp f a r, spec_ok sp -> conv_start (f ++ rest) ->
    (let '(q, fmt) := get_qualifier (f ++ rest) in
     convert vsn end_ peek buf fmt (flags_of (sp_flags sp)) (default (-1) (sp_width sp))
      (default (-1) (sp_prec sp)) q (a ++ args) o = Some (addl vsn end_ o r, [], rest, args)) ->
    format_loop vsn end_ peek (S fuel) buf ((37 :: render_spec sp ++ f) ++ rest) (a ++ args) o =
    format_loop vsn end_ peek fuel buf rest args (addl vsn end_ o r)) as Hspec.
  { intros sp f a r Hsp Hf Hc. cbn [app format_loop]. simpl (negb (37 =? 37)). cbn iota.
    rewrite <- app_assoc, parse_flags_spec by done.
    rewrite get_width_render by done. cbn [mbind option_bind].
    rewrite get_precision_render by done. cbn [mbind option_bind].
    destruct (get_qualifier (f ++ rest)) as [q fmt]. rewrite Hc. cbn [mbind option_bind].
    by destruct (format_loop _ _ _ _ _ _ _ _) as [[]|]. }
  destruct d as [c | | sp q cv n | sp s | sp c]; cbn [directive_ok] in Hok.
  - cbn [render_directive argument text app format_loop]. by rewrite (proj2 (Z.eqb_neq c 37)).
  - cbn [render_directive argument text app]. cbn. by destruct (format_loop _ _ _ _ _ _ _ _) as [[]|].
  - cbn [render_directive text]. apply Hspec; [done | |].
    + unfold conv_start. rewrite <- app_assoc. destruct q, cv; vm_compute; repeat (left || right).
    + rewrite <- app_assoc. cbn [app]. rewrite get_qualifier_render, convert_num, get_number_arg.
      cbn [mbind option_bind]. by rewrite number_emits.
  - cbn [render_directive text]. apply (Hspec sp [115] [VStr s]); [done | |].
    + unfold conv_start. vm_compute. repeat (left || right).
    + rewrite <- string_emits. reflexivity.
  - cbn [render_directive text]. apply (Hspec sp [99] [VInt c]); [done | |].
    + unfold conv_start. vm_compute. repeat (left || right).
    + rewrite <- char_emits. reflexivity.
Qed.

Lemma render_directive_length d : (0 < length (render_directive d))%nat.
Proof. destruct d; simpl; lia. Qed.

Lemma format_directives vsn end_ peek fuel buf ds o :
  Forall directive_ok ds -> (length (concat (map render_directive ds)) < fuel)%nat ->
  format_loop vsn end_ peek fuel buf (concat (map render_directive ds)) (concat (map argument ds)) o =
    Some (addl vsn end_ o (concat (map text ds)), []).
Proof.
  intros Hds. revert fuel o; induction Hds as [|d ds Hd Hds IH]; intros fuel o Hf;
    (destruct fuel as [|fuel]; [lia|]); [done|].
  cbn [map concat] in *. rewrite length_app in Hf. pose proof (render_directive_length d).
  rewrite format_directive by done. rewrite IH by lia. by rewrite addl_app.
Qed.



Lemma vsnprintf_truncates_witness :
  exists cs, 3 = Z.of_nat (length cs) /\
    write_bytes ∅ 0 (str "%7c" ++ [0]) = write_bytes ∅ 0 (map u8 cs ++ [0]) /\
  forall m buf size, 0 <= buf -> 0 <= size -> buf + size < 2 ^ 64 ->
  vsnprintf (fun _ => 0) m buf size (str "%%7%c") [VInt 99] =
    Some (3, if size =? 0 then m
             else write_bytes m buf (take (Z.to_nat (size - 1)) (map u8 cs) ++ [0]), []) /\
  (forall m', vsnprintf (fun _ => 0) m buf size (str "%%7%c") [VInt 99] = Some (3, m', []) ->
     forall a, a < buf \/ buf + size <= a -> m' !! a = m !! a).
Proof. apply (vsnprintf_truncates (fun _ => 0) ∅ 0 (str "%%7%c") [VInt 99]). vm_compute. reflexivity. Defined.

End Vsprintf.
