(* ===== verification/Env.v ===== *)
(** * The environment (common/env_common.c, common/cmd_nvedit.c)

    The layer above the hash table: reading and setting variables, the linear
    image that is read before relocation, and the checked image that is kept
    in storage.  [genv] is the part of [gd] and the file-scope state these
    functions touch.  The configuration is that of the boards of this tree: no
    redundant environment, no encryption ([env_aes_cbc_crypt] returns 0).
    [default_environment] is generated by the build and a parameter, and so is
    [run_command]. *)

From S2P Require Import Prelude Ctype CString Crc Qsort Hashtable HashExport Vsprintf.

Module Env.
Import CString Hashtable HashExport.

(** [typedef struct environment_s env_t] *)
Record env_t := mkEnv { crc : Z; env_data : bytes }.

Record genv := mkG {
  env_htab : hsearch_data;
  env_ready : bool;   (** GD_FLG_ENV_READY *)
  env_valid : bool;
  env_addr : bytes;   (** what [gd->env_addr] points to *)
  env_id : Z }.

Definition set_htab (g : genv) (h : hsearch_data) : genv :=
  mkG h (env_ready g) (env_valid g) (env_addr g) (env_id g).

Definition set_ready (g : genv) : genv :=
  mkG (env_htab g) true (env_valid g) (env_addr g) (env_id g).

Definition CONFIG_ENV_SIZE : Z := 65536.
Definition ENV_SIZE : Z := CONFIG_ENV_SIZE - 4.

Section env.
Context `{Hooks} (default_environment : bytes).

(** ** Before relocation: the linear image *)

(** Both [env_get_char_init] and [env_get_char_memory] read the image when the
    checksum was good and the default environment otherwise. *)
Definition env_get_char (g : genv) (index : Z) : option Z :=
  if env_valid g then zget (env_addr g) index else zget default_environment index.

(** [s1] without its NUL; a NUL that matches a NUL makes the loop run past the
    end of the name. *)
Fixpoint envmatch (g : genv) (s1 : bytes) (i2 : Z) : option Z :=
  c ← env_get_char g i2;
  match s1 with
  | [] => if c =? 0 then None else if c =? 61 then Some (i2 + 1) else Some (-1)
  | x :: s1' =>
      if x =? c then if x =? 61 then Some (i2 + 1) else envmatch g s1' (i2 + 1)
      else Some (-1)
  end.

(** The end of the entry; [Some None] is the [return -1] of the loop. *)
Fixpoint entry_end (fuel : nat) (g : genv) (nxt : Z) : option (option Z) :=
  match fuel with
  | O => None
  | S fuel' =>
      c ← env_get_char g nxt;
      if c =? 0 then Some (Some nxt)
      else if CONFIG_ENV_SIZE <=? nxt then Some None
      else entry_end fuel' g (nxt + 1)
  end.

(** Copy at most [len] bytes from [val]: the value returned and the string left
    in the buffer. *)
Fixpoint copy_out (len : nat) (g : genv) (val n : Z) (buf : bytes) : option (Z * bytes) :=
  match len with
  | O => Some (n, take (length buf - 1) buf)
  | S len' =>
      c ← env_get_char g val;
      if c =? 0 then Some (n, buf) else copy_out len' g (val + 1) (n + 1) (buf ++ [c])
  end.

Fixpoint getenv_f_loop (fuel : nat) (g : genv) (name : bytes) (len : nat) (i : Z) :
    option (Z * bytes) :=
  match fuel with
  | O => None
  | S fuel' =>
      c ← env_get_char g i;
      if c =? 0 then Some (-1, [])
      else
        nxt ← entry_end (Z.to_nat CONFIG_ENV_SIZE + 2) g i;
        match nxt with
        | None => Some (-1, [])
        | Some nxt =>
            val ← envmatch g name i;
            if val <? 0 then getenv_f_loop fuel' g name len (nxt + 1)
            else copy_out len g val 0 []
        end
  end.

Definition getenv_f (g : genv) (name : bytes) (len : nat) : option (Z * bytes) :=
  getenv_f_loop (Z.to_nat CONFIG_ENV_SIZE + 2) g name len 0.

(** ** Reading variables *)

(** [sizeof(gd->env_buf)] *)
Definition env_buf_size : nat := 32.

Definition getenv (g : genv) (name : bytes) : option (option bytes) :=
  if env_ready g then
    r ← hsearch_r (mkENTRY (Some name) None None 0) FIND (env_htab g) 0;
    match h_retval r with
    | None => Some None
    | Some i => s ← slot (h_htab r) i; d ← data (entry s); Some (Some d)
    end
  else
    '(n, buf) ← getenv_f g name env_buf_size;
    if 0 <? n then Some (Some buf) else Some None.

Definition getenv_default (g : genv) (name : bytes) : option (option bytes) :=
  getenv (mkG (env_htab g) false false (env_addr g) (env_id g)) name.

Definition getenv_yesno (g : genv) (var : bytes) : option Z :=
  s ← getenv g var;
  match s with
  | None => Some (-1)
  | Some s =>
      let c := hd 0 s in
      Some (if (c =? 49) || (c =? 121) || (c =? 89) || (c =? 116) || (c =? 84) then 1 else 0)
  end.

Definition getenv_ulong (g : genv) (name : bytes) (base default_val : Z) : option Z :=
  s ← getenv g name;
  Some (match s with Some s => (Vsprintf.simple_strtoul s base).1 | None => default_val end).

Definition getenv_hex (g : genv) (varname : bytes) (default_val : Z) : option Z :=
  s ← getenv g varname;
  Some (match s with
        | Some s =>
            let '(value, endp) := Vsprintf.simple_strtoul s 16 in
            if (length endp =? length s)%nat then default_val else value
        | None => default_val
        end).

(** ** Setting variables *)

Definition CMD_RET_USAGE : Z := -1.

(** The option loop: [argv] is what follows the name of the command.  [None]
    is the early return. *)
Fixpoint force_flag (arg : bytes) (env_flag : Z) : option Z :=
  match arg with
  | [] => Some env_flag
  | c :: arg' => if c =? 102 then force_flag arg' (Z.lor env_flag H_FORCE) else None
  end.

Fixpoint set_options (argv : list bytes) (env_flag : Z) : option (list bytes * Z) :=
  match argv with
  | (45 :: arg) :: argv' => f ← force_flag arg env_flag; set_options argv' f
  | _ => Some (argv, env_flag)
  end.

(** The arguments with a blank behind each but the last. *)
Fixpoint join_args (argv : list bytes) : bytes :=
  match argv with
  | [] => []
  | [v] => v
  | v :: argv' => v ++ 32 :: join_args argv'
  end.

(** [argv] is what follows the name of the command; a missing name is a NULL
    pointer that [strchr] dereferences. *)
Definition _do_env_set (g : genv) (argv : list bytes) : option (Z * genv) :=
  match set_options argv H_INTERACTIVE with
  | None => Some (CMD_RET_USAGE, g)
  | Some (argv, env_flag) =>
      match argv with
      | [] => None
      | name :: values =>
          if bool_decide (61 ∈ name) then Some (1, g)
          else
            let g := mkG (env_htab g) (env_ready g) (env_valid g) (env_addr g) (env_id g + 1) in
            match values with
            | [] =>
                '(rc, _, h) ← hdelete_r name (env_htab g) env_flag;
                Some (if rc =? 0 then 1 else 0, set_htab g h)
            | _ =>
                let value := join_args values in
                if negb (malloc_ok (env_htab g) (Z.of_nat (length value) + 1)) then Some (1, g)
                else
                  r ← hsearch_r (mkENTRY (Some name) (Some value) None 0) ENTER (env_htab g) env_flag;
                  Some (match h_retval r with None => 1 | Some _ => 0 end, set_htab g (h_htab r))
            end
      end
  end.

Definition setenv (g : genv) (varname : bytes) (varvalue : option bytes) : option (Z * genv) :=
  if negb (env_ready g) then Some (1, g)
  else
    match varvalue with
    | None | Some [] => _do_env_set g [varname]
    | Some v => _do_env_set g [varname; v]
    end.

Definition setenv_ulong (g : genv) (varname : bytes) (value : Z) : option (Z * genv) :=
  s ← Vsprintf.simple_itoa value; setenv g varname (Some s).

(** The text [sprintf(str, "%lx", value)] writes. *)
Definition setenv_hex (g : genv) (varname : bytes) (value : Z) : option (Z * genv) :=
  '(n, m, _) ← Vsprintf.vsprintf false (fun _ => 0) ∅ 0 (str "%lx") [Vsprintf.VLong value];
  setenv g varname (Some (omap (fun i : nat => m !! Z.of_nat i) (seq 0 (Z.to_nat n)))).

(** ** The image in storage *)

Context (run_command : bytes -> genv -> genv).

Definition set_default_env (g : genv) (s : option bytes) : option genv :=
  if ENV_SIZE <? Z.of_nat (length default_environment) then Some g
  else
    let flags :=
      match s with
      | Some (c :: _) => if c =? 33 then 0 else H_INTERACTIVE
      | Some [] => H_INTERACTIVE
      | None => 0
      end in
    '(_, _, h) ← himport_r (env_htab g) default_environment (Z.of_nat (length default_environment)) 0
                   flags false [];
    Some (set_ready (set_htab g h)).

Definition set_default_vars (g : genv) (vars : list bytes) : option (Z * genv) :=
  '(r, _, h) ← himport_r (env_htab g) default_environment (Z.of_nat (length default_environment)) 0
                 (Z.lor H_NOCLEAR H_INTERACTIVE) false vars;
  Some (r, set_htab g h).

(** [addr] is the address of the data, which [crc32] reads word by word. *)
Definition env_import (g : genv) (buf : env_t) (addr : Z) (check : bool) : option (Z * genv) :=
  if check && negb (Crc.crc32 0 addr (take (Z.to_nat ENV_SIZE) (env_data buf)) =? crc buf) then
    g ← set_default_env g (Some (str "!bad CRC"));
    Some (0, run_command (str "saveenv") g)
  else
    '(r, _, h) ← himport_r (env_htab g) (env_data buf) ENV_SIZE 0 0 false [];
    let g := set_htab g h in
    if negb (r =? 0) then Some (1, set_ready g)
    else g ← set_default_env g (Some (str "!import failed")); Some (0, g).

(** The return value and [*env_out]. *)
Definition env_export (g : genv) (env_out : env_t) (addr : Z) : option (Z * env_t) :=
  '(len, _, res) ← hexport_r (env_htab g) 0 0 (Some (env_data env_out)) ENV_SIZE [];
  if len <? 0 then Some (1, env_out)
  else
    res ← res;
    Some (0, mkEnv (Crc.crc32 0 addr (take (Z.to_nat ENV_SIZE) res)) res).

Definition env_relocate (g : genv) (env_relocate_spec : genv -> option genv) : option genv :=
  if negb (env_valid g) then set_default_env g (Some (str "!bad CRC")) else env_relocate_spec g.

End env.

(** ** Reading and setting variables in the table *)

Section table.
Context `{Hooks} (default_environment : bytes).

Lemma getenv_ready g m k : env_ready g = true -> rep (env_htab g) m -> cstr_ok k ->
  getenv default_environment g k = Some (m !! k).
Proof.
  intros Hr Hrep Hk. unfold getenv. rewrite Hr.
  pose proof (hsearch_find_spec (env_htab g) m (mkENTRY (Some k) None None 0) k 0 Hrep eq_refl Hk) as Hf.
  destruct (m !! k) as [d|].
  - destruct Hf as (i & s & -> & Hi & Hs & Hh). cbn [mbind option_bind h_retval h_htab]. rewrite Hs.
    cbn [mbind option_bind]. destruct Hh as (_ & _ & ->). done.
  - by rewrite Hf.
Qed.

(** A name that [_do_env_set] takes as a name. *)
Definition settable (k : bytes) : Prop := cstr_ok k /\ (61 ∉ k) /\ hd 0 k <> 45.

Lemma set_options_none k argv f : hd 0 k <> 45 -> set_options (k :: argv) f = Some (k :: argv, f).
Proof.
  intros Hk. destruct k as [|c k]; [done|]. cbn [set_options hd] in *.
  destruct (Z.eq_dec c 45) as [->|Hne]; [done|].
  destruct c as [|p|p]; try done. do 6 (destruct p as [p|p|]; try done).
Qed.

(** What [setenv] may do: succeed with the variable set or deleted, or fail with
    the same variables as before. *)
Definition set_outcome (g : genv) (m m' : gmap bytes bytes) (r : option (Z * genv)) : Prop :=
  exists ret g', r = Some (ret, g') /\ env_ready g' = true /\ consumed (env_htab g') <= consumed (env_htab g) + 1 /\
    change_ok (env_htab g') = change_ok (env_htab g) /\
    ((ret = 0 /\ rep (env_htab g') m') \/ (ret = 1 /\ rep (env_htab g') m)).

Lemma do_env_set_values g m k ws : env_ready g = true -> rep (env_htab g) m -> settable k ->
  cstr_ok (join_args ws) -> ws <> [] ->
  (forall n, malloc_ok (env_htab g) n = true) -> consumed (env_htab g) < size (env_htab g) ->
  set_outcome g m (<[k := join_args ws]> m) (_do_env_set g (k :: ws)).
Proof.
  intros Hr Hrep (Hk & Heq & Hdash) Hv Hne Hmal Hfree.
  unfold _do_env_set. rewrite set_options_none by done.
  rewrite bool_decide_eq_false_2 by done. destruct ws as [|w ws]; [done|]. cbn [env_htab]. rewrite Hmal. cbn [negb].
  destruct (hsearch_enter_spec (env_htab g) m k (join_args (w :: ws)) H_INTERACTIVE Hrep Hk Hv (Hmal _) (Hmal _))
    as (r & -> & e & _ & _ & Hc & _ & Hch & Hout); [by apply (consumed_has_free _ (proj1 Hrep))|].
  cbn [mbind option_bind]. destruct (rejected _ _ _ _ _ _).
  - destruct Hout as (h' & -> & Hrep'). eexists _, _. split; [done|]. cbn in *. auto 6.
  - destruct Hout as (i & s & h' & -> & Hrep' & _). eexists _, _. split; [done|]. cbn in *. auto 6.
Qed.

Lemma setenv_value g m k v : env_ready g = true -> rep (env_htab g) m -> settable k -> cstr_ok v -> v <> [] ->
  (forall n, malloc_ok (env_htab g) n = true) -> consumed (env_htab g) < size (env_htab g) ->
  set_outcome g m (<[k := v]> m) (setenv g k (Some v)).
Proof.
  intros Hr Hrep Hk Hv Hne Hmal Hfree. unfold setenv. rewrite Hr. cbn [negb].
  destruct v as [|c v]; [done|]. by apply (do_env_set_values g m k [c :: v]).
Qed.

Lemma setenv_delete g m k v : env_ready g = true -> rep (env_htab g) m -> settable k ->
  v = None \/ v = Some [] -> set_outcome g m (delete k m) (setenv g k v).
Proof.
  intros Hr Hrep (Hk & Heq & Hdash) Hv. unfold setenv. rewrite Hr. cbn [negb].
  assert (match v with None | Some [] => _do_env_set g [k] | Some v => _do_env_set g [k; v] end =
          _do_env_set g [k]) as -> by (by destruct Hv as [-> | ->]).
  unfold _do_env_set. rewrite set_options_none by done. rewrite bool_decide_eq_false_2 by done.
  cbn [env_htab].
  pose proof (hdelete_spec (env_htab g) m k H_INTERACTIVE Hrep Hk) as Hd.
  destruct (m !! k) as [d|] eqn:Em.
  - destruct Hd as (e & _ & _ & Hd).
    destruct (change_rejected _ _ _ _ _); [rewrite Hd | destruct (callback_rejected _ _ _ _ _); [rewrite Hd|]].
    + eexists _, _. split; [done|]. cbn. split; [done|]. split; [lia|]. auto.
    + eexists _, _. split; [done|]. cbn. split; [done|]. split; [lia|]. auto.
    + destruct Hd as (h' & E & Hrep' & Hc & Hsz & Hch). rewrite E. eexists _, _. split; [done|]. cbn.
      split; [done|]. split; [lia|]. auto.
  - rewrite Hd. eexists _, _. split; [done|]. cbn. split; [done|]. split; [lia|]. auto.
Qed.

Lemma set_outcome_getenv g m m' r : set_outcome g m m' r ->
  exists ret g', r = Some (ret, g') /\ (ret = 0 \/ ret = 1) /\ env_ready g' = true /\
    rep (env_htab g') (if ret =? 0 then m' else m) /\
    forall k, cstr_ok k -> getenv default_environment g' k = Some ((if ret =? 0 then m' else m) !! k).
Proof.
  intros (ret & g' & -> & Hr & _ & _ & [[-> Hrep] | [-> Hrep]]); eexists _, _; split; try done.
  - cbn [Z.eqb]. split; [auto|]. split; [done|]. split; [done|]. intros k. by apply getenv_ready.
  - cbn [Z.eqb]. split; [auto|]. split; [done|]. split; [done|]. intros k. by apply getenv_ready.
Qed.

(** What [setenv] asks for: no value or an empty one deletes the variable. *)
Definition set_map (m : gmap bytes bytes) (k : bytes) (v : option bytes) : gmap bytes bytes :=
  match v with None | Some [] => delete k m | Some v => <[k := v]> m end.

Lemma setenv_outcome g m k v : env_ready g = true -> rep (env_htab g) m -> settable k ->
  from_option cstr_ok True v -> (forall n, malloc_ok (env_htab g) n = true) ->
  consumed (env_htab g) < size (env_htab g) ->
  set_outcome g m (set_map m k v) (setenv g k v).
Proof.
  intros Hr Hrep Hk Hv Hmal Hfree. destruct v as [[|c v]|].
  - by apply setenv_delete; auto.
  - by apply setenv_value.
  - by apply setenv_delete; auto.
Qed.

(** C2: [setenv] on a variable, with the environment in the table, memory and a
    free slot: it returns 0 and afterwards [getenv] of every name sees the
    variable set (deleted, for no value or an empty one) and all others
    unchanged, or it is refused, returns 1 and [getenv] sees what it saw
    before. *)
Theorem setenv_getenv g m k v : env_ready g = true -> rep (env_htab g) m -> settable k ->
  from_option cstr_ok True v -> (forall n, malloc_ok (env_htab g) n = true) ->
  consumed (env_htab g) < size (env_htab g) ->
  exists ret g', setenv g k v = Some (ret, g') /\ (ret = 0 \/ ret = 1) /\ env_ready g' = true /\
    rep (env_htab g') (if ret =? 0 then set_map m k v else m) /\
    forall k', cstr_ok k' ->
      getenv default_environment g' k' = Some ((if ret =? 0 then set_map m k v else m) !! k').
Proof. intros. by apply (set_outcome_getenv g), setenv_outcome. Qed.

(** *** Numbers in variables *)

Lemma digits_text_cstr type base n : Vsprintf.base_ok base -> 0 <= n < 2 ^ 64 ->
  cstr_ok (Vsprintf.digits_text type base n) /\ Vsprintf.digits_text type base n <> [].
Proof.
  intros Hb Hn. destruct (Vsprintf.digits_text_ok type base n Hb Hn) as (ds & -> & (Hd & _ & Hne & _)).
  split.
  - apply Forall_fmap. apply Forall_rev. eapply Forall_impl; [exact Hd|]. intros d Hd'. simpl in *.
    pose proof (Vsprintf.small_bit type) as Hs. unfold char_ok, Vsprintf.digit_char.
    assert (0 <= d < 16) as H16 by (unfold Vsprintf.base_ok in Hb; lia).
    assert (d = Z.of_nat (Z.to_nat d)) as -> by lia. assert (Z.to_nat d < 16)%nat as Hn' by lia.
    revert Hn'. generalize (Z.to_nat d) as j. intros j Hj. clear -Hs Hj.
    destruct Hs as [-> | ->]; do 16 (destruct j as [|j]; [by vm_compute|]); lia.
  - intros E%map_eq_nil. apply Hne. apply (f_equal (@rev Z)) in E. by rewrite rev_involutive in E.
Qed.

Lemma read_back (cs : bytes) :
  omap (fun i : nat => write_bytes ∅ 0 (cs ++ [0]) !! Z.of_nat i) (seq 0 (length cs)) = cs.
Proof.
  assert (forall pre suf, omap (fun i : nat => write_bytes ∅ 0 (pre ++ suf ++ [0]) !! Z.of_nat i)
    (seq (length pre) (length suf)) = suf) as Hgen; [|apply (Hgen [])].
  intros pre suf. revert pre; induction suf as [|c suf IH]; intros pre; [done|].
  cbn [length seq omap list_omap]. rewrite lookup_write_bytes, decide_True.
  2: { rewrite !length_app. simpl. lia. }
  replace (Z.to_nat (Z.of_nat (length pre) - 0)) with (length pre) by lia.
  cbn [app]. rewrite list_lookup_middle by done. f_equal.
  specialize (IH (pre ++ [c])). rewrite length_app in IH. cbn [length] in IH.
  rewrite Nat.add_1_r in IH. rewrite <- IH at 2. by rewrite <- app_assoc.
Qed.

Lemma sprintf_lx n : 0 <= n < 2 ^ 64 ->
  Vsprintf.vsprintf false (fun _ => 0) ∅ 0 (str "%lx") [Vsprintf.VLong n] =
    let cs := Vsprintf.digits_text 32 16 n in
    Some (Z.of_nat (length cs), write_bytes ∅ 0 (cs ++ [0]), []).
Proof.
  intros Hn. cbv zeta.
  change (Vsprintf.vsprintf false (fun _ => 0) ∅ 0 (str "%lx") [Vsprintf.VLong n]) with
    (let '(m, str) := Vsprintf.number false (u64 (0 + Vsprintf.INT_MAX)) (∅, 0) (u64 n) 16 (-1) (-1) 32 in
     Some (str - 0, <[str := 0]> m, @nil (Z * Z * Z))).
  rewrite Vsprintf.number_emits, Vsprintf.number_text_plain by done.
  rewrite (wrap_small 64 n) by lia. change (Vsprintf.magnitude 32 n) with n.
  change (Vsprintf.sign_text 32 n ++ Vsprintf.prefix_text 32 16 ++ Vsprintf.digits_text 32 16 n)
    with (Vsprintf.digits_text 32 16 n).
  rewrite Vsprintf.addl_unbounded, Vsprintf.digits_text_bytes by (unfold Vsprintf.base_ok; auto).
  rewrite write_bytes_app. rewrite Z.sub_0_r. done.
Qed.

Lemma strtoul_digits type base n : Vsprintf.base_ok base -> 0 <= n < 2 ^ 64 ->
  Vsprintf.simple_strtoul (Vsprintf.digits_text type base n) base = (n, []).
Proof.
  intros Hb Hn. destruct (Vsprintf.digits_text_ok type base n Hb Hn) as (ds & -> & Hd).
  rewrite <- (app_nil_r (map _ _)).
  apply Vsprintf.parse_base_digits; [unfold Vsprintf.base_ok in Hb; lia | apply Vsprintf.small_bit | done | lia | done].
Qed.

(** C5: A number stored with [setenv_hex] is read back by [getenv_hex], and one
    stored with [setenv_ulong] by [getenv_ulong] with base 10, whenever the
    store was not refused. *)
Theorem setenv_number_roundtrip g m k n d : env_ready g = true -> rep (env_htab g) m -> settable k ->
  (forall n, malloc_ok (env_htab g) n = true) -> consumed (env_htab g) < size (env_htab g) ->
  0 <= n < 2 ^ 64 ->
  (exists ret g', setenv_hex g k n = Some (ret, g') /\
     (ret = 0 -> getenv_hex default_environment g' k d = Some n)) /\
  (exists ret g', setenv_ulong g k n = Some (ret, g') /\
     (ret = 0 -> getenv_ulong default_environment g' k 10 d = Some n)).
Proof.
  intros Hr Hrep Hk Hmal Hfree Hn.
  assert (forall base type, Vsprintf.base_ok base -> exists ret g',
    setenv g k (Some (Vsprintf.digits_text type base n)) = Some (ret, g') /\
    (ret = 0 -> getenv default_environment g' k = Some (Some (Vsprintf.digits_text type base n)))) as Hset.
  { intros base type Hb. destruct (digits_text_cstr type base n Hb Hn) as [Hc Hne].
    destruct (set_outcome_getenv _ _ _ _ (setenv_outcome g m k (Some _) Hr Hrep Hk Hc Hmal Hfree))
      as (ret & g' & -> & _ & _ & _ & Hget). exists ret, g'. split; [done|]. intros ->.
    rewrite Hget by apply Hk. cbn [Z.eqb set_map].
    destruct (Vsprintf.digits_text type base n); [done|]. by rewrite lookup_insert_eq. }
  split.
  - unfold setenv_hex. rewrite sprintf_lx by done. cbn [mbind option_bind]. rewrite Nat2Z.id, read_back.
    destruct (Hset 16 32) as (ret & g' & -> & Hget); [unfold Vsprintf.base_ok; auto|].
    exists ret, g'. split; [done|]. intros E. unfold getenv_hex. rewrite Hget by done. cbn [mbind option_bind].
    rewrite strtoul_digits by (unfold Vsprintf.base_ok; auto).
    pose proof (proj2 (digits_text_cstr 32 16 n ltac:(unfold Vsprintf.base_ok; auto) Hn)).
    by destruct (Vsprintf.digits_text 32 16 n).
  - unfold setenv_ulong. rewrite Vsprintf.simple_itoa_spec by done. cbn [mbind option_bind].
    destruct (Hset 10 0) as (ret & g' & -> & Hget); [unfold Vsprintf.base_ok; auto|].
    exists ret, g'. split; [done|]. intros E. unfold getenv_ulong. rewrite Hget by done. cbn [mbind option_bind].
    by rewrite strtoul_digits by (unfold Vsprintf.base_ok; auto).
Qed.

End table.

(** ** The image in storage *)

Section image.
Context `{Hooks} (default_environment : bytes) (run_command : bytes -> genv -> genv).
Context (Hmal : forall h n, malloc_ok h n = true).

Lemma ser_all_bytes sep l : byte_ok sep -> Forall (fun kd => cstr_ok kd.1 /\ cstr_ok kd.2) l ->
  Forall byte_ok (ser_all sep l).
Proof.
  intros Hsep Hl. assert (forall s, cstr_ok s -> Forall byte_ok s) as Hc.
  { intros s Hs. eapply Forall_impl; [exact Hs | apply char_byte]. }
  induction Hl as [|[k d] l [Hk Hd] Hl IH]; [constructor|].
  rewrite ser_all_cons. apply Forall_app_2; [|done]. unfold ser. simpl in *.
  apply Forall_app_2; [auto|]. constructor; [by vm_compute|]. apply Forall_app_2; [|by apply Forall_singleton].
  clear -Hd Hc. induction Hd as [|c d Hc' Hd IH]; [constructor|]. rewrite esc_cons.
  apply Forall_app_2; [|done]. apply char_byte in Hc'. unfold enc.
  bcase; rewrite ?Forall_cons, ?Forall_nil; done.
Qed.

(** The variables fit into the image. *)
Definition fits (m : gmap bytes bytes) : Prop :=
  map_Forall (fun k d => name_ok 0 k /\ value_ok d) m /\
  Z.of_nat (length (ser_all 0 (map_to_list m))) <= room 0 (map_to_list m) /\
  room 0 (map_to_list m) + 1 <= ENV_SIZE /\ Z.of_nat (length (map_to_list m)) <= 512.

Lemma fits_forall m l : fits m -> l ≡ₚ map_to_list m -> Forall (fun kd => name_ok 0 kd.1 /\ value_ok kd.2) l.
Proof.
  intros (Hok & _) ->. apply map_Forall_to_list in Hok. eapply Forall_impl; [exact Hok|]. by intros [k d].
Qed.

(** The image [env_export] makes. *)
Lemma env_export_spec g m out addr : rep (env_htab g) m -> fits m ->
  Z.of_nat (length (env_data out)) = ENV_SIZE ->
  exists l z, l ≡ₚ map_to_list m /\
    let data := ser_all 0 l ++ 0 :: replicate z 0 in
    Z.of_nat (length data) = ENV_SIZE /\ Forall byte_ok data /\
    env_export g out addr = Some (0, mkEnv (Crc.crc32 0 addr data) data).
Proof.
  intros Hrep Hfit Hout. pose proof Hfit as (Hok & Hroom & Hsz & Hcnt).
  destruct (hexport_spec (env_htab g) m 0 0 ENV_SIZE Hrep) as (l & Hp & _ & Hex); [done|done|auto|by right|].
  assert ((ENV_SIZE =? 0) = false) as Hz by done.
  rewrite Hz, (proj2 (Z.ltb_ge ENV_SIZE _)) in Hex by lia. cbn [negb andb] in Hex.
  assert (Z.of_nat (length (ser_all 0 l)) <= room 0 (map_to_list m)) as Hlen
    by (by rewrite (esc_length_perm _ _ _ Hp)).
  exists l, (Z.to_nat ENV_SIZE - 1 - length (ser_all 0 l))%nat. split; [done|]. cbv zeta in *.
  set (data := ser_all 0 l ++ _) in *.
  assert (Z.of_nat (length data) = ENV_SIZE) as Hd.
  { subst data. rewrite length_app. cbn [length]. rewrite length_replicate. lia. }
  split; [done|]. split.
  - subst data. apply Forall_app_2; [|by constructor; [|apply Forall_replicate]].
    apply ser_all_bytes; [done|]. eapply Forall_impl; [by apply (fits_forall m)|]. intros kd [[? _] [? _]]. done.
  - unfold env_export. rewrite (hexport_into _ _ _ _ _ _ _ (Hmal _) (eq_sym Hout) ltac:(done) Hex).
    cbn [mbind option_bind]. rewrite (proj2 (Z.ltb_ge ENV_SIZE 0)) by done. rewrite take_ge by lia. done.
Qed.



End image.

(** ** Before relocation: the image is read in place *)

Section early.
Context `{Hooks} (default_environment : bytes).
Context (g : genv) (Hvalid : env_valid g = true) (Hearly : env_ready g = false).

Lemma get_at a c b : env_addr g = a ++ c :: b -> env_get_char default_environment g (Z.of_nat (length a)) = Some c.
Proof. intros E. unfold env_get_char. rewrite Hvalid, E. by apply zget_middle. Qed.

Lemma entry_end_spec s fuel a b : env_addr g = a ++ s ++ 0 :: b -> cstr_ok s ->
  Z.of_nat (length (a ++ s)) < CONFIG_ENV_SIZE -> (length s < fuel)%nat ->
  entry_end default_environment fuel g (Z.of_nat (length a)) = Some (Some (Z.of_nat (length (a ++ s)))).
Proof.
  revert fuel a; induction s as [|c s IH]; intros fuel a E Hs Hlen Hf;
    (destruct fuel as [|fuel]; [simpl in Hf; lia|]); cbn [entry_end].
  - rewrite (get_at a 0 b E). cbn [mbind option_bind Z.eqb]. by rewrite app_nil_r.
  - rewrite (get_at a c (s ++ 0 :: b) E). cbn [mbind option_bind].
    apply Forall_cons in Hs as [Hc Hs]. rewrite (proj2 (Z.eqb_neq c 0)) by (unfold char_ok in Hc; lia).
    rewrite length_app in Hlen. cbn [length] in Hlen. rewrite (proj2 (Z.leb_gt CONFIG_ENV_SIZE _)) by lia.
    replace (Z.of_nat (length a) + 1) with (Z.of_nat (length (a ++ [c]))) by (rewrite length_app; simpl; lia).
    rewrite IH; [by rewrite <- app_assoc | by rewrite <- app_assoc | done | | simpl in Hf; lia].
    rewrite !length_app. simpl. lia.
Qed.

Lemma envmatch_spec k k' a b : env_addr g = a ++ k' ++ 61 :: b -> cstr_ok k -> cstr_ok k' ->
  61 ∉ k -> 61 ∉ k' ->
  envmatch default_environment g k (Z.of_nat (length a)) =
    Some (if bool_decide (k = k') then Z.of_nat (length (a ++ k')) + 1 else -1).
Proof.
  revert k' a; induction k as [|x k IH]; intros k' a E Hk Hk' H61 H61'.
  - destruct k' as [|c k']; cbn [envmatch].
    + rewrite (get_at a 61 b E), bool_decide_eq_true_2 by done. cbn. by rewrite app_nil_r.
    + rewrite (get_at a c _ E), bool_decide_eq_false_2 by done. cbn [mbind option_bind].
      apply Forall_cons in Hk' as [Hc _]. apply not_elem_of_cons in H61' as [Hc61 _].
      rewrite !(proj2 (Z.eqb_neq c _)) by (unfold char_ok in Hc; lia). done.
  - apply Forall_cons in Hk as [Hx Hk]. apply not_elem_of_cons in H61 as [Hx61 H61].
    destruct k' as [|c k']; cbn [envmatch].
    + rewrite (get_at a 61 b E), bool_decide_eq_false_2 by done. cbn [mbind option_bind].
      by rewrite (proj2 (Z.eqb_neq x 61)) by lia.
    + rewrite (get_at a c _ E). cbn [mbind option_bind]. rewrite (proj2 (Z.eqb_neq x 61)) by lia.
      apply Forall_cons in Hk' as [_ Hk']. apply not_elem_of_cons in H61' as [_ H61'].
      destruct (Z.eqb_spec x c) as [->|Hne].
      * replace (Z.of_nat (length a) + 1) with (Z.of_nat (length (a ++ [c]))) by (rewrite length_app; simpl; lia).
        rewrite (IH k'); [| by rewrite <- app_assoc | done | done | done | done].
        rewrite <- app_assoc. cbn [app].
        destruct (decide (k = k')) as [->|Hne]; [by rewrite !bool_decide_eq_true_2|].
        rewrite !bool_decide_eq_false_2; [done | by intros [= ?] | done].
      * rewrite bool_decide_eq_false_2; [done | by intros [= ? ?]].
Qed.

Lemma copy_out_spec d len a b n buf : env_addr g = a ++ d ++ 0 :: b -> cstr_ok d ->
  copy_out default_environment len g (Z.of_nat (length a)) n buf =
    if (length d <? len)%nat then Some (n + Z.of_nat (length d), buf ++ d)
    else Some (n + Z.of_nat len, take (length buf + len - 1) (buf ++ d)).
Proof.
  revert d a n buf; induction len as [|len IH]; intros d a n buf E Hd; cbn [copy_out].
  - rewrite (proj2 (Nat.ltb_ge _ _)) by lia. rewrite Nat.add_0_r, Z.add_0_r.
    by rewrite take_app_le by lia.
  - destruct d as [|c d].
    + rewrite (get_at a 0 b E). cbn. by rewrite Z.add_0_r, app_nil_r.
    + rewrite (get_at a c _ E). cbn [mbind option_bind]. apply Forall_cons in Hd as [Hc Hd].
      rewrite (proj2 (Z.eqb_neq c 0)) by (unfold char_ok in Hc; lia).
      replace (Z.of_nat (length a) + 1) with (Z.of_nat (length (a ++ [c]))) by (rewrite length_app; simpl; lia).
      rewrite (IH d) by (done || by rewrite <- app_assoc). rewrite length_app, <- app_assoc.
      cbn [app length]. change (S (length d) <? S len)%nat with (length d <? len)%nat.
      destruct (length d <? len)%nat; do 2 f_equal; try lia. f_equal. lia.
Qed.

(** Values without backslashes are stored as they are. *)
Lemma esc_plain d : cstr_ok d -> 92 ∉ d -> esc 0 d = d.
Proof.
  induction 1 as [|c d Hc Hd IH]; intros H92; [done|]. apply not_elem_of_cons in H92 as [Hc92 H92].
  rewrite esc_cons, IH by done. unfold enc.
  rewrite (proj2 (Z.eqb_neq c 0)), (proj2 (Z.eqb_neq c 92)) by (unfold char_ok in Hc; lia). done.
Qed.

Lemma getenv_f_spec l : Forall (fun kd => name_ok 0 kd.1 /\ value_ok kd.2 /\ 92 ∉ kd.2) l ->
  forall fuel a b k len, env_addr g = a ++ ser_all 0 l ++ 0 :: b ->
  Z.of_nat (length (a ++ ser_all 0 l)) < CONFIG_ENV_SIZE -> (length (ser_all 0 l) < fuel)%nat ->
  cstr_ok k -> 61 ∉ k -> (0 < len)%nat ->
  getenv_f_loop default_environment fuel g k len (Z.of_nat (length a)) =
    Some match list_to_map (M := gmap bytes bytes) l !! k with
         | Some d => (Z.of_nat (Nat.min (length d) len), take (len - 1) d)
         | None => (-1, [])
         end.
Proof.
  induction 1 as [|[k' d] l (Hk' & Hd & H92) Hl IH]; intros fuel a b k len E Hlen Hf Hk H61 Hpos;
    (destruct fuel as [|fuel]; [simpl in Hf; lia|]); cbn [getenv_f_loop].
  { rewrite (get_at a 0 b E). cbn. done. }
  simpl in Hk', Hd, H92. destruct Hk' as (Hk' & H61' & _ & Hhead). destruct Hd as [Hd Hdne].
  rewrite ser_all_cons in *. unfold ser in E at 1, Hlen at 1, Hf at 1. cbn [fst snd] in *.
  rewrite esc_plain in * by done.
  set (s := k' ++ 61 :: d). set (r := ser_all 0 l ++ 0 :: b).
  assert (env_addr g = a ++ s ++ 0 :: r) as Es.
  { rewrite E. subst s r. rewrite <- !app_assoc. simpl. by rewrite <- app_assoc. }
  assert (cstr_ok s) as Hs.
  { subst s. apply Forall_app_2; [done|]. constructor; [by vm_compute | done]. }
  destruct k' as [|c0 k']; [done|]. apply Forall_cons in Hk' as Hk''. destruct Hk'' as [Hc0 _].
  rewrite (get_at a c0 (k' ++ 61 :: d ++ 0 :: r)); [| by rewrite Es; subst s; rewrite <- app_assoc].
  cbn [mbind option_bind]. rewrite (proj2 (Z.eqb_neq c0 0)) by (unfold char_ok in Hc0; lia).
  assert (length ((c0 :: k') ++ 61 :: d ++ [0]) = S (length s)) as Hls
    by (subst s; rewrite !length_app; simpl; rewrite length_app; simpl; lia).
  rewrite (length_app _ (ser_all 0 l)), Hls in Hf. rewrite length_app, (length_app _ (ser_all 0 l)), Hls in Hlen.
  rewrite (entry_end_spec s _ a r Es Hs).
  2: { rewrite length_app. lia. }
  2: { unfold CONFIG_ENV_SIZE in *. lia. }
  cbn [mbind option_bind].
  rewrite (envmatch_spec k (c0 :: k') a (d ++ 0 :: r)); [| by rewrite Es; subst s; rewrite <- app_assoc | done..].
  cbn [mbind option_bind list_to_map foldr fst snd]. rewrite lookup_insert.
  destruct (decide (k = c0 :: k')) as [->|Hne].
  - rewrite bool_decide_eq_true_2, decide_True by done. rewrite (proj2 (Z.ltb_ge _ 0)) by lia.
    replace (Z.of_nat (length (a ++ c0 :: k')) + 1) with (Z.of_nat (length (a ++ (c0 :: k') ++ [61])))
      by (rewrite !length_app; simpl; lia).
    rewrite (copy_out_spec d len _ r); [| by rewrite Es; subst s; rewrite <- !app_assoc | done].
    cbn [app length]. rewrite !Z.add_0_l, Nat.add_0_l.
    destruct (Nat.ltb_spec (length d) len); repeat f_equal; try lia. by rewrite take_ge by lia.
  - rewrite bool_decide_eq_false_2, decide_False by congruence. cbn [Z.ltb Z.compare].
    replace (Z.of_nat (length (a ++ s)) + 1) with (Z.of_nat (length (a ++ s ++ [0])))
      by (rewrite !length_app; simpl; lia).
    apply (IH fuel (a ++ s ++ [0]) b k len); try done.
    + by rewrite Es, <- !app_assoc.
    + clearbody s. rewrite !length_app. simpl. lia.
    + lia.
Qed.

End early.

(** C4: one environment before and after relocation.  For variables without
    backslashes, [getenv] before relocation, reading the image [env_export] wrote
    in place, finds exactly the variables [getenv] finds in the table, with
    values cut to the 31 characters its buffer holds. *)
Theorem getenv_early_agrees `{Hooks} default_environment g m out addr e k :
  (forall h n, malloc_ok h n = true) ->
  env_ready g = true -> rep (env_htab g) m -> fits m -> map_Forall (fun _ d => 92 ∉ d) m ->
  Z.of_nat (length (env_data out)) = ENV_SIZE -> env_export g out addr = Some (0, e) ->
  cstr_ok k -> 61 ∉ k ->
  let early := mkG no_table false true (env_data e) 0 in
  exists v, getenv default_environment g k = Some v /\
    getenv default_environment early k = Some (take 31 <$> v).
Proof.
  intros Hmal Hr Hrep Hfit H92 Hout Hex Hk H61 early.
  exists (m !! k). split; [by apply getenv_ready|].
  destruct (env_export_spec Hmal g m out addr Hrep Hfit Hout) as (l & z & Hp & Hlen & Hb & Hex').
  rewrite Hex in Hex'. injection Hex' as ->.
  assert (Forall (fun kd => name_ok 0 kd.1 /\ value_ok kd.2 /\ 92 ∉ kd.2) l) as Hl.
  { apply Forall_forall. intros [k' d] Hin. rewrite Hp, elem_of_map_to_list in Hin.
    destruct Hfit as (Hok & _). destruct (Hok k' d Hin). split; [done|]. split; [done|]. by apply (H92 k' d). }
  assert (m = list_to_map l) as Hm.
  { rewrite (list_to_map_proper l (map_to_list m)); [by rewrite list_to_map_to_list | | done].
    rewrite Hp. apply NoDup_fst_map_to_list. }
  unfold getenv. cbn [early env_ready]. unfold getenv_f.
  rewrite length_app in Hlen. cbn [length] in Hlen. rewrite length_replicate in Hlen.
  rewrite (getenv_f_spec default_environment early eq_refl l Hl _ [] (replicate z 0) k env_buf_size);
    [ | done | unfold ENV_SIZE in Hlen; simpl; lia | unfold ENV_SIZE, CONFIG_ENV_SIZE in *; lia | done | done
      | unfold env_buf_size; lia].
  cbn [mbind option_bind]. rewrite <- Hm. destruct (m !! k) as [d|] eqn:Ek; cbn [fmap option_fmap option_map].
  - destruct Hfit as (Hok & _). destruct (Hok k d Ek) as [_ [_ Hne]].
    assert (length d <> 0)%nat by (by destruct d). rewrite (proj2 (Z.ltb_lt 0 _)) by (unfold env_buf_size; lia).
    done.
  - done.
Qed.

(** ** Witnesses and flaws *)

Definition five_env : genv := mkG five true false [] 0.

Lemma five_settable : settable (str "b").
Proof. split; [by repeat constructor|]. split; [vm_compute; set_solver | done]. Qed.

Lemma setenv_getenv_witness : exists ret g',
  setenv (H := plain_hooks) five_env (str "b") (Some (str "12")) = Some (ret, g') /\ (ret = 0 \/ ret = 1) /\
  env_ready g' = true /\
  rep (env_htab g') (if ret =? 0 then set_map ∅ (str "b") (Some (str "12")) else ∅) /\
  forall k', cstr_ok k' -> getenv (H := plain_hooks) [] g' k' =
    Some ((if ret =? 0 then set_map ∅ (str "b") (Some (str "12")) else ∅) !! k').
Proof.
  apply (setenv_getenv (H := plain_hooks) [] five_env ∅).
  - reflexivity.
  - exact five_rep.
  - exact five_settable.
  - by repeat constructor.
  - done.
  - by vm_compute.
Defined.

Lemma setenv_number_roundtrip_witness :
  (exists ret g', setenv_hex (H := plain_hooks) five_env (str "b") 4096 = Some (ret, g') /\
     (ret = 0 -> getenv_hex (H := plain_hooks) [] g' (str "b") 7 = Some 4096)) /\
  (exists ret g', setenv_ulong (H := plain_hooks) five_env (str "b") 4096 = Some (ret, g') /\
     (ret = 0 -> getenv_ulong (H := plain_hooks) [] g' (str "b") 10 7 = Some 4096)).
Proof.
  apply (setenv_number_roundtrip (H := plain_hooks) [] five_env ∅).
  - reflexivity.
  - exact five_rep.
  - exact five_settable.
  - done.
  - by vm_compute.
  - lia.
Defined.

Lemma demo_fits : fits demo_map.
Proof.
  split; [|by vm_compute].
  intros k d Hkd. unfold demo_map in Hkd. apply lookup_singleton_Some in Hkd as [<- <-].
  split; [|by split; [repeat constructor|]].
  split; [by repeat constructor|]. split; [vm_compute; set_solver|].
  split; [vm_compute; set_solver|done].
Qed.

Definition blank_env : env_t := mkEnv 0 (replicate (Z.to_nat ENV_SIZE) 255).

Lemma blank_env_size : Z.of_nat (length (env_data blank_env)) = ENV_SIZE.
Proof. unfold blank_env, env_data. by rewrite length_replicate, Z2Nat.id. Qed.



Lemma getenv_early_agrees_witness : exists h e v,
  env_export (H := plain_hooks) (mkG h true false [] 0) blank_env 4 = Some (0, e) /\
  getenv (H := plain_hooks) [] (mkG h true false [] 0) (str "a") = Some v /\
  getenv (H := plain_hooks) [] (mkG no_table false true (env_data e) 0) (str "a") = Some (take 31 <$> v).
Proof.
  destruct demo_rep as [h Hrep]. exists h.
  destruct (env_export_spec (H := plain_hooks) ltac:(done) (mkG h true false [] 0) demo_map blank_env 4 Hrep
    demo_fits blank_env_size) as (l & z & _ & _ & _ & Hex).
  eexists. refine (match getenv_early_agrees (H := plain_hooks) [] (mkG h true false [] 0) demo_map blank_env 4 _
    (str "a") ltac:(done) eq_refl Hrep demo_fits _ blank_env_size Hex _ _ with
    ex_intro _ v (conj H1 H2) => ex_intro _ v (conj Hex (conj H1 H2)) end).
  - intros k d Hkd. unfold demo_map in Hkd. apply lookup_singleton_Some in Hkd as [<- <-]. vm_compute. set_solver.
  - by repeat constructor.
  - vm_compute. set_solver.
Defined.

(** "setenv -f": the option loop consumes the only argument and the name is
    NULL, which [strchr] dereferences. *)
Theorem setenv_force_null : _do_env_set (H := plain_hooks) five_env [str "-f"] = None.
Proof. reflexivity. Qed.

(** Values are stored with their backslashes doubled; reading the image in
    place does not undo that: the variable has another value before
    relocation. *)
Theorem getenv_early_backslash : exists h,
  find_value (H := plain_hooks) h (str "a") = Some [92] /\
  match hexport_r (H := plain_hooks) h 0 0 None 0 [] with
  | Some (_, _, Some img) =>
      getenv (H := plain_hooks) [] (mkG no_table false true img 0) (str "a") = Some (Some [92; 92])
  | _ => False
  end.
Proof. exists (one [92]). split; vm_compute; reflexivity. Qed.

(** For an entry without '=', [envmatch] with its exact name compares the NULs,
    finds them equal and runs past the end of the name. *)
Theorem envmatch_overread :
  envmatch [] (mkG no_table false true (str "ab" ++ [0; 0]) 0) (str "ab") 0 = None.
Proof. reflexivity. Qed.

End Env.
