(* ===== verification/Command.v ===== *)
(** * Commands (common/command.c, common/cli.c, do_bootd of common/cmd_bootm.c)

    The command table and its search, running a command with its argument and
    recursion checks, [run] and [bootd], which call the command line again,
    completion of a command line, and the sorted help list.  Strings are
    values.  The command line is the one of Cli.v: its processor is
    [cmd_process] of this file, and the functions it needs of the environment
    come through the class [Console].

    Text that is only printed is not modelled, except which commands a help
    list names and in which order. *)

From S2P Require Import Prelude Ctype CString HashExport Cli.

Module Command.
Import CString Ctype Cli.

(** ** The command table *)

Definition CMD_RET_SUCCESS : Z := 0.
Definition CMD_RET_FAILURE : Z := 1.
Definition CMD_RET_USAGE : Z := -1.
Definition CMD_FLAG_BOOTD : Z := 2.
Definition CMD_FLAG_ENV : Z := 4.

(** The function of a command.  [do_run] and [do_bootd] run command lines;
    [cmd_process] compares with [do_bootd]. *)
Inductive handler (St : Type) :=
  | h_run
  | h_bootd
  | h_cmd (f : St -> Z -> list bytes -> option (Z * St)).
Arguments h_run {St}.
Arguments h_bootd {St}.
Arguments h_cmd {St} f.

(** [complete]: the arguments, the last character and the size of [cmdv]; it
    returns its result and [cmdv] up to the NULL. *)
Record cmd_tbl_s (St : Type) := mkCmd {
  name : bytes;
  maxargs : Z;
  repeatable : Z;
  cmd : handler St;
  usage : option bytes;
  complete : option (list bytes -> Z -> Z -> Z * list bytes) }.
Arguments mkCmd {St}.
Arguments name {St}.
Arguments maxargs {St}.
Arguments repeatable {St}.
Arguments cmd {St}.
Arguments usage {St}.
Arguments complete {St}.

(** The text of a command up to the first dot: [len]. *)
Fixpoint dot (s : bytes) : option nat :=
  match s with
  | [] => None
  | c :: s => if c =? 46 then Some O else n ← dot s; Some (S n)
  end.

Definition stem_len (s : bytes) : nat := default (length s) (dot s).

Section command.
Context {St : Type}.
Abbreviation cmd_tbl_t := (cmd_tbl_s St).

Fixpoint find_loop (c : bytes) (len : nat) (table : list cmd_tbl_t) (cmdtp_temp : option cmd_tbl_t)
    (n_found : Z) : option cmd_tbl_t :=
  match table with
  | [] => if n_found =? 1 then cmdtp_temp else None
  | cmdtp :: table =>
      if strncmp_str len c (name cmdtp) =? 0 then
        if (len =? length (name cmdtp))%nat then Some cmdtp
        else find_loop c len table (Some cmdtp) (n_found + 1)
      else find_loop c len table cmdtp_temp n_found
  end.

Definition find_cmd_tbl (c : option bytes) (table : list cmd_tbl_t) : option cmd_tbl_t :=
  c ← c; find_loop c (stem_len c) table (head table) 0.

Context (table : list cmd_tbl_t).

Definition find_cmd (c : option bytes) : option cmd_tbl_t := find_cmd_tbl c table.

Definition cmd_usage (cmdtp : cmd_tbl_t) : Z := 1.

Definition cmd_process_error (cmdtp : cmd_tbl_t) (err : Z) : Z := if negb (err =? 0) then 1 else 0.

(** CONFIG_SYS_SUPPORT_64BIT_DATA is off. *)
Definition cmd_get_data_size (arg : bytes) (default_size : Z) : Z :=
  let len := Z.of_nat (length arg) in
  if (2 <? len) && bool_decide (zget arg (len - 2) = Some 46) then
    match zget arg (len - 1) with
    | Some 98 => 1
    | Some 119 => 2
    | Some 108 => 4
    | Some 115 => -2
    | _ => -1
    end
  else default_size.

(** ** Running a command *)

Section run.
Context `{Console St}.
(** [run_command] of the command line. *)
Context (run_command : option bytes -> Z -> St -> option (Z * St)).

Fixpoint run_vars (flag : Z) (argv : list bytes) (st : St) : option (Z * St) :=
  match argv with
  | [] => Some (0, st)
  | a :: argv =>
      match getenv st a with
      | None => Some (1, st)
      | Some arg =>
          '(r, st) ← run_command (Some arg) (Z.lor flag CMD_FLAG_ENV) st;
          if negb (r =? 0) then Some (1, st) else run_vars flag argv st
      end
  end.

Definition do_run (flag : Z) (argv : list bytes) (st : St) : option (Z * St) :=
  if (length argv <? 2)%nat then Some (CMD_RET_USAGE, st) else run_vars flag (tail argv) st.

Definition do_bootd (flag : Z) (st : St) : option (Z * St) :=
  run_command (getenv st (str "bootcmd")) flag st.

Definition cmd_call (cmdtp : cmd_tbl_t) (flag : Z) (argv : list bytes) (st : St) : option (Z * St) :=
  match cmd cmdtp with
  | h_run => do_run flag argv st
  | h_bootd => do_bootd flag st
  | h_cmd f => f st flag argv
  end.

(** [ticks] is NULL, as in both command lines. *)
Definition cmd_process (st : St) (flag : Z) (argv : list bytes) (rep : Z) : option (Z * Z * St) :=
  match find_cmd (head argv) with
  | None => Some (1, rep, st)
  | Some cmdtp =>
      let '(rc, flag) :=
        if maxargs cmdtp <? Z.of_nat (length argv) then (CMD_RET_USAGE, flag)
        else match cmd cmdtp with
             | h_bootd =>
                 if negb (Z.land flag CMD_FLAG_BOOTD =? 0) then (CMD_RET_FAILURE, flag)
                 else (CMD_RET_SUCCESS, Z.lor flag CMD_FLAG_BOOTD)
             | _ => (CMD_RET_SUCCESS, flag)
             end in
      r ← (if rc =? 0 then
             '(rc, st) ← cmd_call cmdtp flag argv st;
             Some (rc, Z.land rep (repeatable cmdtp), st)
           else Some (rc, rep, st));
      let '(rc, rep, st) := r in
      Some (if rc =? CMD_RET_USAGE then cmd_usage cmdtp else rc, rep, st)
  end.

End run.

(** [run_command] with at most [depth] command lines inside each other;
    [None]: it needs more. *)
Fixpoint run_command_depth `{Console St} (cbsize : Z) (nargs : nat) (before : Z) (depth : nat)
    (c : option bytes) (flag : Z) (st : St) : option (Z * St) :=
  match depth with
  | O => None
  | S depth =>
      Cli.run_command cbsize nargs (cmd_process (run_command_depth cbsize nargs before depth)) before c flag st
  end.

(** ** Completion *)

Definition dots : bytes := str "...".

(** The names that go to [cmdv]; [n_found] of the [maxv] entries are used. *)
Fixpoint list_names (l : list cmd_tbl_t) (n_found maxv : Z) : list bytes :=
  match l with
  | [] => []
  | cmdtp :: l =>
      if maxv - 2 <=? n_found then [dots] else name cmdtp :: list_names l (n_found + 1) maxv
  end.

(** The loop over the partial matches of the first [len] characters of [c]. *)
Fixpoint match_names (c : bytes) (len : nat) (l : list cmd_tbl_t) (n_found maxv : Z) : list bytes :=
  match l with
  | [] => []
  | cmdtp :: l =>
      if (length (name cmdtp) <? len)%nat then match_names c len l n_found maxv
      else if negb (bool_decide (take len c = take len (name cmdtp))) then match_names c len l n_found maxv
      else if maxv - 2 <=? n_found then [dots]
      else name cmdtp :: match_names c len l (n_found + 1) maxv
  end.

(** The result and [cmdv]; [cmdv0] is what it held before. *)
Definition complete_cmdv (argv : list bytes) (last_char maxv : Z) (cmdv0 : list bytes) : Z * list bytes :=
  if maxv <? 2 then (-2, cmdv0)
  else match argv with
  | [] => let l := list_names table 0 maxv in (Z.of_nat (length l), l)
  | c :: args =>
      if (0 <? length args)%nat || (last_char =? 0) || isblank last_char then
        match find_cmd (Some c) with
        | None => (0, [])
        | Some cmdtp =>
            match complete cmdtp with
            | None => (0, [])
            | Some f => f argv last_char maxv
            end
        end
      else let l := match_names c (stem_len c) table 0 maxv in (Z.of_nat (length l), l)
  end.

(** [n] is argvsz - 1 - argc. *)
Fixpoint make_argv (n : nat) (s : bytes) : list bytes :=
  match n with
  | O => []
  | S n =>
      match skip_blanks s with
      | [] => []
      | s =>
          let '(w, r) := take_word s in
          match r with
          | [] => [w]
          | _ :: r => w :: make_argv n r
          end
      end
  end.

(** [for (i = 0; i < len; i++, t++, s++)]. *)
Fixpoint common (len : nat) (s t : bytes) : nat :=
  match len, s, t with
  | S len, c :: s, d :: t => if c =? d then S (common len s t) else O
  | _, _, _ => O
  end.

Definition find_common_prefix (argv : list bytes) : nat :=
  match argv with
  | [] => O
  | anchor :: argv => fold_left (fun len t => common len anchor t) argv (length anchor)
  end.

(** What the user sees: the bell, the inserted text, or the list of matches. *)
Inductive feedback := Silent | Bell | Inserted (s : bytes) (bell : bool) | Listed (l : list bytes).

Definition MAXV : Z := 20.

(** [buf] is the string in the console buffer of [cbsize] bytes, [n] its
    length and [col] the column as the caller counts them.  [None]: a read or
    write outside an object. *)
Definition cmd_auto_complete (cbsize : Z) (nargs : nat) (CONFIG_SYS_PROMPT prompt buf : bytes) (n col : Z)
    (cmdv0 : list bytes) : option (Z * bytes * Z * Z * feedback) :=
  if negb (strcmp_str prompt CONFIG_SYS_PROMPT =? 0) then Some (0, buf, n, col, Silent)
  else
    let cnt := Z.of_nat (length buf) in
    let last_char := default 0 (last buf) in
    if cbsize <=? cnt then None
    else
      let argv := make_argv nargs buf in
      let '(i, cmdv) := complete_cmdv argv last_char MAXV cmdv0 in
      if i =? 0 then
        if (1 <? length argv)%nat then Some (0, buf, n, col, Silent) else Some (1, buf, n, col, Bell)
      else
        s ← (if i =? 1 then
               w ← last argv;
               m ← head cmdv;
               if (length m <? length w)%nat then None
               else Some (Some (drop (length w) m, str " "))
             else if (1 <? i) && negb (find_common_prefix cmdv =? 0)%nat then
               w ← last argv;
               m ← head cmdv;
               let j := (find_common_prefix cmdv - length w)%nat in
               if (0 <? j)%nat then Some (Some (take j (drop (length w) m), [])) else Some None
             else Some None);
        match s with
        | Some (s, sep) =>
            let k := Z.of_nat (length s + length sep) in
            if cbsize - 2 <=? n + k then Some (1, buf, n, col, Bell)
            else if cbsize <=? cnt + k then None
            else Some (1, buf ++ s ++ sep, n + k, col + k,
                       Inserted (s ++ sep) (bool_decide (sep = [])))
        | None => Some (1, buf, n, col, Listed cmdv)
        end.

(** ** The list of commands *)

(** One pass of the bubble sort over the entries up to index [i], and the
    number of swaps. *)
Fixpoint bubble (i : nat) (a : list cmd_tbl_t) : list cmd_tbl_t * nat :=
  match i, a with
  | S i, x :: y :: a =>
      if 0 <? strcmp_str (name x) (name y) then
        let '(a, swaps) := bubble i (x :: a) in (y :: a, S swaps)
      else
        let '(a, swaps) := bubble i (y :: a) in (x :: a, swaps)
  | _, _ => (a, O)
  end.

(** [for (i = cmd_items - 1; i > 0; --i)]. *)
Fixpoint sort_commands (i : nat) (a : list cmd_tbl_t) : list cmd_tbl_t :=
  match i with
  | O => a
  | S i' => let '(a, swaps) := bubble i a in if (swaps =? 0)%nat then a else sort_commands i' a
  end.

(** The commands that are printed: those with a usage text, until [ctrlc]
    (a list of what its calls return) says stop. *)
Fixpoint print_help (ctrlc : list bool) (a : list cmd_tbl_t) : Z * list bytes :=
  match a with
  | [] => (0, [])
  | x :: a =>
      if default false (head ctrlc) then (1, [])
      else
        let '(r, l) := print_help (tail ctrlc) a in
        (r, match usage x with None => l | Some _ => name x :: l end)
  end.

Fixpoint help_each (args : list bytes) (rcode : Z) : Z :=
  match args with
  | [] => rcode
  | a :: args =>
      match find_cmd (Some a) with
      | Some cmdtp => help_each args (Z.lor rcode (cmd_usage cmdtp))
      | None => help_each args 1
      end
  end.

(** The result and, without arguments, the commands that are listed. *)
Definition _do_help (ctrlc : list bool) (argv : list bytes) : Z * list bytes :=
  if (length argv =? 1)%nat then print_help ctrlc (sort_commands (length table - 1) table)
  else (help_each (tail argv) 0, []).

End command.
(** ** Looking a command up *)

Definition stem (c : bytes) : bytes := take (stem_len c) c.

Lemma dot_lt s n : dot s = Some n -> (n < length s)%nat.
Proof.
  revert n; induction s as [|c s IH]; intros n; simpl; [done|].
  destruct (c =? 46); [intros [= <-]; lia|].
  destruct (dot s) as [k|]; simpl; [|done]. intros [= <-]. specialize (IH k eq_refl). lia.
Qed.

Lemma stem_len_le c : (stem_len c <= length c)%nat.
Proof. unfold stem_len. destruct (dot c) eqn:E; simpl; [apply dot_lt in E; lia | done]. Qed.

Lemma length_stem c : length (stem c) = stem_len c.
Proof. unfold stem. rewrite length_take. pose proof (stem_len_le c). lia. Qed.

(** Comparing the first characters is asking for a prefix. *)
Lemma take_prefix (c n : bytes) (len : nat) :
  (len <= length c)%nat -> take len c = take len n <-> take len c `prefix_of` n.
Proof.
  intros Hl. split.
  - intros ->. exists (drop len n). by rewrite take_drop.
  - intros [k ->]. rewrite take_app_le by (rewrite length_take; lia). by rewrite take_take, Nat.min_id.
Qed.

Section lookup.
Context {St : Type}.
Implicit Types table : list (cmd_tbl_s St).

Definition names_ok (table : list (cmd_tbl_s St)) : Prop := Forall (fun e => cstr_ok (name e)) table.

(** The documented lookup: the command of that name, or else the only one of
    which it is an abbreviation. *)
Definition lookup_command (c : bytes) (table : list (cmd_tbl_s St)) : option (cmd_tbl_s St) :=
  match filter (fun e => name e = stem c) table with
  | e :: _ => Some e
  | [] =>
      match filter (fun e => stem c `prefix_of` name e) table with
      | [e] => Some e
      | _ => None
      end
  end.

Lemma find_loop_spec c table temp n : cstr_ok c -> names_ok table -> 0 <= n ->
  find_loop c (stem_len c) table temp n =
    match filter (fun e => name e = stem c) table with
    | e :: _ => Some e
    | [] =>
        let ms := filter (fun e => stem c `prefix_of` name e) table in
        if n + Z.of_nat (length ms) =? 1 then match last ms with Some e => Some e | None => temp end else None
    end.
Proof.
  intros Hc Ht. revert temp n; induction Ht as [|e table He Ht IH]; intros temp n Hn.
  - cbn. by rewrite Z.add_0_r.
  - cbn [find_loop]. rewrite (filter_cons (fun e => name e = stem c)), (filter_cons (fun e => stem c `prefix_of` name e)).
    pose proof (strncmp_str_zero c (name e) (stem_len c) Hc He) as Hz.
    rewrite (take_prefix c _ _ (stem_len_le c)) in Hz. fold (stem c) in Hz.
    destruct (Z.eqb_spec (strncmp_str (stem_len c) c (name e)) 0) as [E|E].
    + apply Hz in E. rewrite (decide_True (P := stem c `prefix_of` name e)) by done.
      destruct (Nat.eqb_spec (stem_len c) (length (name e))) as [El|El].
      * rewrite decide_True; [done|]. destruct E as [k Hk]. rewrite Hk.
        destruct k; [by rewrite app_nil_r|]. apply (f_equal length) in Hk.
        rewrite length_app, length_stem in Hk. simpl in Hk. lia.
      * rewrite decide_False by (intros Hk; apply El; by rewrite Hk, length_stem).
        rewrite IH by lia. destruct (filter _ table); [|done]. cbn [length].
        set (ms := filter _ table). replace (n + 1 + Z.of_nat (length ms)) with (n + Z.of_nat (S (length ms))) by lia.
        rewrite last_cons. by destruct (last ms).
    + rewrite decide_False; [rewrite decide_False; [by apply IH|] |].
      * intros Hp. by apply E, Hz.
      * intros Hn'. apply E, Hz. by exists []; rewrite app_nil_r.
Qed.

Lemma find_cmd_tbl_spec c table : cstr_ok c -> names_ok table ->
  find_cmd_tbl (Some c) table = lookup_command c table.
Proof.
  intros Hc Ht. cbn [find_cmd_tbl mbind option_bind]. rewrite find_loop_spec by done.
  unfold lookup_command. destruct (filter _ table); [|done]. cbv zeta.
  destruct (filter (fun e => stem c `prefix_of` name e) table) as [|e [|e2 ms]]; [done | done|].
  by rewrite (proj2 (Z.eqb_neq (0 + _) 1)) by (cbn [length]; lia).
Qed.

(** C26: [find_cmd_tbl] searches a command by its text up to the first dot (so
    that "cp.b" finds "cp"): it returns the first entry of exactly that name,
    otherwise the entry of which it is an abbreviation when there is exactly
    one, and NULL for an unknown or ambiguous command. *)
Theorem find_cmd_tbl_correct c table : cstr_ok c -> names_ok table ->
  find_cmd_tbl (Some c) table = lookup_command c table.
Proof. apply find_cmd_tbl_spec. Qed.

End lookup.
(** ** Command lines inside command lines *)

Section depth.
Context {St : Type} `{Console St} (table : list (cmd_tbl_s St)) (cbsize : Z) (nargs : nat) (before : Z).
Implicit Types rc : option bytes -> Z -> St -> option (Z * St).

Abbreviation run_at := (run_command_depth table cbsize nargs before).

(** One function that runs command lines returns whenever another does. *)
Definition below rc rc' (flag : Z) : Prop :=
  forall c st r, rc c flag st = Some r -> rc' c flag st = Some r.

Lemma run_vars_mono rc rc' flag argv st r : below rc rc' (Z.lor flag CMD_FLAG_ENV) ->
  run_vars rc flag argv st = Some r -> run_vars rc' flag argv st = Some r.
Proof.
  intros Hle. revert st; induction argv as [|a argv IH]; intros st; [done|]. cbn [run_vars].
  destruct (getenv st a) as [v|]; [|done].
  destruct (rc (Some v) _ st) as [[r1 st1]|] eqn:E; [|done]. rewrite (Hle _ _ _ E). simpl.
  destruct (negb (r1 =? 0)); [done | apply IH].
Qed.

Lemma cmd_process_mono rc rc' st flag argv rep r :
  (forall flag, below rc rc' flag) ->
  cmd_process table rc st flag argv rep = Some r -> cmd_process table rc' st flag argv rep = Some r.
Proof.
  intros Hle. unfold cmd_process. destruct (find_cmd table (head argv)) as [e|]; [|done].
  assert (forall flag r, cmd_call rc e flag argv st = Some r -> cmd_call rc' e flag argv st = Some r) as Hcall.
  { intros f r'. unfold cmd_call. destruct (cmd e); [|apply Hle|done].
    unfold do_run. destruct (_ <? _)%nat; [done | apply run_vars_mono, Hle]. }
  destruct (maxargs e <? _); [done|].
  destruct (cmd e) eqn:Ec; [| destruct (negb _); [done|] |]; simpl;
    (destruct (cmd_call rc e _ argv st) as [[r1 st1]|] eqn:E; [|done]); by rewrite (Hcall _ _ E).
Qed.

Lemma run_command_depth_S depth c flag st r :
  run_at depth c flag st = Some r -> run_at (S depth) c flag st = Some r.
Proof.
  revert c flag st r; induction depth as [|depth IH]; intros c flag st r; [done|].
  cbn [run_command_depth]. unfold Cli.run_command at 1.
  destruct (cli_simple_run_command _ _ _ before c flag st) as [[r1 st1]|] eqn:E; [|done].
  intros Hr. unfold Cli.run_command.
  eapply (run_command_mono _ _ _ (cmd_process table (run_at (S depth)))) in E;
    [cbn [run_command_depth] in E; unfold Cli.run_command in E; by rewrite E|].
  intros st' argv rep r' Hp. eapply cmd_process_mono; [|exact Hp]. intros f c' s' r0. apply IH.
Qed.

(** The result does not depend on the depth that is allowed. *)
Lemma run_command_depth_le d d' c flag st r : (d <= d')%nat ->
  run_at d c flag st = Some r -> run_at d' c flag st = Some r.
Proof. induction 1; [done | intros; by apply run_command_depth_S; auto]. Qed.

(** Every command returns, and none of them is [run]. *)
Definition plain_table : Prop :=
  Forall (fun e => match cmd e with
                   | h_run => False
                   | h_bootd => True
                   | h_cmd f => forall st flag argv, is_Some (f st flag argv)
                   end) table.

Lemma find_cmd_elem c e : find_cmd table c = Some e -> e ∈ table.
Proof.
  unfold find_cmd, find_cmd_tbl. destruct c as [c|]; [|done]. simpl.
  assert (forall l temp n, (forall e, temp = Some e -> e ∈ table) -> l ⊆ table ->
            find_loop c (stem_len c) l temp n = Some e -> e ∈ table) as Hgen.
  { induction l as [|x l IH]; intros temp n Htemp Hl; cbn [find_loop].
    - bcase; [apply Htemp | done].
    - assert (x ∈ table) by (apply Hl; set_solver).
      bcase; [destruct (_ =? _)%nat; [intros [= ->]; done|]|]; apply IH; try done; set_solver. }
  apply Hgen; [|done]. intros e' He. by apply head_Some_elem_of in He.
Qed.

(** A plain command line returns when the commands it may call return. *)
Lemma cmd_process_returns rc st flag argv rep : plain_table ->
  (Z.land flag CMD_FLAG_BOOTD = 0 -> forall c st, is_Some (rc c (Z.lor flag CMD_FLAG_BOOTD) st)) ->
  is_Some (cmd_process table rc st flag argv rep).
Proof.
  intros Hpl Hrc. unfold cmd_process. destruct (find_cmd table (head argv)) as [e|] eqn:Ef; [|by eexists].
  apply find_cmd_elem in Ef. unfold plain_table in Hpl. rewrite Forall_forall in Hpl. apply Hpl in Ef.
  destruct (maxargs e <? _); [by eexists|]. unfold cmd_call. destruct (cmd e) as [| |f]; [done| |].
  - bcase; [by eexists|]. zbool. simpl. unfold do_bootd.
    destruct (Hrc ltac:(done) (getenv st (str "bootcmd")) st) as [[r st'] ->]. by eexists.
  - simpl. destruct (Ef st flag argv) as [[r st'] ->]. by eexists.
Qed.

Lemma bootd_flag flag : Z.land (Z.lor flag CMD_FLAG_BOOTD) CMD_FLAG_BOOTD <> 0.
Proof.
  intros E. apply (f_equal (fun z => Z.testbit z 1)) in E.
  rewrite Z.land_spec, Z.lor_spec in E. change (Z.testbit CMD_FLAG_BOOTD 1) with true in E.
  by rewrite orb_true_r, Z.bits_0 in E.
Qed.

(** Lemma for a processor at one flag. *)
Lemma run_command_at_flag cp flag c st :
  (forall st argv rep, is_Some (cp st flag argv rep)) ->
  is_Some (cli_simple_run_command cbsize nargs cp before c flag st).
Proof.
  intros Hcp. set (cp' := fun st (f : Z) argv rep => cp st flag argv rep).
  destruct (run_command_is_Some cbsize nargs cp' before c flag st) as [r Hr].
  { intros ????. apply Hcp. }
  exists r. eapply run_command_mono; [|exact Hr]. done.
Qed.

(** C8: [bootd] does not recurse.  When no command but [boot]/[bootd] runs
    command lines and the other commands return, every command line returns
    with at most two command lines inside each other, whatever the environment
    holds: a [bootd] inside [bootcmd] is refused. *)
Theorem bootd_terminates c flag st : plain_table -> is_Some (run_at 2 c flag st).
Proof.
  intros Hpl. assert (forall c flag st, is_Some (run_at 1 c (Z.lor flag CMD_FLAG_BOOTD) st)) as H1.
  { intros c' f s. cbn [run_command_depth]. unfold Cli.run_command.
    destruct (run_command_at_flag (cmd_process table (fun _ _ _ => None)) (Z.lor f CMD_FLAG_BOOTD) c' s)
      as [[r st'] Hr]; [|rewrite Hr; by eexists].
    intros s' argv rep. apply cmd_process_returns; [done|]. intros E. by apply bootd_flag in E. }
  cbn [run_command_depth]. unfold Cli.run_command.
  destruct (run_command_at_flag (cmd_process table (run_at 1)) flag c st) as [[r st'] Hr];
    [|cbn [run_command_depth] in Hr; unfold Cli.run_command in Hr; rewrite Hr; by eexists].
  intros s' argv rep. apply cmd_process_returns; [done | intros _ ??; apply H1].
Qed.

End depth.
(** ** The run command *)

(** A word the command line leaves as it is. *)
Definition plain_char (c : Z) : Prop := c <> 39 /\ c <> 36 /\ c <> 92 /\ c <> 59 /\ isblank c = false.
Definition plain_word (k : bytes) : Prop := k <> [] /\ Forall plain_char k.

Lemma words_plain cur k s : Forall plain_char k ->
  words cur (k ++ s) = words (cur ++ k) s.
Proof.
  intros Hk. revert cur; induction Hk as [|c k Hc Hk IH]; intros cur; [by rewrite app_nil_r|].
  simpl. destruct Hc as (_ & _ & _ & _ & ->). by rewrite IH, <- app_assoc.
Qed.

(** Words separated by single blanks. *)
Fixpoint unwords (ws : list bytes) : bytes :=
  match ws with
  | [] => []
  | [w] => w
  | w :: ws => w ++ 32 :: unwords ws
  end.

Lemma words_unwords ws : Forall plain_word ws -> words [] (unwords ws) = ws.
Proof.
  induction 1 as [|w ws [Hne Hw] Hws IH]; [done|]. destruct Hws as [|w2 ws2 Hw2 Hws2].
  - cbn [unwords]. rewrite <- (app_nil_r w) at 1. rewrite words_plain by done. by destruct w.
  - cbn [unwords]. rewrite words_plain by done. cbn [words app]. simpl (isblank 32). cbv iota.
    destruct w; [done|]. f_equal. exact IH.
Qed.

Lemma unwords_text ws : Forall plain_word ws ->
  Forall (fun c => c <> 39 /\ c <> 36 /\ c <> 92 /\ c <> 59) (unwords ws).
Proof.
  induction 1 as [|w ws [Hne Hw] Hws IH]; [done|].
  assert (Forall (fun c => c <> 39 /\ c <> 36 /\ c <> 92 /\ c <> 59) w)
    by (eapply Forall_impl; [exact Hw | unfold plain_char; tauto]).
  destruct ws as [|w2 ws]; [done|]. apply Forall_app. split; [done|]. constructor; [lia | exact IH].
Qed.

Lemma unwords_command_ok ws : Forall plain_word ws -> ws <> [] -> command_ok [Text (unwords ws)].
Proof.
  intros Hws Hne. pose proof (unwords_text ws Hws) as Ht. split.
  - rewrite Forall_singleton. split; eapply Forall_impl; try exact Ht; simpl; naive_solver.
  - unfold rendering. simpl. rewrite app_nil_r. destruct Hws as [|w ws [Hw _] _]; [done|].
    destruct ws; simpl; [done | by destruct w].
Qed.

Section run_line.
Context {St : Type} `{Console St} (cbsize : Z) (nargs : nat) (before : Z).
Context (cp : St -> Z -> list bytes -> Z -> option (Z * Z * St)).

(** A line of one command with plain words: it is processed with these words,
    and the line fails when it fails or ctrl-C was pressed. *)
Lemma run_plain_line ws flag st : before <> 92 -> Forall plain_word ws -> ws <> [] -> (length ws <= nargs)%nat ->
  Z.of_nat (length (unwords ws)) < cbsize ->
  cli_simple_run_command cbsize nargs cp before (Some (unwords ws)) flag st =
    '(ret, rep, st') ← cp (clear_ctrlc st) flag ws 1;
    Some (if negb (ret =? 0) || had_ctrlc st' then -1 else rep, st').
Proof.
  intros Hb Hws Hne Hn Hlen.
  assert (command_line [[Text (unwords ws)]] = unwords ws) as El.
  { cbn [command_line]. unfold rendering. cbn [map concat render]. apply app_nil_r. }
  rewrite <- El at 1. rewrite run_command_execute;
    [|lia | done | rewrite Forall_singleton; by apply unwords_command_ok | done | by rewrite El].
  cbn [execute]. unfold arguments. cbn [map concat value]. rewrite app_nil_r.
  rewrite (take_ge (unwords ws) (Z.to_nat (cbsize - 1))) by lia. rewrite words_unwords, take_ge by done. destruct ws as [|w ws]; [done|].
  destruct (cp (clear_ctrlc st) flag (w :: ws) 1) as [[[ret rep] st']|]; [|done]. cbn [mbind option_bind].
  destruct (had_ctrlc st'); [by rewrite orb_true_r|]. rewrite orb_false_r. by destruct (ret =? 0).
Qed.

End run_line.

Section run_spec.
Context {St : Type} `{Console St} (table : list (cmd_tbl_s St)) (cbsize : Z) (nargs : nat) (before : Z).
Abbreviation run_at := (run_command_depth table cbsize nargs before).

(** The table knows [run]. *)
Definition has_run : Prop :=
  exists e, find_cmd table (Some (str "run")) = Some e /\ cmd e = h_run /\ 2 <= maxargs e.

Lemma land_1 x : (Z.land 1 x =? -1) = false.
Proof.
  apply Z.eqb_neq. rewrite Z.land_comm. change 1 with (Z.ones 1). rewrite Z.land_ones by lia.
  pose proof (Z.mod_pos_bound x (2 ^ 1)). lia.
Qed.

Lemma run_var_spec depth k flag st : before <> 92 -> has_run -> plain_word k ->
  Z.of_nat (length k) + 4 < cbsize -> (2 <= nargs)%nat ->
  run_at (S depth) (Some (unwords [str "run"; k])) flag st =
    let st0 := clear_ctrlc st in
    match getenv st0 k with
    | None => Some (1, st0)
    | Some v =>
        '(r, st1) ← run_at depth (Some v) (Z.lor flag CMD_FLAG_ENV) st0;
        Some (if negb (r =? 0) || had_ctrlc st1 then 1 else 0, st1)
    end.
Proof.
  intros Hb (e & Hf & He & Hm) Hk Hlen Hn. cbn [run_command_depth]. unfold Cli.run_command.
  rewrite run_plain_line; try done.
  2: { repeat constructor; try discriminate; apply Hk. }
  2: { cbn [unwords]. rewrite length_app. simpl. lia. }
  unfold cmd_process at 1. cbn [head]. rewrite Hf, He. cbv iota.
  rewrite (proj2 (Z.ltb_ge _ _)) by (simpl; lia). simpl (CMD_RET_SUCCESS =? 0). cbv iota zeta.
  unfold cmd_call at 1. rewrite He. unfold do_run.
  change (length [str "run"; k] <? 2)%nat with false. cbv iota. cbn [tail run_vars].
  destruct (getenv (clear_ctrlc st) k) as [v|]; cbn [mbind option_bind].
  - destruct (run_command_depth _ _ _ _ depth (Some v) _ _) as [[r st1]|]; [|done]. cbn [mbind option_bind].
    destruct (r =? 0); cbn [negb mbind option_bind]; [|done].
    change (0 =? CMD_RET_USAGE) with false. cbn [negb orb Z.eqb].
    destruct (had_ctrlc st1); [done | by rewrite land_1].
  - done.
Qed.

(** C9: "run k" runs the text of the variable [k] as a command line, with
    CMD_FLAG_ENV set and in the state at hand, one level deeper; the result is
    1 when the variable is not set, when its commands fail and when ctrl-C was
    pressed, and 0 otherwise. *)
Theorem run_executes_variable depth k flag st : before <> 92 -> has_run -> plain_word k ->
  Z.of_nat (length k) + 4 < cbsize -> (2 <= nargs)%nat ->
  run_at (S depth) (Some (unwords [str "run"; k])) flag st =
    let st0 := clear_ctrlc st in
    match getenv st0 k with
    | None => Some (1, st0)
    | Some v =>
        '(r, st1) ← run_at depth (Some v) (Z.lor flag CMD_FLAG_ENV) st0;
        Some (if negb (r =? 0) || had_ctrlc st1 then 1 else 0, st1)
    end.
Proof. apply run_var_spec. Qed.

(** [run] has no recursion check: a variable that runs itself never returns,
    however deep the command lines may nest. *)
Theorem run_unbounded depth k flag st : before <> 92 -> has_run -> plain_word k ->
  Z.of_nat (length k) + 4 < cbsize -> (2 <= nargs)%nat ->
  (forall st, getenv st k = Some (unwords [str "run"; k])) ->
  run_at depth (Some (unwords [str "run"; k])) flag st = None.
Proof.
  intros Hb Hr Hk Hlen Hn Hk'. revert flag st; induction depth as [|depth IH]; intros flag st; [done|].
  rewrite run_var_spec by done. cbv zeta. by rewrite Hk', IH.
Qed.

End run_spec.
(** ** Completion *)

(** *** The longest common prefix *)

Definition is_lcp (p : bytes) (l : list bytes) : Prop :=
  Forall (fun x => p `prefix_of` x) l /\ forall q, Forall (fun x => q `prefix_of` x) l -> q `prefix_of` p.

Lemma common_spec len s t : (len <= length s)%nat ->
  let r := common len s t in
  (r <= len)%nat /\ take r s `prefix_of` t /\
  forall q, q `prefix_of` take len s -> q `prefix_of` t -> q `prefix_of` take r s.
Proof.
  revert s t; induction len as [|len IH]; intros [|c s] t Hl; simpl in *; try lia.
  - by split_and!; [lia | apply prefix_nil|].
  - by split_and!; [lia | apply prefix_nil|].
  - destruct t as [|d t]; [by split_and!; [lia | apply prefix_nil|]|].
    destruct (Z.eqb_spec c d) as [<-|Hne].
    + destruct (IH s t ltac:(lia)) as (H1 & H2 & H3). simpl. split_and!; [lia | by apply prefix_cons|].
      intros [|x q] Hq1 Hq2; [apply prefix_nil|].
      pose proof (prefix_cons_inv_1 _ _ _ _ Hq1) as ->. apply prefix_cons_inv_2 in Hq1, Hq2.
      by apply prefix_cons, H3.
    + split_and!; [lia | apply prefix_nil|]. intros [|x q] Hq1 Hq2; [done|].
      apply prefix_cons_inv_1 in Hq1, Hq2. congruence.
Qed.

Lemma common_fold l anchor len : (len <= length anchor)%nat ->
  let r := fold_left (fun len t => common len anchor t) l len in
  (r <= len)%nat /\ is_lcp (take r anchor) (take len anchor :: l).
Proof.
  revert len; induction l as [|t l IH]; intros len Hl; simpl.
  - split; [done|]. split; [by rewrite Forall_singleton|]. intros q Hq. by rewrite Forall_singleton in Hq.
  - destruct (common_spec len anchor t Hl) as (H1 & H2 & H3).
    destruct (IH (common len anchor t) ltac:(lia)) as (H4 & H5 & H6).
    apply Forall_cons in H5 as [H5 H5']. split; [lia|]. split.
    + repeat apply Forall_cons_2; [|by etrans|done].
      etrans; [exact H5|]. exists (drop (common len anchor t) (take len anchor)).
      rewrite <- (take_drop (common len anchor t) (take len anchor)) at 1. f_equal.
      rewrite take_take. f_equal. lia.
    + intros q Hq. apply Forall_cons in Hq as [Hq1 Hq]. apply Forall_cons in Hq as [Hq2 Hq].
      apply H6. constructor; [by apply H3 | done].
Qed.

Lemma find_common_prefix_spec m ms :
  (find_common_prefix (m :: ms) <= length m)%nat /\
  is_lcp (take (find_common_prefix (m :: ms)) m) (m :: ms).
Proof.
  pose proof (common_fold ms m (length m) (le_n _)) as H. cbv zeta in H.
  rewrite (firstn_all m) in H. exact H.
Qed.

(** The matches of [w] agree on [w] and on the text [s] behind it. *)
Lemma common_extends w m ms : Forall (fun x => w `prefix_of` x) (m :: ms) ->
  exists s, is_lcp (w ++ s) (m :: ms) /\ find_common_prefix (m :: ms) = (length w + length s)%nat /\
    take (length s) (drop (length w) m) = s.
Proof.
  intros Hpre. destruct (find_common_prefix_spec m ms) as [Hf Hlcp]. set (f := find_common_prefix _) in *.
  assert (w `prefix_of` take f m) as [s Hs] by (by apply Hlcp). exists s.
  assert (f = (length w + length s)%nat) as Ef.
  { apply (f_equal length) in Hs. rewrite length_take, length_app in Hs. lia. }
  split; [by rewrite <- Hs|]. split; [done|].
  rewrite take_drop_commute, <- Ef, Hs. by rewrite drop_app_length.
Qed.

(** *** Words and candidates *)

Definition no_blank (w : bytes) : Prop := Forall (fun c => isblank c = false) w.

Lemma take_word_all w : no_blank w -> take_word w = (w, []).
Proof. induction 1 as [|c w Hc Hw IH]; simpl; [done|]. by rewrite Hc, IH. Qed.

Lemma make_argv_word nargs w : (0 < nargs)%nat -> w <> [] -> no_blank w -> make_argv nargs w = [w].
Proof.
  intros Hn Hw Hb. destruct nargs as [|nargs]; [lia|]. cbn [make_argv].
  assert (skip_blanks w = w) as Hs.
  { destruct Hb as [|c w Hc Hb]; [done|]. simpl. by rewrite Hc. }
  rewrite Hs. destruct w as [|c w]; [done|]. by rewrite (take_word_all _ Hb).
Qed.

Lemma dot_none w : 46 ∉ w -> dot w = None.
Proof.
  induction w as [|c w IH]; intros Hd; [done|]. simpl. rewrite not_elem_of_cons in Hd.
  rewrite (proj2 (Z.eqb_neq _ _)) by naive_solver. by rewrite IH by naive_solver.
Qed.

Lemma stem_none w : 46 ∉ w -> stem_len w = length w /\ stem w = w.
Proof.
  intros Hd. unfold stem, stem_len. rewrite dot_none by done. simpl. split; [done | apply firstn_all].
Qed.

Section completion.
Context {St : Type} (table : list (cmd_tbl_s St)).

Definition candidates (w : bytes) : list bytes := map name (filter (fun e => w `prefix_of` name e) table).

Lemma match_names_spec w n maxv : 
  n + Z.of_nat (length (candidates w)) <= maxv - 2 ->
  match_names w (length w) table n maxv = candidates w.
Proof.
  unfold candidates. revert n; induction table as [|e l IH]; intros n Hn; [done|].
  cbn [match_names]. rewrite filter_cons in Hn |- *.
  pose proof (take_prefix w (name e) (length w) (le_n _)) as Ht. rewrite (firstn_all w) in Ht.
  destruct (Nat.ltb_spec (length (name e)) (length w)) as [Hlt|Hge].
  - rewrite decide_False in Hn |- *; [by apply IH | |]; intros Hp%prefix_length; lia.
  - rewrite (firstn_all w). destruct (decide (w `prefix_of` name e)) as [Hp|Hp].
    + rewrite bool_decide_eq_true_2 by (by apply Ht). simpl in Hn |- *.
      rewrite (proj2 (Z.leb_gt _ _)) by lia. f_equal. apply IH. lia.
    + rewrite bool_decide_eq_false_2 by (intros E; by apply Hp, Ht). by apply IH.
Qed.

(** What completion does with the matches [ms] of the word [w] at the end of
    the line. *)
Definition insert (cbsize : Z) (w : bytes) (n col : Z) (s : bytes) (bell : bool) : Z * bytes * Z * Z * feedback :=
  let k := Z.of_nat (length s) in
  if cbsize - 2 <=? n + k then (1, w, n, col, Bell)
  else (1, w ++ s, n + k, col + k, Inserted s bell).

Definition completed (cbsize : Z) (w : bytes) (n col : Z) (ms : list bytes)
    (r : Z * bytes * Z * Z * feedback) : Prop :=
  match ms with
  | [] => r = (1, w, n, col, Bell)
  | [m] => exists s, m = w ++ s /\ r = insert cbsize w n col (s ++ str " ") false
  | _ => exists s, is_lcp (w ++ s) ms /\
           r = if bool_decide (s = []) then (1, w, n, col, Listed ms) else insert cbsize w n col s true
  end.

(** Completing the first word [w] of a line.  With no command that starts
    with [w] the bell rings; with exactly one, its name and a blank are
    completed; with several, the line is extended to their longest common
    prefix, or they are listed when [w] is already it.  The buffer is left as it
    is when the text would not fit, and what it holds never reaches its last
    two bytes. *)
Theorem auto_complete_word cbsize nargs prompt w col cmdv0 :
  cstr_ok prompt -> w <> [] -> no_blank w -> cstr_ok w -> 46 ∉ w -> (0 < nargs)%nat ->
  Z.of_nat (length w) < cbsize -> (length (candidates w) <= 18)%nat ->
  exists r, cmd_auto_complete table cbsize nargs prompt prompt w (Z.of_nat (length w)) col cmdv0 = Some r /\
    completed cbsize w (Z.of_nat (length w)) col (candidates w) r.
Proof.
  intros Hp Hne Hb Hw Hd Hn Hlen Hc. unfold cmd_auto_complete.
  rewrite (proj2 (strcmp_str_zero _ _ Hp Hp) eq_refl). simpl negb. cbv iota.
  rewrite (proj2 (Z.leb_gt _ _) Hlen), make_argv_word by done.
  assert (exists l, last w = Some l /\ isblank l = false /\ l <> 0) as (l & Hl & Hlb & Hl0).
  { destruct (last w) as [l|] eqn:E; [|by apply last_None in E]. exists l. split; [done|].
    apply last_Some_elem_of in E. unfold no_blank, cstr_ok in *. rewrite Forall_forall in Hb, Hw.
    split; [by apply Hb | apply Hw in E; unfold char_ok in E; lia]. }
  rewrite Hl. change (default 0 (Some l)) with l. unfold complete_cmdv. change (MAXV <? 2) with false. cbn [length].
  change (0 <? 0)%nat with false. cbv iota.
  rewrite (proj2 (Z.eqb_neq _ _) Hl0), Hlb. cbn [orb].
  destruct (stem_none w Hd) as [Hs _]. rewrite Hs, match_names_spec by (unfold MAXV; lia). cbv beta iota zeta.
  assert (Forall (fun m => w `prefix_of` m) (candidates w)) as Hpre.
  { unfold candidates. rewrite Forall_map. apply Forall_forall. intros e He.
    by apply list_elem_of_filter in He as [? _]. }
  destruct (candidates w) as [|m [|m2 ms]] eqn:Ec; cbn [length completed].
  - eexists. split; [reflexivity | done].
  - rewrite Forall_singleton in Hpre. destruct Hpre as [s ->]. change (Z.of_nat 1 =? 0) with false. change (Z.of_nat 1 =? 1) with true.
    cbn [last head mbind option_bind].
    rewrite (proj2 (Nat.ltb_ge _ _)) by (rewrite length_app; lia). cbn [mbind option_bind].
    rewrite drop_app_length. rewrite <- length_app.
    eexists; split; [|exists s; split; reflexivity]. unfold insert. bcase; [done|]. zbool.
    by rewrite (proj2 (Z.leb_gt _ _)) by lia.
  - set (i := Z.of_nat (S (S (length ms)))). assert (2 <= i) as Hi by lia. clearbody i.
    rewrite (proj2 (Z.eqb_neq i 0)), (proj2 (Z.eqb_neq i 1)), (proj2 (Z.ltb_lt 1 i)) by lia.
    destruct (common_extends w m (m2 :: ms) Hpre) as (s & Hlcp & -> & Hts).
    assert (0 < length w)%nat by (destruct w; simpl; [done | lia]).
    rewrite (proj2 (Nat.eqb_neq _ _)) by lia. cbn [negb andb last head mbind option_bind].
    replace (length w + length s - length w)%nat with (length s) by lia. rewrite Hts.
    destruct s as [|x s]; cbn [length Nat.ltb Nat.leb mbind option_bind].
    + eexists. split; [done|]. exists []. split; [done|]. by rewrite bool_decide_eq_true_2.
    + eexists. split; [|exists (x :: s); split; [done | rewrite bool_decide_eq_false_2 by done; reflexivity]].
      unfold insert. rewrite Nat.add_0_r, app_nil_r. cbn [length]. bcase; [done|]. zbool.
      rewrite (proj2 (Z.leb_gt _ _)) by lia. by rewrite bool_decide_eq_true_2.
Qed.

End completion.
(** ** The help list *)

Section help.
Context {St : Type}.
Implicit Types a b : list (cmd_tbl_s St).

Definition before_by_name (x y : cmd_tbl_s St) : Prop := HashExport.lex_le (name x) (name y) = true.
Definition ascii_names a : Prop := Forall (fun e => HashExport.ascii_str (name e)) a.

Lemma by_name_trans x y z : before_by_name x y -> before_by_name y z -> before_by_name x z.
Proof. apply HashExport.lex_le_trans. Qed.

Lemma strcmp_by_name x y : HashExport.ascii_str (name x) -> HashExport.ascii_str (name y) ->
  if 0 <? strcmp_str (name x) (name y) then before_by_name y x else before_by_name x y.
Proof.
  intros Hx Hy. pose proof (HashExport.strcmp_lex _ _ Hx Hy) as Hl. unfold before_by_name.
  destruct (0 <? strcmp_str (name x) (name y)) eqn:E; zbool.
  - destruct (HashExport.lex_le_total (name x) (name y)) as [Ht|Ht]; [|done]. rewrite Ht in Hl. lia.
  - rewrite <- Hl. lia.
Qed.

Lemma bubble_spec i : forall b s, length b = S i -> ascii_names b -> exists b' m k,
  bubble i (b ++ s) = (b' ++ m :: s, k) /\ b' ++ [m] ≡ₚ b /\ Forall (fun x => before_by_name x m) (b' ++ [m]) /\
  (k = O -> b' ++ [m] = b /\ StronglySorted before_by_name b).
Proof.
  induction i as [|i IH]; intros b s Hb Ha.
  - destruct b as [|m [|]]; try done. exists [], m, O. split; [by destruct s|]. split; [done|].
    split; [|repeat constructor]. apply Forall_singleton.
    by destruct (HashExport.lex_le_total (name m) (name m)).
  - destruct b as [|x [|y b]]; try done. apply Forall_cons in Ha as [Hx Ha]. apply Forall_cons in Ha as [Hy Ha].
    pose proof (strcmp_by_name x y Hx Hy) as Hxy. cbn [bubble app].
    destruct (0 <? strcmp_str (name x) (name y)).
    + destruct (IH (x :: b) s ltac:(simpl in *; lia) ltac:(by constructor)) as (b' & m & k & E & Hp & Hm & _).
      cbn [app] in E. rewrite E. exists (y :: b'), m, (S k). split; [done|]. split; [simpl; rewrite Hp; constructor|].
      split; [|done]. constructor; [|done]. apply (by_name_trans _ x); [done|].
      rewrite Forall_forall in Hm. apply Hm. rewrite Hp. set_solver.
    + destruct (IH (y :: b) s ltac:(simpl in *; lia) ltac:(by constructor)) as (b' & m & k & E & Hp & Hm & Hk).
      cbn [app] in E. rewrite E. exists (x :: b'), m, k. split; [done|]. split; [simpl; by rewrite Hp|].
      split.
      * constructor; [|done]. apply (by_name_trans _ y); [done|].
        rewrite Forall_forall in Hm. apply Hm. rewrite Hp. set_solver.
      * intros ->. destruct (Hk eq_refl) as [Hb' Hs]. cbn [app]. split; [by rewrite Hb'|].
        apply StronglySorted_cons. split; [|done]. apply StronglySorted_cons in Hs as [Hs _].
        constructor; [done|]. eapply Forall_impl; [exact Hs|]. intros z. by apply by_name_trans.
Qed.

(** The entries behind [b] are in place. *)
Lemma sort_commands_spec i : forall b s, length b = S i -> ascii_names b ->
  StronglySorted before_by_name s -> (forall x y, x ∈ b -> y ∈ s -> before_by_name x y) ->
  sort_commands i (b ++ s) ≡ₚ b ++ s /\ StronglySorted before_by_name (sort_commands i (b ++ s)).
Proof.
  induction i as [|i IH]; intros b s Hb Ha Hs Hbs.
  - destruct b as [|m [|]]; try done. split; [done|]. apply StronglySorted_cons. split; [|done].
    apply Forall_forall. intros y Hy. apply Hbs; set_solver.
  - cbn [sort_commands]. destruct (bubble_spec (S i) b s Hb Ha) as (b' & m & k & -> & Hp & Hm & Hk).
    destruct (Nat.eqb_spec k 0) as [->|_].
    + destruct (Hk eq_refl) as [<- Hsort]. rewrite <- app_assoc in *. split; [done|].
      change (m :: s) with ([m] ++ s). rewrite app_assoc. apply StronglySorted_app. split_and!; done.
    + assert (ascii_names (b' ++ [m])) as Ha' by (unfold ascii_names; by rewrite Hp).
      apply Forall_app in Ha' as [Ha' _].
      destruct (IH b' (m :: s)) as [HP HS].
      * apply Permutation_length in Hp. rewrite length_app in Hp. simpl in Hp. lia.
      * done.
      * apply StronglySorted_cons. split; [|done]. apply Forall_forall. intros y Hy. apply Hbs; [|done].
        rewrite <- Hp. set_solver.
      * intros x y Hx Hy. apply elem_of_cons in Hy as [->|Hy]; [|apply Hbs; [|done]; rewrite <- Hp; set_solver].
        rewrite Forall_forall in Hm. apply Hm. set_solver.
      * split; [|done]. rewrite HP, <- Hp, <- app_assoc. done.
Qed.

Definition has_usage (x : cmd_tbl_s St) : Prop := is_Some (usage x).

Lemma print_help_names a : print_help [] a = (0, map name (filter has_usage a)).
Proof.
  induction a as [|x a IH]; [done|]. cbn [print_help head tail]. simpl (default false None). cbv iota.
  rewrite IH, filter_cons. destruct (decide (has_usage x)) as [[u Hu]|Hn].
  - by rewrite Hu.
  - destruct (usage x) as [u|] eqn:E; [|done]. destruct Hn. by exists u.
Qed.

Lemma sorted_names a : StronglySorted before_by_name a ->
  StronglySorted (fun s t => HashExport.lex_le s t = true) (map name (filter has_usage a)).
Proof.
  induction a as [|x a IH]; intros Hs; [constructor|]. apply StronglySorted_cons in Hs as [Hx Hs].
  rewrite filter_cons. destruct (decide _); [|by apply IH]. cbn [map]. apply StronglySorted_cons. split; [|by apply IH].
  rewrite Forall_map. rewrite Forall_forall in *. intros y Hy. apply list_elem_of_filter in Hy as [_ Hy]. by apply Hx.
Qed.

(** Without arguments, help lists every command that has a usage text, once
    and in the order of the names (for ASCII names, and if ctrl-C is not
    pressed), and returns 0. *)
Theorem help_lists_sorted (table : list (cmd_tbl_s St)) arg : ascii_names table ->
  exists l, _do_help table [] [arg] = (0, l) /\
    l ≡ₚ map name (filter has_usage table) /\
    StronglySorted (fun s t => HashExport.lex_le s t = true) l.
Proof.
  intros Ha. unfold _do_help. cbn [length Nat.eqb]. rewrite print_help_names.
  eexists. split; [done|]. destruct table as [|x l]; [by split; [|constructor]|].
  destruct (sort_commands_spec (length l) (x :: l) [] eq_refl Ha) as [Hp Hs];
    [constructor | set_solver|]. rewrite app_nil_r in Hp, Hs.
  replace (length (x :: l) - 1)%nat with (length l) by (simpl; lia). split; [by rewrite Hp|].
  by apply sorted_names.
Qed.


End help.
(** ** Concrete tables and command lines *)

#[export] Instance map_console : Console (gmap bytes bytes) := {|
  getenv := fun st k => st !! k;
  clear_ctrlc := fun st => st;
  had_ctrlc := fun _ => false |}.

Definition returning (r : Z) : handler (gmap bytes bytes) := h_cmd (fun st _ _ => Some (r, st)).

Definition sample_table : list (cmd_tbl_s (gmap bytes bytes)) :=
  [mkCmd (str "run") 16 1 h_run (Some []) None;
   mkCmd (str "boot") 1 1 h_bootd (Some []) None;
   mkCmd (str "cp") 5 1 (returning 0) (Some []) None;
   mkCmd (str "cmp") 4 1 (returning 1) None None;
   mkCmd (str "printenv") 16 1 (returning 0) (Some []) (Some (fun _ _ _ => (1, [str "dir"])))].

Definition boot_table : list (cmd_tbl_s (gmap bytes bytes)) := tail sample_table.

Lemma sample_names : names_ok sample_table.
Proof. repeat constructor. Qed.

Lemma find_cmd_tbl_correct_witness :
  option_map name (find_cmd_tbl (Some (str "cp.b")) sample_table) = Some (str "cp") /\
  find_cmd_tbl (Some (str "c")) sample_table = None.
Proof.
  split; rewrite find_cmd_tbl_correct;
    first [reflexivity | exact sample_names | repeat constructor].
Defined.

Lemma bootd_terminates_witness :
  is_Some (run_command_depth boot_table 512 16 0 2 (Some (str "boot")) 0 {[str "bootcmd" := str "cp a b;boot"]}) /\
  run_command_depth boot_table 512 16 0 2 (Some (str "boot")) 0 {[str "bootcmd" := str "cp a b;boot"]} =
    Some (1, {[str "bootcmd" := str "cp a b;boot"]}).
Proof.
  split; [|vm_compute; reflexivity].
  apply bootd_terminates. repeat constructor; simpl; intros; by eexists.
Defined.

Lemma run_executes_variable_witness :
  run_command_depth sample_table 512 16 0 2 (Some (unwords [str "run"; str "x"])) 0 {[str "x" := str "cp a b"]} =
    Some (0, {[str "x" := str "cp a b"]}).
Proof.
  refine (eq_trans (run_executes_variable sample_table 512 16 0 1 (str "x") 0 _ _ _ _ _ _) _).
  - discriminate.
  - eexists. split; [reflexivity | split; [reflexivity | discriminate]].
  - split; [discriminate | repeat constructor; discriminate].
  - reflexivity.
  - repeat constructor.
  - vm_compute. reflexivity.
Defined.

Lemma auto_complete_word_witness : exists r,
  cmd_auto_complete sample_table 512 16 (str "# ") (str "# ") (str "pr") 2 4 [] = Some r /\
  completed 512 (str "pr") 2 4 [str "printenv"] r.
Proof.
  apply (auto_complete_word sample_table 512 16 (str "# ") (str "pr") 4 []).
  - by apply (bool_decide_unpack _).
  - discriminate.
  - repeat constructor.
  - by apply (bool_decide_unpack _).
  - by apply (bool_decide_unpack _).
  - repeat constructor.
  - reflexivity.
  - vm_compute. repeat constructor.
Defined.

Lemma help_lists_sorted_witness : exists l, _do_help sample_table [] [str "help"] = (0, l) /\
  l ≡ₚ [str "run"; str "boot"; str "cp"; str "printenv"] /\
  StronglySorted (fun s t => HashExport.lex_le s t = true) l.
Proof.
  refine (help_lists_sorted sample_table (str "help") _). repeat constructor.
Defined.

(** Completing "cp.b": the name is searched up to the dot, but the text to
    insert is taken behind the whole word, past the end of the name. *)
Theorem auto_complete_dot :
  cmd_auto_complete [mkCmd (str "cp") 5 1 (returning 0) None None] 512 16 [] [] (str "cp.b") 4 4 [] = None.
Proof. vm_compute. reflexivity. Qed.

(** Completing the next argument after a blank: the text to insert is taken
    behind as many characters as the previous word has. *)
Theorem auto_complete_argument :
  cmd_auto_complete sample_table 512 16 [] [] (str "printenv ") 9 9 [] = None.
Proof. vm_compute. reflexivity. Qed.

End Command.
