(* ===== verification/Shell.v ===== *)
(** * The environment commands (common/cmd_nvedit.c)

    The commands that change the environment, as entries of the command table
    of Command.v over the environment of Env.v: this file joins the two.  The
    class [Console], against which the command line is verified, gets its
    instance here.  [argv] includes the name of the command. *)

From S2P Require Import Prelude Ctype CString Hashtable HashExport Vsprintf Env Cli Command.

Module Shell.
Import CString Hashtable Env Command.

Record shell := mkShell {
  sh_env : genv;
  ctrlc_was_pressed : bool }.

Section shell.
Context `{Hooks} (default_environment : bytes).

(** A lookup that faults cannot happen in a well-formed table
    ([console_getenv] below). *)
#[export] Instance shell_console : Cli.Console shell := {|
  Cli.getenv := fun st k => default None (getenv default_environment (sh_env st) k);
  Cli.clear_ctrlc := fun st => mkShell (sh_env st) false;
  Cli.had_ctrlc := ctrlc_was_pressed |}.

(** A function on the environment as a command. *)
Definition lift (f : genv -> list bytes -> option (Z * genv)) (st : shell) (flag : Z) (argv : list bytes) :
    option (Z * shell) :=
  '(r, g) ← f (sh_env st) argv; Some (r, mkShell g (ctrlc_was_pressed st)).

Definition do_env_set (g : genv) (argv : list bytes) : option (Z * genv) :=
  if (length argv <? 2)%nat then Some (CMD_RET_USAGE, g) else _do_env_set g (tail argv).

(** [while (--argc > 0)] of [do_env_delete]. *)
Fixpoint delete_vars (g : genv) (env_flag : Z) (names : list bytes) (ret : Z) : option (Z * genv) :=
  match names with
  | [] => Some (ret, g)
  | name :: names =>
      '(rc, _, h) ← hdelete_r name (env_htab g) env_flag;
      delete_vars (set_htab g h) env_flag names (if rc =? 0 then 1 else ret)
  end.

Definition do_env_delete (g : genv) (argv : list bytes) : option (Z * genv) :=
  match set_options (tail argv) H_INTERACTIVE with
  | None => Some (CMD_RET_USAGE, g)
  | Some (names, env_flag) =>
      let g := mkG (env_htab g) (env_ready g) (env_valid g) (env_addr g) (env_id g + 1) in
      delete_vars g env_flag names 0
  end.

Definition do_env_exists (g : genv) (argv : list bytes) : option (Z * genv) :=
  match argv with
  | _ :: name :: _ =>
      r ← hsearch_r (mkENTRY (Some name) None None 0) FIND (env_htab g) 0;
      Some (match h_retval r with None => 1 | Some _ => 0 end, set_htab g (h_htab r))
  | _ => Some (CMD_RET_USAGE, g)
  end.

(** The options of [do_env_default]: [all] and what follows; [None] is the
    usage error.  The flag that "-f" sets is not used by the function. *)
Fixpoint default_options (arg : bytes) (all : bool) : option bool :=
  match arg with
  | [] => Some all
  | c :: arg =>
      if c =? 97 then default_options arg true
      else if c =? 102 then default_options arg all
      else None
  end.

Fixpoint default_args (argv : list bytes) (all : bool) : option (list bytes * bool) :=
  match argv with
  | (45 :: arg) :: argv => all ← default_options arg all; default_args argv all
  | _ => Some (argv, all)
  end.

(** [cmd_usage] returns 1. *)
Definition do_env_default (g : genv) (argv : list bytes) : option (Z * genv) :=
  match default_args (tail argv) false with
  | None => Some (1, g)
  | Some (vars, all) =>
      match all, vars with
      | true, [] =>
          g ← set_default_env default_environment g (Some (str "## Resetting to default environment" ++ [10]));
          Some (0, g)
      | false, _ :: _ => '(_, g) ← set_default_vars default_environment g vars; Some (0, g)
      | _, _ => Some (1, g)
      end
  end.

(** [readline] is what [cli_readline_into_buffer] leaves in the buffer, which
    held the value, or [None] when it returned a negative value; [cbsize] is
    the size of the buffer. *)
Definition do_env_edit (cbsize : Z) (readline : bytes -> option bytes) (g : genv) (argv : list bytes) :
    option (Z * genv) :=
  match argv with
  | _ :: name :: _ =>
      init_val ← getenv default_environment g name;
      let buffer := default [] init_val in
      if cbsize <=? Z.of_nat (length buffer) then None
      else
        match readline buffer with
        | None => Some (1, g)
        | Some buffer => setenv g name (Some buffer)
        end
  | _ => Some (CMD_RET_USAGE, g)
  end.

(** The subcommands of "env" that are modelled. *)
Definition cmd_env_sub (maxargs : Z) : list (cmd_tbl_s shell) :=
  [mkCmd (str "default") 1 0 (h_cmd (lift do_env_default)) (Some []) None;
   mkCmd (str "delete") maxargs 0 (h_cmd (lift do_env_delete)) (Some []) None;
   mkCmd (str "run") maxargs 1 h_run (Some []) None;
   mkCmd (str "set") maxargs 0 (h_cmd (lift do_env_set)) (Some []) None;
   mkCmd (str "exists") 2 0 (h_cmd (lift do_env_exists)) (Some []) None].

(** "env": drop the name and call the subcommand, without its argument check. *)
Definition do_env (run_command : option bytes -> Z -> shell -> option (Z * shell)) (maxargs : Z)
    (st : shell) (flag : Z) (argv : list bytes) : option (Z * shell) :=
  if (length argv <? 2)%nat then Some (CMD_RET_USAGE, st)
  else
    let argv := tail argv in
    match find_cmd_tbl (head argv) (cmd_env_sub maxargs) with
    | Some cp => cmd_call run_command cp flag argv st
    | None => Some (CMD_RET_USAGE, st)
    end.

End shell.
(** ** Commands on the environment *)

Section commands.
Context `{Hooks} (default_environment : bytes).
#[local] Existing Instance shell_console.

(** The environment of [st] is in its table and holds the variables [m]. *)
Definition holds_env (st : shell) (m : gmap bytes bytes) : Prop :=
  env_ready (sh_env st) = true /\ rep (env_htab (sh_env st)) m.

Lemma console_getenv st m k : holds_env st m -> cstr_ok k ->
  Cli.getenv (Console := shell_console default_environment) st k = m !! k.
Proof. intros [Hr Hrep] Hk. cbn. by rewrite (getenv_ready default_environment _ _ _ Hr Hrep Hk). Qed.

Lemma join_unwords ws : join_args ws = unwords ws.
Proof. induction ws as [|w [|w2 ws] IH]; [done | done|]. cbn [join_args unwords] in *. by rewrite IH. Qed.

Lemma unwords_cstr ws : Forall cstr_ok ws -> cstr_ok (unwords ws).
Proof.
  induction 1 as [|w ws Hw Hws IH]; [constructor|]. destruct ws as [|w2 ws]; [done|].
  apply Forall_app. split; [done|]. constructor; [done | exact IH].
Qed.

Section line.
Context (table : list (cmd_tbl_s shell)) (cbsize : Z) (nargs : nat) (before : Z).
Let run_at := run_command_depth (H := shell_console default_environment) table cbsize nargs before.

(** The entry of a command that is found by its name. *)
Definition bound (name : bytes) (argc : Z) (f : genv -> list bytes -> option (Z * genv)) : Prop :=
  exists e, find_cmd table (Some name) = Some e /\ cmd e = h_cmd (lift f) /\ argc <= maxargs e.

(** A line that is one such command with plain words. *)
Lemma run_bound_line depth name args f flag st :
  before <> 92 -> Forall plain_word (name :: args) -> (length (name :: args) <= nargs)%nat ->
  Z.of_nat (length (unwords (name :: args))) < cbsize ->
  bound name (Z.of_nat (length (name :: args))) f ->
  run_at (S depth) (Some (unwords (name :: args))) flag st =
    '(r, g) ← f (sh_env st) (name :: args); Some (if r =? 0 then 0 else 1, mkShell g false).
Proof.
  intros Hb Hws Hn Hlen (e & Hf & He & Hm). unfold run_at. cbn [run_command_depth]. unfold Cli.run_command.
  rewrite run_plain_line by done.
  unfold cmd_process. cbn [head]. rewrite Hf, He. cbv iota.
  rewrite (proj2 (Z.ltb_ge _ _)) by lia. change (CMD_RET_SUCCESS =? 0) with true. cbv iota zeta.
  unfold cmd_call. rewrite He. unfold lift. cbn [Cli.clear_ctrlc shell_console sh_env ctrlc_was_pressed].
  destruct (f (sh_env st) (name :: args)) as [[r g]|]; [|done]. cbn [mbind option_bind].
  cbn [Cli.had_ctrlc shell_console ctrlc_was_pressed]. rewrite orb_false_r. unfold cmd_usage.
  destruct (Z.eqb_spec r 0) as [->|Hr].
  - change (0 =? CMD_RET_USAGE) with false. cbn [negb Z.eqb]. by rewrite land_1.
  - destruct (r =? CMD_RET_USAGE); [done|]. by rewrite (proj2 (Z.eqb_neq _ _) Hr).
Qed.

(** C7: the command line, the command table and the environment together: the
    line "setenv k w1 ... wn" of plain words, with memory and a free slot, sets
    the variable [k] to the words joined by blanks and returns 0, after which
    the command line expands $k to that value and every other variable to what
    it was; or the change is refused, the result is 1 and no variable changed. *)
Theorem setenv_command depth st m k ws flag : before <> 92 -> holds_env st m -> settable k ->
  plain_word k -> Forall plain_word ws -> Forall cstr_ok ws -> ws <> [] ->
  bound (str "setenv") (Z.of_nat (length ws) + 2) do_env_set ->
  (length ws + 2 <= nargs)%nat -> Z.of_nat (length (unwords (str "setenv" :: k :: ws))) < cbsize ->
  (forall n, malloc_ok (env_htab (sh_env st)) n = true) ->
  consumed (env_htab (sh_env st)) < size (env_htab (sh_env st)) ->
  exists ret st', run_at (S depth) (Some (unwords (str "setenv" :: k :: ws))) flag st = Some (ret, st') /\
    (ret = 0 \/ ret = 1) /\ ctrlc_was_pressed st' = false /\
    let m' := if ret =? 0 then <[k := unwords ws]> m else m in
    holds_env st' m' /\ forall k', cstr_ok k' ->
      Cli.getenv (Console := shell_console default_environment) st' k' = m' !! k'.
Proof.
  intros Hb [Hr Hrep] Hk Hpk Hws Hcs Hne Hbd Hn Hlen Hmal Hfree.
  rewrite (run_bound_line _ _ _ do_env_set); [| done | | simpl; lia | done |].
  2: { repeat apply Forall_cons_2; try done. split; [discriminate|]. repeat constructor; discriminate. }
  2: { destruct Hbd as (e & ? & ? & ?). exists e. split_and!; [done.. | simpl; lia]. }
  unfold do_env_set. change (length (str "setenv" :: k :: ws) <? 2)%nat with false. cbv iota. cbn [tail].
  pose proof (do_env_set_values _ _ k ws Hr Hrep Hk) as Hset. rewrite join_unwords in Hset.
  apply Hset in Hmal; [|by apply unwords_cstr | done | done].
  destruct (set_outcome_getenv default_environment _ _ _ _ Hmal) as (ret & g' & -> & Hret & Hr' & Hrep' & _).
  cbn [mbind option_bind]. eexists _, _. split; [done|].
  assert ((if ret =? 0 then 0 else 1) = ret) as -> by (destruct Hret as [-> | ->]; done).
  split; [done|]. split; [done|]. split; [done|]. intros k' Hk'. by apply console_getenv.
Qed.

End line.

(** *** Deleting variables *)

Lemma hdelete_step h m k flag : rep h m -> cstr_ok k -> exists rc e h' m',
  hdelete_r k h flag = Some (rc, e, h') /\ rep h' m' /\
  (m' = delete k m \/ m' = m) /\ (rc <> 0 -> m' = delete k m).
Proof.
  intros Hrep Hk. pose proof (hdelete_spec h m k flag Hrep Hk) as Hd.
  assert (0 <> 0 -> m = delete k m) as H0 by done.
  destruct (m !! k) as [d|]; [|eauto 12].
  destruct Hd as (e & _ & _ & Hd). destruct (change_rejected _ _ _ _ _); [eauto 12|].
  destruct (callback_rejected _ _ _ _ _); [eauto 12|].
  destruct Hd as (h' & E & Hrep' & _). eauto 12.
Qed.

Lemma delete_vars_spec names flag : forall g m ret, rep (env_htab g) m -> Forall cstr_ok names ->
  exists ret' h' m', delete_vars g flag names ret = Some (ret', set_htab g h') /\ rep h' m' /\
    m' ⊆ m /\ foldr delete m names ⊆ m' /\ (ret' = 0 -> ret = 0 /\ m' = foldr delete m names).
Proof.
  induction names as [|k names IH]; intros g m ret Hrep Hn.
  - exists ret, (env_htab g), m. split; [by destruct g|]. auto.
  - apply Forall_cons in Hn as [Hk Hn]. cbn [delete_vars].
    destruct (hdelete_step _ _ k flag Hrep Hk) as (rc & e & h' & m1 & -> & Hrep1 & Hm1 & Hrc).
    cbn [mbind option_bind].
    destruct (IH (set_htab g h') m1 (if rc =? 0 then 1 else ret) Hrep1 Hn) as (ret' & h2 & m' & -> & Hrep' & Hs1 & Hs2 & H0).
    exists ret', h2, m'. split; [done|]. split; [done|].
    assert (m1 ⊆ m /\ delete k m ⊆ m1) as [Ha Hb].
    { destruct Hm1 as [-> | ->]; split; try done; apply delete_subseteq. }
    assert (foldr delete (delete k m) names = delete k (foldr delete m names)) as Hfold.
    { clear. induction names as [|a names IH]; [done|]. cbn [foldr]. rewrite IH. apply delete_delete. }
    cbn [foldr]. split; [by etrans|]. split.
    + rewrite <- Hfold. etrans; [|exact Hs2]. clear -Hb.
      induction names as [|a names IH]; [done|]. cbn [foldr]. by apply delete_mono.
    + intros ->. destruct (H0 eq_refl) as [Hret Hm']. destruct (Z.eqb_spec rc 0) as [->|Hne]; [done|].
      split; [done|]. by rewrite <- Hfold, Hm', (Hrc Hne).
Qed.

(** "env delete" removes variables and touches nothing else: afterwards the
    table holds at least the variables that were not named, with their values,
    and nothing it did not hold before; when the result is 0 exactly the named
    variables are gone. *)
Theorem env_delete_correct g m argv names flag : rep (env_htab g) m ->
  set_options (tail argv) H_INTERACTIVE = Some (names, flag) -> Forall cstr_ok names ->
  exists ret g' m', do_env_delete g argv = Some (ret, g') /\ rep (env_htab g') m' /\
    m' ⊆ m /\ foldr delete m names ⊆ m' /\ (ret = 0 -> m' = foldr delete m names).
Proof.
  intros Hrep Ho Hn. unfold do_env_delete. rewrite Ho. set (g1 := mkG _ _ _ _ _).
  destruct (delete_vars_spec names flag g1 m 0 Hrep Hn) as (ret & h' & m' & -> & Hrep' & H1 & H2 & H3).
  exists ret, (set_htab g1 h'), m'. split_and!; try done. intros Hr. by apply H3.
Qed.

End commands.
(** ** Concrete commands *)

Definition sample_shell : shell := mkShell five_env true.

Definition set_table : list (cmd_tbl_s shell) :=
  [mkCmd (str "setenv") 8 0 (h_cmd (lift (do_env_set (H := plain_hooks)))) (Some []) None].

Lemma setenv_command_witness : exists ret st',
  run_command_depth (H := shell_console (H := plain_hooks) []) set_table 512 8 0 1
    (Some (unwords [str "setenv"; str "b"; str "x"; str "y"])) 0 sample_shell = Some (ret, st') /\
  (ret = 0 \/ ret = 1) /\ ctrlc_was_pressed st' = false /\
  let m' := if ret =? 0 then <[str "b" := unwords [str "x"; str "y"]]> ∅ else ∅ in
  holds_env st' m' /\ forall k', cstr_ok k' ->
    Cli.getenv (Console := shell_console (H := plain_hooks) []) st' k' = m' !! k'.
Proof.
  apply (setenv_command (H := plain_hooks) [] set_table 512 8 0 0 sample_shell ∅ (str "b") [str "x"; str "y"] 0).
  - discriminate.
  - split; [reflexivity | exact five_rep].
  - exact five_settable.
  - split; [discriminate | repeat constructor; discriminate].
  - repeat constructor; discriminate.
  - repeat constructor.
  - discriminate.
  - eexists. split; [reflexivity | split; [reflexivity | discriminate]].
  - repeat constructor.
  - reflexivity.
  - done.
  - reflexivity.
Defined.

Lemma env_delete_correct_witness : exists ret g' m',
  do_env_delete (H := plain_hooks) five_env [str "delete"; str "-f"; str "b"] = Some (ret, g') /\
  rep (env_htab g') m' /\ m' ⊆ ∅ /\ foldr delete ∅ [str "b"] ⊆ m' /\ (ret = 0 -> m' = foldr delete ∅ [str "b"]).
Proof.
  apply (env_delete_correct (H := plain_hooks) five_env ∅ _ [str "b"] (Z.lor H_INTERACTIVE H_FORCE)).
  - exact five_rep.
  - reflexivity.
  - repeat constructor.
Defined.

(** "env default -f" is documented as the forced form; the flag it sets is
    passed on to nothing. *)
Theorem default_force_ignored `{Hooks} default_environment g args :
  do_env_default default_environment g (str "default" :: str "-f" :: args) =
  do_env_default default_environment g (str "default" :: args).
Proof. reflexivity. Qed.

End Shell.
