(* ===== verification/Digest.v ===== *)
(** * Message digests: the parts that the functions share
    (lib/sha1.c, lib/sha256.c, lib/md5.c)

    SHA-1, SHA-256 and MD5 cut a message into blocks of 64 bytes and fold them
    into a state with their compression function.  This file has the buffering
    of the context, which SHA-1 and SHA-256 share line by line, and the
    reference: padding the whole message and folding its blocks.  The
    compression function is a parameter here. *)

From S2P Require Import Prelude.

Module Digest.

(** ** Words and bytes *)

(** PUT_UINT32_BE: the four bytes of [n], most significant first. *)
Definition put_be32 (n : Z) : bytes :=
  [u8 (Z.shiftr n 24); u8 (Z.shiftr n 16); u8 (Z.shiftr n 8); u8 n].

(** GET_UINT32_BE at index [i] of [b]; a read outside is 0 (the buffers have
    64 bytes). *)
Definition byte_at (b : bytes) (i : nat) : Z := default 0 (b !! i).

Definition get_be32 (b : bytes) (i : nat) : Z :=
  Z.lor (Z.lor (Z.lor (Z.shiftl (byte_at b i) 24) (Z.shiftl (byte_at b (i + 1)) 16))
               (Z.shiftl (byte_at b (i + 2)) 8)) (byte_at b (i + 3)).

(** ** The context *)

Record context := mkCtx {
  total0 : Z;
  total1 : Z;
  state : list Z;
  buffer : bytes }.

(** [memcpy(buffer + left, input, n)] *)
Definition put (buf : bytes) (left_ : Z) (input : bytes) : bytes :=
  let l := Z.to_nat left_ in take l buf ++ input ++ drop (l + length input) buf.

Section context.
(** [w] is the width of the words of [total]. *)
Context (process : list Z -> bytes -> list Z) (w : Z).

(** [while (length >= 64)]; the input shrinks, so its length is enough fuel. *)
Fixpoint blocks_loop (fuel : nat) (st : list Z) (input : bytes) : list Z * bytes :=
  if (length input <? 64)%nat then (st, input)
  else match fuel with
       | O => (st, input)
       | S fuel => blocks_loop fuel (process st (take 64 input)) (drop 64 input)
       end.

Definition update (ctx : context) (input : bytes) : context :=
  let len := Z.of_nat (length input) in
  if len =? 0 then ctx
  else
    let left_ := Z.land (total0 ctx) 0x3F in
    let fill := 64 - left_ in
    let t0 := Z.land (wrap w (total0 ctx + len)) 0xFFFFFFFF in
    let t1 := if t0 <? len then wrap w (total1 ctx + 1) else total1 ctx in
    let '(st, buf, input, left_) :=
      if negb (left_ =? 0) && (fill <=? len) then
        let buf := put (buffer ctx) left_ (take (Z.to_nat fill) input) in
        (process (state ctx) buf, buf, drop (Z.to_nat fill) input, 0)
      else (state ctx, buffer ctx, input, left_) in
    let '(st, input) := blocks_loop (length input) st input in
    mkCtx t0 t1 st (match input with [] => buf | _ => put buf left_ input end).

Definition padding : bytes := 0x80 :: replicate 63 0.

(** The context after the padding and the length, without the output. *)
Definition finish (ctx : context) : context :=
  let high := wrap w (Z.lor (Z.shiftr (total0 ctx) 29) (wrap w (Z.shiftl (total1 ctx) 3))) in
  let low := wrap w (Z.shiftl (total0 ctx) 3) in
  let msglen := put_be32 high ++ put_be32 low in
  let last := Z.land (total0 ctx) 0x3F in
  let padn := if last <? 56 then 56 - last else 120 - last in
  update (update ctx (take (Z.to_nat padn) padding)) msglen.

(** The loop that feeds the watchdog between chunks; [fuel] bounds the number
    of chunks. *)
Fixpoint wd_loop (fuel : nat) (ctx : context) (input : bytes) (chunk_sz : nat) : option context :=
  match input with
  | [] => Some ctx
  | _ =>
      match fuel with
      | O => None
      | S fuel =>
          let chunk := Nat.min chunk_sz (length input) in
          wd_loop fuel (update ctx (take chunk input)) (drop chunk input) chunk_sz
      end
  end.

End context.

(** ** The reference *)

(** A number as [n] bytes, most significant or least significant first. *)
Fixpoint be_bytes (n : nat) (z : Z) : bytes :=
  match n with
  | O => []
  | S n => be_bytes n (z / 256) ++ [z mod 256]
  end.

Definition le_bytes (n : nat) (z : Z) : bytes := rev (be_bytes n z).

(** The message, a one bit, zeros and the length in bits, to a multiple of 64
    bytes. *)
Definition pad_with (len : bytes) (msg : bytes) : bytes :=
  msg ++ 0x80 :: replicate (Z.to_nat ((55 - Z.of_nat (length msg)) mod 64)) 0 ++ len.

Definition bit_length (msg : bytes) : Z := 8 * Z.of_nat (length msg).

(** The blocks of 64 bytes. *)
Fixpoint chunks (fuel : nat) (l : bytes) : list bytes :=
  match fuel with
  | O => []
  | S fuel => match l with [] => [] | _ => take 64 l :: chunks fuel (drop 64 l) end
  end.

Definition fold_blocks (compress : list Z -> bytes -> list Z) (iv : list Z) (padded : bytes) : list Z :=
  fold_left compress (chunks (length padded) padded) iv.

(** ** Lemmas *)

Definition block (b : bytes) : Prop := length b = 64%nat.

Lemma chunks_concat bs fuel : Forall block bs -> (length (concat bs) <= fuel)%nat -> chunks fuel (concat bs) = bs.
Proof.
  intros Hb. revert fuel; induction Hb as [|b bs Hb Hbs IH]; intros fuel Hf.
  - by destruct fuel.
  - cbn [concat] in *. unfold block in Hb. rewrite length_app, Hb in Hf. destruct fuel as [|fuel]; [lia|].
    cbn [chunks]. destruct (b ++ concat bs) eqn:E.
    { apply app_eq_nil in E as [-> _]. done. }
    rewrite <- E, <- Hb, take_app_length, drop_app_length, IH; [done | lia].
Qed.

Lemma fold_blocks_concat compress iv bs : Forall block bs ->
  fold_blocks compress iv (concat bs) = fold_left compress bs iv.
Proof. intros Hb. unfold fold_blocks. by rewrite chunks_concat. Qed.

Lemma length_be_bytes n z : length (be_bytes n z) = n.
Proof. revert z; induction n as [|n IH]; intros z; [done|]. cbn [be_bytes]. rewrite length_app, IH. simpl. lia. Qed.

(** The padded length. *)
Lemma length_pad len msg : length len = 8%nat -> exists k, length (pad_with len msg) = (64 * S k)%nat.
Proof.
  intros Hl. unfold pad_with. rewrite length_app. cbn [length]. rewrite length_app, length_replicate, Hl.
  set (n := length msg). pose proof (Z.mod_pos_bound (55 - Z.of_nat n) 64 ltac:(lia)).
  pose proof (Z.div_mod (55 - Z.of_nat n) 64 ltac:(lia)). set (q := (55 - Z.of_nat n) / 64) in *.
  exists (Z.to_nat (- q)). lia.
Qed.

Lemma length_blocks bs : Forall block bs -> exists k, length (concat bs) = (64 * k)%nat.
Proof.
  induction 1 as [|b bs Hb Hbs [k IH]]; [by exists O|]. exists (S k). cbn [concat].
  unfold block in Hb. rewrite length_app. lia.
Qed.

(** Any message is blocks and a rest. *)
Lemma split_blocks (l : bytes) : exists bs rest, l = concat bs ++ rest /\ Forall block bs /\ (length rest < 64)%nat.
Proof.
  remember (length l) as n eqn:Hn. revert l Hn; induction n as [n IH] using lt_wf_ind; intros l ->.
  destruct (decide (length l < 64)%nat) as [Hs|Hl]; [by exists [], l|].
  destruct (IH (length (drop 64 l)) ltac:(rewrite length_drop; lia) (drop 64 l) eq_refl) as (bs & r & E & Hb & Hr).
  exists (take 64 l :: bs), r. split; [|split; [|done]].
  - cbn [concat]. by rewrite <- app_assoc, <- E, take_drop.
  - constructor; [|done]. unfold block. rewrite length_take. lia.
Qed.

Section streaming.
Context (process : list Z -> bytes -> list Z) (iv : list Z).

Lemma blocks_loop_spec st input fuel : (length input <= fuel)%nat ->
  exists bs rest, input = concat bs ++ rest /\ Forall block bs /\ (length rest < 64)%nat /\
    blocks_loop process fuel st input = (fold_left process bs st, rest).
Proof.
  revert st input; induction fuel as [|fuel IH]; intros st input Hf.
  - exists [], input. cbn [blocks_loop]. rewrite (proj2 (Nat.ltb_lt _ _)) by lia. repeat split; [done | lia].
  - cbn [blocks_loop]. destruct (Nat.ltb_spec (length input) 64) as [Hs|Hl]; [by exists [], input|].
    destruct (IH (process st (take 64 input)) (drop 64 input)) as (bs & r & E & Hb & Hr & ->).
    { rewrite length_drop. lia. }
    exists (take 64 input :: bs), r. split; [|split; [|done]].
    + cbn [concat]. by rewrite <- app_assoc, <- E, take_drop.
    + constructor; [|done]. unfold block. rewrite length_take. lia.
Qed.

(** The state and the buffer after the message [msg]. *)
Definition absorbed (st : list Z) (buf msg : bytes) : Prop :=
  exists bs rest, msg = concat bs ++ rest /\ Forall block bs /\ (length rest < 64)%nat /\
    st = fold_left process bs iv /\ length buf = 64%nat /\ take (length rest) buf = rest.

Lemma absorbed_mod st buf msg : absorbed st buf msg ->
  exists bs rest, msg = concat bs ++ rest /\ Forall block bs /\ st = fold_left process bs iv /\
    length buf = 64%nat /\ take (length rest) buf = rest /\
    Z.of_nat (length rest) = Z.of_nat (length msg) mod 64.
Proof.
  intros (bs & rest & -> & Hb & Hr & -> & Hbuf & Ht). exists bs, rest. split_and!; try done.
  destruct (length_blocks bs Hb) as [k Hk].
  rewrite length_app, Hk. replace (Z.of_nat (64 * k + length rest)) with (Z.of_nat (length rest) + Z.of_nat k * 64) by lia.
  rewrite Z.mod_add, Z.mod_small by lia. done.
Qed.

Lemma length_put buf left_ input : (Z.to_nat left_ + length input <= length buf)%nat ->
  length (put buf left_ input) = length buf.
Proof. intros Hl. unfold put. rewrite !length_app, length_take, length_drop. lia. Qed.

Lemma take_put buf left_ input : (Z.to_nat left_ + length input <= length buf)%nat ->
  take (Z.to_nat left_ + length input) (put buf left_ input) = take (Z.to_nat left_) buf ++ input.
Proof.
  intros Hl. unfold put. rewrite app_assoc, take_app_length'; [done|].
  rewrite length_app, length_take. lia.
Qed.

(** Filling the buffer to a block. *)
Lemma absorb_fill buf rest input : length buf = 64%nat -> take (length rest) buf = rest ->
  (length rest + length input = 64)%nat -> put buf (Z.of_nat (length rest)) input = rest ++ input.
Proof.
  intros Hbuf Ht Hl. unfold put. rewrite Nat2Z.id, Ht. rewrite (drop_ge buf) by lia. by rewrite app_nil_r.
Qed.

(** Storing what is left_ of the input behind the rest. *)
Lemma absorb_store st buf msg left_ input : absorbed st buf msg -> left_ = Z.of_nat (length msg) mod 64 ->
  left_ + Z.of_nat (length input) < 64 -> absorbed st (put buf left_ input) (msg ++ input).
Proof.
  intros Ha -> Hl. apply absorbed_mod in Ha as (bs & rest & -> & Hb & -> & Hbuf & Ht & Hr).
  rewrite <- Hr in *. set (n := Z.of_nat (length rest)) in *.
  exists bs, (rest ++ input). rewrite length_app. split_and!; [by rewrite app_assoc | done | lia | done | |].
  - rewrite length_put; [done | lia].
  - replace (length rest) with (Z.to_nat n) by lia. rewrite take_put by lia. unfold n. by rewrite Nat2Z.id, Ht.
Qed.

(** Whole blocks, when nothing is waiting. *)
Lemma absorb_blocks st buf msg input fuel : absorbed st buf msg -> Z.of_nat (length msg) mod 64 = 0 ->
  (length input <= fuel)%nat ->
  exists st' bs rest, blocks_loop process fuel st input = (st', rest) /\ input = concat bs ++ rest /\
    (length rest < 64)%nat /\ Forall block bs /\ absorbed st' buf (msg ++ concat bs) /\
    Z.of_nat (length (msg ++ concat bs)) mod 64 = 0.
Proof.
  intros Ha Hm Hf. apply absorbed_mod in Ha as (bs & rest & -> & Hb & -> & Hbuf & Ht & Hr).
  rewrite Hm in Hr. destruct rest; [|simpl in Hr; lia]. rewrite app_nil_r in *.
  destruct (blocks_loop_spec (fold_left process bs iv) input fuel Hf) as (bs' & r & E & Hb' & Hr' & ->).
  eexists _, bs', r. split; [done|]. split; [done|]. split; [done|]. split; [done|].
  assert (absorbed (fold_left process bs' (fold_left process bs iv)) buf (concat bs ++ concat bs')) as Ha.
  { exists (bs ++ bs'), []. rewrite concat_app, app_nil_r, fold_left_app, Forall_app. split_and!; done || (simpl; lia). }
  split; [done|]. rewrite <- concat_app.
  destruct (length_blocks (bs ++ bs')) as [k ->]; [by apply Forall_app|].
  replace (Z.of_nat (64 * k)) with (Z.of_nat k * 64) by lia. apply Z.mod_mul. lia.
Qed.

End streaming.
Section counting.
Context (process : list Z -> bytes -> list Z) (iv : list Z) (w : Z) (Hw : 32 <= w).

(** The context after the message [msg]. *)
Definition tracks (ctx : context) (msg : bytes) : Prop :=
  absorbed process iv (state ctx) (buffer ctx) msg /\
  total0 ctx = Z.of_nat (length msg) mod 2 ^ 32 /\ total1 ctx = Z.of_nat (length msg) / 2 ^ 32.

Lemma land_63 n : Z.land (n mod 2 ^ 32) 0x3F = n mod 64.
Proof.
  change 0x3F with (Z.ones 6). rewrite Z.land_ones by lia. change (2 ^ 6) with 64.
  change (2 ^ 32) with (64 * 2 ^ 26). rewrite Z.rem_mul_r by lia.
  rewrite (Z.mul_comm 64), Z.mod_add, Z.mod_mod by lia. done.
Qed.

Lemma total_low n len : 0 <= n -> 0 <= len < 2 ^ 32 ->
  Z.land (wrap w (n mod 2 ^ 32 + len)) 0xFFFFFFFF = (n + len) mod 2 ^ 32.
Proof.
  intros Hn Hl. change 0xFFFFFFFF with (Z.ones 32). rewrite Z.land_ones by lia.
  unfold wrap. replace (2 ^ w) with (2 ^ 32 * 2 ^ (w - 32)) by (rewrite <- Z.pow_add_r by lia; f_equal; lia).
  rewrite Z.rem_mul_r by lia. rewrite (Z.mul_comm (2 ^ 32)), Z.mod_add, Z.mod_mod, Zplus_mod_idemp_l by lia. done.
Qed.

Lemma total_high n len : 0 <= n -> 0 < len < 2 ^ 32 -> n + len < 2 ^ 61 ->
  (if (n + len) mod 2 ^ 32 <? len then wrap w (n / 2 ^ 32 + 1) else n / 2 ^ 32) = (n + len) / 2 ^ 32.
Proof.
  intros Hn Hl Hb. pose proof (Z.div_mod n (2 ^ 32) ltac:(lia)). pose proof (Z.mod_pos_bound n (2 ^ 32) ltac:(lia)).
  set (q := n / 2 ^ 32) in *. set (r := n mod 2 ^ 32) in *.
  assert (0 <= q) by (apply Z.div_pos; lia).
  destruct (decide (r + len < 2 ^ 32)) as [Hs|Hc].
  - rewrite <- (Z.mod_unique (n + len) (2 ^ 32) q (r + len)), <- (Z.div_unique (n + len) (2 ^ 32) q (r + len)) by lia.
    by rewrite (proj2 (Z.ltb_ge _ _)) by lia.
  - rewrite <- (Z.mod_unique (n + len) (2 ^ 32) (q + 1) (r + len - 2 ^ 32)),
      <- (Z.div_unique (n + len) (2 ^ 32) (q + 1) (r + len - 2 ^ 32)) by lia.
    rewrite (proj2 (Z.ltb_lt _ _)) by lia. apply wrap_small.
    pose proof (Z.pow_le_mono_r 2 32 w ltac:(lia) Hw). lia.
Qed.

(** The waiting bytes and the start of the input make a block. *)
Lemma absorb_first ctx msg input left_ : absorbed process iv (state ctx) (buffer ctx) msg ->
  left_ = Z.of_nat (length msg) mod 64 -> Z.of_nat (length input) = 64 - left_ ->
  let buf := put (buffer ctx) left_ input in
  absorbed process iv (process (state ctx) buf) buf (msg ++ input) /\
  Z.of_nat (length (msg ++ input)) mod 64 = 0.
Proof.
  intros Ha -> Hi. cbv zeta. split.
  - apply absorbed_mod in Ha as (bs & rest & -> & Hb & -> & Hbuf & Ht & Hr). rewrite <- Hr in Hi |- *.
    rewrite absorb_fill by (done || lia). exists (bs ++ [rest ++ input]), [].
    rewrite concat_app, fold_left_app, !app_nil_r. cbn [concat fold_left]. rewrite app_nil_r, app_assoc.
    split_and!; [done | | simpl; lia | done | rewrite length_app; lia | done].
    apply Forall_app. split; [done|]. apply Forall_singleton. unfold block. rewrite length_app. lia.
  - rewrite length_app. pose proof (Z.div_mod (Z.of_nat (length msg)) 64 ltac:(lia)) as Hd.
    symmetry. apply (Z.mod_unique _ _ (Z.of_nat (length msg) / 64 + 1)); lia.
Qed.

(** The state and buffer part of [update]. *)
Lemma update_absorbs ctx msg input : absorbed process iv (state ctx) (buffer ctx) msg ->
  Z.land (total0 ctx) 0x3F = Z.of_nat (length msg) mod 64 ->
  absorbed process iv (state (update process w ctx input)) (buffer (update process w ctx input)) (msg ++ input).
Proof.
  intros Ha Hl. unfold update. set (len := Z.of_nat (length input)).
  destruct (Z.eqb_spec len 0) as [E|E].
  { destruct input; [by rewrite app_nil_r | unfold len in E; simpl in E; lia]. }
  rewrite Hl. pose proof (Z.mod_pos_bound (Z.of_nat (length msg)) 64 ltac:(lia)) as Hm.
  set (left_ := Z.of_nat (length msg) mod 64) in *. cbv zeta.
  destruct (Z.eqb_spec left_ 0) as [E0|E0]; [|destruct (Z.leb_spec (64 - left_) len) as [Hge|Hlt]]; cbn [negb andb].
  - destruct (absorb_blocks process iv _ _ _ input (length input) Ha E0 (le_n _))
      as (st' & bs & rest & -> & -> & Hr & Hb & Ha' & Hm').
    cbn [state buffer]. rewrite app_assoc. destruct rest as [|c rest]; [by rewrite app_nil_r|].
    rewrite E0. apply absorb_store; [done | by rewrite Hm' | lia].
  - set (f := Z.to_nat (64 - left_)). assert (length (take f input) = f) as Hf by (rewrite length_take; lia).
    destruct (absorb_first ctx msg (take f input) left_ Ha eq_refl ltac:(rewrite Hf; lia)) as [Ha1 Hm1].
    destruct (absorb_blocks process iv _ _ _ (drop f input) (length (drop f input)) Ha1 Hm1 (le_n _))
      as (st' & bs & rest & -> & Hd & Hr & Hb & Ha' & Hm').
    assert (msg ++ input = ((msg ++ take f input) ++ concat bs) ++ rest) as ->.
    { by rewrite <- app_assoc, <- Hd, <- app_assoc, take_drop. }
    cbn [state buffer]. destruct rest as [|c rest]; [by rewrite app_nil_r|].
    apply absorb_store; [done | by rewrite Hm' | lia].
  - destruct (blocks_loop_spec process (state ctx) input (length input) (le_n _)) as (bs & rest & E2 & Hb & Hr & Hloop).
    assert (bs = []) as ->.
    { destruct Hb as [|b bs Hb1 Hb]; [done|]. apply (f_equal length) in E2. unfold block in Hb1.
      cbn [concat] in E2. rewrite !length_app in E2. unfold len in Hlt. lia. }
    rewrite Hloop. cbn [concat app] in E2. subst rest. cbn [state buffer fold_left].
    destruct input as [|c input]; [unfold len in E; simpl in E; lia|].
    apply absorb_store; [done | done |]. unfold len in Hlt. lia.
Qed.

Lemma update_tracks ctx msg input : tracks ctx msg -> Z.of_nat (length input) < 2 ^ 32 ->
  Z.of_nat (length (msg ++ input)) < 2 ^ 61 -> tracks (update process w ctx input) (msg ++ input).
Proof.
  intros (Ha & H0 & H1) Hi Hm. split.
  - apply update_absorbs; [done|]. rewrite H0. apply land_63.
  - unfold update. rewrite length_app in *. destruct (Z.eqb_spec (Z.of_nat (length input)) 0) as [E|E].
    { rewrite H0, H1. by replace (length msg + length input)%nat with (length msg) by lia. }
    cbv zeta. destruct (negb _ && _); destruct (blocks_loop _ _ _ _) as [st' rest]; cbn [total0 total1];
      rewrite H0, H1, Nat2Z.inj_add, total_low, total_high by lia; done.
Qed.

End counting.
(** ** Lengths *)

Lemma be_bytes_app n k z : 0 <= z -> be_bytes (n + k) z = be_bytes n (z / 256 ^ Z.of_nat k) ++ be_bytes k z.
Proof.
  revert z; induction k as [|k IH]; intros z Hz.
  - rewrite Nat.add_0_r, app_nil_r. simpl. by rewrite Z.div_1_r.
  - rewrite Nat.add_succ_r. cbn [be_bytes]. rewrite IH by (apply Z.div_pos; lia).
    rewrite app_assoc. f_equal. f_equal. f_equal. rewrite Nat2Z.inj_succ, Z.pow_succ_r, Z.div_div by lia. done.
Qed.

Lemma be_bytes_mod n z : 0 <= z -> be_bytes n (z mod 256 ^ Z.of_nat n) = be_bytes n z.
Proof.
  revert z; induction n as [|n IH]; intros z Hz; [done|]. cbn [be_bytes].
  rewrite Nat2Z.inj_succ, Z.pow_succ_r by lia. rewrite Z.rem_mul_r by lia. f_equal.
  - rewrite <- (IH (z / 256)) by (apply Z.div_pos; lia). f_equal.
    rewrite (Z.mul_comm 256), Z.div_add by lia. rewrite (Z.div_small (z mod 256)) by (apply Z.mod_pos_bound; lia). lia.
  - by rewrite (Z.mul_comm 256), Z.mod_add, Z.mod_mod by lia.
Qed.

Lemma put_be32_bytes n : 0 <= n -> put_be32 n = be_bytes 4 n.
Proof.
  intros Hn. unfold put_be32, wrap. rewrite !Z.shiftr_div_pow2 by lia. cbn [be_bytes app].
  rewrite !Z.div_div by lia. done.
Qed.

Lemma shiftl_land_low a b k : 0 <= b < 2 ^ k -> 0 <= k -> Z.land (Z.shiftl a k) b = 0.
Proof.
  intros Hb Hk. apply Z.bits_inj'. intros i Hi. rewrite Z.land_spec, Z.bits_0.
  destruct (decide (i < k)) as [Hl|Hl]; [by rewrite Z.shiftl_spec_low|].
  rewrite <- (Z.mod_small b (2 ^ k)), (Z.mod_pow2_bits_high b k i) by lia. apply andb_false_r.
Qed.

Section finishing.
Context (process : list Z -> bytes -> list Z) (iv : list Z) (w : Z) (Hw : 32 <= w).

Lemma length_field n : 0 <= n < 2 ^ 61 ->
  put_be32 (wrap w (Z.lor (Z.shiftr (n mod 2 ^ 32) 29) (wrap w (Z.shiftl (n / 2 ^ 32) 3)))) ++
  put_be32 (wrap w (Z.shiftl (n mod 2 ^ 32) 3)) = be_bytes 8 (8 * n).
Proof.
  intros Hn. assert (2 ^ 32 <= 2 ^ w) as H32 by (by apply Z.pow_le_mono_r; lia).
  assert (0 <= n / 2 ^ 32 < 2 ^ 29) as Hq.
  { split; [apply Z.div_pos; lia | apply Z.div_lt_upper_bound; lia]. }
  pose proof (Z.mod_pos_bound n (2 ^ 32) ltac:(lia)) as Hr.
  rewrite Z.shiftr_div_pow2, !Z.shiftl_mul_pow2 by lia. rewrite (wrap_small w (n / 2 ^ 32 * 2 ^ 3)) by lia.
  assert (0 <= n mod 2 ^ 32 / 2 ^ 29 < 2 ^ 3) as Hh.
  { split; [apply Z.div_pos; lia | apply Z.div_lt_upper_bound; lia]. }
  rewrite Z.lor_comm, <- Z.add_nocarry_lor by (rewrite <- Z.shiftl_mul_pow2 by lia; apply shiftl_land_low; lia).
  rewrite wrap_small by lia. rewrite put_be32_bytes by lia.
  change (be_bytes 8 (8 * n)) with (be_bytes (4 + 4) (8 * n)). rewrite (be_bytes_app 4 4 (8 * n)) by lia. change (256 ^ Z.of_nat 4) with (2 ^ 32). f_equal.
  - f_equal. pose proof (Z.div_mod n (2 ^ 32) ltac:(lia)) as Hd.
    pose proof (Z.div_mod (n mod 2 ^ 32) (2 ^ 29) ltac:(lia)) as Hd2.
    pose proof (Z.mod_pos_bound (n mod 2 ^ 32) (2 ^ 29) ltac:(lia)).
    apply (Z.div_unique _ _ _ (8 * (n mod 2 ^ 32 mod 2 ^ 29))); lia.
  - rewrite put_be32_bytes by (apply wrap_range; lia). rewrite <- (be_bytes_mod 4) by (apply wrap_range; lia).
    rewrite <- (be_bytes_mod 4 (8 * n)) by lia. f_equal. change (256 ^ Z.of_nat 4) with (2 ^ 32). unfold wrap.
    replace (2 ^ w) with (2 ^ 32 * 2 ^ (w - 32)) by (rewrite <- Z.pow_add_r by lia; f_equal; lia).
    rewrite Z.rem_mul_r by lia. rewrite (Z.mul_comm (2 ^ 32)), Z.mod_add, Z.mod_mod by lia.
    rewrite Z.mul_comm. apply Zmult_mod_idemp_r.
Qed.

(** The padding bytes. *)
Lemma padding_bytes n : 0 <= n ->
  let last := n mod 64 in let padn := if last <? 56 then 56 - last else 120 - last in
  take (Z.to_nat padn) padding = 0x80 :: replicate (Z.to_nat ((55 - n) mod 64)) 0 /\ 0 < padn <= 64.
Proof.
  intros Hn. cbv zeta. pose proof (Z.mod_pos_bound n 64 ltac:(lia)) as Hr.
  pose proof (Z.div_mod n 64 ltac:(lia)) as Hd. set (l := n mod 64) in *. set (q := n / 64) in *.
  assert ((55 - n) mod 64 = (if l <? 56 then 56 - l else 120 - l) - 1) as ->.
  { destruct (Z.ltb_spec l 56); symmetry.
    - apply (Z.mod_unique _ _ (- q)); lia.
    - apply (Z.mod_unique _ _ (- q - 1)); lia. }
  set (p := if l <? 56 then _ else _). assert (0 < p <= 64) as Hp by (unfold p; destruct (Z.ltb_spec l 56); lia).
  split; [|done]. unfold padding. replace (Z.to_nat p) with (S (Z.to_nat (p - 1))) by lia.
  cbn [take]. f_equal. rewrite take_replicate. f_equal. lia.
Qed.

(** After [finish] the context has absorbed the padded message. *)
Lemma finish_tracks ctx msg : tracks process iv ctx msg -> Z.of_nat (length msg) < 2 ^ 61 - 128 ->
  tracks process iv (finish process w ctx) (pad_with (be_bytes 8 (bit_length msg)) msg).
Proof.
  intros Ht Hlen. pose proof Ht as (_ & H0 & H1). unfold finish. rewrite H0, H1, land_63.
  rewrite length_field by lia. destruct (padding_bytes (Z.of_nat (length msg)) ltac:(lia)) as [-> Hp].
  set (p := 0x80 :: _). assert (length p <= 64)%nat as Hpl.
  { unfold p. cbn [length]. rewrite length_replicate.
    pose proof (Z.mod_pos_bound (55 - Z.of_nat (length msg)) 64 ltac:(lia)). lia. }
  assert (pad_with (be_bytes 8 (bit_length msg)) msg = (msg ++ p) ++ be_bytes 8 (8 * Z.of_nat (length msg))) as ->.
  { unfold pad_with, p, bit_length. by rewrite <- app_assoc. }
  apply update_tracks; try done; rewrite ?length_app, ?length_be_bytes; try lia.
  apply update_tracks; try done; rewrite ?length_app; lia.
Qed.

Lemma finish_state ctx msg : tracks process iv ctx msg -> Z.of_nat (length msg) < 2 ^ 61 - 128 ->
  state (finish process w ctx) = fold_blocks process iv (pad_with (be_bytes 8 (bit_length msg)) msg) /\
  length (buffer (finish process w ctx)) = 64%nat.
Proof.
  intros Ht Hlen. destruct (finish_tracks ctx msg Ht Hlen) as (Ha & _ & _).
  apply absorbed_mod in Ha as (bs & rest & E & Hb & -> & Hbuf & _ & Hr). split; [|done].
  destruct (length_pad (be_bytes 8 (bit_length msg)) msg (length_be_bytes _ _)) as [k Hk].
  rewrite Hk in Hr. replace (Z.of_nat (64 * S k)) with (Z.of_nat (S k) * 64) in Hr by lia.
  rewrite Z.mod_mul in Hr by lia. destruct rest; [|simpl in Hr; lia]. rewrite app_nil_r in E.
  by rewrite E, fold_blocks_concat.
Qed.

Lemma wd_loop_tracks fuel ctx msg input chunk_sz : tracks process iv ctx msg -> (length input <= fuel)%nat ->
  0 < Z.of_nat chunk_sz < 2 ^ 32 -> Z.of_nat (length (msg ++ input)) < 2 ^ 61 ->
  exists ctx', wd_loop process w fuel ctx input chunk_sz = Some ctx' /\ tracks process iv ctx' (msg ++ input).
Proof.
  revert ctx msg input; induction fuel as [|fuel IH]; intros ctx msg input Ht Hf Hc Hl.
  - destruct input; [|simpl in Hf; lia]. rewrite app_nil_r. by exists ctx.
  - destruct (decide (input = [])) as [->|Hne]; [rewrite app_nil_r; by exists ctx|].
    assert (0 < length input)%nat by (destruct input; simpl; [done | lia]).
    set (k := Nat.min chunk_sz (length input)).
    destruct (IH (update process w ctx (take k input)) (msg ++ take k input) (drop k input)) as (ctx' & H1 & H2).
    + apply update_tracks; try done; rewrite ?length_app, length_take; rewrite ?length_app in Hl; lia.
    + rewrite length_drop. lia.
    + done.
    + by rewrite <- app_assoc, take_drop.
    + exists ctx'. rewrite <- app_assoc, take_drop in H2. split; [|done]. cbn [wd_loop]. by destruct input.
Qed.

End finishing.
(** ** From the code's compression to the reference *)

Lemma chunks_blocks bs : Forall block bs -> Forall (fun b => Forall byte_ok b) bs <-> Forall byte_ok (concat bs).
Proof.
  intros _. induction bs as [|b bs IH]; [done|]. cbn [concat]. by rewrite Forall_cons, Forall_app, IH.
Qed.

Lemma be_bytes_ok n z : Forall byte_ok (be_bytes n z).
Proof.
  revert z; induction n as [|n IH]; intros z; [constructor|]. cbn [be_bytes]. apply Forall_app. split; [done|].
  apply Forall_singleton. unfold byte_ok. apply Z.mod_pos_bound. lia.
Qed.

Lemma pad_ok len msg : Forall byte_ok len -> Forall byte_ok msg -> Forall byte_ok (pad_with len msg).
Proof.
  intros Hl Hm. unfold pad_with. apply Forall_app. split; [done|]. constructor; [unfold byte_ok; lia|].
  apply Forall_app. split; [|done]. apply Forall_replicate. unfold byte_ok. lia.
Qed.

(** Two compression functions that simulate each other on blocks of bytes. *)
Lemma fold_blocks_sim (R : list Z -> list Z -> Prop) f g iv iv' len msg :
  (forall st st' b, R st st' -> block b -> Forall byte_ok b -> R (f st b) (g st' b)) ->
  R iv iv' -> length len = 8%nat -> Forall byte_ok len -> Forall byte_ok msg ->
  R (fold_blocks f iv (pad_with len msg)) (fold_blocks g iv' (pad_with len msg)).
Proof.
  intros Hsim HR Hl Hlen Hm. pose proof (pad_ok len msg Hlen Hm) as Hok.
  destruct (length_pad len msg Hl) as [k Hk]. destruct (split_blocks (pad_with len msg)) as (bs & rest & E & Hb & Hr).
  destruct (length_blocks bs Hb) as [j Hj]. rewrite E, length_app in Hk.
  assert (rest = []) as -> by (destruct rest; [done | simpl in *; lia]). rewrite app_nil_r in E.
  rewrite E in *. rewrite !fold_blocks_concat by done. apply (chunks_blocks bs Hb) in Hok.
  clear -Hsim HR Hb Hok. revert iv iv' HR; induction Hb as [|b bs Hb1 Hb IH]; intros iv iv' HR; [done|].
  apply Forall_cons in Hok as [Hb0 Hok]. cbn [fold_left]. by apply IH; [|apply Hsim].
Qed.

(** *** Words *)

(** A big-endian number. *)
Definition be_word (l : bytes) : Z := fold_left (fun acc b => 256 * acc + b) l 0.

Lemma byte_at_ok b i : Forall byte_ok b -> byte_ok (byte_at b i).
Proof.
  intros Hb. unfold byte_at. destruct (b !! i) eqn:E; simpl; [by eapply Forall_lookup_1 in Hb|].
  unfold byte_ok. lia.
Qed.

Lemma lor_byte a b k : 0 <= k -> 0 <= b < 2 ^ k -> Z.lor (Z.shiftl a k) b = a * 2 ^ k + b.
Proof.
  intros Hk Hb. rewrite <- Z.add_nocarry_lor by (by apply shiftl_land_low). by rewrite Z.shiftl_mul_pow2.
Qed.

Lemma get_be32_word b i : Forall byte_ok b ->
  get_be32 b i = be_word [byte_at b i; byte_at b (i + 1); byte_at b (i + 2); byte_at b (i + 3)].
Proof.
  intros Hb. unfold get_be32, be_word. cbn [fold_left].
  pose proof (byte_at_ok b i Hb) as H0. pose proof (byte_at_ok b (i + 1) Hb) as H1.
  pose proof (byte_at_ok b (i + 2) Hb) as H2. pose proof (byte_at_ok b (i + 3) Hb) as H3. unfold byte_ok in *.
  rewrite <- !Z.lor_assoc.
  rewrite (lor_byte (byte_at b (i + 2)) (byte_at b (i + 3)) 8) by lia.
  rewrite (lor_byte (byte_at b (i + 1)) _ 16) by lia. rewrite (lor_byte (byte_at b i) _ 24) by lia. lia.
Qed.

Lemma be_word_range l : Forall byte_ok l -> 0 <= be_word l < 256 ^ Z.of_nat (length l).
Proof.
  intros Hl. unfold be_word. enough (forall acc n, 0 <= acc < 256 ^ Z.of_nat n ->
    0 <= fold_left (fun acc b => 256 * acc + b) l acc < 256 ^ Z.of_nat (n + length l)) as Hg
    by (apply (Hg 0 O); simpl; lia).
  induction Hl as [|b l Hb Hl IH]; intros acc n Ha; [by rewrite Nat.add_0_r|]. cbn [fold_left length].
  rewrite <- Nat.add_succ_comm. apply IH. rewrite Nat2Z.inj_succ, Z.pow_succ_r by lia. unfold byte_ok in Hb. lia.
Qed.

(** The sixteen words of a block. *)
Definition words_of (b : bytes) : list Z :=
  map (fun i => be_word [byte_at b (4 * i); byte_at b (4 * i + 1); byte_at b (4 * i + 2); byte_at b (4 * i + 3)])
    (seq 0 16).

Definition word32 (x : Z) : Prop := 0 <= x < 2 ^ 32.

Lemma words_of_range b : Forall byte_ok b -> Forall word32 (words_of b).
Proof.
  intros Hb. unfold words_of. apply Forall_map, Forall_true. intros i.
  apply (be_word_range [byte_at b (4 * i); byte_at b (4 * i + 1); byte_at b (4 * i + 2); byte_at b (4 * i + 3)]).
  repeat constructor; by apply byte_at_ok.
Qed.

(** *** Bit operations on 32-bit words *)

Lemma word32_bits x i : word32 x -> 32 <= i -> Z.testbit x i = false.
Proof. intros Hx Hi. rewrite <- (Z.mod_small x (2 ^ 32)) by exact Hx. apply Z.mod_pow2_bits_high. lia. Qed.

Lemma word32_of_bits x : 0 <= x -> (forall i, 32 <= i -> Z.testbit x i = false) -> word32 x.
Proof.
  intros Hx Hb. assert (x = x mod 2 ^ 32) as ->; [|apply Z.mod_pos_bound; lia].
  apply Z.bits_inj'. intros i Hi. destruct (decide (i < 32)).
  - by rewrite Z.mod_pow2_bits_low by lia.
  - rewrite Z.mod_pow2_bits_high by lia. apply Hb. lia.
Qed.

Lemma word32_lxor x y : word32 x -> word32 y -> word32 (Z.lxor x y).
Proof.
  intros Hx Hy. apply word32_of_bits.
  - apply Z.lxor_nonneg. unfold word32 in *. lia.
  - intros i Hi. by rewrite Z.lxor_spec, !word32_bits.
Qed.

Lemma word32_wrap x : word32 (u32 x).
Proof. apply wrap_range. lia. Qed.

(** A rotation of a 32-bit word, by arithmetic. *)
Definition rotr (n x : Z) : Z := x / 2 ^ n + x mod 2 ^ n * 2 ^ (32 - n).

Lemma rotr_range n x : 0 < n < 32 -> word32 x -> word32 (rotr n x).
Proof.
  intros Hn Hx. unfold rotr, word32 in *. pose proof (Z.mod_pos_bound x (2 ^ n) ltac:(lia)).
  assert (2 ^ 32 = 2 ^ n * 2 ^ (32 - n)) as E by (rewrite <- Z.pow_add_r by lia; f_equal; lia).
  assert (0 <= x / 2 ^ n < 2 ^ (32 - n)) by (split; [apply Z.div_pos; lia | apply Z.div_lt_upper_bound; lia]).
  nia.
Qed.

Lemma rotr_shifts n x : 0 < n < 32 -> word32 x ->
  Z.lor (Z.shiftr x n) (u32 (Z.shiftl x (32 - n))) = rotr n x.
Proof.
  intros Hn Hx. unfold rotr, wrap, word32 in *. rewrite Z.shiftr_div_pow2, Z.shiftl_mul_pow2 by lia.
  assert (2 ^ 32 = 2 ^ n * 2 ^ (32 - n)) as E by (rewrite <- Z.pow_add_r by lia; f_equal; lia).
  rewrite E, Zmult_mod_distr_r, Z.lor_comm, <- Z.shiftl_mul_pow2 by lia.
  assert (0 <= x / 2 ^ n < 2 ^ (32 - n)) by (split; [apply Z.div_pos; lia | apply Z.div_lt_upper_bound; lia]).
  rewrite lor_byte, Z.shiftl_mul_pow2 by lia. lia.
Qed.

(** *** Rounds and schedules *)

(** The values of the registers in their roles. *)
Definition view (p : list nat) (regs : list Z) : list Z := map (fun i => nth i regs 0) p.

Definition rotate (p : list nat) : list nat := List.last p O :: removelast p.

(** The registers of the rounds [rs] start with [p], rotate by one and end in
    order. *)
Fixpoint follows {K} (n : nat) (p : list nat) (rs : list (list nat * K)) : bool :=
  match rs with
  | [] => bool_decide (p = seq 0 n)
  | (q, _) :: rs => bool_decide (q = p) && follows n (rotate p) rs
  end.

Lemma drop_nth (s : list Z) t : (t < length s)%nat -> drop t s = nth t s 0 :: drop (S t) s.
Proof.
  revert t; induction s as [|x s IH]; intros [|t] Ht; simpl in *; try lia; [done|]. apply IH. lia.
Qed.

Lemma nth_word32 l i : Forall word32 l -> word32 (nth i l 0).
Proof.
  intros Hl. destruct (nth_in_or_default i l 0) as [Hi | ->]; [|unfold word32; lia].
  rewrite Forall_forall in Hl. apply Hl. by apply list_elem_of_In.
Qed.

Lemma length_words_of b : length (words_of b) = 16%nat.
Proof. unfold words_of. by rewrite length_map, length_seq. Qed.

Section schedule.
(** The recurrence of a message schedule. *)
Context (next : list Z -> Z).

Fixpoint extend (n : nat) (W : list Z) : list Z :=
  match n with
  | O => W
  | S n => extend n (W ++ [next W])
  end.

(** [s] extends [W] by the recurrence up to [n] words. *)
Definition extends (s W : list Z) (n : nat) : Prop :=
  length s = n /\ Forall word32 s /\ take (length W) s = W /\
  forall t, (length W <= t < n)%nat -> nth t s 0 = next (take t s).

Context (Hnext : forall W, Forall word32 W -> word32 (next W)).

Lemma extend_spec n W : Forall word32 W -> extends (extend n W) W (length W + n).
Proof.
  revert W; induction n as [|n IH]; intros W Hw; cbn [extend].
  - rewrite Nat.add_0_r. split_and!; [done | done | apply firstn_all | intros; lia].
  - destruct (IH (W ++ [next W])) as (Hl & Hf & Ht & Hn).
    { apply Forall_app. split; [done|]. apply Forall_singleton. by apply Hnext. }
    rewrite length_app in Hl, Ht, Hn. cbn [length] in Hl, Ht, Hn. set (s := extend n _) in *.
    assert (take (length W) s = W) as HW.
    { replace (length W) with (Nat.min (length W) (length W + 1)) by lia.
      rewrite <- take_take, Ht. apply take_app_length. }
    split_and!; [lia | done | done |]. intros t Hr. destruct (decide (t = length W)) as [->|Hne]; [|apply Hn; lia].
    rewrite HW. replace s with ((W ++ [next W]) ++ drop (length W + 1) s) at 1
      by (rewrite <- Ht at 1; apply take_drop).
    rewrite <- app_assoc. apply nth_middle.
Qed.

End schedule.

End Digest.
