(* ===== verification/Sha256.v ===== *)
(** * SHA-256 (lib/sha256.c)

    The implementation with its macros, its table of rounds with the registers
    in rotating roles and its message schedule computed on the way, and the
    algorithm of FIPS 180-2 as the reference.  Words are 32 bits ([uint32_t]).
    The buffering of the context is in Digest.v. *)

From S2P Require Import Prelude Digest.

Module Sha256.
Import Digest.

(** ** The implementation *)

Definition sha256_starts (buf : bytes) : context :=
  mkCtx 0 0 [0x6A09E667; 0xBB67AE85; 0x3C6EF372; 0xA54FF53A; 0x510E527F; 0x9B05688C; 0x1F83D9AB; 0x5BE0CD19] buf.

Definition SHR (x n : Z) : Z := Z.shiftr (Z.land x 0xFFFFFFFF) n.
Definition ROTR (x n : Z) : Z := Z.lor (SHR x n) (u32 (Z.shiftl x (32 - n))).

Definition S0 (x : Z) : Z := Z.lxor (Z.lxor (ROTR x 7) (ROTR x 18)) (SHR x 3).
Definition S1 (x : Z) : Z := Z.lxor (Z.lxor (ROTR x 17) (ROTR x 19)) (SHR x 10).
Definition S2 (x : Z) : Z := Z.lxor (Z.lxor (ROTR x 2) (ROTR x 13)) (ROTR x 22).
Definition S3 (x : Z) : Z := Z.lxor (Z.lxor (ROTR x 6) (ROTR x 11)) (ROTR x 25).

Definition F0 (x y z : Z) : Z := Z.lor (Z.land x y) (Z.land z (Z.lor x y)).
Definition F1 (x y z : Z) : Z := Z.lxor z (Z.land x (Z.lxor y z)).

(** [W] holds the entries computed so far: [W[t]] is appended. *)
Definition R (W : list Z) (t : nat) : Z :=
  u32 (S1 (nth (t - 2) W 0) + nth (t - 7) W 0 + S0 (nth (t - 15) W 0) + nth (t - 16) W 0).

(** One round; [p] gives the registers that play the roles of [a] to [h]. *)
Definition P (regs : list Z) (p : list nat) (x K : Z) : list Z :=
  let r i := nth (nth i p 0%nat) regs 0 in
  let temp1 := u32 (r 7%nat + S3 (r 4%nat) + F1 (r 4%nat) (r 5%nat) (r 6%nat) + K + x) in
  let temp2 := u32 (S2 (r 0%nat) + F0 (r 0%nat) (r 1%nat) (r 2%nat)) in
  <[nth 7 p 0%nat := u32 (temp1 + temp2)]> (<[nth 3 p 0%nat := u32 (r 3%nat + temp1)]> regs).

(** The rounds: the registers ([A] is 0) and the constant of each. *)
Definition rounds : list (list nat * Z) :=
  [([0; 1; 2; 3; 4; 5; 6; 7]%nat, 0x428A2F98);
   ([7; 0; 1; 2; 3; 4; 5; 6]%nat, 0x71374491);
   ([6; 7; 0; 1; 2; 3; 4; 5]%nat, 0xB5C0FBCF);
   ([5; 6; 7; 0; 1; 2; 3; 4]%nat, 0xE9B5DBA5);
   ([4; 5; 6; 7; 0; 1; 2; 3]%nat, 0x3956C25B);
   ([3; 4; 5; 6; 7; 0; 1; 2]%nat, 0x59F111F1);
   ([2; 3; 4; 5; 6; 7; 0; 1]%nat, 0x923F82A4);
   ([1; 2; 3; 4; 5; 6; 7; 0]%nat, 0xAB1C5ED5);
   ([0; 1; 2; 3; 4; 5; 6; 7]%nat, 0xD807AA98);
   ([7; 0; 1; 2; 3; 4; 5; 6]%nat, 0x12835B01);
   ([6; 7; 0; 1; 2; 3; 4; 5]%nat, 0x243185BE);
   ([5; 6; 7; 0; 1; 2; 3; 4]%nat, 0x550C7DC3);
   ([4; 5; 6; 7; 0; 1; 2; 3]%nat, 0x72BE5D74);
   ([3; 4; 5; 6; 7; 0; 1; 2]%nat, 0x80DEB1FE);
   ([2; 3; 4; 5; 6; 7; 0; 1]%nat, 0x9BDC06A7);
   ([1; 2; 3; 4; 5; 6; 7; 0]%nat, 0xC19BF174);
   ([0; 1; 2; 3; 4; 5; 6; 7]%nat, 0xE49B69C1);
   ([7; 0; 1; 2; 3; 4; 5; 6]%nat, 0xEFBE4786);
   ([6; 7; 0; 1; 2; 3; 4; 5]%nat, 0x0FC19DC6);
   ([5; 6; 7; 0; 1; 2; 3; 4]%nat, 0x240CA1CC);
   ([4; 5; 6; 7; 0; 1; 2; 3]%nat, 0x2DE92C6F);
   ([3; 4; 5; 6; 7; 0; 1; 2]%nat, 0x4A7484AA);
   ([2; 3; 4; 5; 6; 7; 0; 1]%nat, 0x5CB0A9DC);
   ([1; 2; 3; 4; 5; 6; 7; 0]%nat, 0x76F988DA);
   ([0; 1; 2; 3; 4; 5; 6; 7]%nat, 0x983E5152);
   ([7; 0; 1; 2; 3; 4; 5; 6]%nat, 0xA831C66D);
   ([6; 7; 0; 1; 2; 3; 4; 5]%nat, 0xB00327C8);
   ([5; 6; 7; 0; 1; 2; 3; 4]%nat, 0xBF597FC7);
   ([4; 5; 6; 7; 0; 1; 2; 3]%nat, 0xC6E00BF3);
   ([3; 4; 5; 6; 7; 0; 1; 2]%nat, 0xD5A79147);
   ([2; 3; 4; 5; 6; 7; 0; 1]%nat, 0x06CA6351);
   ([1; 2; 3; 4; 5; 6; 7; 0]%nat, 0x14292967);
   ([0; 1; 2; 3; 4; 5; 6; 7]%nat, 0x27B70A85);
   ([7; 0; 1; 2; 3; 4; 5; 6]%nat, 0x2E1B2138);
   ([6; 7; 0; 1; 2; 3; 4; 5]%nat, 0x4D2C6DFC);
   ([5; 6; 7; 0; 1; 2; 3; 4]%nat, 0x53380D13);
   ([4; 5; 6; 7; 0; 1; 2; 3]%nat, 0x650A7354);
   ([3; 4; 5; 6; 7; 0; 1; 2]%nat, 0x766A0ABB);
   ([2; 3; 4; 5; 6; 7; 0; 1]%nat, 0x81C2C92E);
   ([1; 2; 3; 4; 5; 6; 7; 0]%nat, 0x92722C85);
   ([0; 1; 2; 3; 4; 5; 6; 7]%nat, 0xA2BFE8A1);
   ([7; 0; 1; 2; 3; 4; 5; 6]%nat, 0xA81A664B);
   ([6; 7; 0; 1; 2; 3; 4; 5]%nat, 0xC24B8B70);
   ([5; 6; 7; 0; 1; 2; 3; 4]%nat, 0xC76C51A3);
   ([4; 5; 6; 7; 0; 1; 2; 3]%nat, 0xD192E819);
   ([3; 4; 5; 6; 7; 0; 1; 2]%nat, 0xD6990624);
   ([2; 3; 4; 5; 6; 7; 0; 1]%nat, 0xF40E3585);
   ([1; 2; 3; 4; 5; 6; 7; 0]%nat, 0x106AA070);
   ([0; 1; 2; 3; 4; 5; 6; 7]%nat, 0x19A4C116);
   ([7; 0; 1; 2; 3; 4; 5; 6]%nat, 0x1E376C08);
   ([6; 7; 0; 1; 2; 3; 4; 5]%nat, 0x2748774C);
   ([5; 6; 7; 0; 1; 2; 3; 4]%nat, 0x34B0BCB5);
   ([4; 5; 6; 7; 0; 1; 2; 3]%nat, 0x391C0CB3);
   ([3; 4; 5; 6; 7; 0; 1; 2]%nat, 0x4ED8AA4A);
   ([2; 3; 4; 5; 6; 7; 0; 1]%nat, 0x5B9CCA4F);
   ([1; 2; 3; 4; 5; 6; 7; 0]%nat, 0x682E6FF3);
   ([0; 1; 2; 3; 4; 5; 6; 7]%nat, 0x748F82EE);
   ([7; 0; 1; 2; 3; 4; 5; 6]%nat, 0x78A5636F);
   ([6; 7; 0; 1; 2; 3; 4; 5]%nat, 0x84C87814);
   ([5; 6; 7; 0; 1; 2; 3; 4]%nat, 0x8CC70208);
   ([4; 5; 6; 7; 0; 1; 2; 3]%nat, 0x90BEFFFA);
   ([3; 4; 5; 6; 7; 0; 1; 2]%nat, 0xA4506CEB);
   ([2; 3; 4; 5; 6; 7; 0; 1]%nat, 0xBEF9A3F7);
   ([1; 2; 3; 4; 5; 6; 7; 0]%nat, 0xC67178F2)].

(** The rounds from number [t] on. *)
Fixpoint run_rounds (rs : list (list nat * Z)) (t : nat) (regs W : list Z) : list Z :=
  match rs with
  | [] => regs
  | (p, K) :: rs =>
      if (t <? 16)%nat then run_rounds rs (S t) (P regs p (nth t W 0) K) W
      else
        let x := R W t in
        run_rounds rs (S t) (P regs p x K) (W ++ [x])
  end.

Definition sha256_process (st : list Z) (data : bytes) : list Z :=
  let W := map (fun i => get_be32 data (4 * i)) (seq 0 16) in
  let regs := run_rounds rounds 0 st W in
  zip_with (fun s r => u32 (s + r)) st regs.

Definition sha256_update (ctx : context) (input : bytes) : context := update sha256_process 32 ctx input.

Definition sha256_finish (ctx : context) : bytes :=
  concat (map put_be32 (state (finish sha256_process 32 ctx))).

(** Without and with a watchdog; [buf] is what the buffer of the context on the
    stack holds. *)
Definition sha256_csum_wd (watchdog : bool) (buf input : bytes) (chunk_sz : nat) : option bytes :=
  let ctx := sha256_starts buf in
  ctx ← (if watchdog then wd_loop sha256_process 32 (length input) ctx input chunk_sz
         else Some (sha256_update ctx input));
  Some (sha256_finish ctx).

(** ** FIPS 180-2 *)

Definition Ch (x y z : Z) : Z := Z.lxor (Z.land x y) (Z.land (lnotw 32 x) z).
Definition Maj (x y z : Z) : Z := Z.lxor (Z.lxor (Z.land x y) (Z.land x z)) (Z.land y z).
Definition Sigma0 (x : Z) : Z := Z.lxor (Z.lxor (rotr 2 x) (rotr 13 x)) (rotr 22 x).
Definition Sigma1 (x : Z) : Z := Z.lxor (Z.lxor (rotr 6 x) (rotr 11 x)) (rotr 25 x).
Definition sigma0 (x : Z) : Z := Z.lxor (Z.lxor (rotr 7 x) (rotr 18 x)) (x / 2 ^ 3).
Definition sigma1 (x : Z) : Z := Z.lxor (Z.lxor (rotr 17 x) (rotr 19 x)) (x / 2 ^ 10).

(** The first 64 primes; the constants are the first 32 bits of the fractional
    parts of their cube roots, the initial state those of the square roots of
    the first eight. *)
Definition primes : list Z :=
  [2; 3; 5; 7; 11; 13; 17; 19; 23; 29; 31; 37; 41; 43; 47; 53; 59; 61; 67; 71; 73; 79; 83; 89; 97; 101; 103; 107;
   109; 113; 127; 131; 137; 139; 149; 151; 157; 163; 167; 173; 179; 181; 191; 193; 197; 199; 211; 223; 227; 229;
   233; 239; 241; 251; 257; 263; 269; 271; 277; 281; 283; 293; 307; 311].

(** The integer cube root below 2^n, bit by bit. *)
Fixpoint cube_root (n : nat) (r x : Z) : Z :=
  match n with
  | O => r
  | S n => let r' := r + 2 ^ Z.of_nat n in cube_root n (if r' ^ 3 <=? x then r' else r) x
  end.

Definition constants : list Z := map (fun p => cube_root 36 0 (p * 2 ^ 96) mod 2 ^ 32) primes.

Definition H0 : list Z := map (fun p => Z.sqrt (p * 2 ^ 64) mod 2 ^ 32) (take 8 primes).

(** The next word of the message schedule. *)
Definition next_word (W : list Z) : Z :=
  let t := length W in
  (sigma1 (nth (t - 2) W 0) + nth (t - 7) W 0 + sigma0 (nth (t - 15) W 0) + nth (t - 16) W 0) mod 2 ^ 32.

Definition schedule (b : bytes) : list Z := extend next_word 48 (words_of b).

Definition round (s : list Z) (w K : Z) : list Z :=
  match s with
  | [a; b; c; d; e; f; g; h] =>
      let T1 := (h + Sigma1 e + Ch e f g + K + w) mod 2 ^ 32 in
      let T2 := (Sigma0 a + Maj a b c) mod 2 ^ 32 in
      [(T1 + T2) mod 2 ^ 32; a; b; c; (d + T1) mod 2 ^ 32; e; f; g]
  | _ => s
  end.

Fixpoint all_rounds (s : list Z) (Ws Ks : list Z) : list Z :=
  match Ws, Ks with
  | w :: Ws, K :: Ks => all_rounds (round s w K) Ws Ks
  | _, _ => s
  end.

Definition compress (H : list Z) (b : bytes) : list Z :=
  zip_with (fun x y => (x + y) mod 2 ^ 32) H (all_rounds H (schedule b) constants).

Definition sha256 (msg : bytes) : bytes :=
  concat (map (be_bytes 4) (fold_blocks compress H0 (pad_with (be_bytes 8 (bit_length msg)) msg))).

(** The tables of the code are the constants of the standard. *)
Lemma rounds_constants : map snd rounds = constants.
Proof. vm_compute. reflexivity. Qed.

Lemma starts_H0 buf : state (sha256_starts buf) = H0.
Proof. vm_compute. reflexivity. Qed.
(** ** The functions *)

Lemma SHR_div x n : word32 x -> 0 <= n -> SHR x n = x / 2 ^ n.
Proof.
  intros Hx Hn. unfold SHR. change 0xFFFFFFFF with (Z.ones 32).
  by rewrite Z.land_ones, Z.mod_small, Z.shiftr_div_pow2 by (exact Hx || lia).
Qed.

Lemma ROTR_rotr x n : word32 x -> 0 < n < 32 -> ROTR x n = rotr n x.
Proof.
  intros Hx Hn. unfold ROTR. rewrite SHR_div, <- Z.shiftr_div_pow2 by (done || lia). by apply rotr_shifts.
Qed.

Lemma sigma_eq x : word32 x -> S0 x = sigma0 x /\ S1 x = sigma1 x /\ S2 x = Sigma0 x /\ S3 x = Sigma1 x.
Proof.
  intros Hx. unfold S0, S1, S2, S3, sigma0, sigma1, Sigma0, Sigma1.
  rewrite !ROTR_rotr, !SHR_div by (done || lia). done.
Qed.

Lemma Ch_eq x y z : word32 z -> F1 x y z = Ch x y z.
Proof.
  intros Hz. apply Z.bits_inj'. intros i Hi. unfold F1, Ch, lnotw, wrap.
  rewrite !Z.lxor_spec, !Z.land_spec, Z.lxor_spec. destruct (decide (i < 32)).
  - rewrite Z.mod_pow2_bits_low, Z.lnot_spec by lia. by destruct (Z.testbit x i), (Z.testbit y i), (Z.testbit z i).
  - rewrite (word32_bits z i) by (done || lia). rewrite Z.mod_pow2_bits_high by lia.
    by destruct (Z.testbit x i), (Z.testbit y i).
Qed.

Lemma Maj_eq x y z : F0 x y z = Maj x y z.
Proof.
  apply Z.bits_inj'. intros i Hi. unfold F0, Maj.
  rewrite Z.lor_spec, !Z.lxor_spec, !Z.land_spec, Z.lor_spec.
  by destruct (Z.testbit x i), (Z.testbit y i), (Z.testbit z i).
Qed.

(** ** The rounds *)

Definition rotations : list (list nat) :=
  [[0; 1; 2; 3; 4; 5; 6; 7]; [7; 0; 1; 2; 3; 4; 5; 6]; [6; 7; 0; 1; 2; 3; 4; 5]; [5; 6; 7; 0; 1; 2; 3; 4];
   [4; 5; 6; 7; 0; 1; 2; 3]; [3; 4; 5; 6; 7; 0; 1; 2]; [2; 3; 4; 5; 6; 7; 0; 1]; [1; 2; 3; 4; 5; 6; 7; 0]]%nat.

Lemma sha256_rotate_rotations p : p ∈ rotations -> rotate p ∈ rotations.
Proof.
  intros Hp. unfold rotations in Hp. repeat (apply elem_of_cons in Hp as [->|Hp]; [vm_compute; set_solver|]).
  by apply not_elem_of_nil in Hp.
Qed.

(** A list of eight words. *)
Definition words8 (l : list Z) : Prop := length l = 8%nat /\ Forall word32 l.

Lemma words8_inv l : words8 l -> exists a b c d e f g h, l = [a; b; c; d; e; f; g; h] /\
  (word32 a /\ word32 b /\ word32 c /\ word32 d) /\ (word32 e /\ word32 f /\ word32 g /\ word32 h).
Proof.
  intros [Hl Hf]. do 9 (destruct l as [|? l]; try done). repeat (apply Forall_cons in Hf as [? Hf]).
  eexists _, _, _, _, _, _, _, _. split; [reflexivity | done].
Qed.

(** [round] with the functions of the code. *)
Lemma sha256_P_round p regs x K : p ∈ rotations -> words8 regs ->
  words8 (P regs p x K) /\ words8 (view p regs) /\ view (rotate p) (P regs p x K) = round (view p regs) x K.
Proof.
  intros Hp (a & b & c & d & e & f & g & h & -> & (?&?&?&?) & (?&?&?&?))%words8_inv. unfold rotations in Hp.
  pose proof word32_wrap as Hw.
  repeat (apply elem_of_cons in Hp as [->|Hp]; [|]); [.. | by apply not_elem_of_nil in Hp].
  all: split; [split; [reflexivity | repeat apply Forall_cons_2; try apply Forall_nil_2; first [assumption | apply Hw]]|].
  all: split; [split; [reflexivity | repeat apply Forall_cons_2; try apply Forall_nil_2; assumption]|].
  all: unfold view; cbn [map nth round]; rewrite <- !Ch_eq, <- !Maj_eq by assumption.
  all: match goal with |- context [Sigma1 ?e] => rewrite <- (proj2 (proj2 (proj2 (sigma_eq e ltac:(assumption))))) end.
  all: match goal with |- context [Sigma0 ?a] => rewrite <- (proj1 (proj2 (proj2 (sigma_eq a ltac:(assumption))))) end.
  all: reflexivity.
Qed.
(** *** The message schedule *)

Lemma sha256_R_next W : Forall word32 W -> R W (length W) = next_word W.
Proof.
  intros Hw. unfold R, next_word, wrap.
  rewrite (proj1 (proj2 (sigma_eq _ (nth_word32 W _ Hw)))), (proj1 (sigma_eq _ (nth_word32 W _ Hw))). done.
Qed.

(** The words that the code has computed before round [t]. *)
Lemma sha256_run_rounds_spec s W16 rs : forall t p regs, length W16 = 16%nat -> extends next_word s W16 (t + length rs) ->
  follows 8 p rs = true -> p ∈ rotations -> words8 regs ->
  run_rounds rs t regs (take (Nat.max 16 t) s) = all_rounds (view p regs) (drop t s) (map snd rs) /\
  words8 (run_rounds rs t regs (take (Nat.max 16 t) s)).
Proof.
  induction rs as [|[q K] rs IH]; intros t p regs H16 He Hf Hp Hr; cbn [follows run_rounds map snd] in *.
  - apply bool_decide_eq_true in Hf as ->. destruct (words8_inv _ Hr) as (?&?&?&?&?&?&?&?& -> & _).
    split; [by destruct (drop t s) | done].
  - apply andb_true_iff in Hf as [Hq Hf]. apply bool_decide_eq_true in Hq as ->.
    pose proof He as (Hl & Hw & HW & Hn). cbn [length] in Hl.
    assert (16 <= length s)%nat as Hs by (apply (f_equal length) in HW; rewrite length_take in HW; lia).
    rewrite (drop_nth s t) by lia. cbn [all_rounds].
    assert (forall x, words8 (P regs p x K) /\ view (rotate p) (P regs p x K) = round (view p regs) x K) as HP.
    { intros x. destruct (sha256_P_round p regs x K Hp Hr) as (H1 & _ & H2). done. }
    assert (forall x, run_rounds rs (S t) (P regs p x K) (take (Nat.max 16 (S t)) s) =
      all_rounds (round (view p regs) x K) (drop (S t) s) (map snd rs) /\
      words8 (run_rounds rs (S t) (P regs p x K) (take (Nat.max 16 (S t)) s))) as Hrec.
    { intros x. destruct (HP x) as [Hwx <-]. apply IH; try done; [|by apply sha256_rotate_rotations].
      by replace (S t + length rs)%nat with (t + length ((p, K) :: rs))%nat by (simpl; lia). }
    destruct (Nat.ltb_spec t 16) as [Ht|Ht].
    + replace (Nat.max 16 t) with 16%nat by lia. replace (Nat.max 16 (S t)) with 16%nat in Hrec by lia.
      replace (nth t (take 16 s) 0) with (nth t s 0); [apply Hrec|].
      rewrite <- (take_drop 16 s) at 1. apply app_nth1. rewrite length_take. lia.
    + replace (Nat.max 16 t) with t by lia. replace (Nat.max 16 (S t)) with (S t) in Hrec by lia.
      assert (length (take t s) = t) as Hlt by (rewrite length_take; lia).
      assert (R (take t s) t = nth t s 0) as HR.
      { rewrite (Hn t) by (simpl in *; lia). rewrite <- Hlt at 2. apply sha256_R_next. by apply Forall_take. }
      rewrite HR. replace (take t s ++ [nth t s 0]) with (take (S t) s); [apply Hrec|].
      rewrite <- (take_drop t s) at 1. rewrite take_app, Hlt, take_ge by lia.
      replace (S t - t)%nat with 1%nat by lia. by rewrite (drop_nth s t) by lia.
Qed.

Lemma sha256_schedule_extends b : Forall byte_ok b -> extends next_word (schedule b) (words_of b) (0 + length rounds).
Proof.
  intros Hb. assert (0 + length rounds = length (words_of b) + 48)%nat as -> by (by rewrite length_words_of).
  unfold schedule. apply extend_spec; [|by apply words_of_range]. intros W _. apply Z.mod_pos_bound. lia.
Qed.

Lemma sha256_process_compress st b : words8 st -> Forall byte_ok b ->
  sha256_process st b = compress st b /\ words8 (compress st b).
Proof.
  intros Hst Hb. unfold sha256_process, compress.
  assert (map (fun i => get_be32 b (4 * i)) (seq 0 16) = words_of b) as ->.
  { unfold words_of. apply map_ext. intros i. by apply get_be32_word. }
  pose proof (sha256_schedule_extends b Hb) as He.
  destruct (sha256_run_rounds_spec (schedule b) (words_of b) rounds 0 (seq 0 8) st (length_words_of b) He) as [H1 H2];
    [by vm_compute | vm_compute; set_solver | done |].
  destruct He as (_ & _ & HW & _). rewrite length_words_of in HW.
  replace (Nat.max 16 0) with 16%nat in H1, H2 by lia. rewrite HW in H1, H2.
  destruct (words8_inv _ Hst) as (?&?&?&?&?&?&?&?& -> & _).
  rewrite rounds_constants, drop_0 in H1. unfold view in H1. cbn [map seq nth] in H1.
  rewrite H1 in H2 |- *. split; [done|].
  destruct (words8_inv _ H2) as (?&?&?&?&?&?&?&?& E & _). rewrite E.
  split; [done|]. cbn [zip_with]. repeat apply Forall_cons_2; try apply Forall_nil_2; apply word32_wrap.
Qed.

(** ** The digest *)

Lemma H0_words : words8 H0.
Proof.
  rewrite <- (starts_H0 []). split; [done|]. unfold sha256_starts. cbn [state].
  repeat apply Forall_cons_2; try apply Forall_nil_2; unfold word32; lia.
Qed.

Lemma sha256_finish_digest ctx msg : tracks sha256_process H0 ctx msg -> Z.of_nat (length msg) < 2 ^ 61 - 128 ->
  Forall byte_ok msg -> sha256_finish ctx = sha256 msg.
Proof.
  intros Ht Hl Hb. unfold sha256_finish, sha256. rewrite (proj1 (finish_state sha256_process H0 32 ltac:(lia) ctx msg Ht Hl)).
  destruct (fold_blocks_sim (fun s s' => s = s' /\ words8 s) sha256_process compress H0 H0
    (be_bytes 8 (bit_length msg)) msg) as [E Hw]; try done.
  - intros st st' b [<- Hw] _ Hbb. destruct (sha256_process_compress st b Hw Hbb) as [-> ?]. done.
  - split; [done | apply H0_words].
  - apply be_bytes_ok.
  - rewrite <- E. f_equal. apply map_ext_in. intros x Hx. apply put_be32_bytes.
    destruct Hw as [_ Hw]. rewrite Forall_forall in Hw. apply Hw. by apply list_elem_of_In.
Qed.

Lemma sha256_starts_tracks buf : length buf = 64%nat -> tracks sha256_process H0 (sha256_starts buf) [].
Proof.
  intros Hb. split; [|done]. exists [], []. rewrite starts_H0. split_and!; done || (simpl; lia).
Qed.

(** C29: [sha256_csum_wd], with and without a watchdog, writes the SHA-256 digest
    that FIPS 180-2 defines: the optimised functions, the rotating registers,
    the schedule computed on the way, the buffering in any chunk size and the
    padding agree with the standard, whatever the buffer of the context held. *)
Theorem sha256_csum_correct watchdog buf input chunk_sz : length buf = 64%nat -> Forall byte_ok input ->
  Z.of_nat (length input) < 2 ^ 32 -> 0 < Z.of_nat chunk_sz < 2 ^ 31 ->
  sha256_csum_wd watchdog buf input chunk_sz = Some (sha256 input).
Proof.
  intros Hbuf Hb Hl Hc. pose proof (sha256_starts_tracks buf Hbuf) as Ht. unfold sha256_csum_wd.
  assert (exists ctx, (if watchdog then wd_loop sha256_process 32 (length input) (sha256_starts buf) input chunk_sz
            else Some (sha256_update (sha256_starts buf) input)) = Some ctx /\
            tracks sha256_process H0 ctx ([] ++ input)) as (ctx & -> & Ht').
  { destruct watchdog.
    - apply (wd_loop_tracks sha256_process H0 32); done || (simpl; lia).
    - eexists. split; [done|]. apply (update_tracks sha256_process H0 32); done || (simpl; lia). }
  cbn [mbind option_bind]. f_equal. apply sha256_finish_digest; done || (simpl; lia).
Qed.

Lemma sha256_csum_correct_witness : sha256_csum_wd true (replicate 64 255) (str "abc") 2 =
  Some [0xba; 0x78; 0x16; 0xbf; 0x8f; 0x01; 0xcf; 0xea; 0x41; 0x41; 0x40; 0xde; 0x5d; 0xae; 0x22; 0x23;
        0xb0; 0x03; 0x61; 0xa3; 0x96; 0x17; 0x7a; 0x9c; 0xb4; 0x10; 0xff; 0x61; 0xf2; 0x00; 0x15; 0xad].
Proof.
  refine (eq_trans (sha256_csum_correct true (replicate 64 255) (str "abc") 2 _ _ _ _) _).
  - reflexivity.
  - apply str_ok.
  - reflexivity.
  - split; reflexivity.
  - vm_compute. reflexivity.
Defined.

End Sha256.
