(* ===== verification/Sha1.v ===== *)
(** * SHA-1 (lib/sha1.c)

    The implementation, in which the words are [unsigned long] and hence 64 bits
    wide on this target: the upper halves carry garbage that the shifts must
    mask.  The reference is the algorithm of FIPS 180-1 on 32-bit words.  The
    buffering of the context is in Digest.v. *)

From S2P Require Import Prelude Digest.

Module Sha1.
Import Digest.

(** ** The implementation *)

Definition sha1_starts (buf : bytes) : context :=
  mkCtx 0 0 [0x67452301; 0xEFCDAB89; 0x98BADCFE; 0x10325476; 0xC3D2E1F0] buf.

Definition S (x n : Z) : Z := Z.lor (u64 (Z.shiftl x n)) (Z.shiftr (Z.land x 0xFFFFFFFF) (32 - n)).

(** [W[t & 15]] with its new value. *)
Definition R (W : list Z) (t : nat) : Z :=
  let w i := nth (i mod 16) W 0 in
  S (Z.lxor (Z.lxor (Z.lxor (w (t - 3)%nat) (w (t - 8)%nat)) (w (t - 14)%nat)) (w t)) 1.

(** The functions and constants of the four groups of rounds. *)
Definition F (q : nat) (x y z : Z) : Z :=
  match q with
  | 0%nat => Z.lxor z (Z.land x (Z.lxor y z))
  | 2%nat => Z.lor (Z.land x y) (Z.land z (Z.lor x y))
  | _ => Z.lxor (Z.lxor x y) z
  end.

Definition K (q : nat) : Z :=
  match q with
  | 0%nat => 0x5A827999
  | 1%nat => 0x6ED9EBA1
  | 2%nat => 0x8F1BBCDC
  | _ => 0xCA62C1D6
  end.

(** One round; [p] gives the registers that play the roles of [a] to [e]. *)
Definition P (q : nat) (regs : list Z) (p : list nat) (x : Z) : list Z :=
  let r i := nth (nth i p 0%nat) regs 0 in
  let e := u64 (r 4%nat + (S (r 0%nat) 5 + F q (r 1%nat) (r 2%nat) (r 3%nat) + K q + x)) in
  <[nth 1 p 0%nat := S (r 1%nat) 30]> (<[nth 4 p 0%nat := e]> regs).

(** The registers of the rounds ([A] is 0), in groups of twenty. *)
Definition group (q : nat) (ps : list (list nat)) : list (list nat * nat) := map (fun p => (p, q)) ps.

Definition rounds : list (list nat * nat) := (
  group 0
  [[0; 1; 2; 3; 4]; [4; 0; 1; 2; 3]; [3; 4; 0; 1; 2]; [2; 3; 4; 0; 1]; [1; 2; 3; 4; 0];
   [0; 1; 2; 3; 4]; [4; 0; 1; 2; 3]; [3; 4; 0; 1; 2]; [2; 3; 4; 0; 1]; [1; 2; 3; 4; 0];
   [0; 1; 2; 3; 4]; [4; 0; 1; 2; 3]; [3; 4; 0; 1; 2]; [2; 3; 4; 0; 1]; [1; 2; 3; 4; 0];
   [0; 1; 2; 3; 4]; [4; 0; 1; 2; 3]; [3; 4; 0; 1; 2]; [2; 3; 4; 0; 1]; [1; 2; 3; 4; 0]] ++
  group 1
  [[0; 1; 2; 3; 4]; [4; 0; 1; 2; 3]; [3; 4; 0; 1; 2]; [2; 3; 4; 0; 1]; [1; 2; 3; 4; 0];
   [0; 1; 2; 3; 4]; [4; 0; 1; 2; 3]; [3; 4; 0; 1; 2]; [2; 3; 4; 0; 1]; [1; 2; 3; 4; 0];
   [0; 1; 2; 3; 4]; [4; 0; 1; 2; 3]; [3; 4; 0; 1; 2]; [2; 3; 4; 0; 1]; [1; 2; 3; 4; 0];
   [0; 1; 2; 3; 4]; [4; 0; 1; 2; 3]; [3; 4; 0; 1; 2]; [2; 3; 4; 0; 1]; [1; 2; 3; 4; 0]] ++
  group 2
  [[0; 1; 2; 3; 4]; [4; 0; 1; 2; 3]; [3; 4; 0; 1; 2]; [2; 3; 4; 0; 1]; [1; 2; 3; 4; 0];
   [0; 1; 2; 3; 4]; [4; 0; 1; 2; 3]; [3; 4; 0; 1; 2]; [2; 3; 4; 0; 1]; [1; 2; 3; 4; 0];
   [0; 1; 2; 3; 4]; [4; 0; 1; 2; 3]; [3; 4; 0; 1; 2]; [2; 3; 4; 0; 1]; [1; 2; 3; 4; 0];
   [0; 1; 2; 3; 4]; [4; 0; 1; 2; 3]; [3; 4; 0; 1; 2]; [2; 3; 4; 0; 1]; [1; 2; 3; 4; 0]] ++
  group 3
  [[0; 1; 2; 3; 4]; [4; 0; 1; 2; 3]; [3; 4; 0; 1; 2]; [2; 3; 4; 0; 1]; [1; 2; 3; 4; 0];
   [0; 1; 2; 3; 4]; [4; 0; 1; 2; 3]; [3; 4; 0; 1; 2]; [2; 3; 4; 0; 1]; [1; 2; 3; 4; 0];
   [0; 1; 2; 3; 4]; [4; 0; 1; 2; 3]; [3; 4; 0; 1; 2]; [2; 3; 4; 0; 1]; [1; 2; 3; 4; 0];
   [0; 1; 2; 3; 4]; [4; 0; 1; 2; 3]; [3; 4; 0; 1; 2]; [2; 3; 4; 0; 1]; [1; 2; 3; 4; 0]])%nat.

(** The rounds from number [t] on; [W] is a ring of 16 words. *)
Fixpoint run_rounds (rs : list (list nat * nat)) (t : nat) (regs W : list Z) : list Z :=
  match rs with
  | [] => regs
  | (p, q) :: rs =>
      if (t <? 16)%nat then run_rounds rs (t + 1) (P q regs p (nth t W 0)) W
      else
        let x := R W t in
        run_rounds rs (t + 1) (P q regs p x) (<[(t mod 16)%nat := x]> W)
  end.

Definition sha1_process (st : list Z) (data : bytes) : list Z :=
  let W := map (fun i => get_be32 data (4 * i)) (seq 0 16) in
  let regs := run_rounds rounds 0 st W in
  zip_with (fun s r => u64 (s + r)) st regs.

Definition sha1_update (ctx : context) (input : bytes) : context := update sha1_process 64 ctx input.

Definition sha1_finish (ctx : context) : bytes :=
  concat (map put_be32 (state (finish sha1_process 64 ctx))).

(** [buf] is what the buffer of the context on the stack holds. *)
Definition sha1_csum (buf input : bytes) : bytes :=
  sha1_finish (sha1_update (sha1_starts buf) input).

Definition sha1_csum_wd (watchdog : bool) (buf input : bytes) (chunk_sz : nat) : option bytes :=
  let ctx := sha1_starts buf in
  ctx ← (if watchdog then wd_loop sha1_process 64 (length input) ctx input chunk_sz
         else Some (sha1_update ctx input));
  Some (sha1_finish ctx).

(** [pad[i] ^= key[i]] for [i < keylen], at most 64. *)
Fixpoint xor_key (pad key : bytes) : bytes :=
  match pad, key with
  | c :: pad, k :: key => Z.lxor c k :: xor_key pad key
  | _, _ => pad
  end.

(** The second context keeps the buffer of the first. *)
Definition sha1_hmac (buf key input : bytes) : bytes :=
  let k_ipad := xor_key (replicate 64 0x36) key in
  let k_opad := xor_key (replicate 64 0x5C) key in
  let ctx := finish sha1_process 64 (sha1_update (sha1_update (sha1_starts buf) k_ipad) input) in
  let tmpbuf := concat (map put_be32 (state ctx)) in
  sha1_finish (sha1_update (sha1_update (sha1_starts (buffer ctx)) k_opad) tmpbuf).

(** ** FIPS 180-1 and RFC 2104 *)

Definition rotl (n x : Z) : Z := rotr (32 - n) x.

Definition f (q : nat) (x y z : Z) : Z :=
  match q with
  | 0%nat => Z.lxor (Z.land x y) (Z.land (lnotw 32 x) z)
  | 2%nat => Z.lxor (Z.lxor (Z.land x y) (Z.land x z)) (Z.land y z)
  | _ => Z.lxor (Z.lxor x y) z
  end.

(** The constants: the square roots of 2, 3, 5 and 10, times 2^30. *)
Definition k (q : nat) : Z := Z.sqrt (nth q [2; 3; 5; 10] 0 * 2 ^ 60).

Definition H0 : list Z := [0x67452301; 0xEFCDAB89; 0x98BADCFE; 0x10325476; 0xC3D2E1F0].

Definition next_word (W : list Z) : Z :=
  let t := length W in
  rotl 1 (Z.lxor (Z.lxor (Z.lxor (nth (t - 3) W 0) (nth (t - 8) W 0)) (nth (t - 14) W 0)) (nth (t - 16) W 0)).

Definition schedule (b : bytes) : list Z := extend next_word 64 (words_of b).

Definition round (s : list Z) (w : Z) (q : nat) : list Z :=
  match s with
  | [a; b; c; d; e] => [(rotl 5 a + f q b c d + e + k q + w) mod 2 ^ 32; a; rotl 30 b; c; d]
  | _ => s
  end.

Fixpoint all_rounds (s : list Z) (Ws : list Z) (qs : list nat) : list Z :=
  match Ws, qs with
  | w :: Ws, q :: qs => all_rounds (round s w q) Ws qs
  | _, _ => s
  end.

Definition groups : list nat := map (fun t => t / 20)%nat (seq 0 80).

Definition compress (H : list Z) (b : bytes) : list Z :=
  zip_with (fun x y => (x + y) mod 2 ^ 32) H (all_rounds H (schedule b) groups).

Definition sha1 (msg : bytes) : bytes :=
  concat (map (be_bytes 4) (fold_blocks compress H0 (pad_with (be_bytes 8 (bit_length msg)) msg))).

(** The key, filled up to a block with zeros and combined with a byte. *)
Definition key_block (c : Z) (key : bytes) : bytes :=
  map (Z.lxor c) (key ++ replicate (64 - length key) 0).

(** HMAC for keys of at most a block. *)
Definition hmac_sha1 (key msg : bytes) : bytes :=
  sha1 (key_block 0x5C key ++ sha1 (key_block 0x36 key ++ msg)).

(** The tables of the code are those of the standard. *)
Lemma rounds_groups : map snd rounds = groups.
Proof. vm_compute. reflexivity. Qed.

Lemma K_k q : (q < 4)%nat -> K q = k q.
Proof. intros Hq. do 4 (destruct q as [|q]; [vm_compute; reflexivity|]). lia. Qed.
(** ** 64-bit words modulo 2^32 *)

Lemma u32_bits x i : 0 <= i -> Z.testbit (u32 x) i = (i <? 32) && Z.testbit x i.
Proof.
  intros Hi. unfold wrap. destruct (Z.ltb_spec i 32).
  - by rewrite Z.mod_pow2_bits_low by lia.
  - by rewrite Z.mod_pow2_bits_high by lia.
Qed.

Lemma u32_lor x y : u32 (Z.lor x y) = Z.lor (u32 x) (u32 y).
Proof.
  apply Z.bits_inj'. intros i Hi. rewrite Z.lor_spec, !u32_bits, Z.lor_spec by done. by destruct (i <? 32).
Qed.

Lemma u32_lxor x y : u32 (Z.lxor x y) = Z.lxor (u32 x) (u32 y).
Proof.
  apply Z.bits_inj'. intros i Hi. rewrite Z.lxor_spec, !u32_bits, Z.lxor_spec by done. by destruct (i <? 32).
Qed.

Lemma u32_land x y : u32 (Z.land x y) = Z.land (u32 x) (u32 y).
Proof.
  apply Z.bits_inj'. intros i Hi. rewrite Z.land_spec, !u32_bits, Z.land_spec by done. by destruct (i <? 32).
Qed.

Lemma u32_u64 x : u32 (u64 x) = u32 x.
Proof.
  unfold wrap. change (2 ^ 64) with (2 ^ 32 * 2 ^ 32). rewrite Z.rem_mul_r by lia.
  by rewrite (Z.mul_comm (2 ^ 32) (_ mod _)), Z.mod_add, Z.mod_mod by lia.
Qed.

Lemma S_rotl x n : 0 < n < 32 -> u32 (S x n) = rotl n (u32 x).
Proof.
  intros Hn. unfold S, rotl. change 0xFFFFFFFF with (Z.ones 32). rewrite Z.land_ones by lia.
  change (x mod 2 ^ 32) with (u32 x). rewrite u32_lor, u32_u64.
  pose proof (word32_wrap x) as Hx. rewrite <- rotr_shifts by (done || lia). rewrite Z.lor_comm. f_equal.
  - apply wrap_small. rewrite Z.shiftr_div_pow2 by lia. unfold word32 in Hx.
    split; [apply Z.div_pos; lia|]. apply Z.div_lt_upper_bound; [lia|].
    assert (1 <= 2 ^ (32 - n)) by (pose proof (Z.pow_pos_nonneg 2 (32 - n)); lia). nia.
  - replace (32 - (32 - n)) with n by lia. rewrite !Z.shiftl_mul_pow2 by lia. unfold wrap.
    by rewrite Zmult_mod_idemp_l.
Qed.

Lemma F_f q x y z : u32 (F q x y z) = f q (u32 x) (u32 y) (u32 z).
Proof.
  assert (forall a b c, u32 (Z.lxor c (Z.land a (Z.lxor b c))) =
    Z.lxor (Z.land (u32 a) (u32 b)) (Z.land (lnotw 32 (u32 a)) (u32 c))) as Hch.
  { intros a b c. apply Z.bits_inj'. intros i Hi.
    unfold lnotw. rewrite u32_bits, !Z.lxor_spec, !Z.land_spec, Z.lxor_spec, !u32_bits, Z.lnot_spec, u32_bits by done.
    destruct (i <? 32), (Z.testbit a i), (Z.testbit b i), (Z.testbit c i); done. }
  assert (forall a b c, u32 (Z.lor (Z.land a b) (Z.land c (Z.lor a b))) =
    Z.lxor (Z.lxor (Z.land (u32 a) (u32 b)) (Z.land (u32 a) (u32 c))) (Z.land (u32 b) (u32 c))) as Hmaj.
  { intros a b c. apply Z.bits_inj'. intros i Hi.
    rewrite u32_bits, !Z.lxor_spec, Z.lor_spec, !Z.land_spec, Z.lor_spec, !u32_bits by done.
    destruct (i <? 32), (Z.testbit a i), (Z.testbit b i), (Z.testbit c i); done. }
  assert (u32 (Z.lxor (Z.lxor x y) z) = Z.lxor (Z.lxor (u32 x) (u32 y)) (u32 z)) as Hp by (by rewrite !u32_lxor).
  destruct q as [|[|[|q]]]; [apply Hch | exact Hp | apply Hmaj | exact Hp].
Qed.

(** The sum of a round. *)
Lemma sum_u32 e s g c x :
  u32 (u64 (e + (s + g + c + x))) = (u32 s + u32 g + u32 e + c + u32 x) mod 2 ^ 32.
Proof.
  rewrite u32_u64. unfold wrap.
  rewrite (Z.div_mod e (2 ^ 32)) at 1 by lia. rewrite (Z.div_mod s (2 ^ 32)) at 1 by lia.
  rewrite (Z.div_mod g (2 ^ 32)) at 1 by lia. rewrite (Z.div_mod x (2 ^ 32)) at 1 by lia.
  set (E := e mod 2 ^ 32). set (S := s mod 2 ^ 32). set (G := g mod 2 ^ 32). set (X := x mod 2 ^ 32).
  rewrite <- (Z.mod_add (S + G + E + c + X) (e / 2 ^ 32 + s / 2 ^ 32 + g / 2 ^ 32 + x / 2 ^ 32)) by lia.
  f_equal. lia.
Qed.

(** ** The rounds *)

Definition rotations : list (list nat) :=
  [[0; 1; 2; 3; 4]; [4; 0; 1; 2; 3]; [3; 4; 0; 1; 2]; [2; 3; 4; 0; 1]; [1; 2; 3; 4; 0]]%nat.

Lemma sha1_rotate_rotations p : p ∈ rotations -> rotate p ∈ rotations.
Proof.
  intros Hp. unfold rotations in Hp. repeat (apply elem_of_cons in Hp as [->|Hp]; [vm_compute; set_solver|]).
  by apply not_elem_of_nil in Hp.
Qed.

(** Five registers of the implementation. *)
Definition words5 (l : list Z) : Prop := length l = 5%nat /\ Forall (fun x => 0 <= x) l.

Lemma words5_inv l : words5 l -> exists a b c d e, l = [a; b; c; d; e] /\
  0 <= a /\ 0 <= b /\ 0 <= c /\ 0 <= d /\ 0 <= e.
Proof.
  intros [Hl Hf]. do 6 (destruct l as [|? l]; try done). repeat (apply Forall_cons in Hf as [? Hf]).
  eexists _, _, _, _, _. split; [reflexivity | done].
Qed.

Lemma S_pos x n : 0 <= x -> 0 <= S x n.
Proof.
  intros Hx. unfold S. apply Z.lor_nonneg. split; [apply wrap_range; lia|]. apply Z.shiftr_nonneg, Z.land_nonneg. lia.
Qed.

Lemma sha1_P_round q p regs x : p ∈ rotations -> words5 regs -> (q < 4)%nat ->
  words5 (P q regs p x) /\
  map u32 (view (rotate p) (P q regs p x)) = round (map u32 (view p regs)) (u32 x) q.
Proof.
  intros Hp (a & b & c & d & e & -> & ? & ? & ? & ? & ?)%words5_inv Hq. unfold rotations in Hp.
  pose proof (fun z => proj1 (wrap_range 64 z ltac:(lia))) as Hw.
  repeat (apply elem_of_cons in Hp as [->|Hp]; [|]); [.. | by apply not_elem_of_nil in Hp].
  all: split; [split; [reflexivity |
         repeat apply Forall_cons_2; try apply Forall_nil_2; first [assumption | apply Hw | by apply S_pos]]|].
  all: unfold view; cbn [map nth round]; rewrite <- !S_rotl, <- F_f, <- K_k, <- sum_u32 by (done || lia).
  all: reflexivity.
Qed.
(** *** The ring of words *)

(** [W] holds the words of the schedule [s] before round [t]. *)
Definition ring (W s : list Z) (t : nat) : Prop :=
  length W = 16%nat /\
  forall j, (Nat.max 16 t - 16 <= j < Nat.max 16 t)%nat -> u32 (nth (j mod 16) W 0) = nth j s 0.

Lemma mod16_inj j t : (t - 16 < j)%nat -> (j < t)%nat -> (j mod 16 <> t mod 16)%nat.
Proof.
  intros H1 H2 E. pose proof (Nat.div_mod j 16 ltac:(lia)). pose proof (Nat.div_mod t 16 ltac:(lia)). lia.
Qed.

Lemma nth_take (s : list Z) t i : (i < t)%nat -> nth i (take t s) 0 = nth i s 0.
Proof.
  revert t i; induction s as [|x s IH]; intros [|t] [|i] Hi; simpl; try lia; try done.
  apply IH. lia.
Qed.

Lemma sha1_R_next W s t : ring W s t -> (16 <= t <= length s)%nat -> u32 (R W t) = next_word (take t s).
Proof.
  intros [Hl Hr] Ht. replace (Nat.max 16 t) with t in Hr by lia. unfold R, next_word.
  rewrite S_rotl, !u32_lxor by lia. rewrite length_take. replace (Nat.min t (length s)) with t by lia.
  rewrite !nth_take by lia. rewrite <- (Hr (t - 3)%nat), <- (Hr (t - 8)%nat), <- (Hr (t - 14)%nat) by lia.
  rewrite <- (Hr (t - 16)%nat) by lia. replace ((t - 16) mod 16)%nat with (t mod 16)%nat; [done|].
  replace t with (t - 16 + 1 * 16)%nat at 1 by lia. apply Nat.Div0.mod_add.
Qed.

Lemma ring_next W s t x : ring W s t -> (16 <= t)%nat -> u32 x = nth t s 0 ->
  ring (<[(t mod 16)%nat := x]> W) s (t + 1).
Proof.
  intros [Hl Hr] Ht Hx. split; [by rewrite length_insert|]. intros j Hj.
  replace (Nat.max 16 (t + 1)) with (t + 1)%nat in Hj by lia. replace (Nat.max 16 t) with t in Hr by lia.
  pose proof (Nat.mod_upper_bound t 16 ltac:(lia)). pose proof (Nat.mod_upper_bound j 16 ltac:(lia)).
  destruct (decide (j = t)) as [->|Hne].
  - rewrite (nth_lookup_Some _ _ _ x); [done|]. rewrite list_lookup_insert_eq; [done | lia].
  - rewrite nth_lookup, list_lookup_insert_ne, <- nth_lookup by (intros E; by apply (mod16_inj j t); lia).
    apply Hr. lia.
Qed.

Lemma next_word_range W : Forall word32 W -> word32 (next_word W).
Proof.
  intros Hw. unfold next_word, rotl. apply rotr_range; [lia|].
  repeat apply word32_lxor; by apply nth_word32.
Qed.

Lemma sha1_run_rounds_spec s W16 rs : forall t p regs W, length W16 = 16%nat -> extends next_word s W16 (t + length rs) ->
  ring W s t -> follows 5 p rs = true -> Forall (fun r => r.2 < 4)%nat rs -> p ∈ rotations -> words5 regs ->
  map u32 (run_rounds rs t regs W) = all_rounds (map u32 (view p regs)) (drop t s) (map snd rs) /\
  words5 (run_rounds rs t regs W).
Proof.
  induction rs as [|[p' q] rs IH]; intros t p regs W H16 He HW Hf Hq Hp Hr; cbn [follows run_rounds map snd] in *.
  - apply bool_decide_eq_true in Hf as ->. destruct (words5_inv _ Hr) as (?&?&?&?&?& -> & _).
    split; [by destruct (drop t s) | done].
  - apply andb_true_iff in Hf as [Hpp Hf]. apply bool_decide_eq_true in Hpp as ->.
    apply Forall_cons in Hq as [Hq Hqs]. cbn [snd] in Hq.
    pose proof He as (Hl & Hw & HW16 & Hn). cbn [length] in Hl.
    assert (16 <= length s)%nat as Hs by (apply (f_equal length) in HW16; rewrite length_take in HW16; lia).
    rewrite (drop_nth s t) by lia. cbn [all_rounds].
    assert (forall x W', u32 x = nth t s 0 -> ring W' s (t + 1) ->
      map u32 (run_rounds rs (t + 1) (P q regs p x) W') =
        all_rounds (round (map u32 (view p regs)) (nth t s 0) q) (drop (Datatypes.S t) s) (map snd rs) /\
      words5 (run_rounds rs (t + 1) (P q regs p x) W')) as Hrec.
    { intros x W' Hx HW'. destruct (sha1_P_round q p regs x Hp Hr Hq) as [Hwx Hround]. rewrite <- Hx, <- Hround.
      replace (Datatypes.S t) with (t + 1)%nat by lia. apply IH; try done; [|by apply sha1_rotate_rotations].
      by replace (t + 1 + length rs)%nat with (t + length ((p, q) :: rs))%nat by (simpl; lia). }
    destruct (Nat.ltb_spec t 16) as [Ht|Ht].
    + destruct HW as [HWl HWr]. apply Hrec.
      * rewrite <- (HWr t) by lia. by rewrite Nat.mod_small.
      * split; [done|]. replace (Nat.max 16 (t + 1)) with (Nat.max 16 t) by lia. done.
    + assert (u32 (R W t) = nth t s 0) as HR.
      { rewrite (sha1_R_next W s t HW) by lia. symmetry. apply Hn. simpl in *. lia. }
      apply Hrec; [done | by apply ring_next].
Qed.
Lemma sha1_schedule_extends b : Forall byte_ok b -> extends next_word (schedule b) (words_of b) (0 + length rounds).
Proof.
  intros Hb. assert (0 + length rounds = length (words_of b) + 64)%nat as -> by (by rewrite length_words_of).
  unfold schedule. apply extend_spec; [apply next_word_range | by apply words_of_range].
Qed.

Lemma word32_u32 l : Forall word32 l -> map u32 l = l.
Proof. induction 1 as [|x l Hx Hl IH]; [done|]. cbn [map]. rewrite IH. f_equal. by apply wrap_small. Qed.

(** The first words are in the ring as they are. *)
Lemma ring_start b : Forall byte_ok b -> ring (words_of b) (schedule b) 0.
Proof.
  intros Hb. destruct (sha1_schedule_extends b Hb) as (_ & _ & HW & _). rewrite length_words_of in HW.
  split; [apply length_words_of|]. intros j Hj. replace (Nat.max 16 0) with 16%nat in Hj by lia.
  rewrite Nat.mod_small by lia. rewrite <- (nth_take (schedule b) 16 j), HW by lia.
  apply wrap_small. apply (nth_word32 (words_of b)). by apply words_of_range.
Qed.

(** 64-bit state words and the 32-bit words they stand for. *)
Definition stands_for (st st' : list Z) : Prop := words5 st /\ map u32 st = st'.

Lemma add_u32 s r : u32 (u64 (s + r)) = (u32 s + u32 r) mod 2 ^ 32.
Proof. rewrite u32_u64. unfold wrap. apply Zplus_mod. Qed.

Lemma sha1_process_compress st st' b : stands_for st st' -> Forall byte_ok b ->
  stands_for (sha1_process st b) (compress st' b).
Proof.
  intros [Hst <-] Hb. unfold sha1_process, compress.
  assert (map (fun i => get_be32 b (4 * i)) (seq 0 16) = words_of b) as ->.
  { unfold words_of. apply map_ext. intros i. by apply get_be32_word. }
  destruct (sha1_run_rounds_spec (schedule b) (words_of b) rounds 0 (seq 0 5) st (words_of b)
    (length_words_of b) (sha1_schedule_extends b Hb) (ring_start b Hb)) as [H1 H2];
    [by vm_compute | by apply (bool_decide_unpack _) | vm_compute; set_solver | done |].
  rewrite rounds_groups, drop_0 in H1. set (regs := run_rounds _ _ _ _) in *.
  destruct (words5_inv _ Hst) as (?&?&?&?&?& -> & ?&?&?&?&?). unfold view in H1. cbn [map seq nth] in H1.
  destruct (words5_inv _ H2) as (?&?&?&?&?& E & _). rewrite E in *. cbn [map zip_with] in *. rewrite <- H1.
  split; [|cbn [map zip_with]; by rewrite !add_u32]. split; [done|].
  repeat apply Forall_cons_2; try apply Forall_nil_2; apply wrap_range; lia.
Qed.

(** ** The digest *)

Lemma put_be32_u32 n : 0 <= n -> put_be32 n = be_bytes 4 (u32 n).
Proof. intros Hn. rewrite put_be32_bytes by done. symmetry. by apply (be_bytes_mod 4). Qed.

Lemma blocks_sim msg : Forall byte_ok msg ->
  let m := pad_with (be_bytes 8 (bit_length msg)) msg in
  stands_for (fold_blocks sha1_process H0 m) (fold_blocks compress H0 m).
Proof.
  intros Hb. cbv zeta. apply (fold_blocks_sim stands_for); try done.
  - intros st st' b Hst _ Hbb. by apply sha1_process_compress.
  - split; [split; [done|] | reflexivity]. unfold H0. repeat apply Forall_cons_2; try apply Forall_nil_2; lia.
  - apply be_bytes_ok.
Qed.

Lemma sha1_finish_digest ctx msg : tracks sha1_process H0 ctx msg -> Z.of_nat (length msg) < 2 ^ 61 - 128 ->
  Forall byte_ok msg -> sha1_finish ctx = sha1 msg /\ length (buffer (finish sha1_process 64 ctx)) = 64%nat.
Proof.
  intros Ht Hl Hb. destruct (finish_state sha1_process H0 64 ltac:(lia) ctx msg Ht Hl) as [E1 Hbuf]. split; [|done].
  unfold sha1_finish, sha1. rewrite E1. destruct (blocks_sim msg Hb) as [Hw E].
  rewrite <- E, map_map. f_equal. apply map_ext_in. intros x Hx. apply put_be32_u32.
  destruct Hw as [_ Hw]. rewrite Forall_forall in Hw. apply Hw. by apply list_elem_of_In.
Qed.

(** A digest is twenty bytes. *)
Lemma sha1_bytes msg : Forall byte_ok msg -> Forall byte_ok (sha1 msg) /\ length (sha1 msg) = 20%nat.
Proof.
  intros Hb. unfold sha1. destruct (blocks_sim msg Hb) as [Hw <-].
  destruct (words5_inv _ Hw) as (?&?&?&?&?& -> & _). cbn [map concat].
  rewrite !Forall_app, !length_app, !length_be_bytes. split; [|done]. split_and!; done || apply be_bytes_ok.
Qed.

Lemma sha1_starts_tracks buf : length buf = 64%nat -> tracks sha1_process H0 (sha1_starts buf) [].
Proof.
  intros Hb. split; [|done]. exists [], []. split_and!; done || (simpl; lia).
Qed.

(** C30: [sha1_csum] and [sha1_csum_wd], with and without a watchdog, write the
    SHA-1 digest that FIPS 180-1 defines, although the words are 64 bits wide
    on this target and only their lower halves are meaningful. *)
Theorem sha1_csum_correct watchdog buf input chunk_sz : length buf = 64%nat -> Forall byte_ok input ->
  Z.of_nat (length input) < 2 ^ 32 -> 0 < Z.of_nat chunk_sz < 2 ^ 31 ->
  sha1_csum buf input = sha1 input /\ sha1_csum_wd watchdog buf input chunk_sz = Some (sha1 input).
Proof.
  intros Hbuf Hb Hl Hc. pose proof (sha1_starts_tracks buf Hbuf) as Ht.
  assert (tracks sha1_process H0 (sha1_update (sha1_starts buf) input) ([] ++ input)) as Hu.
  { apply (update_tracks sha1_process H0 64); done || (simpl; lia). }
  split; [apply sha1_finish_digest; done || (simpl; lia)|]. unfold sha1_csum_wd.
  assert (exists ctx, (if watchdog then wd_loop sha1_process 64 (length input) (sha1_starts buf) input chunk_sz
            else Some (sha1_update (sha1_starts buf) input)) = Some ctx /\
            tracks sha1_process H0 ctx ([] ++ input)) as (ctx & -> & Ht').
  { destruct watchdog; [|eauto]. apply (wd_loop_tracks sha1_process H0 64); done || (simpl; lia). }
  cbn [mbind option_bind]. f_equal. apply sha1_finish_digest; done || (simpl; lia).
Qed.

(** *** HMAC *)

Lemma xor_key_block c key n : (length key <= n)%nat ->
  xor_key (replicate n c) key = map (Z.lxor c) (key ++ replicate (n - length key) 0).
Proof.
  revert n; induction key as [|x key IH]; intros n Hn.
  - rewrite Nat.sub_0_r. cbn [app]. destruct n; [done|]. cbn [replicate xor_key map].
    rewrite Z.lxor_0_r. f_equal. clear. induction n as [|n IH]; [done|]. cbn [replicate map].
    by rewrite Z.lxor_0_r, <- IH.
  - destruct n as [|n]; [simpl in Hn; lia|]. cbn [replicate xor_key app map]. f_equal. apply IH. simpl in Hn. lia.
Qed.

Lemma key_block_ok c key : byte_ok c -> Forall byte_ok key -> (length key <= 64)%nat ->
  Forall byte_ok (key_block c key) /\ length (key_block c key) = 64%nat.
Proof.
  intros Hc Hk Hl. unfold key_block. rewrite length_map, length_app, length_replicate. split; [|lia].
  apply Forall_map, Forall_app. split; [|apply Forall_replicate; by rewrite Z.lxor_0_r].
  eapply Forall_impl; [exact Hk|]. intros x Hx. unfold byte_ok in *.
  assert (Z.lxor c x = Z.lxor c x mod 2 ^ 8) as ->; [|apply Z.mod_pos_bound; lia].
  apply Z.bits_inj'. intros i Hi. destruct (decide (i < 8)).
  - by rewrite Z.mod_pow2_bits_low by lia.
  - rewrite Z.mod_pow2_bits_high, Z.lxor_spec by lia.
    rewrite <- (Z.mod_small c (2 ^ 8)), <- (Z.mod_small x (2 ^ 8)), !Z.mod_pow2_bits_high by lia. done.
Qed.

Lemma two_updates buf a b : length buf = 64%nat -> length a = 64%nat -> Z.of_nat (length b) < 2 ^ 32 ->
  tracks sha1_process H0 (sha1_update (sha1_update (sha1_starts buf) a) b) (a ++ b).
Proof.
  intros Hbuf Ha Hb. apply (update_tracks sha1_process H0 64); try lia.
  - apply (update_tracks sha1_process H0 64 ltac:(lia) _ []); [by apply sha1_starts_tracks | lia | simpl; lia].
  - rewrite length_app. lia.
Qed.

(** For keys of at most 64 bytes, [sha1_hmac] is HMAC-SHA-1 of RFC 2104 over
    the reference SHA-1. *)
Theorem sha1_hmac_correct buf key input : length buf = 64%nat -> Forall byte_ok key -> (length key <= 64)%nat ->
  Forall byte_ok input -> Z.of_nat (length input) < 2 ^ 32 ->
  sha1_hmac buf key input = hmac_sha1 key input.
Proof.
  intros Hbuf Hk Hkl Hi Hl. unfold sha1_hmac, hmac_sha1. rewrite !xor_key_block by done. fold (key_block 0x36 key).
  fold (key_block 0x5C key).
  destruct (key_block_ok 0x36 key ltac:(unfold byte_ok; lia) Hk Hkl) as [Hok1 Hl1].
  destruct (key_block_ok 0x5C key ltac:(unfold byte_ok; lia) Hk Hkl) as [Hok2 Hl2].
  assert (Forall byte_ok (key_block 0x36 key ++ input)) as Hm by (by apply Forall_app).
  pose proof (two_updates buf _ input Hbuf Hl1 Hl) as Ht.
  destruct (sha1_finish_digest _ _ Ht) as [E Hb2]; [rewrite length_app; lia | done|].
  unfold sha1_finish in E. rewrite E. destruct (sha1_bytes _ Hm) as [Hd Hdl].
  apply sha1_finish_digest; [apply two_updates; try done; lia | rewrite length_app; lia | by apply Forall_app].
Qed.

(** A longer key should be hashed first; the code drops what is behind the
    first 64 bytes: different keys give the same result. *)
Theorem sha1_hmac_long_key buf key rest input : length key = 64%nat ->
  sha1_hmac buf (key ++ rest) input = sha1_hmac buf key input.
Proof.
  intros Hk. unfold sha1_hmac.
  assert (forall l k r, length k = length l -> xor_key l (k ++ r) = xor_key l k) as Hx.
  { induction l as [|c l IH]; intros [|x k] r Hl; try done.
    cbn [xor_key app]. f_equal. apply IH. simpl in Hl. lia. }
  by rewrite !Hx by (rewrite length_replicate; done).
Qed.

Lemma sha1_csum_correct_witness :
  sha1_csum (replicate 64 255) (str "abc") = sha1 (str "abc") /\
  sha1_csum_wd true (replicate 64 255) (str "abc") 2 = Some (sha1 (str "abc")).
Proof.
  apply sha1_csum_correct; [reflexivity | apply str_ok | reflexivity | split; reflexivity].
Defined.

Lemma sha1_hmac_correct_witness :
  sha1_hmac (replicate 64 255) (str "key") (str "The quick brown fox jumps over the lazy dog") =
    [0xde; 0x7c; 0x9b; 0x85; 0xb8; 0xb7; 0x8a; 0xa6; 0xbc; 0x8a; 0x7a; 0x36; 0xf7; 0x0a; 0x90; 0x70; 0x1c; 0x9d;
     0xb4; 0xd9].
Proof.
  refine (eq_trans (sha1_hmac_correct (replicate 64 255) (str "key") _ _ _ _ _ _) _).
  - reflexivity.
  - apply str_ok.
  - repeat constructor.
  - apply str_ok.
  - reflexivity.
  - vm_compute. reflexivity.
Defined.

End Sha1.
