(* ===== verification/Md5.v ===== *)
(** * MD5 (lib/md5.c)

    The implementation with its context, its bit counter, the in-place padding
    of the buffer and the table of steps, and the algorithm of RFC 1321 as the
    reference.  Words are 32 bits; the target is little-endian. *)

From S2P Require Import Prelude Digest.

Module Md5.
Import Digest.

(** ** The implementation *)

(** [in] is a word of the language: the buffer is [in_]. *)
Record MD5Context := mkMD5 {
  buf : list Z;
  bits0 : Z;
  bits1 : Z;
  in_ : bytes }.

(** A 32-bit store on a little-endian machine, and a load. *)
Definition store_le32 (t : Z) : bytes := [u8 t; u8 (Z.shiftr t 8); u8 (Z.shiftr t 16); u8 (Z.shiftr t 24)].

Definition load_le32 (b : bytes) (i : nat) : Z :=
  byte_at b i + 2 ^ 8 * byte_at b (i + 1) + 2 ^ 16 * byte_at b (i + 2) + 2 ^ 24 * byte_at b (i + 3).

Fixpoint byteReverse (b : bytes) (longs : nat) {struct longs} : bytes :=
  match longs, b with
  | S longs, b0 :: b1 :: b2 :: b3 :: b =>
      let t := Z.lor (u32 (Z.shiftl (Z.lor (Z.shiftl b3 8) b2) 16)) (Z.lor (Z.shiftl b1 8) b0) in
      store_le32 t ++ byteReverse b longs
  | _, _ => b
  end.

Definition MD5Init (inn : bytes) : MD5Context :=
  mkMD5 [0x67452301; 0xefcdab89; 0x98badcfe; 0x10325476] 0 0 inn.

(** F1 to F4. *)
Definition F1 (x y z : Z) : Z := Z.lxor z (Z.land x (Z.lxor y z)).

Definition F (q : nat) (x y z : Z) : Z :=
  match q with
  | 1%nat => F1 x y z
  | 2%nat => F1 z x y
  | 3%nat => Z.lxor (Z.lxor x y) z
  | _ => Z.lxor y (Z.lor x (lnotw 32 z))
  end.

(** MD5STEP; [p] gives the registers that play the roles of [w], [x], [y], [z]. *)
Definition MD5STEP (q : nat) (regs : list Z) (p : list nat) (data s : Z) : list Z :=
  let r i := nth (nth i p 0%nat) regs 0 in
  let w := u32 (r 0%nat + (F q (r 1%nat) (r 2%nat) (r 3%nat) + data)) in
  let w := Z.lor (u32 (Z.shiftl w s)) (Z.shiftr w (32 - s)) in
  <[nth 0 p 0%nat := u32 (w + r 1%nat)]> regs.

(** The steps: the registers ([a] is 0), the function, the index of the data
    word, the constant and the rotation of each. *)
Definition steps : list (list nat * (nat * nat * Z * Z)) :=
  [([0; 1; 2; 3]%nat, (1%nat, 0%nat, 0xd76aa478, 7)); ([3; 0; 1; 2]%nat, (1%nat, 1%nat, 0xe8c7b756, 12));
   ([2; 3; 0; 1]%nat, (1%nat, 2%nat, 0x242070db, 17)); ([1; 2; 3; 0]%nat, (1%nat, 3%nat, 0xc1bdceee, 22));
   ([0; 1; 2; 3]%nat, (1%nat, 4%nat, 0xf57c0faf, 7)); ([3; 0; 1; 2]%nat, (1%nat, 5%nat, 0x4787c62a, 12));
   ([2; 3; 0; 1]%nat, (1%nat, 6%nat, 0xa8304613, 17)); ([1; 2; 3; 0]%nat, (1%nat, 7%nat, 0xfd469501, 22));
   ([0; 1; 2; 3]%nat, (1%nat, 8%nat, 0x698098d8, 7)); ([3; 0; 1; 2]%nat, (1%nat, 9%nat, 0x8b44f7af, 12));
   ([2; 3; 0; 1]%nat, (1%nat, 10%nat, 0xffff5bb1, 17)); ([1; 2; 3; 0]%nat, (1%nat, 11%nat, 0x895cd7be, 22));
   ([0; 1; 2; 3]%nat, (1%nat, 12%nat, 0x6b901122, 7)); ([3; 0; 1; 2]%nat, (1%nat, 13%nat, 0xfd987193, 12));
   ([2; 3; 0; 1]%nat, (1%nat, 14%nat, 0xa679438e, 17)); ([1; 2; 3; 0]%nat, (1%nat, 15%nat, 0x49b40821, 22));
   ([0; 1; 2; 3]%nat, (2%nat, 1%nat, 0xf61e2562, 5)); ([3; 0; 1; 2]%nat, (2%nat, 6%nat, 0xc040b340, 9));
   ([2; 3; 0; 1]%nat, (2%nat, 11%nat, 0x265e5a51, 14)); ([1; 2; 3; 0]%nat, (2%nat, 0%nat, 0xe9b6c7aa, 20));
   ([0; 1; 2; 3]%nat, (2%nat, 5%nat, 0xd62f105d, 5)); ([3; 0; 1; 2]%nat, (2%nat, 10%nat, 0x02441453, 9));
   ([2; 3; 0; 1]%nat, (2%nat, 15%nat, 0xd8a1e681, 14)); ([1; 2; 3; 0]%nat, (2%nat, 4%nat, 0xe7d3fbc8, 20));
   ([0; 1; 2; 3]%nat, (2%nat, 9%nat, 0x21e1cde6, 5)); ([3; 0; 1; 2]%nat, (2%nat, 14%nat, 0xc33707d6, 9));
   ([2; 3; 0; 1]%nat, (2%nat, 3%nat, 0xf4d50d87, 14)); ([1; 2; 3; 0]%nat, (2%nat, 8%nat, 0x455a14ed, 20));
   ([0; 1; 2; 3]%nat, (2%nat, 13%nat, 0xa9e3e905, 5)); ([3; 0; 1; 2]%nat, (2%nat, 2%nat, 0xfcefa3f8, 9));
   ([2; 3; 0; 1]%nat, (2%nat, 7%nat, 0x676f02d9, 14)); ([1; 2; 3; 0]%nat, (2%nat, 12%nat, 0x8d2a4c8a, 20));
   ([0; 1; 2; 3]%nat, (3%nat, 5%nat, 0xfffa3942, 4)); ([3; 0; 1; 2]%nat, (3%nat, 8%nat, 0x8771f681, 11));
   ([2; 3; 0; 1]%nat, (3%nat, 11%nat, 0x6d9d6122, 16)); ([1; 2; 3; 0]%nat, (3%nat, 14%nat, 0xfde5380c, 23));
   ([0; 1; 2; 3]%nat, (3%nat, 1%nat, 0xa4beea44, 4)); ([3; 0; 1; 2]%nat, (3%nat, 4%nat, 0x4bdecfa9, 11));
   ([2; 3; 0; 1]%nat, (3%nat, 7%nat, 0xf6bb4b60, 16)); ([1; 2; 3; 0]%nat, (3%nat, 10%nat, 0xbebfbc70, 23));
   ([0; 1; 2; 3]%nat, (3%nat, 13%nat, 0x289b7ec6, 4)); ([3; 0; 1; 2]%nat, (3%nat, 0%nat, 0xeaa127fa, 11));
   ([2; 3; 0; 1]%nat, (3%nat, 3%nat, 0xd4ef3085, 16)); ([1; 2; 3; 0]%nat, (3%nat, 6%nat, 0x04881d05, 23));
   ([0; 1; 2; 3]%nat, (3%nat, 9%nat, 0xd9d4d039, 4)); ([3; 0; 1; 2]%nat, (3%nat, 12%nat, 0xe6db99e5, 11));
   ([2; 3; 0; 1]%nat, (3%nat, 15%nat, 0x1fa27cf8, 16)); ([1; 2; 3; 0]%nat, (3%nat, 2%nat, 0xc4ac5665, 23));
   ([0; 1; 2; 3]%nat, (4%nat, 0%nat, 0xf4292244, 6)); ([3; 0; 1; 2]%nat, (4%nat, 7%nat, 0x432aff97, 10));
   ([2; 3; 0; 1]%nat, (4%nat, 14%nat, 0xab9423a7, 15)); ([1; 2; 3; 0]%nat, (4%nat, 5%nat, 0xfc93a039, 21));
   ([0; 1; 2; 3]%nat, (4%nat, 12%nat, 0x655b59c3, 6)); ([3; 0; 1; 2]%nat, (4%nat, 3%nat, 0x8f0ccc92, 10));
   ([2; 3; 0; 1]%nat, (4%nat, 10%nat, 0xffeff47d, 15)); ([1; 2; 3; 0]%nat, (4%nat, 1%nat, 0x85845dd1, 21));
   ([0; 1; 2; 3]%nat, (4%nat, 8%nat, 0x6fa87e4f, 6)); ([3; 0; 1; 2]%nat, (4%nat, 15%nat, 0xfe2ce6e0, 10));
   ([2; 3; 0; 1]%nat, (4%nat, 6%nat, 0xa3014314, 15)); ([1; 2; 3; 0]%nat, (4%nat, 13%nat, 0x4e0811a1, 21));
   ([0; 1; 2; 3]%nat, (4%nat, 4%nat, 0xf7537e82, 6)); ([3; 0; 1; 2]%nat, (4%nat, 11%nat, 0xbd3af235, 10));
   ([2; 3; 0; 1]%nat, (4%nat, 2%nat, 0x2ad7d2bb, 15)); ([1; 2; 3; 0]%nat, (4%nat, 9%nat, 0xeb86d391, 21))].

Fixpoint run_steps (rs : list (list nat * (nat * nat * Z * Z))) (regs inn : list Z) : list Z :=
  match rs with
  | [] => regs
  | (p, (q, i, c, s)) :: rs => run_steps rs (MD5STEP q regs p (u32 (nth i inn 0 + c)) s) inn
  end.

Definition MD5Transform (b : list Z) (inn : list Z) : list Z :=
  zip_with (fun x y => u32 (x + y)) b (run_steps steps b inn).

(** [(__u32 * ) ctx->in] *)
Definition in32 (inn : bytes) : list Z := map (fun i => load_le32 inn (4 * i)) (seq 0 16).

(** [byteReverse(ctx->in, 16); MD5Transform(ctx->buf, ctx->in)]: the state and
    the buffer. *)
Definition transform_in (b : list Z) (inn : bytes) : list Z * bytes :=
  let inn := byteReverse inn 16 in (MD5Transform b (in32 inn), inn).

(** [while (len >= 64)] *)
Fixpoint chunk_loop (fuel : nat) (b : list Z) (inn data : bytes) : list Z * bytes * bytes :=
  if (length data <? 64)%nat then (b, inn, data)
  else match fuel with
       | O => (b, inn, data)
       | S fuel =>
           let '(b, inn) := transform_in b (put inn 0 (take 64 data)) in
           chunk_loop fuel b inn (drop 64 data)
       end.

Definition MD5Update (ctx : MD5Context) (data : bytes) : MD5Context :=
  let len := Z.of_nat (length data) in
  let t := bits0 ctx in
  let b0 := u32 (t + u32 (Z.shiftl len 3)) in
  let b1 := if b0 <? t then u32 (bits1 ctx + 1) else bits1 ctx in
  let b1 := u32 (b1 + Z.shiftr len 29) in
  let t := Z.land (Z.shiftr t 3) 0x3f in
  if negb (t =? 0) && (len <? 64 - t) then mkMD5 (buf ctx) b0 b1 (put (in_ ctx) t data)
  else
    let '(b, inn, data) :=
      if negb (t =? 0) then
        let '(b, inn) := transform_in (buf ctx) (put (in_ ctx) t (take (Z.to_nat (64 - t)) data)) in
        (b, inn, drop (Z.to_nat (64 - t)) data)
      else (buf ctx, in_ ctx, data) in
    let '(b, inn, data) := chunk_loop (length data) b inn data in
    mkMD5 b b0 b1 (put inn 0 data).

(** The digest; the context is cleared afterwards. *)
Definition MD5Final (ctx : MD5Context) : bytes :=
  let count := Z.land (Z.shiftr (bits0 ctx) 3) 0x3F in
  let inn := put (in_ ctx) count [0x80] in
  let p := count + 1 in
  let count := 64 - 1 - count in
  let '(b, inn) :=
    if count <? 8 then
      let inn := put inn p (replicate (Z.to_nat count) 0) in
      let '(b, inn) := transform_in (buf ctx) inn in
      (b, put inn 0 (replicate 56 0))
    else (buf ctx, put inn p (replicate (Z.to_nat (count - 8)) 0)) in
  let inn := byteReverse inn 14 in
  let inn := put (put inn 56 (store_le32 (bits0 ctx))) 60 (store_le32 (bits1 ctx)) in
  let b := MD5Transform b (in32 inn) in
  byteReverse (concat (map store_le32 b)) 4.

(** [inn] is what the context on the stack holds. *)
Definition md5 (inn input : bytes) : bytes := MD5Final (MD5Update (MD5Init inn) input).

Fixpoint md5_loop (fuel : nat) (ctx : MD5Context) (input : bytes) (chunk_sz : nat) : option MD5Context :=
  match input with
  | [] => Some ctx
  | _ =>
      match fuel with
      | O => None
      | S fuel =>
          let chunk := Nat.min chunk_sz (length input) in
          md5_loop fuel (MD5Update ctx (take chunk input)) (drop chunk input) chunk_sz
      end
  end.

Definition md5_wd (watchdog : bool) (inn input : bytes) (chunk_sz : nat) : option bytes :=
  let ctx := MD5Init inn in
  ctx ← (if watchdog then md5_loop (length input) ctx input chunk_sz else Some (MD5Update ctx input));
  Some (MD5Final ctx).

(** ** RFC 1321 *)

(** Fixed-point numbers with [prec] fractional bits. *)
Definition prec : Z := 128.

(** The Taylor series of sine or cosine of 1 from the term [t] on. *)
Fixpoint taylor (n : nat) (k t sign acc : Z) : Z :=
  match n with
  | O => acc
  | S n => taylor n (k + 2) (t / (k + 1) / (k + 2)) (- sign) (acc + sign * t)
  end.

Definition sin1 : Z := taylor 20 1 (2 ^ prec) 1 0.
Definition cos1 : Z := taylor 20 0 (2 ^ prec) 1 0.

(** The integer parts of 2^32 |sin i| for i = 1, 2, ...: sine and cosine by the
    addition theorem. *)
Fixpoint sines (n : nat) (s c : Z) : list Z :=
  match n with
  | O => []
  | S n =>
      let s' := (s * cos1 + c * sin1) / 2 ^ prec in
      let c' := (c * cos1 - s * sin1) / 2 ^ prec in
      Z.abs s' / 2 ^ (prec - 32) :: sines n s' c'
  end.

Definition T : list Z := sines 64 0 (2 ^ prec).

Definition rotl (n x : Z) : Z := rotr (32 - n) x.

Definition f (t : nat) (x y z : Z) : Z :=
  match (t / 16)%nat with
  | 0%nat => Z.lor (Z.land x y) (Z.land (lnotw 32 x) z)
  | 1%nat => Z.lor (Z.land x z) (Z.land y (lnotw 32 z))
  | 2%nat => Z.lxor (Z.lxor x y) z
  | _ => Z.lxor y (Z.lor x (lnotw 32 z))
  end.

(** Which word of the block a step uses, and its rotation. *)
Definition index (t : nat) : nat :=
  match (t / 16)%nat with
  | 0%nat => t
  | 1%nat => (5 * t + 1) mod 16
  | 2%nat => (3 * t + 5) mod 16
  | _ => (7 * t) mod 16
  end.

Definition rotation (t : nat) : Z :=
  nth (t mod 4) (nth (t / 16) [[7; 12; 17; 22]; [5; 9; 14; 20]; [4; 11; 16; 23]; [6; 10; 15; 21]] []) 0.

Definition step (X : list Z) (s : list Z) (t : nat) : list Z :=
  match s with
  | [a; b; c; d] =>
      [d; (b + rotl (rotation t) ((a + f t b c d + nth (index t) X 0 + nth t T 0) mod 2 ^ 32)) mod 2 ^ 32; b; c]
  | _ => s
  end.

(** The little-endian words of a block. *)
Definition le_words (b : bytes) : list Z :=
  map (fun i => be_word [byte_at b (4 * i + 3); byte_at b (4 * i + 2); byte_at b (4 * i + 1); byte_at b (4 * i)])
    (seq 0 16).

Definition compress (H : list Z) (b : bytes) : list Z :=
  zip_with (fun x y => (x + y) mod 2 ^ 32) H (fold_left (step (le_words b)) (seq 0 64) H).

Definition H0 : list Z := [0x67452301; 0xefcdab89; 0x98badcfe; 0x10325476].

(** The length field is the length in bits modulo 2^64. *)
Definition md5_digest (msg : bytes) : bytes :=
  concat (map (le_bytes 4) (fold_blocks compress H0 (pad_with (le_bytes 8 (bit_length msg)) msg))).

(** The table of the code is that of the RFC. *)
Lemma steps_table :
  map snd steps = map (fun t => ((t / 16 + 1)%nat, index t, nth t T 0, rotation t)) (seq 0 64).
Proof. vm_compute. reflexivity. Qed.
(** ** Bytes and words *)

Lemma store_load b0 b1 b2 b3 : byte_ok b0 -> byte_ok b1 -> byte_ok b2 -> byte_ok b3 ->
  store_le32 (Z.lor (u32 (Z.shiftl (Z.lor (Z.shiftl b3 8) b2) 16)) (Z.lor (Z.shiftl b1 8) b0)) = [b0; b1; b2; b3].
Proof.
  unfold byte_ok. intros H0 H1 H2 H3. rewrite (lor_byte b3 b2 8), (lor_byte b1 b0 8) by lia.
  rewrite (wrap_small 32) by (rewrite Z.shiftl_mul_pow2 by lia; lia). rewrite lor_byte by lia.
  unfold store_le32, wrap. rewrite !Z.shiftr_div_pow2 by lia.
  set (x := (b3 * 2 ^ 8 + b2) * 2 ^ 16 + (b1 * 2 ^ 8 + b0)).
  assert (x / 2 ^ 8 = (b3 * 2 ^ 8 + b2) * 2 ^ 8 + b1) as -> by (symmetry; apply (Z.div_unique _ _ _ b0); unfold x; lia).
  assert (x / 2 ^ 16 = b3 * 2 ^ 8 + b2) as -> by (symmetry; apply (Z.div_unique _ _ _ (b1 * 2 ^ 8 + b0)); unfold x; lia).
  assert (x / 2 ^ 24 = b3) as ->
    by (symmetry; apply (Z.div_unique _ _ _ (b2 * 2 ^ 16 + b1 * 2 ^ 8 + b0)); unfold x; lia).
  assert (x mod 2 ^ 8 = b0) as ->
    by (symmetry; apply (Z.mod_unique _ _ ((b3 * 2 ^ 8 + b2) * 2 ^ 8 + b1)); unfold x; lia).
  assert (((b3 * 2 ^ 8 + b2) * 2 ^ 8 + b1) mod 2 ^ 8 = b1) as ->
    by (symmetry; apply (Z.mod_unique _ _ (b3 * 2 ^ 8 + b2)); lia).
  assert ((b3 * 2 ^ 8 + b2) mod 2 ^ 8 = b2) as -> by (symmetry; apply (Z.mod_unique _ _ b3); lia).
  by rewrite (Z.mod_small b3) by lia.
Qed.

(** On a little-endian machine [byteReverse] changes nothing. *)
Lemma byteReverse_id n : forall b, Forall byte_ok b -> byteReverse b n = b.
Proof.
  induction n as [|n IH]; intros b Hb; [done|].
  destruct b as [|b0 [|b1 [|b2 [|b3 b]]]]; try done. cbn [byteReverse]. cbv zeta.
  repeat (apply Forall_cons in Hb as [? Hb]). rewrite store_load by done. cbn [app]. by rewrite IH.
Qed.

Lemma in32_words b : in32 b = le_words b.
Proof.
  unfold in32, le_words. apply map_ext. intros i. unfold load_le32, be_word. cbn [fold_left]. lia.
Qed.

Lemma le_words_range b : Forall byte_ok b -> Forall word32 (le_words b).
Proof.
  intros Hb. unfold le_words. apply Forall_map, Forall_true. intros i.
  apply (be_word_range [byte_at b (4 * i + 3); byte_at b (4 * i + 2); byte_at b (4 * i + 1); byte_at b (4 * i)]).
  repeat constructor; by apply byte_at_ok.
Qed.

Lemma store_le_bytes z : 0 <= z -> store_le32 z = le_bytes 4 z.
Proof.
  intros Hz. unfold store_le32, le_bytes, wrap. rewrite !Z.shiftr_div_pow2 by lia. cbn [be_bytes rev app].
  rewrite !Z.div_div by lia. done.
Qed.

(** ** The steps *)

Lemma f_eq t x y z : word32 x -> word32 y -> word32 z -> F (t / 16 + 1) x y z = f t x y z.
Proof.
  intros Hx Hy Hz.
  assert (forall a b c, word32 c -> F1 a b c = Z.lor (Z.land a b) (Z.land (lnotw 32 a) c)) as Hch.
  { intros a b c Hc. apply Z.bits_inj'. intros i Hi. unfold F1, lnotw, wrap.
    rewrite Z.lxor_spec, Z.lor_spec, !Z.land_spec, Z.lxor_spec. destruct (decide (i < 32)).
    - rewrite Z.mod_pow2_bits_low, Z.lnot_spec by lia. by destruct (Z.testbit a i), (Z.testbit b i), (Z.testbit c i).
    - rewrite (word32_bits c i) by (done || lia). rewrite Z.mod_pow2_bits_high by lia.
      by destruct (Z.testbit a i), (Z.testbit b i). }
  unfold f. destruct (t / 16)%nat as [|[|[|n]]] eqn:E.
  - by apply Hch.
  - cbn [F Nat.add]. rewrite Hch by done. by rewrite (Z.land_comm z x), (Z.land_comm _ y).
  - done.
  - by replace (S (S (S n)) + 1)%nat with (S (S (S (S n)))) by lia.
Qed.

#[local] Opaque T.

Definition rotations : list (list nat) := [[0; 1; 2; 3]; [3; 0; 1; 2]; [2; 3; 0; 1]; [1; 2; 3; 0]]%nat.

Lemma md5_rotate_rotations p : p ∈ rotations -> rotate p ∈ rotations.
Proof.
  intros Hp. unfold rotations in Hp. repeat (apply elem_of_cons in Hp as [->|Hp]; [vm_compute; set_solver|]).
  by apply not_elem_of_nil in Hp.
Qed.

Definition words4 (l : list Z) : Prop := length l = 4%nat /\ Forall word32 l.

Lemma words4_inv l : words4 l -> exists a b c d, l = [a; b; c; d] /\ word32 a /\ word32 b /\ word32 c /\ word32 d.
Proof.
  intros [Hl Hf]. do 5 (destruct l as [|? l]; try done). repeat (apply Forall_cons in Hf as [? Hf]).
  eexists _, _, _, _. split; [reflexivity | done].
Qed.

Lemma rotation_range t : (t < 64)%nat -> 0 < rotation t < 32.
Proof.
  intros Ht. assert (Forall (fun t => 0 < rotation t < 32) (seq 0 64)) as Hall by (vm_compute; repeat constructor; done).
  rewrite Forall_forall in Hall. apply Hall. apply elem_of_seq. lia.
Qed.

(** The value of one step. *)
Lemma step_value t X a b c d : (t < 64)%nat -> word32 a -> word32 b -> word32 c -> word32 d ->
  let w := u32 (a + (F (t / 16 + 1) b c d + u32 (nth (index t) X 0 + nth t T 0))) in
  u32 (Z.lor (u32 (Z.shiftl w (rotation t))) (Z.shiftr w (32 - rotation t)) + b) =
    (b + rotl (rotation t) ((a + f t b c d + nth (index t) X 0 + nth t T 0) mod 2 ^ 32)) mod 2 ^ 32.
Proof.
  intros Ht Ha Hb Hc Hd. cbv zeta. rewrite f_eq by done. pose proof (rotation_range t Ht) as Hr.
  set (s := rotation t) in *. assert (u32 (a + (f t b c d + u32 (nth (index t) X 0 + nth t T 0))) =
    (a + f t b c d + nth (index t) X 0 + nth t T 0) mod 2 ^ 32) as ->.
  { unfold wrap. rewrite Z.add_assoc, Zplus_mod_idemp_r. f_equal. lia. }
  set (w := _ mod 2 ^ 32). assert (word32 w) as Hw by (apply Z.mod_pos_bound; lia).
  unfold rotl. rewrite <- (rotr_shifts (32 - s) w) by (done || lia). replace (32 - (32 - s)) with s by lia.
  rewrite Z.lor_comm. unfold wrap. f_equal. lia.
Qed.

Lemma MD5STEP_step t p regs X : p ∈ rotations -> words4 regs -> (t < 64)%nat ->
  let regs' := MD5STEP (t / 16 + 1) regs p (u32 (nth (index t) X 0 + nth t T 0)) (rotation t) in
  words4 regs' /\ view (rotate p) regs' = step X (view p regs) t.
Proof.
  intros Hp (a & b & c & d & -> & ? & ? & ? & ?)%words4_inv Ht. unfold rotations in Hp. cbv zeta.
  pose proof word32_wrap as Hw.
  repeat (apply elem_of_cons in Hp as [->|Hp]; [|]); [.. | by apply not_elem_of_nil in Hp].
  all: split; [split; [reflexivity |
         repeat apply Forall_cons_2; try apply Forall_nil_2; first [assumption | apply Hw]]|].
  all: unfold view; cbn [map nth step]; rewrite <- step_value by assumption; reflexivity.
Qed.

Lemma run_steps_spec X rs : forall t p regs, (t + length rs = 64)%nat ->
  map snd rs = map (fun t => ((t / 16 + 1)%nat, index t, nth t T 0, rotation t)) (seq t (length rs)) ->
  follows 4 p rs = true -> p ∈ rotations -> words4 regs ->
  run_steps rs regs X = fold_left (step X) (seq t (length rs)) (view p regs) /\ words4 (run_steps rs regs X).
Proof.
  induction rs as [|[p' [[[q i] c] s]] rs IH]; intros t p regs Hl Ht Hf Hp Hr.
  - cbn [follows] in Hf. apply bool_decide_eq_true in Hf as ->.
    destruct (words4_inv _ Hr) as (?&?&?&?& -> & _). done.
  - cbn [follows] in Hf. apply andb_true_iff in Hf as [Hq Hf]. apply bool_decide_eq_true in Hq as ->.
    cbn [length] in Hl. cbn [map snd seq length] in Ht. injection Ht as -> -> -> -> Ht.
    cbn [run_steps length seq fold_left].
    destruct (MD5STEP_step t p regs X Hp Hr ltac:(lia)) as [Hw <-].
    apply IH; try done; [lia | by apply md5_rotate_rotations].
Qed.

(** The compression function of the code, on a block of bytes. *)
Definition process (st : list Z) (b : bytes) : list Z := MD5Transform st (in32 b).

Lemma md5_process_compress st b : words4 st -> process st b = compress st b /\ words4 (compress st b).
Proof.
  intros Hst. unfold process, MD5Transform, compress. rewrite in32_words.
  destruct (run_steps_spec (le_words b) steps 0 (seq 0 4) st eq_refl steps_table) as [H1 H2];
    [by vm_compute | vm_compute; set_solver | done |].
  assert (view (seq 0 4) st = st) as Hv by (by destruct (words4_inv _ Hst) as (?&?&?&?& -> & _)).
  rewrite Hv in H1. change (length steps) with 64%nat in H1. rewrite H1 in H2 |- *. split; [done|].
  destruct (words4_inv _ Hst) as (?&?&?&?& -> & _).
  destruct (words4_inv _ H2) as (?&?&?&?& E & _). rewrite E. split; [done|]. cbn [zip_with].
  repeat apply Forall_cons_2; try apply Forall_nil_2; apply word32_wrap.
Qed.
(** ** Buffering *)

Lemma put_ok b l input : Forall byte_ok b -> Forall byte_ok input -> Forall byte_ok (put b l input).
Proof.
  intros Hb Hi. unfold put. rewrite !Forall_app. split_and!; [by apply Forall_take | done | by apply Forall_drop].
Qed.

Lemma transform_in_process b inn : Forall byte_ok inn -> transform_in b inn = (process b inn, inn).
Proof. intros Hi. unfold transform_in. by rewrite byteReverse_id. Qed.

Lemma put_block inn data : length inn = 64%nat -> (64 <= length data)%nat -> put inn 0 (take 64 data) = take 64 data.
Proof.
  intros Hi Hd. apply (absorb_fill inn []); [done | done | rewrite length_take; cbn [length]; lia].
Qed.

Lemma chunk_loop_spec fuel : forall b inn data, length inn = 64%nat -> Forall byte_ok inn -> Forall byte_ok data ->
  exists inn', chunk_loop fuel b inn data =
      ((blocks_loop process fuel b data).1, inn', (blocks_loop process fuel b data).2) /\
    length inn' = 64%nat /\ Forall byte_ok inn' /\ Forall byte_ok (blocks_loop process fuel b data).2.
Proof.
  induction fuel as [|fuel IH]; intros b inn data Hl Hi Hd; cbn [chunk_loop blocks_loop].
  - destruct (length data <? 64)%nat; eauto.
  - destruct (Nat.ltb_spec (length data) 64) as [Hs|Hg]; [eauto|].
    rewrite put_block by done. assert (Forall byte_ok (take 64 data)) as Ht by (by apply Forall_take).
    rewrite transform_in_process by done. apply IH; [rewrite length_take; lia | done | by apply Forall_drop].
Qed.

(** Without waiting bytes the buffer does not matter. *)
Lemma absorbed_any st b b' msg : absorbed process H0 st b msg -> Z.of_nat (length msg) mod 64 = 0 ->
  length b' = 64%nat -> absorbed process H0 st b' msg.
Proof.
  intros Ha Hm Hl. apply absorbed_mod in Ha as (bs & rest & -> & Hb & -> & _ & _ & Hr).
  rewrite Hm in Hr. destruct rest; [|simpl in Hr; lia]. exists bs, []. split_and!; done || (simpl; lia).
Qed.

(** The loop over the blocks and the copy of the rest. *)
Lemma chunk_absorbs b inn msg data : absorbed process H0 b inn msg -> Z.of_nat (length msg) mod 64 = 0 ->
  Forall byte_ok inn -> Forall byte_ok data ->
  exists b' inn' data', chunk_loop (length data) b inn data = (b', inn', data') /\
    absorbed process H0 b' (put inn' 0 data') (msg ++ data) /\ Forall byte_ok (put inn' 0 data').
Proof.
  intros Ha Hm Hi Hd. assert (length inn = 64%nat) as Hl by (by destruct Ha as (?&?&?&?&?&?&?&?)).
  destruct (chunk_loop_spec (length data) b inn data Hl Hi Hd) as (inn' & -> & Hl' & Hi' & Hd').
  destruct (absorb_blocks process H0 _ _ _ data (length data) Ha Hm (le_n _))
    as (st' & bs & rest & E & -> & Hr & Hb & Ha' & Hm'). rewrite E in Hd' |- *. cbn [fst snd] in *.
  eexists _, _, _. split; [done|]. split; [|by apply put_ok]. rewrite app_assoc.
  apply absorb_store; [by eapply absorbed_any | done | lia].
Qed.

(** ** The bit counter *)

Definition counts (ctx : MD5Context) (n : Z) : Prop :=
  bits0 ctx = (8 * n) mod 2 ^ 32 /\ bits1 ctx = (8 * n / 2 ^ 32) mod 2 ^ 32.

Lemma waiting n : 0 <= n -> Z.land (Z.shiftr ((8 * n) mod 2 ^ 32) 3) 0x3f = n mod 64.
Proof.
  intros Hn. change 0x3f with (Z.ones 6). rewrite Z.land_ones, Z.shiftr_div_pow2 by lia.
  change (2 ^ 32) with (8 * 2 ^ 29). rewrite Zmult_mod_distr_l. change (2 ^ 3) with 8.
  rewrite (Z.mul_comm 8), Z.div_mul by lia. change (2 ^ 29) with (2 ^ 6 * 2 ^ 23). rewrite Z.rem_mul_r by lia.
  rewrite (Z.mul_comm (2 ^ 6)), Z.mod_add, Z.mod_mod by lia. done.
Qed.

Lemma count_bits n len : 0 <= n -> 0 <= len < 2 ^ 32 ->
  let t := (8 * n) mod 2 ^ 32 in let h := (8 * n / 2 ^ 32) mod 2 ^ 32 in
  let b0 := u32 (t + u32 (Z.shiftl len 3)) in
  b0 = (8 * (n + len)) mod 2 ^ 32 /\
  u32 ((if b0 <? t then u32 (h + 1) else h) + Z.shiftr len 29) = (8 * (n + len) / 2 ^ 32) mod 2 ^ 32.
Proof.
  intros Hn Hl. cbv zeta. unfold wrap. rewrite Z.shiftl_mul_pow2, Z.shiftr_div_pow2 by lia.
  change (2 ^ 3) with 8. pose proof (Z.div_mod (8 * n) (2 ^ 32) ltac:(lia)) as Hd.
  pose proof (Z.mod_pos_bound (8 * n) (2 ^ 32) ltac:(lia)) as Ht.
  pose proof (Z.div_mod len (2 ^ 29) ltac:(lia)) as Hd2. pose proof (Z.mod_pos_bound len (2 ^ 29) ltac:(lia)) as Hr2.
  set (t := (8 * n) mod 2 ^ 32) in *. set (q := 8 * n / 2 ^ 32) in *. set (h := len / 2 ^ 29) in *.
  set (r := len mod 2 ^ 29) in *.
  assert ((len * 8) mod 2 ^ 32 = 8 * r) as -> by (symmetry; apply (Z.mod_unique _ _ h); lia).
  destruct (decide (t + 8 * r < 2 ^ 32)) as [Hs|Hc].
  - rewrite (Z.mod_small (t + 8 * r)) by lia. rewrite (proj2 (Z.ltb_ge _ _)) by lia.
    rewrite <- (Z.mod_unique (8 * (n + len)) (2 ^ 32) (q + h) (t + 8 * r)) by lia. split; [done|].
    rewrite <- (Z.div_unique (8 * (n + len)) (2 ^ 32) (q + h) (t + 8 * r)) by lia. apply Zplus_mod_idemp_l.
  - rewrite <- (Z.mod_unique (t + 8 * r) (2 ^ 32) 1 (t + 8 * r - 2 ^ 32)) by lia.
    rewrite (proj2 (Z.ltb_lt _ _)) by lia.
    rewrite <- (Z.mod_unique (8 * (n + len)) (2 ^ 32) (q + h + 1) (t + 8 * r - 2 ^ 32)) by lia. split; [done|].
    rewrite <- (Z.div_unique (8 * (n + len)) (2 ^ 32) (q + h + 1) (t + 8 * r - 2 ^ 32)) by lia.
    rewrite Zplus_mod_idemp_l, <- Z.add_assoc, Zplus_mod_idemp_l. f_equal. lia.
Qed.
(** The context after the message [msg]. *)
Definition tracks5 (ctx : MD5Context) (msg : bytes) : Prop :=
  absorbed process H0 (buf ctx) (in_ ctx) msg /\ Forall byte_ok (in_ ctx) /\ counts ctx (Z.of_nat (length msg)).

Lemma MD5Update_tracks ctx msg data : tracks5 ctx msg -> Forall byte_ok data -> Z.of_nat (length data) < 2 ^ 32 ->
  tracks5 (MD5Update ctx data) (msg ++ data).
Proof.
  intros (Ha & Hi & H0 & H1) Hd Hl. set (n := Z.of_nat (length msg)) in *.
  destruct (count_bits n (Z.of_nat (length data))) as [E0 E1]; [lia | lia|]. rewrite <- H0 in E0, E1. rewrite <- H1 in E1.
  assert (8 * (n + Z.of_nat (length data)) = 8 * Z.of_nat (length (msg ++ data))) as En by (rewrite length_app; lia).
  rewrite En in E0, E1.
  unfold MD5Update. cbv zeta. set (b0 := u32 (bits0 ctx + _)) in *. set (b1 := u32 (_ + Z.shiftr _ 29)) in *.
  assert (Z.land (Z.shiftr (bits0 ctx) 3) 0x3f = n mod 64) as -> by (rewrite H0; apply waiting; lia).
  assert (forall b inn, absorbed process Md5.H0 b inn (msg ++ data) -> Forall byte_ok inn ->
            tracks5 (mkMD5 b b0 b1 inn) (msg ++ data)) as Hfin by (intros; split_and!; done).
  pose proof (Z.mod_pos_bound n 64 ltac:(lia)) as Hm.
  destruct (Z.eqb_spec (n mod 64) 0) as [Ez|Ez]; cbn [negb andb].
  { destruct (chunk_absorbs _ _ _ data Ha Ez Hi Hd) as (b & inn & data' & -> & Ha' & Hi'). by apply Hfin. }
  destruct (Z.ltb_spec (Z.of_nat (length data)) (64 - n mod 64)) as [Hlt|Hge].
  { apply Hfin; [apply absorb_store; done || lia | by apply put_ok]. }
  set (k := Z.to_nat (64 - n mod 64)).
  assert (Z.of_nat (length (take k data)) = 64 - n mod 64) as Hk by (rewrite length_take; lia).
  destruct (absorb_first process Md5.H0 (mkCtx 0 0 (buf ctx) (in_ ctx)) msg (take k data) (n mod 64) Ha eq_refl Hk)
    as [Ha1 Hm1]. cbn [state buffer] in Ha1.
  assert (Forall byte_ok (put (in_ ctx) (n mod 64) (take k data))) as Hi1 by (by apply put_ok; [|apply Forall_take]).
  rewrite transform_in_process by done.
  destruct (chunk_absorbs _ _ _ (drop k data) Ha1 Hm1 Hi1) as (b & inn & data' & -> & Ha' & Hi'); [by apply Forall_drop|].
  rewrite <- app_assoc, take_drop in Ha'. by apply Hfin.
Qed.

(** ** The padding in the buffer *)

Lemma le_bytes_app z : 0 <= z ->
  le_bytes 8 z = le_bytes 4 (z mod 2 ^ 32) ++ le_bytes 4 ((z / 2 ^ 32) mod 2 ^ 32).
Proof.
  intros Hz. unfold le_bytes. change 8%nat with (4 + 4)%nat. rewrite be_bytes_app by done.
  change (256 ^ Z.of_nat 4) with (2 ^ 32). rewrite rev_app_distr.
  rewrite <- (be_bytes_mod 4 z), <- (be_bytes_mod 4 (z / 2 ^ 32)) by (done || apply Z.div_pos; lia). done.
Qed.

Lemma put_tail inn a b : length inn = 64%nat -> length a = 4%nat -> length b = 4%nat ->
  put (put inn 56 a) 60 b = take 56 inn ++ a ++ b.
Proof.
  intros Hi Ha Hb. unfold put. change (Z.to_nat 56) with 56%nat. change (Z.to_nat 60) with 60%nat. rewrite Ha, Hb.
  rewrite (drop_ge _ (60 + 4)) by (rewrite !length_app, length_take, length_drop; lia). rewrite app_nil_r.
  rewrite !app_assoc. f_equal. rewrite <- (take_app_length (take 56 inn ++ a) (drop (56 + 4) inn)) at 2.
  rewrite length_app, length_take, Ha, Hi. done.
Qed.

Lemma put_prefix inn (r : bytes) l : length inn = 64%nat -> take (length r) inn = r ->
  (length r + length l <= 64)%nat ->
  let inn' := put inn (Z.of_nat (length r)) l in
  length inn' = 64%nat /\ take (length (r ++ l)) inn' = r ++ l.
Proof.
  intros Hi Ht Hl. cbv zeta. split; [rewrite length_put; lia|].
  rewrite length_app. replace (length r) with (Z.to_nat (Z.of_nat (length r))) at 1 by lia.
  rewrite take_put by lia. by rewrite Nat2Z.id, Ht.
Qed.

Lemma store_length z : length (store_le32 z) = 4%nat.
Proof. done. Qed.

Lemma md5_store_ok z : Forall byte_ok (store_le32 z).
Proof. unfold store_le32, byte_ok. repeat apply Forall_cons_2; try apply Forall_nil_2; apply wrap_range; lia. Qed.

(** The padding of a rest of [c] bytes. *)
Lemma pad_rest msg bs rest : msg = concat bs ++ rest -> Z.of_nat (length rest) = Z.of_nat (length msg) mod 64 ->
  let c := length rest in
  pad_with (le_bytes 8 (bit_length msg)) msg =
    concat bs ++ (rest ++ [0x80]) ++
      (if (c <=? 55)%nat then replicate (55 - c) 0 else replicate (63 - c) 0 ++ replicate 56 0) ++
      le_bytes 8 (bit_length msg).
Proof.
  intros E Hr. cbv zeta. unfold pad_with. set (n := Z.of_nat (length msg)) in *. set (len := le_bytes _ _). rewrite E.
  rewrite <- !app_assoc. f_equal. f_equal. cbn [app]. f_equal. f_equal.
  pose proof (Z.mod_pos_bound n 64 ltac:(lia)). pose proof (Z.div_mod n 64 ltac:(lia)) as Hd.
  destruct (Nat.leb_spec (length rest) 55).
  - f_equal. rewrite <- (Z.mod_unique (55 - n) 64 (- (n / 64)) (55 - Z.of_nat (length rest))); lia.
  - rewrite <- replicate_add. f_equal.
    rewrite <- (Z.mod_unique (55 - n) 64 (- (n / 64) - 1) (119 - Z.of_nat (length rest))); lia.
Qed.

Lemma stores_ok l : Forall byte_ok (concat (map store_le32 l)).
Proof. induction l as [|x l IH]; [constructor|]. cbn [map concat]. apply Forall_app. split; [apply md5_store_ok | done]. Qed.

Lemma zeros_ok k : Forall byte_ok (replicate k 0).
Proof. apply Forall_replicate. unfold byte_ok. lia. Qed.

(** The last block: 56 bytes in the buffer and the bit counter. *)
Lemma final_block ctx n st inn pre : counts ctx n -> 0 <= n -> length inn = 64%nat -> Forall byte_ok inn ->
  take 56 inn = pre ->
  byteReverse (concat (map store_le32 (MD5Transform st (in32 (put (put (byteReverse inn 14) 56
    (store_le32 (bits0 ctx))) 60 (store_le32 (bits1 ctx))))))) 4 =
  concat (map store_le32 (process st (pre ++ le_bytes 8 (8 * n)))).
Proof.
  intros [E0 E1] Hn Hl Hi Hpre. rewrite (byteReverse_id 14), byteReverse_id by (done || apply stores_ok).
  assert (store_le32 (bits0 ctx) ++ store_le32 (bits1 ctx) = le_bytes 8 (8 * n)) as Hlen.
  { rewrite le_bytes_app, <- E0, <- E1 by lia.
    rewrite !store_le_bytes; [done | rewrite E1 | rewrite E0]; apply Z.mod_pos_bound; lia. }
  by rewrite put_tail, Hpre, Hlen.
Qed.

Lemma blocks_end bs b : Forall block bs -> block b ->
  fold_blocks process H0 (concat bs ++ b) = process (fold_left process bs H0) b.
Proof.
  intros Hb Hl. replace (concat bs ++ b) with (concat (bs ++ [b])) by (rewrite concat_app; simpl; by rewrite app_nil_r).
  rewrite fold_blocks_concat, fold_left_app; [done|]. apply Forall_app. by rewrite Forall_singleton.
Qed.

Lemma length_le_bytes n z : length (le_bytes n z) = n.
Proof. unfold le_bytes. by rewrite length_rev, length_be_bytes. Qed.

Lemma final_state ctx msg : tracks5 ctx msg ->
  MD5Final ctx = concat (map store_le32 (fold_blocks process H0 (pad_with (le_bytes 8 (bit_length msg)) msg))).
Proof.
  intros (Ha & Hi & Hcnt). apply absorbed_mod in Ha as (bs & rest & E & Hb & Hst & Hl & Ht & Hr).
  rewrite (pad_rest msg bs rest E Hr). unfold bit_length. set (n := Z.of_nat (length msg)) in *. set (c := length rest) in *.
  pose proof (Z.mod_pos_bound n 64 ltac:(lia)) as Hm. unfold MD5Final.
  assert (Z.land (Z.shiftr (bits0 ctx) 3) 0x3F = Z.of_nat c) as -> by (rewrite (proj1 Hcnt), waiting; lia). cbv zeta.
  destruct (put_prefix (in_ ctx) rest [0x80] Hl Ht ltac:(cbn [length]; lia)) as [Hl1 Ht1]. fold c in Hl1, Ht1.
  set (inn1 := put (in_ ctx) (Z.of_nat c) [0x80]) in *. set (r := rest ++ [0x80]) in *.
  assert (Forall byte_ok inn1) as Hi1 by (apply put_ok; [done|]; apply Forall_singleton; unfold byte_ok; lia).
  assert (length r = (c + 1)%nat) as Hlr by (unfold r; rewrite length_app; done).
  replace (Z.of_nat c + 1) with (Z.of_nat (length r)) by lia.
  destruct (Nat.leb_spec c 55) as [Hc|Hc].
  - rewrite (proj2 (Z.ltb_ge _ _)) by lia. replace (Z.to_nat (64 - 1 - Z.of_nat c - 8)) with (55 - c)%nat by lia.
    destruct (put_prefix inn1 r (replicate (55 - c) 0) Hl1 Ht1) as [Hl2 Ht2]; [rewrite length_replicate; lia|].
    rewrite length_app, length_replicate in Ht2. replace (length r + (55 - c))%nat with 56%nat in Ht2 by lia.
    rewrite (final_block ctx n _ _ _ Hcnt ltac:(lia) Hl2 (put_ok _ _ _ Hi1 (zeros_ok _)) Ht2).
    rewrite Hst, (app_assoc r). rewrite <- blocks_end; [done | done|].
    unfold block. rewrite !length_app, length_replicate, length_le_bytes. lia.
  - rewrite (proj2 (Z.ltb_lt _ _)) by lia. replace (Z.to_nat (64 - 1 - Z.of_nat c)) with (63 - c)%nat by lia.
    rewrite absorb_fill by (done || rewrite length_replicate; lia).
    assert (block (r ++ replicate (63 - c) 0)) as Hblk by (unfold block; rewrite length_app, length_replicate; lia).
    assert (Forall byte_ok (r ++ replicate (63 - c) 0)) as Hok.
    { apply Forall_app. split; [|apply zeros_ok]. rewrite <- Ht1. by apply Forall_take. }
    rewrite transform_in_process by done.
    destruct (put_prefix (r ++ replicate (63 - c) 0) [] (replicate 56 0) Hblk eq_refl) as [Hl2 Ht2];
      [rewrite length_replicate; cbn [length]; lia|].
    rewrite (final_block ctx n _ _ _ Hcnt ltac:(lia) Hl2 (put_ok _ _ _ Hok (zeros_ok _)) Ht2).
    cbn [app]. rewrite Hst, <- app_assoc, (app_assoc r), (app_assoc (concat bs)).
    replace (concat bs ++ r ++ replicate (63 - c) 0) with (concat (bs ++ [r ++ replicate (63 - c) 0]))
      by (rewrite concat_app; cbn [concat]; by rewrite app_nil_r).
    rewrite blocks_end.
    + by rewrite fold_left_app.
    + apply Forall_app. by rewrite Forall_singleton.
    + unfold block. rewrite length_app, length_replicate, length_le_bytes. done.
Qed.

Lemma tracked_digest ctx msg : tracks5 ctx msg -> Forall byte_ok msg -> MD5Final ctx = md5_digest msg.
Proof.
  intros Ht Hb. rewrite (final_state ctx msg Ht). unfold md5_digest.
  destruct (fold_blocks_sim (fun s s' => s = s' /\ words4 s) process compress H0 H0 (le_bytes 8 (bit_length msg)) msg)
    as [E Hw]; try done.
  - intros st st' b [<- Hw] _ _. destruct (md5_process_compress st b Hw) as [-> ?]. done.
  - split; [done|]. split; [done|]. unfold H0. repeat apply Forall_cons_2; try apply Forall_nil_2; unfold word32; lia.
  - unfold le_bytes. apply Forall_rev, be_bytes_ok.
  - rewrite <- E. f_equal. apply map_ext_in. intros x Hx. apply store_le_bytes.
    destruct Hw as [_ Hw]. rewrite Forall_forall in Hw. apply Hw. by apply list_elem_of_In.
Qed.

Lemma MD5Init_tracks inn : length inn = 64%nat -> Forall byte_ok inn -> tracks5 (MD5Init inn) [].
Proof.
  intros Hl Hi. split_and!; [|done|done]. exists [], []. split_and!; done || (simpl; lia).
Qed.

Lemma md5_loop_tracks fuel : forall ctx msg input chunk_sz, tracks5 ctx msg -> (length input <= fuel)%nat ->
  0 < Z.of_nat chunk_sz < 2 ^ 32 -> Forall byte_ok input ->
  exists ctx', md5_loop fuel ctx input chunk_sz = Some ctx' /\ tracks5 ctx' (msg ++ input).
Proof.
  induction fuel as [|fuel IH]; intros ctx msg input chunk_sz Ht Hf Hc Hb.
  - destruct input; [|simpl in Hf; lia]. rewrite app_nil_r. by exists ctx.
  - destruct (decide (input = [])) as [->|Hne]; [rewrite app_nil_r; by exists ctx|].
    assert (0 < length input)%nat by (destruct input; simpl; [done | lia]).
    set (k := Nat.min chunk_sz (length input)).
    destruct (IH (MD5Update ctx (take k input)) (msg ++ take k input) (drop k input) chunk_sz) as (ctx' & H1 & H2).
    + apply MD5Update_tracks; [done | by apply Forall_take | rewrite length_take; lia].
    + rewrite length_drop. lia.
    + done.
    + by apply Forall_drop.
    + exists ctx'. rewrite <- app_assoc, take_drop in H2. split; [|done]. cbn [md5_loop]. by destruct input.
Qed.

(** [md5] and [md5_wd], with and without a watchdog, compute the MD5 digest
    of RFC 1321 (with the table from the sine function): the bit counter with
    its carries, the in-place padding, the buffering in any chunk size and the
    optimised step functions agree with the standard. *)
Theorem md5_correct watchdog inn input chunk_sz : length inn = 64%nat -> Forall byte_ok inn ->
  Forall byte_ok input -> Z.of_nat (length input) < 2 ^ 31 -> 0 < Z.of_nat chunk_sz < 2 ^ 31 ->
  md5 inn input = md5_digest input /\ md5_wd watchdog inn input chunk_sz = Some (md5_digest input).
Proof.
  intros Hl Hi Hb Hn Hc. pose proof (MD5Init_tracks inn Hl Hi) as Ht.
  assert (tracks5 (MD5Update (MD5Init inn) input) ([] ++ input)) as Hu by (by apply MD5Update_tracks; [| |lia]).
  split; [by apply tracked_digest|]. unfold md5_wd.
  assert (exists ctx, (if watchdog then md5_loop (length input) (MD5Init inn) input chunk_sz
            else Some (MD5Update (MD5Init inn) input)) = Some ctx /\ tracks5 ctx ([] ++ input)) as (ctx & -> & Ht').
  { destruct watchdog; [|eauto]. apply md5_loop_tracks; done || lia. }
  cbn [mbind option_bind]. f_equal. by apply tracked_digest.
Qed.

Lemma md5_correct_witness :
  md5 (replicate 64 255) (str "abc") = md5_digest (str "abc") /\
  md5_wd true (replicate 64 255) (str "abc") 2 = Some (md5_digest (str "abc")).
Proof.
  apply md5_correct; [reflexivity | apply Forall_replicate; unfold byte_ok; lia | apply str_ok | reflexivity | split; reflexivity].
Defined.

End Md5.
