(* ===== verification/CArray.v ===== *)
(** * Strings in arrays (lib/string.c)

    Code that keeps strings in fixed arrays calls the string functions on a
    bounded number of bytes.  Here the functions work on the array as a value:
    the list of its bytes, where a read or a write behind the end is [None].
    CString.v has the same functions on memory. *)

From S2P Require Import Prelude CString.

Module CArray.
Import CString.

(** A string literal with its terminator. *)
Definition cs (s : string) : bytes := str s ++ [0].

(** [strncmp] on two arrays. *)
Fixpoint strncmp_arr (n : nat) (a b : bytes) : option Z :=
  match n with
  | O => Some 0
  | S n' =>
      match a, b with
      | x :: a', y :: b' =>
          if s8 (x - y) =? 0
          then if x =? 0 then Some 0 else strncmp_arr n' a' b'
          else Some (s8 (x - y))
      | _, _ => None
      end
  end.

(** [strncpy] of [src] over the array [dst]; it stops behind the terminator
    and does not fill the rest. *)
Fixpoint strncpy_arr (n : nat) (dst src : bytes) : option bytes :=
  match n with
  | O => Some dst
  | S n' =>
      match dst, src with
      | _ :: dst', c :: src' =>
          if c =? 0 then Some (c :: dst')
          else r ← strncpy_arr n' dst' src'; Some (c :: r)
      | _, _ => None
      end
  end.

(** [strlen] of the string at the start of the array. *)
Fixpoint strlen_arr (s : bytes) : option Z :=
  match s with
  | [] => None
  | c :: s' => if c =? 0 then Some 0 else n ← strlen_arr s'; Some (n + 1)
  end.

(** ** Lemmas on strings in arrays *)

(** [strncmp] of [n] bytes stays inside [a]. *)
Definition bounded (n : nat) (a : bytes) : Prop := (n <= length a)%nat \/ 0 ∈ a.

#[global] Instance bounded_dec n a : Decision (bounded n a) := _.

Lemma bounded_cons n x a : x <> 0 -> bounded (S n) (x :: a) -> bounded n a.
Proof. intros Hx [Hl|Hi]; [left; simpl in Hl; lia|right; apply elem_of_cons in Hi as [Hi|Hi]; congruence]. Qed.

Lemma bounded_nil n : ~ bounded (S n) [].
Proof. intros [Hl|Hi]; [simpl in Hl; lia|by apply elem_of_nil in Hi]. Qed.

Lemma s8_diff x y : byte_ok x -> byte_ok y -> (s8 (x - y) =? 0) = (x =? y).
Proof.
  unfold byte_ok, to_signed, wrap; intros Hx Hy.
  change (2 ^ 8) with 256; change (2 ^ (8 - 1)) with 128; pose proof (Z.mod_pos_bound (x - y) 256 eq_refl) as Hm.
  destruct (Z.eqb_spec x y) as [->|Hne].
  - by rewrite Z.sub_diag.
  - assert ((x - y) mod 256 <> 0) by (intros E; apply Z.mod_divide in E as [k E]; lia).
    case_match; lia.
Qed.

(** What a call with result 0 says. *)
Fixpoint same_str (n : nat) (a b : bytes) : bool :=
  match n, a, b with
  | O, _, _ => true
  | S n', x :: a', y :: b' => (x =? y) && ((x =? 0) || same_str n' a' b')
  | S _, _, _ => false
  end.

Lemma strncmp_same n : forall a b, bounded n a -> bounded n b -> Forall byte_ok a -> Forall byte_ok b ->
  exists r, strncmp_arr n a b = Some r /\ (r =? 0) = same_str n a b.
Proof.
  induction n as [|n IH]; intros a b Ha Hb Fa Fb; [by exists 0|].
  destruct a as [|x a]; [by apply bounded_nil in Ha|]; destruct b as [|y b]; [by apply bounded_nil in Hb|].
  apply Forall_cons in Fa as [Hx Fa]; apply Forall_cons in Fb as [Hy Fb]; simpl.
  pose proof (s8_diff x y Hx Hy) as E; destruct (Z.eqb_spec x y) as [->|Hne]; rewrite E; [|by eauto].
  destruct (Z.eqb_spec y 0) as [->|H0]; [by eauto|]; apply IH; eauto using bounded_cons.
Qed.

Lemma same_str_sym n : forall a b, same_str n a b = same_str n b a.
Proof.
  induction n as [|n IH]; intros [|x a] [|y b]; simpl; try done.
  rewrite (Z.eqb_sym y x), IH; destruct (Z.eqb_spec x y) as [->|]; done.
Qed.

Lemma same_str_refl n : forall a, bounded n a -> same_str n a a = true.
Proof.
  induction n as [|n IH]; intros [|x a] Hb; simpl; [done..|by apply bounded_nil in Hb|].
  rewrite Z.eqb_refl; destruct (Z.eqb_spec x 0) as [->|]; simpl; eauto using bounded_cons.
Qed.

Lemma strncpy_total n : forall dst src, (n <= length dst)%nat -> bounded n src ->
  exists d, strncpy_arr n dst src = Some d /\ length d = length dst.
Proof.
  induction n as [|n IH]; intros dst src Hd Hs; [by exists dst|].
  destruct dst as [|x dst]; [simpl in Hd; lia|]; simpl in *.
  destruct src as [|c src]; [by apply bounded_nil in Hs|].
  destruct (Z.eqb_spec c 0) as [->|Hc]; [by eexists|].
  destruct (IH dst src) as (d & -> & Hl); [lia|by eapply bounded_cons|]; simpl; eexists; split; [done|simpl; lia].
Qed.

(** A copied name is a name and compares as its source. *)
Lemma strncpy_bytes n : forall dst src d, strncpy_arr n dst src = Some d ->
  Forall byte_ok dst -> Forall byte_ok src -> Forall byte_ok d.
Proof.
  induction n as [|n IH]; intros [|x dst] [|c src] d E Fd Fs; simpl in E; simplify_eq; try done.
  apply Forall_cons in Fd as [Hx Fd]; apply Forall_cons in Fs as [Hc Fs].
  destruct (c =? 0); simplify_eq; [by apply Forall_cons|].
  destruct (strncpy_arr n dst src) as [d'|] eqn:E'; simplify_eq/=; apply Forall_cons; eauto.
Qed.

Lemma strncpy_same n : forall dst src d, strncpy_arr n dst src = Some d -> bounded n src ->
  same_str n d src = true.
Proof.
  induction n as [|n IH]; intros [|x dst] [|c src] d E Hs; simpl in E; simplify_eq; try done.
  destruct (Z.eqb_spec c 0) as [->|Hc]; simplify_eq; [done|].
  destruct (strncpy_arr n dst src) as [d'|] eqn:E'; simplify_eq/=.
  rewrite Z.eqb_refl; apply orb_true_intro; right; eauto using bounded_cons.
Qed.

Arguments strncmp_arr : simpl never. Arguments strncpy_arr : simpl never. Arguments same_str : simpl never.

(** ** The functions on memory compute the same *)

Lemma array_fuel m p a : bytes_at m p a -> (length a <= size m)%nat.
Proof. intros H; eapply mapped_size, bytes_at_mapped, H. Qed.

Lemma strncmp_loop_array n : forall a b m p q fuel r, bytes_at m p a -> bytes_at m q b ->
  (length a < fuel)%nat -> strncmp_arr n a b = Some r ->
  strncmp_loop fuel m p q (Z.of_nat n) = Some r.
Proof.
  induction n as [|n IH]; intros a b m p q fuel r Ha Hb Hf E; (destruct fuel as [|fuel]; [lia|]); [done|].
  destruct a as [|x a]; [done|]; destruct b as [|y b]; [done|].
  apply bytes_at_cons in Ha as [Hx Ha]; apply bytes_at_cons in Hb as [Hy Hb].
  cbn [strncmp_loop]; replace (Z.of_nat (S n) =? 0) with false by (symmetry; apply Z.eqb_neq; lia).
  unfold load; rewrite Hx, Hy; cbn [mbind option_bind]; unfold strncmp_arr in E; fold strncmp_arr in E.
  cbn zeta; destruct (Z.eqb_spec (s8 (x - y)) 0) as [E0|]; cbn [negb orb]; [rewrite E0|done].
  destruct (x =? 0); [done|]; replace (Z.of_nat (S n) - 1) with (Z.of_nat n) by lia.
  eapply IH; [done..|simpl in Hf; lia|done].
Qed.

(** [strncmp] on memory that holds the two arrays. *)
Lemma strncmp_array n a b m p q r : bytes_at m p a -> bytes_at m q b ->
  strncmp_arr n a b = Some r -> strncmp m p q (Z.of_nat n) = Some r.
Proof.
  intros Ha Hb; apply strncmp_loop_array; [done..|]; pose proof (array_fuel m p a Ha); unfold fuel_of; lia.
Qed.


(** ** Little-endian fields *)

Fixpoint le (n : nat) (z : Z) : bytes :=
  match n with O => [] | S n' => z mod 256 :: le n' (z / 256) end.

Fixpoint le_val (l : bytes) : Z := match l with [] => 0 | x :: l' => x + 256 * le_val l' end.

Lemma le_length n : forall z, length (le n z) = n.
Proof. induction n as [|n IH]; intros z; simpl; [done|by rewrite IH]. Qed.

Lemma le_val_le n : forall z, 0 <= z < 256 ^ Z.of_nat n -> le_val (le n z) = z.
Proof.
  induction n as [|n IH]; intros z Hz; [simpl in *; lia|]; cbn [le le_val].
  rewrite Nat2Z.inj_succ, Z.pow_succ_r in Hz by lia.
  rewrite IH by (split; [apply Z.div_pos; lia|apply Z.div_lt_upper_bound; lia]).
  pose proof (Z.div_mod z 256); lia.
Qed.

Lemma le_bytes n : forall z, Forall byte_ok (le n z).
Proof.
  induction n as [|n IH]; intros z; simpl; [by apply Forall_nil|].
  apply Forall_cons; split; [apply Z.mod_pos_bound; lia|apply IH].
Qed.

Arguments le : simpl never.

Lemma take_exact {A} n (l r : list A) : length l = n -> take n (l ++ r) = l.
Proof. intros <-; apply take_app_length. Qed.

Lemma drop_exact {A} n k (l r : list A) : length l = n -> drop (n + k) (l ++ r) = drop k r.
Proof. intros <-; apply drop_app_add. Qed.

End CArray.
