(* ===== verification/MultiDtb.v ===== *)
(** * Packages of device trees (common/aml_dt.c)

    The Amlogic boards keep several device trees in one package; the name in
    the environment variable [aml_dt], "soc_platform_variant", selects one.
    The package is the list of its bytes from [fdt_addr] on and an address is
    the offset from [fdt_addr].

    [getenv("aml_dt")] is the argument [aml_dt]; [checkhw], which the board
    code implements by measuring the hardware, is a function on the buffer it
    fills; [junk] are the 64 bytes that [malloc] returns.  [None] is undefined
    behaviour: a read outside the package or an array, a NULL string, a heap
    block freed through a pointer into it. *)

From S2P Require Import Prelude CArray.

Module MultiDtb.
Import CArray.

Definition AML_DT_ID_VARI_TOTAL : nat := 3.
Definition AML_DT_VERSION_OFFSET : Z := 4.
Definition AML_DT_TOTAL_DTB_OFFSET : Z := 8.
Definition AML_DT_FIRST_DTB_OFFSET : Z := 12.
Definition DT_HEADER_MAGIC : Z := 0xedfe0dd0.
Definition AML_DT_HEADER_MAGIC : Z := 0x5f4c4d41.
Definition NO_MATCH : Z := 0xffff.

(** [readl] at offset [p]. *)
Definition readl (blob : bytes) (p : Z) : option Z :=
  a ← zget blob p; b ← zget blob (p + 1); c ← zget blob (p + 2); d ← zget blob (p + 3);
  Some (a + 256 * (b + 256 * (c + 256 * d))).

(** The buffer [aml_dt_buf] once it is filled: [memset] clears the size of the
    pointer only. *)
Definition fill_buf (checkhw : bytes -> bytes) (junk : bytes) (aml_dt : option bytes) : option bytes :=
  let buf := replicate 8 0 ++ drop 8 junk in
  match aml_dt with
  | None => Some (checkhw buf)
  | Some s =>
      let n := if (64 <? length s)%nat then 64%nat else (length s + 1)%nat in
      if (n <=? length buf)%nat then Some (take n (s ++ [0]) ++ drop n buf) else None
  end.

(** [strsep(&s, "_")]: the token and the rest. *)
Fixpoint cut (s : bytes) : bytes * option bytes :=
  match s with
  | [] => ([], None)
  | c :: s' => if c =? 95 then ([], Some s') else let '(t, r) := cut s' in (c :: t, r)
  end.

Definition strsep (s : option bytes) : option bytes * option bytes :=
  match s with None => (None, None) | Some s => let '(t, r) := cut s in (Some t, r) end.

(** The three tokens and what is left in [aml_dt_buf]. *)
Definition split3 (s : bytes) : list (option bytes) * option bytes :=
  let '(t0, r) := strsep (Some s) in
  let '(t1, r) := strsep r in
  let '(t2, r) := strsep r in
  ([t0; t1; t2], r).

Definition aml_each_id_length (dt_tool_version : Z) : nat :=
  if dt_tool_version =? 1 then 4 else if dt_tool_version =? 2 then 16 else 0.

(** The loop over [y] that reads one identifier, [n] words to go at [p]. *)
Fixpoint read_id (n : nat) (blob : bytes) (p : Z) : option bytes :=
  match n with
  | O => Some []
  | S n' =>
      read_data ← readl blob p;
      r ← read_id n' blob (p + 4);
      Some (Z.land (Z.shiftr read_data 24) 0xff :: Z.land (Z.shiftr read_data 16) 0xff ::
            Z.land (Z.shiftr read_data 8) 0xff :: Z.land (Z.shiftr read_data 0) 0xff :: r)
  end.

(** Blanks become terminators. *)
Definition fix_string (l : bytes) : bytes := map (fun c => if c =? 0x20 then 0 else c) l.

(** The test on one of the three strings. *)
Definition match_one (token : option bytes) (info : bytes) : option bool :=
  t ← token;
  r ← strncmp_arr (length t) (t ++ [0]) info;
  if negb (r =? 0) then Some false
  else n ← strlen_arr info; Some (Z.of_nat (length t) =? n).

(** The loop over [x] that fills [dt_info], and the one over [z] that counts the
    strings that match. *)
Fixpoint read_infos (x : nat) (len : nat) (blob : bytes) (p : Z) : option (list bytes) :=
  match x with
  | O => Some []
  | S x' =>
      i ← read_id (len / 4) blob p;
      r ← read_infos x' len blob (p + Z.of_nat len);
      Some (fix_string i :: r)
  end.

Fixpoint count_matches (tokens : list (option bytes)) (infos : list bytes) : option Z :=
  match tokens, infos with
  | t :: tokens', i :: infos' =>
      b ← match_one t i;
      n ← count_matches tokens' infos';
      Some (if b : bool then n + 1 else n)
  | _, _ => Some 0
  end.

(** The loop over the device trees: [n] to go at [i]. *)
Fixpoint dtb_loop (n : nat) (blob : bytes) (len : nat) (tokens : list (option bytes)) (i match_num : Z) :
  option Z :=
  match n with
  | O => Some match_num
  | S n' =>
      let header_size := Z.of_nat (8 + len * AML_DT_ID_VARI_TOTAL) in
      infos ← read_infos AML_DT_ID_VARI_TOTAL len blob (AML_DT_FIRST_DTB_OFFSET + u32 (i * header_size));
      c ← count_matches tokens infos;
      dtb_loop n' blob len tokens (i + 1) (if c =? 3 then i else match_num)
  end.

Definition get_multi_dt_entry (checkhw : bytes -> bytes) (junk : bytes) (aml_dt : option bytes)
  (blob : bytes) : option Z :=
  dt_magic ← readl blob 0;
  if dt_magic =? DT_HEADER_MAGIC then Some 0
  else if dt_magic =? AML_DT_HEADER_MAGIC then
    aml_dt_buf ← fill_buf checkhw junk aml_dt;
    aml_dt_len ← strlen_arr aml_dt_buf;
    if aml_dt_len =? 0 then Some 0
    else
      dt_tool_version ← readl blob AML_DT_VERSION_OFFSET;
      let len := aml_each_id_length dt_tool_version in
      let aml_dtb_offset_offset := Z.of_nat (len * AML_DT_ID_VARI_TOTAL) in
      let aml_dtb_header_size := Z.of_nat (8 + len * AML_DT_ID_VARI_TOTAL) in
      dt_total ← readl blob AML_DT_TOTAL_DTB_OFFSET;
      let '(tokens, rest) := split3 (take (Z.to_nat aml_dt_len) aml_dt_buf) in
      match rest with
      | Some _ => None (* [free] of a pointer into the buffer *)
      | None =>
          dtb_match_num ← dtb_loop (Z.to_nat dt_total) blob len tokens 0 NO_MATCH;
          if negb (dtb_match_num =? NO_MATCH) then
            readl blob (AML_DT_FIRST_DTB_OFFSET + u32 (dtb_match_num * aml_dtb_header_size) + aml_dtb_offset_offset)
          else Some 0
      end
  else Some 0.

(** ** The format of a package *)

Record dtb := mkDtb { soc : bytes; platform : bytes; variant : bytes; dtb_offset : Z; dtb_size : Z }.

(** An identifier: padded with blanks, the bytes of each word reversed. *)
Definition padded (len : nat) (s : bytes) : bytes := s ++ replicate (len - length s) 0x20.

Fixpoint swap_words (n : nat) (l : bytes) : bytes :=
  match n with O => [] | S n' => rev (take 4 l) ++ swap_words n' (drop 4 l) end.

Definition enc_id (len : nat) (s : bytes) : bytes := swap_words (len / 4) (padded len s).

Definition enc_dtb (len : nat) (d : dtb) : bytes :=
  (enc_id len (soc d) ++ enc_id len (platform d) ++ enc_id len (variant d)) ++
  le 4 (dtb_offset d) ++ le 4 (dtb_size d).

(** A package of version [v] with the trees [ds] and their contents [body]. *)
Definition package (v : Z) (ds : list dtb) (body : bytes) : bytes :=
  le 4 AML_DT_HEADER_MAGIC ++ le 4 v ++ le 4 (Z.of_nat (length ds)) ++
  flat_map (enc_dtb (aml_each_id_length v)) ds ++ body.

(** Characters of identifiers: no terminator, no blank, no separator. *)
Definition id_char (c : Z) : Prop := char_ok c /\ c <> 0x20 /\ c <> 95.
Definition id_ok (len : nat) (s : bytes) : Prop := Forall id_char s /\ (length s < len)%nat.

#[global] Instance id_char_dec c : Decision (id_char c) := _.
#[global] Instance id_ok_dec len s : Decision (id_ok len s) := _.

Definition dtb_ok (len : nat) (d : dtb) : Prop :=
  id_ok len (soc d) /\ id_ok len (platform d) /\ id_ok len (variant d) /\ 0 <= dtb_offset d < 2 ^ 32.

#[global] Instance dtb_ok_dec len d : Decision (dtb_ok len d) := _.

(** The tree that the name "s_p_v" stands for: the last one with these ids. *)
Definition named_dtb (s p v : bytes) (d : dtb) : bool :=
  bool_decide (soc d = s /\ platform d = p /\ variant d = v).

Fixpoint select (s p v : bytes) (ds : list dtb) (r : option dtb) : option dtb :=
  match ds with
  | [] => r
  | d :: ds' => select s p v ds' (if named_dtb s p v d then Some d else r)
  end.

(** ** Reading the format *)

Lemma readl_bytes pre a b c d post i : i = Z.of_nat (length pre) ->
  readl (pre ++ a :: b :: c :: d :: post) i = Some (a + 256 * (b + 256 * (c + 256 * d))).
Proof.
  intros ->; unfold readl; rewrite (zget_middle pre _ a (Z.of_nat (length pre))) by done; cbn [mbind option_bind].
  assert (forall x (l t : bytes), zget (pre ++ l ++ x :: t) (Z.of_nat (length pre) + Z.of_nat (length l)) = Some x)
    as Hz by (intros x l t; rewrite app_assoc; apply zget_middle; rewrite length_app; lia).
  pose proof (Hz b [a] (c :: d :: post)) as E1; pose proof (Hz c [a; b] (d :: post)) as E2;
    pose proof (Hz d [a; b; c] post) as E3; cbn [app] in E1, E2, E3.
  change (Z.of_nat (length [a])) with 1 in E1; change (Z.of_nat (length [a; b])) with 2 in E2;
    change (Z.of_nat (length [a; b; c])) with 3 in E3.
  by rewrite E1; cbn [mbind option_bind]; rewrite E2; cbn [mbind option_bind]; rewrite E3.
Qed.

Lemma readl_le pre z post i : 0 <= z < 2 ^ 32 -> i = Z.of_nat (length pre) ->
  readl (pre ++ le 4 z ++ post) i = Some z.
Proof.
  intros Hz Hi; pose proof (le_val_le 4 z Hz) as E; pose proof (le_length 4 z) as El.
  destruct (le 4 z) as [|a [|b [|c [|d [|]]]]]; try done; cbn [app].
  rewrite readl_bytes by done; cbn [le_val] in E; rewrite Z.mul_0_r, Z.add_0_r in E; by rewrite E.
Qed.

Lemma word_bytes a b c d : byte_ok a -> byte_ok b -> byte_ok c -> byte_ok d ->
  let w := a + 256 * (b + 256 * (c + 256 * d)) in
  Z.land (Z.shiftr w 24) 0xff = d /\ Z.land (Z.shiftr w 16) 0xff = c /\
  Z.land (Z.shiftr w 8) 0xff = b /\ Z.land (Z.shiftr w 0) 0xff = a.
Proof.
  unfold byte_ok; intros Ha Hb Hc Hd; cbn zeta; rewrite !Z.shiftr_div_pow2 by lia.
  change 0xff with (Z.ones 8); rewrite !Z.land_ones by lia.
  change (2 ^ 24) with 16777216; change (2 ^ 16) with 65536; change (2 ^ 8) with 256; change (2 ^ 0) with 1.
  repeat split; Z.to_euclidean_division_equations; lia.
Qed.

Lemma read_id_spec n : forall l pre post i, length l = (4 * n)%nat -> Forall byte_ok l ->
  i = Z.of_nat (length pre) -> read_id n (pre ++ swap_words n l ++ post) i = Some l.
Proof.
  induction n as [|n IH]; intros l pre post i Hl Fl Hi; [by destruct l|].
  destruct l as [|a [|b [|c [|d l]]]]; try (simpl in Hl; lia).
  rewrite !Forall_cons in Fl; destruct Fl as (Fa & Fb & Fc & Fd & Fl).
  cbn [swap_words read_id]; change (take 4 (a :: b :: c :: d :: l)) with [a; b; c; d];
    change (drop 4 (a :: b :: c :: d :: l)) with l; change (rev [a; b; c; d]) with [d; c; b; a]; cbn [app].
  rewrite (readl_bytes pre d c b a) by done; cbn [mbind option_bind].
  replace (pre ++ d :: c :: b :: a :: swap_words n l ++ post) with ((pre ++ [d; c; b; a]) ++ swap_words n l ++ post)
    by (by rewrite <- app_assoc).
  rewrite IH by (done || (rewrite length_app; simpl; lia) || (simpl in Hl; lia)); cbn [mbind option_bind].
  by destruct (word_bytes d c b a) as (-> & -> & -> & ->).
Qed.

Lemma swap_words_length n : forall l, length l = (4 * n)%nat -> length (swap_words n l) = (4 * n)%nat.
Proof.
  induction n as [|n IH]; intros l Hl; [done|]; cbn [swap_words].
  rewrite length_app, length_rev, IH; [rewrite length_take; lia|rewrite length_drop; lia].
Qed.

Lemma id_chars s : Forall id_char s -> cstr_ok s.
Proof. intros Fs; eapply Forall_impl; [done|]; by intros c [Hc _]. Qed.

Lemma cstr_bytes s : cstr_ok s -> Forall byte_ok s.
Proof. intros Fs; eapply Forall_impl; [done|]; unfold char_ok, byte_ok; intros c; lia. Qed.

Lemma zeros_bytes k : Forall byte_ok (replicate k 0).
Proof. apply Forall_replicate; unfold byte_ok; lia. Qed.

Section ids.
Context (len : nat) (Hlen : len = (4 * (len / 4))%nat).

Lemma padded_length s : id_ok len s -> length (padded len s) = len.
Proof. clear Hlen; intros [_ Hs]; unfold padded; rewrite length_app, length_replicate; lia. Qed.

Lemma padded_bytes s : id_ok len s -> Forall byte_ok (padded len s).
Proof.
  intros [Fs _]; apply Forall_app; split; [by apply cstr_bytes, id_chars|].
  apply Forall_replicate; unfold byte_ok; lia.
Qed.

Lemma enc_id_length s : id_ok len s -> length (enc_id len s) = len.
Proof. intros Hs; unfold enc_id; rewrite swap_words_length; rewrite ?padded_length; done. Qed.

(** What the table holds of an identifier after the blanks are cut off. *)
Definition info (s : bytes) : bytes := s ++ replicate (len - length s) 0.

Lemma fix_padded s : id_ok len s -> fix_string (padded len s) = info s.
Proof.
  intros [Fs _]; unfold fix_string, padded, info; rewrite map_app; f_equal.
  - induction s as [|c s IH]; [done|]; apply Forall_cons in Fs as [(_ & Hc & _) Fs]; cbn [map].
    rewrite IH by done; by destruct (Z.eqb_spec c 0x20).
  - generalize (len - length s)%nat; intros k; induction k as [|k IH]; [done|]; cbn [replicate map]; by rewrite IH.
Qed.

Lemma strlen_info s : id_ok len s -> strlen_arr (info s) = Some (Z.of_nat (length s)).
Proof.
  clear Hlen; intros [Fs Hl]; unfold info; destruct (len - length s)%nat as [|k] eqn:E; [lia|]; clear E Hl.
  induction s as [|c s IH]; [done|]; apply Forall_cons in Fs as [([Hc _] & _) Fs]; cbn [app strlen_arr].
  destruct (Z.eqb_spec c 0); [lia|]; rewrite IH by done; cbn [mbind option_bind length]; f_equal; lia.
Qed.

Lemma same_prefix t : forall s z, Forall id_char t -> Forall id_char s ->
  same_str (length t) (t ++ [0]) (s ++ 0 :: z) && (Z.of_nat (length t) =? Z.of_nat (length s)) = bool_decide (t = s).
Proof.
  clear Hlen; induction t as [|x t IH]; intros [|y s] z Ft Fs; cbn [length app]; [done| | |].
  - rewrite bool_decide_eq_false_2 by done; apply andb_false_r.
  - rewrite bool_decide_eq_false_2 by done; apply andb_false_r.
  - apply Forall_cons in Ft as [([Hx _] & _) Ft]; apply Forall_cons in Fs as [([Hy _] & _) Fs].
    unfold same_str; fold same_str; destruct (Z.eqb_spec x y) as [->|Hne]; cbn [andb].
    + destruct (Z.eqb_spec y 0); [lia|]; cbn [orb].
      replace (Z.of_nat (S (length t)) =? Z.of_nat (S (length s))) with (Z.of_nat (length t) =? Z.of_nat (length s))
        by (apply eq_true_iff_eq; rewrite !Z.eqb_eq; lia).
      rewrite (IH s z Ft Fs); apply bool_decide_ext; split; [by intros ->|by intros [= ->]].
    + rewrite bool_decide_eq_false_2 by congruence; done.
Qed.

Lemma match_one_spec t s : Forall id_char t -> id_ok len s ->
  match_one (Some t) (info s) = Some (bool_decide (t = s)).
Proof.
  clear Hlen; intros Ft Hs; unfold match_one; cbn [mbind option_bind]; rewrite (strlen_info s Hs); destruct Hs as [Fs Hl].
  assert (exists z, info s = s ++ 0 :: z) as [z Ez]
    by (unfold info; destruct (len - length s)%nat as [|k] eqn:E; [lia|]; by eexists).
  assert (Forall byte_ok (info s)) as Fi
    by (apply Forall_app; split; [by apply cstr_bytes, id_chars|apply zeros_bytes]).
  destruct (strncmp_same (length t) (t ++ [0]) (info s)) as (r & -> & Hr);
    [left; rewrite length_app; lia|right; rewrite Ez; apply elem_of_app; right; left
    |apply Forall_app; split; [by apply cstr_bytes, id_chars|by apply (zeros_bytes 1)]|done|].
  cbn [mbind option_bind]; rewrite Hr, <- (same_prefix t s z Ft Fs), Ez.
  by destruct (same_str (length t) (t ++ [0]) (s ++ 0 :: z)).
Qed.

Lemma read_id_at s pre post i : id_ok len s -> i = Z.of_nat (length pre) ->
  read_id (len / 4) (pre ++ enc_id len s ++ post) i = Some (padded len s).
Proof.
  intros Hs Hi; apply read_id_spec; [by rewrite padded_length|by apply padded_bytes|done].
Qed.

Lemma read_infos_spec d pre post i : dtb_ok len d -> i = Z.of_nat (length pre) ->
  read_infos 3 len (pre ++ enc_dtb len d ++ post) i = Some [info (soc d); info (platform d); info (variant d)].
Proof.
  intros (Hs & Hp & Hv & _) Hi; unfold enc_dtb; rewrite <- !app_assoc; cbn [read_infos].
  set (a := enc_id len (soc d)); set (b := enc_id len (platform d)); set (c := enc_id len (variant d)).
  set (rest := le 4 (dtb_offset d) ++ le 4 (dtb_size d) ++ post).
  assert (length a = len) as La by (by apply enc_id_length); assert (length b = len) as Lb by (by apply enc_id_length).
  assert (read_id (len / 4) (pre ++ a ++ b ++ c ++ rest) i = Some (padded len (soc d))) as E1 by (by apply read_id_at).
  assert (read_id (len / 4) (pre ++ a ++ b ++ c ++ rest) (i + Z.of_nat len) = Some (padded len (platform d))) as E2
    by (rewrite (app_assoc pre); apply read_id_at; [done|rewrite length_app; lia]).
  assert (read_id (len / 4) (pre ++ a ++ b ++ c ++ rest) (i + Z.of_nat len + Z.of_nat len) = Some (padded len (variant d)))
    as E3 by (rewrite (app_assoc pre), (app_assoc (pre ++ a)); apply read_id_at; [done|rewrite !length_app; lia]).
  by rewrite E1; cbn [mbind option_bind]; rewrite E2; cbn [mbind option_bind]; rewrite E3; cbn [mbind option_bind];
    rewrite !fix_padded.
Qed.
End ids.

(** ** The selection *)

Lemma select_acc s p v ds : forall r, select s p v ds r =
  match select s p v ds None with Some d => Some d | None => r end.
Proof.
  induction ds as [|d ds IH]; intros r; [done|]; cbn [select].
  rewrite (IH (if named_dtb s p v d then Some d else r)), (IH (if named_dtb s p v d then Some d else None)).
  by destruct (select s p v ds None), (named_dtb s p v d).
Qed.

Lemma count_spec len s p v d : Forall id_char s -> Forall id_char p -> Forall id_char v -> dtb_ok len d ->
  exists c, count_matches [Some s; Some p; Some v] [info len (soc d); info len (platform d); info len (variant d)] = Some c /\
    (c =? 3) = named_dtb s p v d.
Proof.
  intros Fs Fp Fv (Hs & Hp & Hv & _); cbn [count_matches].
  rewrite (match_one_spec len s (soc d)), (match_one_spec len p (platform d)), (match_one_spec len v (variant d)) by done.
  cbn [mbind option_bind]; eexists; split; [done|]; unfold named_dtb.
  repeat case_bool_decide; simpl; naive_solver.
Qed.

Section package.
Context (v : Z) (Hv : v = 1 \/ v = 2).
Let len := aml_each_id_length v.

Lemma len_words : len = (4 * (len / 4))%nat.
Proof. unfold len; by destruct Hv as [-> | ->]. Qed.

Definition header_size : Z := Z.of_nat (8 + len * AML_DT_ID_VARI_TOTAL).

Lemma header_small : 20 <= header_size <= 56.
Proof. unfold header_size, len; destruct Hv as [-> | ->]; cbn; lia. Qed.

Lemma enc_dtb_length d : dtb_ok len d -> Z.of_nat (length (enc_dtb len d)) = header_size.
Proof.
  intros (Hs & Hp & Hvv & _); unfold enc_dtb, header_size, AML_DT_ID_VARI_TOTAL.
  rewrite !length_app, !le_length, !(enc_id_length len len_words) by done; lia.
Qed.

Lemma enc_dtbs_length ds : Forall (dtb_ok len) ds ->
  Z.of_nat (length (flat_map (enc_dtb len) ds)) = Z.of_nat (length ds) * header_size.
Proof.
  induction ds as [|d ds IH]; intros Fd; [done|]; apply Forall_cons in Fd as [Hd Fd]; cbn [flat_map length].
  rewrite length_app, Nat2Z.inj_add, IH, enc_dtb_length by done; lia.
Qed.

(** The place of a header in the package. *)
Lemma header_place i : 0 <= i < NO_MATCH -> u32 (i * header_size) = i * header_size.
Proof. intros Hi; pose proof header_small; apply wrap_small; unfold NO_MATCH in Hi; nia. Qed.

Lemma dtb_loop_spec s p w pre : Forall id_char s -> Forall id_char p -> Forall id_char w ->
  Z.of_nat (length pre) = AML_DT_FIRST_DTB_OFFSET ->
  forall ds l body mn, Forall (dtb_ok len) (l ++ ds) -> Z.of_nat (length (l ++ ds)) < NO_MATCH ->
  exists r, dtb_loop (length ds) (pre ++ flat_map (enc_dtb len) (l ++ ds) ++ body) len
      [Some s; Some p; Some w] (Z.of_nat (length l)) mn = Some r /\
    ((r = mn /\ select s p w ds None = None) \/
     exists j d, r = Z.of_nat (length l + j) /\ ds !! j = Some d /\ select s p w ds None = Some d).
Proof.
  intros Fs Fp Fw Hpre; induction ds as [|d ds IH]; intros l body mn Fd Hn; [by exists mn; split; [|left]|].
  pose proof Fd as Fd'; apply Forall_app in Fd' as [Fl Fd']; apply Forall_cons in Fd' as [Hd _].
  rewrite length_app in Hn; cbn [length] in Hn; cbn [length dtb_loop]; fold header_size.
  rewrite header_place by lia.
  assert (read_infos AML_DT_ID_VARI_TOTAL len (pre ++ flat_map (enc_dtb len) (l ++ d :: ds) ++ body)
    (AML_DT_FIRST_DTB_OFFSET + Z.of_nat (length l) * header_size) =
    Some [info len (soc d); info len (platform d); info len (variant d)]) as ->.
  { rewrite flat_map_app; cbn [flat_map]; rewrite <- !app_assoc, (app_assoc pre).
    apply (read_infos_spec len len_words); [done|rewrite length_app, Nat2Z.inj_add, enc_dtbs_length; [lia|done]]. }
  cbn [mbind option_bind].
  destruct (count_spec len s p w d Fs Fp Fw Hd) as (c & -> & Hc); cbn [mbind option_bind]; rewrite Hc.
  specialize (IH (l ++ [d]) body (if named_dtb s p w d then Z.of_nat (length l) else mn)).
  rewrite <- app_assoc in IH; cbn [app] in IH; rewrite !length_app in IH; cbn [length] in IH.
  destruct IH as (r & Er & Hr); [done|rewrite ?length_app; cbn [length]; lia|].
  exists r; split; [by rewrite (Nat2Z.inj_add (length l) 1) in Er|]; cbn [select]; rewrite select_acc.
  destruct Hr as [[-> Es]|(j & d' & -> & Hj & Es)]; rewrite Es.
  - destruct (named_dtb s p w d); [right; exists 0%nat, d; split; [f_equal; lia|done]|by left].
  - right; exists (S j), d'; split; [f_equal; lia|done].
Qed.
End package.

(** ** The name *)

Definition dt_name (s p w : bytes) : bytes := s ++ 95 :: p ++ 95 :: w.

Lemma cut_id s r : Forall id_char s -> cut (s ++ 95 :: r) = (s, Some r).
Proof.
  induction s as [|c s IH]; intros Fs; [done|]; apply Forall_cons in Fs as [(_ & _ & Hc) Fs]; cbn [app cut].
  destruct (Z.eqb_spec c 95); [done|]; by rewrite IH.
Qed.

Lemma cut_last s : Forall id_char s -> cut s = (s, None).
Proof.
  induction s as [|c s IH]; intros Fs; [done|]; apply Forall_cons in Fs as [(_ & _ & Hc) Fs]; cbn [cut].
  destruct (Z.eqb_spec c 95); [done|]; by rewrite IH.
Qed.

Lemma split3_name s p w : Forall id_char s -> Forall id_char p -> Forall id_char w ->
  split3 (dt_name s p w) = ([Some s; Some p; Some w], None).
Proof. intros Fs Fp Fw; unfold split3, dt_name, strsep; by rewrite !cut_id, cut_last. Qed.

Lemma strlen_string s z : cstr_ok s -> strlen_arr (s ++ 0 :: z) = Some (Z.of_nat (length s)).
Proof.
  induction s as [|c s IH]; intros Fs; [done|]; apply Forall_cons in Fs as [Hc Fs]; cbn [app strlen_arr].
  destruct (Z.eqb_spec c 0); [unfold char_ok in Hc; lia|]; rewrite IH by done; cbn [mbind option_bind length]; f_equal; lia.
Qed.

Lemma fill_buf_env hw junk s : (length s < 64)%nat -> length junk = 64%nat ->
  exists z, fill_buf hw junk (Some s) = Some (s ++ 0 :: z).
Proof.
  intros Hs Hj; unfold fill_buf.
  destruct (Nat.ltb_spec 64 (length s)); [lia|].
  destruct (Nat.leb_spec (length s + 1) (length (replicate 8 0 ++ drop 8 junk))) as [_|Hl];
    [|rewrite length_app, length_replicate, length_drop in Hl; lia].
  rewrite firstn_all2 by (rewrite length_app; simpl; lia); rewrite <- app_assoc; by eexists.
Qed.

Lemma name_ok s p w : Forall id_char s -> Forall id_char p -> Forall id_char w -> cstr_ok (dt_name s p w).
Proof.
  intros Fs Fp Fw; unfold dt_name, cstr_ok; rewrite Forall_app, Forall_cons, Forall_app, Forall_cons.
  repeat split; try (by apply id_chars); lia.
Qed.

(** The offset field of the [j]-th header. *)
Lemma read_offset v ds body pre j d : v = 1 \/ v = 2 -> Forall (dtb_ok (aml_each_id_length v)) ds ->
  Z.of_nat (length ds) < NO_MATCH -> Z.of_nat (length pre) = AML_DT_FIRST_DTB_OFFSET -> ds !! j = Some d ->
  readl (pre ++ flat_map (enc_dtb (aml_each_id_length v)) ds ++ body)
    (AML_DT_FIRST_DTB_OFFSET + u32 (Z.of_nat j * header_size v) + Z.of_nat (aml_each_id_length v * AML_DT_ID_VARI_TOTAL)) =
  Some (dtb_offset d).
Proof.
  intros Hv Fd Hn Hp Hj; pose proof (lookup_lt_Some _ _ _ Hj) as Hlt.
  rewrite (header_place v Hv) by lia; rewrite <- (take_drop_middle ds j d Hj) in Fd |- *.
  apply Forall_app in Fd as [Fl Fd]; apply Forall_cons in Fd as [Hd _]; pose proof Hd as (H1 & H2 & H3 & H4).
  rewrite flat_map_app; cbn [flat_map]; unfold enc_dtb at 2; rewrite <- !app_assoc.
  rewrite (app_assoc (enc_id _ _)), (app_assoc (enc_id _ _ ++ _)), (app_assoc (flat_map _ _)), (app_assoc pre).
  apply readl_le; [done|].
  rewrite !length_app, !Nat2Z.inj_add, (enc_dtbs_length v Hv), length_take by done.
  rewrite !(enc_id_length _ (len_words v Hv)) by done; unfold AML_DT_ID_VARI_TOTAL; lia.
Qed.

Lemma magic_differs : (AML_DT_HEADER_MAGIC =? DT_HEADER_MAGIC) = false.
Proof. done. Qed.

Lemma entry_selected hw junk v ds body s p w : v = 1 \/ v = 2 ->
  Forall (dtb_ok (aml_each_id_length v)) ds -> Z.of_nat (length ds) < NO_MATCH ->
  Forall id_char s -> Forall id_char p -> Forall id_char w ->
  (length (dt_name s p w) < 64)%nat -> length junk = 64%nat ->
  get_multi_dt_entry hw junk (Some (dt_name s p w)) (package v ds body) =
  Some (from_option dtb_offset 0 (select s p w ds None)).
Proof.
  intros Hv Fd Hn Fs Fp Fw Hname Hj; unfold get_multi_dt_entry, package.
  set (len := aml_each_id_length v); set (hs := flat_map (enc_dtb len) ds ++ body).
  assert (readl (le 4 AML_DT_HEADER_MAGIC ++ le 4 v ++ le 4 (Z.of_nat (length ds)) ++ hs) 0 = Some AML_DT_HEADER_MAGIC)
    as -> by (by apply (readl_le [])); cbn [mbind option_bind]; rewrite magic_differs, Z.eqb_refl.
  destruct (fill_buf_env hw junk (dt_name s p w) Hname Hj) as [z ->]; cbn [mbind option_bind].
  rewrite strlen_string by (by apply name_ok); cbn [mbind option_bind].
  assert (0 < length (dt_name s p w))%nat as H0 by (unfold dt_name; rewrite length_app; simpl; lia).
  destruct (Z.eqb_spec (Z.of_nat (length (dt_name s p w))) 0); [lia|].
  assert (readl (le 4 AML_DT_HEADER_MAGIC ++ le 4 v ++ le 4 (Z.of_nat (length ds)) ++ hs) AML_DT_VERSION_OFFSET = Some v)
    as -> by (apply readl_le; [lia|by rewrite le_length]); cbn [mbind option_bind]; fold len.
  assert (readl (le 4 AML_DT_HEADER_MAGIC ++ le 4 v ++ le 4 (Z.of_nat (length ds)) ++ hs) AML_DT_TOTAL_DTB_OFFSET =
    Some (Z.of_nat (length ds))) as ->
    by (rewrite app_assoc; apply readl_le; [unfold NO_MATCH in Hn; lia|by rewrite length_app, !le_length]).
  cbn [mbind option_bind]; rewrite Nat2Z.id, (take_exact (length (dt_name s p w))), split3_name, Nat2Z.id by done.
  assert (le 4 AML_DT_HEADER_MAGIC ++ le 4 v ++ le 4 (Z.of_nat (length ds)) ++ hs =
    (le 4 AML_DT_HEADER_MAGIC ++ le 4 v ++ le 4 (Z.of_nat (length ds))) ++ hs) as -> by (by rewrite <- !app_assoc).
  set (pre := le 4 AML_DT_HEADER_MAGIC ++ le 4 v ++ le 4 (Z.of_nat (length ds))).
  assert (Z.of_nat (length pre) = AML_DT_FIRST_DTB_OFFSET) as Hpre by (by unfold pre; rewrite !length_app, !le_length).
  destruct (dtb_loop_spec v Hv s p w pre Fs Fp Fw Hpre ds [] body NO_MATCH Fd Hn) as (r & Er & Hr).
  change (Z.of_nat (length (@nil dtb))) with 0 in Er; cbn [app] in Er; fold len in Er; unfold hs; rewrite Er.
  cbn [mbind option_bind]; destruct Hr as [[-> ->]|(j & d & -> & Hjd & ->)]; [done|]; cbn [length Nat.add from_option].
  pose proof (lookup_lt_Some _ _ _ Hjd).
  destruct (Z.eqb_spec (Z.of_nat j) NO_MATCH); [lia|]; cbn [negb].
  exact (read_offset v ds body pre j d Hv Fd Hn Hpre Hjd).
Qed.

(** C25: [get_multi_dt_entry] selects the tree that [aml_dt] names: on a package of
    version 1 or 2, with "soc_platform_variant" in the environment, it returns
    the offset of the last tree whose three identifiers are those, and the
    start of the package when there is none. *)
Theorem multi_dt_selects hw junk v ds body s p w : v = 1 \/ v = 2 ->
  Forall (dtb_ok (aml_each_id_length v)) ds -> Z.of_nat (length ds) < NO_MATCH ->
  Forall id_char s -> Forall id_char p -> Forall id_char w ->
  (length (dt_name s p w) < 64)%nat -> length junk = 64%nat ->
  get_multi_dt_entry hw junk (Some (dt_name s p w)) (package v ds body) =
  Some (from_option dtb_offset 0 (select s p w ds None)).
Proof. apply entry_selected. Qed.

(** ** Concrete packages *)

Definition gxb : list dtb :=
  [mkDtb (str "gxb") (str "p200") (str "1g") 2048 30000;
   mkDtb (str "gxb") (str "p200") (str "2g") 34816 30000;
   mkDtb (str "gxb") (str "p201") (str "1g") 67584 30000].

Lemma multi_dt_selects_witness :
  get_multi_dt_entry (fun b => b) (replicate 64 255) (Some (str "gxb_p200_2g")) (package 2 gxb []) = Some 34816.
Proof.
  exact (multi_dt_selects (fun b => b) (replicate 64 255) 2 gxb [] (str "gxb") (str "p200") (str "2g")
    (or_intror eq_refl) ltac:(by apply (bool_decide_unpack _); vm_compute) ltac:(by vm_compute)
    ltac:(by apply (bool_decide_unpack _); vm_compute) ltac:(by apply (bool_decide_unpack _); vm_compute)
    ltac:(by apply (bool_decide_unpack _); vm_compute) ltac:(cbn; lia) eq_refl).
Defined.

(** A name of two parts leaves the third token NULL, and the comparison takes
    its length. *)
Theorem short_name_crashes :
  get_multi_dt_entry (fun b => b) (replicate 64 255) (Some (str "gxb_p200")) (package 2 gxb []) = None.
Proof. by vm_compute. Qed.

(** A name of four parts leaves [aml_dt_buf] inside the heap block that is then
    freed. *)
Theorem long_name_frees_inside :
  get_multi_dt_entry (fun b => b) (replicate 64 255) (Some (str "gxb_p200_2g_drm")) (package 2 gxb []) = None.
Proof. by vm_compute. Qed.

(** A variable of 64 characters is copied with its terminator into the buffer
    of 64 bytes. *)
Theorem buffer_overflows : get_multi_dt_entry (fun b => b) (replicate 64 255)
  (Some (str "gxb_p200_" ++ replicate 55 97)) (package 2 gxb []) = None.
Proof. by vm_compute. Qed.

(** An identifier that fills its field has no terminator after the blanks are
    cut: taking its length reads behind the array. *)
Theorem full_id_overruns : get_multi_dt_entry (fun b => b) (replicate 64 255) (Some (str "gxbb_p200_2g"))
  (package 1 [mkDtb (str "gxbb") (str "p200") (str "2g") 2048 30000] []) = None.
Proof. by vm_compute. Qed.

End MultiDtb.
