(* ===== verification/BlockDev.v ===== *)
(** * Block devices (include/part.h: block_dev_desc_t)

    The interface between the code that keeps data on a card and the driver of
    the card.  [BlockDev] has the two operations that are called through the
    function pointers of [block_dev_desc_t]; [BlockDevSpec] states what a
    driver promises about them.  Clients are verified against the class; a
    card in memory and the MMC block layer are instances.

    [block_read d s n] is the return value, the bytes stored at the destination
    and the device afterwards; [block_write d s n src] the return value and the
    device afterwards.  0 is the error of both. *)

From S2P Require Import Prelude CArray.

Module BlockDev.
Import CArray.

Class BlockDev (D : Type) := {
  block_read : D -> Z -> Z -> Z * bytes * D;
  block_write : D -> Z -> Z -> bytes -> Z * D }.

Definition read_ret {D} `{BlockDev D} (d : D) (s n : Z) : Z := fst (fst (block_read d s n)).
Definition read_data {D} `{BlockDev D} (d : D) (s n : Z) : bytes := snd (fst (block_read d s n)).
Definition read_dev {D} `{BlockDev D} (d : D) (s n : Z) : D := snd (block_read d s n).
Definition write_ret {D} `{BlockDev D} (d : D) (s n : Z) (src : bytes) : Z := fst (block_write d s n src).
Definition write_dev {D} `{BlockDev D} (d : D) (s n : Z) (src : bytes) : D := snd (block_write d s n src).

Lemma block_read_eta {D} `{BlockDev D} (d : D) s n :
  block_read d s n = (read_ret d s n, read_data d s n, read_dev d s n).
Proof. by unfold read_ret, read_data, read_dev; destruct (block_read d s n) as [[? ?] ?]. Qed.

Lemma block_write_eta {D} `{BlockDev D} (d : D) s n src :
  block_write d s n src = (write_ret d s n src, write_dev d s n src).
Proof. by unfold write_ret, write_dev; destruct (block_write d s n src). Qed.

(** The contents of [n] blocks from [s]. *)
Fixpoint run {D} (block : D -> Z -> bytes) (d : D) (s : Z) (n : nat) : bytes :=
  match n with O => [] | S n' => block d s ++ run block d (s + 1) n' end.

(** Requests that fit the 32-bit argument of a command. *)
Definition addressable (s n : Z) : Prop := 0 <= s /\ 0 < n /\ s + n < 2 ^ 32.

(** The promise.  [block d b] is the contents of block [b].  Any device: a read
    changes no block and delivers the blocks unless it returns 0; a write that
    does not return 0 changes the named blocks to the bytes given and no
    others.  A [good] device, and every operation leaves it good, fails only
    outside its range. *)
Class BlockDevSpec (D : Type) `{BlockDev D} (bl : Z) := {
  block : D -> Z -> bytes;
  good : D -> Prop;
  in_range : D -> Z -> Z -> Prop;
  block_length : forall d b, Z.of_nat (length (block d b)) = bl;
  block_bytes : forall d b, Forall byte_ok (block d b);
  read_ok : forall d s n, addressable s n -> read_ret d s n <> 0 ->
    read_data d s n = run block d s (Z.to_nat n);
  read_frame : forall d s n b, addressable s n -> block (read_dev d s n) b = block d b;
  write_ok : forall d s n src, addressable s n -> Z.of_nat (length src) = n * bl -> Forall byte_ok src ->
    write_ret d s n src <> 0 -> run block (write_dev d s n src) s (Z.to_nat n) = src;
  write_frame : forall d s n src b, addressable s n -> Z.of_nat (length src) = n * bl -> Forall byte_ok src ->
    b < s \/ s + n <= b -> write_ret d s n src <> 0 ->
    block (write_dev d s n src) b = block d b;
  good_read : forall d s n, addressable s n -> good d -> good (read_dev d s n);
  good_write : forall d s n src, addressable s n -> Z.of_nat (length src) = n * bl -> Forall byte_ok src ->
    good d -> good (write_dev d s n src);
  range_read : forall d s n s' n', addressable s n -> in_range (read_dev d s n) s' n' <-> in_range d s' n';
  range_write : forall d s n src s' n', addressable s n -> Z.of_nat (length src) = n * bl -> Forall byte_ok src ->
    in_range (write_dev d s n src) s' n' <-> in_range d s' n';
  range_sub : forall d s n s' n', in_range d s n -> s <= s' -> 0 < n' -> s' + n' <= s + n -> in_range d s' n';
  read_succeeds : forall d s n, addressable s n -> good d -> (read_ret d s n <> 0 <-> in_range d s n);
  write_succeeds : forall d s n src, addressable s n -> Z.of_nat (length src) = n * bl -> Forall byte_ok src ->
    good d -> (write_ret d s n src <> 0 <-> in_range d s n) }.

Lemma run_ext {D} (blk : D -> Z -> bytes) d d' n : forall s,
  (forall b, s <= b < s + Z.of_nat n -> blk d' b = blk d b) -> run blk d' s n = run blk d s n.
Proof. induction n as [|n IH]; intros s Hb; [done|]; simpl; rewrite Hb, IH by (intros; try apply Hb; lia); done. Qed.

Lemma run_one {D} (blk : D -> Z -> bytes) d s : run blk d s (Z.to_nat 1) = blk d s.
Proof. change (Z.to_nat 1) with 1%nat; cbn [run]; by rewrite app_nil_r. Qed.

Lemma run_app {D} (blk : D -> Z -> bytes) d n k : forall s,
  run blk d s (n + k) = run blk d s n ++ run blk d (s + Z.of_nat n) k.
Proof.
  induction n as [|n IH]; intros s; cbn [run Nat.add app]; [by rewrite Z.add_0_r|].
  rewrite IH, <- app_assoc; do 3 f_equal; lia.
Qed.

Section lengths.
Context {D : Type} `{BlockDev D} (bl : Z) `{HS : !BlockDevSpec D bl}.

Lemma run_length d n : forall s, Z.of_nat (length (run block d s n)) = Z.of_nat n * bl.
Proof.
  induction n as [|n IH]; intros s; [done|]; cbn [run]; rewrite length_app, Nat2Z.inj_add, IH, block_length; lia.
Qed.

Lemma run_bytes d n : forall s, Forall byte_ok (run block d s n).
Proof.
  induction n as [|n IH]; intros s; [by apply Forall_nil|]; cbn [run]; apply Forall_app; split;
    [apply block_bytes|apply IH].
Qed.
End lengths.

(** ** A card of 512-byte blocks

    An instance of the interface: a transfer succeeds when it names at least
    one block and ends on the card. *)

Record card := mkCard { lba : Z; content : Z -> bytes }.

Definition card_block (d : card) (b : Z) : bytes := take 512 (map u8 (content d b) ++ replicate 512 0).

Definition card_range (d : card) (s n : Z) : bool := (0 <? n) && (s + n <=? lba d).

Definition card_put (d : card) (s n : Z) (src : bytes) : card :=
  mkCard (lba d) (fun b => if (s <=? b) && (b <? s + n)
                           then take 512 (drop (Z.to_nat ((b - s) * 512)) src) else content d b).

#[global] Instance card_dev : BlockDev card := {
  block_read d s n := if card_range d s n then (n, run card_block d s (Z.to_nat n), d) else (0, [], d);
  block_write d s n src := if card_range d s n then (n, card_put d s n src) else (0, d) }.

Lemma card_length d b : Z.of_nat (length (card_block d b)) = 512.
Proof. unfold card_block; rewrite length_take, length_app, length_replicate; lia. Qed.

Lemma card_bytes d b : Forall byte_ok (card_block d b).
Proof.
  unfold card_block; apply Forall_take, Forall_app; split.
  - induction (content d b) as [|x l IH]; [by apply Forall_nil|]; cbn [map]; apply Forall_cons.
    split; [apply (wrap_range 8); lia|done].
  - apply Forall_replicate; unfold byte_ok; lia.
Qed.

Lemma u8_bytes l : Forall byte_ok l -> map u8 l = l.
Proof.
  induction l as [|x l IH]; intros Fl; [done|]; apply Forall_cons in Fl as [Hx Fl]; cbn [map].
  rewrite IH by done; f_equal; apply wrap_small; unfold byte_ok in Hx; lia.
Qed.

Lemma card_put_block d s n src i : Forall byte_ok src -> 0 <= i < n ->
  Z.of_nat (length src) = n * 512 ->
  card_block (card_put d s n src) (s + i) = take 512 (drop (Z.to_nat (i * 512)) src).
Proof.
  intros Fb Hi Hl; unfold card_block, card_put; cbn [content].
  replace ((s <=? s + i) && (s + i <? s + n)) with true by (symmetry; zbool; lia).
  replace (s + i - s) with i by lia; rewrite u8_bytes by (by apply Forall_take, Forall_drop).
  apply take_exact; rewrite length_take, length_drop; lia.
Qed.

Lemma card_run d s n src : Forall byte_ok src -> Z.of_nat (length src) = n * 512 -> forall k i, 0 <= i ->
  i + Z.of_nat k <= n ->
  run card_block (card_put d s n src) (s + i) k = take (k * 512) (drop (Z.to_nat (i * 512)) src).
Proof.
  intros Fb Hl; induction k as [|k IH]; intros i Hi Hk; [done|]; cbn [run].
  rewrite card_put_block by (done || lia); replace (s + i + 1) with (s + (i + 1)) by lia; rewrite IH by lia.
  replace (Z.to_nat ((i + 1) * 512)) with (Z.to_nat (i * 512) + 512)%nat by lia.
  rewrite <- drop_drop; apply take_take_drop.
Qed.

Lemma card_put_frame d s n src b : b < s \/ s + n <= b -> card_block (card_put d s n src) b = card_block d b.
Proof.
  intros Hb; unfold card_block, card_put; cbn [content].
  by replace ((s <=? b) && (b <? s + n)) with false by (symmetry; zbool; lia).
Qed.

#[global] Program Instance card_spec : BlockDevSpec card 512 := {
  block := card_block; good _ := True; in_range d s n := card_range d s n = true }.
Next Obligation. apply card_length. Qed.
Next Obligation. apply card_bytes. Qed.
Next Obligation. by unfold read_ret, read_data; cbn; intros d s n _; destruct (card_range d s n). Qed.
Next Obligation. by unfold read_dev; cbn; intros d s n b _; destruct (card_range d s n). Qed.
Next Obligation.
  unfold write_ret, write_dev; cbn; intros d s n src Hn Hl Fb; destruct (card_range d s n); [|done]; intros _; cbn [snd].
  rewrite <- (Z.add_0_r s) at 2; rewrite card_run by (done || unfold addressable in Hn; lia).
  rewrite drop_0, firstn_all2 by (unfold addressable in Hn; lia); done.
Qed.
Next Obligation.
  unfold write_ret, write_dev; cbn; intros d s n src b _ _ _ Hb; destruct (card_range d s n); [|done]; intros _.
  by apply card_put_frame.
Qed.
Next Obligation. done. Qed.
Next Obligation. done. Qed.
Next Obligation. by unfold read_dev; cbn; intros d s n s' n' _; destruct (card_range d s n). Qed.
Next Obligation. by unfold write_dev; cbn; intros d s n src s' n' _ _ _; destruct (card_range d s n). Qed.
Next Obligation. unfold card_range; intros d s n s' n' Hr Hs Hn He; zbool; lia. Qed.
Next Obligation.
  unfold read_ret; cbn; intros d s n Ha _; destruct (card_range d s n); cbn [fst]; unfold addressable in Ha;
    split; intros; (done || lia).
Qed.
Next Obligation.
  unfold write_ret; cbn; intros d s n src Ha _ _ _; destruct (card_range d s n); cbn [fst]; unfold addressable in Ha;
    split; intros; (done || lia).
Qed.

End BlockDev.
