(* ===== verification/EmmcPart.v ===== *)
(** * eMMC partition table
    (drivers/mmc/emmc_partitions.c, include/emmc_partitions.h,
     include/storage.h, common/partitions.c)

    The table of the eMMC is the board's inherent partitions (bootloader,
    reserved, cache, env) followed by the ones the device tree lists.  It is
    laid out at every boot, compared with the copy that the reserved partition
    of the card keeps, and written there when the copy is missing, damaged or
    different.

    The card is accessed through the class [BlockDev] of BlockDev.v.  This file
    has the definitions and the layout of the table; EmmcTable.v has what is
    kept on the card.  The device-tree library is the
    record [libfdt] of the four functions that [get_partition_from_dts] calls.
    Heap requests are answered by the list [kmalloc_plan] of the state (an
    exhausted list grants every request), so that each error path is
    reachable.  [None] is undefined behaviour: an access outside an array, a
    NULL dereference or a division by zero.  Console output is left out. *)

From S2P Require Import Prelude Vsprintf CArray MultiDtb BlockDev.

Module EmmcPart.
Import CArray BlockDev.

(** ** Data *)

Definition MAX_MMC_PART_NUM : Z := 32.
Definition MAX_MMC_PART_NAME_LEN : nat := 16.
Definition SZ_1M : Z := 0x100000.
Definition PARTITION_RESERVED : Z := 8 * SZ_1M.
Definition MMC_BOOT_PARTITION_RESERVED : Z := 32 * SZ_1M.
Definition MMC_BOTTOM_RSV_SIZE : Z := 0.
Definition EMMC_BOOT_FLAG : Z := 2.
Definition DTB_PART_SIZE : Z := 512 * 1024.
Definition DTB_ADDR_SIZE : Z := SZ_1M * 40.
Definition ENOMEM : Z := 12.

Definition MMC_BOOT_NAME : bytes := cs "bootloader".
Definition MMC_RESERVED_NAME : bytes := cs "reserved".
Definition MMC_CACHE_NAME : bytes := cs "cache".
Definition MMC_ENV_NAME : bytes := cs "env".
Definition MMC_UBOOT_VERSION : bytes := cs "01.00.00".
Definition MMC_PARTITIONS_MAGIC : bytes := cs "MPT".
Definition MMC_CARD_PARTITION_NAME : bytes := cs "card".

(** [struct partitions]: [name] has 16 bytes; [pad] is the four bytes of tail
    padding, which are written to the card and summed with the rest. *)
Record partitions := mkPart {
  name : bytes;
  size : Z;
  offset : Z;
  mask_flags : Z;
  pad : Z }.

Definition zero_part : partitions := mkPart (replicate 16 0) 0 0 0 0.

Definition with_name (p : partitions) (n : bytes) : partitions :=
  mkPart n (size p) (offset p) (mask_flags p) (pad p).
Definition with_size (p : partitions) (z : Z) : partitions :=
  mkPart (name p) z (offset p) (mask_flags p) (pad p).
Definition with_offset (p : partitions) (z : Z) : partitions :=
  mkPart (name p) (size p) z (mask_flags p) (pad p).
Definition with_flags (p : partitions) (z : Z) : partitions :=
  mkPart (name p) (size p) (offset p) z (pad p).

(** [struct mmc_partition_config]; [option] is never set. *)
Record mmc_partition_config := mkCfg {
  version : bytes;
  part_num : Z;
  parts : list partitions }.

Record mmc_partitions_fmt := mkFmt {
  magic : bytes;
  fversion : bytes;
  fpart_num : Z;
  checksum : Z;
  fparts : list partitions }.

Definition zero_cfg : mmc_partition_config := mkCfg (replicate 12 0) 0 (replicate 32 zero_part).
Definition zero_fmt : mmc_partitions_fmt :=
  mkFmt (replicate 4 0) (replicate 12 0) 0 0 (replicate 32 zero_part).

(** The fields of [struct mmc] that are used. *)
Record mmc := mkMmc {
  read_bl_len : Z;
  capacity : Z }.

(** The globals of the two files, the card and the heap.  [beyond] is what a
    read through [part_table] finds behind the array. *)
Record state (D : Type) := mkState {
  part_table : option (list partitions);
  parts_total_num : Z;
  beyond : list partitions;
  emmc_partition_table : list partitions;
  mmc_partition_config_of : option mmc_partition_config;
  device_boot_flag : Z;
  dev : D;
  kmalloc_plan : list bool }.
Arguments mkState {D}. Arguments part_table {D}. Arguments parts_total_num {D}.
Arguments beyond {D}. Arguments emmc_partition_table {D}. Arguments mmc_partition_config_of {D}.
Arguments device_boot_flag {D}. Arguments dev {D}. Arguments kmalloc_plan {D}.

(** PARTITION_ELEMENT and the initial value of [emmc_partition_table]. *)
Definition PARTITION_ELEMENT (na : bytes) (sz flags : Z) : partitions :=
  mkPart (take 16 (na ++ replicate 16 0)) sz 0 flags 0.

Definition inherent : list partitions :=
  [PARTITION_ELEMENT MMC_BOOT_NAME (0x4 * SZ_1M) 0;
   PARTITION_ELEMENT MMC_RESERVED_NAME (64 * SZ_1M) 0;
   PARTITION_ELEMENT MMC_CACHE_NAME 0 0;
   PARTITION_ELEMENT MMC_ENV_NAME (8 * SZ_1M) 0].

(** ** Looking a partition up *)

(** The loop of [find_partition_by_name] from index [i], [n] entries to go;
    the result is the index of the entry or [None] for NULL. *)
Fixpoint find_loop (n : nat) (tbl : list partitions) (i : Z) (nm : bytes) : option (option Z) :=
  match n with
  | O => Some None
  | S n' =>
      p ← zget tbl i;
      c ← zget (name p) 0;
      if c =? 0 then Some None
      else
        r ← strncmp_arr MAX_MMC_PART_NAME_LEN (name p) nm;
        if r =? 0 then Some (Some i) else find_loop n' tbl (i + 1) nm
  end.

Definition find_partition_by_name (tbl : list partitions) (num : Z) (nm : bytes) :
  option (option Z) := find_loop (Z.to_nat num) tbl 0 nm.

Definition find_mmc_partition_by_name (cfg : option mmc_partition_config) (nm : bytes) :
  option (option Z) :=
  match cfg with
  | None => Some None
  | Some c => find_partition_by_name (parts c) (part_num c) nm
  end.

Definition set_partition_info (src_tbl : list partitions) (src_num : Z)
  (dst_tbl : list partitions) (dst_num : Z) (nm : bytes) : option (Z * list partitions) :=
  src ← find_partition_by_name src_tbl src_num nm;
  match src with
  | None => Some (-1, dst_tbl)
  | Some i =>
      dst ← find_partition_by_name dst_tbl dst_num nm;
      (* a second test of [src]: a missing [dst] is dereferenced *)
      j ← dst;
      s ← zget src_tbl i;
      d ← zget dst_tbl j;
      dst_tbl' ← zset dst_tbl j (with_flags (with_size d (size s)) (mask_flags s));
      Some (0, dst_tbl')
  end.

Definition get_emmc_partition_arraysize (tbl : list partitions) : Z := Z.of_nat (length tbl).

Fixpoint overide_loop (n : nat) (ptable tbl : list partitions) (i : Z) : option (list partitions) :=
  match n with
  | O => Some tbl
  | S n' =>
      p ← zget tbl i;
      r ← set_partition_info ptable MAX_MMC_PART_NUM tbl (get_emmc_partition_arraysize tbl) (name p);
      overide_loop n' ptable (snd r) (i + 1)
  end.

Definition overide_emmc_partition_table (ptable tbl : list partitions) : option (list partitions) :=
  overide_loop (length tbl) ptable tbl 0.

Definition is_in_emmc_partition_tbl (tbl : list partitions) (nm : bytes) : option bool :=
  r ← find_partition_by_name tbl (get_emmc_partition_arraysize tbl) nm;
  Some (match r with None => false | Some _ => true end).

(** ** Laying the table out *)

(** The body of the loop over the inherent partitions at entry [e]. *)
Definition set_inherent (boot_flag : Z) (e : partitions) (ptr : list partitions) (num : Z) :
  option (list partitions) :=
  p ← zget ptr num;
  nm ← strncpy_arr MAX_MMC_PART_NAME_LEN (name p) (name e);
  let p := with_flags (with_size (with_name p nm) (size e)) (mask_flags e) in
  if num =? 0 then zset ptr num (with_offset p 0)
  else
    q ← zget ptr (num - 1);
    r ← strncmp_arr MAX_MMC_PART_NAME_LEN (name q) MMC_BOOT_NAME;
    pr ← (if r =? 0 then
            if negb (boot_flag =? EMMC_BOOT_FLAG) then
              nm ← zset nm 10 101;
              nm ← zset nm 11 0;
              Some (with_name p nm, MMC_BOOT_PARTITION_RESERVED)
            else Some (p, MMC_BOOT_PARTITION_RESERVED)
          else Some (p, PARTITION_RESERVED));
    let '(p, resv_size) := pr in
    zset ptr num (with_offset p (u64 (offset q + size q + resv_size))).

Fixpoint inherent_loop (n : nat) (boot_flag : Z) (tbl : list partitions) (i : Z)
  (ptr : list partitions) (num : Z) : option (list partitions * Z) :=
  match n with
  | O => Some (ptr, num)
  | S n' =>
      e ← zget tbl i;
      ptr ← set_inherent boot_flag e ptr num;
      inherent_loop n' boot_flag tbl (i + 1) ptr (num + 1)
  end.

(** [-1] as the [uint64_t] it is compared with. *)
Definition NAND_PART_SIZE_FULL : Z := u64 (-1).

(** The size that the last partition gets. *)
Definition rest_of (mmc_capacity off : Z) : Z :=
  let sz := u64 (mmc_capacity - off) in
  if MMC_BOTTOM_RSV_SIZE <? sz then u64 (sz - MMC_BOTTOM_RSV_SIZE) else sz.

(** The loop over the partitions of the device tree: [n] of the 32 rounds to
    go at [part_table[i]]. *)
Fixpoint dts_loop (n : nat) (cap : Z) (ptable tbl : list partitions) (i : Z)
  (ptr : list partitions) (num : Z) : option (list partitions * Z) :=
  match n with
  | O => Some (ptr, num)
  | S n' =>
      e ← zget ptable i;
      skip ← is_in_emmc_partition_tbl tbl (name e);
      if skip : bool then dts_loop n' cap ptable tbl (i + 1) ptr num
      else
        p ← zget ptr num;
        q ← zget ptr (num - 1);
        nm ← strncpy_arr MAX_MMC_PART_NAME_LEN (name p) (name e);
        let off := u64 (offset q + size q + PARTITION_RESERVED) in
        let p := with_offset (with_flags (with_size (with_name p nm) (size e)) (mask_flags e)) off in
        if (size e =? NAND_PART_SIZE_FULL) || (cap <? u64 (off + size e)) then
          ptr ← zset ptr num (with_size p (rest_of cap off));
          Some (ptr, num)
        else
          ptr ← zset ptr num p;
          dts_loop n' cap ptable tbl (i + 1) ptr (num + 1)
  end.
(** The two loops over the cleared configuration, its version and its count. *)
Definition laid_out (m : mmc) (boot_flag : Z) (ptable tbl : list partitions) :
  option mmc_partition_config :=
  '(ptr, num) ← inherent_loop (length tbl) boot_flag tbl 0 (parts zero_cfg) 0;
  '(ptr, num) ← dts_loop (Z.to_nat MAX_MMC_PART_NUM) (capacity m) ptable tbl 0 ptr num;
  v ← strncpy_arr MAX_MMC_PART_NAME_LEN (version zero_cfg) MMC_UBOOT_VERSION;
  Some (mkCfg v (num + 1) ptr).

(** ** The device tree: common/partitions.c *)

(** The functions of the device-tree library; a property is the position of
    its value in the blob, [None] for NULL.  [dt_entry] gives the bytes from the
    address on that [get_multi_dt_entry] returns (CONFIG_MULTI_DTB; without it,
    the buffer itself), [None] when that call is undefined. *)
Record libfdt := mkFdt {
  dt_entry : bytes -> option bytes;
  fdt_check_header : bytes -> Z;
  fdt_path_offset : bytes -> bytes -> Z;
  fdt_getprop : bytes -> Z -> bytes -> option Z;
  fdt_node_offset_by_phandle : bytes -> Z -> Z }.

(** [be32_to_cpup] at position [p] of the blob. *)
Definition be32_at (blob : bytes) (p : Z) : option Z :=
  a ← zget blob p; b ← zget blob (p + 1); c ← zget blob (p + 2); d ← zget blob (p + 3);
  Some (Z.lor (Z.shiftl a 24) (Z.lor (Z.shiftl b 16) (Z.lor (Z.shiftl c 8) d))).

Definition get_partitions_table {D} (st : state D) : Z * option (list partitions) :=
  match part_table st with
  | Some t => if negb (parts_total_num st =? 0) then (parts_total_num st, Some t) else (0, None)
  | None => (0, None)
  end.

(** A request of the heap. *)
Definition kmalloc (plan : list bool) : bool * list bool :=
  match plan with [] => (true, []) | b :: plan' => (b, plan') end.

(** [memcpy(part_table[index].name, uname, strlen(uname))]: a name longer than
    the field overruns it. *)
Definition copy_name (nm : bytes) (blob : bytes) (uname : option Z) : option bytes :=
  match uname with
  | None => Some nm
  | Some p =>
      if p <? 0 then None
      else
        let s := drop (Z.to_nat p) blob in
        n ← strlen_arr s;
        if n <=? Z.of_nat (length nm) then Some (take (Z.to_nat n) s ++ drop (Z.to_nat n) nm) else None
  end.

(** The address computed by the package code of MultiDtb.v. *)
Definition package_entry (hw : bytes -> bytes) (junk : bytes) (aml_dt : option bytes) (buffer : bytes) :
  option bytes :=
  off ← MultiDtb.get_multi_dt_entry hw junk aml_dt buffer; Some (drop (Z.to_nat off) buffer).

Section dts.
Context (F : libfdt).

(** One round at [index]: [Some None] is the jump to [_err]. *)
Definition dts_entry (dt : bytes) (nodeoffset index : Z) (tbl : list partitions) :
  option (option (list partitions)) :=
  if 100 <=? index then None (* [propname] has eight bytes *)
  else
    match fdt_getprop F dt nodeoffset (str "part-" ++ Vsprintf.digits_text 0 10 index ++ [0]) with
    | None => Some None
    | Some ph =>
        phandle ← be32_at dt ph;
        let poffset := fdt_node_offset_by_phandle F dt phandle in
        if poffset =? 0 then Some None
        else
          let uname := fdt_getprop F dt poffset (cs "pname") in
          let usize := fdt_getprop F dt poffset (cs "size") in
          let umask := fdt_getprop F dt poffset (cs "mask") in
          p ← zget tbl index;
          nm ← copy_name (name p) dt uname;
          us ← usize;
          hi ← be32_at dt us;
          lo ← be32_at dt (us + 4);
          um ← umask;
          mask ← be32_at dt um;
          tbl ← zset tbl index (with_flags (with_size (with_name p nm) (Z.lor (Z.shiftl hi 32) lo)) mask);
          Some (Some tbl)
    end.

Fixpoint dts_entries (n : nat) (dt : bytes) (nodeoffset index : Z) (tbl : list partitions) :
  option (option (list partitions)) :=
  match n with
  | O => Some (Some tbl)
  | S n' =>
      r ← dts_entry dt nodeoffset index tbl;
      match r with
      | None => Some None
      | Some tbl => dts_entries n' dt nodeoffset (index + 1) tbl
      end
  end.

(** The return value, the new [part_table] and [parts_total_num] and the rest of
    the plan; the old [part_table] is freed or overwritten on every path. *)
Definition get_partition_from_dts (buffer : option bytes) (plan : list bool)
  (total : Z) :
  option (Z * option (list partitions) * Z * list bool) :=
  match buffer with
  | None => Some (-1, None, total, plan)
  | Some buffer =>
      dt_addr ← dt_entry F buffer;
      let ret := fdt_check_header F dt_addr in
      if ret <? 0 then Some (ret, None, total, plan)
      else
        let nodeoffset := fdt_path_offset F dt_addr (cs "/partitions") in
        if nodeoffset <? 0 then Some (-1, None, total, plan)
        else
          parts_num ← fdt_getprop F dt_addr nodeoffset (cs "parts");
          n ← be32_at dt_addr parts_num;
          let '(got, plan) := kmalloc plan in
          if negb got then Some (-1, None, total, plan)
          else
            r ← dts_entries (Z.to_nat n) dt_addr nodeoffset 0 (replicate (Z.to_nat n) zero_part);
            match r with
            | Some tbl => Some (0, Some tbl, s32 n, plan)
            | None => Some (ret, None, s32 n, plan) (* [_err], with the [ret] of the header check *)
            end
  end.

End dts.

(** ** The image on the card *)

(** [sizeof] of the two structs *)
Definition part_size : nat := 40.
Definition fmt_size : Z := 1304.

Definition enc_part (p : partitions) : bytes :=
  name p ++ le 8 (size p) ++ le 8 (offset p) ++ le 4 (mask_flags p) ++ le 4 (pad p).

Definition dec_part (b : bytes) : partitions :=
  mkPart (take 16 b) (le_val (take 8 (drop 16 b))) (le_val (take 8 (drop 24 b)))
         (le_val (take 4 (drop 32 b))) (le_val (take 4 (drop 36 b))).

Definition enc_fmt (f : mmc_partitions_fmt) : bytes :=
  magic f ++ fversion f ++ le 4 (u32 (fpart_num f)) ++ le 4 (u32 (checksum f)) ++
  flat_map enc_part (fparts f).

Fixpoint dec_parts (n : nat) (b : bytes) : list partitions :=
  match n with O => [] | S n' => dec_part (take part_size b) :: dec_parts n' (drop part_size b) end.

Definition dec_fmt (b : bytes) : mmc_partitions_fmt :=
  mkFmt (take 4 b) (take 12 (drop 4 b)) (s32 (le_val (take 4 (drop 16 b))))
        (s32 (le_val (take 4 (drop 20 b)))) (dec_parts 32 (drop 24 b)).

(** [memcpy] of [data] over the image at [off]. *)
Definition splice (img : bytes) (off : nat) (data : bytes) : bytes :=
  take off img ++ data ++ drop (off + length data) img.

(** The 32-bit words of a byte list. *)
Fixpoint words (n : nat) (b : bytes) : list Z :=
  match n with O => [] | S n' => le_val (take 4 b) :: words n' (drop 4 b) end.

(** [p] starts at the first partition again in every round. *)
Fixpoint checksum_loop (n : nat) (part : partitions) (sum : Z) : Z :=
  match n with
  | O => sum
  | S n' => checksum_loop n' part (fold_left (fun a w => u32 (a + w)) (words 10 (enc_part part)) sum)
  end.

Definition mmc_partition_tbl_checksum_calc (part : list partitions) (num : Z) : option Z :=
  p ← zget part 0; Some (s32 (checksum_loop (Z.to_nat num) p 0)).

Definition set_plan {D} (st : state D) (plan : list bool) : state D :=
  mkState (part_table st) (parts_total_num st) (beyond st) (emmc_partition_table st)
    (mmc_partition_config_of st) (device_boot_flag st) (dev st) plan.
Definition set_dev {D} (st : state D) (d : D) : state D :=
  mkState (part_table st) (parts_total_num st) (beyond st) (emmc_partition_table st)
    (mmc_partition_config_of st) (device_boot_flag st) d (kmalloc_plan st).
Definition set_cfg {D} (st : state D) (c : option mmc_partition_config) : state D :=
  mkState (part_table st) (parts_total_num st) (beyond st) (emmc_partition_table st)
    c (device_boot_flag st) (dev st) (kmalloc_plan st).
Definition set_dts {D} (st : state D) (t : option (list partitions)) (total : Z) : state D :=
  mkState t total (beyond st) (emmc_partition_table st)
    (mmc_partition_config_of st) (device_boot_flag st) (dev st) (kmalloc_plan st).
Definition set_tbl {D} (st : state D) (t : list partitions) : state D :=
  mkState (part_table st) (parts_total_num st) (beyond st) t
    (mmc_partition_config_of st) (device_boot_flag st) (dev st) (kmalloc_plan st).

Section emmc.
Context {D : Type} `{BlockDev D} (F : libfdt).

(** The image [mmc_write_partition_tbl] builds in [pt_fmt]. *)
Definition make_fmt (cfg : mmc_partition_config) : option mmc_partitions_fmt :=
  sum ← mmc_partition_tbl_checksum_calc (parts cfg) (part_num cfg);
  m ← strncpy_arr 4 (magic zero_fmt) MMC_PARTITIONS_MAGIC;
  Some (mkFmt m (version cfg) (part_num cfg) sum (parts cfg)).

(** [start_blk], the first block of the reserved partition; [Some None] when the
    table has no such partition. *)
Definition reserved_start (m : mmc) (st : state D) : option (option Z) :=
  pp ← find_mmc_partition_by_name (mmc_partition_config_of st) MMC_RESERVED_NAME;
  match pp with
  | None => Some None
  | Some i =>
      c ← mmc_partition_config_of st;
      p ← zget (parts c) i;
      if read_bl_len m =? 0 then None else Some (Some (s32 (offset p / read_bl_len m)))
  end.

(** The transfers of the write: whole blocks, then the rest in [buf]. *)
Definition write_image (m : mmc) (d : D) (start_blk : Z) (src : bytes) : Z * D :=
  let bl := read_bl_len m in
  let blk_cnt := fmt_size / bl in
  let done := blk_cnt * bl in
  let '(ret, d) := if bl <=? fmt_size
                   then block_write d (u64 start_blk) blk_cnt (take (Z.to_nat done) src)
                   else (1, d) in
  if ret =? 0 then (-1, d)
  else
    let left_ := fmt_size - done in
    if 0 <? left_ then
      let buf := splice (replicate (Z.to_nat bl) 0) 0 (drop (Z.to_nat done) src) in
      let '(ret, d) := block_write d (u64 (start_blk + blk_cnt)) 1 buf in
      if ret =? 0 then (-1, d) else (0, d)
    else (0, d).

Definition mmc_write_partition_tbl (m : mmc) (cfg : mmc_partition_config) (st : state D) :
  option (Z * state D) :=
  let '(got, plan) := kmalloc (kmalloc_plan st) in
  let st := set_plan st plan in
  if negb got then Some (- ENOMEM, st)
  else
    pt_fmt ← make_fmt cfg;
    start ← reserved_start m st;
    match start with
    | None => Some (-1, st)
    | Some start_blk =>
        let '(ret, d) := write_image m (dev st) start_blk (enc_fmt pt_fmt) in
        Some (ret, set_dev st d)
    end.

(** The transfers of the read, over the cleared [pt_fmt]. *)
Definition read_image (m : mmc) (d : D) (start_blk : Z) : Z * bytes * D :=
  let bl := read_bl_len m in
  let blk_cnt := fmt_size / bl in
  let done := blk_cnt * bl in
  let img := replicate (Z.to_nat fmt_size) 0 in
  let '(ret, img, d) := if bl <=? fmt_size
                        then let '(ret, data, d) := block_read d (u64 start_blk) blk_cnt in
                             (ret, splice img 0 data, d)
                        else (1, img, d) in
  if ret =? 0 then (-1, img, d)
  else
    let left_ := fmt_size - done in
    if 0 <? left_ then
      let '(ret, buf, d) := block_read d (u64 (start_blk + blk_cnt)) 1 in
      if ret =? 0 then (-1, img, d)
      else (0, splice img (Z.to_nat done) (take (Z.to_nat left_) buf), d)
    else (0, img, d).

(** The tests on the image that was read. *)
Definition fmt_valid (f : mmc_partitions_fmt) : option bool :=
  r ← strncmp_arr 4 (magic f) MMC_PARTITIONS_MAGIC;
  if (r =? 0) && (0 <? fpart_num f) && (fpart_num f <=? MAX_MMC_PART_NUM) then
    sum ← mmc_partition_tbl_checksum_calc (fparts f) (fpart_num f);
    Some (checksum f =? sum)
  else Some false.

Definition mmc_read_partition_tbl (m : mmc) (st : state D) :
  option (Z * mmc_partitions_fmt * state D) :=
  let '(got, plan) := kmalloc (kmalloc_plan st) in
  let st := set_plan st plan in
  if negb got then Some (- ENOMEM, zero_fmt, st)
  else
    start ← reserved_start m st;
    match start with
    | None => Some (-1, zero_fmt, st)
    | Some start_blk =>
        let '(ret, img, d) := read_image m (dev st) start_blk in
        let st := set_dev st d in
        let f := dec_fmt img in
        if negb (ret =? 0) then Some (ret, f, st)
        else
          ok ← fmt_valid f;
          Some (if ok : bool then 0 else -1, f, st)
    end.

(** The loop of [mmc_partition_verify] from entry [i]. *)
Fixpoint verify_loop (n : nat) (pp1 pp2 : list partitions) (i : Z) : option Z :=
  match n with
  | O => Some 0
  | S n' =>
      p1 ← zget pp1 i;
      p2 ← zget pp2 i;
      if negb (size p1 =? size p2) || negb (offset p1 =? offset p2)
         || negb (mask_flags p1 =? mask_flags p2)
      then Some (-1)
      else
        r ← strncmp_arr 16 (name p1) (name p2);
        if negb (r =? 0) then Some (-1) else verify_loop n' pp1 pp2 (i + 1)
  end.

Definition mmc_partition_verify (cfg : mmc_partition_config) (f : mmc_partitions_fmt) : option Z :=
  r ← strncmp_arr 12 (version cfg) (fversion f);
  if (r =? 0) && (part_num cfg =? fpart_num f)
  then verify_loop (Z.to_nat (fpart_num f)) (parts cfg) (fparts f) 0
  else Some (-1).

(** ** Start-up *)

Definition get_dtb_struct (m : mmc) (st : state D) : option (Z * state D) :=
  match part_table st with
  | Some _ => Some (0, st)
  | None =>
      let '(got, plan) := kmalloc (kmalloc_plan st) in
      let st := set_plan st plan in
      if read_bl_len m =? 0 then None
      else if negb got then None (* the buffer is not checked *)
      else
        let start_blk := s32 (DTB_ADDR_SIZE / read_bl_len m) in
        let blk_cnt := DTB_PART_SIZE / read_bl_len m in
        let '(ret, data, d) := if read_bl_len m <=? DTB_PART_SIZE
                               then block_read (dev st) (u64 start_blk) blk_cnt
                               else (1, [], dev st) in
        let st := set_dev st d in
        if ret =? 0 then Some (-1, st)
        else if DTB_PART_SIZE <? read_bl_len m then None (* nothing was read into the buffer *)
        else
          '(ret, t, total, plan) ← get_partition_from_dts F (Some data) (kmalloc_plan st) (parts_total_num st);
          Some (ret, set_plan (set_dts st t total) plan)
  end.

Definition mmc_get_partition_table (m : mmc) (st : state D) : option (Z * state D) :=
  let '(got, plan) := kmalloc (kmalloc_plan st) in
  let st := set_plan st plan in
  if negb got then Some (-1, set_cfg st None)
  else
    let st := set_cfg st (Some zero_cfg) in
    '(ret, st) ← get_dtb_struct m st;
    if negb (ret =? 0) then Some (- ENOMEM, set_cfg st None)
    else
      t ← part_table st;
      let ptable := t ++ beyond st in
      tbl ← overide_emmc_partition_table ptable (emmc_partition_table st);
      let st := set_tbl st tbl in
      cfg ← laid_out m (device_boot_flag st) ptable tbl;
      Some (ret, set_cfg st (Some cfg)).

Definition mmc_device_init (m : mmc) (st : state D) : option (Z * state D) :=
  '(ret, st) ← mmc_get_partition_table m st;
  if negb (ret =? 0) then Some (-1, st)
  else
    let '(got, plan) := kmalloc (kmalloc_plan st) in
    let st := set_plan st plan in
    if negb got then Some (- ENOMEM, st)
    else
      cfg ← mmc_partition_config_of st;
      '(ret, pt_fmt, st) ← mmc_read_partition_tbl m st;
      ret ← (if ret =? 0 then mmc_partition_verify cfg pt_fmt else Some ret);
      if negb (ret =? 0) then mmc_write_partition_tbl m cfg st else Some (ret, st).

Definition find_dev_num_by_partition_name (st : state D) (nm : bytes) : option Z :=
  r ← strncmp_arr 5 nm MMC_CARD_PARTITION_NAME;
  if r =? 0 then Some 0
  else
    p ← find_mmc_partition_by_name (mmc_partition_config_of st) nm;
    Some (match p with Some _ => 1 | None => -1 end).

End emmc.


(** ** Lemmas on the search *)

(** The name field of a table entry. *)
Definition named (p : partitions) : Prop := length (name p) = 16%nat /\ Forall byte_ok (name p).

#[global] Instance named_dec p : Decision (named p) := _.

(** A C string that a search may be asked for. *)
Definition key_ok (nm : bytes) : Prop := bounded 16 nm /\ Forall byte_ok nm.

#[global] Instance key_ok_dec nm : Decision (key_ok nm) := _.

Lemma named_key p : named p -> key_ok (name p).
Proof. intros [Hl Hb]; split; [left; lia|done]. Qed.

Lemma named_first p : named p -> exists c, zget (name p) 0 = Some c.
Proof. intros [Hl _]; destruct (name p) as [|c l]; [done|]; by exists c. Qed.

Lemma find_compare p nm : named p -> key_ok nm -> exists r,
  strncmp_arr MAX_MMC_PART_NAME_LEN (name p) nm = Some r /\ (r =? 0) = same_str 16 (name p) nm.
Proof. intros Hp [Hn Fn]; apply named_key in Hp as [Hb Fb]; by apply strncmp_same. Qed.

(** The search ends inside the table, and what it finds has the name. *)
Lemma find_loop_total nm n : key_ok nm -> forall tbl i, Forall named tbl -> 0 <= i ->
  i + Z.of_nat n <= Z.of_nat (length tbl) ->
  exists r, find_loop n tbl i nm = Some r /\
    forall j, r = Some j -> i <= j < i + Z.of_nat n /\
      exists p, zget tbl j = Some p /\ same_str 16 (name p) nm = true.
Proof.
  intros Hk; induction n as [|n IH]; intros tbl i Ft Hi Hn; [by exists None|]; simpl.
  destruct (proj2 (zget_is_Some tbl i)) as [p Hp]; [lia|]; rewrite Hp; simpl.
  assert (named p) as Np by (apply zget_Some in Hp as [_ Hp]; by eapply Forall_lookup_1 in Hp).
  destruct (named_first p Np) as [c ->]; simpl; destruct (c =? 0); [by exists None|].
  destruct (find_compare p nm Np Hk) as (r & -> & Er); simpl; rewrite Er.
  destruct (same_str 16 (name p) nm) eqn:Es.
  - exists (Some i); split; [done|]; intros j [= <-]; split; [lia|by exists p].
  - destruct (IH tbl (i + 1) Ft) as (r' & -> & Hr); [lia..|]; exists r'; split; [done|].
    intros j ->; destruct (Hr j eq_refl) as [Hj He]; split; [lia|done].
Qed.

(** The search looks at the names only. *)
Lemma find_loop_names nm n : forall t1 t2 i, map name t1 = map name t2 ->
  find_loop n t1 i nm = find_loop n t2 i nm.
Proof.
  induction n as [|n IH]; intros t1 t2 i E; [done|]; simpl; unfold zget.
  destruct (0 <=? i); [|done].
  assert (name <$> (t1 !! Z.to_nat i) = name <$> (t2 !! Z.to_nat i)) as El
    by (rewrite <- !list_lookup_fmap; change (map name t1 !! Z.to_nat i = map name t2 !! Z.to_nat i); by rewrite E).
  destruct (t1 !! Z.to_nat i) as [p|], (t2 !! Z.to_nat i) as [q|]; simpl in El |- *; try done.
  injection El as El; by rewrite El, (IH t1 t2 (i + 1) E).
Qed.

Lemma is_in_names t1 t2 nm : map name t1 = map name t2 ->
  is_in_emmc_partition_tbl t1 nm = is_in_emmc_partition_tbl t2 nm.
Proof.
  intros E; assert (length t1 = length t2) as El by (by rewrite <- (length_map name t1), E, length_map).
  unfold is_in_emmc_partition_tbl, find_partition_by_name, get_emmc_partition_arraysize.
  by rewrite El, (find_loop_names nm _ t1 t2 0 E).
Qed.

(** The names of the inherent partitions. *)
Definition inherent_name (nm : bytes) : bool := existsb (fun p => same_str 16 (name p) nm) inherent.

Lemma inherent_named : Forall named inherent.
Proof. by apply (bool_decide_unpack _); vm_compute. Qed.

Lemma find_loop_exists nm l : key_ok nm -> forall l0, Forall named l ->
  Forall (fun p => zget (name p) 0 <> Some 0) l ->
  exists r, find_loop (length l) (l0 ++ l) (Z.of_nat (length l0)) nm = Some r /\
    (match r with None => false | Some _ => true end) = existsb (fun p => same_str 16 (name p) nm) l.
Proof.
  intros Hk; induction l as [|p l IH]; intros l0 Fl Fn; [by exists None|]; simpl.
  apply Forall_cons in Fl as [Np Fl]; apply Forall_cons in Fn as [Hp Fn].
  rewrite zget_middle by done; simpl.
  destruct (named_first p Np) as [c Hc]; rewrite Hc in Hp |- *; simpl.
  destruct (Z.eqb_spec c 0) as [->|]; [done|].
  destruct (find_compare p nm Np Hk) as (r & -> & Er); simpl; rewrite Er.
  destruct (same_str 16 (name p) nm); simpl; [by eexists|].
  destruct (IH (l0 ++ [p]) Fl Fn) as (r' & Hf & Hr); exists r'.
  by rewrite length_app, Nat2Z.inj_add, <- app_assoc in Hf.
Qed.

Lemma is_in_inherent tbl nm : map name tbl = map name inherent -> key_ok nm ->
  is_in_emmc_partition_tbl tbl nm = Some (inherent_name nm).
Proof.
  intros E Hk; rewrite (is_in_names _ _ nm E).
  destruct (find_loop_exists nm inherent Hk [] inherent_named) as (r & Hf & Hr);
    [by apply (bool_decide_unpack _); vm_compute|].
  unfold is_in_emmc_partition_tbl, find_partition_by_name, get_emmc_partition_arraysize.
  rewrite Nat2Z.id; change 0 with (Z.of_nat (length (@nil partitions))).
  change (find_loop (length inherent) inherent) with (find_loop (length inherent) ([] ++ inherent)).
  by rewrite Hf; simpl; rewrite Hr.
Qed.

(** An inherent partition is found at its own place. *)
Lemma find_own tbl i p : map name tbl = map name inherent -> tbl !! i = Some p ->
  find_partition_by_name tbl (get_emmc_partition_arraysize tbl) (name p) = Some (Some (Z.of_nat i)).
Proof.
  intros E Hi; unfold find_partition_by_name, get_emmc_partition_arraysize; rewrite Nat2Z.id.
  rewrite (find_loop_names _ _ tbl inherent 0 E).
  replace (length tbl) with (length inherent) by (by rewrite <- (length_map name tbl), E, length_map).
  assert (map name inherent !! i = Some (name p)) as Hn
    by (rewrite <- E; change (map name tbl) with (name <$> tbl); by rewrite list_lookup_fmap, Hi).
  do 4 (destruct i as [|i]; [injection Hn as <-; by vm_compute|]); done.
Qed.

(** ** The override *)

(** What the override makes of one inherent partition. *)
Definition overide_entry (ptable : list partitions) (p : partitions) : option partitions :=
  r ← find_partition_by_name ptable MAX_MMC_PART_NUM (name p);
  match r with
  | None => Some p
  | Some i => s ← zget ptable i; Some (with_flags (with_size p (size s)) (mask_flags s))
  end.

Lemma overide_entry_name ptable p p' : overide_entry ptable p = Some p' -> name p' = name p.
Proof.
  unfold overide_entry; destruct (find_partition_by_name _ _ _) as [[i|]|]; simpl; [|congruence..].
  destruct (zget ptable i); simpl; by intros [= <-].
Qed.

Lemma overide_entry_again ptable p p' :
  overide_entry ptable p = Some p' -> overide_entry ptable p' = Some p'.
Proof.
  intros E; pose proof (overide_entry_name _ _ _ E) as En; revert E; unfold overide_entry; rewrite En.
  destruct (find_partition_by_name _ _ _) as [[i|]|]; simpl; [|congruence..].
  destruct (zget ptable i); simpl; by intros [= <-].
Qed.

Lemma set_info_own ptable l0 p l : map name (l0 ++ p :: l) = map name inherent ->
  set_partition_info ptable MAX_MMC_PART_NUM (l0 ++ p :: l)
    (get_emmc_partition_arraysize (l0 ++ p :: l)) (name p) =
  r ← find_partition_by_name ptable MAX_MMC_PART_NUM (name p);
  match r with
  | None => Some (-1, l0 ++ p :: l)
  | Some i => s ← zget ptable i; Some (0, l0 ++ with_flags (with_size p (size s)) (mask_flags s) :: l)
  end.
Proof.
  intros E; unfold set_partition_info.
  destruct (find_partition_by_name ptable _ _) as [[i|]|]; simpl; [|done..].
  rewrite (find_own _ (length l0) p E) by (by apply list_lookup_middle); simpl.
  destruct (zget ptable i) as [s|]; simpl; [|done].
  by rewrite zget_middle by done; simpl; rewrite zset_middle by done.
Qed.

Lemma overide_loop_spec ptable l : forall l0, map name (l0 ++ l) = map name inherent ->
  overide_loop (length l) ptable (l0 ++ l) (Z.of_nat (length l0)) =
  l' ← mapM (overide_entry ptable) l; Some (l0 ++ l').
Proof.
  induction l as [|p l IH]; intros l0 E; [done|]; simpl; rewrite zget_middle by done; simpl.
  rewrite (set_info_own ptable l0 p l E).
  assert (forall q, name q = name p -> overide_loop (length l) ptable (l0 ++ q :: l) (Z.of_nat (length l0) + 1)
    = l' ← mapM (overide_entry ptable) l; Some (l0 ++ q :: l')) as Hq.
  { intros q Hq; specialize (IH (l0 ++ [q])); rewrite length_app, Nat2Z.inj_add, <- app_assoc in IH.
    change (Z.of_nat (length [q])) with 1 in IH; cbn [app] in IH.
    rewrite IH by (rewrite <- E, !map_app; cbn [map]; by rewrite Hq).
    destruct (mapM _ l); simpl; [by rewrite <- app_assoc|done]. }
  replace (overide_entry ptable p) with (r ← find_partition_by_name ptable MAX_MMC_PART_NUM (name p);
    match r with
    | None => Some p
    | Some i => s ← zget ptable i; Some (with_flags (with_size p (size s)) (mask_flags s))
    end) by done.
  destruct (find_partition_by_name ptable _ (name p)) as [[i|]|]; simpl; [|rewrite Hq by done|done].
  - destruct (zget ptable i) as [s|]; simpl; [rewrite Hq by done|done]; by destruct (mapM _ l).
  - by destruct (mapM _ l).
Qed.

Lemma overide_inherent ptable tbl : map name tbl = map name inherent ->
  overide_emmc_partition_table ptable tbl = mapM (overide_entry ptable) tbl.
Proof.
  intros E; transitivity (l' ← mapM (overide_entry ptable) tbl; Some ([] ++ l'));
    [exact (overide_loop_spec ptable tbl [] E)|by destruct (mapM _ tbl)].
Qed.

(** ** The layout *)

(** A size below 512 GB, which cannot make the offsets overflow. *)
Definition small (z : Z) : Prop := 0 <= z < 2 ^ 39.

(** A table entry with fields in the range of their C types. *)
Definition part_ok (p : partitions) : Prop :=
  named p /\ 0 <= size p < 2 ^ 64 /\ 0 <= offset p < 2 ^ 64 /\ 0 <= mask_flags p < 2 ^ 32 /\
  0 <= pad p < 2 ^ 32.

(** An entry of the device tree: only a partition that is not inherent may ask
    for the rest of the card. *)
Definition entry_ok (e : partitions) : Prop :=
  part_ok e /\ (small (size e) \/ (size e = NAND_PART_SIZE_FULL /\ inherent_name (name e) = false)).

#[global] Instance part_ok_dec p : Decision (part_ok p) := _.
#[global] Instance entry_ok_dec e : Decision (entry_ok e) := _.

(** The partitions of [l] follow [q] in order with a gap of 8 MB or more. *)
Fixpoint spaced (q : partitions) (l : list partitions) : Prop :=
  match l with
  | [] => True
  | x :: l' => offset q + size q + PARTITION_RESERVED <= offset x /\ spaced x l'
  end.

Lemma entry_part e : entry_ok e -> part_ok e.
Proof. by intros [H _]. Qed.

Lemma part_named p : part_ok p -> named p.
Proof. by intros [H _]. Qed.

Lemma overide_entry_total ptable p : Forall entry_ok ptable -> 32 <= Z.of_nat (length ptable) ->
  part_ok p -> small (size p) -> In (name p) (map name inherent) ->
  exists p', overide_entry ptable p = Some p' /\ part_ok p' /\ small (size p').
Proof.
  intros Ft Hl Hp Hs Hin; unfold overide_entry, find_partition_by_name.
  destruct (find_loop_total (name p) (Z.to_nat MAX_MMC_PART_NUM) (named_key p (part_named p Hp)) ptable 0)
    as (r & -> & Hr); [eapply Forall_impl; [done|]; eauto using entry_part, part_named|lia|unfold MAX_MMC_PART_NUM; lia|]; simpl.
  destruct r as [j|]; [|by exists p]; destruct (Hr j eq_refl) as (_ & s & Hs' & Hsame); rewrite Hs'; simpl.
  apply zget_Some in Hs' as [_ Hs']; destruct (Forall_lookup_1 _ _ _ _ Ft Hs') as [Hps Hsz].
  assert (inherent_name (name s) = true) as Hi.
  { apply existsb_exists; apply in_map_iff in Hin as (q & Eq & Hq); exists q; split; [done|].
    by rewrite Eq, same_str_sym. }
  destruct Hsz as [Hsz|[_ Hn]]; [|congruence].
  eexists; split; [done|]; destruct Hp as (? & ? & ? & ? & ?), Hps as (? & ? & ? & ? & ?).
  split; [unfold part_ok, named in *; simpl; auto|done].
Qed.

Lemma overide_total ptable tbl : map name tbl = map name inherent ->
  Forall entry_ok ptable -> 32 <= Z.of_nat (length ptable) ->
  Forall part_ok tbl -> Forall (fun p => small (size p)) tbl ->
  exists tbl', overide_emmc_partition_table ptable tbl = Some tbl' /\
    map name tbl' = map name tbl /\ Forall part_ok tbl' /\ Forall (fun p => small (size p)) tbl' /\
    mapM (overide_entry ptable) tbl' = Some tbl'.
Proof.
  intros E Ft Hl Fp Fs; rewrite (overide_inherent ptable tbl E).
  assert (forall n, In n (map name tbl) -> In n (map name inherent)) as Hin by (by rewrite E); clear E.
  induction tbl as [|p tbl IH]; [by exists []|].
  apply Forall_cons in Fp as [Hp Fp]; apply Forall_cons in Fs as [Hs Fs].
  destruct (overide_entry_total ptable p) as (p' & Ep & Hp' & Hs'); [done..|by apply Hin; left|].
  destruct IH as (tbl' & Et & Hn & Hpt & Hst & Ha); [done..|by intros n Hn; apply Hin; right|].
  exists (p' :: tbl'); simpl; rewrite Ep; simpl; rewrite Et; simpl.
  rewrite (overide_entry_again _ _ _ Ep), (overide_entry_name _ _ _ Ep), Hn; simpl; rewrite Ha.
  repeat split; [by apply Forall_cons..].
Qed.

(** The four inherent partitions as the loop lays them out. *)
Definition after (gap : Z) (q e : partitions) (nm : bytes) : partitions :=
  mkPart nm (size e) (u64 (offset q + size q + gap)) (mask_flags e) 0.

Definition reserved_name (boot_flag : Z) (nm : bytes) : bytes :=
  if boot_flag =? EMMC_BOOT_FLAG then nm else <[10%nat := 101]> nm.

Definition inherent_layout (boot_flag : Z) (a b c d : partitions) : list partitions :=
  let p0 := mkPart (name a) (size a) 0 (mask_flags a) 0 in
  let p1 := after MMC_BOOT_PARTITION_RESERVED p0 b (reserved_name boot_flag (name b)) in
  let p2 := after PARTITION_RESERVED p1 c (name c) in
  let p3 := after PARTITION_RESERVED p2 d (name d) in
  [p0; p1; p2; p3].

Lemma inherent_loop_spec boot_flag a b c d : map name [a; b; c; d] = map name inherent ->
  inherent_loop 4 boot_flag [a; b; c; d] 0 (parts zero_cfg) 0 =
  Some (inherent_layout boot_flag a b c d ++ replicate 28 zero_part, 4).
Proof.
  destruct a as [na sa oa ma pa], b as [nb sb ob mb pb], c as [nc sc oc mc pc], d as [nd sd od md pd].
  intros E; cbn [map name] in E; injection E as -> -> -> ->.
  unfold inherent_layout, reserved_name.
  destruct (boot_flag =? EMMC_BOOT_FLAG) eqn:Eb; cbn [inherent_loop]; unfold set_inherent; rewrite Eb; reflexivity.
Qed.

Lemma u64_sum a b : 0 <= a + b < 2 ^ 64 -> u64 (a + b) = a + b.
Proof. by apply wrap_small. Qed.

Lemma zero_part_ok : part_ok zero_part.
Proof. by apply (bool_decide_unpack _); vm_compute. Qed.

(** An entry written behind [q] at its slot. *)
Definition placed (q e : partitions) (nm : bytes) : partitions :=
  mkPart nm (size e) (u64 (offset q + size q + PARTITION_RESERVED)) (mask_flags e) 0.

Lemma placed_ok q e : part_ok e -> exists nm,
  strncpy_arr MAX_MMC_PART_NAME_LEN (name zero_part) (name e) = Some nm /\ part_ok (placed q e nm) /\
  same_str 16 nm (name e) = true.
Proof.
  intros He; pose proof (part_named _ He) as [Hl Hb].
  assert (bounded 16 (name e)) as Hbd by (left; lia).
  destruct (strncpy_total MAX_MMC_PART_NAME_LEN (name zero_part) (name e)) as (nm & E & Hn); [by vm_compute; lia|done|].
  exists nm; split; [done|split]; [|by eapply strncpy_same].
  destruct He as (_ & ? & ? & ? & _); unfold part_ok, named, placed; cbn [name size offset mask_flags pad].
  pose proof (wrap_range 64 (offset q + size q + PARTITION_RESERVED)).
  split; [split; [done|]|by intuition lia].
  eapply strncpy_bytes; [done|apply part_named, zero_part_ok|done].
Qed.

Lemma with_size_ok p z : part_ok p -> 0 <= z < 2 ^ 64 -> part_ok (with_size p z).
Proof. intros (? & ? & ? & ? & ?) Hz; unfold part_ok, named in *; simpl; auto. Qed.

Lemma rest_range cap off : 0 <= rest_of cap off < 2 ^ 64.
Proof.
  pose proof (wrap_range 64 (cap - off)); unfold rest_of, MMC_BOTTOM_RSV_SIZE.
  destruct (0 <? _); [apply wrap_range; lia|lia].
Qed.

(** One round that fills a slot. *)
Lemma dts_step n cap ptable tbl i l q r e : map name tbl = map name inherent ->
  zget ptable i = Some e -> part_ok e -> inherent_name (name e) = false ->
  exists nm, same_str 16 nm (name e) = true /\ part_ok (placed q e nm) /\
    let num := Z.of_nat (length l) + 1 in let p := placed q e nm in
    dts_loop (S n) cap ptable tbl i (l ++ q :: replicate (S r) zero_part) num =
    if (size e =? NAND_PART_SIZE_FULL) || (cap <? u64 (offset p + size e))
    then Some ((l ++ [q]) ++ with_size p (rest_of cap (offset p)) :: replicate r zero_part, num)
    else dts_loop n cap ptable tbl (i + 1) ((l ++ [q]) ++ p :: replicate r zero_part)
           (Z.of_nat (length (l ++ [q])) + 1).
Proof.
  intros En Ei He Hi; destruct (placed_ok q e He) as (nm & Ecp & Hp & Hsame).
  exists nm; split; [done|split; [done|]]; cbn zeta; cbn [dts_loop].
  rewrite Ei; simpl; rewrite (is_in_inherent tbl _ En (named_key _ (part_named _ He))), Hi; simpl.
  assert (Z.of_nat (length l) + 1 = Z.of_nat (length (l ++ [q]))) as El by (rewrite length_app; simpl; lia).
  replace (l ++ q :: zero_part :: replicate r zero_part) with ((l ++ [q]) ++ zero_part :: replicate r zero_part)
    by (by rewrite <- app_assoc).
  rewrite (zget_middle (l ++ [q]) _ _ (Z.of_nat (length l) + 1)) by exact El; cbn [mbind option_bind].
  rewrite <- app_assoc at 1; cbn [app]; rewrite (zget_middle l) by lia; cbn [mbind option_bind]; rewrite Ecp; cbn [mbind option_bind].
  replace (l ++ q :: zero_part :: replicate r zero_part) with ((l ++ [q]) ++ zero_part :: replicate r zero_part)
    by (by rewrite <- app_assoc).
  rewrite !zset_middle by exact El; simpl; by rewrite El.
Qed.

(** The entry at which the loop over the device tree stops for certain. *)
Definition stops (ptable : list partitions) (k : Z) : Prop :=
  exists e, zget ptable k = Some e /\ size e = NAND_PART_SIZE_FULL.

(** The offset and the end of [q] leave room for the sums. *)
Definition room (q : partitions) : Prop := 0 <= offset q /\ 0 <= size q /\ offset q + size q < 2 ^ 60.

Lemma placed_offset q e nm : room q ->
  offset (placed q e nm) = offset q + size q + PARTITION_RESERVED.
Proof. intros (? & ? & ?); apply wrap_small; unfold PARTITION_RESERVED, SZ_1M; lia. Qed.

Lemma full_not_small : ~ small NAND_PART_SIZE_FULL.
Proof. unfold small; vm_compute; intuition congruence. Qed.

Lemma dts_loop_spec cap ptable tbl : map name tbl = map name inherent -> Forall entry_ok ptable ->
  0 <= cap < 2 ^ 60 -> forall n i l q r k, 0 <= i -> room q ->
  i <= k < i + Z.of_nat n -> stops ptable k -> k - i < Z.of_nat r ->
  exists l2 x r', dts_loop n cap ptable tbl i (l ++ q :: replicate r zero_part) (Z.of_nat (length l) + 1) =
      Some (l ++ q :: l2 ++ x :: replicate r' zero_part, Z.of_nat (length l + 1 + length l2)) /\
    (length l2 + 1 + r' = r)%nat /\ spaced q (l2 ++ [x]) /\ Forall part_ok (l2 ++ [x]) /\
    Forall (fun p => offset p + size p <= cap) l2 /\ size x = rest_of cap (offset x).
Proof.
  intros En Ft Hc; induction n as [|n IH]; intros i l q r k Hi Hq Hk (ek & Ek & Fk) Hr; [lia|].
  pose proof (zget_Some ptable k ek) as Hlk; apply proj1 in Hlk; specialize (Hlk Ek) as [_ Hlk].
  assert (exists e, zget ptable i = Some e) as [e Ei].
  { apply zget_is_Some; apply lookup_lt_Some in Hlk; lia. }
  assert (forall j p, zget ptable j = Some p -> entry_ok p) as Hok
    by (intros j p Hj; apply zget_Some in Hj as [_ Hj]; by eapply Forall_lookup_1 in Hj).
  destruct (Hok _ _ Ei) as [He Hsz]; destruct (inherent_name (name e)) eqn:Hin.
  - assert (k <> i) by (intros ->; destruct Hsz as [?|[_ ?]]; [|congruence];
      rewrite Ei in Ek; injection Ek as ->; rewrite Fk in *; by eapply full_not_small).
    destruct (IH (i + 1) l q r k) as (l2 & x & r' & E & Hrest); [lia|done|lia|by exists ek|lia|].
    exists l2, x, r'; split; [|done]; cbn [dts_loop]; rewrite Ei; cbn [mbind option_bind].
    rewrite (is_in_inherent tbl _ En (named_key _ (part_named _ He))), Hin; cbn [mbind option_bind]; exact E.
  - destruct r as [|r]; [lia|].
    destruct (dts_step n cap ptable tbl i l q r e En Ei He Hin) as (nm & _ & Hp & E); cbn zeta in E; rewrite E.
    pose proof (placed_offset q e nm Hq) as Eo; destruct Hq as (? & ? & ?).
    destruct (Z.eqb_spec (size e) NAND_PART_SIZE_FULL) as [Ef|Ef]; cbn [orb];
      [|destruct (Z.ltb_spec cap (u64 (offset (placed q e nm) + size e))) as [Hov|Hfit]].
    1,2: exists [], (with_size (placed q e nm) (rest_of cap (offset (placed q e nm)))), r;
      split; [rewrite <- app_assoc; repeat f_equal; simpl; lia|]; cbn [length app spaced];
      split; [lia|]; split; [by split; [rewrite <- Eo; reflexivity|]|];
      split; [|by split]; apply Forall_cons; split; [apply with_size_ok; auto using rest_range|done].
    destruct Hsz as [Hs|[Hs _]]; [|done]; unfold small in Hs.
    assert (u64 (offset (placed q e nm) + size e) = offset (placed q e nm) + size e) as Eu
      by (rewrite Eo; apply wrap_small; unfold PARTITION_RESERVED, SZ_1M; lia).
    rewrite Eu in Hfit.
    destruct (IH (i + 1) (l ++ [q]) (placed q e nm) r k) as (l2 & x & r' & E2 & Hlen & Hsp & Hpo & Hcap & Hx);
      [lia|unfold room; rewrite Eo in *; cbn [size placed]; unfold PARTITION_RESERVED, SZ_1M in *; lia| |by exists ek| |].
    + assert (k <> i) by congruence; lia.
    + assert (k <> i) by congruence; lia.
    + exists (placed q e nm :: l2), x, r'; rewrite E2, length_app; cbn [length app spaced].
      split; [f_equal; apply (f_equal2 pair); [by rewrite <- app_assoc|simpl; lia]|].
      split; [lia|]; split; [by rewrite Eo|]; split; [by apply Forall_cons|]; split; [by apply Forall_cons|done].
Qed.

Arguments dts_loop : simpl never. Arguments inherent_loop : simpl never.
Arguments overide_emmc_partition_table : simpl never.

(** The first request of the plan is granted. *)
Definition granted (plan : list bool) : Prop := fst (kmalloc plan) = true.

Lemma kmalloc_granted plan : granted plan -> kmalloc plan = (true, snd (kmalloc plan)).
Proof. by intros <-; destruct (kmalloc plan). Qed.

Lemma get_table_eq {D} `{BlockDev D} F m (st : state D) t :
  part_table st = Some t -> granted (kmalloc_plan st) ->
  mmc_get_partition_table F m st =
  tbl ← overide_emmc_partition_table (t ++ beyond st) (emmc_partition_table st);
  cfg ← laid_out m (device_boot_flag st) (t ++ beyond st) tbl;
  Some (0, set_cfg (set_tbl (set_plan st (snd (kmalloc (kmalloc_plan st)))) tbl) (Some cfg)).
Proof.
  intros Et Hg; unfold mmc_get_partition_table; rewrite (kmalloc_granted _ Hg).
  unfold get_dtb_struct; cbn [part_table set_cfg set_plan]; rewrite Et.
  cbn [negb mbind option_bind Z.eqb part_table set_cfg set_plan]; rewrite Et; reflexivity.
Qed.

(** The layout that [laid_out] promises for a card of [cap] bytes: the table is
    [ps] and unused slots, [ps] starts at 0, keeps its distances, ends with the
    partition [x] that takes the rest, and the others end inside the card. *)
Record layout_ok (cap : Z) (ps : list partitions) (x : partitions) : Prop := {
  lo_parts : Forall part_ok (ps ++ [x]);
  lo_spaced : exists p0 l, ps = p0 :: l /\ offset p0 = 0 /\ spaced p0 (l ++ [x]);
  lo_rest : size x = rest_of cap (offset x);
  lo_inside : Forall (fun p => offset p + size p <= cap) (drop 4 ps) }.

Lemma spaced_app q l x l2 : spaced q (l ++ [x]) -> spaced x l2 -> spaced q (l ++ x :: l2).
Proof.
  revert q; induction l as [|y l IH]; intros q; simpl.
  - intros [Hq _] H2; done.
  - intros [Hq Hy] H2; split; [done|by apply IH].
Qed.

Lemma after_offset gap q e nm : room q -> 0 <= gap < 2 ^ 60 ->
  offset (after gap q e nm) = offset q + size q + gap.
Proof. intros (? & ? & ?) Hg; apply wrap_small; lia. Qed.

Lemma after_ok gap q e nm : part_ok e -> named (with_name e nm) -> part_ok (after gap q e nm).
Proof.
  intros (_ & ? & ? & ? & _) Hn; pose proof (wrap_range 64 (offset q + size q + gap)).
  unfold part_ok; cbn [size offset mask_flags pad after]; split; [exact Hn|intuition lia].
Qed.

Lemma reserved_named boot_flag p : named p -> named (with_name p (reserved_name boot_flag (name p))).
Proof.
  intros [Hl Hb]; unfold reserved_name; destruct (boot_flag =? EMMC_BOOT_FLAG); [done|].
  split; simpl; [by rewrite length_insert|]; apply Forall_insert; [done|unfold byte_ok; lia].
Qed.

(** The four inherent partitions keep their distances, and the search for the
    reserved one ends at the second. *)
Lemma inherent_layout_ok boot_flag a b c d : map name [a; b; c; d] = map name inherent ->
  Forall part_ok [a; b; c; d] -> Forall (fun p => small (size p)) [a; b; c; d] ->
  exists p0 p1 p2 p3, inherent_layout boot_flag a b c d = [p0; p1; p2; p3] /\
    offset p0 = 0 /\ spaced p0 [p1; p2; p3] /\ room p3 /\ Forall part_ok [p0; p1; p2; p3] /\
    name p0 = name a /\ name p1 = reserved_name boot_flag (name b) /\
    offset p1 = size a + MMC_BOOT_PARTITION_RESERVED.
Proof.
  intros En Fp Fs; unfold inherent_layout.
  set (p0 := mkPart (name a) (size a) 0 (mask_flags a) 0).
  set (p1 := after MMC_BOOT_PARTITION_RESERVED p0 b (reserved_name boot_flag (name b))).
  set (p2 := after PARTITION_RESERVED p1 c (name c)).
  set (p3 := after PARTITION_RESERVED p2 d (name d)).
  rewrite !Forall_cons in Fp, Fs; destruct Fp as (Pa & Pb & Pc & Pd & _), Fs as (Sa & Sb & Sc & Sd & _).
  unfold small in *.
  assert (offset p1 = size a + MMC_BOOT_PARTITION_RESERVED) as E1
    by (unfold p1; rewrite after_offset; [done|unfold room, p0; simpl; lia|by vm_compute]).
  assert (offset p2 = offset p1 + size b + PARTITION_RESERVED) as E2
    by (unfold p2; rewrite after_offset; [done|unfold room; rewrite E1; unfold MMC_BOOT_PARTITION_RESERVED, SZ_1M;
        cbn [size p1 after]; lia|by vm_compute]).
  assert (offset p3 = offset p2 + size c + PARTITION_RESERVED) as E3
    by (unfold p3; rewrite after_offset; [done|unfold room; rewrite E2, E1;
        unfold MMC_BOOT_PARTITION_RESERVED, PARTITION_RESERVED, SZ_1M; cbn [size p2 after]; lia|by vm_compute]).
  exists p0, p1, p2, p3; cbn [spaced]; unfold room; rewrite E3, E2, E1.
  change (offset p0) with 0; change (size p0) with (size a); change (size p1) with (size b);
    change (size p2) with (size c); change (size p3) with (size d).
  unfold MMC_BOOT_PARTITION_RESERVED, PARTITION_RESERVED, SZ_1M.
  split; [done|]; split; [done|]; split; [lia|]; split; [lia|]; split; [|done].
  repeat (apply Forall_cons; split); [|by apply after_ok; [|by apply reserved_named, part_named]
    |by apply after_ok; [|apply part_named in Pc]|by apply after_ok; [|apply part_named in Pd]|done].
  destruct Pa as (? & ? & ? & ? & ?); unfold part_ok, named, p0 in *; simpl; intuition lia.
Qed.

(** What the layout asks of the entries read through [part_table] (the array
    and what follows it, 32 in all), of the inherent table and of the card:
    entry [k] asks for the rest of the card. *)
Record boot_ok (m : mmc) (ptable tbl : list partitions) (k : Z) : Prop := {
  bo_names : map name tbl = map name inherent;
  bo_tbl : Forall part_ok tbl;
  bo_small : Forall (fun p => small (size p)) tbl;
  bo_entries : Forall entry_ok ptable;
  bo_read : 32 <= Z.of_nat (length ptable);
  bo_cap : 0 <= capacity m < 2 ^ 60;
  bo_stop : stops ptable k;
  bo_slots : 0 <= k < 28 }.

Definition the_version : bytes := str "01.00.00" ++ replicate 4 0.

Lemma the_version_copied :
  strncpy_arr MAX_MMC_PART_NAME_LEN (version zero_cfg) MMC_UBOOT_VERSION = Some the_version.
Proof. reflexivity. Qed.

Lemma laid_out_eq m boot_flag ptable tbl ptr num ptr' num' :
  inherent_loop (length tbl) boot_flag tbl 0 (parts zero_cfg) 0 = Some (ptr, num) ->
  dts_loop (Z.to_nat MAX_MMC_PART_NUM) (capacity m) ptable tbl 0 ptr num = Some (ptr', num') ->
  laid_out m boot_flag ptable tbl = Some (mkCfg the_version (num' + 1) ptr').
Proof.
  unfold laid_out; rewrite the_version_copied.
  generalize (dts_loop (Z.to_nat MAX_MMC_PART_NUM)), (inherent_loop (length tbl)); intros g h Ei Ed.
  by rewrite Ei; simpl; rewrite Ed.
Qed.

(** The layout, with the two names that the search for the reserved partition
    looks at. *)
Lemma laid_out_ok m boot_flag ptable tbl k : boot_ok m ptable tbl k ->
  exists ps x r, laid_out m boot_flag ptable tbl =
      Some (mkCfg the_version (Z.of_nat (length (ps ++ [x]))) (ps ++ x :: replicate r zero_part)) /\
    (length ps + 1 + r = 32)%nat /\ (4 <= length ps)%nat /\ layout_ok (capacity m) ps x /\
    exists p0 p1 l, ps = p0 :: p1 :: l /\ name p0 = name (PARTITION_ELEMENT MMC_BOOT_NAME 0 0) /\
      name p1 = reserved_name boot_flag (name (PARTITION_ELEMENT MMC_RESERVED_NAME 0 0)) /\
      0 <= offset p1 < 2 ^ 39 + 2 ^ 26.
Proof.
  intros [En Fp Fs Fe Hr Hc Hst Hk].
  assert (length tbl = 4%nat) as Hl by (by rewrite <- (length_map name tbl), En).
  destruct tbl as [|a [|b [|c [|d [|]]]]]; try done.
  destruct (inherent_layout_ok boot_flag a b c d En Fp Fs)
    as (p0 & p1 & p2 & p3 & El & H0 & Hsp & Hroom & Hok & N0 & N1 & O1).
  destruct (dts_loop_spec (capacity m) ptable [a; b; c; d] En Fe Hc (Z.to_nat MAX_MMC_PART_NUM) 0
    [p0; p1; p2] p3 28 k) as (l2 & x & r & E & Hlen & Hsp2 & Hok2 & Hin & Hx);
    [lia|done|unfold MAX_MMC_PART_NUM; lia|done|lia|].
  exists ([p0; p1; p2; p3] ++ l2), x, r.
  pose proof (inherent_loop_spec boot_flag a b c d En) as Ei; rewrite El in Ei.
  split; [rewrite (laid_out_eq m boot_flag ptable [a; b; c; d] _ _ _ _ Ei E);
    f_equal; f_equal; rewrite ?length_app; cbn [length]; lia|].
  split; [rewrite length_app; cbn [length]; lia|]; split; [rewrite length_app; cbn [length]; lia|].
  split; [split|].
  - by rewrite <- app_assoc; apply Forall_app.
  - exists p0, ([p1; p2; p3] ++ l2); split; [done|]; split; [done|].
    rewrite <- app_assoc; by apply (spaced_app p0 [p1; p2]).
  - done.
  - by rewrite drop_app_length'.
  - exists p0, p1, (p2 :: p3 :: l2); split; [done|].
    pose proof En as En'; cbn [map] in En'; injection En' as Ea Eb _ _.
    rewrite N0, N1, Ea, Eb, O1; split; [done|]; split; [done|].
    apply Forall_cons in Fs as [Hs _]; unfold small, MMC_BOOT_PARTITION_RESERVED, SZ_1M in *; lia.
Qed.

Lemma spaced_lookup l : forall q j x, spaced q l -> Forall (fun p => 0 <= size p) l -> l !! j = Some x ->
  offset q + size q + PARTITION_RESERVED <= offset x.
Proof.
  induction l as [|y l IH]; intros q j x Hs Fs Hj; [done|].
  destruct Hs as [Hq Hs]; apply Forall_cons in Fs as [Hy Fs].
  destruct j as [|j]; [by injection Hj as <-|].
  pose proof (IH y j x Hs Fs Hj); unfold PARTITION_RESERVED, SZ_1M in *; lia.
Qed.

Lemma spaced_pairs l : forall q i j p x, spaced q l -> Forall (fun p => 0 <= size p) (q :: l) ->
  (i < j)%nat -> (q :: l) !! i = Some p -> (q :: l) !! j = Some x ->
  offset p + size p + PARTITION_RESERVED <= offset x.
Proof.
  induction l as [|y l IH]; intros q i j p x Hs Fs Hij Hi Hj; (destruct j as [|j]; [lia|]); [done|].
  apply Forall_cons in Fs as [Hq Fs]; destruct i as [|i].
  - injection Hi as <-; by eapply spaced_lookup.
  - eapply (IH y i j); [apply Hs|done|lia|done..].
Qed.

Lemma rest_fits cap off : 0 <= off <= cap -> cap < 2 ^ 60 -> off + rest_of cap off = cap.
Proof.
  intros Ho Hc; unfold rest_of, MMC_BOTTOM_RSV_SIZE; rewrite (wrap_small 64 (cap - off)) by lia.
  bcase; [rewrite wrap_small by lia|]; lia.
Qed.

(** The slots of the table below its count are [ps] and the last partition. *)
Lemma zget_slots (ps : list partitions) x r i p : 0 <= i < Z.of_nat (length (ps ++ [x])) ->
  zget (ps ++ x :: replicate r zero_part) i = Some p <-> (ps ++ [x]) !! Z.to_nat i = Some p.
Proof.
  intros Hi; replace (ps ++ x :: replicate r zero_part) with ((ps ++ [x]) ++ replicate r zero_part)
    by (by rewrite <- app_assoc).
  unfold zget; destruct (Z.leb_spec 0 i); [|lia]; rewrite lookup_app_l by lia; done.
Qed.

(** C15: [mmc_get_partition_table] lays the partitions out disjointly: when the
    device tree has been read, its entries are well formed and one of the
    first 28 asks for the rest of the card, the call succeeds without touching
    the card; of two partitions the later one starts at least 8 MB behind the
    end of the earlier; and when the last one starts inside the card it ends
    exactly at the end of the card, and all the others inside it. *)
Theorem partition_layout {D} `{BlockDev D} F m (st : state D) t k :
  part_table st = Some t -> granted (kmalloc_plan st) ->
  boot_ok m (t ++ beyond st) (emmc_partition_table st) k ->
  exists st' cfg, mmc_get_partition_table F m st = Some (0, st') /\
    mmc_partition_config_of st' = Some cfg /\ dev st' = dev st /\ 5 <= part_num cfg <= 32 /\
    (forall i j p q, 0 <= i < j -> j < part_num cfg ->
       zget (parts cfg) i = Some p -> zget (parts cfg) j = Some q ->
       offset p + size p + PARTITION_RESERVED <= offset q) /\
    (forall x, zget (parts cfg) (part_num cfg - 1) = Some x -> offset x <= capacity m ->
       offset x + size x = capacity m /\
       forall i p, 0 <= i < part_num cfg -> zget (parts cfg) i = Some p -> offset p + size p <= capacity m).
Proof.
  intros Et Hg Hb; pose proof Hb as [En Fp Fs Fe Hr Hc Hst Hk]; rewrite (get_table_eq F m st t Et Hg).
  destruct (overide_total _ _ En Fe Hr Fp Fs) as (tbl & -> & En' & Fp' & Fs' & _); cbn [mbind option_bind].
  assert (boot_ok m (t ++ beyond st) tbl k) as Hb' by (split; try done; by rewrite En').
  destruct (laid_out_ok m (device_boot_flag st) _ _ _ Hb') as (ps & x & r & -> & Hlen & Hl4 & Hlay & _).
  eexists _, _; split; [done|]; split; [done|]; split; [done|]; cbn [part_num parts].
  destruct Hlay as [Fok (p0 & l & Eps & H0 & Hsp) Hx _].
  assert (Forall (fun p => 0 <= size p) (ps ++ [x])) as Fsz
    by (eapply Forall_impl; [exact Fok|]; intros p (_ & ? & _); lia).
  assert (forall i j p q, 0 <= i < j -> j < Z.of_nat (length (ps ++ [x])) ->
    zget (ps ++ x :: replicate r zero_part) i = Some p -> zget (ps ++ x :: replicate r zero_part) j = Some q ->
    offset p + size p + PARTITION_RESERVED <= offset q) as Hpair.
  { intros i j p q Hi Hj Ei Ej; apply zget_slots in Ei, Ej; [|lia..]; subst ps; cbn [app] in *.
    eapply (spaced_pairs (l ++ [x]) p0 (Z.to_nat i) (Z.to_nat j)); [done..|lia|done|done]. }
  split; [rewrite length_app; cbn [length]; lia|]; split; [exact Hpair|].
  assert (Z.of_nat (length (ps ++ [x])) - 1 = Z.of_nat (length ps)) as El by (rewrite length_app; cbn [length]; lia).
  rewrite El, zget_middle by done; intros y [= <-] Hy.
  assert (offset x + size x = capacity m) as Ex.
  { rewrite Hx; apply rest_fits; [|lia]; split; [|done]; apply Forall_app in Fok as [_ Fx].
    by apply Forall_cons in Fx as [(_ & _ & [? _] & _) _]. }
  split; [done|]; intros i p Hi Ep; destruct (decide (i = Z.of_nat (length ps))) as [->|Hne].
  - rewrite zget_middle in Ep by done; injection Ep as <-; lia.
  - assert (offset p + size p + PARTITION_RESERVED <= offset x)
      by (apply (Hpair i (Z.of_nat (length ps))); [lia|lia|done|by rewrite zget_middle]).
    unfold PARTITION_RESERVED, SZ_1M in *; lia.
Qed.

(** ** Concrete start-ups *)

Definition MB (n : Z) : Z := n * SZ_1M.
Definition entry (s : string) (sz flags : Z) : partitions := PARTITION_ELEMENT (cs s) sz flags.

(** The partitions of an Android device tree. *)
Definition android : list partitions :=
  [entry "logo" (MB 32) 1; entry "recovery" (MB 32) 1; entry "dtb" (MB 8) 1; entry "tee" (MB 8) 1;
   entry "crypt" (MB 32) 1; entry "misc" (MB 32) 1; entry "boot" (MB 32) 1; entry "system" (MB 1024) 1;
   entry "cache" (MB 512) 2; entry "data" NAND_PART_SIZE_FULL 4].

Definition emmc8 : mmc := mkMmc 512 (MB 7456).
Definition blank : card := mkCard (7456 * 2048) (fun _ => []).

Definition no_fdt : libfdt :=
  mkFdt (fun b => Some b) (fun _ => 0) (fun _ _ => 1) (fun _ _ _ => None) (fun _ _ => 1).

(** The state before the first call, with [after_] behind the array. *)
Definition powered_on (tbl after_ : list partitions) (boot : Z) : state card :=
  mkState (Some tbl) (Z.of_nat (length tbl)) after_ inherent None boot blank [].

Definition boot0 : state card := powered_on android (replicate 32 zero_part) EMMC_BOOT_FLAG.

Lemma boot0_ok : boot_ok emmc8 (android ++ replicate 32 zero_part) inherent 9.
Proof.
  split; [done|..|by eexists|done]; by apply (bool_decide_unpack _); vm_compute.
Qed.

Lemma partition_layout_witness : exists st' cfg,
  mmc_get_partition_table no_fdt emmc8 boot0 = Some (0, st') /\ mmc_partition_config_of st' = Some cfg /\
  5 <= part_num cfg <= 32.
Proof.
  pose proof (partition_layout (D := card) no_fdt emmc8 boot0 android 9 eq_refl eq_refl boot0_ok) as H.
  destruct H as (st' & cfg & E & Ec & _ & Hn & _); exists st', cfg; split; [exact E|split; [exact Ec|exact Hn]].
Defined.

(** The offsets, in MB, that the Android table gets on the card of 7456 MB. *)
Example android_offsets : (fun r => map (fun p => offset p / SZ_1M) (take 13 (parts r))) <$>
  laid_out emmc8 EMMC_BOOT_FLAG (android ++ replicate 32 zero_part)
    (default [] (overide_emmc_partition_table (android ++ replicate 32 zero_part) inherent)) =
  Some [0; 36; 108; 628; 644; 684; 724; 740; 756; 796; 836; 876; 1908].
Proof. by vm_compute. Qed.

(** ** Packages *)

(** With a package in the buffer, the partitions are read from the tree that the
    environment names. *)
Lemma package_tree hw junk v ds body s p w F d plan total :
  v = 1 \/ v = 2 -> Forall (MultiDtb.dtb_ok (MultiDtb.aml_each_id_length v)) ds ->
  Z.of_nat (length ds) < MultiDtb.NO_MATCH ->
  Forall MultiDtb.id_char s -> Forall MultiDtb.id_char p -> Forall MultiDtb.id_char w ->
  (length (MultiDtb.dt_name s p w) < 64)%nat -> length junk = 64%nat ->
  MultiDtb.select s p w ds None = Some d ->
  dt_entry F = package_entry hw junk (Some (MultiDtb.dt_name s p w)) ->
  get_partition_from_dts F (Some (MultiDtb.package v ds body)) plan total =
  get_partition_from_dts (mkFdt Some (fdt_check_header F) (fdt_path_offset F) (fdt_getprop F)
      (fdt_node_offset_by_phandle F))
    (Some (drop (Z.to_nat (MultiDtb.dtb_offset d)) (MultiDtb.package v ds body))) plan total.
Proof.
  intros Hv Fd Hn Fs Fp Fw Hl Hj Hsel He; unfold get_partition_from_dts; rewrite He; unfold package_entry.
  rewrite MultiDtb.entry_selected with (s := s) (p := p) (w := w) by done; rewrite Hsel; reflexivity.
Qed.

(** ** Where the code does not do what it means to *)

(** The search for an inherent name that the device tree does not list reads
    behind the array: the ten entries of the Android table and nothing after
    them. *)
Theorem override_overruns boot : mmc_get_partition_table no_fdt emmc8 (powered_on android [] boot) = None.
Proof. by vm_compute. Qed.

(** On a board that does not boot from eMMC the first partition keeps its name,
    although the code announces the new one: the bytes go into the entry
    behind it, after the end of its name. *)
Theorem bootloadere_not_found :
  (fun r => (fst r, find_mmc_partition_by_name (mmc_partition_config_of (snd r)) (cs "bootloadere"),
             find_mmc_partition_by_name (mmc_partition_config_of (snd r)) MMC_BOOT_NAME)) <$>
  mmc_get_partition_table no_fdt emmc8 (powered_on android (replicate 32 zero_part) 0) =
  Some (0, Some None, Some (Some 0)).
Proof. by vm_compute. Qed.

(** A partition that starts in the last 8 MB leaves the next one an offset behind the
    end of the card, and the size of the rest wraps around. *)
Theorem last_partition_wraps : exists cfg x,
  laid_out (mkMmc 512 (MB 256)) EMMC_BOOT_FLAG
    ([entry "system" (MB 120) 1; entry "data" NAND_PART_SIZE_FULL 4] ++ replicate 30 zero_part) inherent = Some cfg /\
  zget (parts cfg) (part_num cfg - 1) = Some x /\
  offset x = MB 260 /\ size x = 2 ^ 64 - MB 4.
Proof. by eexists _, _; vm_compute. Qed.

(** Without an entry that takes the rest of the card the count is one more than
    the partitions: the zeroed entry behind the last one is counted. *)
Theorem count_without_rest : exists cfg,
  laid_out emmc8 EMMC_BOOT_FLAG (replicate 32 (entry "cache" (MB 512) 2)) inherent = Some cfg /\
  part_num cfg = 5 /\ zget (parts cfg) 4 = Some zero_part.
Proof. by eexists; vm_compute. Qed.

(** 32 partitions in the device tree and the four inherent ones: the 33rd is
    written behind the array of the configuration. *)
Theorem table_overflows : laid_out emmc8 EMMC_BOOT_FLAG (replicate 32 (entry "p" (MB 1) 1)) inherent = None.
Proof. by vm_compute. Qed.

(** A device tree that announces more partitions than it describes: the jump to
    [_err] returns the 0 of the header check with the table freed, and the
    layout then dereferences NULL. *)
Theorem missing_entry_is_success F buffer dt plan total n p : dt_entry F buffer = Some dt ->
  fdt_check_header F dt = 0 -> fdt_path_offset F dt (cs "/partitions") = n -> 0 <= n ->
  fdt_getprop F dt n (cs "parts") = Some p -> be32_at dt p = Some 1 -> granted plan ->
  fdt_getprop F dt n (cs "part-0") = None ->
  get_partition_from_dts F (Some buffer) plan total = Some (0, None, 1, snd (kmalloc plan)).
Proof.
  intros Ed Eh <- Hn Ep Eb Hg Em; unfold get_partition_from_dts; rewrite Ed; cbn [mbind option_bind]; rewrite Eh.
  cbn [Z.ltb Z.compare].
  destruct (Z.ltb_spec (fdt_path_offset F dt (cs "/partitions")) 0); [lia|].
  rewrite Ep; cbn [mbind option_bind]; rewrite Eb; cbn [mbind option_bind]; rewrite (kmalloc_granted _ Hg).
  change (Z.to_nat 1) with 1%nat; cbn [negb dts_entries]; unfold dts_entry; cbn [Z.leb Z.compare].
  change (str "part-" ++ Vsprintf.digits_text 0 10 0 ++ [0]) with (cs "part-0"); by rewrite Em.
Qed.

End EmmcPart.
