(* ===== verification/EmmcTable.v ===== *)
(** * The partition table on the card
    (drivers/mmc/emmc_partitions.c, second half)

    Writing and reading the table of EmmcPart.v as an image in the reserved
    partition, the checks on an image, and start-up.  The theorems hold for
    every block device that keeps the promise of [BlockDevSpec]. *)

From S2P Require Import Prelude CArray BlockDev EmmcPart.

Module EmmcTable.
Import CArray BlockDev EmmcPart.

(** ** The image: encode and decode *)

Arguments take : simpl never. Arguments drop : simpl never.


Lemma enc_part_length p : named p -> length (enc_part p) = part_size.
Proof. intros [Hl _]; unfold enc_part; by rewrite !length_app, !le_length, Hl. Qed.

(** A field cut out of an image: the pieces before it have known lengths. *)
Lemma fields5 (a b c d e : bytes) : length a = 16%nat -> length b = 8%nat -> length c = 8%nat ->
  length d = 4%nat -> length e = 4%nat ->
  dec_part (a ++ b ++ c ++ d ++ e) = mkPart a (le_val b) (le_val c) (le_val d) (le_val e).
Proof.
  intros Ha Hb Hc Hd He; unfold dec_part; rewrite (take_exact 16) by done.
  change 36%nat with (16 + (8 + (8 + (4 + 0))))%nat; change 32%nat with (16 + (8 + (8 + 0)))%nat;
    change 24%nat with (16 + (8 + 0))%nat; change (drop 16) with (@drop Z (16 + 0)).
  repeat rewrite drop_exact by done; rewrite !drop_0, !(take_exact 8), (take_exact 4) by done.
  by rewrite firstn_all2 by lia.
Qed.

Lemma dec_enc_part p : part_ok p -> dec_part (enc_part p) = p.
Proof.
  intros ([Hl _] & Hs & Ho & Hm & Hp); unfold enc_part; rewrite fields5 by (done || apply le_length).
  rewrite !le_val_le by (change (2 ^ 64) with 18446744073709551616 in *; simpl; lia).
  by destruct p.
Qed.

Lemma dec_enc_parts l : Forall part_ok l -> dec_parts (length l) (flat_map enc_part l) = l.
Proof.
  induction l as [|p l IH]; intros Fl; [done|]; apply Forall_cons in Fl as [Hp Fl]; cbn [length dec_parts flat_map].
  pose proof (enc_part_length p (part_named p Hp)) as Hl.
  rewrite (take_exact part_size) by done; rewrite dec_enc_part by done.
  replace part_size with (part_size + 0)%nat by lia; rewrite (drop_exact part_size) by done.
  by rewrite drop_0, IH.
Qed.

Lemma flat_parts_length l : Forall part_ok l -> length (flat_map enc_part l) = (part_size * length l)%nat.
Proof.
  induction l as [|p l IH]; intros Fl; [done|]; apply Forall_cons in Fl as [Hp Fl]; simpl.
  rewrite length_app, IH, (enc_part_length p (part_named p Hp)) by done; unfold part_size; lia.
Qed.

(** An image whose fields fit their C types. *)
Record fmt_ok (f : mmc_partitions_fmt) : Prop := {
  fo_magic : length (magic f) = 4%nat /\ Forall byte_ok (magic f);
  fo_version : length (fversion f) = 12%nat /\ Forall byte_ok (fversion f);
  fo_num : - 2 ^ 31 <= fpart_num f < 2 ^ 31;
  fo_sum : - 2 ^ 31 <= checksum f < 2 ^ 31;
  fo_parts : Forall part_ok (fparts f);
  fo_len : length (fparts f) = 32%nat }.

Lemma s32_u32 z : - 2 ^ 31 <= z < 2 ^ 31 -> s32 (u32 z) = z.
Proof.
  intros Hz; unfold to_signed; rewrite wrap_wrap; unfold wrap; change (32 - 1) with 31.
  destruct (Z.ltb_spec z 0).
  - rewrite <- (Z.mod_unique z (2 ^ 32) (-1) (z + 2 ^ 32)) by lia; case_match; lia.
  - rewrite Z.mod_small by lia; case_match; lia.
Qed.

Lemma enc_fmt_length f : fmt_ok f -> Z.of_nat (length (enc_fmt f)) = fmt_size.
Proof.
  intros [[Hm _] [Hv _] _ _ Hp Hl]; unfold enc_fmt; rewrite !length_app, !le_length, Hm, Hv.
  by rewrite flat_parts_length, Hl.
Qed.

Lemma enc_fmt_bytes f : fmt_ok f -> Forall byte_ok (enc_fmt f).
Proof.
  intros [[_ Hm] [_ Hv] _ _ Hp _]; unfold enc_fmt; rewrite !Forall_app; repeat split; auto using le_bytes.
  induction (fparts f) as [|p l IH]; [by apply Forall_nil|]; apply Forall_cons in Hp as [[[_ Hn] _] Hp].
  cbn [flat_map]; apply Forall_app; split; [|by apply IH].
  unfold enc_part; rewrite !Forall_app; auto using le_bytes.
Qed.

Lemma fields_fmt (a b c d e : bytes) : length a = 4%nat -> length b = 12%nat -> length c = 4%nat ->
  length d = 4%nat -> dec_fmt (a ++ b ++ c ++ d ++ e) =
  mkFmt a b (s32 (le_val c)) (s32 (le_val d)) (dec_parts 32 e).
Proof.
  intros Ha Hb Hc Hd; unfold dec_fmt; rewrite (take_exact 4) by done.
  change 24%nat with (4 + (12 + (4 + (4 + 0))))%nat; change 20%nat with (4 + (12 + (4 + 0)))%nat;
    change 16%nat with (4 + (12 + 0))%nat; change (drop 4) with (@drop Z (4 + 0)).
  repeat rewrite drop_exact by done; by rewrite !drop_0, (take_exact 12), !(take_exact 4) by done.
Qed.

Lemma dec_enc_fmt f : fmt_ok f -> dec_fmt (enc_fmt f) = f.
Proof.
  intros [[Hm _] [Hv _] Hn Hs Hp Hl]; unfold enc_fmt; rewrite fields_fmt by (done || apply le_length).
  rewrite !le_val_le by (apply wrap_range; lia); rewrite !s32_u32 by done.
  rewrite <- Hl, dec_enc_parts by done; by destruct f.
Qed.

(** ** The card *)

Lemma splice_first img a : splice img 0 a = a ++ drop (length a) img.
Proof. done. Qed.

Lemma splice_second img a b n : length a = n -> length img = (n + length b)%nat ->
  splice (splice img 0 a) n b = a ++ b.
Proof.
  intros Ha Hi; rewrite splice_first; unfold splice; rewrite take_exact by done.
  rewrite drop_exact by done; rewrite skipn_all2 by (rewrite length_drop; lia); by rewrite app_nil_r.
Qed.

Lemma splice_all img a : length a = length img -> splice img 0 a = a.
Proof. intros Ha; rewrite splice_first, skipn_all2 by lia; by rewrite app_nil_r. Qed.

Section card.
Context {D : Type} `{HB : BlockDev D} (m : mmc) `{HS : !BlockDevSpec D (read_bl_len m)}.
Context (Hbl : 0 < read_bl_len m < 2 ^ 32).

(** The number of blocks the image takes. *)
Definition image_blocks : Z := (fmt_size + read_bl_len m - 1) / read_bl_len m.

(** The blocks the image is kept in are addressable. *)
Definition start_ok (s : Z) : Prop := 0 <= s < 2 ^ 31 - fmt_size.

Lemma full_blocks : 0 <= fmt_size / read_bl_len m <= fmt_size /\
  0 <= fmt_size - fmt_size / read_bl_len m * read_bl_len m < read_bl_len m.
Proof.
  pose proof (Z.div_mod fmt_size (read_bl_len m)); pose proof (Z.mod_pos_bound fmt_size (read_bl_len m)).
  split; [split; [apply Z.div_pos; unfold fmt_size; lia|]|nia].
  apply Z.div_le_upper_bound; [lia|unfold fmt_size in *; nia].
Qed.

Lemma last_block : fmt_size - fmt_size / read_bl_len m * read_bl_len m > 0 ->
  image_blocks = fmt_size / read_bl_len m + 1.
Proof.
  intros Hl; destruct full_blocks as [_ Hr]; unfold image_blocks; symmetry.
  apply Z.div_unique with (r := fmt_size - fmt_size / read_bl_len m * read_bl_len m - 1); nia.
Qed.

Lemma no_last_block : fmt_size - fmt_size / read_bl_len m * read_bl_len m = 0 ->
  image_blocks = fmt_size / read_bl_len m.
Proof.
  intros Hl; unfold image_blocks; symmetry; apply Z.div_unique with (r := read_bl_len m - 1); nia.
Qed.

Lemma start_u64 s k : start_ok s -> 0 <= k <= fmt_size -> u64 (s + k) = s + k.
Proof. unfold start_ok, fmt_size; intros; apply wrap_small; lia. Qed.

(** The write in its two cases: the full blocks are there or not. *)
Definition first_write (d : D) (s : Z) (src : bytes) : Z * D :=
  let cnt := fmt_size / read_bl_len m in
  if read_bl_len m <=? fmt_size then block_write d (u64 s) cnt (take (Z.to_nat (cnt * read_bl_len m)) src)
  else (1, d).

Lemma full_none : (read_bl_len m <=? fmt_size) = false -> fmt_size / read_bl_len m = 0.
Proof. intros E; apply Z.leb_gt in E; apply Z.div_small; unfold fmt_size in *; lia. Qed.

Lemma first_write_ok d s src : start_ok s -> Z.of_nat (length src) = fmt_size -> Forall byte_ok src ->
  fst (first_write d s src) <> 0 ->
  let cnt := fmt_size / read_bl_len m in let d' := snd (first_write d s src) in
  run block d' s (Z.to_nat cnt) = take (Z.to_nat (cnt * read_bl_len m)) src /\
  (forall b, b < s \/ s + cnt <= b -> block d' b = block d b).
Proof.
  intros Hs Hl Fb Hw cnt d'; subst d'; unfold first_write in *; destruct full_blocks as [Hc Hr]; fold cnt in Hc, Hr, Hw |- *.
  assert (u64 s = s) as Es by (unfold start_ok, fmt_size in Hs; apply wrap_small; lia).
  destruct (read_bl_len m <=? fmt_size) eqn:E; cbn [fst snd] in *.
  - rewrite Es in *.
    assert (addressable s cnt) as Ha.
    { apply Z.leb_le in E; unfold start_ok, addressable, fmt_size in *; split; [lia|]; split; [|lia].
      apply Z.div_str_pos; lia. }
    assert (Z.of_nat (length (take (Z.to_nat (cnt * read_bl_len m)) src)) = cnt * read_bl_len m) as Hlt
      by (rewrite length_take; nia).
    split; [apply write_ok; [done|done|by apply Forall_take|done]|intros b Hb; apply write_frame; [done|done|by apply Forall_take|done|done]].
  - pose proof (full_none E) as E0; fold cnt in E0; rewrite E0; done.
Qed.

Definition cnt : Z := fmt_size / read_bl_len m.
Definition done_bytes : Z := cnt * read_bl_len m.

(** A card with the same blocks that works at least as well. *)
Record same_card (d d' : D) : Prop := {
  sc_block : forall b, block d' b = block d b;
  sc_range : forall s n, in_range d' s n <-> in_range d s n;
  sc_good : good d -> good d' }.

Lemma same_refl d : same_card d d.
Proof. by split. Qed.

Lemma same_read d s n : addressable s n -> same_card d (read_dev d s n).
Proof. intros Ha; split; [intros b; by apply read_frame|intros s' n'; by apply range_read|by apply good_read]. Qed.

Lemma same_trans d1 d2 d3 : same_card d1 d2 -> same_card d2 d3 -> same_card d1 d3.
Proof.
  intros [B1 R1 G1] [B2 R2 G2]; split; [intros b; by rewrite B2|intros s n; by rewrite R2|auto].
Qed.

(** The image [src] is on the card at block [s]. *)
Record stored (d : D) (s : Z) (src : bytes) : Prop := {
  st_full : run block d s (Z.to_nat cnt) = take (Z.to_nat done_bytes) src;
  st_rest : 0 < fmt_size - done_bytes ->
    take (Z.to_nat (fmt_size - done_bytes)) (block d (s + cnt)) = drop (Z.to_nat done_bytes) src;
  st_range_full : (read_bl_len m <=? fmt_size) = true -> in_range d s cnt;
  st_range_rest : 0 < fmt_size - done_bytes -> in_range d (s + cnt) 1 }.

Lemma stored_same d d' s src : same_card d d' -> stored d s src -> stored d' s src.
Proof.
  intros [Hb Hr _] [Hf Ht Rf Rr]; split.
  - by rewrite (run_ext block d d') by (intros; apply Hb).
  - intros Hl; rewrite Hb; auto.
  - intros E; apply Hr; auto.
  - intros Hl; apply Hr; auto.
Qed.

Lemma full_addressable s : start_ok s -> (read_bl_len m <=? fmt_size) = true -> addressable s cnt.
Proof.
  intros Hs E; destruct full_blocks as [Hc _]; fold cnt in Hc; apply Z.leb_le in E.
  unfold start_ok, addressable, fmt_size in *; split; [lia|]; split; [apply Z.div_str_pos; unfold fmt_size; lia|lia].
Qed.

Lemma rest_addressable s : start_ok s -> addressable (s + cnt) 1.
Proof.
  intros Hs; destruct full_blocks as [Hc _]; fold cnt in Hc; unfold start_ok, addressable, fmt_size in *; lia.
Qed.

Lemma start_wraps s : start_ok s -> u64 s = s /\ u64 (s + cnt) = s + cnt.
Proof.
  intros Hs; destruct full_blocks as [Hc _]; fold cnt in Hc; split; [|by apply start_u64].
  unfold start_ok, fmt_size in Hs; apply wrap_small; lia.
Qed.

(** The cleared image, and the image and card after the read of the full blocks. *)
Definition img0 : bytes := replicate (Z.to_nat fmt_size) 0.

Definition full_img (d : D) (s : Z) : bytes :=
  if read_bl_len m <=? fmt_size then splice img0 0 (read_data d s cnt) else img0.
Definition full_ret (d : D) (s : Z) : Z := if read_bl_len m <=? fmt_size then read_ret d s cnt else 1.
Definition full_dev (d : D) (s : Z) : D := if read_bl_len m <=? fmt_size then read_dev d s cnt else d.

Lemma same_full d s : start_ok s -> same_card d (full_dev d s).
Proof.
  intros Hs; unfold full_dev; destruct (read_bl_len m <=? fmt_size) eqn:E; [|apply same_refl].
  by apply same_read, full_addressable.
Qed.

Lemma read_image_eq d s : start_ok s -> read_image m d s =
  if full_ret d s =? 0 then (-1, full_img d s, full_dev d s)
  else if 0 <? fmt_size - done_bytes then
    if read_ret (full_dev d s) (s + cnt) 1 =? 0 then (-1, full_img d s, read_dev (full_dev d s) (s + cnt) 1)
    else (0, splice (full_img d s) (Z.to_nat done_bytes)
               (take (Z.to_nat (fmt_size - done_bytes)) (read_data (full_dev d s) (s + cnt) 1)),
          read_dev (full_dev d s) (s + cnt) 1)
  else (0, full_img d s, full_dev d s).
Proof.
  intros Hs; destruct (start_wraps s Hs) as [E1 E2]; unfold read_image, full_ret, full_img, full_dev.
  fold cnt; fold done_bytes; fold img0; rewrite E1, E2.
  destruct (read_bl_len m <=? fmt_size); [rewrite (block_read_eta d)|];
    (destruct (_ =? 0); [done|]); (destruct (0 <? _); [|done]); by rewrite block_read_eta.
Qed.

Lemma img0_ok : Z.of_nat (length img0) = fmt_size /\ Forall byte_ok img0.
Proof.
  unfold img0; split; [by rewrite length_replicate|apply Forall_replicate; unfold byte_ok; lia].
Qed.

Lemma splice_ok o data im : Forall byte_ok data -> Z.of_nat o + Z.of_nat (length data) <= fmt_size ->
  Z.of_nat (length im) = fmt_size -> Forall byte_ok im ->
  Z.of_nat (length (splice im o data)) = fmt_size /\ Forall byte_ok (splice im o data).
Proof.
  intros Fd Ho Hl Fm; unfold splice; split.
  - rewrite !length_app, length_take, length_drop; lia.
  - rewrite !Forall_app; auto using Forall_take, Forall_drop.
Qed.

Lemma full_img_ok d s : start_ok s -> full_ret d s <> 0 ->
  Z.of_nat (length (full_img d s)) = fmt_size /\ Forall byte_ok (full_img d s).
Proof.
  intros Hs; unfold full_ret, full_img; destruct img0_ok as [Hl0 F0].
  destruct (read_bl_len m <=? fmt_size) eqn:E; [|done]; intros Hr; destruct full_blocks as [Hc Hd]; fold cnt in *.
  rewrite (read_ok d s cnt (full_addressable s Hs E) Hr).
  apply splice_ok; [apply run_bytes|rewrite run_length; lia|done|done].
Qed.

(** A read leaves the blocks alone, and fills the image with bytes when it succeeds. *)
Lemma read_image_shape d s : start_ok s -> exists r img d', read_image m d s = (r, img, d') /\ same_card d d' /\
  (r = 0 -> Z.of_nat (length img) = fmt_size /\ Forall byte_ok img).
Proof.
  intros Hs; rewrite (read_image_eq d s Hs); pose proof (same_full d s Hs) as Sf.
  destruct (Z.eqb_spec (full_ret d s) 0) as [E|Hr]; [by eexists _, _, _|].
  destruct (full_img_ok d s Hs Hr) as [Hl Fb].
  destruct (Z.ltb_spec 0 (fmt_size - done_bytes)) as [Hlt|]; [|by eexists _, _, _].
  pose proof (same_trans _ _ _ Sf (same_read (full_dev d s) (s + cnt) 1 (rest_addressable s Hs))) as Sr.
  destruct (Z.eqb_spec (read_ret (full_dev d s) (s + cnt) 1) 0) as [E|Hr2]; [by eexists _, _, _|].
  eexists _, _, _; split; [done|]; split; [done|]; intros _.
  rewrite (read_ok _ _ _ (rest_addressable s Hs) Hr2), run_one.
  destruct full_blocks as [Hc Hd]; fold cnt in *; fold done_bytes in *.
  apply splice_ok; [apply Forall_take, block_bytes|rewrite length_take; unfold done_bytes in *; nia|done|done].
Qed.

Lemma read_stored d s src : start_ok s -> Z.of_nat (length src) = fmt_size -> good d ->
  stored d s src -> exists d', read_image m d s = (0, src, d') /\ same_card d d'.
Proof.
  intros Hs Hl Hg Hst; pose proof Hst as [Hf _ Rf _]; rewrite (read_image_eq d s Hs).
  destruct full_blocks as [Hc Hd]; fold cnt in *; fold done_bytes in *.
  assert (0 <= done_bytes) by (unfold done_bytes; nia); destruct img0_ok as [Hl0 _].
  pose proof (same_full d s Hs) as Sf; pose proof (sc_good _ _ Sf Hg) as Gf.
  pose proof (stored_same _ _ _ _ Sf Hst) as [_ Hr _ Rr].
  assert (full_ret d s <> 0 /\ full_img d s = splice img0 0 (take (Z.to_nat done_bytes) src)) as [Hret Himg].
  { unfold full_ret, full_img; destruct (read_bl_len m <=? fmt_size) eqn:E.
    - pose proof (full_addressable s Hs E) as Ha; pose proof (proj2 (read_succeeds d s cnt Ha Hg) (Rf eq_refl)) as Hnz.
      split; [done|]; by rewrite (read_ok d s cnt Ha Hnz), Hf.
    - pose proof (full_none E) as E0; fold cnt in E0; unfold done_bytes; rewrite E0; done. }
  destruct (Z.eqb_spec (full_ret d s) 0); [done|]; rewrite Himg.
  destruct (Z.ltb_spec 0 (fmt_size - done_bytes)) as [Hlt|Hge].
  - pose proof (rest_addressable s Hs) as Ha; pose proof (proj2 (read_succeeds _ _ _ Ha Gf) (Rr Hlt)) as Hnz.
    destruct (Z.eqb_spec (read_ret (full_dev d s) (s + cnt) 1) 0); [done|].
    exists (read_dev (full_dev d s) (s + cnt) 1); split; [|exact (same_trans _ _ _ Sf (same_read _ _ _ Ha))].
    rewrite (read_ok _ _ _ Ha Hnz), run_one, Hr by done.
    rewrite splice_second; [by rewrite take_drop|rewrite length_take; lia|rewrite length_drop; lia].
  - eexists; split; [|exact Sf]; rewrite firstn_all2 by lia; by rewrite splice_all by lia.
Qed.

(** What a successful read delivers is on the card. *)
Lemma read_gives_stored d s img d' : start_ok s -> good d -> read_image m d s = (0, img, d') -> stored d s img.
Proof.
  intros Hs Hg; rewrite (read_image_eq d s Hs); destruct full_blocks as [Hc Hd]; fold cnt in *; fold done_bytes in *.
  assert (0 <= done_bytes) by (unfold done_bytes; nia); destruct img0_ok as [Hl0 _].
  pose proof (same_full d s Hs) as Sf; pose proof (sc_good _ _ Sf Hg) as Gf; destruct Sf as [Bf Rf _].
  destruct (Z.eqb_spec (full_ret d s) 0) as [|Hne]; [done|].
  assert (full_img d s = splice img0 0 (run block d s (Z.to_nat cnt)) /\
    ((read_bl_len m <=? fmt_size) = true -> in_range d s cnt)) as [Himg Hin].
  { unfold full_ret, full_img in *; destruct (read_bl_len m <=? fmt_size) eqn:E.
    - pose proof (full_addressable s Hs E) as Ha; rewrite (read_ok d s cnt Ha Hne); split; [done|].
      intros _; by apply (read_succeeds d s cnt Ha Hg).
    - pose proof (full_none E) as E0; fold cnt in E0; by rewrite E0. }
  assert (Z.of_nat (length (run block d s (Z.to_nat cnt))) = done_bytes) as Hrun
    by (rewrite run_length; unfold done_bytes; lia).
  rewrite Himg; destruct (Z.ltb_spec 0 (fmt_size - done_bytes)) as [Hlt|Hge].
  - pose proof (rest_addressable s Hs) as Ha.
    destruct (Z.eqb_spec (read_ret (full_dev d s) (s + cnt) 1) 0) as [|Hne2]; [done|].
    rewrite (read_ok _ _ _ Ha Hne2), run_one, Bf.
    pose proof (block_length d (s + cnt)) as Hb.
    rewrite splice_second by (rewrite ?length_take; lia); intros [= <- <-].
    split; [symmetry; apply take_exact; lia| |done|intros _; by apply Rf, (read_succeeds _ _ _ Ha Gf)].
    intros _; replace (Z.to_nat done_bytes) with (Z.to_nat done_bytes + 0)%nat by lia.
    rewrite drop_exact by lia; by rewrite drop_0.
  - rewrite splice_all by lia; intros [= <- <-]; split; [rewrite firstn_all2 by lia; done|lia|done|lia].
Qed.

Lemma write_image_eq d s src : write_image m d s src =
  let '(ret, d1) := first_write d s src in
  if ret =? 0 then (-1, d1)
  else if 0 <? fmt_size - done_bytes then
    let '(ret, d2) := block_write d1 (u64 (s + cnt)) 1
      (splice (replicate (Z.to_nat (read_bl_len m)) 0) 0 (drop (Z.to_nat done_bytes) src)) in
    if ret =? 0 then (-1, d2) else (0, d2)
  else (0, d1).
Proof. done. Qed.

(** The padded last block holds the rest of the image. *)
Lemma last_buf src : Z.of_nat (length src) = fmt_size -> Forall byte_ok src ->
  let buf := splice (replicate (Z.to_nat (read_bl_len m)) 0) 0 (drop (Z.to_nat done_bytes) src) in
  Z.of_nat (length buf) = 1 * read_bl_len m /\ Forall byte_ok buf /\
  take (Z.to_nat (fmt_size - done_bytes)) buf = drop (Z.to_nat done_bytes) src.
Proof.
  intros Hl Fb buf; subst buf; destruct full_blocks as [Hc Hd]; fold cnt in *; fold done_bytes in *.
  assert (0 <= done_bytes) by (unfold done_bytes; nia).
  rewrite splice_first; split; [|split].
  - rewrite length_app, !length_drop, length_replicate; lia.
  - apply Forall_app; split; [by apply Forall_drop|]; apply Forall_drop, Forall_replicate; unfold byte_ok; lia.
  - apply take_exact; rewrite length_drop; lia.
Qed.

Lemma full_take (src : bytes) : Z.of_nat (length src) = fmt_size ->
  Z.of_nat (length (take (Z.to_nat done_bytes) src)) = cnt * read_bl_len m.
Proof.
  intros Hl; destruct full_blocks as [Hc Hd]; fold cnt in *; fold done_bytes in *.
  rewrite length_take; unfold done_bytes in *; nia.
Qed.

Lemma first_write_range d s src : start_ok s -> Z.of_nat (length src) = fmt_size -> Forall byte_ok src -> good d ->
  good (snd (first_write d s src)) /\
  (forall s' n', in_range (snd (first_write d s src)) s' n' <-> in_range d s' n') /\
  (fst (first_write d s src) <> 0 <-> ((read_bl_len m <=? fmt_size) = true -> in_range d s cnt)).
Proof.
  intros Hs Hl Fb Hg; unfold first_write; fold cnt; fold done_bytes; destruct (start_wraps s Hs) as [Es _]; rewrite Es.
  destruct (read_bl_len m <=? fmt_size) eqn:E; [|by cbn [fst snd]].
  pose proof (full_addressable s Hs E) as Ha; pose proof (full_take src Hl) as Ht.
  assert (Forall byte_ok (take (Z.to_nat done_bytes) src)) as Ft by (by apply Forall_take).
  split; [by apply good_write|]; split; [intros s' n'; by apply range_write|].
  change (fst (block_write ?a ?b ?c ?d)) with (write_ret a b c d).
  rewrite (write_succeeds d s cnt _ Ha Ht Ft Hg); intuition.
Qed.

(** The write of the last block. *)
Lemma rest_write d1 s src : start_ok s -> Z.of_nat (length src) = fmt_size -> Forall byte_ok src -> good d1 ->
  let buf := splice (replicate (Z.to_nat (read_bl_len m)) 0) 0 (drop (Z.to_nat done_bytes) src) in
  let d2 := write_dev d1 (s + cnt) 1 buf in
  (write_ret d1 (s + cnt) 1 buf <> 0 <-> in_range d1 (s + cnt) 1) /\
  (write_ret d1 (s + cnt) 1 buf <> 0 -> good d2 /\ (forall s' n', in_range d2 s' n' <-> in_range d1 s' n') /\
    block d2 (s + cnt) = buf /\ forall b, b < s + cnt \/ s + cnt + 1 <= b -> block d2 b = block d1 b).
Proof.
  intros Hs Hl Fb Hg buf d2; destruct (last_buf src Hl Fb) as (Hbl' & Hbb & _); fold buf in Hbl', Hbb.
  pose proof (rest_addressable s Hs) as Ha; split; [by apply write_succeeds|]; intros Hr.
  split; [by apply good_write|]; split; [intros s' n'; by apply range_write|]; split.
  - rewrite <- (run_one block); by apply write_ok.
  - intros b Hb; by apply write_frame.
Qed.

Lemma write_stored d s src d' : start_ok s -> Z.of_nat (length src) = fmt_size -> Forall byte_ok src ->
  good d -> write_image m d s src = (0, d') ->
  stored d' s src /\ good d' /\ forall b, b < s \/ s + image_blocks <= b -> block d' b = block d b.
Proof.
  intros Hs Hl Fb Hg; destruct full_blocks as [Hc Hd]; fold cnt in *; fold done_bytes in *.
  rewrite write_image_eq; pose proof (first_write_ok d s src Hs Hl Fb) as Hf; cbn zeta in Hf; fold cnt in Hf; fold done_bytes in Hf.
  destruct (first_write_range d s src Hs Hl Fb Hg) as (Hg1 & Hr1 & Hi1).
  destruct (first_write d s src) as [r1 d1]; cbn [fst snd] in *; destruct (Z.eqb_spec r1 0) as [|Hne]; [done|].
  specialize (Hf Hne) as (Hrun & Hfr); pose proof (proj1 Hi1 Hne) as Hin.
  destruct (Z.ltb_spec 0 (fmt_size - done_bytes)) as [Hlt|Hge].
  - destruct (start_wraps s Hs) as [_ ->]; destruct (rest_write d1 s src Hs Hl Fb Hg1) as [Hi2 H2]; cbn zeta in *.
    destruct (last_buf src Hl Fb) as (_ & _ & Hbt); revert Hbt Hi2 H2; cbn zeta.
    set (buf := splice _ 0 _); intros Hbt Hi2 H2; rewrite block_write_eta.
    destruct (Z.eqb_spec (write_ret d1 (s + cnt) 1 buf) 0) as [|Hne2]; [done|]; intros [= <-].
    specialize (H2 Hne2) as (Hg2 & Hr2 & Hb2 & Hfr2); split; [split|].
    + rewrite (run_ext block d1); [done|]; intros b Hb; apply Hfr2; lia.
    + intros _; by rewrite Hb2.
    + intros E; by apply Hr2, Hr1, Hin.
    + intros _; by apply Hr2, Hi2.
    + split; [done|]; rewrite last_block by (unfold done_bytes, cnt in Hlt; lia); fold cnt; intros b Hb.
      rewrite Hfr2 by lia; apply Hfr; lia.
  - intros [= <-]; split; [split; [done|lia|intros E; by apply Hr1, Hin|lia]|]; split; [done|].
    rewrite no_last_block by (unfold done_bytes, cnt in *; lia); done.
Qed.

(** On a good card whose range covers the image, the write succeeds. *)
Lemma write_image_ret d s src : start_ok s -> Z.of_nat (length src) = fmt_size -> Forall byte_ok src -> good d ->
  in_range d s image_blocks -> fst (write_image m d s src) = 0.
Proof.
  intros Hs Hl Fb Hg Hin; destruct full_blocks as [Hc Hd]; fold cnt in *; fold done_bytes in *.
  rewrite write_image_eq; destruct (first_write_range d s src Hs Hl Fb Hg) as (Hg1 & Hr1 & Hi1).
  assert (cnt <= image_blocks /\ (0 < fmt_size - done_bytes -> image_blocks = cnt + 1)) as [Hle Hlast].
  { destruct (decide (fmt_size - done_bytes = 0)) as [E|E].
    - rewrite no_last_block by (unfold done_bytes, cnt in *; lia); fold cnt; lia.
    - rewrite last_block by (unfold done_bytes, cnt in *; lia); fold cnt; lia. }
  assert (fst (first_write d s src) <> 0) as Hne.
  { apply Hi1; intros E; destruct (full_addressable s Hs E) as (_ & Hp & _).
    apply (range_sub d s image_blocks); [done|lia|lia|lia]. }
  destruct (first_write d s src) as [r1 d1]; cbn [fst snd] in *; destruct (Z.eqb_spec r1 0) as [|_]; [done|].
  destruct (Z.ltb_spec 0 (fmt_size - done_bytes)) as [Hlt|Hge]; [|done].
  destruct (start_wraps s Hs) as [_ ->]; destruct (rest_write d1 s src Hs Hl Fb Hg1) as [Hi2 _]; cbn zeta in Hi2.
  rewrite block_write_eta; match goal with |- context [?r =? 0] => destruct (Z.eqb_spec r 0) as [E|] end; [|done].
  exfalso; revert E; apply Hi2, Hr1; apply (range_sub d s image_blocks); [done|lia|lia|]; rewrite Hlast by done; lia.
Qed.
End card.

(** ** The tests on an image *)

Lemma dec_parts_named n : forall b, (part_size * n <= length b)%nat -> Forall byte_ok b ->
  Forall named (dec_parts n b) /\ length (dec_parts n b) = n.
Proof.
  induction n as [|n IH]; intros b Hl Fb; [by split|]; cbn [dec_parts].
  destruct (IH (drop part_size b)) as [Hn Hlen]; [rewrite length_drop; unfold part_size in *; lia|by apply Forall_drop|].
  split; [apply Forall_cons; split; [|done]|by cbn [length]; rewrite Hlen].
  split; cbn [name dec_part]; [rewrite !length_take; unfold part_size in *; lia|by do 2 apply Forall_take].
Qed.

(** What the tests read of an image: arrays of the right length. *)
Record fmt_shape (f : mmc_partitions_fmt) : Prop := {
  fs_magic : length (magic f) = 4%nat /\ Forall byte_ok (magic f);
  fs_version : length (fversion f) = 12%nat /\ Forall byte_ok (fversion f);
  fs_parts : Forall named (fparts f) /\ length (fparts f) = 32%nat }.

Lemma dec_fmt_shape img : Z.of_nat (length img) = fmt_size -> Forall byte_ok img -> fmt_shape (dec_fmt img).
Proof.
  unfold fmt_size; intros Hl Fb; split; cbn [magic fversion fparts dec_fmt].
  - split; [rewrite length_take; lia|by apply Forall_take].
  - split; [rewrite length_take, length_drop; lia|by apply Forall_take, Forall_drop].
  - apply dec_parts_named; [rewrite length_drop; unfold part_size; lia|by apply Forall_drop].
Qed.

Lemma magic_key : bounded 4 MMC_PARTITIONS_MAGIC /\ Forall byte_ok MMC_PARTITIONS_MAGIC.
Proof. by apply (bool_decide_unpack _); vm_compute. Qed.

Lemma checksum_total l n : length l = 32%nat -> exists s, mmc_partition_tbl_checksum_calc l n = Some s.
Proof. destruct l as [|p l]; [done|]; intros _; by eexists. Qed.

Lemma fmt_valid_total f : fmt_shape f -> exists b, fmt_valid f = Some b /\
  (b = true -> 0 < fpart_num f <= 32).
Proof.
  intros [[Hm Fm] _ [_ Hl]]; unfold fmt_valid.
  destruct (strncmp_same 4 (magic f) MMC_PARTITIONS_MAGIC) as (r & -> & _); [left; lia|apply magic_key|done|apply magic_key|].
  cbn [mbind option_bind].
  destruct ((r =? 0) && (0 <? fpart_num f) && (fpart_num f <=? MAX_MMC_PART_NUM)) eqn:E; [|by eexists].
  destruct (checksum_total (fparts f) (fpart_num f) Hl) as [s ->]; eexists; split; [done|]; intros _.
  unfold MAX_MMC_PART_NUM in E; zbool; lia.
Qed.

(** Two entries agree as [mmc_partition_verify] compares them. *)
Definition agree (p q : partitions) : bool :=
  (size p =? size q) && (offset p =? offset q) && (mask_flags p =? mask_flags q) &&
  same_str 16 (name p) (name q).

Lemma agree_refl p : named p -> agree p p = true.
Proof.
  intros [Hl _]; unfold agree; rewrite !Z.eqb_refl, same_str_refl by (left; lia); done.
Qed.

(** The entries from [i] on, [n] of them, agree pairwise. *)
Fixpoint agree_from (n : nat) (l1 l2 : list partitions) (i : nat) : bool :=
  match n with
  | O => true
  | S n' =>
      match l1 !! i, l2 !! i with
      | Some p, Some q => agree p q && agree_from n' l1 l2 (S i)
      | _, _ => false
      end
  end.

Lemma verify_loop_spec l1 l2 : Forall named l1 -> Forall named l2 -> forall n i,
  (i + n <= length l1)%nat -> (i + n <= length l2)%nat ->
  exists r, verify_loop n l1 l2 (Z.of_nat i) = Some r /\ (r =? 0) = agree_from n l1 l2 i.
Proof.
  intros F1 F2; induction n as [|n IH]; intros i H1 H2; [by exists 0|]; cbn [verify_loop agree_from].
  rewrite !zget_nat.
  destruct (lookup_lt_is_Some_2 l1 i) as [p Ep]; [lia|]; destruct (lookup_lt_is_Some_2 l2 i) as [q Eq]; [lia|].
  rewrite Ep, Eq; cbn [mbind option_bind].
  pose proof (Forall_lookup_1 _ _ _ _ F1 Ep) as Np; pose proof (Forall_lookup_1 _ _ _ _ F2 Eq) as Nq.
  unfold agree; destruct (size p =? size q), (offset p =? offset q), (mask_flags p =? mask_flags q);
    cbn [negb orb andb]; try (by exists (-1)).
  destruct (find_compare p (name q) Np (named_key q Nq)) as (r & Er & Hr).
  change (strncmp_arr 16) with (strncmp_arr MAX_MMC_PART_NAME_LEN); rewrite Er; cbn [mbind option_bind]; rewrite Hr.
  destruct (same_str 16 (name p) (name q)); cbn [negb andb]; [|by exists (-1)].
  replace (Z.of_nat i + 1) with (Z.of_nat (S i)) by lia; apply IH; lia.
Qed.

(** A configuration as [mmc_get_partition_table] makes it. *)
Record cfg_ok (cfg : mmc_partition_config) : Prop := {
  co_version : length (version cfg) = 12%nat /\ Forall byte_ok (version cfg);
  co_num : 0 < part_num cfg <= 32;
  co_parts : Forall part_ok (parts cfg);
  co_len : length (parts cfg) = 32%nat }.

Lemma cfg_named cfg : cfg_ok cfg -> Forall named (parts cfg).
Proof. intros H; eapply Forall_impl; [apply (co_parts _ H)|]; apply part_named. Qed.

(** The answer of [mmc_partition_verify] on any image. *)
Lemma verify_spec cfg f : cfg_ok cfg -> fmt_shape f -> exists r, mmc_partition_verify cfg f = Some r /\
  (r =? 0) = same_str 12 (version cfg) (fversion f) && (part_num cfg =? fpart_num f) &&
             agree_from (Z.to_nat (part_num cfg)) (parts cfg) (fparts f) 0.
Proof.
  intros Hc [_ [Hv Fv] [Fn Hl]]; pose proof Hc as [[Hv' Fv'] Hn Hp Hl'].
  unfold mmc_partition_verify.
  destruct (strncmp_same 12 (version cfg) (fversion f)) as (r & -> & Hr); [left; lia|left; lia|done|done|].
  cbn [mbind option_bind]; rewrite Hr; clear r Hr.
  destruct (same_str 12 (version cfg) (fversion f)); cbn [andb]; [|by exists (-1)].
  destruct (Z.eqb_spec (part_num cfg) (fpart_num f)) as [En|En]; cbn [andb]; [|by exists (-1)].
  rewrite <- En; apply (verify_loop_spec (parts cfg) (fparts f) (cfg_named cfg Hc) Fn _ 0); lia.
Qed.

Lemma agree_from_refl l n : Forall named l -> forall i, (i + n <= length l)%nat -> agree_from n l l i = true.
Proof.
  intros Fl; induction n as [|n IH]; intros i Hi; [done|]; cbn [agree_from].
  destruct (lookup_lt_is_Some_2 l i) as [p Ep]; [lia|]; rewrite Ep.
  rewrite agree_refl by (by eapply Forall_lookup_1 in Ep); apply IH; lia.
Qed.

Lemma s32_range z : - 2 ^ 31 <= s32 z < 2 ^ 31.
Proof.
  unfold to_signed; pose proof (wrap_range 32 z); change (32 - 1) with 31; cbn zeta; case_match; lia.
Qed.

(** The image made of a configuration: it is well formed, passes the tests and
    agrees with the configuration. *)
Lemma make_fmt_ok cfg : cfg_ok cfg -> exists f, make_fmt cfg = Some f /\ fmt_ok f /\
  fmt_valid f = Some true /\ mmc_partition_verify cfg f = Some 0 /\
  fpart_num f = part_num cfg /\ fparts f = parts cfg /\ fversion f = version cfg.
Proof.
  intros Hc; pose proof Hc as [[Hv Fv] Hn Hp Hl]; unfold make_fmt.
  destruct (checksum_total (parts cfg) (part_num cfg) Hl) as [s Es]; rewrite Es; cbn [mbind option_bind].
  change (strncpy_arr 4 (magic zero_fmt) MMC_PARTITIONS_MAGIC) with (Some MMC_PARTITIONS_MAGIC).
  cbn [mbind option_bind]; eexists; split; [done|].
  assert (- 2 ^ 31 <= s < 2 ^ 31) as Hs
    by (unfold mmc_partition_tbl_checksum_calc in Es; destruct (zget _ _); [|done];
        injection Es as <-; apply s32_range).
  split; [split; cbn [magic fversion fpart_num checksum fparts]; (done || lia || by split; [|apply magic_key])|].
  split; [|split; [|done]].
  - unfold fmt_valid; cbn [magic fpart_num fparts checksum].
    change (strncmp_arr 4 MMC_PARTITIONS_MAGIC MMC_PARTITIONS_MAGIC) with (Some 0); cbn [mbind option_bind].
    replace (_ && _ && _) with true by (unfold MAX_MMC_PART_NUM; symmetry; zbool; lia).
    rewrite Es; cbn [mbind option_bind]; by rewrite Z.eqb_refl.
  - destruct (verify_spec cfg (mkFmt MMC_PARTITIONS_MAGIC (version cfg) (part_num cfg) s (parts cfg)) Hc)
      as (r & -> & Hr); [split; cbn [magic fversion fparts]; [|done|by split; [apply cfg_named|]]|].
    + split; [done|apply magic_key].
    + cbn [fversion fpart_num fparts] in Hr; rewrite same_str_refl, Z.eqb_refl, agree_from_refl in Hr
        by (lia || (by apply cfg_named) || (left; lia)).
      cbn [andb] in Hr; apply Z.eqb_eq in Hr; by rewrite Hr.
Qed.

(** ** Start-up *)

Lemma find_reserved boot_flag p0 p1 l n :
  name p0 = name (PARTITION_ELEMENT MMC_BOOT_NAME 0 0) ->
  name p1 = reserved_name boot_flag (name (PARTITION_ELEMENT MMC_RESERVED_NAME 0 0)) ->
  find_loop (S (S n)) (p0 :: p1 :: l) 0 MMC_RESERVED_NAME = Some (Some 1).
Proof.
  intros E0 E1; cbn [find_loop]; change (zget (p0 :: p1 :: l) 0) with (Some p0).
  change (zget (p0 :: p1 :: l) (0 + 1)) with (Some p1); cbn [mbind option_bind]; rewrite E0, E1.
  unfold reserved_name; by destruct (boot_flag =? EMMC_BOOT_FLAG).
Qed.

(** What start-up knows of a configuration it has laid out: it is well formed
    and its reserved partition lies at the addressable block [s]. *)
Definition cfg_at (m : mmc) (cfg : mmc_partition_config) (s : Z) : Prop :=
  cfg_ok cfg /\ start_ok s /\
  forall D (st : state D), mmc_partition_config_of st = Some cfg -> reserved_start m st = Some (Some s).

Lemma laid_out_at m boot_flag ptable tbl k : boot_ok m ptable tbl k -> 512 <= read_bl_len m ->
  exists cfg s, laid_out m boot_flag ptable tbl = Some cfg /\ cfg_at m cfg s.
Proof.
  intros Hb Hbl; destruct (laid_out_ok m boot_flag ptable tbl k Hb)
    as (ps & x & r & E & Hlen & Hl4 & [Fok _ _ _] & p0 & p1 & l & Eps & N0 & N1 & O1).
  assert (0 <= offset p1 / read_bl_len m < 2 ^ 31 - fmt_size) as Hst.
  { split; [apply Z.div_pos; lia|]; apply Z.div_lt_upper_bound; [lia|unfold fmt_size; nia]. }
  eexists _, (offset p1 / read_bl_len m); split; [done|]; split; [split; cbn [version part_num parts]|split; [done|]].
  - by apply (bool_decide_unpack _); vm_compute.
  - rewrite length_app; cbn [length]; lia.
  - replace (ps ++ x :: replicate r zero_part) with ((ps ++ [x]) ++ replicate r zero_part)
      by (by rewrite <- app_assoc).
    apply Forall_app; split; [done|apply Forall_replicate, zero_part_ok].
  - rewrite length_app; cbn [length]; rewrite length_replicate; lia.
  - intros D st Ec; unfold reserved_start, find_mmc_partition_by_name, find_partition_by_name; rewrite Ec.
    cbn [part_num parts]; rewrite Nat2Z.id.
    assert (exists n, length (ps ++ [x]) = S (S n)) as [n ->]
      by (rewrite length_app; subst ps; cbn [length]; eexists; f_equal; by rewrite Nat.add_comm).
    subst ps; cbn [app]; rewrite (find_reserved boot_flag p0 p1 _ n N0 N1); cbn [mbind option_bind parts].
    change (zget (p0 :: p1 :: l ++ x :: replicate r zero_part) 1) with (Some p1); cbn [mbind option_bind].
    destruct (Z.eqb_spec (read_bl_len m) 0); [lia|]; do 2 f_equal.
    unfold fmt_size in Hst; unfold to_signed; rewrite wrap_small by lia; change (32 - 1) with 31; cbn zeta; case_match; lia.
Qed.

Section startup.
Context {D : Type} `{HB : BlockDev D} (F : libfdt) (m : mmc) `{HS : !BlockDevSpec D (read_bl_len m)}.
Context (Hbl : 512 <= read_bl_len m < 2 ^ 32).

Lemma plan_nil (st : state D) : kmalloc_plan st = [] -> set_plan st [] = st.
Proof. by destruct st; cbn; intros ->. Qed.

Lemma read_tbl_eq (st : state D) cfg s : mmc_partition_config_of st = Some cfg -> cfg_at m cfg s ->
  kmalloc_plan st = [] ->
  mmc_read_partition_tbl m st =
  let '(ret, img, d) := read_image m (dev st) s in
  if negb (ret =? 0) then Some (ret, dec_fmt img, set_dev st d)
  else ok ← fmt_valid (dec_fmt img); Some (if ok : bool then 0 else -1, dec_fmt img, set_dev st d).
Proof.
  intros Ec (_ & _ & Hs) Ep; unfold mmc_read_partition_tbl; rewrite Ep; cbn [kmalloc negb].
  by rewrite (plan_nil st Ep), (Hs D st Ec).
Qed.

Lemma write_tbl_eq (st : state D) cfg s : mmc_partition_config_of st = Some cfg -> cfg_at m cfg s ->
  kmalloc_plan st = [] -> exists f, make_fmt cfg = Some f /\
  mmc_write_partition_tbl m cfg st =
  let '(ret, d) := write_image m (dev st) s (enc_fmt f) in Some (ret, set_dev st d).
Proof.
  intros Ec (Hc & _ & Hs) Ep; destruct (make_fmt_ok cfg Hc) as (f & Ef & _); exists f; split; [done|].
  unfold mmc_write_partition_tbl; rewrite Ep; cbn [kmalloc negb]; rewrite (plan_nil st Ep), Ef.
  by cbn [mbind option_bind]; rewrite (Hs D st Ec).
Qed.

(** The card holds an image that passes the check against [cfg]. *)
Definition agrees (d : D) (s : Z) (cfg : mmc_partition_config) (f : mmc_partitions_fmt) : Prop :=
  exists img, stored m d s img /\ Z.of_nat (length img) = fmt_size /\ dec_fmt img = f /\
    fmt_valid f = Some true /\ mmc_partition_verify cfg f = Some 0.

Lemma agrees_same d d' s cfg f : same_card m d d' -> agrees d s cfg f -> agrees d' s cfg f.
Proof. intros Hs (img & Hst & H); exists img; split; [by eapply stored_same|done]. Qed.

Lemma agrees_read (st : state D) cfg s f : mmc_partition_config_of st = Some cfg -> cfg_at m cfg s ->
  kmalloc_plan st = [] -> good (dev st) -> agrees (dev st) s cfg f ->
  exists d, mmc_read_partition_tbl m st = Some (0, f, set_dev st d) /\ same_card m (dev st) d.
Proof.
  intros Ec Hat Ep Hg (img & Hst & Hl & Ef & Hv & _); rewrite (read_tbl_eq st cfg s Ec Hat Ep).
  destruct (read_stored m ltac:(lia) (dev st) s img (proj1 (proj2 Hat)) Hl Hg Hst) as (d & -> & Hd).
  exists d; split; [|done]; cbn [negb Z.eqb]; by rewrite Ef, Hv.
Qed.

(** The image of the configuration passes. *)
Lemma stored_agrees d cfg s f : cfg_ok cfg -> make_fmt cfg = Some f -> stored m d s (enc_fmt f) -> agrees d s cfg f.
Proof.
  intros Hc Ef Hst; destruct (make_fmt_ok cfg Hc) as (f' & Ef' & Hf & Hv & Hver & _).
  rewrite Ef in Ef'; injection Ef' as <-; exists (enc_fmt f).
  split; [done|]; split; [by apply enc_fmt_length|]; split; [by apply dec_enc_fmt|done].
Qed.

(** The check of the card in either outcome. *)
Lemma check_card (st : state D) cfg s : mmc_partition_config_of st = Some cfg -> cfg_at m cfg s ->
  kmalloc_plan st = [] -> good (dev st) -> exists ret f d r,
  mmc_read_partition_tbl m st = Some (ret, f, set_dev st d) /\ same_card m (dev st) d /\
  (if ret =? 0 then mmc_partition_verify cfg f else Some ret) = Some r /\
  (r = 0 -> agrees d s cfg f).
Proof.
  intros Ec Hat Ep Hg; rewrite (read_tbl_eq st cfg s Ec Hat Ep).
  destruct (read_image_shape m ltac:(lia) (dev st) s (proj1 (proj2 Hat))) as (ret & img & d & Er & Hd & Hsh).
  rewrite Er; destruct (Z.eqb_spec ret 0) as [->|Hne]; cbn [negb].
  - destruct (Hsh eq_refl) as [Hl Fb]; pose proof (dec_fmt_shape img Hl Fb) as Hfs.
    destruct (fmt_valid_total _ Hfs) as (b & Hb & _); rewrite Hb; cbn [mbind option_bind].
    destruct (verify_spec cfg _ (proj1 Hat) Hfs) as (r & Hr & _).
    destruct b; [exists 0, (dec_fmt img), d, r|exists (-1), (dec_fmt img), d, (-1)]; (split; [done|]); split; [done| |done|done].
    split; [done|]; intros ->; eapply agrees_same; [done|]; exists img.
    split; [by eapply read_gives_stored; [lia|apply Hat|done|]|done].
  - exists ret, (dec_fmt img), d, ret; split; [done|]; split; [done|].
    split; [by apply Z.eqb_neq in Hne; rewrite Hne|done].
Qed.

Lemma reserved_start_cfg {D' D''} (st : state D') (st' : state D'') :
  mmc_partition_config_of st = mmc_partition_config_of st' -> reserved_start m st = reserved_start m st'.
Proof. by unfold reserved_start; intros ->. Qed.

(** Start-up once the table is laid out and every request is granted. *)
Lemma init_eq (st st1 : state D) cfg : mmc_get_partition_table F m st = Some (0, st1) ->
  mmc_partition_config_of st1 = Some cfg -> kmalloc_plan st1 = [] ->
  mmc_device_init F m st =
  '(ret, pt_fmt, st2) ← mmc_read_partition_tbl m st1;
  ret ← (if ret =? 0 then mmc_partition_verify cfg pt_fmt else Some ret);
  if negb (ret =? 0) then mmc_write_partition_tbl m cfg st2 else Some (ret, st2).
Proof.
  intros Eg Ec Ep; unfold mmc_device_init; rewrite Eg; cbn [mbind option_bind negb Z.eqb]; rewrite Ep.
  cbn [kmalloc negb]; rewrite (plan_nil st1 Ep), Ec; reflexivity.
Qed.

(** The state in which the check of the card runs. *)
Lemma get_table_settled (st : state D) t k : part_table st = Some t -> kmalloc_plan st = [] ->
  boot_ok m (t ++ beyond st) (emmc_partition_table st) k ->
  exists tbl cfg s, cfg_at m cfg s /\
    mmc_get_partition_table F m st = Some (0, set_cfg (set_tbl st tbl) (Some cfg)) /\
    forall d, let st' := set_dev (set_cfg (set_tbl st tbl) (Some cfg)) d in
      mmc_get_partition_table F m st' = Some (0, st').
Proof.
  intros Et Ep Hb; pose proof Hb as [En Fp Fs Fe Hr Hc Hst Hk].
  assert (granted (kmalloc_plan st)) as Hg by (by rewrite Ep).
  destruct (overide_total _ _ En Fe Hr Fp Fs) as (tbl & Eo & En' & Fp' & Fs' & Ea).
  assert (boot_ok m (t ++ beyond st) tbl k) as Hb' by (split; try done; by rewrite En').
  destruct (laid_out_at m (device_boot_flag st) _ _ _ Hb' ltac:(lia)) as (cfg & s & El & Hat).
  exists tbl, cfg, s; split; [done|]; split.
  - rewrite (get_table_eq F m st t Et Hg), Eo; cbn [mbind option_bind]; rewrite El, Ep; cbn [mbind option_bind snd kmalloc].
    by rewrite (plan_nil st Ep).
  - intros d st'; rewrite (get_table_eq F m st' t) by (done || by unfold st'; cbn; rewrite Ep).
    unfold st'; cbn [beyond emmc_partition_table device_boot_flag kmalloc_plan set_dev set_cfg set_tbl].
    rewrite (overide_inherent _ tbl) by (by rewrite En'); rewrite Ea; cbn [mbind option_bind]; rewrite El, Ep.
    cbn [mbind option_bind snd kmalloc]; by destruct st; cbn in *; rewrite Ep.
Qed.

(** C16: A partition table that has been written to a good card is read back: after
    a successful [mmc_write_partition_tbl], [mmc_read_partition_tbl] succeeds
    with an image that [mmc_partition_verify] accepts and that has the
    partitions, the count and the version of the configuration; and the write
    has changed no block of the card outside the first [image_blocks] of the
    reserved partition. *)
Theorem write_read_table (st : state D) cfg s st' :
  mmc_partition_config_of st = Some cfg -> cfg_ok cfg ->
  reserved_start m st = Some (Some s) -> start_ok s -> kmalloc_plan st = [] -> good (dev st) ->
  mmc_write_partition_tbl m cfg st = Some (0, st') ->
  (exists f d, mmc_read_partition_tbl m st' = Some (0, f, set_dev st' d) /\ mmc_partition_verify cfg f = Some 0 /\
     fparts f = parts cfg /\ fpart_num f = part_num cfg /\ fversion f = version cfg) /\
  forall b, b < s \/ s + image_blocks m <= b -> block (dev st') b = block (dev st) b.
Proof.
  intros Ec Hc Hr Hs Ep Hg.
  assert (cfg_at m cfg s) as Hat
    by (split; [done|split; [done|]]; intros D' st2 E2; rewrite <- Hr; apply reserved_start_cfg; congruence).
  destruct (write_tbl_eq st cfg s Ec Hat Ep) as (f & Ef & ->).
  destruct (make_fmt_ok cfg Hc) as (f' & Ef' & Hf & _ & Hver & Hn & Hps & Hve); rewrite Ef in Ef'; injection Ef' as <-.
  destruct (write_image m (dev st) s (enc_fmt f)) as [r d] eqn:Ew; intros E; injection E as -> <-.
  destruct (write_stored m ltac:(lia) (dev st) s (enc_fmt f) d Hs (enc_fmt_length f Hf) (enc_fmt_bytes f Hf) Hg Ew)
    as (Hst & Hgd & Hfr); split; [|done]; exists f.
  destruct (agrees_read (set_dev st d) cfg s f Ec Hat Ep Hgd (stored_agrees d cfg s f Hc Ef Hst)) as (d2 & E2 & _).
  by exists d2.
Qed.

(** A start-up on a card that passes the check. *)
Lemma init_again (st1 : state D) cfg s f : mmc_get_partition_table F m st1 = Some (0, st1) ->
  mmc_partition_config_of st1 = Some cfg -> cfg_at m cfg s -> kmalloc_plan st1 = [] -> good (dev st1) ->
  agrees (dev st1) s cfg f ->
  exists d, mmc_device_init F m st1 = Some (0, set_dev st1 d) /\ same_card m (dev st1) d.
Proof.
  intros Eg Ec Hat Ep Hg Ha; destruct (agrees_read st1 cfg s f Ec Hat Ep Hg Ha) as (d & Er & Hd).
  exists d; split; [|done]; rewrite (init_eq st1 st1 cfg Eg Ec Ep), Er; cbn [mbind option_bind Z.eqb].
  destruct Ha as (_ & _ & _ & _ & _ & ->); done.
Qed.

(** What holds once start-up has returned 0 with [st'] on the card of [st]. *)
Definition settled (st st' : state D) (s : Z) : Prop :=
  (forall b, b < s \/ s + image_blocks m <= b -> block (dev st') b = block (dev st) b) /\
  (exists cfg f d, mmc_partition_config_of st' = Some cfg /\
     mmc_read_partition_tbl m st' = Some (0, f, set_dev st' d) /\ mmc_partition_verify cfg f = Some 0) /\
  exists d, mmc_device_init F m st' = Some (0, set_dev st' d) /\ forall b, block d b = block (dev st') b.

Lemma agrees_settled (st st' : state D) cfg s f : mmc_get_partition_table F m st' = Some (0, st') ->
  mmc_partition_config_of st' = Some cfg -> cfg_at m cfg s -> kmalloc_plan st' = [] -> good (dev st') ->
  agrees (dev st') s cfg f ->
  (forall b, b < s \/ s + image_blocks m <= b -> block (dev st') b = block (dev st) b) -> settled st st' s.
Proof.
  intros Eg Ec Hat Ep Hg Ha Hfr; split; [done|]; split.
  - destruct (agrees_read st' cfg s f Ec Hat Ep Hg Ha) as (d & Er & _); exists cfg, f, d.
    by destruct Ha as (_ & _ & _ & _ & _ & Hv).
  - destruct (init_again st' cfg s f Eg Ec Hat Ep Hg Ha) as (d & Er & [Hb _ _]); by exists d.
Qed.

(** Start-up in every outcome. *)
Lemma init_settles (st : state D) t k :
  part_table st = Some t -> kmalloc_plan st = [] -> good (dev st) ->
  boot_ok m (t ++ beyond st) (emmc_partition_table st) k ->
  exists ret st' s, mmc_device_init F m st = Some (ret, st') /\ reserved_start m st' = Some (Some s) /\
    (in_range (dev st) s (image_blocks m) -> ret = 0) /\ (ret = 0 -> settled st st' s).
Proof.
  intros Et Ep Hg Hb; destruct (get_table_settled st t k Et Ep Hb) as (tbl & cfg & s & Hat & Eg & Eg').
  set (st1 := set_cfg (set_tbl st tbl) (Some cfg)) in *.
  assert (mmc_partition_config_of st1 = Some cfg) as Ec by done; assert (kmalloc_plan st1 = []) as Ep1 by done.
  rewrite (init_eq st st1 cfg Eg Ec Ep1).
  destruct (check_card st1 cfg s Ec Hat Ep1 Hg) as (r0 & f0 & d & r & -> & Sd & Hr & Hag); cbn [mbind option_bind].
  rewrite Hr; cbn [mbind option_bind]; pose proof (sc_good _ _ _ Sd Hg) as Gd.
  destruct (Z.eqb_spec r 0) as [->|Hne]; cbn [negb].
  - exists 0, (set_dev st1 d), s; split; [done|]; split; [by apply Hat|]; split; [done|]; intros _.
    apply (agrees_settled st (set_dev st1 d) cfg s f0); auto; intros b _; apply (sc_block _ _ _ Sd).
  - destruct (write_tbl_eq (set_dev st1 d) cfg s Ec Hat Ep1) as (f & Ef & ->).
    destruct (make_fmt_ok cfg (proj1 Hat)) as (f' & Ef' & Hf & _); rewrite Ef in Ef'; injection Ef' as <-.
    pose proof (enc_fmt_length f Hf) as Hl; pose proof (enc_fmt_bytes f Hf) as Fb.
    pose proof (write_image_ret m ltac:(lia) d s (enc_fmt f) (proj1 (proj2 Hat)) Hl Fb Gd) as Hw.
    cbn [dev set_dev] in *; destruct (write_image m d s (enc_fmt f)) as [r1 d2] eqn:Ew; cbn [fst] in Hw.
    exists r1, (set_dev (set_dev st1 d) d2), s; split; [done|]; split; [by apply Hat|].
    split; [intros Hin; apply Hw, (sc_range _ _ _ Sd), Hin|]; intros ->.
    destruct (write_stored m ltac:(lia) d s _ d2 (proj1 (proj2 Hat)) Hl Fb Gd Ew) as (Hst & G2 & Hfr).
    apply (agrees_settled st _ cfg s f); [exact (Eg' d2)|done|done|done|done|by apply stored_agrees; [apply Hat|..]|].
    intros b Hbo; cbn [dev set_dev]; rewrite (Hfr b Hbo); apply (sc_block _ _ _ Sd).
Qed.
(** C10: Start-up settles: when the device tree has been read and every request of
    memory is granted, [mmc_device_init] on a good card returns whatever the
    card holds, and returns 0 when the blocks of the table are in the range of
    the card.  Once it has returned 0, the card holds a table that agrees with
    the one laid out, no block outside the table's in the reserved partition
    has changed, and running it again returns 0 and changes no global and no
    block. *)
Theorem device_init_settles (st : state D) t k :
  part_table st = Some t -> kmalloc_plan st = [] -> good (dev st) ->
  boot_ok m (t ++ beyond st) (emmc_partition_table st) k ->
  exists ret st' s, mmc_device_init F m st = Some (ret, st') /\ reserved_start m st' = Some (Some s) /\
    (in_range (dev st) s (image_blocks m) -> ret = 0) /\ (ret = 0 -> settled st st' s).
Proof. apply init_settles. Qed.
End startup.

Lemma device_init_settles_witness : exists ret st' s,
  mmc_device_init no_fdt emmc8 boot0 = Some (ret, st') /\ reserved_start emmc8 st' = Some (Some s) /\
  (card_range blank s (image_blocks emmc8) = true -> ret = 0) /\
  (ret = 0 -> settled no_fdt emmc8 boot0 st' s).
Proof.
  pose proof (device_init_settles no_fdt emmc8 (HS := card_spec) ltac:(cbn; lia) boot0 android 9 eq_refl eq_refl I boot0_ok) as H.
  destruct H as (ret & st' & s & E & Es & H1 & H2); exists ret, st', s.
  split; [exact E|split; [exact Es|split; [exact H1|exact H2]]].
Defined.

(** A configuration with the two first partitions. *)
Definition cfg2 : mmc_partition_config :=
  mkCfg the_version 2
    ([entry "bootloader" (MB 4) 0; with_offset (entry "reserved" (MB 64) 0) (MB 36)] ++ replicate 30 zero_part).

Definition boot2 : state card := set_cfg boot0 (Some cfg2).
Definition written : state card :=
  match mmc_write_partition_tbl emmc8 cfg2 boot2 with Some (_, st) => st | None => boot2 end.

Lemma cfg2_ok : cfg_ok cfg2.
Proof. split; by apply (bool_decide_unpack _); vm_compute. Qed.

Lemma written_ok : mmc_write_partition_tbl emmc8 cfg2 boot2 = Some (0, written).
Proof.
  assert (fst <$> mmc_write_partition_tbl emmc8 cfg2 boot2 = Some 0) as E by (by vm_compute).
  unfold written; destruct (mmc_write_partition_tbl emmc8 cfg2 boot2) as [[r st]|]; [|done].
  by injection E as ->.
Qed.

Lemma boot2_start : reserved_start emmc8 boot2 = Some (Some 73728).
Proof. by vm_compute. Qed.

Lemma start_73728 : start_ok 73728.
Proof. by apply (bool_decide_unpack _); vm_compute. Qed.

Lemma write_read_table_witness : exists f d, mmc_read_partition_tbl emmc8 written = Some (0, f, set_dev written d) /\
  mmc_partition_verify cfg2 f = Some 0.
Proof.
  pose proof (write_read_table emmc8 (HS := card_spec) ltac:(cbn; lia) boot2 cfg2 73728 written eq_refl cfg2_ok
    boot2_start start_73728 eq_refl I written_ok) as H.
  destruct H as [(f & d & E1 & E2 & _) _]; exists f, d; split; [exact E1|exact E2].
Defined.

(** ** Where the code does not do what it means to *)

(** The checksum covers the first partition only: [p] is set back to it in
    every round, so an image whose other entries are damaged is accepted. *)
Theorem checksum_first_only f p l l' : fparts f = p :: l -> fmt_valid f = Some true ->
  fmt_valid (mkFmt (magic f) (fversion f) (fpart_num f) (checksum f) (p :: l')) = Some true.
Proof. intros E; unfold fmt_valid; cbn [magic fpart_num fparts checksum]; by rewrite E. Qed.

End EmmcTable.
