(* ===== verification/Mmc.v ===== *)
(** * The MMC block layer (drivers/mmc/mmc.c, drivers/mmc/mmc_write.c)

    Reading, writing and erasing blocks with commands to the card, the wait for
    the card to be ready, and the protection of the area that holds the
    secure keys.  The host controller is the class [Host]: a command with its
    data goes in, an error code, the first word of the response and the bytes
    read come out.  [HostSpec] states what the block layer relies on; under it
    the block layer keeps the promise of BlockDev.v.

    Console output and delays are left out.  [None] is a loop that does not
    end (a host that transfers no block per command) or a division by zero. *)

From S2P Require Import Prelude CArray BlockDev.

Module Mmc.
Import CArray BlockDev.

Definition MMC_CMD_STOP_TRANSMISSION : Z := 12.
Definition MMC_CMD_SEND_STATUS : Z := 13.
Definition MMC_CMD_SET_BLOCKLEN : Z := 16.
Definition MMC_CMD_READ_SINGLE_BLOCK : Z := 17.
Definition MMC_CMD_READ_MULTIPLE_BLOCK : Z := 18.
Definition MMC_CMD_WRITE_SINGLE_BLOCK : Z := 24.
Definition MMC_CMD_WRITE_MULTIPLE_BLOCK : Z := 25.
Definition SD_CMD_ERASE_WR_BLK_START : Z := 32.
Definition SD_CMD_ERASE_WR_BLK_END : Z := 33.
Definition MMC_CMD_ERASE_GROUP_START : Z := 35.
Definition MMC_CMD_ERASE_GROUP_END : Z := 36.
Definition MMC_CMD_ERASE : Z := 38.
Definition SECURE_ERASE : Z := 0x80000000.
Definition COMM_ERR : Z := -18.
Definition TIMEOUT : Z := -19.
Definition SWITCH_ERR : Z := -21.
Definition MMC_STATUS_MASK : Z := lnotw 32 0x0206BF7F.
Definition MMC_STATUS_SWITCH_ERROR : Z := Z.shiftl 1 7.
Definition MMC_STATUS_RDY_FOR_DATA : Z := Z.shiftl 1 8.
Definition MMC_STATUS_CURR_STATE : Z := Z.shiftl 0xf 9.
Definition MMC_STATE_PRG : Z := Z.shiftl 7 9.
Definition SD_VERSION_SD : Z := 0x20000.
Definition EMMCKEY_RESERVE_OFFSET : Z := 0x4000.
Definition MMC_RESERVED_OFFSET : Z := 36 * 0x100000.
Definition MMC_BLOCK_SIZE : Z := 512.
Definition DISPROTECT_KEY : Z := 1.

(** The fields of [struct mmc], its configuration and its [block_dev] that are
    used; [is_spi] is [mmc_host_is_spi], [emmc_tsd] what [aml_is_emmc_tsd]
    finds in the private data.  Over SPI [mmc_send_status] does not set the
    argument of its command: [spi_arg] is the word that stands there. *)
Record mmc := mkMmc {
  dev_num : Z;
  version : Z;
  high_capacity : bool;
  rca : Z;
  read_bl_len : Z;
  write_bl_len : Z;
  erase_grp_size : Z;
  capacity : Z;
  lba : Z;
  b_max : Z;
  ddr_mode : bool;
  is_spi : bool;
  spi_arg : Z;
  emmc_tsd : bool }.

(** [struct mmc_cmd] without the response, [struct mmc_data] with the bytes of
    a write. *)
Record mmc_cmd := mkCmd { cmdidx : Z; cmdarg : Z }.
Record mmc_data := mkData { blocks : Z; blocksize : Z; src : bytes }.

Record answer (C : Type) := mkAns { err : Z; response : Z; rdata : bytes; host : C }.
Arguments mkAns {C}. Arguments err {C}. Arguments response {C}. Arguments rdata {C}. Arguments host {C}.

(** [mmc->cfg->ops->send_cmd] *)
Class Host (C : Type) := { send_cmd : C -> mmc_cmd -> option mmc_data -> answer C }.

(** ** The protected area *)

Definition key_start_blk : Z := (EMMCKEY_RESERVE_OFFSET + MMC_RESERVED_OFFSET) / MMC_BLOCK_SIZE.
Definition key_end_blk : Z := (EMMCKEY_RESERVE_OFFSET + MMC_RESERVED_OFFSET + 256 * 1024) / MMC_BLOCK_SIZE - 1.

(** [store] is CONFIG_STORE_COMPATIBLE. *)
Definition emmckey_is_access_range_legal (store : bool) (info_disprotect : Z) (m : mmc) (start blkcnt : Z) : bool :=
  if emmc_tsd m && store then
    if Z.land info_disprotect DISPROTECT_KEY =? 0 then
      negb ((key_start_blk <=? u64 (start + blkcnt - 1)) && (start <=? key_end_blk))
    else true
  else true.

Section block.
Context {C : Type} `{Host C} (store : bool) (info_disprotect : Z).

Definition mmc_send_cmd (c : C) (cmd : mmc_cmd) (data : option mmc_data) : answer C := send_cmd c cmd data.

(** The polls of [mmc_send_status] from the value [n] of [timeout] on. *)
Fixpoint status_loop (n : nat) (cmd : mmc_cmd) (retries : Z) (c : C) : Z * C :=
  let a := mmc_send_cmd c cmd None in
  let again retries :=
    match n with O => (TIMEOUT, host a) | S n' => status_loop n' cmd retries (host a) end in
  if err a =? 0 then
    if negb (Z.land (response a) MMC_STATUS_RDY_FOR_DATA =? 0) &&
       negb (Z.land (response a) MMC_STATUS_CURR_STATE =? MMC_STATE_PRG)
    then
      match n with
      | O => (TIMEOUT, host a)
      | S _ => (if negb (Z.land (response a) MMC_STATUS_SWITCH_ERROR =? 0) then SWITCH_ERR else 0, host a)
      end
    else if negb (Z.land (response a) MMC_STATUS_MASK =? 0) then (COMM_ERR, host a)
    else again retries
  else if retries - 1 <? 0 then (err a, host a)
  else again (retries - 1).

Definition mmc_send_status (m : mmc) (c : C) (timeout : nat) : Z * C :=
  status_loop timeout
    (mkCmd MMC_CMD_SEND_STATUS (if is_spi m then spi_arg m else u32 (Z.shiftl (rca m) 16))) 5 c.

Definition mmc_set_blocklen (m : mmc) (c : C) (len : Z) : Z * C :=
  if ddr_mode m then (0, c)
  else let a := mmc_send_cmd c (mkCmd MMC_CMD_SET_BLOCKLEN (u32 len)) None in (err a, host a).

Fixpoint find_mmc_device (devs : list mmc) (num : Z) : option mmc :=
  match devs with
  | [] => None
  | m :: devs' => if dev_num m =? num then Some m else find_mmc_device devs' num
  end.

(** The block address as the card expects it. *)
Definition block_arg (m : mmc) (bl start : Z) : Z := if high_capacity m then u32 start else u32 (start * bl).

(** The result is an [int]. *)
Definition mmc_read_blocks (m : mmc) (c : C) (start blkcnt : Z) : Z * bytes * C :=
  let idx := if 1 <? blkcnt then MMC_CMD_READ_MULTIPLE_BLOCK else MMC_CMD_READ_SINGLE_BLOCK in
  let a := mmc_send_cmd c (mkCmd idx (block_arg m (read_bl_len m) start))
             (Some (mkData (u32 blkcnt) (read_bl_len m) [])) in
  if 1 <? blkcnt then
    let b := mmc_send_cmd (host a) (mkCmd MMC_CMD_STOP_TRANSMISSION 0) None in
    if negb (err b =? 0) then (0, rdata a, host b)
    else if negb (err a =? 0) then (0, rdata a, host b) else (s32 blkcnt, rdata a, host b)
  else if negb (err a =? 0) then (0, rdata a, host a) else (s32 blkcnt, rdata a, host a).

(** The loop of [mmc_bread]; every round takes a block or more when
    [0 < b_max], so the count is enough fuel. *)
Fixpoint bread_loop (fuel : nat) (m : mmc) (c : C) (start blocks_todo : Z) (acc : bytes) :
  option (bool * bytes * C) :=
  match fuel with
  | O => None
  | S fuel' =>
      let cur := if b_max m <? blocks_todo then b_max m else blocks_todo in
      let '(r, data, c) := mmc_read_blocks m c start cur in
      if negb (u64 r =? cur) then Some (false, acc ++ data, c)
      else if 0 <? blocks_todo - cur
           then bread_loop fuel' m c (u64 (start + cur)) (blocks_todo - cur) (acc ++ data)
           else Some (true, acc ++ data, c)
  end.

Definition mmc_bread (devs : list mmc) (num : Z) (c : C) (start blkcnt : Z) : option (Z * bytes * C) :=
  if blkcnt =? 0 then Some (0, [], c)
  else
    match find_mmc_device devs num with
    | None => Some (0, [], c)
    | Some m =>
        if lba m <? u64 (start + blkcnt) then Some (0, [], c)
        else if negb (emmckey_is_access_range_legal store info_disprotect m start blkcnt) then Some (0, [], c)
        else
          let '(r, c) := mmc_set_blocklen m c (read_bl_len m) in
          if negb (r =? 0) then Some (0, [], c)
          else
            '(ok, data, c) ← bread_loop (S (Z.to_nat blkcnt)) m c start blkcnt [];
            Some (if ok : bool then blkcnt else 0, data, c)
    end.

(** ** Writing *)

Definition mmc_write_blocks (m : mmc) (c : C) (start blkcnt : Z) (src : bytes) : Z * C :=
  if lba m <? u64 (start + blkcnt) then (0, c)
  else if blkcnt =? 0 then (0, c)
  else
    let idx := if blkcnt =? 1 then MMC_CMD_WRITE_SINGLE_BLOCK else MMC_CMD_WRITE_MULTIPLE_BLOCK in
    let a := mmc_send_cmd c (mkCmd idx (block_arg m (write_bl_len m) start))
               (Some (mkData (u32 blkcnt) (write_bl_len m) src)) in
    let '(stopped, c) :=
      if negb (is_spi m) && (1 <? blkcnt) then
        let b := mmc_send_cmd (host a) (mkCmd MMC_CMD_STOP_TRANSMISSION 0) None in (err b =? 0, host b)
      else (true, host a) in
    if negb stopped then (0, c)
    else if negb (err a =? 0) then (0, c)
    else
      let '(r, c) := mmc_send_status m c 1000 in
      if negb (r =? 0) then (0, c) else (blkcnt, c).

Fixpoint bwrite_loop (fuel : nat) (m : mmc) (c : C) (start blocks_todo : Z) (src : bytes) : option (bool * C) :=
  match fuel with
  | O => None
  | S fuel' =>
      let cur := if b_max m <? blocks_todo then b_max m else blocks_todo in
      let len := Z.to_nat (cur * write_bl_len m) in
      let '(r, c) := mmc_write_blocks m c start cur (take len src) in
      if negb (r =? cur) then Some (false, c)
      else if 0 <? blocks_todo - cur
           then bwrite_loop fuel' m c (u64 (start + cur)) (blocks_todo - cur) (drop len src)
           else Some (true, c)
  end.

Definition mmc_bwrite (devs : list mmc) (num : Z) (c : C) (start blkcnt : Z) (src : bytes) : option (Z * C) :=
  match find_mmc_device devs num with
  | None => Some (0, c)
  | Some m =>
      if negb (emmckey_is_access_range_legal store info_disprotect m start blkcnt) then Some (0, c)
      else
        let '(r, c) := mmc_set_blocklen m c (write_bl_len m) in
        if negb (r =? 0) then Some (0, c)
        else
          '(ok, c) ← bwrite_loop (S (Z.to_nat blkcnt)) m c start blkcnt src;
          Some (if ok : bool then blkcnt else 0, c)
  end.

(** ** Erasing *)

Definition mmc_erase_t (m : mmc) (c : C) (start blkcnt : Z) : Z * C :=
  let '(start, end_) := if high_capacity m then (start, u64 (start + blkcnt - 1))
                        else (u64 (start * write_bl_len m), u64 ((start + blkcnt - 1) * write_bl_len m)) in
  let '(start_cmd, end_cmd) :=
    if negb (Z.land (version m) SD_VERSION_SD =? 0) then (SD_CMD_ERASE_WR_BLK_START, SD_CMD_ERASE_WR_BLK_END)
    else (MMC_CMD_ERASE_GROUP_START, MMC_CMD_ERASE_GROUP_END) in
  let a := mmc_send_cmd c (mkCmd start_cmd (u32 start)) None in
  if negb (err a =? 0) then (err a, host a)
  else
    let b := mmc_send_cmd (host a) (mkCmd end_cmd (u32 end_)) None in
    if negb (err b =? 0) then (err b, host b)
    else
      let d := mmc_send_cmd (host b) (mkCmd MMC_CMD_ERASE SECURE_ERASE) None in
      if negb (err d =? 0) then (err d, host d) else (0, host d).

(** The result is the return value of [mmc_berase]. *)
Fixpoint erase_loop (fuel : nat) (m : mmc) (c : C) (start blk blkcnt : Z) : option (Z * C) :=
  if blk <? blkcnt then
    match fuel with
    | O => None
    | S fuel' =>
        let blk_r := if blkcnt - blk <? erase_grp_size m then erase_grp_size m else blkcnt - blk in
        let '(r, c) := mmc_erase_t m c (u64 (start + blk)) blk_r in
        if negb (r =? 0) then Some (0, c)
        else
          let '(s, c) := mmc_send_status m c 1000 in
          if negb (s =? 0) then Some (1, c) else erase_loop fuel' m c start (u64 (blk + blk_r)) blkcnt
    end
  else Some (0, c).

Definition mmc_berase (devs : list mmc) (num : Z) (c : C) (start blkcnt : Z) : option (Z * C) :=
  match find_mmc_device devs num with
  | None => Some (u64 (-1), c)
  | Some m =>
      if negb (emmckey_is_access_range_legal store info_disprotect m start blkcnt) then Some (blkcnt, c)
      else if erase_grp_size m =? 0 then None
      else
        let blkcnt := if blkcnt =? 0 then capacity m / 512 - (capacity m / 512) mod erase_grp_size m else blkcnt in
        erase_loop (S (Z.to_nat blkcnt)) m c start 0 blkcnt
  end.

End block.
(** ** What the block layer relies on *)

Definition read_idx (n : Z) : Z := if 1 <? n then MMC_CMD_READ_MULTIPLE_BLOCK else MMC_CMD_READ_SINGLE_BLOCK.
Definition write_idx (n : Z) : Z := if n =? 1 then MMC_CMD_WRITE_SINGLE_BLOCK else MMC_CMD_WRITE_MULTIPLE_BLOCK.

(** A transfer of [n] blocks from [s] that one command may carry. *)
Definition valid (m : mmc) (s n : Z) : Prop := 0 <= s /\ 0 < n <= b_max m /\ s + n <= lba m.

(** The commands without data that are sent between transfers. *)
Definition control (idx : Z) : bool :=
  (idx =? MMC_CMD_STOP_TRANSMISSION) || (idx =? MMC_CMD_SEND_STATUS) || (idx =? MMC_CMD_SET_BLOCKLEN).

Definition read_ans {C} `{Host C} (m : mmc) (c : C) (s n : Z) : answer C :=
  send_cmd c (mkCmd (read_idx n) (block_arg m (read_bl_len m) s)) (Some (mkData (u32 n) (read_bl_len m) [])).
Definition write_ans {C} `{Host C} (m : mmc) (c : C) (s n : Z) (src : bytes) : answer C :=
  send_cmd c (mkCmd (write_idx n) (block_arg m (write_bl_len m) s)) (Some (mkData (u32 n) (write_bl_len m) src)).

(** A status word of a card that takes data. *)
Definition status_ready (r : Z) : bool :=
  negb (Z.land r MMC_STATUS_RDY_FOR_DATA =? 0) && negb (Z.land r MMC_STATUS_CURR_STATE =? MMC_STATE_PRG) &&
  (Z.land r MMC_STATUS_SWITCH_ERROR =? 0).

(** The promise of a host with its card.  [cblock c b] is block [b] of the card.
    Any host: a read changes nothing and without an error delivers the blocks;
    a write changes no block but the named ones, and these as told unless there
    is an error; control commands change no block.  A [ready] card, and every command leaves it
    ready, accepts valid transfers and control commands and reports so. *)
Class HostSpec (C : Type) `{Host C} (m : mmc) := {
  cblock : C -> Z -> bytes;
  ready : C -> Prop;
  cblock_length : forall c b, Z.of_nat (length (cblock c b)) = read_bl_len m;
  cblock_bytes : forall c b, Forall byte_ok (cblock c b);
  host_read : forall c s n, valid m s n -> err (read_ans m c s n) = 0 ->
    rdata (read_ans m c s n) = run cblock c s (Z.to_nat n);
  host_read_frame : forall c s n b, valid m s n -> cblock (host (read_ans m c s n)) b = cblock c b;
  host_write : forall c s n src, valid m s n -> Z.of_nat (length src) = n * read_bl_len m -> Forall byte_ok src ->
    err (write_ans m c s n src) = 0 -> run cblock (host (write_ans m c s n src)) s (Z.to_nat n) = src;
  host_write_frame : forall c s n src b, valid m s n -> b < s \/ s + n <= b ->
    cblock (host (write_ans m c s n src)) b = cblock c b;
  host_control : forall c cmd b, control (cmdidx cmd) = true -> cblock (host (send_cmd c cmd None)) b = cblock c b;
  ready_any : forall c cmd data, ready c -> ready (host (send_cmd c cmd data));
  ready_read : forall c s n, ready c -> valid m s n -> err (read_ans m c s n) = 0;
  ready_write : forall c s n src, ready c -> valid m s n -> err (write_ans m c s n src) = 0;
  ready_control : forall c cmd, ready c -> control (cmdidx cmd) = true -> err (send_cmd c cmd None) = 0;
  ready_status : forall c arg, ready c ->
    status_ready (response (send_cmd c (mkCmd MMC_CMD_SEND_STATUS arg) None)) = true }.

(** A card description that the block layer can drive: equal block lengths, a
    host that moves blocks, and byte addresses that fit a command on a card
    that is not of high capacity. *)
Record mmc_ok (m : mmc) : Prop := {
  mo_bl : 0 < read_bl_len m < 2 ^ 32;
  mo_write : write_bl_len m = read_bl_len m;
  mo_max : 0 < b_max m < 2 ^ 31;
  mo_lba : 0 <= lba m < 2 ^ 32;
  mo_addr : high_capacity m = true \/ lba m * read_bl_len m <= 2 ^ 32 }.

Section layer.
Context {C : Type} `{HH : Host C} (m : mmc) `{HS : !HostSpec C m} (Hm : mmc_ok m).
Context (store : bool) (prot : Z).

(** The card afterwards: the same blocks, and ready if it was. *)
Record kept (c c' : C) : Prop := {
  kept_block : forall b, cblock c' b = cblock c b;
  kept_ready : ready c -> ready c' }.

Lemma kept_refl c : kept c c.
Proof. by split. Qed.

Lemma kept_trans c1 c2 c3 : kept c1 c2 -> kept c2 c3 -> kept c1 c3.
Proof. intros [B1 R1] [B2 R2]; split; [intros b; by rewrite B2|auto]. Qed.

Lemma kept_control c cmd : control (cmdidx cmd) = true -> kept c (host (send_cmd c cmd None)).
Proof. intros Hc; split; [intros b; by apply host_control|apply ready_any]. Qed.

Lemma kept_read c s n : valid m s n -> kept c (host (read_ans m c s n)).
Proof. intros Hv; split; [intros b; by apply host_read_frame|apply ready_any]. Qed.

Lemma set_blocklen_spec c len : exists r c', mmc_set_blocklen m c len = (r, c') /\ kept c c' /\ (ready c -> r = 0).
Proof.
  unfold mmc_set_blocklen, mmc_send_cmd; destruct (ddr_mode m); [exists 0, c; split; [done|split; [apply kept_refl|done]]|].
  eexists _, _; split; [done|]; split; [by apply kept_control|]; intros Hr; by apply ready_control.
Qed.

(** Waiting for the card always returns, and returns 0 when the card is ready. *)
Lemma status_loop_spec arg n : forall retries c, exists r c',
  status_loop n (mkCmd MMC_CMD_SEND_STATUS arg) retries c = (r, c') /\ kept c c' /\
  (ready c -> (0 < n)%nat -> r = 0).
Proof.
  induction n as [|n IH]; intros retries c; cbn [status_loop]; unfold mmc_send_cmd;
    pose proof (kept_control c (mkCmd MMC_CMD_SEND_STATUS arg) eq_refl) as Hk;
    pose proof (ready_control c (mkCmd MMC_CMD_SEND_STATUS arg)) as He; pose proof (ready_status c arg) as Hs;
    set (a := send_cmd c (mkCmd MMC_CMD_SEND_STATUS arg) None) in *.
  - destruct (err a =? 0); [destruct (_ && _); [|destruct (negb _)]|destruct (_ <? _)];
      (eexists _, _; split; [done|]; split; [done|lia]).
  - destruct (Z.eqb_spec (err a) 0) as [E0|E0].
    + unfold status_ready in Hs.
      destruct (negb (Z.land (response a) MMC_STATUS_RDY_FOR_DATA =? 0) &&
                negb (Z.land (response a) MMC_STATUS_CURR_STATE =? MMC_STATE_PRG)) eqn:Er; cbn [andb] in Hs.
      * eexists _, _; split; [done|]; split; [done|]; intros Hr _; by rewrite (Hs Hr).
      * destruct (negb (Z.land (response a) MMC_STATUS_MASK =? 0));
          [eexists _, _; split; [done|]; split; [done|]; intros Hr _; by specialize (Hs Hr)|].
        destruct (IH retries (host a)) as (r & c' & -> & Hk' & _); eexists _, _; split; [done|].
        split; [by eapply kept_trans|]; intros Hr _; by specialize (Hs Hr).
    + destruct (retries - 1 <? 0);
        [eexists _, _; split; [done|]; split; [done|]; intros Hr _; by destruct E0; apply He|].
      destruct (IH (retries - 1) (host a)) as (r & c' & -> & Hk' & _); eexists _, _; split; [done|].
      split; [by eapply kept_trans|]; intros Hr _; by destruct E0; apply He.
Qed.

Lemma read_blocks_spec c s n : valid m s n -> exists r data c', mmc_read_blocks m c s n = (r, data, c') /\
  kept c c' /\ (r = n \/ r = 0) /\ (r = n -> data = run cblock c s (Z.to_nat n)) /\ (ready c -> r = n).
Proof.
  intros Hv; pose proof Hv as (Hs & Hn & _); destruct Hm as [_ _ Hx _ _]; pose proof (s32_small n) as Hsn; pose proof (kept_read c s n Hv) as Hk.
  pose proof (host_read c s n Hv) as Hd; pose proof (ready_read c s n) as Hr.
  unfold mmc_read_blocks, mmc_send_cmd; rewrite Hsn by lia; fold (read_idx n); fold (read_ans m c s n); set (a := read_ans m c s n) in *.
  set (b := send_cmd (host a) (mkCmd MMC_CMD_STOP_TRANSMISSION 0) None).
  pose proof (kept_trans _ _ _ Hk (kept_control (host a) (mkCmd MMC_CMD_STOP_TRANSMISSION 0) eq_refl)) as Hk2; fold b in Hk2.
  assert (ready c -> err b = 0) as Hb
    by (intros Hc; apply ready_control; [apply (kept_ready _ _ Hk Hc)|done]).
  destruct (1 <? n); [destruct (Z.eqb_spec (err b) 0) as [Eb|Eb]; cbn [negb]|];
    try (destruct (Z.eqb_spec (err a) 0) as [Ea|Ea]; cbn [negb]); eexists _, _, _; (split; [done|]); (split; [done|]);
    (split; [by auto|]); split; (try done || lia); first [by intros _; apply Hd | intros Hc; exfalso; auto].
Qed.
Lemma chunk_cases todo : 0 < todo ->
  let cur := if b_max m <? todo then b_max m else todo in 0 < cur <= b_max m /\ cur <= todo.
Proof. intros Ht; destruct Hm as [_ _ Hx _ _]; cbn zeta; destruct (Z.ltb_spec (b_max m) todo); lia. Qed.

Lemma bread_loop_spec fuel : forall c s todo acc, 0 <= s -> 0 < todo -> s + todo <= lba m ->
  (Z.to_nat todo < fuel)%nat ->
  exists ok data c', bread_loop fuel m c s todo acc = Some (ok, data, c') /\ kept c c' /\
    (ok = true -> data = acc ++ run cblock c s (Z.to_nat todo)) /\ (ready c -> ok = true).
Proof.
  induction fuel as [|fuel IH]; intros c s todo acc Hs Ht Hr Hf; [lia|]; cbn [bread_loop].
  pose proof (chunk_cases todo Ht) as Hcur; cbn zeta in Hcur; set (cur := if b_max m <? todo then _ else _) in *.
  destruct (read_blocks_spec c s cur) as (r & data & c1 & -> & Hk & Hrc & Hd & Hrd); [unfold valid; lia|].
  rewrite (wrap_small 64 r) by (destruct Hm as [_ _ Hx _ _]; lia).
  destruct (Z.eqb_spec r cur) as [->|Hne]; cbn [negb];
    [|by eexists _, _, _; split; [done|]; split; [done|]; split; [done|]; intros Hc; destruct Hne; auto].
  rewrite (Hd eq_refl); destruct (Z.ltb_spec 0 (todo - cur)) as [Hlt|Hge].
  - destruct Hm as [_ _ Hx Hlba _].
    assert (u64 (s + cur) = s + cur) as -> by (apply wrap_small; lia).
    destruct (IH c1 (s + cur) (todo - cur) (acc ++ run cblock c s (Z.to_nat cur))) as (ok & data' & c2 & -> & Hk2 & Hd2 & Hr2);
      [lia..|].
    eexists _, _, _; split; [done|]; split; [by eapply kept_trans|]; split; [|intros Hc; by apply Hr2, (kept_ready _ _ Hk)].
    intros Hok; rewrite (Hd2 Hok), <- app_assoc; f_equal.
    replace (Z.to_nat todo) with (Z.to_nat cur + Z.to_nat (todo - cur))%nat by lia; rewrite run_app, Z2Nat.id by lia.
    f_equal; apply run_ext; intros b _; apply (kept_block _ _ Hk).
  - replace todo with cur by lia; by eexists _, _, _.
Qed.

(** ** Writing *)

Lemma write_blocks_spec c s n src : 0 <= s -> 0 < n <= b_max m -> Z.of_nat (length src) = n * read_bl_len m ->
  Forall byte_ok src -> s + n < 2 ^ 64 ->
  exists r c', mmc_write_blocks m c s n src = (r, c') /\ (ready c -> ready c') /\
    (forall b, b < s \/ s + n <= b -> cblock c' b = cblock c b) /\ (r = n \/ r = 0) /\
    (r = n -> s + n <= lba m /\ run cblock c' s (Z.to_nat n) = src) /\
    (ready c -> s + n <= lba m -> r = n).
Proof.
  intros Hs Hn Hl Fb Ho; unfold mmc_write_blocks, mmc_send_cmd; rewrite (wrap_small 64 (s + n)) by lia.
  destruct (Z.ltb_spec (lba m) (s + n)) as [Hgt|Hin];
    [exists 0, c; split; [done|]; split; [done|]; split; [done|]; split; [by right|]; split; intros; lia|].
  destruct (Z.eqb_spec n 0); [lia|]; fold (write_idx n); fold (write_ans m c s n src).
  assert (valid m s n) as Hv by (unfold valid; lia).
  pose proof (host_write c s n src Hv Hl Fb) as Hw; pose proof (fun b => host_write_frame c s n src b Hv) as Hfr.
  pose proof (fun Hc => ready_write c s n src Hc Hv) as Hrw.
  assert (ready c -> ready (host (write_ans m c s n src))) as Hra by apply ready_any.
  set (a := write_ans m c s n src) in *; set (b := send_cmd (host a) (mkCmd MMC_CMD_STOP_TRANSMISSION 0) None).
  pose proof (kept_control (host a) (mkCmd MMC_CMD_STOP_TRANSMISSION 0) eq_refl) as Hkb; fold b in Hkb.
  assert (ready c -> err b = 0) as Hb by (intros Hc; apply ready_control; [auto|done]).
  assert (exists st c1, (if negb (is_spi m) && (1 <? n) then (err b =? 0, host b) else (true, host a)) = (st, c1) /\
    kept (host a) c1 /\ (ready c -> st = true)) as (st & c1 & -> & Hk1 & Hst).
  { destruct (negb (is_spi m) && (1 <? n)); [eexists _, _; split; [done|]; split; [done|]; intros Hc; by rewrite (Hb Hc)|].
    eexists _, _; split; [done|]; split; [apply kept_refl|done]. }
  destruct (status_loop_spec (if is_spi m then spi_arg m else u32 (Z.shiftl (rca m) 16)) 1000 5 c1) as (r & c2 & Es & Hk2 & Hr2).
  pose proof (kept_trans _ _ _ Hk1 Hk2) as Hk; pose proof (kept_ready _ _ Hk1) as Hrd1; pose proof (kept_ready _ _ Hk2) as Hrd2.
  assert (forall x, x < s \/ s + n <= x -> cblock c1 x = cblock c x) as Hf1
    by (intros x Hx; rewrite (kept_block _ _ Hk1); by apply Hfr).
  assert (forall x, x < s \/ s + n <= x -> cblock c2 x = cblock c x) as Hf2
    by (intros x Hx; rewrite (kept_block _ _ Hk); by apply Hfr).
  destruct st; cbn [negb]; [|by eexists _, _; split; [done|]; split; [auto|]; split; [done|]; split; [by right|]; split; [lia|]; intros Hc; specialize (Hst Hc)].
  destruct (Z.eqb_spec (err a) 0) as [Ea|Ea]; cbn [negb];
    [|by eexists _, _; split; [done|]; split; [auto|]; split; [done|]; split; [by right|]; split; [lia|]; intros Hc; destruct Ea; auto].
  unfold mmc_send_status; rewrite Es; destruct (Z.eqb_spec r 0) as [->|Er]; cbn [negb].
  - eexists _, _; split; [done|]; split; [auto|]; split; [done|]; split; [by left|]; split; [|done]; intros _; split; [done|].
    etransitivity; [|exact (Hw Ea)]; apply run_ext; intros x _; apply (kept_block _ _ Hk).
  - eexists _, _; split; [done|]; split; [auto|]; split; [done|]; split; [by right|]; split; [lia|].
    intros Hc; destruct Er; apply Hr2; [auto|lia].
Qed.
Lemma bwrite_loop_spec fuel : forall c s todo src, 0 <= s -> 0 < todo -> s + todo < 2 ^ 64 ->
  Z.of_nat (length src) = todo * read_bl_len m -> Forall byte_ok src -> (Z.to_nat todo < fuel)%nat ->
  exists ok c', bwrite_loop fuel m c s todo src = Some (ok, c') /\ (ready c -> ready c') /\
    (forall b, b < s \/ s + todo <= b -> cblock c' b = cblock c b) /\
    (ok = true -> s + todo <= lba m /\ run cblock c' s (Z.to_nat todo) = src) /\
    (ready c -> s + todo <= lba m -> ok = true).
Proof.
  induction fuel as [|fuel IH]; intros c s todo src Hs Ht Ho Hl Fb Hf; [lia|]; cbn [bwrite_loop].
  pose proof (chunk_cases todo Ht) as Hcur; cbn zeta in Hcur; set (cur := if b_max m <? todo then _ else _) in *.
  destruct Hm as [Hbl Hwb _ _ _]; rewrite Hwb; set (len := Z.to_nat (cur * read_bl_len m)).
  assert (cur * read_bl_len m <= todo * read_bl_len m) as Hle by (apply Z.mul_le_mono_nonneg_r; lia).
  assert (0 <= cur * read_bl_len m) as Hpos by (apply Z.mul_nonneg_nonneg; lia).
  destruct (write_blocks_spec c s cur (take len src)) as (r & c1 & -> & Hrd & Hfr & Hrc & Hok & Hrr);
    [lia|lia|rewrite length_take; unfold len; lia|by apply Forall_take|lia|].
  destruct (Z.eqb_spec r cur) as [->|Hne]; cbn [negb];
    [|by eexists _, _; split; [done|]; split; [done|]; split; [intros b Hb; apply Hfr; lia|]; split; [done|]; intros Hc Hin; destruct Hne; apply Hrr; [done|lia]].
  destruct (Hok eq_refl) as (Hin & Hrun); destruct (Z.ltb_spec 0 (todo - cur)) as [Hlt|Hge].
  - rewrite (wrap_small 64 (s + cur)) by lia.
    destruct (IH c1 (s + cur) (todo - cur) (drop len src)) as (ok & c2 & -> & Hrd2 & Hfr2 & Hok2 & Hrr2);
      [lia|lia|lia|rewrite length_drop, Z.mul_sub_distr_r; unfold len; lia|by apply Forall_drop|lia|].
    eexists _, _; split; [done|]; split; [auto|]; split; [intros b Hb; rewrite Hfr2 by lia; apply Hfr; lia|].
    split; [|intros Hc Hi; apply Hrr2; [auto|lia]].
    intros Ht2; destruct (Hok2 Ht2) as (Hin2 & Hrun2); split; [lia|].
    replace (Z.to_nat todo) with (Z.to_nat cur + Z.to_nat (todo - cur))%nat by lia; rewrite run_app, Z2Nat.id, Hrun2 by lia.
    rewrite (run_ext cblock c1); [by rewrite Hrun, take_drop|]; intros b Hb; apply Hfr2; lia.
  - replace todo with cur in * by lia; eexists _, _; split; [done|]; split; [done|]; split; [done|]; split; [|done]; intros _.
    split; [done|]; rewrite Hrun; apply firstn_all2; unfold len; lia.
Qed.

(** ** The operations *)

Definition legal (s n : Z) : bool := emmckey_is_access_range_legal store prot m s n.

Lemma find_self : find_mmc_device [m] (dev_num m) = Some m.
Proof. cbn [find_mmc_device]; by rewrite Z.eqb_refl. Qed.

(** The range that the layer serves. *)
Definition served (s n : Z) : Prop := 0 <= s /\ 0 < n /\ s + n <= lba m /\ legal s n = true.

Lemma bread_spec c s n : addressable s n -> exists r data c',
  mmc_bread store prot [m] (dev_num m) c s n = Some (r, data, c') /\ kept c c' /\ (r = n \/ r = 0) /\
  (r <> 0 -> served s n /\ data = run cblock c s (Z.to_nat n)) /\ (ready c -> served s n -> r <> 0).
Proof.
  intros (Hs & Hn & Ho); unfold mmc_bread; rewrite find_self, (wrap_small 64 (s + n)) by lia.
  destruct (Z.eqb_spec n 0); [lia|]; fold (legal s n).
  destruct (Z.ltb_spec (lba m) (s + n)) as [Hgt|Hin];
    [eexists _, _, _; split; [done|]; split; [apply kept_refl|]; split; [by right|]; split; [done|]; intros _ (_ & _ & ? & _); lia|].
  destruct (legal s n) eqn:El; cbn [negb];
    [|eexists _, _, _; split; [done|]; split; [apply kept_refl|]; split; [by right|]; split; [done|]; unfold served; rewrite El; by intros _ (_ & _ & _ & ?)].
  destruct (set_blocklen_spec c (read_bl_len m)) as (r & c1 & -> & Hk1 & Hr1).
  destruct (Z.eqb_spec r 0) as [->|Hne]; cbn [negb];
    [|eexists _, _, _; split; [done|]; split; [done|]; split; [by right|]; split; [done|]; intros Hc; destruct Hne; auto].
  destruct (bread_loop_spec (S (Z.to_nat n)) c1 s n []) as (ok & data & c2 & -> & Hk2 & Hd & Hr2); [lia..|].
  cbn [mbind option_bind]; eexists _, _, _; split; [done|]; split; [by eapply kept_trans|].
  split; [by destruct ok; [left|right]|]; split.
  - destruct ok; [|done]; intros _; split; [by split|]; rewrite (Hd eq_refl); cbn [app].
    apply run_ext; intros b _; apply (kept_block _ _ Hk1).
  - intros Hc _; rewrite (Hr2 (kept_ready _ _ Hk1 Hc)); lia.
Qed.

Lemma bwrite_spec c s n src : addressable s n -> Z.of_nat (length src) = n * read_bl_len m -> Forall byte_ok src ->
  exists r c', mmc_bwrite store prot [m] (dev_num m) c s n src = Some (r, c') /\ (ready c -> ready c') /\
    (forall b, b < s \/ s + n <= b -> cblock c' b = cblock c b) /\ (legal s n = false -> c' = c) /\
    (r = n \/ r = 0) /\ (r <> 0 -> served s n /\ run cblock c' s (Z.to_nat n) = src) /\
    (ready c -> served s n -> r <> 0).
Proof.
  intros (Hs & Hn & Ho) Hl Fb; unfold mmc_bwrite; rewrite find_self; fold (legal s n).
  destruct (legal s n) eqn:El; cbn [negb]; [|by eexists _, _; split; [done|]; repeat split; try done; [by right|];
    unfold served; rewrite El; intros _ (_ & _ & _ & ?)].
  destruct (set_blocklen_spec c (write_bl_len m)) as (r & c1 & -> & Hk1 & Hr1).
  destruct (Z.eqb_spec r 0) as [->|Hne]; cbn [negb].
  2: { eexists _, _; split; [done|]; split; [apply Hk1|]; split; [intros b _; apply (kept_block _ _ Hk1)|].
       split; [done|]; split; [by right|]; split; [done|]; intros Hc; destruct Hne; auto. }
  destruct (bwrite_loop_spec (S (Z.to_nat n)) c1 s n src) as (ok & c2 & -> & Hrd & Hfr & Hok & Hr2); [lia|lia|lia|done|done|lia|].
  cbn [mbind option_bind]; eexists _, _; split; [done|]; split; [intros Hc; by apply Hrd, (kept_ready _ _ Hk1)|].
  split; [intros b Hb; rewrite Hfr by done; apply (kept_block _ _ Hk1)|]; split; [done|].
  split; [by destruct ok; [left|right]|]; split.
  - destruct ok; [|done]; intros _; destruct (Hok eq_refl) as (Hin & Hrun); by split.
  - intros Hc (_ & _ & Hin & _); rewrite (Hr2 (kept_ready _ _ Hk1 Hc) Hin); lia.
Qed.
(** ** The block layer as a block device *)

(** [block_dev.block_read] and [block_dev.block_write] of the device [m]. *)
Definition mmc_dev : BlockDev C := {|
  block_read c s n := default (0, [], c) (mmc_bread store prot [m] (dev_num m) c s n);
  block_write c s n src := default (0, c) (mmc_bwrite store prot [m] (dev_num m) c s n src) |}.

Lemma mmc_dev_read c s n : addressable s n -> let d := mmc_dev in
  kept c (read_dev c s n) /\
  (read_ret c s n <> 0 -> served s n /\ read_data c s n = run cblock c s (Z.to_nat n)) /\
  (ready c -> served s n -> read_ret c s n <> 0).
Proof.
  intros Ha d; destruct (bread_spec c s n Ha) as (r & data & c' & E & Hk & _ & Hd & Hr).
  unfold read_dev, read_ret, read_data; cbn [block_read d mmc_dev]; rewrite E; done.
Qed.

Lemma mmc_dev_write c s n src : addressable s n -> Z.of_nat (length src) = n * read_bl_len m -> Forall byte_ok src ->
  let d := mmc_dev in (ready c -> ready (write_dev c s n src)) /\
  (forall b, b < s \/ s + n <= b -> cblock (write_dev c s n src) b = cblock c b) /\
  (write_ret c s n src <> 0 -> served s n /\ run cblock (write_dev c s n src) s (Z.to_nat n) = src) /\
  (ready c -> served s n -> write_ret c s n src <> 0).
Proof.
  intros Ha Hl Fb d; destruct (bwrite_spec c s n src Ha Hl Fb) as (r & c' & E & Hrd & Hfr & _ & _ & Hw & Hr).
  unfold write_dev, write_ret; cbn [block_write d mmc_dev]; rewrite E; done.
Qed.

Lemma legal_sub s n s' n' : addressable s n -> s <= s' -> 0 < n' -> s' + n' <= s + n ->
  legal s n = true -> legal s' n' = true.
Proof.
  intros (Hs & Hn & Ho) Hle Hn' He; unfold legal, emmckey_is_access_range_legal.
  destruct (emmc_tsd m && store); [|done]; destruct (Z.land prot DISPROTECT_KEY =? 0); [|done].
  rewrite !wrap_small by lia; rewrite !negb_true_iff, !andb_false_iff, !Z.leb_gt; lia.
Qed.

(** The block layer keeps the promise of a block device. *)
#[program] Definition mmc_dev_spec : @BlockDevSpec C mmc_dev (read_bl_len m) := {|
  block := cblock; good := ready; in_range _ s n := addressable s n /\ served s n |}.
Next Obligation. apply cblock_length. Qed.
Next Obligation. apply cblock_bytes. Qed.
Next Obligation. intros d s n Ha Hr; by apply (mmc_dev_read d s n Ha). Qed.
Next Obligation. intros d s n b Ha; apply (mmc_dev_read d s n Ha). Qed.
Next Obligation. intros d s n src Ha Hl Fb Hr; by apply (mmc_dev_write d s n src Ha Hl Fb). Qed.
Next Obligation. intros d s n src b Ha Hl Fb Hb Hr; by apply (mmc_dev_write d s n src Ha Hl Fb). Qed.
Next Obligation. intros d s n Ha Hg; by apply (mmc_dev_read d s n Ha). Qed.
Next Obligation. intros d s n src Ha Hl Fb Hg; by apply (mmc_dev_write d s n src Ha Hl Fb). Qed.
Next Obligation. done. Qed.
Next Obligation. done. Qed.
Next Obligation.
  intros d s n s' n' (Ha & Hs & Hn & Hin & Hl) Hle Hn' He; pose proof Ha as (_ & _ & Ho).
  split; [unfold addressable; lia|]; split; [lia|]; split; [done|]; split; [lia|]; by apply (legal_sub s n).
Qed.
Next Obligation.
  intros d s n Ha Hg; split; [intros Hr; split; [done|by apply (mmc_dev_read d s n Ha)]|].
  intros [_ Hsv]; by apply (mmc_dev_read d s n Ha).
Qed.
Next Obligation.
  intros d s n src Ha Hl Fb Hg; split; [intros Hr; split; [done|by apply (mmc_dev_write d s n src Ha Hl Fb)]|].
  intros [_ Hsv]; by apply (mmc_dev_write d s n src Ha Hl Fb).
Qed.

(** C12: Reading and writing through the MMC layer, whatever the number of blocks the
    host moves per command: [mmc_bread] and [mmc_bwrite] of an addressable
    range return, with the number of blocks or 0.  A read changes no block and,
    unless it returns 0, delivers the blocks of the range; a write changes no
    block outside the range and, unless it returns 0, makes the blocks of the
    range the bytes given; and on a card that is ready both succeed on every range that lies on the card
    and does not touch the protected key area. *)
Theorem block_layer_correct c s n src : addressable s n ->
  Z.of_nat (length src) = n * read_bl_len m -> Forall byte_ok src ->
  (exists r data c', mmc_bread store prot [m] (dev_num m) c s n = Some (r, data, c') /\
     (forall b, cblock c' b = cblock c b) /\ (r = n \/ r = 0) /\
     (r <> 0 -> served s n /\ data = run cblock c s (Z.to_nat n)) /\ (ready c -> served s n -> r <> 0)) /\
  (exists r c', mmc_bwrite store prot [m] (dev_num m) c s n src = Some (r, c') /\
     (forall b, b < s \/ s + n <= b -> cblock c' b = cblock c b) /\ (r = n \/ r = 0) /\
     (r <> 0 -> served s n /\ run cblock c' s (Z.to_nat n) = src) /\ (ready c -> served s n -> r <> 0)).
Proof.
  intros Ha Hl Fb; split.
  - destruct (bread_spec c s n Ha) as (r & data & c' & E & [Hk _] & H); by exists r, data, c'.
  - destruct (bwrite_spec c s n src Ha Hl Fb) as (r & c' & E & _ & Hfr & _ & H); by exists r, c'.
Qed.

End layer.
(** ** The protected area stays as it is *)

Inductive op :=
  | Bread (start blkcnt : Z)
  | Bwrite (start blkcnt : Z) (src : bytes).

(** One call of the layer: the value it returns and the card afterwards. *)
Definition exec {C} `{Host C} (store : bool) (prot : Z) (m : mmc) (c : C) (o : op) : option (Z * C) :=
  match o with
  | Bread s n => '(r, _, c) ← mmc_bread store prot [m] (dev_num m) c s n; Some (r, c)
  | Bwrite s n src => mmc_bwrite store prot [m] (dev_num m) c s n src
  end.

Fixpoint exec_all {C} `{Host C} (store : bool) (prot : Z) (m : mmc) (c : C) (os : list op) : option (list Z * C) :=
  match os with
  | [] => Some ([], c)
  | o :: os => '(r, c) ← exec store prot m c o; '(rs, c) ← exec_all store prot m c os; Some (r :: rs, c)
  end.

Definition op_range (o : op) : Z * Z := match o with Bread s n | Bwrite s n _ => (s, n) end.

Definition op_ok (m : mmc) (o : op) : Prop :=
  addressable (op_range o).1 (op_range o).2 /\
  match o with
  | Bread _ _ => True
  | Bwrite _ n src => Z.of_nat (length src) = n * read_bl_len m /\ Forall byte_ok src
  end.

Definition in_key (b : Z) : Prop := key_start_blk <= b <= key_end_blk.
Definition touches_key (o : op) : Prop := exists b, in_key b /\ (op_range o).1 <= b < (op_range o).1 + (op_range o).2.

Definition protected (store : bool) (prot : Z) (m : mmc) : Prop :=
  emmc_tsd m = true /\ store = true /\ Z.land prot DISPROTECT_KEY = 0.

Lemma legal_protected store prot m s n : protected store prot m -> addressable s n ->
  legal m store prot s n = true <-> s + n <= key_start_blk \/ key_end_blk < s.
Proof.
  intros (Ht & -> & Hp) (Hs & Hn & Ho); unfold legal, emmckey_is_access_range_legal; rewrite Ht, Hp; cbn [andb].
  rewrite Z.eqb_refl, wrap_small, negb_true_iff, andb_false_iff, !Z.leb_gt by lia; lia.
Qed.

Section keys.
Context {C : Type} `{HH : Host C} (m : mmc) `{HS : !HostSpec C m} (Hm : mmc_ok m).
Context (store : bool) (prot : Z) (Hp : protected store prot m).

Lemma exec_key c o : op_ok m o -> exists r c', exec store prot m c o = Some (r, c') /\
  (touches_key o -> r = 0) /\ forall b, in_key b -> cblock c' b = cblock c b.
Proof.
  destruct o as [s n|s n src]; intros (Ha & Ho); cbn [op_range fst snd] in Ha; cbn [exec].
  - destruct (bread_spec m Hm store prot c s n Ha) as (r & data & c' & -> & [Hk _] & _ & Hr & _).
    exists r, c'; split; [done|]; split; [|by intros b _]; intros (b & Hb & Hin); cbn [op_range fst snd] in Hin.
    destruct (Z.eq_dec r 0) as [|Hne]; [done|]; destruct (Hr Hne) as [(_ & _ & _ & Hl) _].
    apply (legal_protected _ _ _ _ _ Hp Ha) in Hl; unfold in_key in Hb; lia.
  - destruct Ho as [Hlen Hby].
    destruct (bwrite_spec m Hm store prot c s n src Ha Hlen Hby) as (r & c' & -> & _ & Hfr & Hill & _ & Hr & _).
    exists r, c'; split; [done|]; split.
    + intros (b & Hb & Hin); cbn [op_range fst snd] in Hin.
      destruct (Z.eq_dec r 0) as [|Hne]; [done|]; destruct (Hr Hne) as [(_ & _ & _ & Hl) _].
      apply (legal_protected _ _ _ _ _ Hp Ha) in Hl; unfold in_key in Hb; lia.
    + intros b Hb; destruct (legal m store prot s n) eqn:El; [|by rewrite (Hill eq_refl)].
      apply (legal_protected _ _ _ _ _ Hp Ha) in El; apply Hfr; unfold in_key in Hb; lia.
Qed.

End keys.

(** ** A host with a card in memory

    512-byte blocks addressed by number.  The card takes [left] more transfers
    (all of them when [left] is [None]) and reports that it is programming for
    the next [busy] polls. *)

Record sd := mkSd { mem : card; e_start : Z; e_end : Z; left : option nat; busy : nat }.

Definition STATUS_TRAN : Z := 0x900.
Definition STATUS_PRG : Z := 0xe00.

Definition sd_transfer (c : sd) (data : bytes) (mem' : card) : answer sd :=
  match left c with
  | None => mkAns 0 STATUS_TRAN data (mkSd mem' (e_start c) (e_end c) None (busy c))
  | Some (S k) => mkAns 0 STATUS_TRAN data (mkSd mem' (e_start c) (e_end c) (Some k) (busy c))
  | Some O => mkAns COMM_ERR 0 [] c
  end.

Definition sd_control (c : sd) (cmd : mmc_cmd) : answer sd :=
  if cmdidx cmd =? MMC_CMD_SEND_STATUS then
    match busy c with
    | O => mkAns 0 STATUS_TRAN [] c
    | S k => mkAns 0 STATUS_PRG [] (mkSd (mem c) (e_start c) (e_end c) (left c) k)
    end
  else if cmdidx cmd =? MMC_CMD_ERASE_GROUP_START
  then mkAns 0 STATUS_TRAN [] (mkSd (mem c) (cmdarg cmd) (e_end c) (left c) (busy c))
  else if cmdidx cmd =? MMC_CMD_ERASE_GROUP_END
  then mkAns 0 STATUS_TRAN [] (mkSd (mem c) (e_start c) (cmdarg cmd) (left c) (busy c))
  else if cmdidx cmd =? MMC_CMD_ERASE
  then let n := e_end c - e_start c + 1 in
       mkAns 0 STATUS_TRAN [] (mkSd (card_put (mem c) (e_start c) n []) (e_start c) (e_end c) (left c) (busy c))
  else mkAns 0 STATUS_TRAN [] c.

#[global] Instance sd_host : Host sd := {
  send_cmd c cmd data :=
    match data with
    | None => sd_control c cmd
    | Some d =>
        if (cmdidx cmd =? MMC_CMD_WRITE_SINGLE_BLOCK) || (cmdidx cmd =? MMC_CMD_WRITE_MULTIPLE_BLOCK)
        then sd_transfer c [] (card_put (mem c) (cmdarg cmd) (blocks d) (src d))
        else sd_transfer c (run card_block (mem c) (cmdarg cmd) (Z.to_nat (blocks d))) (mem c)
    end }.

Definition sd_block (c : sd) (b : Z) : bytes := card_block (mem c) b.
Definition sd_ready (c : sd) : Prop := left c = None /\ busy c = 0%nat.

(** An eMMC of 8 GB on the board. *)
Definition emmc8g : mmc := {|
  dev_num := 1; version := 0x40500; high_capacity := true; rca := 1; read_bl_len := 512; write_bl_len := 512;
  erase_grp_size := 1024; capacity := 15269888 * 512; lba := 15269888; b_max := 256; ddr_mode := true;
  is_spi := false; spi_arg := 0; emmc_tsd := true |}.

Lemma emmc8g_ok : mmc_ok emmc8g.
Proof. split; cbn; lia || by left. Qed.

Lemma emmc8g_arg s n : valid emmc8g s n -> block_arg emmc8g 512 s = s /\ u32 n = n.
Proof. unfold valid, block_arg; cbn; intros Hv; rewrite !wrap_small; lia. Qed.

Lemma sd_read c s n : valid emmc8g s n -> read_ans emmc8g c s n = sd_transfer c (run card_block (mem c) s (Z.to_nat n)) (mem c).
Proof.
  intros Hv; destruct (emmc8g_arg s n Hv) as [Ea En]; unfold read_ans, send_cmd, sd_host; cbn [cmdidx cmdarg blocks].
  change (read_bl_len emmc8g) with 512; rewrite Ea, En; by unfold read_idx; destruct (1 <? n).
Qed.

Lemma sd_write c s n src : valid emmc8g s n -> write_ans emmc8g c s n src = sd_transfer c [] (card_put (mem c) s n src).
Proof.
  intros Hv; destruct (emmc8g_arg s n Hv) as [Ea En]; unfold write_ans, send_cmd, sd_host; cbn [cmdidx cmdarg blocks Mmc.src].
  change (write_bl_len emmc8g) with 512; rewrite Ea, En; by unfold write_idx; destruct (n =? 1).
Qed.

Lemma sd_transfer_mem c data c' : mem (host (sd_transfer c data c')) = c' \/
  err (sd_transfer c data c') <> 0 /\ host (sd_transfer c data c') = c.
Proof. unfold sd_transfer; destruct (left c) as [[|k]|]; cbn; [right|left|left]; done. Qed.

Lemma sd_transfer_ready c data c' : sd_ready c -> sd_ready (host (sd_transfer c data c')) /\ err (sd_transfer c data c') = 0.
Proof. unfold sd_transfer, sd_ready; intros [-> ->]; done. Qed.

Lemma sd_control_kept c cmd : control (cmdidx cmd) = true ->
  mem (host (sd_control c cmd)) = mem c /\ err (sd_control c cmd) = 0.
Proof.
  unfold control; rewrite !orb_true_iff, !Z.eqb_eq; unfold sd_control.
  intros [[->| ->]| ->]; cbn; [done|by destruct (busy c)|done].
Qed.

Lemma sd_control_ready c cmd : sd_ready c -> sd_ready (host (sd_control c cmd)).
Proof.
  intros [Hl Hb]; unfold sd_control, sd_ready; rewrite Hb.
  repeat (destruct (_ =? _); [by split|]); by split.
Qed.

Lemma sd_run c k : forall s, run sd_block c s k = run card_block (mem c) s k.
Proof. induction k as [|k IH]; intros s; cbn [run]; [done|by rewrite IH]. Qed.

#[global] Program Instance sd_spec : HostSpec sd emmc8g := { cblock := sd_block; ready := sd_ready }.
Next Obligation. intros c b; apply card_length. Qed.
Next Obligation. intros c b; apply card_bytes. Qed.
Next Obligation.
  intros c s n Hv; rewrite sd_read, sd_run by done; unfold sd_transfer, COMM_ERR; by destruct (left c) as [[|k]|].
Qed.
Next Obligation.
  intros c s n b Hv; rewrite sd_read by done; unfold sd_block.
  destruct (sd_transfer_mem c (run card_block (mem c) s (Z.to_nat n)) (mem c)) as [-> |[_ ->]]; done.
Qed.
Next Obligation.
  intros c s n src Hv Hl Fb; rewrite sd_write by done; intros He; destruct Hv as (Hs & Hn & Hin).
  destruct (sd_transfer_mem c [] (card_put (mem c) s n src)) as [E|[E _]]; [|done].
  rewrite sd_run, E; pose proof (card_run (mem c) s n src Fb Hl (Z.to_nat n) 0) as Hc; rewrite Z.add_0_r in Hc.
  rewrite Hc by lia; rewrite drop_0, firstn_all2; [done|cbn in Hl; lia].
Qed.
Next Obligation.
  intros c s n src b Hv Hb; rewrite sd_write by done; unfold sd_block.
  destruct (sd_transfer_mem c [] (card_put (mem c) s n src)) as [-> |[_ ->]]; [by apply card_put_frame|done].
Qed.
Next Obligation. intros c cmd b Hc; unfold sd_block, send_cmd, sd_host; by destruct (sd_control_kept c cmd Hc) as [-> _]. Qed.
Next Obligation.
  intros c cmd [d|] Hr; unfold send_cmd, sd_host; [destruct (_ || _); by apply sd_transfer_ready|by apply sd_control_ready].
Qed.
Next Obligation. intros c s n Hr Hv; rewrite sd_read by done; by apply sd_transfer_ready. Qed.
Next Obligation. intros c s n src Hr Hv; rewrite sd_write by done; by apply sd_transfer_ready. Qed.
Next Obligation. intros c cmd Hr Hc; by apply sd_control_kept. Qed.
Next Obligation. intros c arg [_ Hb]; unfold send_cmd, sd_host, sd_control; cbn [cmdidx]; by rewrite Hb. Qed.

Definition sd0 : sd := mkSd (mkCard 15269888 (fun b => replicate 512 (u8 b))) 0 0 None 0.

Lemma block_layer_witness :
  (exists c', mmc_bwrite true 0 [emmc8g] 1 sd0 2048 3 (replicate 1536 7) = Some (3, c') /\
     run sd_block c' 2048 3 = replicate 1536 7) /\
  (exists data c', mmc_bread true 0 [emmc8g] 1 sd0 2048 3 = Some (3, data, c') /\ data = run sd_block sd0 2048 3).
Proof.
  assert (served emmc8g true 0 2048 3) as Hs by (split; [lia|]; split; [lia|]; split; [cbn; lia|reflexivity]).
  assert (sd_ready sd0) as Hr by done.
  destruct (block_layer_correct emmc8g emmc8g_ok true 0 sd0 2048 3 (replicate 1536 7)) as
    [(r & data & c' & E & _ & Hd & Hok & Hgo) (r' & c2 & E' & _ & Hd' & Hok' & Hgo')];
    [unfold addressable; lia|rewrite length_replicate; cbn; lia|apply Forall_replicate; unfold byte_ok; lia|].
  specialize (Hgo Hr Hs); specialize (Hgo' Hr Hs); split.
  - destruct Hd' as [->|]; [|done]; exists c2; split; [exact E'|]; apply (Hok' Hgo').
  - destruct Hd as [->|]; [|done]; exists data, c'; split; [exact E|]; apply (Hok Hgo).
Defined.


(** ** What the checks miss *)

(** Erasing is checked on the range asked for, not on the range erased: [mmc_berase]
    of the one block before the protected area is legal, is rounded up to an
    erase group, and erases the key blocks. *)
Theorem berase_erases_keys : exists c', mmc_berase true 0 [emmc8g] 1 sd0 (key_start_blk - 1) 1 = Some (0, c') /\
  sd_block sd0 key_start_blk = replicate 512 32 /\ sd_block c' key_start_blk = replicate 512 0.
Proof.
  assert (option_map (fun p => (p.1, sd_block p.2 key_start_blk))
            (mmc_berase true 0 [emmc8g] 1 sd0 (key_start_blk - 1) 1) = Some (0, replicate 512 0)) as E by (vm_compute; done).
  destruct (mmc_berase true 0 [emmc8g] 1 sd0 (key_start_blk - 1) 1) as [[r c']|]; [|done].
  cbn [option_map fst snd] in E; exists c'; injection E as -> E2; split; [done|]; split; [vm_compute; done|exact E2].
Qed.

(** The command that erases the whole card, [mmc_berase] from 0 with the count 0, does nothing
    on a protected card and returns 0, the value of success: the range check
    computes the last block as -1. *)
Theorem berase_all_refused {C} `{Host C} (store : bool) (prot : Z) (m : mmc) (c : C) : protected store prot m ->
  mmc_berase store prot [m] (dev_num m) c 0 0 = Some (0, c).
Proof.
  intros (Ht & -> & Hp); unfold mmc_berase; rewrite find_self; unfold emmckey_is_access_range_legal; rewrite Ht, Hp.
  reflexivity.
Qed.

Lemma berase_all_refused_witness : mmc_berase true 0 [emmc8g] 1 sd0 0 0 = Some (0, sd0).
Proof. apply (berase_all_refused true 0 emmc8g sd0); repeat split. Defined.

(** A card that becomes ready at the last poll is reported as timed out: after the [break]
    [mmc_send_status] tests [timeout <= 0], and on the last poll [timeout] is 0. *)
Theorem status_last_poll {C} `{Host C} (m : mmc) (c : C) :
  (forall c cmd, err (send_cmd c cmd None) = 0 /\ status_ready (response (send_cmd c cmd None)) = true) ->
  (mmc_send_status m c 0).1 = TIMEOUT /\ (mmc_send_status m c 1).1 = 0.
Proof.
  intros Ha; unfold mmc_send_status; cbn [status_loop]; unfold mmc_send_cmd.
  set (cmd := mkCmd MMC_CMD_SEND_STATUS _); destruct (Ha c cmd) as [-> Hr]; unfold status_ready in Hr.
  apply andb_true_iff in Hr as [-> Hs]; rewrite Hs; done.
Qed.

(** The host that answers every command with the status of a card in the transfer state. *)
Definition always : Host unit := {| send_cmd _ _ _ := mkAns 0 STATUS_TRAN [] tt |}.

Lemma status_last_poll_witness : (@mmc_send_status unit always emmc8g tt 0).1 = TIMEOUT.
Proof. apply (@status_last_poll unit always emmc8g tt); intros; done. Defined.

(** The checks of [mmc_bread] add the start and the count in 64 bits: with a start just
    under 2^64 the sum wraps and both checks pass, while the command to the
    card gets the low 32 bits of the start.  So on a protected card a read can
    deliver the key blocks: the first transfer does, before the call ends
    with the error of the second. *)
Theorem bread_wraps_into_keys : let start := 2 ^ 64 - 2 ^ 32 + key_start_blk in let blkcnt := 2 ^ 32 - key_start_blk in
  let c := mkSd (mem sd0) 0 0 (Some 1%nat) 0 in
  exists c', mmc_bread true 0 [emmc8g] 1 c start blkcnt = Some (0, run sd_block c key_start_blk 256, c').
Proof.
  intros start blkcnt c; unfold mmc_bread.
  replace (Z.to_nat blkcnt) with (S (Z.to_nat (blkcnt - 1))) by (unfold blkcnt; rewrite <- Z2Nat.inj_succ; [f_equal|]; vm_compute; done).
  generalize (Z.to_nat (blkcnt - 1)) as fuel; intros fuel.
  change (blkcnt =? 0) with false; change (find_mmc_device [emmc8g] 1) with (Some emmc8g); cbv iota.
  change (lba emmc8g <? u64 (start + blkcnt)) with false; cbv iota.
  change (negb (emmckey_is_access_range_legal true 0 emmc8g start blkcnt)) with false; cbv iota.
  change (mmc_set_blocklen emmc8g c (read_bl_len emmc8g)) with (0, c); cbn [negb Z.eqb].
  cbn [bread_loop]; change (b_max emmc8g <? blkcnt) with true; cbv iota.
  set (r := mmc_read_blocks emmc8g c start (b_max emmc8g)).
  assert (r = (256, run sd_block c key_start_blk 256, mkSd (mem sd0) 0 0 (Some 0%nat) 0)) as -> by (subst r; rewrite sd_run; reflexivity).
  change (negb (u64 256 =? b_max emmc8g)) with false; change (0 <? blkcnt - b_max emmc8g) with true; cbv iota; cbn [bread_loop].
  change (b_max emmc8g <? blkcnt - b_max emmc8g) with true; cbv iota; cbn [app].
  set (r2 := mmc_read_blocks _ _ _ _).
  assert (r2 = (0, [], mkSd (mem sd0) 0 0 (Some 0%nat) 0)) as -> by reflexivity.
  change (negb (u64 0 =? b_max emmc8g)) with true; cbv iota; cbn [mbind option_bind]; rewrite app_nil_r; by eexists.
Qed.

(** A host configured to move no block per command makes [mmc_bread] loop for ever:
    every round transfers nothing and leaves the count as it is. *)
Theorem bread_without_progress fuel : forall (c : sd) s acc, left c = None -> busy c = 0%nat ->
  bread_loop fuel {| dev_num := 1; version := 0; high_capacity := true; rca := 1; read_bl_len := 512; write_bl_len := 512;
    erase_grp_size := 1; capacity := 512; lba := 2; b_max := 0; ddr_mode := true; is_spi := false; spi_arg := 0;
    emmc_tsd := false |} c s 1 acc = None.
Proof.
  induction fuel as [|fuel IH]; intros c s acc Hl Hb; [done|]; cbn [bread_loop b_max Z.ltb Z.compare].
  unfold mmc_read_blocks, mmc_send_cmd, send_cmd, sd_host, sd_transfer; cbn; rewrite Hl; cbn; by apply IH.
Qed.

End Mmc.
