(* ===== verification/EmmcStack.v ===== *)
(** * The partition table over the MMC block layer

    The composition of EmmcTable.v and Mmc.v: start-up of the partition table
    (drivers/mmc/emmc_partitions.c) with the block device that
    drivers/mmc/mmc.c and mmc_write.c make of a host controller. *)

From S2P Require Import Prelude CArray BlockDev EmmcPart EmmcTable Mmc.

Module EmmcStack.
Import CArray BlockDev EmmcPart EmmcTable.

Section stack.
Context {C : Type} `{HH : Mmc.Host C} (F : libfdt) (m : mmc) (mm : Mmc.mmc) `{HS : !Mmc.HostSpec C mm}.
Context (Hm : Mmc.mmc_ok mm) (Hbl : 512 <= read_bl_len m) (Ebl : Mmc.read_bl_len mm = read_bl_len m).
Context (store : bool) (prot : Z).

(** The block device of the card, as [emmc_partitions.c] calls it. *)
Definition stack_dev : BlockDev C := Mmc.mmc_dev mm store prot.

Definition stack_spec : @BlockDevSpec C stack_dev (read_bl_len m) :=
  eq_rect _ (fun bl => @BlockDevSpec C stack_dev bl) (Mmc.mmc_dev_spec mm Hm store prot) _ Ebl.

Lemma stack_good c : @good C stack_dev _ stack_spec c = Mmc.ready c.
Proof. unfold stack_spec; by destruct Ebl. Qed.

Lemma stack_block c b : @block C stack_dev _ stack_spec c b = Mmc.cblock c b.
Proof. unfold stack_spec; by destruct Ebl. Qed.

Lemma stack_range c s n : @in_range C stack_dev _ stack_spec c s n = (addressable s n /\ Mmc.served mm store prot s n).
Proof. unfold stack_spec; by destruct Ebl. Qed.

(** C11: Start-up of the partition table over the MMC layer: with the device tree read, memory
    granted and a ready card behind any host, [mmc_device_init] returns; it
    returns 0 when the table lies on the card and outside the protected key
    area.  Once it has returned 0, no block outside the table has changed on
    the card, the keys included if they are protected and the table is
    served, the stored table is accepted, and a second start-up returns 0 and
    changes no block. *)
Theorem init_over_mmc (st : state C) t k :
  part_table st = Some t -> kmalloc_plan st = [] -> Mmc.ready (dev st) ->
  boot_ok m (t ++ beyond st) (emmc_partition_table st) k ->
  exists ret st' s, @mmc_device_init C stack_dev F m st = Some (ret, st') /\
    @reserved_start C m st' = Some (Some s) /\
    (Mmc.served mm store prot s (image_blocks m) -> ret = 0) /\
    (ret = 0 ->
      (forall b, b < s \/ s + image_blocks m <= b -> Mmc.cblock (dev st') b = Mmc.cblock (dev st) b) /\
      (Mmc.protected store prot mm -> Mmc.served mm store prot s (image_blocks m) ->
       forall b, Mmc.in_key b -> Mmc.cblock (dev st') b = Mmc.cblock (dev st) b) /\
      exists d, @mmc_device_init C stack_dev F m st' = Some (0, set_dev st' d) /\
        forall b, Mmc.cblock d b = Mmc.cblock (dev st') b).
Proof.
  intros Et Ep Hg Hb; assert (read_bl_len m < 2 ^ 32) by (destruct Hm as [Hx _ _ _ _]; rewrite <- Ebl; lia).
  rewrite <- stack_good in Hg.
  destruct (init_settles F m (HB := stack_dev) (HS := stack_spec) ltac:(lia) st t k Et Ep Hg Hb)
    as (ret & st' & s & E & Es & Hin & Hset); exists ret, st', s; split; [done|]; split; [done|].
  assert (forall s', Mmc.served mm store prot s' (image_blocks m) -> addressable s' (image_blocks m)) as Ha.
  { intros s' (H0 & H1 & H2 & _); destruct Hm as [_ _ _ Hx _]; unfold addressable; lia. }
  split; [intros Hs; apply Hin; rewrite stack_range; by split; [apply Ha|]|]; intros Hr.
  destruct (Hset Hr) as (Hfr & _ & d & Ed & Hd).
  assert (forall b, b < s \/ s + image_blocks m <= b -> Mmc.cblock (dev st') b = Mmc.cblock (dev st) b) as Hfr'
    by (intros b Hb'; rewrite <- !stack_block; by apply Hfr).
  split; [done|]; split; [|exists d; split; [done|]; intros b; rewrite <- !stack_block; apply Hd].
  intros Hp Hs b Hk; apply Hfr'; pose proof Hs as (_ & _ & _ & Hl).
  apply (Mmc.legal_protected _ _ _ _ _ Hp (Ha s Hs)) in Hl; unfold Mmc.in_key in Hk; lia.
Qed.
End stack.

(** The eMMC of 8 GB with a blank table. *)
Definition stack0 : state Mmc.sd :=
  mkState (Some android) 10 (replicate 32 zero_part) inherent None EMMC_BOOT_FLAG Mmc.sd0 [].

Lemma init_over_mmc_witness : exists ret st' s,
  @mmc_device_init Mmc.sd (stack_dev Mmc.emmc8g true 0) no_fdt emmc8 stack0 = Some (ret, st') /\
  @reserved_start Mmc.sd emmc8 st' = Some (Some s) /\
  (Mmc.served Mmc.emmc8g true 0 s (image_blocks emmc8) -> ret = 0).
Proof.
  destruct (init_over_mmc no_fdt emmc8 Mmc.emmc8g (HS := Mmc.sd_spec) Mmc.emmc8g_ok ltac:(cbn; lia) eq_refl true 0 stack0 android 9
    eq_refl eq_refl (conj eq_refl eq_refl : Mmc.sd_ready Mmc.sd0) boot0_ok) as (ret & st' & s & E & Es & H1 & _).
  exists ret, st', s; split; [exact E|split; [exact Es|exact H1]].
Defined.

End EmmcStack.
