(* ===== verification/MmcKey.v ===== *)
(** * The secure keys on the eMMC (drivers/mmc/mmc.c: mmc_key_read, mmc_key_write, mmc_key_erase)

    The keys lie in an area of the reserved partition that the block layer
    refuses to touch while DISPROTECT_KEY is clear in [info_disprotect]; the
    operations of this file set the flag for their own transfers.  The state is
    the flag word and the card behind the host of Mmc.v. *)

From S2P Require Import Prelude CArray BlockDev Mmc.

Module MmcKey.
Import CArray BlockDev Mmc.

Definition MMC_KEY_SIZE : Z := 256 * 1024.

Definition set_prot (prot : Z) : Z := Z.lor prot DISPROTECT_KEY.
Definition clear_prot (prot : Z) : Z := Z.land prot (Z.lnot DISPROTECT_KEY).

Section keys.
Context {C : Type} `{Host C} (store : bool) (devs : list mmc).

(** The result, the bytes read, [info_disprotect] and the card. *)
Definition mmc_key_read (prot : Z) (c : C) (size : Z) : option (Z * bytes * Z * C) :=
  let start_blk := (EMMCKEY_RESERVE_OFFSET + MMC_RESERVED_OFFSET) / MMC_BLOCK_SIZE in
  let blkcnt := size / MMC_BLOCK_SIZE in
  let prot := set_prot prot in
  '(ret, buf, c) ← mmc_bread store prot devs 1 c start_blk blkcnt;
  let prot := clear_prot prot in
  if negb (ret =? blkcnt) then Some (1, buf, prot, c) else Some (0, buf, prot, c).

Fixpoint key_write_loop (i : nat) (prot : Z) (c : C) (start_blk blkcnt : Z) (buf : bytes) : option (Z * Z * C) :=
  match i with
  | O => Some (0, clear_prot prot, c)
  | S i' =>
      '(ret, c) ← mmc_bwrite store prot devs 1 c start_blk blkcnt buf;
      if negb (ret =? blkcnt) then Some (1, prot, c)
      else key_write_loop i' prot c (u64 (start_blk + MMC_KEY_SIZE / MMC_BLOCK_SIZE)) blkcnt buf
  end.

(** [buf] is at least [size] bytes long; the blocks hold its start. *)
Definition mmc_key_write (prot : Z) (c : C) (buf : bytes) (size : Z) : option (Z * Z * C) :=
  let start_blk := (EMMCKEY_RESERVE_OFFSET + MMC_RESERVED_OFFSET) / MMC_BLOCK_SIZE in
  let blkcnt := size / MMC_BLOCK_SIZE in
  key_write_loop 2 (set_prot prot) c start_blk blkcnt buf.

Definition mmc_key_erase (prot : Z) (c : C) : option (Z * Z * C) :=
  let start_blk := (EMMCKEY_RESERVE_OFFSET + MMC_RESERVED_OFFSET) / MMC_BLOCK_SIZE in
  let blkcnt := MMC_KEY_SIZE / MMC_BLOCK_SIZE * 2 in
  let prot := set_prot prot in
  '(ret, c) ← mmc_berase store prot devs 1 c start_blk blkcnt;
  let prot := clear_prot prot in
  if negb (ret =? 0) then Some (1, prot, c) else Some (0, prot, c).
End keys.

(** ** The flag *)

Lemma set_prot_bit prot : Z.land (set_prot prot) DISPROTECT_KEY <> 0.
Proof.
  unfold set_prot, DISPROTECT_KEY; intros E; apply (f_equal (fun z => Z.testbit z 0)) in E.
  by rewrite Z.land_spec, Z.lor_spec, orb_true_r in E.
Qed.

Lemma clear_prot_bit prot : Z.land (clear_prot prot) DISPROTECT_KEY = 0.
Proof. unfold clear_prot; by rewrite <- Z.land_assoc, (Z.land_comm (Z.lnot _)), Z.land_lnot_diag, Z.land_0_r. Qed.

(** The two operations touch no other bit of the word. *)
Lemma prot_roundtrip prot : clear_prot (set_prot prot) = clear_prot prot.
Proof. unfold clear_prot, set_prot; by rewrite Z.land_lor_distr_l, Z.land_lnot_diag, Z.lor_0_r. Qed.

(** ** Storing and fetching *)

Definition primary : Z := 73760.
Definition backup : Z := primary + 512.

Section spec.
Context {C : Type} `{HH : Host C} (m : mmc) `{HS : !HostSpec C m} (Hm : mmc_ok m).
Context (Hdev : dev_num m = 1) (Hbl : read_bl_len m = 512) (Hlba : backup + 512 <= lba m).
Context (store : bool).

Lemma legal_set prot s n : legal m store (set_prot prot) s n = true.
Proof.
  unfold legal, emmckey_is_access_range_legal; pose proof (set_prot_bit prot) as Hb; apply Z.eqb_neq in Hb.
  by rewrite Hb; destruct (emmc_tsd m && store).
Qed.

Lemma key_served prot s n : 0 < n -> primary <= s -> s + n <= backup + 512 -> served m store (set_prot prot) s n /\ addressable s n.
Proof.
  unfold primary, backup in *; intros Hn Hs He; destruct Hm as [_ _ _ Hx _]; split; [|unfold addressable; lia].
  split; [lia|]; split; [lia|]; split; [lia|apply legal_set].
Qed.

(** One copy: written when the card is ready, and nothing else changes. *)
Lemma write_copy prot c s n buf : 0 < n -> primary <= s -> s + n <= backup + 512 ->
  Z.of_nat (length buf) = n * 512 -> Forall byte_ok buf -> ready c -> exists c',
  mmc_bwrite store (set_prot prot) [m] 1 c s n buf = Some (n, c') /\ ready c' /\
  run cblock c' s (Z.to_nat n) = buf /\ forall b, b < s \/ s + n <= b -> cblock c' b = cblock c b.
Proof.
  intros Hn Hs He Hl Fb Hr; destruct (key_served prot s n Hn Hs He) as [Hsv Ha].
  destruct (bwrite_spec m Hm store (set_prot prot) c s n buf Ha ltac:(by rewrite Hbl) Fb)
    as (r & c' & E & Hrd & Hfr & _ & Hrn & Hok & Hgo).
  rewrite Hdev in E; specialize (Hgo Hr Hsv); destruct Hrn as [->|]; [|done].
  exists c'; split; [done|]; split; [auto|]; split; [by apply Hok|done].
Qed.

Definition key_start : (EMMCKEY_RESERVE_OFFSET + MMC_RESERVED_OFFSET) / MMC_BLOCK_SIZE = primary := eq_refl.

(** C14: Keys that have been stored are fetched again: on a ready card [mmc_key_write] of a
    buffer of whole blocks, at most 256 KB, returns 0, stores two copies,
    changes no other block, and leaves the area protected; from then on
    [mmc_key_read] of that size returns 0 with the buffer, changes no block and
    leaves the area protected. *)
Theorem key_write_read prot c buf n : 0 < n <= 512 -> Z.of_nat (length buf) = n * 512 -> Forall byte_ok buf -> ready c ->
  exists c', mmc_key_write store [m] prot c buf (n * 512) = Some (0, clear_prot prot, c') /\ ready c' /\
    run cblock c' primary (Z.to_nat n) = buf /\ run cblock c' backup (Z.to_nat n) = buf /\
    (forall b, ~ (primary <= b < primary + n) -> ~ (backup <= b < backup + n) -> cblock c' b = cblock c b) /\
    forall prot', exists c2, mmc_key_read store [m] prot' c' (n * 512) = Some (0, buf, clear_prot prot', c2) /\
      forall b, cblock c2 b = cblock c' b.
Proof.
  intros Hn Hl Fb Hr; assert (n * 512 / MMC_BLOCK_SIZE = n) as Hq by (apply Z.div_mul; done).
  unfold mmc_key_write, mmc_key_read; rewrite Hq, key_start; cbn [key_write_loop].
  destruct (write_copy prot c primary n buf) as (c1 & -> & Hr1 & H1 & F1); try done; try (unfold backup; lia).
  cbn [mbind option_bind]; rewrite Z.eqb_refl; cbn [negb].
  assert (u64 (primary + MMC_KEY_SIZE / MMC_BLOCK_SIZE) = backup) as -> by reflexivity.
  destruct (write_copy prot c1 backup n buf) as (c2 & -> & Hr2 & H2 & F2); try done; try (unfold backup; lia).
  cbn [mbind option_bind]; rewrite Z.eqb_refl, prot_roundtrip; cbn [negb].
  assert (run cblock c2 primary (Z.to_nat n) = buf) as H3.
  { rewrite <- H1; apply run_ext; intros b Hb; apply F2; unfold backup; lia. }
  exists c2; split; [done|]; split; [done|]; split; [done|]; split; [done|].
  split; [intros b Hp Hb; rewrite F2, F1 by lia; done|]; intros prot'.
  destruct (key_served prot' primary n) as [Hsv Ha]; [lia|lia|unfold backup; lia|].
  destruct (bread_spec m Hm store (set_prot prot') c2 primary n Ha) as (r & data & c3 & E & [Hk _] & Hrn & Hd & Hgo).
  rewrite Hdev in E; rewrite E; cbn [mbind option_bind]; specialize (Hgo Hr2 Hsv); destruct Hrn as [->|]; [|done].
  rewrite Z.eqb_refl, prot_roundtrip; cbn [negb]; exists c3; split; [|done].
  destruct (Hd Hgo) as [_ ->]; by rewrite H3.
Qed.
End spec.

Lemma key_write_read_witness : exists c',
  mmc_key_write true [emmc8g] 0 sd0 (replicate 1024 9) 1024 = Some (0, 0, c') /\ run sd_block c' primary 2 = replicate 1024 9.
Proof.
  destruct (key_write_read emmc8g emmc8g_ok eq_refl eq_refl ltac:(vm_compute; discriminate) true 0 sd0 (replicate 1024 9) 2)
    as (c' & E & _ & Hp & _); [lia|by rewrite length_replicate|apply Forall_replicate; unfold byte_ok; lia|by split|].
  exists c'; split; [exact E|exact Hp].
Defined.

(** ** What goes wrong *)

(** A key write that fails leaves the area open: [mmc_key_write] returns before it clears
    DISPROTECT_KEY, and from then on any read or write reaches the keys. *)
Theorem key_write_failure_unprotects {C} `{Host C} (store : bool) (devs : list mmc) prot (c : C) buf size c' p :
  mmc_key_write store devs prot c buf size = Some (1, p, c') ->
  p = set_prot prot /\ forall m s n, emmckey_is_access_range_legal store p m s n = true.
Proof.
  unfold mmc_key_write; set (blk := _ / _); generalize blk; intros s0 E; assert (p = set_prot prot) as ->.
  { revert E; generalize 2%nat as i; intros i; revert c s0; induction i as [|i IH]; intros c s0; cbn [key_write_loop]; [done|].
    destruct (mmc_bwrite _ _ _ _ _ _ _ _) as [[ret c1]|]; cbn [mbind option_bind]; [|done].
    destruct (negb _); [by intros [= <- _]|apply IH]. }
  split; [done|]; intros m s n; unfold emmckey_is_access_range_legal; pose proof (set_prot_bit prot) as Hb.
  apply Z.eqb_neq in Hb; by rewrite Hb; destruct (emmc_tsd m && store).
Qed.

(** A card that takes one transfer: the second copy fails. *)
Definition sd1 : sd := mkSd (mem sd0) 0 0 (Some 1%nat) 0.

Lemma key_write_failure_witness :
  exists c' p, mmc_key_write true [emmc8g] 0 sd1 (replicate 512 9) 512 = Some (1, p, c') /\
    emmckey_is_access_range_legal true p emmc8g primary 1 = true.
Proof.
  assert (option_map (fun x => x.1.1) (mmc_key_write true [emmc8g] 0 sd1 (replicate 512 9) 512) = Some 1) as E1
    by (vm_compute; reflexivity).
  destruct (mmc_key_write true [emmc8g] 0 sd1 (replicate 512 9) 512) as [[[r p] c']|] eqn:E; [|discriminate E1].
  injection E1 as ->; exists c', p; split; [done|].
  apply (key_write_failure_unprotects true [emmc8g] 0 sd1 (replicate 512 9) 512 c' p E).
Defined.

(** The backup copy of the keys is not protected: the protected range is as long as one
    copy, and the second copy begins where it ends. *)
Theorem backup_copy_unprotected store prot m : key_end_blk + 1 = backup /\
  forall n, 0 < n -> backup + n < 2 ^ 64 -> emmckey_is_access_range_legal store prot m backup n = true.
Proof.
  split; [done|]; intros n Hn Ho; unfold emmckey_is_access_range_legal.
  change (backup <=? key_end_blk) with false; rewrite andb_false_r; by destruct (emmc_tsd m && store), (Z.land prot DISPROTECT_KEY =? 0).
Qed.

(** A request of less than a block is reported as success: [mmc_key_read] asks for no
    block, gets none, and returns 0 with an empty buffer. *)
Theorem key_read_short {C} `{Host C} (store : bool) (devs : list mmc) prot (c : C) size : 0 <= size < 512 ->
  mmc_key_read store devs prot c size = Some (0, [], clear_prot prot, c).
Proof.
  intros Hs; unfold mmc_key_read; assert (size / MMC_BLOCK_SIZE = 0) as -> by (by apply Z.div_small).
  cbn [mbind option_bind mmc_bread Z.eqb negb]; by rewrite prot_roundtrip.
Qed.

End MmcKey.
