(* ===== verification/Aes.v ===== *)
(** * AES-128 (lib/aes.c)

    The block cipher with its tables, the key schedule and the chaining of
    blocks.  A state is the list of its 16 bytes; [add_round_key] works on the
    words of the state as the processor loads them (little endian).  The
    chained functions work on one memory, so that source and destination may
    be the same buffer.

    The reference is FIPS 197: the field GF(2^8), the S-box as the affine
    transformation of the inverse, the four transformations of the state and
    the key expansion on words.  The tables are shown to be the tables of that
    definition. *)

From Stdlib Require Import Btauto.
From S2P Require Import Prelude CArray.

Module Aes.
Import CArray.

(** Forward S-box. *)
Definition sbox : list Z :=
  [0x63; 0x7c; 0x77; 0x7b; 0xf2; 0x6b; 0x6f; 0xc5; 0x30; 0x01; 0x67; 0x2b; 0xfe; 0xd7; 0xab; 0x76;
   0xca; 0x82; 0xc9; 0x7d; 0xfa; 0x59; 0x47; 0xf0; 0xad; 0xd4; 0xa2; 0xaf; 0x9c; 0xa4; 0x72; 0xc0;
   0xb7; 0xfd; 0x93; 0x26; 0x36; 0x3f; 0xf7; 0xcc; 0x34; 0xa5; 0xe5; 0xf1; 0x71; 0xd8; 0x31; 0x15;
   0x04; 0xc7; 0x23; 0xc3; 0x18; 0x96; 0x05; 0x9a; 0x07; 0x12; 0x80; 0xe2; 0xeb; 0x27; 0xb2; 0x75;
   0x09; 0x83; 0x2c; 0x1a; 0x1b; 0x6e; 0x5a; 0xa0; 0x52; 0x3b; 0xd6; 0xb3; 0x29; 0xe3; 0x2f; 0x84;
   0x53; 0xd1; 0x00; 0xed; 0x20; 0xfc; 0xb1; 0x5b; 0x6a; 0xcb; 0xbe; 0x39; 0x4a; 0x4c; 0x58; 0xcf;
   0xd0; 0xef; 0xaa; 0xfb; 0x43; 0x4d; 0x33; 0x85; 0x45; 0xf9; 0x02; 0x7f; 0x50; 0x3c; 0x9f; 0xa8;
   0x51; 0xa3; 0x40; 0x8f; 0x92; 0x9d; 0x38; 0xf5; 0xbc; 0xb6; 0xda; 0x21; 0x10; 0xff; 0xf3; 0xd2;
   0xcd; 0x0c; 0x13; 0xec; 0x5f; 0x97; 0x44; 0x17; 0xc4; 0xa7; 0x7e; 0x3d; 0x64; 0x5d; 0x19; 0x73;
   0x60; 0x81; 0x4f; 0xdc; 0x22; 0x2a; 0x90; 0x88; 0x46; 0xee; 0xb8; 0x14; 0xde; 0x5e; 0x0b; 0xdb;
   0xe0; 0x32; 0x3a; 0x0a; 0x49; 0x06; 0x24; 0x5c; 0xc2; 0xd3; 0xac; 0x62; 0x91; 0x95; 0xe4; 0x79;
   0xe7; 0xc8; 0x37; 0x6d; 0x8d; 0xd5; 0x4e; 0xa9; 0x6c; 0x56; 0xf4; 0xea; 0x65; 0x7a; 0xae; 0x08;
   0xba; 0x78; 0x25; 0x2e; 0x1c; 0xa6; 0xb4; 0xc6; 0xe8; 0xdd; 0x74; 0x1f; 0x4b; 0xbd; 0x8b; 0x8a;
   0x70; 0x3e; 0xb5; 0x66; 0x48; 0x03; 0xf6; 0x0e; 0x61; 0x35; 0x57; 0xb9; 0x86; 0xc1; 0x1d; 0x9e;
   0xe1; 0xf8; 0x98; 0x11; 0x69; 0xd9; 0x8e; 0x94; 0x9b; 0x1e; 0x87; 0xe9; 0xce; 0x55; 0x28; 0xdf;
   0x8c; 0xa1; 0x89; 0x0d; 0xbf; 0xe6; 0x42; 0x68; 0x41; 0x99; 0x2d; 0x0f; 0xb0; 0x54; 0xbb; 0x16].

(** Inverse S-box. *)
Definition inv_sbox : list Z :=
  [0x52; 0x09; 0x6a; 0xd5; 0x30; 0x36; 0xa5; 0x38; 0xbf; 0x40; 0xa3; 0x9e; 0x81; 0xf3; 0xd7; 0xfb;
   0x7c; 0xe3; 0x39; 0x82; 0x9b; 0x2f; 0xff; 0x87; 0x34; 0x8e; 0x43; 0x44; 0xc4; 0xde; 0xe9; 0xcb;
   0x54; 0x7b; 0x94; 0x32; 0xa6; 0xc2; 0x23; 0x3d; 0xee; 0x4c; 0x95; 0x0b; 0x42; 0xfa; 0xc3; 0x4e;
   0x08; 0x2e; 0xa1; 0x66; 0x28; 0xd9; 0x24; 0xb2; 0x76; 0x5b; 0xa2; 0x49; 0x6d; 0x8b; 0xd1; 0x25;
   0x72; 0xf8; 0xf6; 0x64; 0x86; 0x68; 0x98; 0x16; 0xd4; 0xa4; 0x5c; 0xcc; 0x5d; 0x65; 0xb6; 0x92;
   0x6c; 0x70; 0x48; 0x50; 0xfd; 0xed; 0xb9; 0xda; 0x5e; 0x15; 0x46; 0x57; 0xa7; 0x8d; 0x9d; 0x84;
   0x90; 0xd8; 0xab; 0x00; 0x8c; 0xbc; 0xd3; 0x0a; 0xf7; 0xe4; 0x58; 0x05; 0xb8; 0xb3; 0x45; 0x06;
   0xd0; 0x2c; 0x1e; 0x8f; 0xca; 0x3f; 0x0f; 0x02; 0xc1; 0xaf; 0xbd; 0x03; 0x01; 0x13; 0x8a; 0x6b;
   0x3a; 0x91; 0x11; 0x41; 0x4f; 0x67; 0xdc; 0xea; 0x97; 0xf2; 0xcf; 0xce; 0xf0; 0xb4; 0xe6; 0x73;
   0x96; 0xac; 0x74; 0x22; 0xe7; 0xad; 0x35; 0x85; 0xe2; 0xf9; 0x37; 0xe8; 0x1c; 0x75; 0xdf; 0x6e;
   0x47; 0xf1; 0x1a; 0x71; 0x1d; 0x29; 0xc5; 0x89; 0x6f; 0xb7; 0x62; 0x0e; 0xaa; 0x18; 0xbe; 0x1b;
   0xfc; 0x56; 0x3e; 0x4b; 0xc6; 0xd2; 0x79; 0x20; 0x9a; 0xdb; 0xc0; 0xfe; 0x78; 0xcd; 0x5a; 0xf4;
   0x1f; 0xdd; 0xa8; 0x33; 0x88; 0x07; 0xc7; 0x31; 0xb1; 0x12; 0x10; 0x59; 0x27; 0x80; 0xec; 0x5f;
   0x60; 0x51; 0x7f; 0xa9; 0x19; 0xb5; 0x4a; 0x0d; 0x2d; 0xe5; 0x7a; 0x9f; 0x93; 0xc9; 0x9c; 0xef;
   0xa0; 0xe0; 0x3b; 0x4d; 0xae; 0x2a; 0xf5; 0xb0; 0xc8; 0xeb; 0xbb; 0x3c; 0x83; 0x53; 0x99; 0x61;
   0x17; 0x2b; 0x04; 0x7e; 0xba; 0x77; 0xd6; 0x26; 0xe1; 0x69; 0x14; 0x63; 0x55; 0x21; 0x0c; 0x7d].

(** Combined Xtimes2[Sbox[]]. *)
Definition x2_sbox : list Z :=
  [0xc6; 0xf8; 0xee; 0xf6; 0xff; 0xd6; 0xde; 0x91; 0x60; 0x02; 0xce; 0x56; 0xe7; 0xb5; 0x4d; 0xec;
   0x8f; 0x1f; 0x89; 0xfa; 0xef; 0xb2; 0x8e; 0xfb; 0x41; 0xb3; 0x5f; 0x45; 0x23; 0x53; 0xe4; 0x9b;
   0x75; 0xe1; 0x3d; 0x4c; 0x6c; 0x7e; 0xf5; 0x83; 0x68; 0x51; 0xd1; 0xf9; 0xe2; 0xab; 0x62; 0x2a;
   0x08; 0x95; 0x46; 0x9d; 0x30; 0x37; 0x0a; 0x2f; 0x0e; 0x24; 0x1b; 0xdf; 0xcd; 0x4e; 0x7f; 0xea;
   0x12; 0x1d; 0x58; 0x34; 0x36; 0xdc; 0xb4; 0x5b; 0xa4; 0x76; 0xb7; 0x7d; 0x52; 0xdd; 0x5e; 0x13;
   0xa6; 0xb9; 0x00; 0xc1; 0x40; 0xe3; 0x79; 0xb6; 0xd4; 0x8d; 0x67; 0x72; 0x94; 0x98; 0xb0; 0x85;
   0xbb; 0xc5; 0x4f; 0xed; 0x86; 0x9a; 0x66; 0x11; 0x8a; 0xe9; 0x04; 0xfe; 0xa0; 0x78; 0x25; 0x4b;
   0xa2; 0x5d; 0x80; 0x05; 0x3f; 0x21; 0x70; 0xf1; 0x63; 0x77; 0xaf; 0x42; 0x20; 0xe5; 0xfd; 0xbf;
   0x81; 0x18; 0x26; 0xc3; 0xbe; 0x35; 0x88; 0x2e; 0x93; 0x55; 0xfc; 0x7a; 0xc8; 0xba; 0x32; 0xe6;
   0xc0; 0x19; 0x9e; 0xa3; 0x44; 0x54; 0x3b; 0x0b; 0x8c; 0xc7; 0x6b; 0x28; 0xa7; 0xbc; 0x16; 0xad;
   0xdb; 0x64; 0x74; 0x14; 0x92; 0x0c; 0x48; 0xb8; 0x9f; 0xbd; 0x43; 0xc4; 0x39; 0x31; 0xd3; 0xf2;
   0xd5; 0x8b; 0x6e; 0xda; 0x01; 0xb1; 0x9c; 0x49; 0xd8; 0xac; 0xf3; 0xcf; 0xca; 0xf4; 0x47; 0x10;
   0x6f; 0xf0; 0x4a; 0x5c; 0x38; 0x57; 0x73; 0x97; 0xcb; 0xa1; 0xe8; 0x3e; 0x96; 0x61; 0x0d; 0x0f;
   0xe0; 0x7c; 0x71; 0xcc; 0x90; 0x06; 0xf7; 0x1c; 0xc2; 0x6a; 0xae; 0x69; 0x17; 0x99; 0x3a; 0x27;
   0xd9; 0xeb; 0x2b; 0x22; 0xd2; 0xa9; 0x07; 0x33; 0x2d; 0x3c; 0x15; 0xc9; 0x87; 0xaa; 0x50; 0xa5;
   0x03; 0x59; 0x09; 0x1a; 0x65; 0xd7; 0x84; 0xd0; 0x82; 0x29; 0x5a; 0x1e; 0x7b; 0xa8; 0x6d; 0x2c].

(** Combined Xtimes3[Sbox[]]. *)
Definition x3_sbox : list Z :=
  [0xa5; 0x84; 0x99; 0x8d; 0x0d; 0xbd; 0xb1; 0x54; 0x50; 0x03; 0xa9; 0x7d; 0x19; 0x62; 0xe6; 0x9a;
   0x45; 0x9d; 0x40; 0x87; 0x15; 0xeb; 0xc9; 0x0b; 0xec; 0x67; 0xfd; 0xea; 0xbf; 0xf7; 0x96; 0x5b;
   0xc2; 0x1c; 0xae; 0x6a; 0x5a; 0x41; 0x02; 0x4f; 0x5c; 0xf4; 0x34; 0x08; 0x93; 0x73; 0x53; 0x3f;
   0x0c; 0x52; 0x65; 0x5e; 0x28; 0xa1; 0x0f; 0xb5; 0x09; 0x36; 0x9b; 0x3d; 0x26; 0x69; 0xcd; 0x9f;
   0x1b; 0x9e; 0x74; 0x2e; 0x2d; 0xb2; 0xee; 0xfb; 0xf6; 0x4d; 0x61; 0xce; 0x7b; 0x3e; 0x71; 0x97;
   0xf5; 0x68; 0x00; 0x2c; 0x60; 0x1f; 0xc8; 0xed; 0xbe; 0x46; 0xd9; 0x4b; 0xde; 0xd4; 0xe8; 0x4a;
   0x6b; 0x2a; 0xe5; 0x16; 0xc5; 0xd7; 0x55; 0x94; 0xcf; 0x10; 0x06; 0x81; 0xf0; 0x44; 0xba; 0xe3;
   0xf3; 0xfe; 0xc0; 0x8a; 0xad; 0xbc; 0x48; 0x04; 0xdf; 0xc1; 0x75; 0x63; 0x30; 0x1a; 0x0e; 0x6d;
   0x4c; 0x14; 0x35; 0x2f; 0xe1; 0xa2; 0xcc; 0x39; 0x57; 0xf2; 0x82; 0x47; 0xac; 0xe7; 0x2b; 0x95;
   0xa0; 0x98; 0xd1; 0x7f; 0x66; 0x7e; 0xab; 0x83; 0xca; 0x29; 0xd3; 0x3c; 0x79; 0xe2; 0x1d; 0x76;
   0x3b; 0x56; 0x4e; 0x1e; 0xdb; 0x0a; 0x6c; 0xe4; 0x5d; 0x6e; 0xef; 0xa6; 0xa8; 0xa4; 0x37; 0x8b;
   0x32; 0x43; 0x59; 0xb7; 0x8c; 0x64; 0xd2; 0xe0; 0xb4; 0xfa; 0x07; 0x25; 0xaf; 0x8e; 0xe9; 0x18;
   0xd5; 0x88; 0x6f; 0x72; 0x24; 0xf1; 0xc7; 0x51; 0x23; 0x7c; 0x9c; 0x21; 0xdd; 0xdc; 0x86; 0x85;
   0x90; 0x42; 0xc4; 0xaa; 0xd8; 0x05; 0x01; 0x12; 0xa3; 0x5f; 0xf9; 0xd0; 0x91; 0x58; 0x27; 0xb9;
   0x38; 0x13; 0xb3; 0x33; 0xbb; 0x70; 0x89; 0xa7; 0xb6; 0x22; 0x92; 0x20; 0x49; 0xff; 0x78; 0x7a;
   0x8f; 0xf8; 0x80; 0x17; 0xda; 0x31; 0xc6; 0xb8; 0xc3; 0xb0; 0x77; 0x11; 0xcb; 0xfc; 0xd6; 0x3a].

(** Multiplication tables. *)
Definition x_time_9 : list Z :=
  [0x00; 0x09; 0x12; 0x1b; 0x24; 0x2d; 0x36; 0x3f; 0x48; 0x41; 0x5a; 0x53; 0x6c; 0x65; 0x7e; 0x77;
   0x90; 0x99; 0x82; 0x8b; 0xb4; 0xbd; 0xa6; 0xaf; 0xd8; 0xd1; 0xca; 0xc3; 0xfc; 0xf5; 0xee; 0xe7;
   0x3b; 0x32; 0x29; 0x20; 0x1f; 0x16; 0x0d; 0x04; 0x73; 0x7a; 0x61; 0x68; 0x57; 0x5e; 0x45; 0x4c;
   0xab; 0xa2; 0xb9; 0xb0; 0x8f; 0x86; 0x9d; 0x94; 0xe3; 0xea; 0xf1; 0xf8; 0xc7; 0xce; 0xd5; 0xdc;
   0x76; 0x7f; 0x64; 0x6d; 0x52; 0x5b; 0x40; 0x49; 0x3e; 0x37; 0x2c; 0x25; 0x1a; 0x13; 0x08; 0x01;
   0xe6; 0xef; 0xf4; 0xfd; 0xc2; 0xcb; 0xd0; 0xd9; 0xae; 0xa7; 0xbc; 0xb5; 0x8a; 0x83; 0x98; 0x91;
   0x4d; 0x44; 0x5f; 0x56; 0x69; 0x60; 0x7b; 0x72; 0x05; 0x0c; 0x17; 0x1e; 0x21; 0x28; 0x33; 0x3a;
   0xdd; 0xd4; 0xcf; 0xc6; 0xf9; 0xf0; 0xeb; 0xe2; 0x95; 0x9c; 0x87; 0x8e; 0xb1; 0xb8; 0xa3; 0xaa;
   0xec; 0xe5; 0xfe; 0xf7; 0xc8; 0xc1; 0xda; 0xd3; 0xa4; 0xad; 0xb6; 0xbf; 0x80; 0x89; 0x92; 0x9b;
   0x7c; 0x75; 0x6e; 0x67; 0x58; 0x51; 0x4a; 0x43; 0x34; 0x3d; 0x26; 0x2f; 0x10; 0x19; 0x02; 0x0b;
   0xd7; 0xde; 0xc5; 0xcc; 0xf3; 0xfa; 0xe1; 0xe8; 0x9f; 0x96; 0x8d; 0x84; 0xbb; 0xb2; 0xa9; 0xa0;
   0x47; 0x4e; 0x55; 0x5c; 0x63; 0x6a; 0x71; 0x78; 0x0f; 0x06; 0x1d; 0x14; 0x2b; 0x22; 0x39; 0x30;
   0x9a; 0x93; 0x88; 0x81; 0xbe; 0xb7; 0xac; 0xa5; 0xd2; 0xdb; 0xc0; 0xc9; 0xf6; 0xff; 0xe4; 0xed;
   0x0a; 0x03; 0x18; 0x11; 0x2e; 0x27; 0x3c; 0x35; 0x42; 0x4b; 0x50; 0x59; 0x66; 0x6f; 0x74; 0x7d;
   0xa1; 0xa8; 0xb3; 0xba; 0x85; 0x8c; 0x97; 0x9e; 0xe9; 0xe0; 0xfb; 0xf2; 0xcd; 0xc4; 0xdf; 0xd6;
   0x31; 0x38; 0x23; 0x2a; 0x15; 0x1c; 0x07; 0x0e; 0x79; 0x70; 0x6b; 0x62; 0x5d; 0x54; 0x4f; 0x46].

Definition x_time_b : list Z :=
  [0x00; 0x0b; 0x16; 0x1d; 0x2c; 0x27; 0x3a; 0x31; 0x58; 0x53; 0x4e; 0x45; 0x74; 0x7f; 0x62; 0x69;
   0xb0; 0xbb; 0xa6; 0xad; 0x9c; 0x97; 0x8a; 0x81; 0xe8; 0xe3; 0xfe; 0xf5; 0xc4; 0xcf; 0xd2; 0xd9;
   0x7b; 0x70; 0x6d; 0x66; 0x57; 0x5c; 0x41; 0x4a; 0x23; 0x28; 0x35; 0x3e; 0x0f; 0x04; 0x19; 0x12;
   0xcb; 0xc0; 0xdd; 0xd6; 0xe7; 0xec; 0xf1; 0xfa; 0x93; 0x98; 0x85; 0x8e; 0xbf; 0xb4; 0xa9; 0xa2;
   0xf6; 0xfd; 0xe0; 0xeb; 0xda; 0xd1; 0xcc; 0xc7; 0xae; 0xa5; 0xb8; 0xb3; 0x82; 0x89; 0x94; 0x9f;
   0x46; 0x4d; 0x50; 0x5b; 0x6a; 0x61; 0x7c; 0x77; 0x1e; 0x15; 0x08; 0x03; 0x32; 0x39; 0x24; 0x2f;
   0x8d; 0x86; 0x9b; 0x90; 0xa1; 0xaa; 0xb7; 0xbc; 0xd5; 0xde; 0xc3; 0xc8; 0xf9; 0xf2; 0xef; 0xe4;
   0x3d; 0x36; 0x2b; 0x20; 0x11; 0x1a; 0x07; 0x0c; 0x65; 0x6e; 0x73; 0x78; 0x49; 0x42; 0x5f; 0x54;
   0xf7; 0xfc; 0xe1; 0xea; 0xdb; 0xd0; 0xcd; 0xc6; 0xaf; 0xa4; 0xb9; 0xb2; 0x83; 0x88; 0x95; 0x9e;
   0x47; 0x4c; 0x51; 0x5a; 0x6b; 0x60; 0x7d; 0x76; 0x1f; 0x14; 0x09; 0x02; 0x33; 0x38; 0x25; 0x2e;
   0x8c; 0x87; 0x9a; 0x91; 0xa0; 0xab; 0xb6; 0xbd; 0xd4; 0xdf; 0xc2; 0xc9; 0xf8; 0xf3; 0xee; 0xe5;
   0x3c; 0x37; 0x2a; 0x21; 0x10; 0x1b; 0x06; 0x0d; 0x64; 0x6f; 0x72; 0x79; 0x48; 0x43; 0x5e; 0x55;
   0x01; 0x0a; 0x17; 0x1c; 0x2d; 0x26; 0x3b; 0x30; 0x59; 0x52; 0x4f; 0x44; 0x75; 0x7e; 0x63; 0x68;
   0xb1; 0xba; 0xa7; 0xac; 0x9d; 0x96; 0x8b; 0x80; 0xe9; 0xe2; 0xff; 0xf4; 0xc5; 0xce; 0xd3; 0xd8;
   0x7a; 0x71; 0x6c; 0x67; 0x56; 0x5d; 0x40; 0x4b; 0x22; 0x29; 0x34; 0x3f; 0x0e; 0x05; 0x18; 0x13;
   0xca; 0xc1; 0xdc; 0xd7; 0xe6; 0xed; 0xf0; 0xfb; 0x92; 0x99; 0x84; 0x8f; 0xbe; 0xb5; 0xa8; 0xa3].

Definition x_time_d : list Z :=
  [0x00; 0x0d; 0x1a; 0x17; 0x34; 0x39; 0x2e; 0x23; 0x68; 0x65; 0x72; 0x7f; 0x5c; 0x51; 0x46; 0x4b;
   0xd0; 0xdd; 0xca; 0xc7; 0xe4; 0xe9; 0xfe; 0xf3; 0xb8; 0xb5; 0xa2; 0xaf; 0x8c; 0x81; 0x96; 0x9b;
   0xbb; 0xb6; 0xa1; 0xac; 0x8f; 0x82; 0x95; 0x98; 0xd3; 0xde; 0xc9; 0xc4; 0xe7; 0xea; 0xfd; 0xf0;
   0x6b; 0x66; 0x71; 0x7c; 0x5f; 0x52; 0x45; 0x48; 0x03; 0x0e; 0x19; 0x14; 0x37; 0x3a; 0x2d; 0x20;
   0x6d; 0x60; 0x77; 0x7a; 0x59; 0x54; 0x43; 0x4e; 0x05; 0x08; 0x1f; 0x12; 0x31; 0x3c; 0x2b; 0x26;
   0xbd; 0xb0; 0xa7; 0xaa; 0x89; 0x84; 0x93; 0x9e; 0xd5; 0xd8; 0xcf; 0xc2; 0xe1; 0xec; 0xfb; 0xf6;
   0xd6; 0xdb; 0xcc; 0xc1; 0xe2; 0xef; 0xf8; 0xf5; 0xbe; 0xb3; 0xa4; 0xa9; 0x8a; 0x87; 0x90; 0x9d;
   0x06; 0x0b; 0x1c; 0x11; 0x32; 0x3f; 0x28; 0x25; 0x6e; 0x63; 0x74; 0x79; 0x5a; 0x57; 0x40; 0x4d;
   0xda; 0xd7; 0xc0; 0xcd; 0xee; 0xe3; 0xf4; 0xf9; 0xb2; 0xbf; 0xa8; 0xa5; 0x86; 0x8b; 0x9c; 0x91;
   0x0a; 0x07; 0x10; 0x1d; 0x3e; 0x33; 0x24; 0x29; 0x62; 0x6f; 0x78; 0x75; 0x56; 0x5b; 0x4c; 0x41;
   0x61; 0x6c; 0x7b; 0x76; 0x55; 0x58; 0x4f; 0x42; 0x09; 0x04; 0x13; 0x1e; 0x3d; 0x30; 0x27; 0x2a;
   0xb1; 0xbc; 0xab; 0xa6; 0x85; 0x88; 0x9f; 0x92; 0xd9; 0xd4; 0xc3; 0xce; 0xed; 0xe0; 0xf7; 0xfa;
   0xb7; 0xba; 0xad; 0xa0; 0x83; 0x8e; 0x99; 0x94; 0xdf; 0xd2; 0xc5; 0xc8; 0xeb; 0xe6; 0xf1; 0xfc;
   0x67; 0x6a; 0x7d; 0x70; 0x53; 0x5e; 0x49; 0x44; 0x0f; 0x02; 0x15; 0x18; 0x3b; 0x36; 0x21; 0x2c;
   0x0c; 0x01; 0x16; 0x1b; 0x38; 0x35; 0x22; 0x2f; 0x64; 0x69; 0x7e; 0x73; 0x50; 0x5d; 0x4a; 0x47;
   0xdc; 0xd1; 0xc6; 0xcb; 0xe8; 0xe5; 0xf2; 0xff; 0xb4; 0xb9; 0xae; 0xa3; 0x80; 0x8d; 0x9a; 0x97].

Definition x_time_e : list Z :=
  [0x00; 0x0e; 0x1c; 0x12; 0x38; 0x36; 0x24; 0x2a; 0x70; 0x7e; 0x6c; 0x62; 0x48; 0x46; 0x54; 0x5a;
   0xe0; 0xee; 0xfc; 0xf2; 0xd8; 0xd6; 0xc4; 0xca; 0x90; 0x9e; 0x8c; 0x82; 0xa8; 0xa6; 0xb4; 0xba;
   0xdb; 0xd5; 0xc7; 0xc9; 0xe3; 0xed; 0xff; 0xf1; 0xab; 0xa5; 0xb7; 0xb9; 0x93; 0x9d; 0x8f; 0x81;
   0x3b; 0x35; 0x27; 0x29; 0x03; 0x0d; 0x1f; 0x11; 0x4b; 0x45; 0x57; 0x59; 0x73; 0x7d; 0x6f; 0x61;
   0xad; 0xa3; 0xb1; 0xbf; 0x95; 0x9b; 0x89; 0x87; 0xdd; 0xd3; 0xc1; 0xcf; 0xe5; 0xeb; 0xf9; 0xf7;
   0x4d; 0x43; 0x51; 0x5f; 0x75; 0x7b; 0x69; 0x67; 0x3d; 0x33; 0x21; 0x2f; 0x05; 0x0b; 0x19; 0x17;
   0x76; 0x78; 0x6a; 0x64; 0x4e; 0x40; 0x52; 0x5c; 0x06; 0x08; 0x1a; 0x14; 0x3e; 0x30; 0x22; 0x2c;
   0x96; 0x98; 0x8a; 0x84; 0xae; 0xa0; 0xb2; 0xbc; 0xe6; 0xe8; 0xfa; 0xf4; 0xde; 0xd0; 0xc2; 0xcc;
   0x41; 0x4f; 0x5d; 0x53; 0x79; 0x77; 0x65; 0x6b; 0x31; 0x3f; 0x2d; 0x23; 0x09; 0x07; 0x15; 0x1b;
   0xa1; 0xaf; 0xbd; 0xb3; 0x99; 0x97; 0x85; 0x8b; 0xd1; 0xdf; 0xcd; 0xc3; 0xe9; 0xe7; 0xf5; 0xfb;
   0x9a; 0x94; 0x86; 0x88; 0xa2; 0xac; 0xbe; 0xb0; 0xea; 0xe4; 0xf6; 0xf8; 0xd2; 0xdc; 0xce; 0xc0;
   0x7a; 0x74; 0x66; 0x68; 0x42; 0x4c; 0x5e; 0x50; 0x0a; 0x04; 0x16; 0x18; 0x32; 0x3c; 0x2e; 0x20;
   0xec; 0xe2; 0xf0; 0xfe; 0xd4; 0xda; 0xc8; 0xc6; 0x9c; 0x92; 0x80; 0x8e; 0xa4; 0xaa; 0xb8; 0xb6;
   0x0c; 0x02; 0x10; 0x1e; 0x34; 0x3a; 0x28; 0x26; 0x7c; 0x72; 0x60; 0x6e; 0x44; 0x4a; 0x58; 0x56;
   0x37; 0x39; 0x2b; 0x25; 0x0f; 0x01; 0x13; 0x1d; 0x47; 0x49; 0x5b; 0x55; 0x7f; 0x71; 0x63; 0x6d;
   0xd7; 0xd9; 0xcb; 0xc5; 0xef; 0xe1; 0xf3; 0xfd; 0xa7; 0xa9; 0xbb; 0xb5; 0x9f; 0x91; 0x83; 0x8d].

Definition rcon : list Z :=
  [0x00; 0x01; 0x02; 0x04; 0x08; 0x10; 0x20; 0x40; 0x80; 0x1b; 0x36].

Infix "⊕" := Z.lxor (at level 50, left associativity).

(** [t[st[i]]]: every table but [rcon] has an entry for each byte. *)
Definition at_ (t : list Z) (st : bytes) (i : nat) : Z := nth (Z.to_nat (nth i st 0)) t 0.

Section nat_indices.
Local Open Scope nat_scope.

Definition shift_rows (st : bytes) : bytes :=
  let st := <[0 := at_ sbox st 0]> st in
  let st := <[4 := at_ sbox st 4]> st in
  let st := <[8 := at_ sbox st 8]> st in
  let st := <[12 := at_ sbox st 12]> st in
  let tmp := at_ sbox st 1 in
  let st := <[1 := at_ sbox st 5]> st in
  let st := <[5 := at_ sbox st 9]> st in
  let st := <[9 := at_ sbox st 13]> st in
  let st := <[13 := tmp]> st in
  let tmp := at_ sbox st 2 in
  let st := <[2 := at_ sbox st 10]> st in
  let st := <[10 := tmp]> st in
  let tmp := at_ sbox st 6 in
  let st := <[6 := at_ sbox st 14]> st in
  let st := <[14 := tmp]> st in
  let tmp := at_ sbox st 15 in
  let st := <[15 := at_ sbox st 11]> st in
  let st := <[11 := at_ sbox st 7]> st in
  let st := <[7 := at_ sbox st 3]> st in
  let st := <[3 := tmp]> st in
  st.

Definition inv_shift_rows (st : bytes) : bytes :=
  let st := <[0 := at_ inv_sbox st 0]> st in
  let st := <[4 := at_ inv_sbox st 4]> st in
  let st := <[8 := at_ inv_sbox st 8]> st in
  let st := <[12 := at_ inv_sbox st 12]> st in
  let tmp := at_ inv_sbox st 13 in
  let st := <[13 := at_ inv_sbox st 9]> st in
  let st := <[9 := at_ inv_sbox st 5]> st in
  let st := <[5 := at_ inv_sbox st 1]> st in
  let st := <[1 := tmp]> st in
  let tmp := at_ inv_sbox st 2 in
  let st := <[2 := at_ inv_sbox st 10]> st in
  let st := <[10 := tmp]> st in
  let tmp := at_ inv_sbox st 6 in
  let st := <[6 := at_ inv_sbox st 14]> st in
  let st := <[14 := tmp]> st in
  let tmp := at_ inv_sbox st 3 in
  let st := <[3 := at_ inv_sbox st 7]> st in
  let st := <[7 := at_ inv_sbox st 11]> st in
  let st := <[11 := at_ inv_sbox st 15]> st in
  let st := <[15 := tmp]> st in
  st.

Definition mix_sub_columns (st : bytes) : bytes :=
  [at_ x2_sbox st 0 ⊕ at_ x3_sbox st 5 ⊕ at_ sbox st 10 ⊕ at_ sbox st 15;
   at_ sbox st 0 ⊕ at_ x2_sbox st 5 ⊕ at_ x3_sbox st 10 ⊕ at_ sbox st 15;
   at_ sbox st 0 ⊕ at_ sbox st 5 ⊕ at_ x2_sbox st 10 ⊕ at_ x3_sbox st 15;
   at_ x3_sbox st 0 ⊕ at_ sbox st 5 ⊕ at_ sbox st 10 ⊕ at_ x2_sbox st 15;
   at_ x2_sbox st 4 ⊕ at_ x3_sbox st 9 ⊕ at_ sbox st 14 ⊕ at_ sbox st 3;
   at_ sbox st 4 ⊕ at_ x2_sbox st 9 ⊕ at_ x3_sbox st 14 ⊕ at_ sbox st 3;
   at_ sbox st 4 ⊕ at_ sbox st 9 ⊕ at_ x2_sbox st 14 ⊕ at_ x3_sbox st 3;
   at_ x3_sbox st 4 ⊕ at_ sbox st 9 ⊕ at_ sbox st 14 ⊕ at_ x2_sbox st 3;
   at_ x2_sbox st 8 ⊕ at_ x3_sbox st 13 ⊕ at_ sbox st 2 ⊕ at_ sbox st 7;
   at_ sbox st 8 ⊕ at_ x2_sbox st 13 ⊕ at_ x3_sbox st 2 ⊕ at_ sbox st 7;
   at_ sbox st 8 ⊕ at_ sbox st 13 ⊕ at_ x2_sbox st 2 ⊕ at_ x3_sbox st 7;
   at_ x3_sbox st 8 ⊕ at_ sbox st 13 ⊕ at_ sbox st 2 ⊕ at_ x2_sbox st 7;
   at_ x2_sbox st 12 ⊕ at_ x3_sbox st 1 ⊕ at_ sbox st 6 ⊕ at_ sbox st 11;
   at_ sbox st 12 ⊕ at_ x2_sbox st 1 ⊕ at_ x3_sbox st 6 ⊕ at_ sbox st 11;
   at_ sbox st 12 ⊕ at_ sbox st 1 ⊕ at_ x2_sbox st 6 ⊕ at_ x3_sbox st 11;
   at_ x3_sbox st 12 ⊕ at_ sbox st 1 ⊕ at_ sbox st 6 ⊕ at_ x2_sbox st 11].

Definition inv_mix_sub_columns (st : bytes) : bytes :=
  let tmp :=
  [at_ x_time_e st 0 ⊕ at_ x_time_b st 1 ⊕ at_ x_time_d st 2 ⊕ at_ x_time_9 st 3;
   at_ x_time_9 st 12 ⊕ at_ x_time_e st 13 ⊕ at_ x_time_b st 14 ⊕ at_ x_time_d st 15;
   at_ x_time_d st 8 ⊕ at_ x_time_9 st 9 ⊕ at_ x_time_e st 10 ⊕ at_ x_time_b st 11;
   at_ x_time_b st 4 ⊕ at_ x_time_d st 5 ⊕ at_ x_time_9 st 6 ⊕ at_ x_time_e st 7;
   at_ x_time_e st 4 ⊕ at_ x_time_b st 5 ⊕ at_ x_time_d st 6 ⊕ at_ x_time_9 st 7;
   at_ x_time_9 st 0 ⊕ at_ x_time_e st 1 ⊕ at_ x_time_b st 2 ⊕ at_ x_time_d st 3;
   at_ x_time_d st 12 ⊕ at_ x_time_9 st 13 ⊕ at_ x_time_e st 14 ⊕ at_ x_time_b st 15;
   at_ x_time_b st 8 ⊕ at_ x_time_d st 9 ⊕ at_ x_time_9 st 10 ⊕ at_ x_time_e st 11;
   at_ x_time_e st 8 ⊕ at_ x_time_b st 9 ⊕ at_ x_time_d st 10 ⊕ at_ x_time_9 st 11;
   at_ x_time_9 st 4 ⊕ at_ x_time_e st 5 ⊕ at_ x_time_b st 6 ⊕ at_ x_time_d st 7;
   at_ x_time_d st 0 ⊕ at_ x_time_9 st 1 ⊕ at_ x_time_e st 2 ⊕ at_ x_time_b st 3;
   at_ x_time_b st 12 ⊕ at_ x_time_d st 13 ⊕ at_ x_time_9 st 14 ⊕ at_ x_time_e st 15;
   at_ x_time_e st 12 ⊕ at_ x_time_b st 13 ⊕ at_ x_time_d st 14 ⊕ at_ x_time_9 st 15;
   at_ x_time_9 st 8 ⊕ at_ x_time_e st 9 ⊕ at_ x_time_b st 10 ⊕ at_ x_time_d st 11;
   at_ x_time_d st 4 ⊕ at_ x_time_9 st 5 ⊕ at_ x_time_e st 6 ⊕ at_ x_time_b st 7;
   at_ x_time_b st 0 ⊕ at_ x_time_d st 1 ⊕ at_ x_time_9 st 2 ⊕ at_ x_time_e st 3] in
  map (fun x => nth (Z.to_nat x) inv_sbox 0%Z) tmp.

End nat_indices.

(** A byte array read and written as an array of 32-bit words. *)
Definition word_at (b : bytes) (i : nat) : Z := le_val (take 4 (drop (4 * i) b)).
Definition put_word (b : bytes) (i : nat) (v : Z) : bytes := take (4 * i) b ++ le 4 v ++ drop (4 * i + 4) b.

Definition add_round_key (st key : bytes) : bytes :=
  fold_left (fun st idx => put_word st idx (word_at st idx ⊕ word_at key idx)) (seq 0 4) st.

(** The four stores at the end of a round of [aes_expand_key]. *)
Definition store_column (expkey : bytes) (idx : nat) (tmp0 tmp1 tmp2 tmp3 : Z) : bytes :=
  let expkey := <[(4 * idx + 0)%nat := nth (4 * idx - 16 + 0) expkey 0 ⊕ tmp0]> expkey in
  let expkey := <[(4 * idx + 1)%nat := nth (4 * idx - 16 + 1) expkey 0 ⊕ tmp1]> expkey in
  let expkey := <[(4 * idx + 2)%nat := nth (4 * idx - 16 + 2) expkey 0 ⊕ tmp2]> expkey in
  <[(4 * idx + 3)%nat := nth (4 * idx - 16 + 3) expkey 0 ⊕ tmp3]> expkey.

(** One round of the loop of [aes_expand_key]; AES_KEYCOLS is 4, so the branch for longer keys is dead. *)
Definition expand_step (expkey : bytes) (idx : nat) : bytes :=
  let e i := nth i expkey 0 in
  let tmp0 := e (4 * idx - 4)%nat in
  let tmp1 := e (4 * idx - 3)%nat in
  let tmp2 := e (4 * idx - 2)%nat in
  let tmp3 := e (4 * idx - 1)%nat in
  let s x := nth (Z.to_nat x) sbox 0 in
  let '(tmp0, tmp1, tmp2, tmp3) :=
    if (idx mod 4 =? 0)%nat
    then (s tmp1 ⊕ nth (idx / 4) rcon 0, s tmp2, s tmp3, s tmp0)
    else (tmp0, tmp1, tmp2, tmp3) in
  store_column expkey idx tmp0 tmp1 tmp2 tmp3.

(** [expkey] is the buffer of AES_EXPAND_KEY_LENGTH bytes, whatever it held. *)
Definition aes_expand_key (key expkey : bytes) : bytes :=
  fold_left expand_step (seq 4 40) (take 16 key ++ drop 16 expkey).

Definition encrypt_round (expkey st : bytes) (round : nat) : bytes :=
  add_round_key (if (round <? 10)%nat then mix_sub_columns st else shift_rows st) (drop (16 * round) expkey).

Definition aes_encrypt (in_ expkey : bytes) : bytes :=
  fold_left (encrypt_round expkey) (seq 1 10) (add_round_key (take 16 in_) expkey).

Definition decrypt_round (expkey st : bytes) (round : nat) : bytes :=
  let st := add_round_key st (drop (16 * round) expkey) in
  if (0 <? round)%nat then inv_mix_sub_columns st else st.

Definition aes_decrypt (in_ expkey : bytes) : bytes :=
  fold_left (decrypt_round expkey) (rev (seq 0 10)) (inv_shift_rows (add_round_key (take 16 in_) (drop (16 * 10) expkey))).

(** ** Chained blocks *)

Definition block_at (mem : bytes) (p : nat) : bytes := take 16 (drop p mem).
Definition store (mem : bytes) (p : nat) (b : bytes) : bytes := take p mem ++ b ++ drop (p + length b) mem.

Definition aes_apply_cbc_chain_data (cbc_chain_data src : bytes) : bytes :=
  zip_with Z.lxor (take 16 src) (take 16 cbc_chain_data).

(** [cbc_chain_data] points to the zeros ([None]) or to the block written last. *)
Fixpoint cbc_encrypt_loop (n : nat) (key_exp mem : bytes) (chain : option nat) (src dst : nat) : bytes :=
  match n with
  | O => mem
  | S n' =>
      let cbc_chain_data := match chain with None => replicate 16 0 | Some p => block_at mem p end in
      let tmp_data := aes_apply_cbc_chain_data cbc_chain_data (block_at mem src) in
      let mem := store mem dst (aes_encrypt tmp_data key_exp) in
      cbc_encrypt_loop n' key_exp mem (Some dst) (src + 16) (dst + 16)
  end.

Definition aes_cbc_encrypt_blocks (key_exp mem : bytes) (src dst num_aes_blocks : nat) : bytes :=
  cbc_encrypt_loop num_aes_blocks key_exp mem None src dst.

Fixpoint cbc_decrypt_loop (n : nat) (key_exp mem cbc_chain_data : bytes) (src dst : nat) : bytes :=
  match n with
  | O => mem
  | S n' =>
      let tmp_block := block_at mem src in
      let tmp_data := aes_decrypt (block_at mem src) key_exp in
      let mem := store mem dst (aes_apply_cbc_chain_data cbc_chain_data tmp_data) in
      cbc_decrypt_loop n' key_exp mem tmp_block (src + 16) (dst + 16)
  end.

Definition aes_cbc_decrypt_blocks (key_exp mem : bytes) (src dst num_aes_blocks : nat) : bytes :=
  cbc_decrypt_loop num_aes_blocks key_exp mem (replicate 16 0) src dst.

(** ** FIPS 197

    The definitions of the standard, section by section. *)

(** 4.2: the field; [x] times a polynomial, and multiplication. *)
Definition xtime (b : Z) : Z := if b <? 128 then 2 * b else (2 * b - 256) ⊕ 0x1b.

Fixpoint gmul_bits (n : nat) (a b : Z) : Z :=
  match n with
  | O => 0
  | S n' => (if Z.odd a then b else 0) ⊕ gmul_bits n' (Z.div2 a) (xtime b)
  end.
Definition gmul (a b : Z) : Z := gmul_bits 8 a b.

(** 5.1.1: the inverse in the field, with 0 for 0, and the affine transformation. *)
Fixpoint gpow (x : Z) (n : nat) : Z := match n with O => 1 | S n' => gmul x (gpow x n') end.
Definition ginv (x : Z) : Z := gpow x 254.

Definition affine (b : Z) : Z :=
  fold_left (fun acc i =>
    let bit k := Z.b2z (Z.testbit b ((i + k) mod 8)) in
    acc + 2 ^ i * ((bit 0 + bit 4 + bit 5 + bit 6 + bit 7 + Z.b2z (Z.testbit 0x63 i)) mod 2)) [0;1;2;3;4;5;6;7] 0.

Definition SBox (b : Z) : Z := affine (ginv b).

(** The state in column-major order: row [r] of column [c]. *)
Definition cell (s : bytes) (r c : nat) : Z := nth (r + 4 * c) s 0.
Definition of_cells (f : nat -> nat -> Z) : bytes :=
  concat (map (fun c => map (fun r => f r c) (seq 0 4)) (seq 0 4)).

Definition SubBytes (s : bytes) : bytes := map SBox s.
Definition ShiftRows (s : bytes) : bytes := of_cells (fun r c => cell s r ((c + r) mod 4)%nat).
Definition MixColumns (s : bytes) : bytes :=
  of_cells (fun r c => let s k := cell s ((r + k) mod 4)%nat c in gmul 2 (s 0%nat) ⊕ gmul 3 (s 1%nat) ⊕ s 2%nat ⊕ s 3%nat).
Definition AddRoundKey (s k : bytes) : bytes := zip_with Z.lxor s k.

(** 5.2: the key expansion for keys of four words, as a list of words. *)
Definition RotWord (w : bytes) : bytes := drop 1 w ++ take 1 w.
Definition SubWord (w : bytes) : bytes := map SBox w.
Definition Rcon (i : nat) : bytes := [gpow 2 (i - 1); 0; 0; 0].

Definition next_word (w : list bytes) (i : nat) : bytes :=
  let temp := nth (i - 1) w [] in
  let temp := if (i mod 4 =? 0)%nat then zip_with Z.lxor (SubWord (RotWord temp)) (Rcon (i / 4)) else temp in
  zip_with Z.lxor (nth (i - 4) w []) temp.

Definition key_words (key : bytes) : list bytes := map (fun i => take 4 (drop (4 * i) key)) (seq 0 4).
Definition KeyExpansion (key : bytes) : list bytes := fold_left (fun w i => w ++ [next_word w i]) (seq 4 40) (key_words key).

(** 5.1: the cipher; [round_key w r] are the four words of round [r]. *)
Definition round_key (w : list bytes) (r : nat) : bytes := concat (take 4 (drop (4 * r) w)).

Definition Cipher (input : bytes) (w : list bytes) : bytes :=
  let s := AddRoundKey input (round_key w 0) in
  let s := fold_left (fun s r => AddRoundKey (MixColumns (ShiftRows (SubBytes s))) (round_key w r)) (seq 1 9) s in
  AddRoundKey (ShiftRows (SubBytes s)) (round_key w 10).

(** ** The tables *)

Definition all_bytes : list Z := map Z.of_nat (seq 0 256).

Lemma byte_in x : byte_ok x -> x ∈ all_bytes.
Proof.
  intros Hx; apply list_elem_of_fmap; exists (Z.to_nat x); split; [unfold byte_ok in Hx; lia|].
  apply elem_of_seq; unfold byte_ok in Hx; lia.
Qed.

(** What holds of every byte by evaluation. *)
Lemma by_bytes (P : Z -> bool) : forallb P all_bytes = true -> forall x, byte_ok x -> P x = true.
Proof. intros H x Hx; apply (proj1 (forallb_forall P all_bytes) H), list_elem_of_In, byte_in, Hx. Qed.

Definition tabulates (t : list Z) (f : Z -> Z) : Prop := forall x, byte_ok x -> nth (Z.to_nat x) t 0 = f x.

Lemma tabulates_by t f : forallb (fun x => nth (Z.to_nat x) t 0 =? f x) all_bytes = true -> tabulates t f.
Proof. intros H x Hx; apply Z.eqb_eq, (by_bytes _ H x Hx). Qed.

Lemma sbox_table : tabulates sbox SBox.
Proof. apply tabulates_by; vm_compute; reflexivity. Qed.
Lemma x2_table : tabulates x2_sbox (fun x => gmul 2 (SBox x)).
Proof. apply tabulates_by; vm_compute; reflexivity. Qed.
Lemma x3_table : tabulates x3_sbox (fun x => gmul 3 (SBox x)).
Proof. apply tabulates_by; vm_compute; reflexivity. Qed.
Lemma x9_table : tabulates x_time_9 (gmul 9).
Proof. apply tabulates_by; vm_compute; reflexivity. Qed.
Lemma xb_table : tabulates x_time_b (gmul 0xb).
Proof. apply tabulates_by; vm_compute; reflexivity. Qed.
Lemma xd_table : tabulates x_time_d (gmul 0xd).
Proof. apply tabulates_by; vm_compute; reflexivity. Qed.
Lemma xe_table : tabulates x_time_e (gmul 0xe).
Proof. apply tabulates_by; vm_compute; reflexivity. Qed.

(** The inverse table undoes the S-box. *)
Lemma inv_table x : byte_ok x -> nth (Z.to_nat (SBox x)) inv_sbox 0 = x.
Proof. intros Hx; apply Z.eqb_eq; revert x Hx; apply (by_bytes (fun x => _ =? x)); vm_compute; reflexivity. Qed.

(** ** Bytes under xor *)

Lemma byte_bits x : byte_ok x <-> 0 <= x /\ forall i, 8 <= i -> Z.testbit x i = false.
Proof.
  unfold byte_ok; split.
  - intros Hx; split; [lia|]; intros i Hi; destruct (Z.eq_dec x 0) as [->|]; [apply Z.bits_0|].
    apply Z.bits_above_log2; [lia|]; pose proof (Z.log2_lt_pow2 x 8); lia.
  - intros [H0 Hb]; split; [done|]; destruct (Z.eq_dec x 0) as [->|]; [lia|].
    change 256 with (2 ^ 8); apply Z.log2_lt_pow2; [lia|].
    destruct (Z.lt_ge_cases (Z.log2 x) 8) as [|Hge]; [done|].
    specialize (Hb (Z.log2 x) Hge); rewrite Z.bit_log2 in Hb by lia; done.
Qed.

Lemma lxor_byte x y : byte_ok x -> byte_ok y -> byte_ok (x ⊕ y).
Proof.
  rewrite !byte_bits; intros [Hx Bx] [Hy By]; split; [by apply Z.lxor_nonneg|].
  intros i Hi; by rewrite Z.lxor_spec, Bx, By.
Qed.

Lemma zip_bytes a : forall b, Forall byte_ok a -> Forall byte_ok b -> Forall byte_ok (zip_with Z.lxor a b).
Proof.
  induction a as [|x a IH]; intros [|y b] Ha Hb; cbn [zip_with]; try apply Forall_nil; try done.
  apply Forall_cons in Ha as [Hx Ha], Hb as [Hy Hb]; apply Forall_cons; split; [by apply lxor_byte|by apply IH].
Qed.

Lemma lxor_low x u y v : byte_ok x -> byte_ok y -> (x + 256 * u) ⊕ (y + 256 * v) = (x ⊕ y) + 256 * (u ⊕ v).
Proof.
  assert (forall a k, byte_ok a -> a + 256 * k = Z.lor a (Z.shiftl k 8)) as E.
  { intros a k Ha; rewrite Z.shiftl_mul_pow2, (Z.mul_comm k) by lia; change (2 ^ 8) with 256.
    rewrite <- Z.lxor_lor, <- Z.add_nocarry_lxor; [done|..]; apply byte_bits in Ha as [_ Ha];
      apply Z.bits_inj'; intros i Hi; rewrite Z.land_spec, Z.bits_0; change 256 with (2 ^ 8);
      rewrite <- (Z.mul_comm k), Z.mul_pow2_bits by lia;
      (destruct (Z.lt_ge_cases i 8) as [Hl|Hg]; [rewrite (Z.testbit_neg_r k) by lia; apply andb_false_r|by rewrite Ha]). }
  intros Hx Hy; rewrite !E by (done || by apply lxor_byte); apply byte_bits in Hx as [_ Hx], Hy as [_ Hy].
  apply Z.bits_inj'; intros i Hi; rewrite Z.lxor_spec, !Z.lor_spec, Z.lxor_spec, !Z.shiftl_spec, Z.lxor_spec by lia.
  destruct (Z.lt_ge_cases i 8) as [Hl|Hg].
  - rewrite !(Z.testbit_neg_r _ (i - 8)) by lia; by rewrite !orb_false_r.
  - by rewrite Hx, Hy.
Qed.

Lemma le_val_lxor a : forall b, length a = length b -> Forall byte_ok a -> Forall byte_ok b ->
  le_val a ⊕ le_val b = le_val (zip_with Z.lxor a b).
Proof.
  induction a as [|x a IH]; intros [|y b] Hl Ha Hb; try done; apply Forall_cons in Ha as [Hx Ha], Hb as [Hy Hb].
  cbn [le_val zip_with]; rewrite lxor_low by done; by rewrite IH by (done || by injection Hl).
Qed.

Lemma le_S n z : le (S n) z = z mod 256 :: le n (z / 256).
Proof. done. Qed.

Lemma le_le_val l : Forall byte_ok l -> le (length l) (le_val l) = l.
Proof.
  induction l as [|x l IH]; intros Hl; [done|]; apply Forall_cons in Hl as [Hx Hl]; cbn [length le_val]; unfold byte_ok in Hx; rewrite le_S.
  f_equal.
  - rewrite (Z.mul_comm 256), Z.mod_add by lia; apply Z.mod_small; lia.
  - etransitivity; [|by apply IH]; f_equal; rewrite (Z.mul_comm 256), Z.div_add by lia; rewrite Z.div_small; lia.
Qed.

(** ** The state *)

Definition shape (st : bytes) : Prop := length st = 16%nat /\ Forall byte_ok st.

(** A property of every element of an explicit list. *)
Ltac each tac := repeat (apply Forall_cons; split; [tac|]); by apply Forall_nil.

(** Sixteen bytes by name. *)
Ltac split16 st H :=
  let Hl := fresh in let Fb := fresh in destruct H as [Hl Fb];
  do 16 (destruct st as [|? st]; [discriminate Hl|]); destruct st as [|]; [|discriminate Hl]; clear Hl;
  repeat (apply Forall_cons in Fb as [? Fb]); clear Fb.

Lemma shape_cells f : (forall r c, byte_ok (f r c)) -> shape (of_cells f).
Proof. intros Hf; split; [done|]; unfold of_cells; cbn; repeat (constructor; [apply Hf|]); constructor. Qed.

Lemma shape_zip st k : shape st -> (16 <= length k)%nat -> Forall byte_ok k -> shape (zip_with Z.lxor st (take 16 k)).
Proof.
  intros [Hl Fb] Hk Fk; split; [rewrite length_zip_with, length_take; lia|by apply zip_bytes; [|apply Forall_take]].
Qed.

(** One word of [add_round_key]. *)
Lemma put_word_lxor st k i : (4 * i + 4 <= length st)%nat -> (4 * i + 4 <= length k)%nat -> Forall byte_ok st -> Forall byte_ok k ->
  put_word st i (word_at st i ⊕ word_at k i) =
  take (4 * i) st ++ zip_with Z.lxor (take 4 (drop (4 * i) st)) (take 4 (drop (4 * i) k)) ++ drop (4 * i + 4) st.
Proof.
  intros Hs Hk Fs Fk; unfold put_word, word_at.
  assert (length (take 4 (drop (4 * i) st)) = 4%nat) as H4 by (rewrite length_take, length_drop; lia).
  assert (length (take 4 (drop (4 * i) k)) = 4%nat) as K4 by (rewrite length_take, length_drop; lia).
  rewrite le_val_lxor by (by rewrite ?H4, ?K4 || by apply Forall_take, Forall_drop).
  set (w := zip_with _ _ _); replace 4%nat with (length w) at 2 by (unfold w; rewrite length_zip_with; lia).
  rewrite le_le_val; [done|]; apply zip_bytes; by apply Forall_take, Forall_drop.
Qed.

(** Rewrites word [i] of the key addition on lists of named bytes. *)
Ltac word i :=
  rewrite (put_word_lxor _ _ i) by (first [done | cbn [length]; lia
    | each ltac:(by auto using lxor_byte)]);
    cbn [take drop Nat.mul Nat.add app zip_with].

(** [add_round_key] is the xor with the first 16 bytes of the key. *)
Lemma add_round_key_eq st k : shape st -> (16 <= length k)%nat -> Forall byte_ok k ->
  add_round_key st k = AddRoundKey st (take 16 k).
Proof.
  intros Hst Hk Fk; do 16 (destruct k as [|? k]; [cbn in Hk; lia|]); unfold add_round_key; cbn [fold_left seq take].
  split16 st Hst; pose proof Fk as Fk'; repeat (apply Forall_cons in Fk' as [? Fk']).
  word 0%nat; word 1%nat; word 2%nat; word 3%nat; done.
Qed.

(** ** The field *)

Lemma xtime_lxor x y : byte_ok x -> byte_ok y -> xtime (x ⊕ y) = xtime x ⊕ xtime y.
Proof.
  intros Hx Hy; apply Z.eqb_eq; revert y Hy; apply (by_bytes (fun y => _ =? xtime x ⊕ xtime y)); revert x Hx.
  apply (by_bytes (fun x => forallb (fun y => xtime (x ⊕ y) =? xtime x ⊕ xtime y) all_bytes)); vm_compute; reflexivity.
Qed.

Lemma xtime_byte x : byte_ok x -> byte_ok (xtime x).
Proof.
  intros Hx; assert ((0 <=? xtime x) && (xtime x <? 256) = true) as E; [|unfold byte_ok; zbool; lia].
  revert x Hx; apply (by_bytes (fun x => (0 <=? xtime x) && (xtime x <? 256))); vm_compute; reflexivity.
Qed.

Lemma byte_0 : byte_ok 0.
Proof. unfold byte_ok; lia. Qed.

Lemma gmul_bits_byte n : forall a b, byte_ok b -> byte_ok (gmul_bits n a b).
Proof.
  induction n as [|n IH]; intros a b Hb; [apply byte_0|]; cbn [gmul_bits].
  apply lxor_byte; [destruct (Z.odd a); [done|apply byte_0]|apply IH, xtime_byte, Hb].
Qed.

Lemma gmul_byte a b : byte_ok b -> byte_ok (gmul a b).
Proof. apply gmul_bits_byte. Qed.

Lemma lxor_swap a b c d : (a ⊕ b) ⊕ (c ⊕ d) = (a ⊕ c) ⊕ (b ⊕ d).
Proof. rewrite !Z.lxor_assoc; f_equal; rewrite <- !Z.lxor_assoc; f_equal; apply Z.lxor_comm. Qed.

Lemma gmul_bits_lxor n : forall a b c, byte_ok b -> byte_ok c ->
  gmul_bits n a (b ⊕ c) = gmul_bits n a b ⊕ gmul_bits n a c.
Proof.
  induction n as [|n IH]; intros a b c Hb Hc; [done|]; cbn [gmul_bits].
  rewrite xtime_lxor, IH by (done || by apply xtime_byte); rewrite lxor_swap; f_equal; by destruct (Z.odd a).
Qed.

(** Multiplication distributes over addition. *)
Lemma gmul_lxor a b c : byte_ok b -> byte_ok c -> gmul a (b ⊕ c) = gmul a b ⊕ gmul a c.
Proof. apply gmul_bits_lxor. Qed.

Lemma sbox_byte x : byte_ok x -> byte_ok (SBox x).
Proof.
  intros Hx; assert ((0 <=? SBox x) && (SBox x <? 256) = true) as E; [|unfold byte_ok; zbool; lia].
  revert x Hx; apply (by_bytes (fun x => (0 <=? SBox x) && (SBox x <? 256))); vm_compute; reflexivity.
Qed.

(** A row of the inverse matrix times a column of the matrix. *)
Definition dot (p q r s a b c d x : Z) : Z := gmul p (gmul a x) ⊕ gmul q (gmul b x) ⊕ gmul r (gmul c x) ⊕ gmul s (gmul d x).

Lemma dot_table x : byte_ok x ->
  dot 0xe 0xb 0xd 9 2 1 1 3 x = x /\ dot 0xe 0xb 0xd 9 3 2 1 1 x = 0 /\
  dot 0xe 0xb 0xd 9 1 3 2 1 x = 0 /\ dot 0xe 0xb 0xd 9 1 1 3 2 x = 0.
Proof.
  intros Hx; rewrite <- !Z.eqb_eq, <- !andb_true_iff; revert x Hx.
  apply (by_bytes (fun x => (dot 0xe 0xb 0xd 9 2 1 1 3 x =? x) && ((dot 0xe 0xb 0xd 9 3 2 1 1 x =? 0) &&
    ((dot 0xe 0xb 0xd 9 1 3 2 1 x =? 0) && (dot 0xe 0xb 0xd 9 1 1 3 2 x =? 0))))); vm_compute; reflexivity.
Qed.

Lemma gmul_1 x : byte_ok x -> gmul 1 x = x.
Proof. intros Hx; apply Z.eqb_eq; revert x Hx; apply (by_bytes (fun x => gmul 1 x =? x)); vm_compute; reflexivity. Qed.

(** One column: the first entry of the unmixed column is the first of the mixed one.  The
    other rows are the same statement on a rotated column. *)
Lemma unmix a b c d : byte_ok a -> byte_ok b -> byte_ok c -> byte_ok d ->
  gmul 0xe (gmul 2 a ⊕ gmul 3 b ⊕ c ⊕ d) ⊕ gmul 0xb (a ⊕ gmul 2 b ⊕ gmul 3 c ⊕ d) ⊕
  gmul 0xd (a ⊕ b ⊕ gmul 2 c ⊕ gmul 3 d) ⊕ gmul 9 (gmul 3 a ⊕ b ⊕ c ⊕ gmul 2 d) = a.
Proof.
  intros Ha Hb Hc Hd; destruct (dot_table a Ha) as (Ea & _ & _ & _); destruct (dot_table b Hb) as (_ & Eb & _ & _).
  destruct (dot_table c Hc) as (_ & _ & Ec & _); destruct (dot_table d Hd) as (_ & _ & _ & Ed).
  transitivity (dot 0xe 0xb 0xd 9 2 1 1 3 a ⊕ dot 0xe 0xb 0xd 9 3 2 1 1 b ⊕
    dot 0xe 0xb 0xd 9 1 3 2 1 c ⊕ dot 0xe 0xb 0xd 9 1 1 3 2 d); [|rewrite Ea, Eb, Ec, Ed; by rewrite !Z.lxor_0_r].
  unfold dot; rewrite !gmul_lxor, !(gmul_1 a), !(gmul_1 b), !(gmul_1 c), !(gmul_1 d) by (auto 10 using lxor_byte, gmul_byte).
  apply Z.bits_inj'; intros i _; rewrite !Z.lxor_spec; btauto.
Qed.

(** Equality of sums up to the order of their terms, and of sums of products. *)
Ltac xor_ac := apply Z.bits_inj'; let i := fresh in intros i _; rewrite !Z.lxor_spec; btauto.
Ltac gmul_cong :=
  lazymatch goal with
  | |- _ ⊕ gmul _ _ = _ ⊕ gmul _ _ => f_equal; [gmul_cong|f_equal; xor_ac]
  | |- gmul _ _ = gmul _ _ => f_equal; xor_ac
  end.

Lemma unmix_rows a b c d : byte_ok a -> byte_ok b -> byte_ok c -> byte_ok d ->
  let t0 := gmul 2 a ⊕ gmul 3 b ⊕ c ⊕ d in let t1 := a ⊕ gmul 2 b ⊕ gmul 3 c ⊕ d in
  let t2 := a ⊕ b ⊕ gmul 2 c ⊕ gmul 3 d in let t3 := gmul 3 a ⊕ b ⊕ c ⊕ gmul 2 d in
  (gmul 0xe t0 ⊕ gmul 0xb t1 ⊕ gmul 0xd t2 ⊕ gmul 9 t3 = a /\ gmul 9 t0 ⊕ gmul 0xe t1 ⊕ gmul 0xb t2 ⊕ gmul 0xd t3 = b) /\
  gmul 0xd t0 ⊕ gmul 9 t1 ⊕ gmul 0xe t2 ⊕ gmul 0xb t3 = c /\ gmul 0xb t0 ⊕ gmul 0xd t1 ⊕ gmul 9 t2 ⊕ gmul 0xe t3 = d.
Proof.
  assert (forall u v w x, u ⊕ v ⊕ w ⊕ x = v ⊕ w ⊕ x ⊕ u) as Hrot by (intros; xor_ac).
  intros Ha Hb Hc Hd t0 t1 t2 t3; split; split; [by apply unmix|..].
  - rewrite Hrot; etransitivity; [|apply (unmix b c d a Hb Hc Hd Ha)]; subst t0 t1 t2 t3; gmul_cong.
  - rewrite 2 Hrot; etransitivity; [|apply (unmix c d a b Hc Hd Ha Hb)]; subst t0 t1 t2 t3; gmul_cong.
  - rewrite 3 Hrot; etransitivity; [|apply (unmix d a b c Hd Ha Hb Hc)]; subst t0 t1 t2 t3; gmul_cong.
Qed.

(** ** The transformations *)

#[local] Opaque sbox inv_sbox x2_sbox x3_sbox x_time_9 x_time_b x_time_d x_time_e rcon SBox gmul.

Lemma at_sub t f st (Ht : tabulates t f) (H : shape st) i : (i < 16)%nat -> at_ t st i = f (nth i st 0).
Proof.
  intros Hi; apply Ht; destruct H as [Hl Fb]; apply (proj1 (Forall_forall _ _) Fb), list_elem_of_In, nth_In; lia.
Qed.

Lemma shape_sub st : shape st -> shape (SubBytes st).
Proof.
  intros [Hl Fb]; split; [by unfold SubBytes; rewrite length_map|]; unfold SubBytes; clear Hl.
  induction Fb; cbn [map]; constructor; [by apply sbox_byte|done].
Qed.

Lemma map_table t f st : tabulates t f -> Forall byte_ok st -> map (fun x => nth (Z.to_nat x) t 0) st = map f st.
Proof. intros Ht; induction 1 as [|x st Hx _ IH]; cbn [map]; [done|by rewrite Ht, IH by done]. Qed.

Lemma shift_rows_eq st : shape st -> shift_rows st = ShiftRows (SubBytes st).
Proof.
  intros H; unfold SubBytes; rewrite <- (map_table sbox SBox) by (apply sbox_table || apply H).
  split16 st H; unfold shift_rows; generalize sbox as t; intros t; reflexivity.
Qed.

Lemma mix_sub_columns_eq st : shape st -> mix_sub_columns st = MixColumns (ShiftRows (SubBytes st)).
Proof.
  intros H; unfold mix_sub_columns.
  rewrite !(at_sub _ _ st sbox_table H), !(at_sub _ _ st x2_table H), !(at_sub _ _ st x3_table H) by lia.
  split16 st H; cbn [nth]; unfold MixColumns, ShiftRows, SubBytes, of_cells, cell.
  cbn -[Z.lxor]; repeat (apply (f_equal2 cons); [xor_ac|]); done.
Qed.

(** The inverse transformations. *)
Lemma inv_shift_shift st : shape st -> inv_shift_rows (shift_rows st) = st.
Proof.
  intros H; rewrite shift_rows_eq by done; unfold SubBytes; split16 st H; cbn -[inv_shift_rows].
  transitivity (map (fun x => nth (Z.to_nat (SBox x)) inv_sbox 0) [z; z0; z1; z2; z3; z4; z5; z6; z7; z8; z9; z10; z11; z12; z13; z14]).
  - unfold inv_shift_rows; generalize inv_sbox as t; intros t; reflexivity.
  - cbn [map]; by rewrite !inv_table by done.
Qed.

Lemma shape_mix st : shape st -> shape (mix_sub_columns st).
Proof.
  intros H; rewrite mix_sub_columns_eq by done; apply shape_cells; intros r c.
  assert (forall s r c, shape s -> byte_ok (cell s r c)) as Hc.
  { intros s r' c' [Hl Fb]; unfold cell; destruct (Nat.lt_ge_cases (r' + 4 * c') 16).
    - apply (proj1 (Forall_forall _ _) Fb), list_elem_of_In, nth_In; lia.
    - rewrite nth_overflow by lia; apply byte_0. }
  assert (shape (ShiftRows (SubBytes st))) as Hs by (apply shape_cells; intros; by apply Hc, shape_sub).
  auto 10 using lxor_byte, gmul_byte.
Qed.

Lemma inv_mix_mix st : shape st -> inv_mix_sub_columns (mix_sub_columns st) = st.
Proof.
  intros H; pose proof (shape_mix st H) as Hm; unfold inv_mix_sub_columns.
  rewrite !(at_sub _ _ _ x9_table Hm), !(at_sub _ _ _ xb_table Hm), !(at_sub _ _ _ xd_table Hm), !(at_sub _ _ _ xe_table Hm) by lia.
  unfold mix_sub_columns; cbn [nth].
  rewrite !(at_sub _ _ st sbox_table H), !(at_sub _ _ st x2_table H), !(at_sub _ _ st x3_table H) by lia.
  split16 st H; cbn [nth].
  assert (forall a b c d, byte_ok a -> byte_ok b -> byte_ok c -> byte_ok d -> _) as U
    by (intros a b c d Ha Hb Hc Hd; exact (unmix_rows (SBox a) (SBox b) (SBox c) (SBox d) (sbox_byte _ Ha) (sbox_byte _ Hb) (sbox_byte _ Hc) (sbox_byte _ Hd))).
  cbv zeta in U.
  destruct (U z z4 z9 z14) as [[E0 E1] [E2 E3]]; try done; rewrite E0, E1, E2, E3; clear E0 E1 E2 E3.
  destruct (U z3 z8 z13 z2) as [[E0 E1] [E2 E3]]; try done; rewrite E0, E1, E2, E3; clear E0 E1 E2 E3.
  destruct (U z7 z12 z1 z6) as [[E0 E1] [E2 E3]]; try done; rewrite E0, E1, E2, E3; clear E0 E1 E2 E3.
  destruct (U z11 z0 z5 z10) as [[E0 E1] [E2 E3]]; try done; rewrite E0, E1, E2, E3; clear E0 E1 E2 E3.
  cbn [map]; by rewrite !inv_table by done.
Qed.

(** ** Decryption undoes encryption *)

Definition expkey_ok (k : bytes) : Prop := (176 <= length k)%nat /\ Forall byte_ok k.

Lemma expkey_drop k r : expkey_ok k -> (r <= 10)%nat -> (16 <= length (drop (16 * r) k))%nat /\ Forall byte_ok (drop (16 * r) k).
Proof. intros [Hl Fb] Hr; split; [rewrite length_drop; lia|by apply Forall_drop]. Qed.

Lemma zip_zip a : forall b, (length a <= length b)%nat -> zip_with Z.lxor (zip_with Z.lxor a b) b = a.
Proof.
  induction a as [|x a IH]; intros [|y b] Hl; cbn [zip_with length] in *; try done; [lia|].
  rewrite IH by lia; f_equal; by rewrite Z.lxor_assoc, Z.lxor_nilpotent, Z.lxor_0_r.
Qed.

Section blocks.
Context (k : bytes) (Hk : expkey_ok k).

Lemma ark_shape st r : (r <= 10)%nat -> shape st -> shape (add_round_key st (drop (16 * r) k)).
Proof.
  intros Hr Hst; destruct (expkey_drop k r Hk Hr) as [Hl Fb]; rewrite add_round_key_eq by done; by apply shape_zip.
Qed.

Lemma ark_ark st r : (r <= 10)%nat -> shape st ->
  add_round_key (add_round_key st (drop (16 * r) k)) (drop (16 * r) k) = st.
Proof.
  intros Hr Hst; pose proof (ark_shape st r Hr Hst) as Hs; destruct (expkey_drop k r Hk Hr) as [Hl Fb].
  rewrite (add_round_key_eq (add_round_key _ _)), add_round_key_eq by done; apply zip_zip.
  destruct Hst as [-> _]; rewrite length_take; lia.
Qed.

Lemma shape_shift st : shape st -> shape (shift_rows st).
Proof.
  intros H; rewrite shift_rows_eq by done; apply shape_sub in H; destruct H as [Hl Fb]; apply shape_cells; intros r c; unfold cell.
  destruct (Nat.lt_ge_cases (r + 4 * ((c + r) mod 4)) 16); [|rewrite nth_overflow by lia; apply byte_0].
  apply (proj1 (Forall_forall _ _) Fb), list_elem_of_In, nth_In; lia.
Qed.

Lemma encrypt_round_shape st r : (r <= 10)%nat -> shape st -> shape (encrypt_round k st r).
Proof. intros Hr Hst; apply ark_shape; [done|]; destruct (r <? 10)%nat; [by apply shape_mix|by apply shape_shift]. Qed.

Lemma decrypt_encrypt_round st r : (0 < r < 10)%nat -> shape st -> decrypt_round k (encrypt_round k st r) r = st.
Proof.
  intros Hr Hst; unfold decrypt_round, encrypt_round; destruct (Nat.ltb_spec r 10); [|lia]; destruct (Nat.ltb_spec 0 r); [|lia].
  rewrite ark_ark by (lia || by apply shape_mix); by apply inv_mix_mix.
Qed.

Lemma first_shape st : shape st -> shape (add_round_key st k).
Proof. intros Hst; exact (ark_shape st 0 ltac:(lia) Hst). Qed.

Lemma rounds_undo n : forall st, (n <= 9)%nat -> shape st ->
  fold_left (decrypt_round k) (rev (seq 0 (S n))) (fold_left (encrypt_round k) (seq 1 n) (add_round_key st k)) = st /\
  shape (fold_left (encrypt_round k) (seq 1 n) (add_round_key st k)).
Proof.
  induction n as [|n IH]; intros st Hn Hst.
  - split; [|by apply first_shape]; exact (ark_ark st 0 ltac:(lia) Hst).
  - destruct (IH st ltac:(lia) Hst) as [E Hs]; rewrite (seq_S n 1), fold_left_app; cbn [fold_left].
    split; [|apply encrypt_round_shape; [lia|done]].
    rewrite (seq_S (S n) 0), rev_app_distr; cbn [rev app fold_left Nat.add]; by rewrite decrypt_encrypt_round by (done || lia).
Qed.

Lemma take_16 st : shape st -> take 16 st = st.
Proof. intros [Hl _]; apply firstn_all2; lia. Qed.

Lemma encrypt_shape st : shape st -> shape (aes_encrypt st k).
Proof.
  intros Hst; unfold aes_encrypt; rewrite take_16 by done; destruct (rounds_undo 9 st ltac:(lia) Hst) as [_ Hs].
  rewrite (seq_S 9 1), fold_left_app; cbn [fold_left]; by apply encrypt_round_shape; [lia|].
Qed.

Lemma decrypt_encrypt st : shape st -> aes_decrypt (aes_encrypt st k) k = st.
Proof.
  intros Hst; unfold aes_decrypt; rewrite (take_16 _ (encrypt_shape st Hst)); unfold aes_encrypt; rewrite take_16 by done.
  destruct (rounds_undo 9 st ltac:(lia) Hst) as [E Hs]; rewrite (seq_S 9 1), fold_left_app; cbn [fold_left Nat.add].
  set (s := fold_left _ _ _) in *; unfold encrypt_round at 1; destruct (Nat.ltb_spec 10 10); [lia|].
  rewrite ark_ark by (lia || by apply shape_shift); by rewrite inv_shift_shift.
Qed.
End blocks.

(** ** The cipher of the standard *)

Lemma encrypt_cipher k w st : expkey_ok k -> (forall r, (r <= 10)%nat -> round_key w r = take 16 (drop (16 * r) k)) ->
  shape st -> aes_encrypt st k = Cipher st w.
Proof.
  intros Hk Hw Hst; unfold aes_encrypt, Cipher; rewrite take_16 by done.
  assert (forall s r, (r <= 10)%nat -> shape s -> add_round_key s (drop (16 * r) k) = AddRoundKey s (round_key w r)) as Ha.
  { intros s r Hr Hs; destruct (expkey_drop k r Hk Hr); by rewrite Hw, add_round_key_eq by done. }
  assert (forall n, (n <= 9)%nat -> fold_left (encrypt_round k) (seq 1 n) (add_round_key st k) =
    fold_left (fun s r => AddRoundKey (MixColumns (ShiftRows (SubBytes s))) (round_key w r)) (seq 1 n) (AddRoundKey st (round_key w 0))) as Hn.
  { induction n as [|n IH]; intros Hn; [exact (Ha st 0%nat ltac:(lia) Hst)|].
    destruct (rounds_undo k Hk n st ltac:(lia) Hst) as [_ Hs].
    rewrite !(seq_S n 1), !fold_left_app; cbn [fold_left]; rewrite <- IH by lia; unfold encrypt_round.
    destruct (Nat.ltb_spec (1 + n) 10); [|lia]; rewrite Ha by (lia || by apply shape_mix); by rewrite mix_sub_columns_eq. }
  destruct (rounds_undo k Hk 9 st ltac:(lia) Hst) as [_ Hs].
  rewrite (seq_S 9 1), fold_left_app; cbn [fold_left Nat.add]; rewrite <- Hn by lia; unfold encrypt_round at 1.
  destruct (Nat.ltb_spec 10 10); [lia|]; rewrite Ha by (lia || by apply shape_shift); by rewrite shift_rows_eq.
Qed.

(** ** The key schedule *)

Definition word_ok (x : bytes) : Prop := length x = 4%nat /\ Forall byte_ok x.

Lemma concat_length w : Forall word_ok w -> length (concat w) = (4 * length w)%nat.
Proof. induction 1 as [|x w [Hx _] _ IH]; [done|]; cbn [concat length]; rewrite length_app, IH; lia. Qed.

Lemma nth_concat w i j : Forall word_ok w -> (i < length w)%nat -> (j < 4)%nat ->
  nth (4 * i + j) (concat w) 0 = nth j (nth i w []) 0.
Proof.
  intros Hw; revert i; induction Hw as [|x w [Hx _] _ IH]; intros i Hi Hj; [cbn in Hi; lia|]; cbn [concat].
  destruct i as [|i]; [rewrite app_nth1 by lia; f_equal; lia|].
  rewrite app_nth2 by lia; cbn [nth]; rewrite <- IH by (cbn in Hi; lia); f_equal; lia.
Qed.

Lemma nth_word w i : Forall word_ok w -> (i < length w)%nat -> word_ok (nth i w []).
Proof. intros Hw Hi; apply (proj1 (Forall_forall _ _) Hw), list_elem_of_In, nth_In, Hi. Qed.

Lemma rcon_table i : (1 <= i <= 10)%nat -> nth i rcon 0 = gpow 2 (i - 1) /\ byte_ok (gpow 2 (i - 1)).
Proof.
  intros Hi; do 11 (destruct i as [|i]; [first [lia|vm_compute; done]|]); lia.
Qed.

Lemma insert_at (l1 l2 : bytes) i j x : length l1 = i -> <[(i + j)%nat := x]> (l1 ++ l2) = l1 ++ <[j := x]> l2.
Proof. intros <-; apply insert_app_r. Qed.

(** The stores append a word: they read in front of what they write. *)
Lemma store_column_eq w rest idx t0 t1 t2 t3 : Forall word_ok w -> length w = idx -> (4 <= idx)%nat -> (4 <= length rest)%nat ->
  store_column (concat w ++ rest) idx t0 t1 t2 t3 = concat w ++ zip_with Z.lxor (nth (idx - 4) w []) [t0; t1; t2; t3] ++ drop 4 rest.
Proof.
  intros Hw Hl Hi Hr; pose proof (concat_length w Hw) as Hc; rewrite Hl in Hc.
  do 4 (destruct rest as [|? rest]; [cbn in Hr; lia|]); cbn [drop]; unfold store_column.
  assert (forall j l, (j < 4)%nat -> nth (4 * idx - 16 + j) (concat w ++ l) 0 = nth j (nth (idx - 4) w []) 0) as Hn.
  { intros j l Hj; rewrite app_nth1 by lia; replace (4 * idx - 16)%nat with (4 * (idx - 4))%nat by lia; apply nth_concat; [done|lia|done]. }
  destruct (nth_word w (idx - 4) Hw ltac:(lia)) as [L4 _]; destruct (nth (idx - 4) w []) as [|b0 [|b1 [|b2 [|b3 [|]]]]]; try done.
  rewrite Hn, (insert_at (concat w)) by (done || lia); cbn [insert list_insert nth].
  rewrite Hn, (insert_at (concat w)) by (done || lia); cbn [insert list_insert nth].
  rewrite Hn, (insert_at (concat w)) by (done || lia); cbn [insert list_insert nth].
  rewrite Hn, (insert_at (concat w)) by (done || lia); done.
Qed.

(** One step appends the next word of the standard. *)
Lemma expand_step_eq w rest idx : Forall word_ok w -> length w = idx -> (4 <= idx < 44)%nat -> (4 <= length rest)%nat ->
  expand_step (concat w ++ rest) idx = concat (w ++ [next_word w idx]) ++ drop 4 rest /\ word_ok (next_word w idx).
Proof.
  intros Hw Hl Hi Hr; pose proof (concat_length w Hw) as Hc; rewrite Hl in Hc.
  assert (forall j l, (j < 4)%nat -> nth (4 * (idx - 1) + j) (concat w ++ l) 0 = nth j (nth (idx - 1) w []) 0) as Hn.
  { intros j l Hj; rewrite app_nth1 by lia; apply nth_concat; [done|lia|done]. }
  unfold expand_step, next_word.
  replace (4 * idx - 4)%nat with (4 * (idx - 1) + 0)%nat by lia; replace (4 * idx - 3)%nat with (4 * (idx - 1) + 1)%nat by lia.
  replace (4 * idx - 2)%nat with (4 * (idx - 1) + 2)%nat by lia; replace (4 * idx - 1)%nat with (4 * (idx - 1) + 3)%nat by lia.
  rewrite !Hn by lia; rewrite concat_app; cbn [concat]; rewrite app_nil_r, <- app_assoc.
  destruct (nth_word w (idx - 1) Hw ltac:(lia)) as [L1 F1]; destruct (nth_word w (idx - 4) Hw ltac:(lia)) as [L4 F4].
  destruct (nth (idx - 1) w []) as [|a0 [|a1 [|a2 [|a3 [|]]]]]; try done; cbn [nth]; repeat (apply Forall_cons in F1 as [? F1]).
  destruct (Nat.eqb_spec (idx mod 4) 0) as [Hm|Hm].
  - destruct (rcon_table (idx / 4)) as [Er Hb];
      [pose proof (Nat.Div0.div_lt_upper_bound idx 4 11); pose proof (Nat.div_le_lower_bound idx 4 1); lia|].
    rewrite !sbox_table, Er, store_column_eq by (done || lia); unfold Rcon, SubWord, RotWord; cbn [take drop app map].
    set (t := zip_with Z.lxor [_; _; _; _] _); assert (t = [SBox a1 ⊕ gpow 2 (idx / 4 - 1); SBox a2; SBox a3; SBox a0]) as ->
      by (unfold t; cbn [zip_with]; by rewrite !Z.lxor_0_r).
    split; [done|]; split; [rewrite length_zip_with, L4; done|]; apply zip_bytes; [done|].
    each ltac:(by auto using lxor_byte, sbox_byte).
  - rewrite store_column_eq by (done || lia); split; [done|]; split; [rewrite length_zip_with, L4; done|].
    apply zip_bytes; [done|]; each ltac:(done).
Qed.

(** The loop, word by word. *)
Lemma expand_loop key expkey n : shape key -> length expkey = 176%nat -> (n <= 40)%nat ->
  let w := fold_left (fun w i => w ++ [next_word w i]) (seq 4 n) (key_words key) in
  fold_left expand_step (seq 4 n) (take 16 key ++ drop 16 expkey) = concat w ++ drop (16 + 4 * n) expkey /\
  Forall word_ok w /\ length w = (4 + n)%nat.
Proof.
  intros Hkey Hx; induction n as [|n IH]; intros Hn.
  - rewrite take_16 by done; split16 key Hkey; cbn [fold_left seq]; split; [done|]; split; [|done].
    unfold key_words; cbn; each ltac:(split; [done|each ltac:(done)]).
  - destruct (IH ltac:(lia)) as (E & Hw & Hl); cbn zeta; rewrite !seq_S, !fold_left_app; cbn [fold_left].
    rewrite E; set (w := fold_left _ (seq 4 n) (key_words key)) in *.
    destruct (expand_step_eq w (drop (16 + 4 * n) expkey) (4 + n)) as [-> Hnw]; [done|done|lia|rewrite length_drop; lia|].
    split; [|split; [by apply Forall_app; split; [|apply Forall_singleton]|rewrite length_app, Hl; cbn; lia]].
    f_equal; rewrite drop_drop; f_equal; lia.
Qed.

Lemma round_keys w r : Forall word_ok w -> length w = 44%nat -> (r <= 10)%nat -> round_key w r = take 16 (drop (16 * r) (concat w)).
Proof.
  intros Hw Hl Hr; unfold round_key; rewrite <- (take_drop (4 * r) w) at 2; rewrite concat_app.
  assert (length (concat (take (4 * r) w)) = (16 * r)%nat) as H1
    by (rewrite concat_length, length_take by (by apply Forall_take); lia).
  rewrite <- (Nat.add_0_r (16 * r)), drop_exact, drop_0 by done.
  rewrite <- (take_drop 4 (drop (4 * r) w)) at 2; rewrite concat_app; symmetry; apply take_exact.
  rewrite concat_length, length_take, length_drop by (by apply Forall_take, Forall_drop); lia.
Qed.

Lemma concat_bytes w : Forall word_ok w -> Forall byte_ok (concat w).
Proof. induction 1 as [|x w [_ Hb] _ IH]; cbn [concat]; [by apply Forall_nil|by apply Forall_app]. Qed.

Lemma expand_key_eq key expkey : shape key -> length expkey = 176%nat ->
  aes_expand_key key expkey = concat (KeyExpansion key) /\ expkey_ok (aes_expand_key key expkey) /\
  forall r, (r <= 10)%nat -> round_key (KeyExpansion key) r = take 16 (drop (16 * r) (aes_expand_key key expkey)).
Proof.
  intros Hkey Hx; pose proof (expand_loop key expkey 40 Hkey Hx (le_n 40)) as H; cbv zeta in H.
  cbv beta delta [aes_expand_key KeyExpansion]; rewrite (drop_ge expkey (16 + 4 * 40)), app_nil_r in H by lia; revert H.
  generalize (fold_left expand_step (seq 4 40) (take 16 key ++ drop 16 expkey)),
    (fold_left (fun w i => w ++ [next_word w i]) (seq 4 40) (key_words key)); intros e w (-> & Hw & Hl).
  split; [reflexivity|]; split; [|intros r Hr; by apply round_keys].
  split; [rewrite concat_length by done; lia|by apply concat_bytes].
Qed.

(** ** Memory *)

Definition region (mem : bytes) (p n : nat) : bytes := take n (drop p mem).

Lemma store_lookup mem p b i : (p + length b <= length mem)%nat ->
  store mem p b !! i = if decide (p <= i < p + length b)%nat then b !! (i - p)%nat else mem !! i.
Proof.
  intros Hl; unfold store; assert (length (take p mem) = p) as Hp by (rewrite length_take; lia).
  destruct (decide _) as [Hi|Hi].
  - rewrite lookup_app_r, Hp, lookup_app_l by lia; done.
  - destruct (decide (i < p)%nat) as [Hlt|Hge]; [rewrite lookup_app_l, lookup_take_lt by lia; done|].
    rewrite lookup_app_r, Hp, lookup_app_r, lookup_drop by lia; f_equal; lia.
Qed.

Lemma store_column_length mem p b : (p + length b <= length mem)%nat -> length (store mem p b) = length mem.
Proof. intros Hl; unfold store; rewrite !length_app, length_take, length_drop; lia. Qed.

Lemma region_lookup mem p n i : region mem p n !! i = if decide (i < n)%nat then mem !! (p + i)%nat else None.
Proof.
  unfold region; destruct (decide _); [by rewrite lookup_take_lt, lookup_drop by done|by rewrite lookup_take_ge by lia].
Qed.

Lemma region_length mem p n : (p + n <= length mem)%nat -> length (region mem p n) = n.
Proof. intros Hl; unfold region; rewrite length_take, length_drop; lia. Qed.

Lemma region_store_same mem p b : (p + length b <= length mem)%nat -> region (store mem p b) p (length b) = b.
Proof.
  intros Hl; apply list_eq; intros i; rewrite region_lookup; destruct (decide _) as [Hi|Hi].
  - rewrite store_lookup by done; destruct (decide _); [f_equal; lia|lia].
  - symmetry; apply lookup_ge_None; lia.
Qed.

Lemma region_store_other mem p b q n : (p + length b <= length mem)%nat -> (q + n <= p \/ p + length b <= q)%nat ->
  region (store mem p b) q n = region mem q n.
Proof.
  intros Hl Hd; apply list_eq; intros i; rewrite !region_lookup; destruct (decide _) as [Hi|Hi]; [|done].
  rewrite store_lookup by done; destruct (decide _); [lia|done].
Qed.

Lemma store_store mem p a b : (p + length a + length b <= length mem)%nat ->
  store (store mem p a) (p + length a) b = store mem p (a ++ b).
Proof.
  intros Hl; apply list_eq; intros i; rewrite !store_lookup by (rewrite ?store_column_length, ?length_app by lia; lia).
  rewrite length_app; repeat destruct (decide _); try lia; [|by rewrite lookup_app_l by lia|done].
  rewrite lookup_app_r by lia; f_equal; lia.
Qed.

Lemma store_bytes mem p b : Forall byte_ok mem -> Forall byte_ok b -> Forall byte_ok (store mem p b).
Proof. intros Hm Hb; apply Forall_app; split; [by apply Forall_take|]; apply Forall_app; split; [done|by apply Forall_drop]. Qed.

Lemma region_split mem p n : region mem p (16 * S n) = block_at mem p ++ region mem (p + 16) (16 * n).
Proof.
  unfold region, block_at; replace (16 * S n)%nat with (16 + 16 * n)%nat by lia.
  by rewrite <- take_take_drop, drop_drop.
Qed.

(** ** Chaining *)

Fixpoint cbc_enc (k iv : bytes) (n : nat) (l : bytes) : bytes :=
  match n with
  | O => []
  | S n' => let c := aes_encrypt (zip_with Z.lxor (take 16 l) iv) k in c ++ cbc_enc k c n' (drop 16 l)
  end.

Fixpoint cbc_dec (k iv : bytes) (n : nat) (l : bytes) : bytes :=
  match n with
  | O => []
  | S n' => zip_with Z.lxor (aes_decrypt (take 16 l) k) iv ++ cbc_dec k (take 16 l) n' (drop 16 l)
  end.

(** Buffers that the chained functions can work on: the same one or two that do not overlap. *)
Definition apart (src dst n : nat) : Prop := (src = dst \/ src + n <= dst \/ dst + n <= src)%nat.

Section chain.
Context (k : bytes) (Hk : expkey_ok k).

Lemma block_shape mem p : Forall byte_ok mem -> (p + 16 <= length mem)%nat -> shape (block_at mem p).
Proof. intros Fb Hl; split; [unfold block_at; rewrite length_take, length_drop; lia|by apply Forall_take, Forall_drop]. Qed.

Lemma chain_shape st iv : shape st -> shape iv -> shape (zip_with Z.lxor st iv).
Proof. intros [Hl Fb] [Li Fi]; split; [rewrite length_zip_with; lia|by apply zip_bytes]. Qed.

Lemma cbc_enc_shape n : forall iv l, shape iv -> Forall byte_ok l -> length l = (16 * n)%nat ->
  length (cbc_enc k iv n l) = (16 * n)%nat /\ Forall byte_ok (cbc_enc k iv n l).
Proof.
  induction n as [|n IH]; intros iv l Hi Fb Hl; [by split; [|apply Forall_nil]|]; cbn [cbc_enc].
  assert (shape (aes_encrypt (zip_with Z.lxor (take 16 l) iv) k)) as Hc.
  { apply encrypt_shape, chain_shape; [done| |done]; split; [rewrite length_take; lia|by apply Forall_take]. }
  destruct (IH _ (drop 16 l) Hc) as [L F]; [by apply Forall_drop|rewrite length_drop; lia|].
  destruct Hc as [Lc Fc]; split; [rewrite length_app, L, Lc; lia|apply Forall_app; split; [exact Fc|exact F]].
Qed.

Lemma cbc_dec_enc n : forall iv l, shape iv -> Forall byte_ok l -> length l = (16 * n)%nat ->
  cbc_dec k iv n (cbc_enc k iv n l) = l.
Proof.
  induction n as [|n IH]; intros iv l Hi Fb Hl; [by destruct l|]; cbn [cbc_dec cbc_enc].
  assert (shape (take 16 l)) as H16 by (split; [rewrite length_take; lia|by apply Forall_take]).
  pose proof (chain_shape _ _ H16 Hi) as Hx; pose proof (encrypt_shape k Hk _ Hx) as Hc.
  rewrite take_exact, <- (Nat.add_0_r 16), drop_exact, drop_0 by apply Hc; rewrite decrypt_encrypt by done.
  rewrite Nat.add_0_r, IH by (done || (by apply Forall_drop) || (rewrite length_drop; lia)).
  rewrite zip_zip by (destruct H16 as [-> _], Hi as [-> _]; lia); apply take_drop.
Qed.

(** The encryption loop writes the chained blocks of the source, as it was, to the destination. *)
Lemma cbc_encrypt_loop_eq n : forall mem chain src dst iv, Forall byte_ok mem -> shape iv ->
  (src + 16 * n <= length mem)%nat -> (dst + 16 * n <= length mem)%nat -> apart src dst (16 * n) ->
  match chain with None => iv = replicate 16 0 | Some p => block_at mem p = iv end ->
  cbc_encrypt_loop n k mem chain src dst = store mem dst (cbc_enc k iv n (region mem src (16 * n))).
Proof.
  induction n as [|n IH]; intros mem chain src dst iv Fb Hi Hs Hd Ha Hc; cbn [cbc_encrypt_loop cbc_enc].
  { unfold store; cbn [length app]; by rewrite Nat.add_0_r, take_drop. }
  assert (match chain with None => replicate 16 0 | Some p => block_at mem p end = iv) as -> by (by destruct chain).
  pose proof (block_shape mem src Fb ltac:(lia)) as Hb; unfold aes_apply_cbc_chain_data; rewrite !take_16 by done.
  rewrite region_split, take_exact, <- (Nat.add_0_r 16), drop_exact, drop_0, Nat.add_0_r by apply Hb.
  pose proof (encrypt_shape k Hk _ (chain_shape _ _ Hb Hi)) as Hx; pose proof Hx as [Lx Fx].
  set (c := aes_encrypt _ _) in *.
  assert (dst + length c <= length mem)%nat as Hin by lia.
  rewrite (IH _ (Some dst) _ _ c); [|by apply store_bytes|exact Hx|..].
  - rewrite (region_store_other mem dst c) by (unfold apart in Ha; lia).
    replace (dst + 16)%nat with (dst + length c)%nat by lia; apply store_store.
    destruct (cbc_enc_shape n c (region mem (src + 16) (16 * n)) Hx) as [-> _];
      [by apply Forall_take, Forall_drop|apply region_length; lia|lia].
  - rewrite store_column_length by lia; lia.
  - rewrite store_column_length by lia; lia.
  - unfold apart in *; lia.
  - replace (block_at (store mem dst c) dst) with (region (store mem dst c) dst (length c)) by (by rewrite Lx).
    by apply region_store_same.
Qed.

Lemma cbc_dec_length n : forall iv l, shape iv -> (forall b, shape b -> shape (aes_decrypt b k)) -> Forall byte_ok l ->
  length l = (16 * n)%nat -> length (cbc_dec k iv n l) = (16 * n)%nat.
Proof.
  induction n as [|n IH]; intros iv l Hi Hdec Fb Hl; [done|]; cbn [cbc_dec].
  assert (shape (take 16 l)) as H16 by (split; [rewrite length_take; lia|by apply Forall_take]).
  rewrite length_app, IH by (done || (by apply Forall_drop) || (rewrite length_drop; lia)).
  destruct (chain_shape _ _ (Hdec _ H16) Hi) as [-> _]; lia.
Qed.
End chain.

(** The inverse transformations keep the shape of a state. *)
Lemma inv_byte x : byte_ok x -> byte_ok (nth (Z.to_nat x) inv_sbox 0).
Proof.
  intros Hx; set (y := nth _ _ _); assert ((0 <=? y) && (y <? 256) = true) as E; [|unfold byte_ok; zbool; lia].
  revert x Hx y; apply (by_bytes (fun x => (0 <=? nth (Z.to_nat x) inv_sbox 0) && (nth (Z.to_nat x) inv_sbox 0 <? 256))); vm_compute; reflexivity.
Qed.

Lemma nth_byte st i : shape st -> byte_ok (nth i st 0).
Proof.
  intros [Hl Fb]; destruct (Nat.lt_ge_cases i 16); [|rewrite nth_overflow by lia; apply byte_0].
  apply (proj1 (Forall_forall _ _) Fb), list_elem_of_In, nth_In; lia.
Qed.

Lemma shape_inv_mix st : shape st -> shape (inv_mix_sub_columns st).
Proof.
  intros H; split; [done|]; unfold inv_mix_sub_columns.
  rewrite !(at_sub _ _ _ x9_table H), !(at_sub _ _ _ xb_table H), !(at_sub _ _ _ xd_table H), !(at_sub _ _ _ xe_table H) by lia.
  cbn [map]; each ltac:(apply inv_byte; auto 10 using lxor_byte, gmul_byte, nth_byte).
Qed.

Lemma inv_shift_rows_eq st : length st = 16%nat ->
  inv_shift_rows st = of_cells (fun r c => cell (map (fun x => nth (Z.to_nat x) inv_sbox 0) st) r ((c + 4 - r) mod 4)%nat).
Proof.
  intros Hl; do 16 (destruct st as [|? st]; [discriminate Hl|]); destruct st; [|discriminate Hl].
  unfold inv_shift_rows; generalize inv_sbox as t; intros t; reflexivity.
Qed.

Lemma shape_inv_shift st : shape st -> shape (inv_shift_rows st).
Proof.
  intros [Hl Fb]; rewrite inv_shift_rows_eq by done; apply shape_cells; intros r c; apply nth_byte.
  split; [by rewrite length_map|]; clear Hl; induction Fb; cbn [map]; constructor; [by apply inv_byte|done].
Qed.

(** The loop of the decryption, the same way. *)
Section unchain.
Context (k : bytes) (Hk : expkey_ok k).

Lemma decrypt_round_shape st r : (r <= 10)%nat -> shape st -> shape (decrypt_round k st r).
Proof.
  intros Hr Hst; unfold decrypt_round; pose proof (ark_shape k Hk st r Hr Hst); destruct (0 <? r)%nat; [by apply shape_inv_mix|done].
Qed.

Lemma decrypt_shape st : shape st -> shape (aes_decrypt st k).
Proof.
  intros Hst; unfold aes_decrypt; rewrite take_16 by done.
  pose proof (shape_inv_shift _ (ark_shape k Hk st 10 ltac:(lia) Hst)) as Hs; revert Hs; generalize (inv_shift_rows (add_round_key st (drop (16 * 10) k))).
  assert (Forall (fun r => (r <= 10)%nat) (rev (seq 0 10))) as Hr by (by apply (bool_decide_unpack _); vm_compute).
  induction Hr as [|r l Hr _ IH]; intros s Hs; cbn [fold_left]; [done|]; by apply IH, decrypt_round_shape.
Qed.

Lemma cbc_decrypt_loop_eq n : forall mem src dst iv, Forall byte_ok mem -> shape iv ->
  (src + 16 * n <= length mem)%nat -> (dst + 16 * n <= length mem)%nat -> apart src dst (16 * n) ->
  cbc_decrypt_loop n k mem iv src dst = store mem dst (cbc_dec k iv n (region mem src (16 * n))).
Proof.
  induction n as [|n IH]; intros mem src dst iv Fb Hi Hs Hd Ha; cbn [cbc_decrypt_loop cbc_dec].
  { unfold store; cbn [length app]; by rewrite Nat.add_0_r, take_drop. }
  pose proof (block_shape mem src Fb ltac:(lia)) as Hb; pose proof (decrypt_shape _ Hb) as Hp.
  unfold aes_apply_cbc_chain_data; rewrite !take_16 by done.
  rewrite region_split, take_exact, <- (Nat.add_0_r 16), drop_exact, drop_0, Nat.add_0_r by apply Hb.
  pose proof (chain_shape _ _ Hp Hi) as [Lx Fx]; set (c := zip_with Z.lxor (aes_decrypt (block_at mem src) k) iv) in *.
  assert (dst + length c <= length mem)%nat as Hin by lia.
  rewrite IH; [|by apply store_bytes|exact Hb|..].
  - rewrite (region_store_other mem dst c) by (unfold apart in Ha; lia).
    replace (dst + 16)%nat with (dst + length c)%nat by lia; apply store_store.
    rewrite cbc_dec_length; [lia|done|apply decrypt_shape|by apply Forall_take, Forall_drop|apply region_length; lia].
  - rewrite store_column_length by lia; lia.
  - rewrite store_column_length by lia; lia.
  - unfold apart in *; lia.
Qed.
End unchain.

(** ** The properties *)

(** C27: The cipher is AES-128: for every key of 16 bytes and every block, [aes_encrypt] with
    the schedule that [aes_expand_key] writes over whatever the buffer held is
    the Cipher of FIPS 197 with its KeyExpansion, and [aes_decrypt] with the
    same schedule gives the block back. *)
Theorem aes_is_fips197 key buf input : shape key -> length buf = 176%nat -> shape input ->
  let expkey := aes_expand_key key buf in
  aes_encrypt input expkey = Cipher input (KeyExpansion key) /\ aes_decrypt (aes_encrypt input expkey) expkey = input.
Proof.
  intros Hkey Hb Hi expkey; destruct (expand_key_eq key buf Hkey Hb) as (_ & Hok & Hr).
  split; [by apply encrypt_cipher|by apply decrypt_encrypt].
Qed.

(** The example of appendix B of the standard. *)
Definition key_b : bytes := [0x2b;0x7e;0x15;0x16;0x28;0xae;0xd2;0xa6;0xab;0xf7;0x15;0x88;0x09;0xcf;0x4f;0x3c].
Definition input_b : bytes := [0x32;0x43;0xf6;0xa8;0x88;0x5a;0x30;0x8d;0x31;0x31;0x98;0xa2;0xe0;0x37;0x07;0x34].
Definition output_b : bytes := [0x39;0x25;0x84;0x1d;0x02;0xdc;0x09;0xfb;0xdc;0x11;0x85;0x97;0x19;0x6a;0x0b;0x32].

Lemma shape_b : shape key_b /\ shape input_b.
Proof. repeat split; each ltac:(unfold byte_ok; lia). Qed.

Lemma aes_is_fips197_witness : Cipher input_b (KeyExpansion key_b) = output_b.
Proof.
  destruct (aes_is_fips197 key_b (replicate 176 0) input_b (proj1 shape_b) eq_refl (proj2 shape_b)) as [E _].
  rewrite <- E; vm_compute; reflexivity.
Defined.

(** C28: Chained encryption is undone by chained decryption, in place or between buffers that
    do not overlap: after [aes_cbc_encrypt_blocks] from [src] to [dst] and
    [aes_cbc_decrypt_blocks] from [dst] to [back], the buffer at [back] holds
    the plain text, and every byte outside the two destinations is as it was. *)
Theorem aes_cbc_roundtrip k mem src dst back n : expkey_ok k -> Forall byte_ok mem ->
  (src + 16 * n <= length mem)%nat -> (dst + 16 * n <= length mem)%nat -> (back + 16 * n <= length mem)%nat ->
  apart src dst (16 * n) -> apart dst back (16 * n) ->
  let mem1 := aes_cbc_encrypt_blocks k mem src dst n in
  let mem2 := aes_cbc_decrypt_blocks k mem1 dst back n in
  region mem2 back (16 * n) = region mem src (16 * n) /\ length mem2 = length mem /\
  forall q, ~ (dst <= q < dst + 16 * n)%nat -> ~ (back <= q < back + 16 * n)%nat -> mem2 !! q = mem !! q.
Proof.
  intros Hk Fb Hs Hd Hb Ha1 Ha2 mem1 mem2.
  assert (shape (replicate 16 0)) as Hz by (split; [done|apply Forall_replicate, byte_0]).
  assert (mem1 = store mem dst (cbc_enc k (replicate 16 0) n (region mem src (16 * n)))) as E1
    by (by apply cbc_encrypt_loop_eq).
  destruct (cbc_enc_shape k Hk n (replicate 16 0) (region mem src (16 * n)) Hz) as [Lc Fc];
    [by apply Forall_take, Forall_drop|by apply region_length|].
  set (c := cbc_enc _ _ _ _) in *.
  assert (Forall byte_ok mem1) as Fb1 by (rewrite E1; by apply store_bytes).
  assert (length mem1 = length mem) as L1 by (rewrite E1; apply store_column_length; lia).
  assert (region mem1 dst (16 * n) = c) as R1 by (rewrite E1, <- Lc; apply region_store_same; lia).
  assert (mem2 = store mem1 back (region mem src (16 * n))) as E2.
  { unfold mem2, aes_cbc_decrypt_blocks; rewrite (cbc_decrypt_loop_eq k Hk) by (done || lia); rewrite R1; f_equal.
    unfold c; apply cbc_dec_enc; [done|done|by apply Forall_take, Forall_drop|by apply region_length]. }
  assert (length (region mem src (16 * n)) = (16 * n)%nat) as Lr by (by apply region_length).
  rewrite E2; set (plain := region mem src (16 * n)) in *; split; [rewrite <- Lr; apply region_store_same; lia|]; split; [rewrite store_column_length; lia|].
  intros q Hq1 Hq2; rewrite store_lookup, Lr by lia; destruct (decide _); [lia|]; rewrite E1, store_lookup, Lc by lia.
  by destruct (decide _); [lia|].
Qed.

(** Three blocks in place. *)
Definition expkey_b : bytes := aes_expand_key key_b (replicate 176 0).

Lemma expkey_b_ok : expkey_ok expkey_b.
Proof. split; [by vm_compute; lia|by apply (bool_decide_unpack _); vm_compute]. Qed.

Lemma aes_cbc_roundtrip_witness :
  aes_cbc_decrypt_blocks expkey_b (aes_cbc_encrypt_blocks expkey_b (replicate 48 7) 0 0 3) 0 0 3 = replicate 48 7.
Proof.
  destruct (aes_cbc_roundtrip expkey_b (replicate 48 7) 0 0 0 3 expkey_b_ok) as (E & L & _);
    [apply Forall_replicate; unfold byte_ok; lia|rewrite length_replicate; lia..|by left|by left|].
  revert E L; generalize (aes_cbc_decrypt_blocks expkey_b (aes_cbc_encrypt_blocks expkey_b (replicate 48 7) 0 0 3) 0 0 3).
  intros m2 E L; unfold region in E; rewrite !drop_0 in E; rewrite length_replicate in L.
  rewrite !firstn_all2 in E; [exact E|rewrite length_replicate; lia|lia].
Defined.
End Aes.
