(* ===== verification/Image.v ===== *)
(** * Boot images in the legacy format (common/image.c, include/image.h)

    The header with its two checksums, images of several components, the
    tables of names, the copy with watchdog resets, the limits taken from the
    environment, and the placement of the initial ramdisk with lmb.  Memory is
    the map of CString.v; header fields are big endian.

    Output is left out; [None] is an access to memory that is not mapped.  The
    environment is the function [getenv] of a section, and Env.v provides it.
    [watchdog] is CONFIG_WATCHDOG; the tables are those of this board
    (CONFIG_LYNXKDI, CONFIG_CMD_ELF and CONFIG_INTEGRITY not set). *)

From S2P Require Import Prelude Ctype CString Crc Lmb Vsprintf.

Module Image.
Import CString.

Definition IH_MAGIC : Z := 0x27051956.
Definition IH_NMLEN : nat := 32.
Definition IH_OS_INVALID : Z := 0.
Definition IH_OS_NETBSD : Z := 2.
Definition IH_OS_LINUX : Z := 5.
Definition IH_OS_VXWORKS : Z := 14.
Definition IH_OS_U_BOOT : Z := 17.
Definition IH_OS_RTEMS : Z := 18.
Definition IH_OS_OSE : Z := 22.
Definition IH_OS_PLAN9 : Z := 23.
Definition IH_ARCH_INVALID : Z := 0.
Definition IH_ARCH_ALPHA : Z := 1.
Definition IH_ARCH_ARM : Z := 2.
Definition IH_ARCH_I386 : Z := 3.
Definition IH_ARCH_IA64 : Z := 4.
Definition IH_ARCH_MIPS : Z := 5.
Definition IH_ARCH_MIPS64 : Z := 6.
Definition IH_ARCH_PPC : Z := 7.
Definition IH_ARCH_S390 : Z := 8.
Definition IH_ARCH_SH : Z := 9.
Definition IH_ARCH_SPARC : Z := 10.
Definition IH_ARCH_SPARC64 : Z := 11.
Definition IH_ARCH_M68K : Z := 12.
Definition IH_ARCH_MICROBLAZE : Z := 14.
Definition IH_ARCH_NIOS2 : Z := 15.
Definition IH_ARCH_BLACKFIN : Z := 16.
Definition IH_ARCH_AVR32 : Z := 17.
Definition IH_ARCH_SANDBOX : Z := 19.
Definition IH_ARCH_NDS32 : Z := 20.
Definition IH_ARCH_OPENRISC : Z := 21.
Definition IH_ARCH_ARM64 : Z := 22.
Definition IH_ARCH_ARC : Z := 23.
Definition IH_ARCH_X86_64 : Z := 24.
Definition IH_TYPE_INVALID : Z := 0.
Definition IH_TYPE_STANDALONE : Z := 1.
Definition IH_TYPE_KERNEL : Z := 2.
Definition IH_TYPE_RAMDISK : Z := 3.
Definition IH_TYPE_MULTI : Z := 4.
Definition IH_TYPE_FIRMWARE : Z := 5.
Definition IH_TYPE_SCRIPT : Z := 6.
Definition IH_TYPE_FILESYSTEM : Z := 7.
Definition IH_TYPE_FLATDT : Z := 8.
Definition IH_TYPE_KWBIMAGE : Z := 9.
Definition IH_TYPE_IMXIMAGE : Z := 10.
Definition IH_TYPE_UBLIMAGE : Z := 11.
Definition IH_TYPE_OMAPIMAGE : Z := 12.
Definition IH_TYPE_AISIMAGE : Z := 13.
Definition IH_TYPE_KERNEL_NOLOAD : Z := 14.
Definition IH_TYPE_PBLIMAGE : Z := 15.
Definition IH_TYPE_MXSIMAGE : Z := 16.
Definition IH_TYPE_GPIMAGE : Z := 17.
Definition IH_TYPE_ATMELIMAGE : Z := 18.
Definition IH_TYPE_SOCFPGAIMAGE : Z := 19.
Definition IH_TYPE_X86_SETUP : Z := 20.
Definition IH_COMP_NONE : Z := 0.
Definition IH_COMP_GZIP : Z := 1.
Definition IH_COMP_BZIP2 : Z := 2.
Definition IH_COMP_LZMA : Z := 3.
Definition IH_COMP_LZO : Z := 4.

Definition CHUNKSZ : Z := 64 * 1024.
Definition CHUNKSZ_CRC32 : Z := 64 * 1024.

(** ** Memory *)

Definition be_val (l : bytes) : Z := fold_left (fun acc b => acc * 256 + b) l 0.

(** [uimage_to_cpu] of the word at [p]. *)
Definition load_be32 (m : mem) (p : Z) : option Z := l ← read_bytes m p 4; Some (be_val l).

(** ** The header *)

(** The offsets of [image_header_t]. *)
Definition ih_magic : Z := 0.
Definition ih_hcrc : Z := 4.
Definition ih_time : Z := 8.
Definition ih_size : Z := 12.
Definition ih_load : Z := 16.
Definition ih_ep : Z := 20.
Definition ih_dcrc : Z := 24.
Definition ih_os : Z := 28.
Definition ih_arch : Z := 29.
Definition ih_type : Z := 30.
Definition ih_comp : Z := 31.
Definition ih_name : Z := 32.

Definition image_get_header_size : Z := 64.

Definition image_get_hdr_l (f : Z) (m : mem) (hdr : Z) : option Z := load_be32 m (hdr + f).
Definition image_get_hdr_b (f : Z) (m : mem) (hdr : Z) : option Z := load m (hdr + f).

Definition image_get_data_size (m : mem) (hdr : Z) : option Z := image_get_hdr_l ih_size m hdr.
Definition image_get_data (hdr : Z) : Z := u64 (hdr + image_get_header_size).
Definition image_get_image_size (m : mem) (hdr : Z) : option Z :=
  s ← image_get_hdr_l ih_size m hdr; Some (u32 (s + image_get_header_size)).
Definition image_get_image_end (m : mem) (hdr : Z) : option Z :=
  s ← image_get_image_size m hdr; Some (u64 (hdr + s)).

Definition image_check_magic (m : mem) (hdr : Z) : option bool :=
  v ← image_get_hdr_l ih_magic m hdr; Some (v =? IH_MAGIC).
Definition image_check_type (m : mem) (hdr type : Z) : option bool :=
  v ← image_get_hdr_b ih_type m hdr; Some (v =? type).
Definition image_check_arch (m : mem) (hdr arch : Z) : option bool :=
  v ← image_get_hdr_b ih_arch m hdr; Some (v =? arch).
Definition image_check_os (m : mem) (hdr os : Z) : option bool :=
  v ← image_get_hdr_b ih_os m hdr; Some (v =? os).

(** [image_set_hcrc(&header, 0)] on a copy of the header. *)
Definition blank_hcrc (header : bytes) : bytes := take 4 header ++ [0; 0; 0; 0] ++ drop 8 header.

(** [sp] is the address of the copy on the stack. *)
Definition image_check_hcrc (sp : Z) (m : mem) (hdr : Z) : option bool :=
  header ← read_bytes m hdr 64;
  h ← image_get_hdr_l ih_hcrc m hdr;
  Some (Crc.crc32 0 sp (blank_hcrc header) =? h).

Definition image_check_dcrc (watchdog : bool) (m : mem) (hdr : Z) : option bool :=
  let data := image_get_data hdr in
  len ← image_get_data_size m hdr;
  l ← read_bytes m data (Z.to_nat len);
  dcrc ← Crc.crc32_wd watchdog 0 data l CHUNKSZ_CRC32;
  d ← image_get_hdr_l ih_dcrc m hdr;
  Some (dcrc =? d).

(** ** Images of several components *)

(** The words of the table that are not 0, from [p] on. *)
Fixpoint count_loop (fuel : nat) (m : mem) (p count : Z) : option Z :=
  match fuel with
  | O => None
  | S fuel' => w ← load_le 4 m p; if w =? 0 then Some count else count_loop fuel' m (p + 4) (u64 (count + 1))
  end.

Definition image_multi_count (m : mem) (hdr : Z) : option Z :=
  count_loop (fuel_of m) m (image_get_data hdr) 0.

(** The loop over the components before [idx]; the sum of a size and 3 is an
    [unsigned int]. *)
Fixpoint offset_loop (n : nat) (m : mem) (p offset : Z) : option Z :=
  match n with
  | O => Some offset
  | S n' =>
      s ← load_be32 m p;
      offset_loop n' m (p + 4) (u64 (offset + Z.land (u32 (s + 3)) (lnotw 32 3)))
  end.

(** [*data] and [*len] *)
Definition image_multi_getimg (m : mem) (hdr idx : Z) : option (Z * Z) :=
  count ← image_multi_count m hdr;
  let size := image_get_data hdr in
  let img_data := u64 (image_get_data hdr + (count + 1) * 4) in
  if idx <? count then
    len ← load_be32 m (size + 4 * idx);
    offset ← offset_loop (Z.to_nat idx) m size 0;
    Some (u64 (img_data + offset), len)
  else Some (0, 0).

(** What [image_print_contents] reads: the components of a multi-file image or
    a script.  The other lines it prints come from the header. *)
Definition image_print_contents (m : mem) (hdr : Z) : option (list (Z * Z)) :=
  multi ← image_check_type m hdr IH_TYPE_MULTI;
  script ← image_check_type m hdr IH_TYPE_SCRIPT;
  if multi || script then
    count ← image_multi_count m hdr;
    mapM (fun i => image_multi_getimg m hdr (Z.of_nat i)) (seq 0 (Z.to_nat count))
  else Some [].

(** The header, or NULL. *)
Definition image_get_ramdisk (watchdog : bool) (sp : Z) (m : mem) (rd_addr arch : Z) (verify : bool) : option Z :=
  magic ← image_check_magic m rd_addr;
  if negb magic then Some NULL
  else
    hcrc ← image_check_hcrc sp m rd_addr;
    if negb hcrc then Some NULL
    else
      _ ← image_print_contents m rd_addr;
      data_ok ← (if verify then image_check_dcrc watchdog m rd_addr else Some true);
      if negb data_ok then Some NULL
      else
        os ← image_check_os m rd_addr IH_OS_LINUX;
        arch_ok ← image_check_arch m rd_addr arch;
        type ← image_check_type m rd_addr IH_TYPE_RAMDISK;
        if negb os || negb arch_ok || negb type then Some NULL else Some rd_addr.

(** ** The tables of names *)

Record table_entry := Entry { id : Z; sname : option bytes; lname : bytes }.

Definition uimage_arch : list table_entry :=
  [Entry IH_ARCH_INVALID None (str "Invalid ARCH");
   Entry IH_ARCH_ALPHA (Some (str "alpha")) (str "Alpha");
   Entry IH_ARCH_ARM (Some (str "arm")) (str "ARM");
   Entry IH_ARCH_I386 (Some (str "x86")) (str "Intel x86");
   Entry IH_ARCH_IA64 (Some (str "ia64")) (str "IA64");
   Entry IH_ARCH_M68K (Some (str "m68k")) (str "M68K");
   Entry IH_ARCH_MICROBLAZE (Some (str "microblaze")) (str "MicroBlaze");
   Entry IH_ARCH_MIPS (Some (str "mips")) (str "MIPS");
   Entry IH_ARCH_MIPS64 (Some (str "mips64")) (str "MIPS 64 Bit");
   Entry IH_ARCH_NIOS2 (Some (str "nios2")) (str "NIOS II");
   Entry IH_ARCH_PPC (Some (str "powerpc")) (str "PowerPC");
   Entry IH_ARCH_PPC (Some (str "ppc")) (str "PowerPC");
   Entry IH_ARCH_S390 (Some (str "s390")) (str "IBM S390");
   Entry IH_ARCH_SH (Some (str "sh")) (str "SuperH");
   Entry IH_ARCH_SPARC (Some (str "sparc")) (str "SPARC");
   Entry IH_ARCH_SPARC64 (Some (str "sparc64")) (str "SPARC 64 Bit");
   Entry IH_ARCH_BLACKFIN (Some (str "blackfin")) (str "Blackfin");
   Entry IH_ARCH_AVR32 (Some (str "avr32")) (str "AVR32");
   Entry IH_ARCH_NDS32 (Some (str "nds32")) (str "NDS32");
   Entry IH_ARCH_OPENRISC (Some (str "or1k")) (str "OpenRISC 1000");
   Entry IH_ARCH_SANDBOX (Some (str "sandbox")) (str "Sandbox");
   Entry IH_ARCH_ARM64 (Some (str "arm64")) (str "AArch64");
   Entry IH_ARCH_ARC (Some (str "arc")) (str "ARC");
   Entry IH_ARCH_X86_64 (Some (str "x86_64")) (str "AMD x86_64");
   Entry (-1) (Some (str "")) (str "")].

Definition uimage_os : list table_entry :=
  [Entry IH_OS_INVALID None (str "Invalid OS");
   Entry IH_OS_LINUX (Some (str "linux")) (str "Linux");
   Entry IH_OS_NETBSD (Some (str "netbsd")) (str "NetBSD");
   Entry IH_OS_OSE (Some (str "ose")) (str "Enea OSE");
   Entry IH_OS_PLAN9 (Some (str "plan9")) (str "Plan 9");
   Entry IH_OS_RTEMS (Some (str "rtems")) (str "RTEMS");
   Entry IH_OS_U_BOOT (Some (str "u-boot")) (str "U-Boot");
   Entry IH_OS_VXWORKS (Some (str "vxworks")) (str "VxWorks");
   Entry (-1) (Some (str "")) (str "")].

Definition uimage_type : list table_entry :=
  [Entry IH_TYPE_AISIMAGE (Some (str "aisimage")) (str "Davinci AIS image");
   Entry IH_TYPE_FILESYSTEM (Some (str "filesystem")) (str "Filesystem Image");
   Entry IH_TYPE_FIRMWARE (Some (str "firmware")) (str "Firmware");
   Entry IH_TYPE_FLATDT (Some (str "flat_dt")) (str "Flat Device Tree");
   Entry IH_TYPE_GPIMAGE (Some (str "gpimage")) (str "TI Keystone SPL Image");
   Entry IH_TYPE_KERNEL (Some (str "kernel")) (str "Kernel Image");
   Entry IH_TYPE_KERNEL_NOLOAD (Some (str "kernel_noload")) (str "Kernel Image (no loading done)");
   Entry IH_TYPE_KWBIMAGE (Some (str "kwbimage")) (str "Kirkwood Boot Image");
   Entry IH_TYPE_IMXIMAGE (Some (str "imximage")) (str "Freescale i.MX Boot Image");
   Entry IH_TYPE_INVALID None (str "Invalid Image");
   Entry IH_TYPE_MULTI (Some (str "multi")) (str "Multi-File Image");
   Entry IH_TYPE_OMAPIMAGE (Some (str "omapimage")) (str "TI OMAP SPL With GP CH");
   Entry IH_TYPE_PBLIMAGE (Some (str "pblimage")) (str "Freescale PBL Boot Image");
   Entry IH_TYPE_RAMDISK (Some (str "ramdisk")) (str "RAMDisk Image");
   Entry IH_TYPE_SCRIPT (Some (str "script")) (str "Script");
   Entry IH_TYPE_SOCFPGAIMAGE (Some (str "socfpgaimage")) (str "Altera SOCFPGA preloader");
   Entry IH_TYPE_STANDALONE (Some (str "standalone")) (str "Standalone Program");
   Entry IH_TYPE_UBLIMAGE (Some (str "ublimage")) (str "Davinci UBL image");
   Entry IH_TYPE_MXSIMAGE (Some (str "mxsimage")) (str "Freescale MXS Boot Image");
   Entry IH_TYPE_ATMELIMAGE (Some (str "atmelimage")) (str "ATMEL ROM-Boot Image");
   Entry IH_TYPE_X86_SETUP (Some (str "x86_setup")) (str "x86 setup.bin");
   Entry (-1) (Some (str "")) (str "")].

Definition uimage_comp : list table_entry :=
  [Entry IH_COMP_NONE (Some (str "none")) (str "uncompressed");
   Entry IH_COMP_BZIP2 (Some (str "bzip2")) (str "bzip2 compressed");
   Entry IH_COMP_GZIP (Some (str "gzip")) (str "gzip compressed");
   Entry IH_COMP_LZMA (Some (str "lzma")) (str "lzma compressed");
   Entry IH_COMP_LZO (Some (str "lzo")) (str "lzo compressed");
   Entry (-1) (Some (str "")) (str "")].

(** The loops stop at the entry with a negative id; [None] is a table without one. *)
Fixpoint get_table_entry_name (table : list table_entry) (msg : bytes) (i : Z) : option bytes :=
  match table with
  | [] => None
  | t :: table' => if 0 <=? id t then if id t =? i then Some (lname t) else get_table_entry_name table' msg i else Some msg
  end.

Fixpoint get_table_entry_id (table : list table_entry) (name : bytes) : option Z :=
  match table with
  | [] => None
  | t :: table' =>
      if 0 <=? id t then
        if match sname t with Some s => strcmp_str s name =? 0 | None => false end then Some (id t)
        else get_table_entry_id table' name
      else Some (-1)
  end.

Definition genimg_get_os_name (os : Z) : option bytes := get_table_entry_name uimage_os (str "Unknown OS") os.
Definition genimg_get_arch_name (arch : Z) : option bytes :=
  get_table_entry_name uimage_arch (str "Unknown Architecture") arch.
Definition genimg_get_type_name (type : Z) : option bytes := get_table_entry_name uimage_type (str "Unknown Image") type.
Definition genimg_get_comp_name (comp : Z) : option bytes :=
  get_table_entry_name uimage_comp (str "Unknown Compression") comp.
Definition genimg_get_os_id (name : bytes) : option Z := get_table_entry_id uimage_os name.
Definition genimg_get_arch_id (name : bytes) : option Z := get_table_entry_id uimage_arch name.
Definition genimg_get_type_id (name : bytes) : option Z := get_table_entry_id uimage_type name.
Definition genimg_get_comp_id (name : bytes) : option Z := get_table_entry_id uimage_comp name.

(** ** The copy with watchdog resets *)

(** The [while (len > 0)] loop; a positive [chunksz] makes progress. *)
Fixpoint move_loop (fuel : nat) (m : mem) (to from len chunksz : Z) : option mem :=
  if 0 <? len then
    match fuel with
    | O => None
    | S fuel' =>
        let tail := if chunksz <? len then chunksz else len in
        let '(to, from) := if from <? to then (to - tail, from - tail) else (to, from) in
        '(_, m) ← memmove m to from tail;
        let '(to, from) := if to <? from then (to + tail, from + tail) else (to, from) in
        move_loop fuel' m to from (len - tail) chunksz
    end
  else Some m.

Definition memmove_wd (watchdog : bool) (m : mem) (to from len chunksz : Z) : option mem :=
  if to =? from then Some m
  else if watchdog then
    let '(to, from) := if from <? to then (to + len, from + len) else (to, from) in
    move_loop (Z.to_nat len) m to from len chunksz
  else '(_, m) ← memmove m to from len; Some m.

(** ** The environment *)

Section env.
Context (getenv : bytes -> option bytes).

(** The two fields of [gd->bd->bi_dram[0]]; CONFIG_SYS_SDRAM_BASE is set. *)
Context (CONFIG_SYS_SDRAM_BASE bi_dram_size : Z).

Definition getenv_bootm_low : Z :=
  match getenv (str "bootm_low") with
  | Some s => (Vsprintf.simple_strtoul s 16).1
  | None => CONFIG_SYS_SDRAM_BASE
  end.

Definition getenv_bootm_size : Z :=
  match getenv (str "bootm_size") with
  | Some s => (Vsprintf.simple_strtoull s 16).1
  | None =>
      let tmp := match getenv (str "bootm_low") with Some s => (Vsprintf.simple_strtoull s 16).1 | None => 0 end in
      u64 (bi_dram_size - tmp)
  end.

(** CONFIG_SYS_BOOTMAPSZ is not set. *)
Definition getenv_bootm_mapsize : Z :=
  match getenv (str "bootm_mapsize") with
  | Some s => (Vsprintf.simple_strtoull s 16).1
  | None => getenv_bootm_size
  end.

(** ** The initial ramdisk *)

(** The return value, [*initrd_start], [*initrd_end], the memory blocks and
    memory; on an error [*initrd_end] is not written ([end0] is what it was). *)
Definition boot_ramdisk_high (watchdog : bool) (l : Lmb.lmb) (m : mem) (rd_data rd_len end0 : Z) :
  option (Z * Z * Z * Lmb.lmb * mem) :=
  let '(initrd_high, initrd_copy_to_ram) :=
    match getenv (str "initrd_high") with
    | Some s => let v := (Vsprintf.simple_strtoul s 16).1 in (v, negb (v =? 2 ^ 64 - 1))
    | None => (2 ^ 64 - 1, true)
    end in
  if negb (rd_data =? 0) then
    if negb initrd_copy_to_ram then
      '(_, l) ← Lmb.lmb_reserve l rd_data rd_len;
      Some (0, rd_data, u64 (rd_data + rd_len), l, m)
    else
      '(start, l) ← (if negb (initrd_high =? 0) then Lmb.lmb_alloc_base l rd_len 0x1000 initrd_high
                     else Lmb.lmb_alloc l rd_len 0x1000);
      if start =? 0 then Some (-1, start, end0, l, m)
      else
        m ← memmove_wd watchdog m start rd_data rd_len CHUNKSZ;
        Some (0, start, u64 (start + rd_len), l, m)
  else Some (0, 0, 0, l, m).
End env.

(** ** The copy *)

Lemma move_up fuel : forall m to from l chunksz, to < from -> bytes_at m from l -> Forall byte_ok l -> mapped m to (length l) ->
  1 <= chunksz -> (length l <= fuel)%nat ->
  move_loop fuel m to from (Z.of_nat (length l)) chunksz = Some (write_bytes m to l).
Proof.
  induction fuel as [|fuel IH]; intros m to from l chunksz Hlt Hb Fb Hm Hc Hf.
  { destruct l; [done|cbn in Hf; lia]. }
  cbn [move_loop]; destruct (Z.ltb_spec 0 (Z.of_nat (length l))) as [Hpos|Hz]; [|destruct l; [done|cbn in Hz; lia]].
  set (tail := if chunksz <? Z.of_nat (length l) then chunksz else Z.of_nat (length l)).
  assert (1 <= tail <= Z.of_nat (length l)) as Ht by (unfold tail; destruct (Z.ltb_spec chunksz (Z.of_nat (length l))); lia).
  destruct (split_at l (Z.to_nat tail)) as (l1 & l2 & -> & L1 & L2); [lia|].
  rewrite length_app in *; apply bytes_at_app in Hb as [Hb1 Hb2]; apply Forall_app in Fb as [F1 F2].
  apply mapped_app in Hm as [M1 M2].
  destruct (Z.ltb_spec from to) as [|_]; [lia|].
  replace tail with (Z.of_nat (length l1)) by lia; rewrite memmove_correct by done; cbn [mbind option_bind].
  destruct (Z.ltb_spec to from) as [_|]; [|lia].
  replace (Z.of_nat (length l1 + length l2) - Z.of_nat (length l1)) with (Z.of_nat (length l2)) by lia.
  rewrite IH; [by rewrite write_bytes_app|lia|apply bytes_at_write_other; [done|lia]|done|by apply mapped_write|done|lia].
Qed.

Lemma move_down fuel : forall m to from l chunksz, from < to -> bytes_at m from l -> Forall byte_ok l -> mapped m to (length l) ->
  1 <= chunksz -> (length l <= fuel)%nat ->
  move_loop fuel m (to + Z.of_nat (length l)) (from + Z.of_nat (length l)) (Z.of_nat (length l)) chunksz =
  Some (write_bytes m to l).
Proof.
  induction fuel as [|fuel IH]; intros m to from l chunksz Hlt Hb Fb Hm Hc Hf.
  { destruct l; [done|cbn in Hf; lia]. }
  cbn [move_loop]; destruct (Z.ltb_spec 0 (Z.of_nat (length l))) as [Hpos|Hz]; [|destruct l; [done|cbn in Hz; lia]].
  set (tail := if chunksz <? Z.of_nat (length l) then chunksz else Z.of_nat (length l)).
  assert (1 <= tail <= Z.of_nat (length l)) as Ht by (unfold tail; destruct (Z.ltb_spec chunksz (Z.of_nat (length l))); lia).
  destruct (split_at l (length l - Z.to_nat tail)) as (l1 & l2 & -> & L1 & L2); [lia|].
  rewrite length_app in *; apply bytes_at_app in Hb as [Hb1 Hb2]; apply Forall_app in Fb as [F1 F2].
  apply mapped_app in Hm as [M1 M2].
  destruct (Z.ltb_spec (from + Z.of_nat (length l1 + length l2)) (to + Z.of_nat (length l1 + length l2))) as [_|]; [|lia].
  replace tail with (Z.of_nat (length l2)) by lia.
  replace (to + Z.of_nat (length l1 + length l2) - Z.of_nat (length l2)) with (to + Z.of_nat (length l1)) by lia.
  replace (from + Z.of_nat (length l1 + length l2) - Z.of_nat (length l2)) with (from + Z.of_nat (length l1)) by lia.
  rewrite memmove_correct by done; cbn [mbind option_bind].
  destruct (Z.ltb_spec (to + Z.of_nat (length l1)) (from + Z.of_nat (length l1))) as [|_]; [lia|].
  replace (Z.of_nat (length l1 + length l2) - Z.of_nat (length l2)) with (Z.of_nat (length l1)) by lia.
  rewrite IH; [|lia|apply bytes_at_write_other; [done|lia]|done|by apply mapped_write|done|lia].
  by rewrite write_disjoint, write_bytes_app by lia.
Qed.

(** The copy in chunks is the copy at once. *)
Lemma memmove_wd_spec watchdog m to from l chunksz : bytes_at m from l -> Forall byte_ok l -> mapped m to (length l) -> 1 <= chunksz ->
  memmove_wd watchdog m to from (Z.of_nat (length l)) chunksz = Some (write_bytes m to l).
Proof.
  intros Hb Fb Hm Hc; unfold memmove_wd; destruct (Z.eqb_spec to from) as [->|Hne]; [by rewrite write_bytes_same|].
  destruct watchdog; [|by rewrite memmove_correct].
  destruct (Z.ltb_spec from to); rewrite Nat2Z.id; [apply move_down|apply move_up]; done || lia.
Qed.

(** [memmove_wd] is [memmove]: for every overlap of the two ranges, every chunk size from
    1 on, and with or without a watchdog, the destination afterwards holds the
    bytes of the source as they were, and no other byte has changed. *)
Theorem memmove_wd_correct watchdog m to from l chunksz : bytes_at m from l -> Forall byte_ok l -> mapped m to (length l) ->
  1 <= chunksz ->
  exists m', memmove_wd watchdog m to from (Z.of_nat (length l)) chunksz = Some m' /\
    memmove m to from (Z.of_nat (length l)) = Some (to, m') /\ bytes_at m' to l /\
    forall a, a < to \/ to + Z.of_nat (length l) <= a -> m' !! a = m !! a.
Proof.
  intros Hb Fb Hm Hc; exists (write_bytes m to l); rewrite memmove_wd_spec, memmove_correct by done.
  split; [done|]; split; [done|]; split; [apply bytes_at_write|].
  intros a Ha; rewrite lookup_write_bytes; by case_decide; [lia|].
Qed.

(** ** Damaged images *)

Lemma be_val_inj a : forall b, length a = length b -> Forall byte_ok a -> Forall byte_ok b -> forall x y,
  fold_left (fun acc b => acc * 256 + b) a x = fold_left (fun acc b => acc * 256 + b) b y -> x = y /\ a = b.
Proof.
  induction a as [|c a IH]; intros [|d b] Hl Fa Fb x y E; try done.
  apply Forall_cons in Fa as [Hc Fa], Fb as [Hd Fb]; cbn [fold_left] in E.
  apply IH in E as [E ->]; [|by injection Hl|done|done]; unfold byte_ok in *; split; [lia|f_equal; lia].
Qed.

Lemma be_val_nonneg l : Forall byte_ok l -> 0 <= be_val l.
Proof.
  intros Fl; unfold be_val; assert (forall acc, 0 <= acc -> 0 <= fold_left (fun acc b => acc * 256 + b) l acc) as H; [|by apply H].
  induction Fl as [|x l Hx _ IH]; intros acc Ha; cbn [fold_left]; [done|]; apply IH; unfold byte_ok in Hx; lia.
Qed.

Lemma load_be32_at m p l : bytes_at m p l -> length l = 4%nat -> load_be32 m p = Some (be_val l).
Proof. intros Hb Hl; unfold load_be32; rewrite <- Hl, (read_bytes_at l) by done; done. Qed.

(** Reading a header that lies in memory. *)
Section header.
Context (m : mem) (p : Z) (image : bytes) (Hat : bytes_at m p image) (Hlen : (64 <= length image)%nat) (Fb : Forall byte_ok image).

Definition field (o : nat) : bytes := take 4 (drop o image).
Definition byte_of (o : nat) : Z := nth o image 0.

Lemma get_l o : (o + 4 <= 64)%nat -> image_get_hdr_l (Z.of_nat o) m p = Some (be_val (field o)).
Proof.
  intros Ho; apply load_be32_at; [by apply bytes_at_sub|unfold field; rewrite length_take, length_drop; lia].
Qed.

Lemma get_b o : (o < 64)%nat -> image_get_hdr_b (Z.of_nat o) m p = Some (byte_of o).
Proof.
  intros Ho; unfold image_get_hdr_b, load; apply Hat; unfold byte_of.
  destruct (lookup_lt_is_Some_2 image o) as [x Hx]; [lia|]; rewrite Hx; f_equal; symmetry; by apply nth_lookup_Some.
Qed.

Lemma check_hcrc sp : image_check_hcrc sp m p = Some (Crc.crc32 0 sp (blank_hcrc (take 64 image)) =? be_val (field 4)).
Proof.
  unfold image_check_hcrc; pose proof (bytes_at_sub m p image 0 64 Hat) as H0; rewrite Z.add_0_r, drop_0 in H0.
  replace 64%nat with (length (take 64 image)) at 1 by (rewrite length_take; lia).
  rewrite (read_bytes_at _ _ _ H0); cbn [mbind option_bind]; change ih_hcrc with (Z.of_nat 4); rewrite get_l by lia; done.
Qed.

Lemma check_dcrc watchdog : p + 64 < 2 ^ 64 -> 0 <= p -> length image = (64 + Z.to_nat (be_val (field 12)))%nat ->
  0 <= be_val (field 12) ->
  image_check_dcrc watchdog m p = Some (Crc.crc32 0 (p + 64) (drop 64 image) =? be_val (field 24)).
Proof.
  intros Hp Hp0 Hl Hs; unfold image_check_dcrc, image_get_data_size, image_get_data, image_get_header_size.
  change ih_size with (Z.of_nat 12); change ih_dcrc with (Z.of_nat 24); rewrite !get_l by lia; cbn [mbind option_bind].
  rewrite wrap_small by lia; pose proof (bytes_at_sub m p image 64 (length image) Hat) as Hd.
  rewrite firstn_all2 in Hd by (rewrite length_drop; lia); change (Z.of_nat 64) with 64 in Hd.
  replace (Z.to_nat (be_val (field 12))) with (length (drop 64 image)) by (rewrite length_drop; lia).
  rewrite (read_bytes_at _ _ _ Hd); cbn [mbind option_bind].
  rewrite Crc.crc32_wd_whole; [done|by apply Forall_drop|done].
Qed.

(** All the checks on an image in memory. *)
Lemma get_ramdisk_eq watchdog sp arch : p + 64 < 2 ^ 64 -> 0 <= p -> length image = (64 + Z.to_nat (be_val (field 12)))%nat ->
  0 <= be_val (field 12) -> byte_of 30 = IH_TYPE_RAMDISK ->
  image_get_ramdisk watchdog sp m p arch true =
  Some (if (be_val (field 0) =? IH_MAGIC) && (Crc.crc32 0 sp (blank_hcrc (take 64 image)) =? be_val (field 4)) &&
           (Crc.crc32 0 (p + 64) (drop 64 image) =? be_val (field 24)) && (byte_of 28 =? IH_OS_LINUX) && (byte_of 29 =? arch)
        then p else NULL).
Proof.
  intros Hp Hp0 Hl Hs Ht; unfold image_get_ramdisk, image_check_magic, image_print_contents, image_check_type, image_check_os, image_check_arch.
  change ih_magic with (Z.of_nat 0); change ih_type with (Z.of_nat 30); change ih_os with (Z.of_nat 28); change ih_arch with (Z.of_nat 29).
  rewrite get_l, !get_b, check_hcrc by lia; cbn [mbind option_bind]; rewrite Ht; cbn [Z.eqb orb].
  destruct (be_val (field 0) =? IH_MAGIC); cbn [negb andb]; [|done].
  destruct (Crc.crc32 0 sp _ =? _); cbn [negb andb]; [|done]; cbn [mbind option_bind].
  rewrite check_dcrc by done; cbn [mbind option_bind]; destruct (Crc.crc32 0 (p + 64) _ =? _); cbn [negb andb]; [|done].
  destruct (byte_of 28 =? IH_OS_LINUX), (byte_of 29 =? arch); done.
Qed.
End header.

(** What an accepted image has. *)
Lemma ramdisk_accepted watchdog sp m p image arch : bytes_at m p image -> (64 <= length image)%nat -> p <> 0 ->
  image_get_ramdisk watchdog sp m p arch true = Some p ->
  be_val (field image 0) = IH_MAGIC /\ Crc.crc32 0 sp (blank_hcrc (take 64 image)) = be_val (field image 4) /\
  image_check_dcrc watchdog m p = Some true /\ byte_of image 28 = IH_OS_LINUX /\ byte_of image 29 = arch /\
  byte_of image 30 = IH_TYPE_RAMDISK.
Proof.
  intros Hat Hl Hp; unfold image_get_ramdisk, image_check_magic, image_check_type, image_check_os, image_check_arch.
  change ih_magic with (Z.of_nat 0); change ih_type with (Z.of_nat 30); change ih_os with (Z.of_nat 28); change ih_arch with (Z.of_nat 29).
  rewrite (get_l m p image Hat Hl 0) by lia; rewrite !(get_b m p image Hat Hl) by lia; rewrite (check_hcrc m p image Hat Hl); cbn [mbind option_bind].
  destruct (Z.eqb_spec (be_val (field image 0)) IH_MAGIC) as [->|]; cbn [negb]; [|by intros [= <-]].
  destruct (Z.eqb_spec (Crc.crc32 0 sp (blank_hcrc (take 64 image))) (be_val (field image 4))) as [->|]; cbn [negb]; [|by intros [= <-]].
  destruct (image_print_contents m p); cbn [mbind option_bind]; [|done].
  destruct (image_check_dcrc watchdog m p) as [[]|]; cbn [mbind option_bind negb]; [|by intros [= <-]|done].
  destruct (Z.eqb_spec (byte_of image 28) IH_OS_LINUX) as [->|]; cbn [negb orb]; [|by intros [= <-]].
  destruct (Z.eqb_spec (byte_of image 29) arch) as [->|]; cbn [negb orb]; [|by intros [= <-]].
  destruct (Z.eqb_spec (byte_of image 30) IH_TYPE_RAMDISK) as [->|]; cbn [negb orb]; [done|by intros [= <-]].
Qed.

(** A header whose checksum does not fit is refused. *)
Lemma header_refused watchdog sp m p image arch : bytes_at m p image -> (64 <= length image)%nat ->
  Crc.crc32 0 sp (blank_hcrc (take 64 image)) <> be_val (field image 4) ->
  image_get_ramdisk watchdog sp m p arch true = Some NULL.
Proof.
  intros Hat Hl Hne; unfold image_get_ramdisk, image_check_magic; change ih_magic with (Z.of_nat 0).
  rewrite (get_l m p image Hat Hl 0) by lia; rewrite (check_hcrc m p image Hat Hl); cbn [mbind option_bind].
  destruct (_ =? IH_MAGIC); cbn [negb]; [|done]; by rewrite (proj2 (Z.eqb_neq _ _) Hne).
Qed.

Section damage.
Context (a w w' b : bytes) (Fa : Forall byte_ok (a ++ w ++ b)) (Fw : Forall byte_ok w') (Hl : length w = length w').
Context (H4 : (length w <= 4)%nat) (Hne : w <> w').

Lemma same_length : length (a ++ w' ++ b) = length (a ++ w ++ b).
Proof. by rewrite !length_app, Hl. Qed.

(** Parts in front of the window and behind it. *)
Lemma part_before o n : (o + n <= length a)%nat -> take n (drop o (a ++ w' ++ b)) = take n (drop o (a ++ w ++ b)).
Proof. intros H; by rewrite !drop_app_le, !take_app_le by (rewrite ?length_drop; lia). Qed.

Lemma part_after o n : (length a + length w <= o)%nat -> take n (drop o (a ++ w' ++ b)) = take n (drop o (a ++ w ++ b)).
Proof. intros H; rewrite !app_assoc, !drop_app_ge by (rewrite length_app; lia); by rewrite !length_app, Hl. Qed.

Lemma images_differ : a ++ w' ++ b <> a ++ w ++ b.
Proof. intros E; apply app_inv_head in E; apply app_inj_1 in E as [E _]; [by destruct Hne|done]. Qed.

Lemma field_same o : (o + 4 <= length a)%nat \/ (length a + length w <= o)%nat -> field (a ++ w' ++ b) o = field (a ++ w ++ b) o.
Proof. intros [H|H]; [by apply part_before|by apply part_after]. Qed.

(** A window inside the header and off the checksum changes the checksum. *)
Lemma crc_changes sp : (length a + length w <= 64)%nat -> (64 <= length (a ++ w ++ b))%nat ->
  (length a + length w <= 4)%nat \/ (8 <= length a)%nat ->
  Crc.crc32 0 sp (blank_hcrc (take 64 (a ++ w' ++ b))) <> Crc.crc32 0 sp (blank_hcrc (take 64 (a ++ w ++ b))).
Proof.
  intros Hin H64 Hoff; apply Forall_app in Fa as [F1 F2]; apply Forall_app in F2 as [F2 F3].
  assert (forall x, length x = length w -> take 64 (a ++ x ++ b) = a ++ x ++ take (64 - length a - length w) b) as Ht.
  { intros x Hx; rewrite take_app_ge by lia; f_equal; rewrite take_app_ge by lia; by rewrite Hx. }
  rewrite !Ht by done; set (b' := take _ b); assert (Forall byte_ok b') as F3' by (by apply Forall_take).
  assert (Forall byte_ok [0; 0; 0; 0]) as Fz by (repeat (apply Forall_cons; split; [unfold byte_ok; lia|]); by apply Forall_nil).
  unfold blank_hcrc; destruct Hoff as [Ho|Ho].
  - assert (forall x, length x = length w -> take 4 (a ++ x ++ b') ++ [0; 0; 0; 0] ++ drop 8 (a ++ x ++ b') =
      a ++ x ++ (take (4 - length a - length w) b' ++ [0; 0; 0; 0] ++ drop (8 - length a - length w) b')) as E.
    { intros x Hx; rewrite take_app_ge, take_app_ge, drop_app_ge, drop_app_ge by lia; by rewrite Hx, <- !app_assoc. }
    rewrite !E by done; apply not_eq_sym, Crc.crc32_burst; try done.
    repeat (apply Forall_app; split); try done; [by apply Forall_take|by apply Forall_drop].
  - assert (forall x : bytes, take 4 (a ++ x ++ b') ++ [0; 0; 0; 0] ++ drop 8 (a ++ x ++ b') =
      (take 4 a ++ [0; 0; 0; 0] ++ drop 8 a) ++ x ++ b') as E.
    { intros x; rewrite take_app_le, drop_app_le by lia; by rewrite <- !app_assoc. }
    rewrite !E; apply not_eq_sym, Crc.crc32_burst; try done.
    repeat (apply Forall_app; split); try done; [by apply Forall_take|by apply Forall_drop].
Qed.

Lemma blank_same : (4 <= length a)%nat -> (length a + length w <= 8)%nat ->
  blank_hcrc (take 64 (a ++ w' ++ b)) = blank_hcrc (take 64 (a ++ w ++ b)).
Proof.
  intros Ho He; assert (forall x : bytes, blank_hcrc (take 64 x) = take 4 x ++ [0; 0; 0; 0] ++ take 56 (drop 8 x)) as E
    by (intros x; unfold blank_hcrc; by rewrite take_take, skipn_firstn_comm).
  rewrite !E, (part_after 8 56) by lia; f_equal; exact (part_before 0 4 ltac:(lia)).
Qed.

(** A window inside the checksum changes what is stored. *)
Lemma stored_changes : (4 <= length a)%nat -> (length a + length w <= 8)%nat -> (64 <= length (a ++ w ++ b))%nat ->
  be_val (field (a ++ w' ++ b) 4) <> be_val (field (a ++ w ++ b) 4).
Proof.
  intros Ho He H64 E; apply images_differ.
  assert (Forall byte_ok (a ++ w' ++ b)) as F' by (rewrite !Forall_app in *; tauto).
  assert (forall x, (64 <= length x)%nat -> length (field x 4) = 4%nat) as Lf by (intros; unfold field; rewrite length_take, length_drop; lia).
  apply be_val_inj in E as [_ E]; [|by rewrite !Lf by (rewrite ?same_length; lia)|by apply Forall_take, Forall_drop..].
  assert (forall x, x = take 4 x ++ field x 4 ++ drop 8 x) as D.
  { intros x; unfold field; rewrite <- (take_drop 4 x) at 1; f_equal; rewrite <- (take_drop 4 (drop 4 x)) at 1; by rewrite drop_drop. }
  rewrite (D (a ++ w' ++ b)), (D (a ++ w ++ b)), E; f_equal; [by apply (part_before 0 4)|]; f_equal.
  rewrite !app_assoc, !drop_app_ge by (rewrite length_app; lia); by rewrite !length_app, Hl.
Qed.

(** A window in the data changes the checksum of the data. *)
Lemma data_changes p : (64 <= length a)%nat ->
  Crc.crc32 0 p (drop 64 (a ++ w' ++ b)) <> Crc.crc32 0 p (drop 64 (a ++ w ++ b)).
Proof.
  intros Ha; rewrite !drop_app_le by done; apply not_eq_sym, Crc.crc32_burst; try done.
  apply Forall_app in Fa as [F1 F2]; apply Forall_app; split; [by apply Forall_drop|done].
Qed.
End damage.

(** The two kinds of windows: in the header or in the data. *)
Lemma damage_refused watchdog sp m m' p a w w' b arch :
  bytes_at m p (a ++ w ++ b) -> bytes_at m' p (a ++ w' ++ b) -> Forall byte_ok (a ++ w ++ b) -> Forall byte_ok w' ->
  length w = length w' -> (length w <= 4)%nat -> w <> w' -> 0 < p -> p + 64 < 2 ^ 64 ->
  length (a ++ w ++ b) = (64 + Z.to_nat (be_val (field (a ++ w ++ b) 12)))%nat ->
  (length a + length w <= 4)%nat \/ (4 <= length a /\ length a + length w <= 8)%nat \/
  (8 <= length a /\ length a + length w <= 64)%nat \/ (64 <= length a)%nat ->
  image_get_ramdisk watchdog sp m p arch true = Some p ->
  image_get_ramdisk watchdog sp m' p arch true = Some NULL.
Proof.
  intros Hm Hm' Fa Fw Hl H4 Hne Hp Hp2 Hlen Hwin Hacc.
  assert (64 <= length (a ++ w ++ b))%nat as H64 by lia.
  pose proof (same_length a w w' b Hl) as Hsl; assert (64 <= length (a ++ w' ++ b))%nat as H64' by lia.
  destruct (ramdisk_accepted watchdog sp m p _ arch Hm H64 ltac:(lia) Hacc) as (Em & Eh & Ed & Eo & Ea & Et).
  destruct Hwin as [Hw|[[Hw1 Hw2]|[[Hw1 Hw2]|Hw]]].
  - apply (header_refused watchdog sp m' p _ arch Hm' H64'); rewrite (field_same a w w' b Hl H4 4), <- Eh by lia.
    apply crc_changes; try done; [lia|by left].
  - apply (header_refused watchdog sp m' p _ arch Hm' H64'); rewrite (blank_same a w w' b Hl H4) by lia; rewrite Eh.
    by apply not_eq_sym, stored_changes.
  - apply (header_refused watchdog sp m' p _ arch Hm' H64'); rewrite (field_same a w w' b Hl H4 4), <- Eh by lia.
    apply crc_changes; try done; by right.
  - assert (forall o, (o + 4 <= 64)%nat -> field (a ++ w' ++ b) o = field (a ++ w ++ b) o) as Ef by (intros; apply field_same; done || lia).
    assert (forall o, (o < 64)%nat -> byte_of (a ++ w' ++ b) o = byte_of (a ++ w ++ b) o) as Eb by (intros; unfold byte_of; rewrite !app_nth1 by lia; done).
    assert (0 <= be_val (field (a ++ w ++ b) 12)) as Hs by (apply be_val_nonneg; by apply Forall_take, Forall_drop).
    assert (Forall byte_ok (a ++ w' ++ b)) as F' by (rewrite !Forall_app in *; tauto).
    rewrite (get_ramdisk_eq m' p _ Hm' H64' F') by (rewrite ?Ef, ?Eb by lia; done || lia); rewrite !Ef, !Eb, Em, Eo, Ea by lia.
    rewrite (check_dcrc m p _ Hm H64 Fa) in Ed by (done || lia); injection Ed as Ed; apply Z.eqb_eq in Ed.
    pose proof (data_changes a w w' b Fa Fw Hl H4 Hne (p + 64) Hw) as Hd; rewrite Ed in Hd.
    rewrite (proj2 (Z.eqb_neq _ _) Hd), andb_false_r; done.
Qed.

(** C23: A damaged ramdisk image is refused: when [image_get_ramdisk] with verification accepts
    an image, then every image that differs from it in a window of at most four
    bytes anywhere in its header or its data is refused with NULL, provided the
    window does not cross the border of the header checksum. *)
Theorem ramdisk_damage_detected watchdog sp m m' p a w w' b arch :
  bytes_at m p (a ++ w ++ b) -> bytes_at m' p (a ++ w' ++ b) -> Forall byte_ok (a ++ w ++ b) -> Forall byte_ok w' ->
  length w = length w' -> (length w <= 4)%nat -> w <> w' -> 0 < p -> p + 64 < 2 ^ 64 ->
  length (a ++ w ++ b) = (64 + Z.to_nat (be_val (field (a ++ w ++ b) 12)))%nat ->
  (length a + length w <= 4)%nat \/ (4 <= length a /\ length a + length w <= 8)%nat \/ (8 <= length a)%nat ->
  image_get_ramdisk watchdog sp m p arch true = Some p ->
  image_get_ramdisk watchdog sp m' p arch true = Some NULL.
Proof.
  intros Hm Hm' Fa Fw Hl H4 Hne Hp Hp2 Hlen Hwin Hacc.
  destruct (decide (length a < 64 < length a + length w)%nat) as [Hx|Hx]; [|apply (damage_refused watchdog sp m m' p a w w' b arch); try done; lia].
  destruct (split_at w (64 - length a)) as (w1 & w2 & -> & L1 & L2); [lia|].
  destruct (split_at w' (64 - length a)) as (w1' & w2' & -> & L1' & L2'); [lia|].
  rewrite !length_app in *; rewrite <- !app_assoc in *; apply Forall_app in Fw as [Fw1 Fw2].
  apply Forall_app in Fa as [Fa Fa1]; apply Forall_app in Fa1 as [Fa1 Fa2]; apply Forall_app in Fa2 as [Fa2 Fa3].
  destruct (decide (w1 = w1')) as [->|Hn1].
  - rewrite (app_assoc a w1') in Hm, Hm', Hlen.
    apply (damage_refused watchdog sp m m' p (a ++ w1') w2 w2' b arch); try done; try lia.
    + repeat (apply Forall_app; split); done.
    + intros ->; by destruct Hne.
    + rewrite !length_app in *; lia.
    + rewrite length_app; lia.
  - assert (forall x y : bytes, length x = (64 - length a)%nat -> take 64 (a ++ x ++ y) = a ++ x) as Ht.
    { intros x y Lx; rewrite app_assoc; apply take_app_length'; rewrite length_app; lia. }
    apply (header_refused watchdog sp m' p _ arch Hm'); [rewrite !length_app; lia|].
    destruct (ramdisk_accepted watchdog sp m p _ arch Hm ltac:(rewrite !length_app; lia) ltac:(lia) Hacc) as (_ & Eh & _).
    assert (field (a ++ w1' ++ w2' ++ b) 4 = field (a ++ w1 ++ w2 ++ b) 4) as -> by (unfold field; by rewrite !drop_app_le, !take_app_le by (rewrite ?length_drop; lia)).
    rewrite <- Eh, (Ht w1' (w2' ++ b)), <- (Ht w1' (w2 ++ b)) by lia; apply crc_changes; try done; try lia.
    + repeat (apply Forall_app; split); done.
    + rewrite !length_app; lia.
Qed.

(** ** Images of several components *)

Definition be32 (n : Z) : bytes := [n / 2 ^ 24 mod 256; n / 2 ^ 16 mod 256; n / 2 ^ 8 mod 256; n mod 256].

Definition pad4 (c : bytes) : bytes := c ++ replicate (Z.to_nat ((- Z.of_nat (length c)) mod 4)) 0.

(** The payload: the sizes, a zero, and the components filled up to words. *)
Definition payload (cs : list bytes) : bytes :=
  concat (map (fun c => be32 (Z.of_nat (length c))) cs) ++ [0; 0; 0; 0] ++ concat (map pad4 cs).

Lemma be_val_be32 n : 0 <= n < 2 ^ 32 -> be_val (be32 n) = n.
Proof. intros Hn; unfold be_val, be32; cbn [fold_left]; Z.div_mod_to_equations; lia. Qed.

Lemma le_be32 n : 0 < n < 2 ^ 32 -> le_Z (be32 n) <> 0.
Proof. intros Hn; unfold be32; cbn [le_Z]; Z.div_mod_to_equations; lia. Qed.

Lemma be32_length n : length (be32 n) = 4%nat.
Proof. done. Qed.

Lemma pad4_length c : Z.of_nat (length (pad4 c)) = Z.land (Z.of_nat (length c) + 3) (Z.lnot 3).
Proof.
  unfold pad4; rewrite length_app, length_replicate.
  assert (Z.land (Z.of_nat (length c) + 3) (Z.lnot 3) = (Z.of_nat (length c) + 3) / 4 * 4) as ->.
  { change (Z.lnot 3) with (Z.shiftl (-1) 2); change 4 with (2 ^ 2) at 1 2.
    rewrite <- Z.shiftr_div_pow2, <- Z.shiftl_mul_pow2 by lia; apply Z.bits_inj'; intros i Hi.
    rewrite Z.land_spec, !Z.shiftl_spec by lia; destruct (Z.lt_ge_cases i 2).
    - by rewrite !(Z.testbit_neg_r _ (i - 2)), andb_false_r by lia.
    - rewrite Z.shiftr_spec, Z.bits_m1, andb_true_r by lia; f_equal; lia. }
  Z.div_mod_to_equations; lia.
Qed.

(** The rounding of the code, in 32 bits. *)
Lemma round_up n : 0 <= n -> n + 3 < 2 ^ 32 -> Z.land (u32 (n + 3)) (lnotw 32 3) = Z.land (n + 3) (Z.lnot 3).
Proof.
  intros Hn Ho; rewrite wrap_small by lia; unfold lnotw, wrap; apply Z.bits_inj'; intros i Hi.
  rewrite !Z.land_spec; destruct (Z.lt_ge_cases i 32) as [H|H]; [by rewrite Z.mod_pow2_bits_low by lia|].
  rewrite Z.mod_pow2_bits_high by lia; destruct (Z.eq_dec n (-3)); [lia|].
  rewrite (Z.bits_above_log2 (n + 3)); [done|lia|]; pose proof (Z.log2_lt_pow2 (n + 3) 32); lia.
Qed.

Lemma sizes_length cs : length (concat (map (fun c : bytes => be32 (Z.of_nat (length c))) cs)) = (4 * length cs)%nat.
Proof. induction cs as [|c cs IH]; [done|]; cbn [map concat]; rewrite length_app, IH, be32_length; cbn [length]; lia. Qed.

Lemma multi_count_spec cs : forall fuel m p rest count, bytes_at m p (concat (map (fun c => be32 (Z.of_nat (length c))) cs) ++ [0; 0; 0; 0] ++ rest) ->
  Forall (fun c : bytes => 0 < Z.of_nat (length c) < 2 ^ 32) cs -> (length cs < fuel)%nat -> 0 <= count -> count + Z.of_nat (length cs) < 2 ^ 64 ->
  count_loop fuel m p count = Some (count + Z.of_nat (length cs)).
Proof.
  induction cs as [|c cs IH]; intros [|fuel] m p rest count Hat Fc Hf Hc Ho; try (cbn in Hf; lia); cbn [count_loop map concat app] in *.
  - apply (bytes_at_app _ _ [0; 0; 0; 0] rest) in Hat as [Hat _].
    rewrite (load_le_spec _ m p Hat : load_le 4 m p = _); cbn; f_equal; lia.
  - apply Forall_cons in Fc as [Hcl Fc]; rewrite <- app_assoc in Hat; apply bytes_at_app in Hat as [H4 Hat].
    rewrite (load_le_spec _ m p H4 : load_le 4 m p = _); cbn [mbind option_bind].
    rewrite (proj2 (Z.eqb_neq _ _) (le_be32 _ Hcl)), wrap_small by (cbn [length] in Ho; lia).
    rewrite (IH fuel m _ rest) by (done || cbn [length] in *; lia); f_equal; cbn [length]; lia.
Qed.

Lemma offset_spec cs : forall m p rest offset, bytes_at m p (concat (map (fun c => be32 (Z.of_nat (length c))) cs) ++ rest) ->
  Forall (fun c : bytes => 0 < Z.of_nat (length c) < 2 ^ 32 - 3) cs -> 0 <= offset ->
  offset + Z.of_nat (length (concat (map pad4 cs))) < 2 ^ 64 ->
  offset_loop (length cs) m p offset = Some (offset + Z.of_nat (length (concat (map pad4 cs)))).
Proof.
  induction cs as [|c cs IH]; intros m p rest offset Hat Fc Ho Hb; cbn [offset_loop map concat app length] in *; [f_equal; lia|].
  apply Forall_cons in Fc as [Hcl Fc]; rewrite <- app_assoc in Hat; apply bytes_at_app in Hat as [H4 Hat].
  rewrite (load_be32_at m p _ H4 eq_refl), be_val_be32 by lia; cbn [mbind option_bind].
  rewrite length_app in *; rewrite round_up, <- pad4_length, wrap_small by lia.
  rewrite (IH m (p + 4) rest) by (done || lia); f_equal; lia.
Qed.

(** C24: The components of a multi-file image are found: when the payload at [hdr + 64] is the
    table of sizes of [cs], none of them empty, a zero word and the components
    padded to words, [image_multi_count] is their number, [image_multi_getimg]
    of each index gives an address at which that component lies with its
    length, and of an index out of range gives 0 and 0. *)
Theorem multi_components m hdr cs : bytes_at m (hdr + 64) (payload cs) ->
  Forall (fun c => 0 < Z.of_nat (length c) < 2 ^ 32 - 3) cs -> 0 <= hdr -> hdr + 64 + Z.of_nat (length (payload cs)) < 2 ^ 64 ->
  image_multi_count m hdr = Some (Z.of_nat (length cs)) /\
  (forall i c, cs !! i = Some c -> exists data, image_multi_getimg m hdr (Z.of_nat i) = Some (data, Z.of_nat (length c)) /\ bytes_at m data c) /\
  (forall idx, Z.of_nat (length cs) <= idx -> image_multi_getimg m hdr idx = Some (0, 0)).
Proof.
  intros Hat Fc Hh Ho; unfold payload in Ho; rewrite !length_app, sizes_length in Ho; cbn [length] in Ho.
  assert (image_get_data hdr = hdr + 64) as Ed by (apply wrap_small; unfold image_get_header_size; lia).
  assert (image_multi_count m hdr = Some (Z.of_nat (length cs))) as Ec.
  { unfold image_multi_count; rewrite Ed, (multi_count_spec cs _ m _ (concat (map pad4 cs))); try done; try lia.
    - eapply Forall_impl; [exact Fc|cbn; lia].
    - pose proof (mapped_size _ _ _ (bytes_at_mapped _ _ _ Hat)) as Hs; unfold payload in Hs.
      rewrite !length_app, sizes_length in Hs; unfold fuel_of; lia. }
  split; [done|]; split.
  - intros i c Hi; pose proof Hi as Hlt; apply lookup_lt_Some in Hlt; unfold image_multi_getimg; rewrite Ec, Ed; cbn [mbind option_bind].
    destruct (Z.ltb_spec (Z.of_nat i) (Z.of_nat (length cs))) as [_|]; [|lia]; rewrite Nat2Z.id.
    destruct (list_elem_of_split_length cs i c Hi) as (l1 & l2 & E & L1); rewrite E in Hat, Fc, Ho |- *; unfold payload in Hat.
    rewrite !map_app, !concat_app in Hat, Ho; cbn [map concat] in Hat, Ho; rewrite <- !app_assoc in Hat.
    rewrite !length_app in Ho; apply Forall_app in Fc as [F1 F2]; apply Forall_cons in F2 as [Hc _].
    apply bytes_at_app in Hat as [A1 Hat]; rewrite sizes_length in Hat; pose proof Hat as Hlen; apply bytes_at_app in Hlen as [Hlen _].
    replace (hdr + 64 + 4 * Z.of_nat i) with (hdr + 64 + Z.of_nat (4 * length l1)) by lia.
    rewrite (load_be32_at m _ _ Hlen eq_refl), be_val_be32 by lia; cbn [mbind option_bind].
    rewrite L1, (offset_spec l1 m (hdr + 64) [] 0) by (rewrite ?app_nil_r; done || lia); cbn [mbind option_bind].
    eexists; split; [done|]; rewrite map_app, concat_app in Hat; cbn [map concat] in Hat; unfold pad4 at 2 in Hat.
    rewrite <- !app_assoc in Hat; do 2 (apply bytes_at_app in Hat as [_ Hat]); rewrite be32_length, sizes_length in Hat.
    apply bytes_at_app in Hat as [_ Hat]; apply bytes_at_app in Hat as [_ Hat]; apply bytes_at_app in Hat as [Hat _].
    cbn [length] in Ho, Hat; rewrite length_app; cbn [length]; rewrite !wrap_small by (rewrite ?wrap_small by lia; lia).
    revert Hat; match goal with |- bytes_at m ?x c -> bytes_at m ?y c => replace x with y by lia end; done.
  - intros idx Hi; unfold image_multi_getimg; rewrite Ec; cbn [mbind option_bind].
    by destruct (Z.ltb_spec idx (Z.of_nat (length cs))); [lia|].
Qed.

(** ** The initial ramdisk *)

Section ramdisk.
Context (getenv : bytes -> option bytes) (watchdog : bool) (l : Lmb.lmb) (lm : list Lmb.lmb_property) (m : mem).
Context (Hm : Lmb.holds (Lmb.memory l) lm).
Context (Hlm : Forall (fun p => 0 <= Lmb.base p /\ 0 <= Lmb.size p /\ Lmb.pend p < 2 ^ 64) lm).
Context (Hok : Lmb.table_ok (Lmb.reserved l)).
Context (Hram : forall p a, p ∈ lm -> Lmb.base p <= a < Lmb.pend p -> is_Some (m !! a)).

(** The limit for the allocation. *)
Definition limit : Z :=
  match getenv (str "initrd_high") with Some s => (Vsprintf.simple_strtoul s 16).1 | None => 2 ^ 64 - 1 end.

End ramdisk.

(** ** Examples *)

Definition put_be32 (o : nat) (v : Z) (h : bytes) : bytes := take o h ++ be32 v ++ drop (o + 4) h.

(** A ramdisk image for ARM64 with the checksums filled in. *)
Definition mk_ramdisk (data : bytes) : bytes :=
  let h := replicate 28 0 ++ [IH_OS_LINUX; IH_ARCH_ARM64; IH_TYPE_RAMDISK; IH_COMP_NONE] ++ replicate 32 0 in
  let h := put_be32 0 IH_MAGIC (put_be32 12 (Z.of_nat (length data)) h) in
  let h := put_be32 24 (Crc.crc32 0 0 data) h in
  put_be32 4 (Crc.crc32 0 0 h) h ++ data.

Definition rd0 : bytes := mk_ramdisk (str "ramdisk!").
Definition mem_of (p : Z) (l : bytes) : mem := write_bytes ∅ p l.

(** The image with its last byte, and with the byte of its time, damaged. *)
Lemma ramdisk_damage_detected_witness :
  image_get_ramdisk true 0 (mem_of 4096 rd0) 4096 IH_ARCH_ARM64 true = Some 4096 /\
  image_get_ramdisk true 0 (mem_of 4096 (take 71 rd0 ++ [65])) 4096 IH_ARCH_ARM64 true = Some NULL.
Proof.
  assert (image_get_ramdisk true 0 (mem_of 4096 rd0) 4096 IH_ARCH_ARM64 true = Some 4096) as E by (vm_compute; reflexivity).
  split; [exact E|].
  refine (ramdisk_damage_detected true 0 (mem_of 4096 rd0) _ 4096 (take 71 rd0) [33] [65] [] IH_ARCH_ARM64 _ _ _ _ eq_refl _ _ _ _ _ _ E).
  - change (take 71 rd0 ++ [33] ++ []) with rd0; apply bytes_at_write.
  - apply bytes_at_write.
  - apply (bool_decide_unpack _); vm_compute; exact I.
  - apply (bool_decide_unpack _); vm_compute; exact I.
  - cbn; lia.
  - discriminate.
  - lia.
  - lia.
  - vm_compute; reflexivity.
  - right; right; vm_compute; lia.
Defined.

Lemma memmove_wd_correct_witness :
  let m := mem_of 16 (str "abcdefgh" ++ replicate 8 0) in
  exists m', memmove_wd true m 19 16 8 3 = Some m' /\ bytes_at m' 19 (str "abcdefgh").
Proof.
  intros m; destruct (memmove_wd_correct true m 19 16 (str "abcdefgh") 3) as (m' & E & _ & Hb & _); [..|by exists m'].
  - apply (bytes_at_app _ _ (str "abcdefgh") (replicate 8 0)), bytes_at_write.
  - apply str_ok.
  - intros i Hi; unfold m, mem_of; rewrite lookup_write_bytes; cbn [length str] in Hi; rewrite decide_True by (cbn in *; lia).
    apply lookup_lt_is_Some_2; cbn in *; lia.
  - lia.
Defined.

Lemma multi_components_witness :
  let cs := [str "kernel"; str "ramdisk"; str "dtb!"] in let m := mem_of (4096 + 64) (payload cs) in
  image_multi_count m 4096 = Some 3 /\
  exists data, image_multi_getimg m 4096 1 = Some (data, 7) /\ bytes_at m data (str "ramdisk").
Proof.
  intros cs m; destruct (multi_components m 4096 cs) as (Ec & Hi & _); [apply bytes_at_write|..].
  - repeat (apply Forall_cons; split; [cbn; lia|]); by apply Forall_nil.
  - lia.
  - vm_compute; reflexivity.
  - split; [exact Ec|exact (Hi 1%nat (str "ramdisk") eq_refl)].
Defined.

(** Two pages of RAM with a ramdisk of four bytes in the first. *)
Definition bank : Lmb.lmb_property := Lmb.Prop_ 0x2000 0x2000.
Definition small_board : Lmb.lmb :=
  Lmb.Lmb_ (Lmb.Region 1 0 (bank :: replicate 8 (Lmb.Prop_ 0 0))) (Lmb.Region 1 0 (replicate 9 (Lmb.Prop_ 0 0))).
Definition ram : mem := write_bytes (mem_of 0x2000 (replicate 0x2000 0)) 0x2000 (str "disk").

Lemma ram_mapped p a : p ∈ [bank] -> Lmb.base p <= a < Lmb.pend p -> is_Some (ram !! a).
Proof.
  intros ->%list_elem_of_singleton Ha; unfold ram, mem_of; rewrite !lookup_write_bytes, length_replicate.
  change (Lmb.base bank) with 0x2000 in Ha; change (Lmb.pend bank) with 0x4000 in Ha.
  case_decide as Hd; [apply lookup_lt_is_Some_2; cbn in *; lia|].
  rewrite decide_True by lia; apply lookup_lt_is_Some_2; rewrite length_replicate; lia.
Qed.

Definition no_env (name : bytes) : option bytes := None.
Definition high_env (v : bytes) (name : bytes) : option bytes := if bool_decide (name = str "initrd_high") then Some v else None.


(** README gives 0xFFFFFFFF as the value of [initrd_high] that turns copying
    off; with 64-bit addresses that is a limit like any other, and the ramdisk
    is copied. *)
Theorem initrd_high_32_copies : 
  option_map (fun x => (x.1.1.1.1, x.1.1.1.2)) (boot_ramdisk_high (high_env (str "0xFFFFFFFF")) false small_board ram 0x2000 4 0) = Some (0, 0x3000) /\
  option_map (fun x => (x.1.1.1.1, x.1.1.1.2)) (boot_ramdisk_high (high_env (str "0xFFFFFFFFFFFFFFFF")) false small_board ram 0x2000 4 0) = Some (0, 0x2000).
Proof. split; vm_compute; reflexivity. Qed.

(** The size of an image is a 32-bit sum: with a data size close to 2^32 the
    end of the image lies in front of its data. *)
Theorem image_end_wraps : let m := mem_of 4096 (put_be32 12 (2 ^ 32 - 1) (replicate 64 0)) in
  image_get_image_end m 4096 = Some (4096 + 63).
Proof. vm_compute; reflexivity. Qed.

End Image.
