(* ===== verification/Burn.v ===== *)
(** * The burning tool: state and storage interface
    (drivers/usb/gadget/v2_burning, common/cmd_burnup.c)

    The tool receives the image of a partition in packets and writes it to the
    storage.  This file has what its parts share: the memory map of
    optimus_download.h, the static variables of optimus_download.c and
    optimus_simg2img.c, the interface to the storage and the callback that
    writes to it.

    Functions run in the state monad [M] over memory, the storage and the
    static variables; [None] is an access to memory that is not mapped.
    Messages and the reports of progress are left out. *)

From S2P Require Import Prelude CString.

Declare Scope burn_scope.

Module Burn.
Import CString.

(** ** Constants *)

Definition DDR_MEM_ADDR_START : Z := 0x073 * 2 ^ 20.
Definition OPTIMUS_SPARSE_IMG_LEFT_DATA_ADDR_LOW : Z := DDR_MEM_ADDR_START + 2 * 2 ^ 20.
Definition OPTIMUS_SPARSE_IMG_LEFT_DATA_MAX_SZ : Z := 0x2 * 2 ^ 20.
Definition OPTIMUS_DOWNLOAD_TRANSFER_BUF_ADDR : Z :=
  OPTIMUS_SPARSE_IMG_LEFT_DATA_ADDR_LOW + OPTIMUS_SPARSE_IMG_LEFT_DATA_MAX_SZ.
Definition OPTIMUS_DOWNLOAD_TRANSFER_BUF_TOTALSZ : Z := 0x40 * 2 ^ 20.
Definition OPTIMUS_DOWNLOAD_SLOT_SZ : Z := 64 * 2 ^ 10.
Definition OPTIMUS_DOWNLOAD_SLOT_SZ_SHIFT_BITS : Z := 16.
Definition OPTIMUS_DOWNLOAD_SPARSE_INFO_FOR_VERIFY : Z :=
  OPTIMUS_DOWNLOAD_TRANSFER_BUF_ADDR + OPTIMUS_DOWNLOAD_TRANSFER_BUF_TOTALSZ.
Definition OPTIMUS_DOWNLOAD_SPS_VERIFY_BACK_INFO_SZ : Z := 0x2 * 2 ^ 20.
Definition OPTIMUS_SPARSE_IMG_FILL_VAL_BUF : Z :=
  OPTIMUS_DOWNLOAD_SPARSE_INFO_FOR_VERIFY + OPTIMUS_DOWNLOAD_SPS_VERIFY_BACK_INFO_SZ.
Definition OPTIMUS_SPARSE_IMG_FILL_BUF_SZ : Z := OPTIMUS_DOWNLOAD_SLOT_SZ.
Definition OPTIMUS_VFAT_IMG_WRITE_BACK_SZ : Z := OPTIMUS_DOWNLOAD_SLOT_SZ * 1.
Definition OPTIMUS_SIMG_WRITE_BACK_SZ : Z := OPTIMUS_DOWNLOAD_TRANSFER_BUF_TOTALSZ.
Definition OPTIMUS_SHA1SUM_BUFFER_ADDR : Z := OPTIMUS_DOWNLOAD_TRANSFER_BUF_ADDR.
Definition OPTIMUS_SHA1SUM_BUFFER_LEN : Z := OPTIMUS_DOWNLOAD_TRANSFER_BUF_TOTALSZ / 8.

Definition OPTIMUS_DTB_LOAD_ADDR : Z := 0x1000000.

Definition OPT_DOWN_OK : Z := 0.
Definition OPT_DOWN_FAIL : Z := 1.
Definition OPT_DOWN_TRUE : Z := 1.
Definition OPT_DOWN_FALSE : Z := 0.

Definition OPTIMUS_MEDIA_TYPE_NAND : Z := 0.
Definition OPTIMUS_MEDIA_TYPE_SDMMC : Z := 1.
Definition OPTIMUS_MEDIA_TYPE_SPIFLASH : Z := 2.
Definition OPTIMUS_MEDIA_TYPE_STORE : Z := 3.
Definition OPTIMUS_MEDIA_TYPE_MEM : Z := 4.
Definition OPTIMUS_MEDIA_TYPE_KEY_UNIFY : Z := 5.

Definition NAND_BOOT_FLAG : Z := 1.
Definition EMMC_BOOT_FLAG : Z := 2.
Definition SPI_NAND_FLAG : Z := 4.
Definition SPI_EMMC_FLAG : Z := 5.

(** ** Static variables *)

(** [OptimusImgBurnInfo]; the name without its terminator, and without the
    fields that no function reads. *)
Record ImgBurnInfo := mkInfo {
  imgType : Z;
  imgBurnSta : Z;
  storageMediaType : Z;
  nextMediaOffset : Z;
  imgPktSz : Z;
  imgSzDisposed : Z;
  partBaseOffset : Z;
  devHdle : Z;
  partName : bytes }.

(** [_spPacketStates]; the fields that no function reads are left out. *)
Record sp_states := mkSp {
  leftChunkNum : Z;
  sparseBlkSz : Z;
  pktHeadLen : Z;
  notWrBackSz4LongChunk : Z;
  nextFlashAddr4LastLongChunk : Z;
  chunkInfoBackAddr : Z;
  backChunkNum : Z;
  chunkOffset : Z }.

Definition set_sta (v : Z) (i : ImgBurnInfo) : ImgBurnInfo :=
  mkInfo (imgType i) v (storageMediaType i) (nextMediaOffset i) (imgPktSz i) (imgSzDisposed i) (partBaseOffset i) (devHdle i) (partName i).
Definition set_next (v : Z) (i : ImgBurnInfo) : ImgBurnInfo :=
  mkInfo (imgType i) (imgBurnSta i) (storageMediaType i) v (imgPktSz i) (imgSzDisposed i) (partBaseOffset i) (devHdle i) (partName i).
Definition set_disposed (v : Z) (i : ImgBurnInfo) : ImgBurnInfo :=
  mkInfo (imgType i) (imgBurnSta i) (storageMediaType i) (nextMediaOffset i) (imgPktSz i) v (partBaseOffset i) (devHdle i) (partName i).
Definition set_hdle (v : Z) (i : ImgBurnInfo) : ImgBurnInfo :=
  mkInfo (imgType i) (imgBurnSta i) (storageMediaType i) (nextMediaOffset i) (imgPktSz i) (imgSzDisposed i) (partBaseOffset i) v (partName i).

Definition set_left (v : Z) (s : sp_states) : sp_states :=
  mkSp v (sparseBlkSz s) (pktHeadLen s) (notWrBackSz4LongChunk s) (nextFlashAddr4LastLongChunk s) (chunkInfoBackAddr s) (backChunkNum s) (chunkOffset s).
Definition set_head (v : Z) (s : sp_states) : sp_states :=
  mkSp (leftChunkNum s) (sparseBlkSz s) v (notWrBackSz4LongChunk s) (nextFlashAddr4LastLongChunk s) (chunkInfoBackAddr s) (backChunkNum s) (chunkOffset s).
Definition set_long (n a : Z) (s : sp_states) : sp_states :=
  mkSp (leftChunkNum s) (sparseBlkSz s) (pktHeadLen s) n a (chunkInfoBackAddr s) (backChunkNum s) (chunkOffset s).
Definition set_back (v : Z) (s : sp_states) : sp_states :=
  mkSp (leftChunkNum s) (sparseBlkSz s) (pktHeadLen s) (notWrBackSz4LongChunk s) (nextFlashAddr4LastLongChunk s) (chunkInfoBackAddr s) v (chunkOffset s).
Definition set_offset (v : Z) (s : sp_states) : sp_states :=
  mkSp (leftChunkNum s) (sparseBlkSz s) (pktHeadLen s) (notWrBackSz4LongChunk s) (nextFlashAddr4LastLongChunk s) (chunkInfoBackAddr s) (backChunkNum s) v.

(** ** The storage *)

(** The commands "store write", "store read", "store rom_write" and
    "store rom_read", by the name of the partition, the offset in bytes and the
    data or the size; 0 is success.  "store size" gives the size of a partition
    in sectors. *)
Class Storage (D : Type) := {
  write_part : D -> bytes -> Z -> bytes -> Z * D;
  read_part : D -> bytes -> Z -> Z -> Z * bytes * D;
  write_boot : D -> Z -> bytes -> Z * D;
  read_boot : D -> Z -> Z -> Z * bytes * D;
  size_part : D -> bytes -> option Z }.

(** A partition as the bytes at its offsets. *)
Definition put (f : Z -> Z) (off : Z) (data : bytes) (a : Z) : Z :=
  if (off <=? a) && (a <? off + Z.of_nat (length data)) then nth (Z.to_nat (a - off)) data 0 else f a.

Fixpoint get (f : Z -> Z) (off : Z) (n : nat) : bytes :=
  match n with O => [] | S n' => f off :: get f (off + 1) n' end.

(** What the storage promises for requests at sector boundaries inside a
    partition: a successful write changes the bytes of its range and nothing
    else, a successful read delivers the bytes of its range and changes
    nothing, and a [good] storage, which stays good, serves every such
    request. *)
Class StorageSpec (D : Type) `{Storage D} := {
  contents : D -> bytes -> Z -> Z;
  capacity : D -> bytes -> Z;
  good : D -> Prop;
  contents_byte : forall d p a, byte_ok (contents d p a);
  write_ok : forall d p off data d', 0 <= off -> off mod 512 = 0 -> data <> [] -> Forall byte_ok data ->
    off + Z.of_nat (length data) <= capacity d p -> write_part d p off data = (0, d') ->
    (forall a, contents d' p a = put (contents d p) off data a) /\
    (forall q a, q <> p -> contents d' q a = contents d q a) /\
    (forall q, capacity d' q = capacity d q /\ size_part d' q = size_part d q) /\ (good d -> good d');
  write_good : forall d p off data, good d -> 0 <= off -> off mod 512 = 0 -> data <> [] -> Forall byte_ok data ->
    off + Z.of_nat (length data) <= capacity d p -> fst (write_part d p off data) = 0;
  read_ok : forall d p off n data d', 0 <= off -> off mod 512 = 0 -> 0 < n -> off + n <= capacity d p ->
    read_part d p off n = (0, data, d') ->
    data = get (contents d p) off (Z.to_nat n) /\ (forall q a, contents d' q a = contents d q a) /\
    (forall q, capacity d' q = capacity d q /\ size_part d' q = size_part d q) /\ (good d -> good d');
  read_good : forall d p off n, good d -> 0 <= off -> off mod 512 = 0 -> 0 < n -> off + n <= capacity d p ->
    fst (fst (read_part d p off n)) = 0 }.

(** ** The monad *)

Section monad.
Context {D : Type}.

Record world := World {
  wmem : mem;
  dev : D;
  info : ImgBurnInfo;
  sp : sp_states;
  _filledBufValidLen : Z;
  _dtb_is_loaded : Z }.

Definition M (A : Type) : Type := world -> option (A * world).

Definition ret {A} (a : A) : M A := fun w => Some (a, w).
Definition bind {A B} (m : M A) (f : A -> M B) : M B := fun w => match m w with Some (a, w') => f a w' | None => None end.
Definition fault {A} : M A := fun _ => None.

Definition gets {A} (f : world -> A) : M A := fun w => Some (f w, w).
Definition on_sp (f : sp_states -> sp_states) : M unit :=
  fun w => Some (tt, World (wmem w) (dev w) (info w) (f (sp w)) (_filledBufValidLen w) (_dtb_is_loaded w)).
Definition on_info (f : ImgBurnInfo -> ImgBurnInfo) : M unit :=
  fun w => Some (tt, World (wmem w) (dev w) (f (info w)) (sp w) (_filledBufValidLen w) (_dtb_is_loaded w)).
Definition set_valid (v : Z) : M unit := fun w => Some (tt, World (wmem w) (dev w) (info w) (sp w) v (_dtb_is_loaded w)).
Definition set_dtb (n : Z) : M unit := fun w => Some (tt, World (wmem w) (dev w) (info w) (sp w) (_filledBufValidLen w) n).
Definition set_dev (d : D) : M unit := fun w => Some (tt, World (wmem w) d (info w) (sp w) (_filledBufValidLen w) (_dtb_is_loaded w)).
Definition rd {A} (f : mem -> option A) : M A := fun w => match f (wmem w) with Some a => Some (a, w) | None => None end.
Definition on_mem (f : mem -> option mem) : M unit :=
  fun w => match f (wmem w) with
           | Some m => Some (tt, World m (dev w) (info w) (sp w) (_filledBufValidLen w) (_dtb_is_loaded w))
           | None => None
           end.

(** A little-endian field of [n] bytes at [p]. *)
Definition rd_le (n : nat) (p : Z) : M Z := rd (fun m => load_le n m p).
Definition copy (dest src n : Z) : M unit := on_mem (fun m => '(_, m) ← memcpy m dest src n; Some m).

(** What a device stores to memory. *)
Fixpoint store_bytes (m : mem) (p : Z) (l : bytes) : option mem :=
  match l with [] => Some m | x :: l' => m ← store m p x; store_bytes m (p + 1) l' end.

End monad.
Arguments world : clear implicits.
Arguments World {D}.
Arguments M : clear implicits.

Notation "x <- m ; k" := (bind m (fun x => k)) (at level 20, m at level 100, k at level 200, right associativity) : burn_scope.
Notation "' p <- m ; k" := (bind m (fun p => k)) (at level 20, p pattern, m at level 100, k at level 200, right associativity) : burn_scope.
#[local] Open Scope burn_scope.

(** ** Access to the storage (common/cmd_burnup.c) *)

Section storage.
Context {D : Type} `{Storage D}.
#[local] Abbreviation M := (M D).

Definition store_write_ops (name : bytes) (buf off size : Z) : M Z :=
  if buf =? 0 then ret (-1)
  else
    data <- rd (fun m => read_bytes m buf (Z.to_nat size));
    d <- gets dev;
    let '(r, d) := write_part d name off data in
    _ <- set_dev d;
    ret (if negb (r =? 0) then -1 else 0).

Definition store_read_ops (name : bytes) (buf off size : Z) : M Z :=
  if buf =? 0 then ret (-1)
  else
    d <- gets dev;
    let '(r, data, d) := read_part d name off size in
    _ <- set_dev d;
    _ <- on_mem (fun m => store_bytes m buf data);
    ret (if negb (r =? 0) then -1 else 0).

Definition store_boot_write (buf off size : Z) : M Z :=
  if buf =? 0 then ret (-1)
  else
    data <- rd (fun m => read_bytes m buf (Z.to_nat size));
    d <- gets dev;
    let '(r, d) := write_boot d off data in
    _ <- set_dev d;
    ret (if negb (r =? 0) then -1 else 0).

Definition store_boot_read (buf off size : Z) : M Z :=
  if buf =? 0 then ret (-1)
  else
    d <- gets dev;
    let '(r, data, d) := read_boot d off size in
    _ <- set_dev d;
    _ <- on_mem (fun m => store_bytes m buf data);
    ret (if negb (r =? 0) then -1 else 0).

(** The size of a partition in sectors. *)
Definition store_get_partititon_size (name : bytes) : M (option Z) := d <- gets dev; ret (size_part d name).

(** [optimus_cb_simg_write_media]: the number of bytes written *)
Definition optimus_cb_simg_write_media (destAddrInSec dataSzInBy data : Z) : M Z :=
  i <- gets info;
  if OPTIMUS_MEDIA_TYPE_STORE <? storageMediaType i then ret OPT_DOWN_FAIL
  else
    r <- store_write_ops (partName i) data (u64 (Z.shiftl destAddrInSec 9)) dataSzInBy;
    ret (if negb (r =? 0) then 0 else dataSzInBy).
End storage.

(** ** Lemmas *)

Section lemmas.
Context {D : Type}.

Lemma bind_some {A B} (m : M D A) (f : A -> M D B) w a w' : m w = Some (a, w') -> bind m f w = f a w'.
Proof. intros E; unfold bind; by rewrite E. Qed.

Lemma rd_le_at n p (w : world D) l : bytes_at (wmem w) p l -> length l = n -> rd_le n p w = Some (le_Z l, w).
Proof. intros Hb <-; unfold rd_le, rd; by rewrite load_le_spec. Qed.

Lemma rd_le_mapped n : forall p (w : world D), mapped (wmem w) p n -> exists v, rd_le n p w = Some (v, w).
Proof.
  intros p w Hm; unfold rd_le, rd; enough (exists v, load_le n (wmem w) p = Some v) as [v ->] by eauto.
  revert p Hm; induction n as [|n IH]; intros p Hm; cbn [load_le]; [eauto|].
  apply mapped_tail in Hm as [[x Hx] Hm]; destruct (IH _ Hm) as [v Hv]; unfold load; rewrite Hx; cbn [mbind option_bind].
  rewrite Hv; cbn; eauto.
Qed.

Lemma copy_at dest src l (w : world D) : bytes_at (wmem w) src l -> Forall byte_ok l -> mapped (wmem w) dest (length l) ->
  src + Z.of_nat (length l) <= dest \/ dest <= src ->
  copy dest src (Z.of_nat (length l)) w =
  Some (tt, World (write_bytes (wmem w) dest l) (dev w) (info w) (sp w) (_filledBufValidLen w) (_dtb_is_loaded w)).
Proof. intros Hb Fl Hm Hd; unfold copy, on_mem; by rewrite memcpy_spec by (done || lia). Qed.

Lemma store_bytes_ok l : forall m p, Forall byte_ok l -> mapped m p (length l) -> store_bytes m p l = Some (write_bytes m p l).
Proof.
  induction l as [|x l IH]; intros m p Fl Hm; [done|]; apply Forall_cons in Fl as [Hx Fl]; apply mapped_tail in Hm as [H0 Hm].
  cbn [store_bytes write_bytes]; rewrite store_ok by done; cbn [mbind option_bind]; rewrite wrap_small by done.
  apply IH; [done|by apply mapped_insert].
Qed.
End lemmas.

Lemma mapped_sub m p n q k : mapped m p n -> p <= q -> q + Z.of_nat k <= p + Z.of_nat n -> mapped m q k.
Proof. intros Hm Hq Hk i Hi; specialize (Hm (Z.to_nat (q + Z.of_nat i - p)) ltac:(lia)); by replace (p + Z.of_nat (Z.to_nat (q + Z.of_nat i - p))) with (q + Z.of_nat i) in Hm by lia. Qed.

(** Bytes of a partition. *)
Lemma put_in f off data a : off <= a < off + Z.of_nat (length data) -> put f off data a = nth (Z.to_nat (a - off)) data 0.
Proof. intros Ha; unfold put; by replace ((off <=? a) && (a <? off + Z.of_nat (length data))) with true by (symmetry; zbool; lia). Qed.

Lemma put_out f off data a : a < off \/ off + Z.of_nat (length data) <= a -> put f off data a = f a.
Proof. intros Ha; unfold put; by replace ((off <=? a) && (a <? off + Z.of_nat (length data))) with false by (symmetry; zbool; lia). Qed.

Lemma put_ext f g off data a : (forall x, f x = g x) -> put f off data a = put g off data a.
Proof. intros H; unfold put; by rewrite H. Qed.

Lemma put_app f off l1 l2 a : put (put f off l1) (off + Z.of_nat (length l1)) l2 a = put f off (l1 ++ l2) a.
Proof.
  destruct (decide (off <= a < off + Z.of_nat (length l1))) as [H1|H1].
  - rewrite put_out, !put_in by (rewrite ?length_app; lia); rewrite app_nth1 by lia; done.
  - destruct (decide (off + Z.of_nat (length l1) <= a < off + Z.of_nat (length l1) + Z.of_nat (length l2))) as [H2|H2].
    + rewrite !put_in by (rewrite ?length_app; lia); rewrite app_nth2 by lia; f_equal; lia.
    + rewrite !put_out by (rewrite ?length_app; lia); done.
Qed.

Lemma put_nil f off a : put f off [] a = f a.
Proof. apply put_out; cbn; lia. Qed.

Lemma get_put f l : forall off, get (put f off l) off (length l) = l.
Proof.
  assert (forall l g off, (forall i, (i < length l)%nat -> g (off + Z.of_nat i) = nth i l 0) -> get g off (length l) = l) as H.
  { clear; induction l as [|x l IH]; intros g off Hg; [done|]; cbn [get length].
    rewrite IH; [f_equal; rewrite <- (Z.add_0_r off); by apply (Hg 0%nat); cbn; lia|].
    intros i Hi; etransitivity; [|exact (Hg (S i) ltac:(cbn; lia))]; f_equal; lia. }
  intros off; apply H; intros i Hi; rewrite put_in by lia; f_equal; lia.
Qed.

Lemma get_ext f g off n : (forall a, off <= a < off + Z.of_nat n -> f a = g a) -> get f off n = get g off n.
Proof. revert off; induction n as [|n IH]; intros off Hf; [done|]; cbn [get]; f_equal; [apply Hf; lia|apply IH; intros; apply Hf; lia]. Qed.

Lemma get_length f off n : length (get f off n) = n.
Proof. revert off; induction n as [|n IH]; intros off; [done|]; cbn; by rewrite IH. Qed.

Lemma get_app f off n k : get f off (n + k) = get f off n ++ get f (off + Z.of_nat n) k.
Proof.
  revert off; induction n as [|n IH]; intros off; cbn [get Nat.add app]; [by rewrite Z.add_0_r|].
  rewrite IH; do 3 f_equal; lia.
Qed.

Lemma get_bytes f off n : (forall a, byte_ok (f a)) -> Forall byte_ok (get f off n).
Proof. intros Hf; revert off; induction n as [|n IH]; intros off; [by apply Forall_nil|]; cbn; apply Forall_cons; auto. Qed.

Section writes.
Context {D : Type} `{HS : StorageSpec D}.

Definition with_dev (w : world D) (d : D) : world D := World (wmem w) d (info w) (sp w) (_filledBufValidLen w) (_dtb_is_loaded w).

(** The other partitions and all sizes are the same. *)
Definition untouched (p : bytes) (d d' : D) : Prop :=
  (forall q a, q <> p -> contents d' q a = contents d q a) /\
  (forall q, capacity d' q = capacity d q /\ size_part d' q = size_part d q).

Lemma untouched_refl p d : untouched p d d.
Proof. by split. Qed.

Lemma untouched_trans p d1 d2 d3 : untouched p d1 d2 -> untouched p d2 d3 -> untouched p d1 d3.
Proof.
  intros [O1 S1] [O2 S2]; split.
  - intros q a Hq; by rewrite O2, O1.
  - intros q; destruct (S1 q), (S2 q); split; congruence.
Qed.

(** The effect of a write on the storage. *)
Definition wrote (d d' : D) (p : bytes) (off : Z) (data : bytes) : Prop :=
  (forall a, contents d' p a = put (contents d p) off data a) /\
  untouched p d d' /\ good d'.

Lemma store_write_ok w name buf off data : good (dev w) -> bytes_at (wmem w) buf data -> Forall byte_ok data -> data <> [] ->
  buf <> 0 -> 0 <= off -> off mod 512 = 0 -> off + Z.of_nat (length data) <= capacity (dev w) name ->
  exists d', store_write_ops name buf off (Z.of_nat (length data)) w = Some (0, with_dev w d') /\ wrote (dev w) d' name off data.
Proof.
  intros Hg Hb Fd Hne Hbuf Ho Hal Hc; unfold store_write_ops; rewrite (proj2 (Z.eqb_neq buf 0) Hbuf).
  erewrite bind_some by (unfold rd; rewrite Nat2Z.id, read_bytes_at by done; reflexivity).
  erewrite bind_some by reflexivity.
  pose proof (write_good (dev w) name off data Hg Ho Hal Hne Fd Hc) as Hr.
  destruct (write_part (dev w) name off data) as [r d'] eqn:E; cbn in Hr; subst r; exists d'; split; [done|].
  destruct (write_ok (dev w) name off data d') as (H1 & H2 & H3 & H4); try done; split; [done|]; split; [by split|auto].
Qed.

Lemma write_media_ok w sec buf data : good (dev w) -> storageMediaType (info w) <= OPTIMUS_MEDIA_TYPE_STORE ->
  bytes_at (wmem w) buf data -> Forall byte_ok data -> data <> [] -> buf <> 0 -> 0 <= sec < 2 ^ 32 ->
  sec * 512 + Z.of_nat (length data) <= capacity (dev w) (partName (info w)) ->
  exists d', optimus_cb_simg_write_media sec (Z.of_nat (length data)) buf w = Some (Z.of_nat (length data), with_dev w d') /\
             wrote (dev w) d' (partName (info w)) (sec * 512) data.
Proof.
  intros Hg Ht Hb Fd Hne Hbuf Hs Hc; unfold optimus_cb_simg_write_media; erewrite bind_some by reflexivity.
  destruct (Z.ltb_spec OPTIMUS_MEDIA_TYPE_STORE (storageMediaType (info w))); [lia|].
  rewrite Z.shiftl_mul_pow2, wrap_small by lia; change (2 ^ 9) with 512.
  destruct (store_write_ok w (partName (info w)) buf (sec * 512) data) as (d' & E & Hw); try done; try lia.
  { by rewrite Z.mod_mul. }
  exists d'; split; [|done]; by erewrite bind_some by exact E.
Qed.
End writes.

End Burn.
