(* ===== verification/Sparse.v ===== *)
(** * Sparse images
    (drivers/usb/gadget/v2_burning/v2_common/optimus_simg2img.c, sparse_format.h)

    An image in Android's sparse format is a file header and chunks: data, a
    value to repeat, or a gap.  The tool gets it in packets that end anywhere.
    [optimus_simg_to_media] writes what a packet holds to the partition and
    reports how many bytes at its end it has not used; these come back at the
    start of the next packet.  The headers it has seen are kept in memory, and
    [optimus_sparse_get_chunk_data] walks over them when the partition is
    verified. *)

From S2P Require Import Prelude CString CArray Burn.

Module Sparse.
Import CString CArray Burn.
#[local] Open Scope burn_scope.

Definition SPARSE_HEADER_MAGIC : Z := 0xed26ff3a.
Definition SPARSE_HEADER_MAJOR_VER : Z := 1.
Definition CHUNK_TYPE_RAW : Z := 0xCAC1.
Definition CHUNK_TYPE_FILL : Z := 0xCAC2.
Definition CHUNK_TYPE_DONT_CARE : Z := 0xCAC3.
Definition CHUNK_TYPE_CRC32 : Z := 0xCAC4.
Definition CHUNK_HEAD_SIZE : Z := 12.
Definition FILE_HEAD_SIZE : Z := 28.

Section code.
Context {D : Type} `{Storage D} (device_boot_flag disk_inited : Z).
#[local] Abbreviation M := (Burn.M D).

(** The fields of [sparse_header_t] and [chunk_header_t]. *)
Definition magic (h : Z) : M Z := rd_le 4 h.
Definition major_version (h : Z) : M Z := rd_le 2 (h + 4).
Definition file_hdr_sz (h : Z) : M Z := rd_le 2 (h + 8).
Definition chunk_hdr_sz (h : Z) : M Z := rd_le 2 (h + 10).
Definition blk_sz (h : Z) : M Z := rd_le 4 (h + 12).
Definition total_chunks (h : Z) : M Z := rd_le 4 (h + 20).
Definition chunk_type (c : Z) : M Z := rd_le 2 c.
Definition chunk_sz (c : Z) : M Z := rd_le 4 (c + 4).
Definition total_sz (c : Z) : M Z := rd_le 4 (c + 8).

Definition optimus_simg_probe (source length : Z) : M Z :=
  if length <? FILE_HEAD_SIZE then ret 0
  else
    m <- magic source;
    if negb (m =? SPARSE_HEADER_MAGIC) then ret 0
    else
      v <- major_version source;
      f <- file_hdr_sz source;
      c <- chunk_hdr_sz source;
      ret (if negb ((SPARSE_HEADER_MAJOR_VER =? v) && (FILE_HEAD_SIZE =? f) && (CHUNK_HEAD_SIZE =? c)) then 0 else 1).

Definition optimus_simg_parser_init (source : Z) : M Z :=
  n <- total_chunks source;
  h <- file_hdr_sz source;
  b <- blk_sz source;
  _ <- on_sp (fun _ => mkSp n b h 0 0 OPTIMUS_DOWNLOAD_SPARSE_INFO_FOR_VERIFY 0 0);
  _ <- copy OPTIMUS_DOWNLOAD_SPARSE_INFO_FOR_VERIFY source FILE_HEAD_SIZE;
  ret OPT_DOWN_OK.

(** [n >> 16 << 16] *)
Definition whole_slots (n : Z) : Z :=
  Z.shiftl (Z.shiftr n OPTIMUS_DOWNLOAD_SLOT_SZ_SHIFT_BITS) OPTIMUS_DOWNLOAD_SLOT_SZ_SHIFT_BITS.

(** The cases of the switch: an error, or the bytes of data the chunk used. *)
Definition raw_chunk (pChunk chunkDataLen unParsedBufLen flashAddrStart : Z) : M (Z + Z) :=
  total <- total_sz pChunk;
  if negb (u64 (CHUNK_HEAD_SIZE + chunkDataLen) =? total) then ret (inl (-169))
  else
    wantWrLen <- (if unParsedBufLen <? total then
        let wantWrLen := whole_slots (u32 (unParsedBufLen - CHUNK_HEAD_SIZE)) in
        _ <- on_sp (set_long (u32 (chunkDataLen - wantWrLen)) (u32 (flashAddrStart + Z.shiftr wantWrLen 9)));
        ret wantWrLen
      else ret chunkDataLen);
    if negb (wantWrLen =? 0) then
      thisWriteLen <- optimus_cb_simg_write_media flashAddrStart wantWrLen (pChunk + CHUNK_HEAD_SIZE);
      ret (if negb (thisWriteLen =? wantWrLen) then inl (-188) else inr thisWriteLen)
    else ret (inr 0).

Definition dont_care_chunk (pChunk : Z) : M (Z + Z) :=
  total <- total_sz pChunk;
  ret (if negb (CHUNK_HEAD_SIZE =? total) then inl (-199) else inr 0).

(** The words of the fill buffer from [temBuf] on. *)
Fixpoint fill_value (n : nat) (m : mem) (temBuf fillVal : Z) : option mem :=
  match n with O => Some m | S n' => m ← store_le 4 m temBuf fillVal; fill_value n' m (temBuf + 4) fillVal end.

(** The writes of the buffer; a failure ends the loop. *)
Fixpoint fill_loop (fuel : nat) (temp_flashAddrStart LeftDataLen thisChunkFilledLen : Z) : M unit :=
  match fuel with
  | O => fault
  | S fuel' =>
      let thisWriteLen := Z.min LeftDataLen thisChunkFilledLen in
      actualWrLen <- optimus_cb_simg_write_media temp_flashAddrStart thisWriteLen OPTIMUS_SPARSE_IMG_FILL_VAL_BUF;
      if negb (actualWrLen =? thisWriteLen) then ret tt
      else
        let LeftDataLen := LeftDataLen - thisWriteLen in
        if negb (LeftDataLen =? 0)
        then fill_loop fuel' (u32 (temp_flashAddrStart + Z.shiftr thisWriteLen 9)) LeftDataLen thisChunkFilledLen
        else ret tt
  end.

(** Whether the value has to be written; erased storage holds it otherwise. *)
Definition need_fill (fillVal : Z) : bool :=
  let need :=
    if (device_boot_flag =? EMMC_BOOT_FLAG) || (device_boot_flag =? SPI_EMMC_FLAG) then negb (fillVal =? 0)
    else if (device_boot_flag =? NAND_BOOT_FLAG) || (device_boot_flag =? SPI_NAND_FLAG) then negb (fillVal =? 0xFFFFFFFF)
    else true in
  if negb need then Z.shiftr disk_inited 16 =? 0 else need.

Definition fill_chunk (pChunk chunkDataLen flashAddrStart : Z) : M (Z + Z) :=
  fillVal <- rd_le 4 (pChunk + CHUNK_HEAD_SIZE);
  let thisChunkFilledLen := Z.min chunkDataLen OPTIMUS_SPARSE_IMG_FILL_BUF_SZ in
  total <- total_sz pChunk;
  if negb (CHUNK_HEAD_SIZE + 4 =? total) then ret (inl (-220))
  else if need_fill fillVal then
    old <- rd_le 4 OPTIMUS_SPARSE_IMG_FILL_VAL_BUF;
    v <- gets _filledBufValidLen;
    let valid := if negb (fillVal =? old) && negb (v =? 0) then 0 else v in
    _ <- set_valid valid;
    _ <- (if valid <? thisChunkFilledLen then
           let i := Z.shiftr valid 2 in
           _ <- on_mem (fun m => fill_value (Z.to_nat (Z.shiftr thisChunkFilledLen 2 - i)) m (OPTIMUS_SPARSE_IMG_FILL_VAL_BUF + 4 * i) fillVal);
           set_valid thisChunkFilledLen
         else ret tt);
    _ <- fill_loop (S (Z.to_nat (chunkDataLen / Z.max 1 thisChunkFilledLen))) flashAddrStart chunkDataLen thisChunkFilledLen;
    ret (inr 4)
  else ret (inr 4).

(** The loop over the chunks, [leftChunkNum] of them at most: an error, or what
    is left of the packet and the flash address behind the last chunk. *)
Fixpoint chunk_loop (fuel : nat) (pChunk unParsedBufLen flashAddrStart backChunkHead : Z) : M (Z + Z * Z) :=
  s <- gets sp;
  if (leftChunkNum s =? 0) || negb (notWrBackSz4LongChunk s =? 0) then ret (inr (unParsedBufLen, flashAddrStart))
  else
    match fuel with
    | O => fault
    | S fuel' =>
        n <- chunk_sz pChunk;
        let chunkDataLen := u32 (n * sparseBlkSz s) in
        if unParsedBufLen <? CHUNK_HEAD_SIZE then ret (inr (unParsedBufLen, flashAddrStart))
        else
          type <- chunk_type pChunk;
          r <- (if type =? CHUNK_TYPE_RAW then raw_chunk pChunk chunkDataLen unParsedBufLen flashAddrStart
               else if type =? CHUNK_TYPE_DONT_CARE then dont_care_chunk pChunk
               else if type =? CHUNK_TYPE_FILL then fill_chunk pChunk chunkDataLen flashAddrStart
               else if type =? CHUNK_TYPE_CRC32 then ret (inl (-276))
               else ret (inl (-279)));
          match r with
          | inl e => ret (inl e)
          | inr thisWriteLen =>
              _ <- copy backChunkHead pChunk CHUNK_HEAD_SIZE;
              _ <- on_sp (fun s => set_back (u32 (backChunkNum s + 1)) s);
              total <- total_sz pChunk;
              _ <- on_sp (fun s => set_left (u32 (leftChunkNum s - 1)) s);
              chunk_loop fuel' (u64 (pChunk + total)) (u32 (unParsedBufLen - (CHUNK_HEAD_SIZE + thisWriteLen)))
                (u32 (flashAddrStart + Z.shiftr chunkDataLen 9)) (backChunkHead + CHUNK_HEAD_SIZE)
          end
    end.

(** The data of a chunk that started in an earlier packet: the result of the
    function, or the address of the next chunk and what is left of the packet. *)
Definition long_chunk (s : sp_states) (simgPktHead pktLen unParsedBufLen unParsed0 : Z) : M (Z * Z + Z * Z) :=
  let notWr := notWrBackSz4LongChunk s in
  let thisWriteLen := if pktLen <=? notWr then pktLen else notWr in
  let thisWriteLen := if thisWriteLen <? notWr then whole_slots thisWriteLen else thisWriteLen in
  writeLen <- optimus_cb_simg_write_media (nextFlashAddr4LastLongChunk s) thisWriteLen simgPktHead;
  if negb (thisWriteLen =? writeLen) then ret (inl (-131, unParsed0))
  else
    let unParsedBufLen := u32 (unParsedBufLen - thisWriteLen) in
    _ <- on_sp (fun s => set_long (u32 (notWrBackSz4LongChunk s - thisWriteLen)) (nextFlashAddr4LastLongChunk s) s);
    if pktLen <=? notWr then
      _ <- on_sp (fun s => set_long (notWrBackSz4LongChunk s) (u32 (nextFlashAddr4LastLongChunk s + Z.shiftr thisWriteLen 9)) s);
      ret (inl (0, unParsedBufLen))
    else ret (inr (simgPktHead + notWr + pktHeadLen s, unParsedBufLen)).

(** The return value and [*unParsedDataLen], which is [unParsed0] after an
    error. *)
Definition optimus_simg_to_media (simgPktHead pktLen unParsed0 flashAddrInSec : Z) : M (Z * Z) :=
  s <- gets sp;
  let unParsedBufLen := u32 (pktLen - pktHeadLen s) in
  let backChunkHead := chunkInfoBackAddr s + FILE_HEAD_SIZE + CHUNK_HEAD_SIZE * backChunkNum s in
  r <- (if negb (notWrBackSz4LongChunk s =? 0) && (pktHeadLen s =? 0)
       then long_chunk s simgPktHead pktLen unParsedBufLen unParsed0
       else ret (inr (simgPktHead + pktHeadLen s, unParsedBufLen)));
  match r with
  | inl x => ret x
  | inr (pChunk, unParsedBufLen) =>
      r <- chunk_loop (Z.to_nat (leftChunkNum s)) pChunk unParsedBufLen flashAddrInSec backChunkHead;
      match r with
      | inl e => ret (e, unParsed0)
      | inr (un, flashAddrStart) =>
          _ <- on_sp (set_head 0);
          ret (s32 (flashAddrStart - flashAddrInSec), un)
      end
  end.

(** ** Verification *)

Definition optimus_sparse_back_info_probe : M Z :=
  s <- gets sp;
  if negb (leftChunkNum s =? 0) then ret OPT_DOWN_FALSE
  else optimus_simg_probe (chunkInfoBackAddr s) FILE_HEAD_SIZE.

(** The loop until a chunk with data: the return value, the size of the
    headers, of the data and its offset. *)
Fixpoint data_loop (fuel : nat) (pChunk headSz dataSz dataOffset : Z) : M (Z * Z * Z * Z) :=
  s <- gets sp;
  if leftChunkNum s <? backChunkNum s then
    match fuel with
    | O => fault
    | S fuel' =>
        n <- chunk_sz pChunk;
        let chunkDataLen := u32 (n * sparseBlkSz s) in
        type <- chunk_type pChunk;
        total <- total_sz pChunk;
        let r :=
          if type =? CHUNK_TYPE_RAW then
            if negb (u64 (CHUNK_HEAD_SIZE + chunkDataLen) =? total) then None else Some chunkDataLen
          else if type =? CHUNK_TYPE_DONT_CARE then if negb (CHUNK_HEAD_SIZE =? total) then None else Some dataSz
          else if type =? CHUNK_TYPE_FILL then if negb (CHUNK_HEAD_SIZE + 4 =? total) then None else Some 4
          else None in
        match r with
        | None => ret (OPT_DOWN_FAIL, headSz, dataSz, dataOffset)
        | Some dataSz =>
            let dataOffset := chunkOffset s in
            _ <- on_sp (fun s => set_offset (u64 (chunkOffset s + chunkDataLen)) s);
            _ <- on_sp (fun s => set_left (u32 (leftChunkNum s + 1)) s);
            let headSz := u32 (headSz + CHUNK_HEAD_SIZE) in
            if negb (dataSz =? 0) then ret (OPT_DOWN_OK, headSz, dataSz, dataOffset)
            else data_loop fuel' (pChunk + CHUNK_HEAD_SIZE) headSz dataSz dataOffset
        end
    end
  else ret (OPT_DOWN_OK, headSz, dataSz, dataOffset).

(** The return value, [*head], [*headSz], [*dataSz] and [*dataOffset]. *)
Definition optimus_sparse_get_chunk_data : M (Z * Z * Z * Z * Z) :=
  s <- gets sp;
  let pChunk := chunkInfoBackAddr s + FILE_HEAD_SIZE + CHUNK_HEAD_SIZE * leftChunkNum s in
  let '(head, headSz) := if leftChunkNum s =? 0 then (chunkInfoBackAddr s, FILE_HEAD_SIZE) else (pChunk, 0) in
  '(r, headSz, dataSz, dataOffset) <- data_loop (Z.to_nat (backChunkNum s - leftChunkNum s)) pChunk headSz 0 0;
  ret (r, head, headSz, dataSz, dataOffset).
End code.

(** ** The format *)

(** A chunk with the reserved field of its header. *)
Inductive chunk :=
  | Raw (res : Z) (data : bytes)
  | Fill (res v n : Z)
  | DontCare (res n : Z).

Section format.
Context (blk : Z).

(** The size in the partition. *)
Definition out_size (c : chunk) : Z :=
  match c with Raw _ data => Z.of_nat (length data) | Fill _ _ n => n * blk | DontCare _ n => n * blk end.

Definition type_of (c : chunk) : Z :=
  match c with Raw _ _ => CHUNK_TYPE_RAW | Fill _ _ _ => CHUNK_TYPE_FILL | DontCare _ _ => CHUNK_TYPE_DONT_CARE end.
Definition reserved (c : chunk) : Z := match c with Raw r _ => r | Fill r _ _ => r | DontCare r _ => r end.
Definition payload (c : chunk) : bytes := match c with Raw _ data => data | Fill _ v _ => le 4 v | DontCare _ _ => [] end.

Definition head (c : chunk) : bytes :=
  le 2 (type_of c) ++ le 2 (reserved c) ++ le 4 (out_size c / blk) ++ le 4 (12 + Z.of_nat (length (payload c))).
Definition enc (c : chunk) : bytes := head c ++ payload c.
Definition enc_all (cs : list chunk) : bytes := concat (map enc cs).

(** The partition after the chunks: a gap leaves what was there. *)
Definition fill_bytes (v n : Z) : bytes := concat (replicate (Z.to_nat (n / 4)) (le 4 v)).
Definition apply (c : chunk) (off : Z) (f : Z -> Z) : Z -> Z :=
  match c with
  | Raw _ data => put f off data
  | Fill _ v n => put f off (fill_bytes v (n * blk))
  | DontCare _ _ => f
  end.
Fixpoint apply_all (cs : list chunk) (off : Z) (f : Z -> Z) : Z -> Z :=
  match cs with [] => f | c :: cs' => apply_all cs' (off + out_size c) (apply c off f) end.
Definition size_all (cs : list chunk) : Z := foldr (fun c z => out_size c + z) 0 cs.

(** The sizes of a chunk fit 32 bits. *)
Definition chunk_ok (c : chunk) : Prop :=
  match c with
  | Raw _ data => Forall byte_ok data /\ Z.of_nat (length data) mod blk = 0 /\ 12 + Z.of_nat (length data) < 2 ^ 32
  | Fill _ v n => 0 <= v < 2 ^ 32 /\ 0 < n /\ n * blk < 2 ^ 32
  | DontCare _ n => 0 <= n /\ n * blk < 2 ^ 32
  end.

Context (Hblk : 0 < blk < 2 ^ 32) (H512 : blk mod 512 = 0).

Lemma head_length c : length (head c) = 12%nat.
Proof. unfold head; by rewrite !length_app, !le_length. Qed.

Lemma enc_length c : Z.of_nat (length (enc c)) = 12 + Z.of_nat (length (payload c)).
Proof. unfold enc; rewrite length_app, head_length; lia. Qed.

Lemma out_size_blocks c : chunk_ok c -> out_size c / blk * blk = out_size c /\ 0 <= out_size c < 2 ^ 32 /\ out_size c mod 512 = 0 /\
  0 <= out_size c / blk < 2 ^ 32.
Proof.
  intros Hc; assert (exists k, out_size c = k * blk /\ 0 <= k /\ k * blk < 2 ^ 32) as (k & -> & Hk & Hk2).
  { destruct c as [r data|r v n|r n]; cbn in *; [|exists n; lia..].
    destruct Hc as (_ & Hm & Hl); exists (Z.of_nat (length data) / blk).
    pose proof (Z.div_mod (Z.of_nat (length data)) blk ltac:(lia)); split; [lia|]; split; [apply Z.div_pos; lia|lia]. }
  rewrite Z.div_mul by lia; split; [done|]; split; [lia|]; split; [by rewrite Z.mul_mod, H512, Z.mul_0_r by lia|].
  split; [done|]; assert (k * 1 <= k * blk) by (apply Z.mul_le_mono_nonneg_l; lia); lia.
Qed.

Lemma payload_size c : chunk_ok c -> 12 + Z.of_nat (length (payload c)) < 2 ^ 32 /\ Forall byte_ok (payload c).
Proof. destruct c; cbn; [tauto|rewrite le_length; split; [lia|apply le_bytes]|intros; split; [lia|by apply Forall_nil]]. Qed.

Lemma head_bytes c : Forall byte_ok (head c).
Proof. unfold head; rewrite !Forall_app; auto using le_bytes. Qed.

Lemma enc_bytes c : chunk_ok c -> Forall byte_ok (enc c).
Proof. intros Hc; apply Forall_app; split; [apply head_bytes|by apply payload_size]. Qed.

Lemma enc_all_app cs1 cs2 : enc_all (cs1 ++ cs2) = enc_all cs1 ++ enc_all cs2.
Proof. unfold enc_all; by rewrite map_app, concat_app. Qed.

Lemma size_all_app cs1 cs2 : size_all (cs1 ++ cs2) = size_all cs1 + size_all cs2.
Proof. induction cs1 as [|c cs1 IH]; [done|]; cbn [size_all app foldr] in *; unfold size_all in *; lia. Qed.

Lemma size_all_512 cs : Forall chunk_ok cs -> 0 <= size_all cs /\ size_all cs mod 512 = 0.
Proof.
  induction 1 as [|c cs Hc _ [IH1 IH2]]; [done|]; unfold size_all in *; cbn [foldr].
  destruct (out_size_blocks c Hc) as (_ & ? & Hm & _); split; [lia|]; by rewrite Z.add_mod, Hm, IH2 by lia.
Qed.

Lemma apply_all_app cs1 cs2 off f : apply_all (cs1 ++ cs2) off f = apply_all cs2 (off + size_all cs1) (apply_all cs1 off f).
Proof.
  revert off f; induction cs1 as [|c cs1 IH]; intros off f; cbn [app apply_all]; [by rewrite Z.add_0_r|].
  rewrite IH; f_equal; unfold size_all; cbn [foldr]; lia.
Qed.

Lemma fill_bytes_length v n : 0 <= n -> n mod 4 = 0 -> Z.of_nat (length (fill_bytes v n)) = n.
Proof.
  intros Hn Hm; unfold fill_bytes; pose proof (Z.div_mod n 4 ltac:(lia)) as E; rewrite Hm in E.
  assert (forall k, length (concat (replicate k (le 4 v))) = (4 * k)%nat) as ->; [|lia].
  induction k as [|k IH]; [done|]; cbn [replicate concat]; rewrite length_app, IH, le_length; lia.
Qed.

Lemma fill_bytes_ok v n : Forall byte_ok (fill_bytes v n).
Proof.
  unfold fill_bytes; induction (Z.to_nat (n / 4)) as [|k IH]; [by apply Forall_nil|].
  cbn [replicate concat]; apply Forall_app; auto using le_bytes.
Qed.

Lemma blk_4 n : (n * blk) mod 4 = 0.
Proof. pose proof (Z.div_mod blk 512 ltac:(lia)) as E; rewrite H512 in E; rewrite E; by replace (n * (512 * (blk / 512) + 0)) with (n * (blk / 512) * 128 * 4) by lia; rewrite Z.mod_mul. Qed.

(** Nothing behind the chunks changes. *)
Lemma apply_beyond c off f a : chunk_ok c -> off + out_size c <= a -> apply c off f a = f a.
Proof.
  intros Hc Ha; destruct c as [r data|r v n|r n]; cbn in *; [by apply put_out; lia| |done].
  apply put_out; rewrite fill_bytes_length by (apply blk_4 || lia); lia.
Qed.

Lemma apply_all_beyond cs : forall off f a, Forall chunk_ok cs -> off + size_all cs <= a -> apply_all cs off f a = f a.
Proof.
  induction cs as [|c cs IH]; intros off f a Fc Ha; [done|]; apply Forall_cons in Fc as [Hc Fc]; cbn [apply_all].
  unfold size_all in Ha; cbn [foldr] in Ha; fold (size_all cs) in Ha; pose proof (size_all_512 cs Fc).
  destruct (out_size_blocks c Hc) as (_ & ? & _); rewrite IH by (done || lia); apply apply_beyond; [done|lia].
Qed.

(** The fields of a header in memory. *)
Lemma le_Z_le n z : 0 <= z < 256 ^ Z.of_nat n -> le_Z (le n z) = z.
Proof. exact (le_val_le n z). Qed.

Lemma head_fields {D} (w : world D) p c : chunk_ok c -> bytes_at (wmem w) p (head c) ->
  chunk_type p w = Some (type_of c, w) /\ chunk_sz p w = Some (out_size c / blk, w) /\
  total_sz p w = Some (12 + Z.of_nat (length (payload c)), w).
Proof.
  intros Hc Hb; unfold head in Hb; rewrite !bytes_at_app in Hb; destruct Hb as (H1 & H2 & H3 & H4); rewrite !le_length in *.
  destruct (out_size_blocks c Hc) as (_ & _ & _ & ?); destruct (payload_size c Hc) as [? _].
  unfold chunk_type, chunk_sz, total_sz; repeat split.
  - erewrite rd_le_at by (apply le_length || exact H1); rewrite le_Z_le; [done|destruct c; cbn; unfold CHUNK_TYPE_RAW, CHUNK_TYPE_FILL, CHUNK_TYPE_DONT_CARE; lia].
  - erewrite rd_le_at; [|replace (p + 4) with (p + Z.of_nat 2 + Z.of_nat 2) by lia; exact H3|apply le_length].
    by rewrite le_Z_le by lia.
  - erewrite rd_le_at; [|replace (p + 8) with (p + Z.of_nat 2 + Z.of_nat 2 + Z.of_nat 4) by lia; exact H4|apply le_length].
    rewrite le_Z_le by lia; done.
Qed.
End format.

(** ** Writing chunks *)

Lemma whole_slots_eq n : 0 <= n -> whole_slots n = n / 65536 * 65536 /\ 0 <= whole_slots n <= n /\ n - whole_slots n < 65536 /\ whole_slots n mod 512 = 0.
Proof.
  intros Hn; unfold whole_slots, OPTIMUS_DOWNLOAD_SLOT_SZ_SHIFT_BITS; rewrite Z.shiftl_mul_pow2, Z.shiftr_div_pow2 by lia.
  change (2 ^ 16) with 65536; pose proof (Z.div_mod n 65536 ltac:(lia)); pose proof (Z.mod_pos_bound n 65536 ltac:(lia)).
  split; [done|]; split; [split; [apply Z.mul_nonneg_nonneg; [apply Z.div_pos|]; lia|lia]|]; split; [lia|].
  replace (n / 65536 * 65536) with (n / 65536 * 128 * 512) by lia; by rewrite Z.mod_mul.
Qed.

Lemma fill_bytes_app v a b : 0 <= a -> 0 <= b -> a mod 4 = 0 -> fill_bytes v (a + b) = fill_bytes v a ++ fill_bytes v b.
Proof.
  intros Ha Hb Hm; unfold fill_bytes; pose proof (Z.div_mod a 4 ltac:(lia)) as E; rewrite Hm, Z.add_0_r in E.
  rewrite E at 1; rewrite (Z.add_comm (4 * _)), (Z.mul_comm 4), Z.div_add, Z.add_comm, Z2Nat.inj_add by (lia || apply Z.div_pos; lia).
  by rewrite replicate_add, concat_app.
Qed.

Lemma fill_value_ok v n : forall m p, 0 <= v < 2 ^ 32 -> mapped m p (4 * n) ->
  fill_value n m p v = Some (write_bytes m p (concat (replicate n (le 4 v)))).
Proof.
  induction n as [|n IH]; intros m p Hv Hm; [done|]; replace (4 * S n)%nat with (4 + 4 * n)%nat in Hm by lia.
  apply mapped_app in Hm as [H4 Hm]; cbn [fill_value replicate concat]; rewrite write_bytes_app, le_length.
  pose proof (store_le_spec (le 4 v) m p (le_bytes 4 v)) as E; rewrite le_length, le_Z_le in E by (cbn; lia); rewrite E by done.
  cbn [mbind option_bind]; apply IH; [done|by apply mapped_write].
Qed.

Abbreviation LOW := OPTIMUS_SPARSE_IMG_LEFT_DATA_ADDR_LOW.
Abbreviation INFO := OPTIMUS_DOWNLOAD_SPARSE_INFO_FOR_VERIFY.
Abbreviation FBUF := OPTIMUS_SPARSE_IMG_FILL_VAL_BUF.
Abbreviation SLOT := OPTIMUS_DOWNLOAD_SLOT_SZ.

(** Addresses of the memory map. *)
Ltac layout :=
  unfold OPTIMUS_SPARSE_IMG_FILL_VAL_BUF, OPTIMUS_DOWNLOAD_SPS_VERIFY_BACK_INFO_SZ, OPTIMUS_DOWNLOAD_SPARSE_INFO_FOR_VERIFY,
    OPTIMUS_DOWNLOAD_TRANSFER_BUF_TOTALSZ, OPTIMUS_DOWNLOAD_TRANSFER_BUF_ADDR, OPTIMUS_SPARSE_IMG_LEFT_DATA_MAX_SZ,
    OPTIMUS_SPARSE_IMG_LEFT_DATA_ADDR_LOW, DDR_MEM_ADDR_START, OPTIMUS_SPARSE_IMG_FILL_BUF_SZ, OPTIMUS_DOWNLOAD_SLOT_SZ in *; lia.

Section stream.
Context {D : Type} `{HS : StorageSpec D} (device_boot_flag disk_inited : Z).
Context (blk : Z) (Hblk : 0 < blk < 2 ^ 32) (H512 : blk mod 512 = 0).
Context (name hdr : bytes) (Hhdr : length hdr = 28%nat) (cap : Z) (f0 : Z -> Z).

(** The buffer with the fill value: the part that is valid holds one value. *)
Definition fill_ok (m : mem) (valid : Z) : Prop :=
  0 <= valid <= SLOT /\ valid mod 4 = 0 /\ (valid = 0 \/ exists v, 0 <= v < 2 ^ 32 /\ bytes_at m FBUF (fill_bytes v valid)).

(** What holds between the chunks, with the chunks whose headers are kept. *)
Record base (w : world D) (seen : list chunk) : Prop := {
  base_good : good (dev w);
  base_type : storageMediaType (info w) <= OPTIMUS_MEDIA_TYPE_STORE;
  base_name : partName (info w) = name;
  base_cap : capacity (dev w) name = cap;
  base_blk : sparseBlkSz (sp w) = blk;
  base_addr : chunkInfoBackAddr (sp w) = INFO;
  base_back : backChunkNum (sp w) = Z.of_nat (length seen);
  base_heads : bytes_at (wmem w) INFO (hdr ++ concat (map (head blk) seen));
  base_map : mapped (wmem w) LOW (Z.to_nat (FBUF + SLOT - LOW));
  base_fill : fill_ok (wmem w) (_filledBufValidLen w);
  base_offset : chunkOffset (sp w) = 0 }.

(** What the functions leave alone: the packets, the download in progress and
    the other partitions. *)
Definition frame (w w' : world D) : Prop :=
  (forall a, a < INFO -> wmem w' !! a = wmem w !! a) /\ info w' = info w /\
  untouched name (dev w) (dev w').

Lemma frame_refl w : frame w w.
Proof. split; [done|]; split; [done|apply untouched_refl]. Qed.

Lemma frame_trans w1 w2 w3 : frame w1 w2 -> frame w2 w3 -> frame w1 w3.
Proof.
  intros (M1 & I1 & O1) (M2 & I2 & O2); split; [|split].
  - intros a Ha; by rewrite M2, M1.
  - congruence.
  - by eapply untouched_trans.
Qed.

Lemma frame_bytes w w' p l : frame w w' -> bytes_at (wmem w) p l -> p + Z.of_nat (length l) <= INFO -> bytes_at (wmem w') p l.
Proof. intros (M & _) Hb Hp i x Hi; pose proof (lookup_lt_Some _ _ _ Hi); rewrite M by lia; by apply Hb. Qed.

(** The partition. *)
Definition part (w : world D) (f : Z -> Z) : Prop := forall a, contents (dev w) name a = f a.

Lemma wrote_trans d1 d2 d3 p off l1 l2 : wrote d1 d2 p off l1 -> wrote d2 d3 p (off + Z.of_nat (length l1)) l2 -> wrote d1 d3 p off (l1 ++ l2).
Proof.
  intros (A1 & U1 & G1) (A2 & U2 & G2); split; [|split; [|done]].
  - intros a; rewrite A2, <- put_app; by apply put_ext.
  - by eapply untouched_trans.
Qed.

Lemma base_with_dev w seen d off data : base w seen -> wrote (dev w) d name off data -> base (with_dev w d) seen.
Proof. intros [? ? ? ? ? ? ? ? ? ?] (_ & [_ Hs] & Hg); split; cbn; try done; by rewrite (proj1 (Hs name)). Qed.

Lemma frame_with_dev w d off data : wrote (dev w) d name off data -> frame w (with_dev w d).
Proof. intros (_ & Ho & _); split; [done|]; split; [done|exact Ho]. Qed.

(** A write to the partition from the packet or the fill buffer. *)
Lemma write_step w seen sec buf data : base w seen -> bytes_at (wmem w) buf data -> Forall byte_ok data -> data <> [] -> buf <> 0 ->
  0 <= sec < 2 ^ 32 -> sec * 512 + Z.of_nat (length data) <= cap ->
  exists d, optimus_cb_simg_write_media sec (Z.of_nat (length data)) buf w = Some (Z.of_nat (length data), with_dev w d) /\
            wrote (dev w) d name (sec * 512) data.
Proof.
  intros B Hb Fd Hne Hbuf Hs Hc; destruct (write_media_ok w sec buf data) as (d & E & Hw); try apply B; try done.
  { rewrite (base_name _ _ B), (base_cap _ _ B); lia. }
  rewrite (base_name _ _ B) in Hw; by exists d.
Qed.

Lemma fill_loop_ok v fuel : forall w seen sec left this, base w seen -> 0 <= v < 2 ^ 32 ->
  bytes_at (wmem w) FBUF (fill_bytes v this) -> 0 < this -> this mod 512 = 0 -> 0 < left -> left mod 512 = 0 ->
  left <= Z.of_nat fuel * this -> 0 <= sec -> sec * 512 + left <= cap -> cap < 2 ^ 40 ->
  exists d, fill_loop fuel sec left this w = Some (tt, with_dev w d) /\ wrote (dev w) d name (sec * 512) (fill_bytes v left).
Proof.
  assert (forall z, z mod 512 = 0 -> z mod 4 = 0) as H4.
  { intros z Hz; rewrite (Z.div_mod z 512) by lia; rewrite Hz; replace (512 * (z / 512) + 0) with (z / 512 * 128 * 4) by lia; by rewrite Z.mod_mul. }
  induction fuel as [|fuel IH]; intros w seen sec left this B Hv Hb Ht Htm Hl Hlm Hf Hs Hc H40; [lia|]; cbn [fill_loop].
  set (n := Z.min left this); assert (0 < n <= left /\ n <= this /\ n mod 512 = 0) as (Hn & Hnt & Hnm) by (unfold n; destruct (Z.min_spec left this) as [[? ->]|[? ->]]; lia).
  assert (Z.of_nat (length (fill_bytes v n)) = n) as Ln by (apply fill_bytes_length; [lia|auto]).
  assert (bytes_at (wmem w) FBUF (fill_bytes v n)) as Hbn.
  { replace this with (n + (this - n)) in Hb by lia; rewrite fill_bytes_app in Hb by (lia || auto); by apply bytes_at_app in Hb as [Hb _]. }
  destruct (write_step w seen sec FBUF (fill_bytes v n)) as (d & E & Hw); try done; try lia.
  { apply fill_bytes_ok. }
  { intros E0; rewrite E0 in Ln; cbn in Ln; lia. }
  rewrite Ln in E; erewrite bind_some by exact E; rewrite Z.eqb_refl; cbn [negb].
  destruct (Z.eqb_spec (left - n) 0) as [El|El]; cbn [negb].
  { exists d; split; [done|]; by replace left with n by lia. }
  pose proof (Z.div_mod n 512 ltac:(lia)) as Dn; assert (Z.shiftr n 9 * 512 = n) as Sn by (rewrite Z.shiftr_div_pow2 by lia; change (2 ^ 9) with 512; lia).
  assert (n = this) as Hnthis by lia.
  destruct (IH (with_dev w d) seen (u32 (sec + Z.shiftr n 9)) (left - n) this) as (d' & E' & Hw'); try done; try lia.
  - by eapply base_with_dev.
  - rewrite Zminus_mod, Hlm, Hnm; done.
  - apply wrap_range; lia.
  - rewrite wrap_small by lia; lia.
  - exists d'; split; [done|]; rewrite wrap_small in Hw' by lia; rewrite Z.mul_add_distr_r, Sn in Hw'.
    replace left with (n + (left - n)) by lia; rewrite fill_bytes_app by (lia || auto); eapply wrote_trans; [exact Hw|by rewrite Ln].
Qed.

Lemma valid_value m valid old v : fill_ok m valid -> valid <> 0 -> load_le 4 m FBUF = Some old -> v = old -> bytes_at m FBUF (fill_bytes v valid).
Proof.
  intros (Hr & Hm & [->|(v0 & Hv0 & Hb)]) Hne Ho ->; [done|].
  assert (fill_bytes v0 valid = le 4 v0 ++ fill_bytes v0 (valid - 4)) as E.
  { assert (4 <= valid) by (destruct (Z.mod_divide valid 4) as [Hd _]; [done|]; destruct (Hd Hm) as [k ->]; lia).
    replace valid with (4 + (valid - 4)) at 1 by lia; rewrite fill_bytes_app by (done || lia); done. }
  rewrite E in Hb; pose proof Hb as Hb'; apply bytes_at_app in Hb' as [H4 _].
  pose proof (load_le_spec (le 4 v0) m FBUF H4) as L; rewrite le_length, Ho, le_Z_le in L by (cbn; lia).
  injection L as ->; by rewrite E.
Qed.

Definition with_fill (w : world D) (m : mem) (valid : Z) : world D := World m (dev w) (info w) (sp w) valid (_dtb_is_loaded w).

(** Bringing the fill buffer up to date. *)
Lemma fill_buffer_ok w seen v this old : base w seen -> 0 <= v < 2 ^ 32 -> 0 < this <= SLOT -> this mod 4 = 0 ->
  load_le 4 (wmem w) FBUF = Some old ->
  let valid := if negb (v =? old) && negb (_filledBufValidLen w =? 0) then 0 else _filledBufValidLen w in
  exists m' valid',
    (if valid <? this then
       (_ <- on_mem (fun m => fill_value (Z.to_nat (Z.shiftr this 2 - Z.shiftr valid 2)) m (FBUF + 4 * Z.shiftr valid 2) v);
        set_valid this) (with_fill w (wmem w) valid)
     else Some (tt, with_fill w (wmem w) valid)) = Some (tt, with_fill w m' valid') /\
    bytes_at m' FBUF (fill_bytes v this) /\ fill_ok m' valid' /\ (exists q l, FBUF <= q /\ m' = write_bytes (wmem w) q l).
Proof.
  intros B Hv Ht Htm Ho valid; pose proof (base_fill _ _ B) as Hf; pose proof Hf as (Hr & Hm & _).
  assert (0 <= valid <= SLOT /\ valid mod 4 = 0) as [Hvr Hvm] by (unfold valid; destruct (_ && _); [split; [layout|done]|done]).
  assert (bytes_at (wmem w) FBUF (fill_bytes v valid)) as Hb.
  { unfold valid in *; destruct (Z.eqb_spec (_filledBufValidLen w) 0) as [E|E]; [rewrite E, andb_false_r; apply bytes_at_nil|].
    destruct (Z.eqb_spec v old) as [Ev|Ev]; cbn [negb andb]; [by eapply valid_value|apply bytes_at_nil]. }
  assert (4 * Z.shiftr valid 2 = valid) as Ev by (rewrite Z.shiftr_div_pow2 by lia; change (2 ^ 2) with 4; pose proof (Z.div_mod valid 4); lia).
  assert (4 * Z.shiftr this 2 = this) as Et by (rewrite Z.shiftr_div_pow2 by lia; change (2 ^ 2) with 4; pose proof (Z.div_mod this 4); lia).
  destruct (Z.ltb_spec valid this) as [Hlt|Hge].
  - rewrite Ev; exists (write_bytes (wmem w) (FBUF + valid) (fill_bytes v (this - valid))), this.
    assert (bytes_at (write_bytes (wmem w) (FBUF + valid) (fill_bytes v (this - valid))) FBUF (fill_bytes v this)) as Hn.
    { replace this with (valid + (this - valid)) at 2 by lia; rewrite fill_bytes_app by lia; apply bytes_at_app.
      rewrite fill_bytes_length by (lia || done); split; [|apply bytes_at_write].
      apply bytes_at_write_other; [done|right]; rewrite fill_bytes_length by (lia || done); lia. }
    split; [|split; [done|split; [split; [lia|split; [done|right; by exists v]]|]]]; [|by eexists _, _; split; [|done]; lia].
    unfold bind, on_mem, with_fill; cbn [wmem dev info sp]; rewrite fill_value_ok.
    + unfold fill_bytes, set_valid; cbn [wmem dev info sp _dtb_is_loaded]; do 7 f_equal; replace (this - valid) with ((Z.shiftr this 2 - Z.shiftr valid 2) * 4) by lia; by rewrite Z.div_mul.
    + done.
    + apply (mapped_sub _ LOW (Z.to_nat (FBUF + SLOT - LOW))); [apply B|layout..].
  - exists (wmem w), valid; split; [done|].
    split; [|split; [|by exists FBUF, []]].
    + replace valid with (this + (valid - this)) in Hb by lia; rewrite fill_bytes_app in Hb by lia; by apply bytes_at_app in Hb as [Hb _].
    + split; [done|]; split; [done|]; right; by exists v.
Qed.

(** The headers that are kept fit in front of the fill buffer. *)
Definition heads_fit (seen : list chunk) : Prop := 28 + 12 * Z.of_nat (length seen) <= OPTIMUS_DOWNLOAD_SPS_VERIFY_BACK_INFO_SZ.

Lemma heads_length seen : Z.of_nat (length (hdr ++ concat (map (head blk) seen))) = 28 + 12 * Z.of_nat (length seen).
Proof.
  rewrite length_app, Hhdr; assert (length (concat (map (head blk) seen)) = (12 * length seen)%nat) as ->; [|lia].
  induction seen as [|c seen IH]; [done|]; cbn [map concat length]; rewrite length_app, head_length, IH; lia.
Qed.

Lemma fill_frame w seen q l valid : base w seen -> heads_fit seen -> FBUF <= q -> fill_ok (write_bytes (wmem w) q l) valid ->
  base (with_fill w (write_bytes (wmem w) q l) valid) seen /\ frame w (with_fill w (write_bytes (wmem w) q l) valid).
Proof.
  intros B Hh Hq Hf; split.
  - destruct B as [? ? ? ? ? ? ? ? ? ?]; split; cbn; try done; [|by apply mapped_write].
    apply bytes_at_write_other; [done|right]; rewrite heads_length; unfold heads_fit in Hh; layout.
  - split; [|done]; intros a Ha; cbn; rewrite lookup_write_bytes, decide_False; [done|layout].
Qed.

Lemma fill_is_erased f off v n a : 0 <= off -> off mod 512 = 0 -> 0 <= n -> n mod 4 = 0 ->
  (forall x, off <= x < off + n -> f x = nth (Z.to_nat (x mod 4)) (le 4 v) 0) -> f a = put f off (fill_bytes v n) a.
Proof.
  intros Ho Hom Hn Hm He; destruct (decide (off <= a < off + n)) as [Ha|Ha]; [|rewrite put_out; [done|rewrite fill_bytes_length by done; lia]].
  rewrite put_in by (rewrite fill_bytes_length by done; lia); rewrite He by done; unfold fill_bytes.
  assert (a mod 4 = (a - off) mod 4) as ->.
  { rewrite Zminus_mod; replace (off mod 4) with 0; [by rewrite Z.sub_0_r, Z.mod_mod|].
    rewrite (Z.div_mod off 512) by lia; rewrite Hom; replace (512 * (off / 512) + 0) with (off / 512 * 128 * 4) by lia; by rewrite Z.mod_mul. }
  set (i := a - off); assert (0 <= i < 4 * Z.of_nat (Z.to_nat (n / 4))) as Hi by (pose proof (Z.div_mod n 4); unfold i; lia).
  clearbody i; revert i Hi; induction (Z.to_nat (n / 4)) as [|k IH]; intros i Hi; [lia|]; cbn [replicate concat].
  destruct (decide (i < 4)) as [H4|H4]; [rewrite Z.mod_small, app_nth1 by (rewrite ?le_length; lia); done|].
  rewrite app_nth2, le_length by (rewrite le_length; lia); replace (Z.to_nat i - 4)%nat with (Z.to_nat (i - 4)) by lia.
  rewrite <- IH by lia; do 2 f_equal; rewrite <- (Z.mod_add (i - 4) 1 4) by lia; f_equal; lia.
Qed.

Lemma blk_512 n : (n * blk) mod 512 = 0.
Proof. by rewrite Z.mul_mod, H512, Z.mul_0_r by lia. Qed.

Lemma fill_chunk_ok w seen p res v n off f : base w seen -> heads_fit seen -> chunk_ok blk (Fill res v n) ->
  bytes_at (wmem w) p (enc blk (Fill res v n)) -> 0 <= off -> off mod 512 = 0 -> off + n * blk <= cap -> cap < 2 ^ 40 -> part w f ->
  (need_fill device_boot_flag disk_inited v = false -> forall a, off <= a < off + n * blk -> f a = nth (Z.to_nat (a mod 4)) (le 4 v) 0) ->
  exists w', fill_chunk device_boot_flag disk_inited p (n * blk) (off / 512) w = Some (inr 4, w') /\
    base w' seen /\ frame w w' /\ sp w' = sp w /\ part w' (put f off (fill_bytes v (n * blk))).
Proof.
  intros B Hh Hc Hb Ho Hom Hcap H40 Hp He; pose proof Hc as (Hv & Hn & Hn2); cbn in Hn, Hn2.
  assert (0 < n * blk) as Hnb by (apply Z.mul_pos_pos; lia).
  apply bytes_at_app in Hb as [Hbh Hbp]; rewrite head_length in Hbp; cbn [payload] in Hbp.
  destruct (head_fields blk Hblk H512 w p (Fill res v n) Hc Hbh) as (_ & _ & Et); cbn [payload] in Et; rewrite le_length in Et.
  unfold fill_chunk; erewrite bind_some by (apply rd_le_at; [exact Hbp|apply le_length]); rewrite le_Z_le by (cbn; lia); cbv zeta.
  erewrite bind_some by exact Et; change (negb (CHUNK_HEAD_SIZE + 4 =? 12 + Z.of_nat 4)) with false; cbv iota.
  destruct (need_fill device_boot_flag disk_inited v) eqn:En.
  2:{ exists w; split; [done|]; split; [done|]; split; [apply frame_refl|]; split; [done|]; intros a; rewrite Hp.
      apply fill_is_erased; auto using blk_4; lia. }
  destruct (rd_le_mapped 4 FBUF w) as [old Hold].
  { apply (mapped_sub _ LOW (Z.to_nat (FBUF + SLOT - LOW))); [apply B|layout..]. }
  erewrite bind_some by exact Hold; unfold rd_le, rd in Hold; destruct (load_le 4 (wmem w) FBUF) as [o|] eqn:Eo; [injection Hold as ->|done].
  set (this := Z.min (n * blk) OPTIMUS_SPARSE_IMG_FILL_BUF_SZ).
  assert (0 < this <= SLOT /\ this mod 512 = 0) as [Ht Htm].
  { unfold this; destruct (Z.min_spec (n * blk) OPTIMUS_SPARSE_IMG_FILL_BUF_SZ) as [[? ->]|[? ->]]; (split; [layout|]); [apply blk_512|done]. }
  assert (this mod 4 = 0) as Ht4 by (unfold this; destruct (Z.min_spec (n * blk) OPTIMUS_SPARSE_IMG_FILL_BUF_SZ) as [[? ->]|[? ->]]; [by apply blk_4|done]).
  destruct (fill_buffer_ok w seen v this old B Hv Ht Ht4 Eo) as (m' & valid' & E & Hbuf & Hok & q & l & Hq & Hm').
  erewrite bind_some by reflexivity; erewrite bind_some by reflexivity.
  match goal with |- context [bind (if ?b then ?X else ret tt) ?k ?st] => assert ((if b then X else ret tt) st = Some (tt, with_fill w m' valid')) as Ef by (rewrite <- E; by destruct b) end.
  erewrite bind_some by exact Ef; subst m'; destruct (fill_frame w seen q l valid' B Hh Hq Hok) as [B' F'].
  destruct (fill_loop_ok v (S (Z.to_nat (n * blk / Z.max 1 this))) _ seen (off / 512) (n * blk) this B' Hv Hbuf) as (d & El & Hw);
    [lia|exact Htm|exact Hnb|apply blk_512| |apply Z.div_pos; lia|pose proof (Z.div_mod off 512); lia|exact H40|].
  { rewrite Z.max_r by lia; rewrite Nat2Z.inj_succ, Z2Nat.id by (apply Z.div_pos; lia).
    pose proof (Z.div_mod (n * blk) this ltac:(lia)); pose proof (Z.mod_pos_bound (n * blk) this ltac:(lia)); lia. }
  replace (off / 512 * 512) with off in Hw by (pose proof (Z.div_mod off 512); lia).
  erewrite bind_some by exact El; eexists; split; [reflexivity|].
  split; [by eapply base_with_dev|]; split; [eapply frame_trans; [exact F'|by eapply frame_with_dev]|]; split; [done|].
  intros a; destruct Hw as (-> & _); cbn; apply put_ext; exact Hp.
Qed.

Definition with_sp (w : world D) (s : sp_states) : world D := World (wmem w) (dev w) (info w) s (_filledBufValidLen w) (_dtb_is_loaded w).

Lemma base_with_sp w seen s : base w seen -> sparseBlkSz s = blk -> chunkInfoBackAddr s = INFO -> backChunkNum s = Z.of_nat (length seen) ->
  chunkOffset s = 0 -> base (with_sp w s) seen.
Proof. by intros [? ? ? ? ? ? ? ? ? ?]; split. Qed.

Lemma div_512 off : off mod 512 = 0 -> off / 512 * 512 = off.
Proof. intros Hm; pose proof (Z.div_mod off 512); lia. Qed.

Lemma sectors off k : off mod 512 = 0 -> off / 512 + Z.shiftr k 9 = (off + k) / 512.
Proof.
  intros Hm; rewrite Z.shiftr_div_pow2 by lia; change (2 ^ 9) with 512; rewrite <- (div_512 off Hm) at 2.
  by rewrite (Z.add_comm (_ * _)), Z.div_add, Z.add_comm by lia.
Qed.

(** A write of data from a packet, possibly empty. *)
Lemma data_step w seen buf data off f : base w seen -> bytes_at (wmem w) buf data -> Forall byte_ok data -> 0 < buf ->
  0 <= off -> off mod 512 = 0 -> off + Z.of_nat (length data) <= cap -> cap < 2 ^ 40 -> part w f -> data <> [] ->
  exists w', optimus_cb_simg_write_media (off / 512) (Z.of_nat (length data)) buf w = Some (Z.of_nat (length data), w') /\
    base w' seen /\ frame w w' /\ sp w' = sp w /\ part w' (put f off data).
Proof.
  intros B Hb Fd Hp Ho Hom Hc H40 Hf Hne; pose proof (div_512 off Hom) as E5.
  destruct (write_step w seen (off / 512) buf data) as (d & E & Hw); try done; try lia.
  rewrite E5 in Hw; exists (with_dev w d); split; [done|]; split; [by eapply base_with_dev|]; split; [by eapply frame_with_dev|].
  split; [done|]; intros a; destruct Hw as (Hw & _); cbn; rewrite Hw; by apply put_ext.
Qed.

Lemma raw_whole w seen p res data un off f : base w seen -> chunk_ok blk (Raw res data) -> bytes_at (wmem w) p (enc blk (Raw res data)) ->
  0 < p -> 12 + Z.of_nat (length data) <= un -> 0 <= off -> off mod 512 = 0 -> off + Z.of_nat (length data) <= cap -> cap < 2 ^ 40 -> part w f ->
  exists w', raw_chunk p (Z.of_nat (length data)) un (off / 512) w = Some (inr (Z.of_nat (length data)), w') /\
    base w' seen /\ frame w w' /\ sp w' = sp w /\ part w' (put f off data).
Proof.
  intros B Hc Hb Hp Hun Ho Hom Hcap H40 Hf; apply bytes_at_app in Hb as [Hbh Hbd]; rewrite head_length in Hbd; cbn [payload] in Hbd.
  destruct (head_fields blk Hblk H512 w p _ Hc Hbh) as (_ & _ & Et); cbn [payload] in Et; pose proof Hc as (Fd & _ & Hl).
  unfold raw_chunk; erewrite bind_some by exact Et; unfold CHUNK_HEAD_SIZE in *; rewrite wrap_small, Z.eqb_refl by lia; cbn [negb].
  destruct (Z.ltb_spec un (12 + Z.of_nat (length data))) as [|_]; [lia|]; erewrite bind_some by reflexivity.
  destruct (Z.eqb_spec (Z.of_nat (length data)) 0) as [E0|E0]; cbn [negb].
  - destruct data; [|cbn in E0; lia]; exists w; split; [done|]; split; [done|]; split; [apply frame_refl|]; split; [done|].
    intros a; rewrite Hf; by rewrite put_nil.
  - destruct (data_step w seen (p + 12) data off f) as (w' & E & H1); try done; try lia; [by intros ->|].
    exists w'; split; [|done]; erewrite bind_some by exact E; by rewrite Z.eqb_refl.
Qed.

Lemma raw_part w seen p res data un off f : base w seen -> chunk_ok blk (Raw res data) -> bytes_at (wmem w) p (head blk (Raw res data)) ->
  bytes_at (wmem w) (p + 12) (take (Z.to_nat (un - 12)) data) ->
  0 < p -> 12 <= un < 12 + Z.of_nat (length data) -> 0 <= off -> off mod 512 = 0 -> off + Z.of_nat (length data) <= cap -> cap < 2 ^ 40 -> part w f ->
  let k := whole_slots (un - 12) in
  exists w', raw_chunk p (Z.of_nat (length data)) un (off / 512) w = Some (inr k, w') /\
    base w' seen /\ frame w w' /\ sp w' = set_long (Z.of_nat (length data) - k) ((off + k) / 512) (sp w) /\
    part w' (put f off (take (Z.to_nat k) data)).
Proof.
  intros B Hc Hbh Hbd Hp Hun Ho Hom Hcap H40 Hf k.
  destruct (head_fields blk Hblk H512 w p _ Hc Hbh) as (_ & _ & Et); cbn [payload] in Et; pose proof Hc as (Fd & _ & Hl).
  destruct (whole_slots_eq (un - 12)) as (_ & Hk & _ & Hkm); [lia|]; fold k in Hk, Hkm.
  unfold raw_chunk; erewrite bind_some by exact Et; unfold CHUNK_HEAD_SIZE in *; rewrite wrap_small, Z.eqb_refl by lia; cbn [negb].
  destruct (Z.ltb_spec un (12 + Z.of_nat (length data))) as [_|]; [|lia]; rewrite (wrap_small 32 (un - 12)) by lia; fold k.
  set (w1 := with_sp w (set_long (Z.of_nat (length data) - k) ((off + k) / 512) (sp w))).
  assert (base w1 seen) as B1 by (apply base_with_sp; [done|apply B..]).
  erewrite bind_some with (w' := w1); [|erewrite bind_some by reflexivity; unfold ret; do 2 f_equal; unfold w1, with_sp;
    rewrite sectors, !wrap_small by (done || lia || (split; [apply Z.div_pos; lia|apply Z.div_lt_upper_bound; lia])); reflexivity].
  destruct (Z.eqb_spec k 0) as [E0|E0]; cbn [negb].
  - exists w1; rewrite E0; split; [done|]; split; [done|]; split; [by split|]; split; [unfold w1; cbn; by rewrite E0|]; intros a; rewrite put_nil; apply Hf.
  - assert (length (take (Z.to_nat k) data) = Z.to_nat k) as Lk by (rewrite length_take; lia).
    destruct (data_step w1 seen (p + 12) (take (Z.to_nat k) data) off f) as (w' & E & B' & F' & S' & P'); try done; try lia.
    + intros i x Hi; apply Hbd; pose proof (lookup_lt_Some _ _ _ Hi).
      rewrite lookup_take_lt in Hi by lia; rewrite lookup_take_lt by lia; done.
    + by apply Forall_take.
    + intros E; rewrite E in Lk; cbn in Lk; lia.
    + rewrite Lk, Z2Nat.id in E by lia; exists w'; split; [erewrite bind_some by exact E; by rewrite Z.eqb_refl|].
      split; [done|]; split; [eapply frame_trans; [|exact F']; by split|]; split; [by rewrite S'|done].
Qed.

(** Keeping the header of a chunk and counting it. *)
Definition kept (w : world D) (seen : list chunk) (c : chunk) : world D :=
  World (write_bytes (wmem w) (INFO + 28 + 12 * Z.of_nat (length seen)) (head blk c)) (dev w) (info w)
    (set_left (leftChunkNum (sp w) - 1) (set_back (Z.of_nat (length seen) + 1) (sp w))) (_filledBufValidLen w) (_dtb_is_loaded w).

Lemma kept_base w seen c : base w seen -> heads_fit (seen ++ [c]) -> base (kept w seen c) (seen ++ [c]) /\ frame w (kept w seen c).
Proof.
  intros B Hh; unfold heads_fit in Hh; rewrite length_app in Hh; cbn [length] in Hh; split.
  - destruct B as [? ? ? ? ? ? ? Hb ? (Hv & Hv4 & Hf)]; split; cbn; try done; [rewrite length_app; cbn; lia| |by apply mapped_write|].
    + rewrite map_app, concat_app, app_assoc; cbn [map concat]; rewrite app_nil_r; apply bytes_at_app; split.
      * apply bytes_at_write_other; [done|right]; rewrite heads_length; lia.
      * rewrite heads_length, Z.add_assoc; apply bytes_at_write.
    + split; [done|]; split; [done|]; destruct Hf as [|(v & Hv0 & Hfb)]; [by left|right; exists v; split; [done|]].
      apply bytes_at_write_other; [done|left]; rewrite head_length; layout.
  - split; [|by split]; intros a Ha; cbn; rewrite lookup_write_bytes, decide_False; [done|lia].
Qed.

(** The end of a round: the header is kept, the counters are updated. *)
Lemma round_end {A} w seen c p (k : Z -> M D A) : base w seen -> heads_fit (seen ++ [c]) -> chunk_ok blk c ->
  bytes_at (wmem w) p (head blk c) -> p + 12 <= INFO -> 0 < leftChunkNum (sp w) < 2 ^ 32 ->
  (_ <- copy (INFO + 28 + 12 * Z.of_nat (length seen)) p CHUNK_HEAD_SIZE;
   _ <- on_sp (fun s => set_back (u32 (backChunkNum s + 1)) s);
   total <- total_sz p;
   _ <- on_sp (fun s => set_left (u32 (leftChunkNum s - 1)) s);
   k total) w = k (12 + Z.of_nat (length (payload c))) (kept w seen c).
Proof.
  intros B Hh Hc Hb Hp Hl; unfold heads_fit in Hh; rewrite length_app in Hh; cbn [length] in Hh.
  assert (mapped (wmem w) (INFO + 28 + 12 * Z.of_nat (length seen)) (length (head blk c))) as Hm.
  { apply (mapped_sub _ LOW (Z.to_nat (FBUF + SLOT - LOW))); [apply B|rewrite ?head_length; layout..]. }
  pose proof (copy_at (INFO + 28 + 12 * Z.of_nat (length seen)) p (head blk c) w Hb (head_bytes blk c) Hm) as E.
  rewrite head_length in E; change (Z.of_nat 12) with CHUNK_HEAD_SIZE in E; unfold CHUNK_HEAD_SIZE in *; specialize (E ltac:(lia)).
  erewrite bind_some by exact E; erewrite bind_some by reflexivity.
  destruct (head_fields blk Hblk H512 (World (write_bytes (wmem w) (INFO + 28 + 12 * Z.of_nat (length seen)) (head blk c)) (dev w) (info w)
    (set_back (u32 (backChunkNum (sp w) + 1)) (sp w)) (_filledBufValidLen w) (_dtb_is_loaded w)) p c Hc) as (_ & _ & Et).
  { cbn; apply bytes_at_write_other; [done|right]; rewrite head_length; lia. }
  erewrite bind_some by exact Et; erewrite bind_some by reflexivity; unfold kept; cbn [wmem dev info sp _filledBufValidLen _dtb_is_loaded].
  rewrite (base_back _ _ B); rewrite (wrap_small 32 (Z.of_nat (length seen) + 1)) by layout.
  cbn [leftChunkNum set_back]; rewrite (wrap_small 32 (leftChunkNum (sp w) - 1)) by lia; done.
Qed.

(** Between chunks, and inside the data of a chunk of which [k] bytes are
    written; [hl] is what the file header takes of the packet. *)
Definition between (w : world D) (seen todo : list chunk) (hl : Z) : Prop :=
  base w seen /\ leftChunkNum (sp w) = Z.of_nat (length todo) /\ notWrBackSz4LongChunk (sp w) = 0 /\ pktHeadLen (sp w) = hl /\
  part w (apply_all blk seen 0 f0).

Definition inside (w : world D) (seen : list chunk) (res : Z) (data : bytes) (todo : list chunk) (k : Z) (hl : Z) : Prop :=
  base w (seen ++ [Raw res data]) /\ leftChunkNum (sp w) = Z.of_nat (length todo) /\
  notWrBackSz4LongChunk (sp w) = Z.of_nat (length data) - k /\
  nextFlashAddr4LastLongChunk (sp w) = (size_all blk seen + k) / 512 /\ pktHeadLen (sp w) = hl /\
  0 <= k < Z.of_nat (length data) /\ k mod 512 = 0 /\
  part w (put (apply_all blk seen 0 f0) (size_all blk seen) (take (Z.to_nat k) data)).

(** The header of a fill chunk does not end less than four bytes before the end
    of a packet. *)
Definition no_split (cs : list chunk) (n : Z) : Prop :=
  forall c1 res v m c2, cs = c1 ++ Fill res v m :: c2 ->
  ~ (Z.of_nat (length (enc_all blk c1)) + 12 <= n < Z.of_nat (length (enc_all blk c1)) + 16).

(** The effect of a packet [b] on the remaining chunks [cs]: it ends between
    chunks with [r] left over, or inside the data of one. *)
Inductive consumed (w : world D) (seen cs : list chunk) (hl : Z) (b rest r : bytes) (flash : Z) : Prop :=
  | ends_between c1 c2 : cs = c1 ++ c2 -> b = enc_all blk c1 ++ r -> r ++ rest = enc_all blk c2 -> (length r < 12)%nat ->
      flash = size_all blk (seen ++ c1) / 512 -> between w (seen ++ c1) c2 hl -> consumed w seen cs hl b rest r flash
  | ends_inside c1 res data c2 k : cs = c1 ++ Raw res data :: c2 ->
      b = enc_all blk c1 ++ head blk (Raw res data) ++ take (Z.to_nat k) data ++ r ->
      r ++ rest = drop (Z.to_nat k) data ++ enc_all blk c2 -> Z.of_nat (length r) < 65536 ->
      Z.of_nat (length r) < Z.of_nat (length data) - k ->
      flash = size_all blk (seen ++ c1 ++ [Raw res data]) / 512 -> inside w (seen ++ c1) res data c2 k hl ->
      consumed w seen cs hl b rest r flash.

Lemma consumed_cons w seen c cs hl b rest r flash : consumed w (seen ++ [c]) cs hl b rest r flash ->
  consumed w seen (c :: cs) hl (enc blk c ++ b) rest r flash.
Proof.
  intros [c1 c2 -> -> Hr Hl Hf Hb|c1 res data c2 k -> -> Hr Hl Hl2 Hf Hi].
  - apply (ends_between w seen (c :: c1 ++ c2) hl _ rest r flash (c :: c1) c2); try done.
    + unfold enc_all; cbn [map concat]; by rewrite <- app_assoc.
    + by rewrite Hf, <- app_assoc.
    + by rewrite <- app_assoc in Hb.
  - apply (ends_inside w seen (c :: c1 ++ Raw res data :: c2) hl _ rest r flash (c :: c1) res data c2 k); try done.
    + unfold enc_all; cbn [map concat]; by rewrite <- app_assoc.
    + by rewrite Hf, <- app_assoc.
    + by rewrite <- app_assoc in Hi.
Qed.

Context (H40 : cap < 2 ^ 40).
Context (Herased : forall v a, need_fill device_boot_flag disk_inited v = false -> 0 <= a < cap -> f0 a = nth (Z.to_nat (a mod 4)) (le 4 v) 0).

(** The chunks fit the partition and the memory for their headers. *)
Definition chunks_ok (cs : list chunk) : Prop := Forall (chunk_ok blk) cs /\ heads_fit cs /\ size_all blk cs <= cap.

Abbreviation loop := (chunk_loop device_boot_flag disk_inited).

Definition loop_ok (cs : list chunk) : Prop := forall w seen hl fuel p b rest,
  between w seen cs hl -> chunks_ok (seen ++ cs) -> (length cs <= fuel)%nat ->
  b ++ rest = enc_all blk cs -> bytes_at (wmem w) p b -> LOW <= p -> p + Z.of_nat (length b) <= INFO -> no_split cs (Z.of_nat (length b)) ->
  exists r flash w', loop fuel p (Z.of_nat (length b)) (size_all blk seen / 512) (INFO + 28 + 12 * Z.of_nat (length seen)) w =
      Some (inr (Z.of_nat (length r), flash), w') /\ frame w w' /\ consumed w' seen cs hl b rest r flash.

Lemma size_range seen cs : chunks_ok (seen ++ cs) -> 0 <= size_all blk seen <= cap /\ size_all blk seen mod 512 = 0.
Proof.
  intros (Fc & _ & Hs); apply Forall_app in Fc as [F1 F2]; rewrite size_all_app in Hs.
  pose proof (size_all_512 blk Hblk H512 seen F1); pose proof (size_all_512 blk Hblk H512 cs F2); lia.
Qed.

Lemma apply_snoc seen c a : apply_all blk (seen ++ [c]) 0 f0 a = apply blk c (size_all blk seen) (apply_all blk seen 0 f0) a.
Proof. by rewrite apply_all_app. Qed.

Lemma chunks_ok_snoc seen c cs : chunks_ok (seen ++ c :: cs) ->
  chunks_ok ((seen ++ [c]) ++ cs) /\ chunk_ok blk c /\ heads_fit (seen ++ [c]) /\ heads_fit seen /\ size_all blk seen + out_size blk c <= cap /\
  Z.of_nat (length (c :: cs)) < 2 ^ 32.
Proof.
  intros Hc; pose proof Hc as (Fc & Hh & Hs); split; [by rewrite <- app_assoc|]; apply Forall_app in Fc as [F1 F2]; apply Forall_cons in F2 as [Hc' F2].
  split; [done|]; unfold heads_fit, OPTIMUS_DOWNLOAD_SPS_VERIFY_BACK_INFO_SZ in *; rewrite length_app in *; cbn [length] in *.
  rewrite size_all_app in Hs; unfold size_all in Hs at 2; cbn [foldr] in Hs; fold (size_all blk cs) in Hs.
  pose proof (size_all_512 blk Hblk H512 cs F2); lia.
Qed.

(** A chunk that has been written whole, then the rest. *)
Lemma loop_next cs w w1 seen c hl fuel p b rest : loop_ok cs -> between w seen (c :: cs) hl -> base w1 seen -> frame w w1 -> sp w1 = sp w ->
  part w1 (apply blk c (size_all blk seen) (apply_all blk seen 0 f0)) -> chunks_ok (seen ++ c :: cs) -> (length cs <= fuel)%nat ->
  b ++ rest = enc_all blk cs -> bytes_at (wmem w) p (enc blk c ++ b) -> LOW <= p -> p + Z.of_nat (length (enc blk c ++ b)) <= INFO ->
  no_split (c :: cs) (Z.of_nat (length (enc blk c ++ b))) ->
  exists r flash w',
    (_ <- copy (INFO + 28 + 12 * Z.of_nat (length seen)) p CHUNK_HEAD_SIZE;
     _ <- on_sp (fun s => set_back (u32 (backChunkNum s + 1)) s);
     total <- total_sz p;
     _ <- on_sp (fun s => set_left (u32 (leftChunkNum s - 1)) s);
     loop fuel (u64 (p + total)) (u32 (Z.of_nat (length (enc blk c ++ b)) - (CHUNK_HEAD_SIZE + Z.of_nat (length (payload c)))))
       (u32 (size_all blk seen / 512 + Z.shiftr (out_size blk c) 9)) (INFO + 28 + 12 * Z.of_nat (length seen) + CHUNK_HEAD_SIZE)) w1 =
    Some (inr (Z.of_nat (length r), flash), w') /\ frame w w' /\ consumed w' seen (c :: cs) hl (enc blk c ++ b) rest r flash.
Proof.
  intros IH (B & Hl & Hn & Hh & Hp) B1 F1 S1 P1 Hok Hf Hb Hat Hlow Hinfo Hns.
  destruct (chunks_ok_snoc seen c cs Hok) as (Hok' & Hc & Hh1 & _ & Hcap & Hcnt); destruct (size_range seen (c :: cs) Hok) as [Hsr Hsm].
  pose proof (out_size_blocks blk Hblk H512 c Hc) as (_ & Hos & _).
  pose proof (frame_bytes _ _ _ _ F1 Hat Hinfo) as Hat1; rewrite length_app, Nat2Z.inj_add, enc_length in *.
  apply bytes_at_app in Hat1 as [Hc1 Hb1]; pose proof Hc1 as Hhd; unfold enc in Hhd; apply bytes_at_app in Hhd as [Hhd _].
  rewrite (round_end w1 seen c p); [|done..|layout|rewrite S1, Hl; cbn [length] in *; lia].
  destruct (kept_base w1 seen c B1 Hh1) as [B2 F2].
  assert (between (kept w1 seen c) (seen ++ [c]) cs hl) as Hbt.
  { split; [done|]; cbn; rewrite S1, Hl, Hn; cbn [length]; split; [lia|]; split; [done|]; split; [done|].
    intros a; rewrite apply_snoc; apply P1. }
  assert (size_all blk (seen ++ [c]) = size_all blk seen + out_size blk c) as Es by (rewrite size_all_app; unfold size_all; cbn [foldr]; lia).
  destruct (IH _ (seen ++ [c]) hl fuel (p + (12 + Z.of_nat (length (payload c)))) b rest Hbt Hok' Hf Hb) as (r & flash & w' & E & F & Hcon).
  - eapply frame_bytes; [exact F2| |lia]; by rewrite enc_length in Hb1.
  - lia.
  - lia.
  - intros c1 res v m c2 ->; specialize (Hns (c :: c1) res v m c2 eq_refl); unfold enc_all in Hns; cbn [map concat] in Hns.
    rewrite length_app, Nat2Z.inj_add, enc_length in Hns; unfold enc_all; lia.
  - exists r, flash, w'; split; [|split; [|by apply consumed_cons]].
    + rewrite <- E, sectors, Es, length_app by done; cbn [length]; unfold CHUNK_HEAD_SIZE; f_equal.
      * apply wrap_small; layout.
      * rewrite wrap_small by (layout || lia); lia.
      * apply wrap_small; split; [apply Z.div_pos; lia|apply Z.div_lt_upper_bound; lia].
      * lia.
    + eapply frame_trans; [exact F1|]; by eapply frame_trans.
Qed.

Lemma loop_stop fuel p un flash back w : leftChunkNum (sp w) = 0 \/ notWrBackSz4LongChunk (sp w) <> 0 ->
  loop fuel p un flash back w = Some (inr (un, flash), w).
Proof.
  intros Hs; assert ((leftChunkNum (sp w) =? 0) || negb (notWrBackSz4LongChunk (sp w) =? 0) = true) as E.
  { destruct Hs as [->| Hn]; [done|]; rewrite (proj2 (Z.eqb_neq _ _) Hn); apply orb_true_r. }
  destruct fuel; cbn [chunk_loop]; (erewrite bind_some by reflexivity); by rewrite E.
Qed.

(** The part of a long chunk that the packet has. *)
Lemma loop_long cs w seen res data hl fuel p b rest : between w seen (Raw res data :: cs) hl -> chunks_ok (seen ++ Raw res data :: cs) ->
  (head blk (Raw res data) ++ b) ++ rest = enc_all blk (Raw res data :: cs) ->
  bytes_at (wmem w) p (head blk (Raw res data) ++ b) -> LOW <= p ->
  p + Z.of_nat (length (head blk (Raw res data) ++ b)) <= INFO -> (length b < length data)%nat ->
  exists r flash w',
    (r <- raw_chunk p (out_size blk (Raw res data)) (Z.of_nat (length (head blk (Raw res data) ++ b))) (size_all blk seen / 512);
     match r with
     | inl e => ret (inl e)
     | inr thisWriteLen =>
         _ <- copy (INFO + 28 + 12 * Z.of_nat (length seen)) p CHUNK_HEAD_SIZE;
         _ <- on_sp (fun s => set_back (u32 (backChunkNum s + 1)) s);
         total <- total_sz p;
         _ <- on_sp (fun s => set_left (u32 (leftChunkNum s - 1)) s);
         loop fuel (u64 (p + total)) (u32 (Z.of_nat (length (head blk (Raw res data) ++ b)) - (CHUNK_HEAD_SIZE + thisWriteLen)))
           (u32 (size_all blk seen / 512 + Z.shiftr (out_size blk (Raw res data)) 9)) (INFO + 28 + 12 * Z.of_nat (length seen) + CHUNK_HEAD_SIZE)
     end) w = Some (inr (Z.of_nat (length r), flash), w') /\ frame w w' /\
    consumed w' seen (Raw res data :: cs) hl (head blk (Raw res data) ++ b) rest r flash.
Proof.
  intros (B & Hl & Hn & Hh & Hp) Hok Hb Hat Hlow Hinfo Hlt; rewrite length_app, head_length in *; cbn [out_size].
  destruct (chunks_ok_snoc seen _ cs Hok) as (Hok' & Hc & Hh1 & _ & Hcap & Hcnt); destruct (size_range seen _ Hok) as [Hsr Hsm]; cbn [out_size] in Hcap.
  pose proof Hc as (Fd & _ & Hl32); apply bytes_at_app in Hat as [Hhd Hbd]; rewrite head_length in Hbd.
  assert (exists d2, data = b ++ d2 /\ rest = d2 ++ enc_all blk cs) as (d2 & -> & ->).
  { unfold enc_all in Hb; cbn [map concat] in Hb; unfold enc in Hb; rewrite <- !app_assoc in Hb; apply app_inv_head in Hb; cbn [payload] in Hb.
    apply app_eq_inv in Hb as [(k & -> & Hk)|(k & -> & Hk)]; [rewrite length_app in Hlt; lia|by exists k]. }
  destruct (raw_part w seen p res (b ++ d2) (Z.of_nat (12 + length b)) (size_all blk seen) (apply_all blk seen 0 f0) B Hc Hhd) as (w1 & E1 & B1 & F1 & S1 & P1); try done; try lia.
  { by replace (Z.to_nat (Z.of_nat (12 + length b) - 12)) with (length b) by lia; rewrite take_app_length. }
  { layout. }
  set (k := whole_slots (Z.of_nat (12 + length b) - 12)) in *.
  destruct (whole_slots_eq (Z.of_nat (12 + length b) - 12)) as (_ & Hk & Hkr & Hkm); [lia|]; fold k in Hk, Hkr, Hkm.
  erewrite bind_some by exact E1; cbv beta iota; rewrite (round_end w1 seen (Raw res (b ++ d2)) p); [|done..| |layout|rewrite S1; cbn; rewrite Hl; cbn [length] in *; lia].
  2:{ eapply frame_bytes; [exact F1|done|rewrite head_length; lia]. }
  destruct (kept_base w1 seen _ B1 Hh1) as [B2 F2].
  rewrite loop_stop by (right; cbn; rewrite S1; cbn; lia); rewrite sectors by done; unfold CHUNK_HEAD_SIZE.
  rewrite !wrap_small by (lia || (split; [apply Z.div_pos; lia|apply Z.div_lt_upper_bound; lia])).
  eexists (drop (Z.to_nat k) b), _, _; split; [rewrite length_drop; do 4 f_equal; lia|]; split; [by eapply frame_trans|].
  apply (ends_inside _ seen _ hl _ _ _ _ [] res (b ++ d2) cs k); try done.
  - rewrite take_app_le by lia; cbn [app enc_all map concat]; by rewrite take_drop.
  - by rewrite drop_app_le, <- app_assoc by lia.
  - rewrite length_drop; lia.
  - rewrite length_drop, length_app in *; lia.
  - cbn [app]; rewrite size_all_app; unfold size_all at 3; cbn [foldr out_size]; do 2 f_equal; lia.
  - rewrite app_nil_r; split; [done|]; cbn; rewrite S1; cbn; rewrite Hl; cbn [length] in *; repeat split; try done; try lia.
Qed.

(** A packet that has the header of the next chunk. *)
Lemma loop_head cs w seen c hl fuel p b rest : loop_ok cs -> between w seen (c :: cs) hl -> chunks_ok (seen ++ c :: cs) -> (length cs <= fuel)%nat ->
  (head blk c ++ b) ++ rest = enc_all blk (c :: cs) -> bytes_at (wmem w) p (head blk c ++ b) -> LOW <= p ->
  p + Z.of_nat (length (head blk c ++ b)) <= INFO -> no_split (c :: cs) (Z.of_nat (length (head blk c ++ b))) ->
  exists r flash w', loop (S fuel) p (Z.of_nat (length (head blk c ++ b))) (size_all blk seen / 512) (INFO + 28 + 12 * Z.of_nat (length seen)) w =
      Some (inr (Z.of_nat (length r), flash), w') /\ frame w w' /\ consumed w' seen (c :: cs) hl (head blk c ++ b) rest r flash.
Proof.
  intros IH Hbt Hok Hf Hb Hat Hlow Hinfo Hns; pose proof Hbt as (B & Hl & Hn & Hh & Hp).
  destruct (chunks_ok_snoc seen c cs Hok) as (Hok' & Hc & Hh1 & Hh0 & Hcap & Hcnt); destruct (size_range seen _ Hok) as [Hsr Hsm].
  pose proof (out_size_blocks blk Hblk H512 c Hc) as (Hob & Hos & Hom & _).
  pose proof Hat as Hat'; apply bytes_at_app in Hat' as [Hhd Hbd]; rewrite head_length in Hbd.
  destruct (head_fields blk Hblk H512 w p c Hc Hhd) as (Ety & Esz & Eto).
  cbn [chunk_loop]; erewrite bind_some by reflexivity; rewrite Hl, Hn, (base_blk _ _ B); cbn [length].
  rewrite (proj2 (Z.eqb_neq (Z.of_nat (S (length cs))) 0)) by lia; cbn [orb negb Z.eqb].
  erewrite bind_some by exact Esz; rewrite Hob, wrap_small by lia; cbv zeta.
  rewrite (proj2 (Z.ltb_ge (Z.of_nat (length (head blk c ++ b))) CHUNK_HEAD_SIZE)) by (rewrite length_app, head_length; unfold CHUNK_HEAD_SIZE; lia).
  erewrite bind_some by exact Ety.
  assert (b ++ rest = payload c ++ enc_all blk cs) as Hbr.
  { unfold enc_all in Hb; cbn [map concat] in Hb; rewrite <- app_assoc in Hb; unfold enc at 1 in Hb; rewrite <- app_assoc in Hb; by apply app_inv_head in Hb. }
  destruct (decide (length b < length (payload c))%nat) as [Hlt|Hge].
  - destruct c as [res data|res v n|res n]; cbn [payload] in Hlt; [by apply loop_long| |cbn in Hlt; lia].
    exfalso; apply (Hns [] res v n cs eq_refl); change (length (enc_all blk [])) with 0%nat; rewrite length_app, head_length; rewrite le_length in Hlt; lia.
  - assert (exists b2, b = payload c ++ b2 /\ b2 ++ rest = enc_all blk cs) as (b2 & -> & Hb2).
    { apply app_eq_inv in Hbr as [(k & -> & Hk)|(k & E & Hk)]; [by exists k|]; exists []; rewrite E, length_app in Hge.
      destruct k; [|cbn in Hge; lia]; rewrite app_nil_r in E; by rewrite E, Hk, app_nil_r. }
    rewrite app_assoc in *; fold (enc blk c) in *; pose proof Hat as Hen; apply bytes_at_app in Hen as [Hen _].
    assert (exists w1, (if type_of c =? CHUNK_TYPE_RAW then raw_chunk p (out_size blk c) (Z.of_nat (length (enc blk c ++ b2))) (size_all blk seen / 512)
               else if type_of c =? CHUNK_TYPE_DONT_CARE then dont_care_chunk p
               else if type_of c =? CHUNK_TYPE_FILL then fill_chunk device_boot_flag disk_inited p (out_size blk c) (size_all blk seen / 512)
               else if type_of c =? CHUNK_TYPE_CRC32 then ret (inl (-276)) else ret (inl (-279))) w = Some (inr (Z.of_nat (length (payload c))), w1) /\
             base w1 seen /\ frame w w1 /\ sp w1 = sp w /\ part w1 (apply blk c (size_all blk seen) (apply_all blk seen 0 f0))) as (w1 & E1 & B1 & F1 & S1 & P1).
    + destruct c as [res data|res v n|res n]; cbn [type_of CHUNK_TYPE_RAW CHUNK_TYPE_FILL CHUNK_TYPE_DONT_CARE Z.eqb Pos.eqb out_size payload apply].
      * apply (raw_whole w seen p res data); try done; try lia; [layout|]; rewrite length_app, Nat2Z.inj_add, enc_length; cbn [payload]; lia.
      * rewrite le_length; apply (fill_chunk_ok w seen p res v n); try done; try lia; intros Hnf a Ha.
        rewrite apply_all_beyond; [apply Herased| | |by destruct Hok as [[? _]%Forall_app _]|lia]; try done; [cbn [out_size] in Hcap; lia].
      * exists w; split; [|split; [done|split; [apply frame_refl|done]]]; unfold dont_care_chunk; by erewrite bind_some by exact Eto.
    + erewrite bind_some by exact E1; cbv beta iota; by apply (loop_next cs w w1).
Qed.

Lemma loop_spec cs : loop_ok cs.
Proof.
  induction cs as [|c cs IH]; intros w seen hl fuel p b rest Hbt Hok Hf Hb Hat Hlow Hinfo Hns.
  - apply app_eq_nil in Hb as [-> ->]; exists [], (size_all blk seen / 512), w; split; [apply loop_stop; left; by destruct Hbt as (_ & -> & _)|].
    split; [apply frame_refl|]; apply (ends_between w seen [] hl [] [] [] _ [] []); rewrite ?app_nil_r; (done || (cbn; lia)).
  - destruct fuel as [|fuel]; [cbn in Hf; lia|]; destruct (decide (length b < 12)%nat) as [Hs|Hs].
    + exists b, (size_all blk seen / 512), w; split; [|split; [apply frame_refl|]; apply (ends_between w seen (c :: cs) hl b rest b _ [] (c :: cs)); rewrite ?app_nil_r; done].
      destruct Hbt as (B & Hl & Hn & _); cbn [chunk_loop]; erewrite bind_some by reflexivity; rewrite Hl, Hn; cbn [length].
      rewrite (proj2 (Z.eqb_neq (Z.of_nat (S (length cs))) 0)) by lia; cbn [orb negb Z.eqb].
      destruct (rd_le_mapped 4 (p + 4) w) as [v Ev].
      { apply (mapped_sub _ LOW (Z.to_nat (FBUF + SLOT - LOW))); [apply B|layout..]. }
      unfold chunk_sz; erewrite bind_some by exact Ev.
      rewrite (proj2 (Z.ltb_lt (Z.of_nat (length b)) CHUNK_HEAD_SIZE)) by (unfold CHUNK_HEAD_SIZE; lia); done.
    + assert (exists b1, b = head blk c ++ b1) as (b1 & ->).
      { unfold enc_all in Hb; cbn [map concat] in Hb; unfold enc at 1 in Hb; rewrite <- app_assoc in Hb.
        apply app_eq_inv in Hb as [(k & -> & _)|(k & E & _)]; [by exists k|]; exists []; pose proof (head_length blk c) as L; rewrite E, length_app in L.
        destruct k; [|cbn in L; lia]; by rewrite app_nil_r, E, app_nil_r. }
      apply loop_head; try done; cbn in Hf; lia.
Qed.

(** ** Packets *)

Context (cs : list chunk) (Hcs : chunks_ok cs).

(** What is still to come, with the flash address for the next chunk. *)
Inductive stream (w : world D) (flash : Z) (pending : bytes) (hl : Z) : Prop :=
  | stream_between seen todo : cs = seen ++ todo -> between w seen todo hl -> flash = size_all blk seen / 512 ->
      pending = enc_all blk todo -> stream w flash pending hl
  | stream_inside seen res data todo k : cs = seen ++ Raw res data :: todo -> inside w seen res data todo k hl ->
      flash = size_all blk (seen ++ [Raw res data]) / 512 -> pending = drop (Z.to_nat k) data ++ enc_all blk todo ->
      stream w flash pending hl.

Definition all_len : Z := Z.of_nat (length (enc_all blk cs)).

Lemma no_split_app c1 c2 n : no_split (c1 ++ c2) (Z.of_nat (length (enc_all blk c1)) + n) -> no_split c2 n.
Proof.
  intros H1 d1 res v m d2 ->; specialize (H1 (c1 ++ d1) res v m d2 ltac:(by rewrite <- app_assoc)).
  rewrite enc_all_app, length_app in H1; lia.
Qed.

Lemma size_flash seen todo : cs = seen ++ todo -> 0 <= size_all blk seen / 512 < 2 ^ 31.
Proof.
  intros E; rewrite E in Hcs; destruct (size_range seen todo Hcs) as [Hs _].
  split; [apply Z.div_pos; lia|apply Z.div_lt_upper_bound; lia].
Qed.

Lemma stream_flash w flash pending hl : stream w flash pending hl -> 0 <= flash < 2 ^ 31.
Proof.
  intros [seen todo E _ -> _|seen res data todo k E _ -> _]; [by eapply size_flash|].
  apply (size_flash _ todo); by rewrite E, <- app_assoc.
Qed.

(** What a packet leaves over when [rest] comes after it. *)
Definition left_over (r rest : bytes) : Prop := Z.of_nat (length r) < 65536 /\ (rest = [] -> r = []).

Lemma enc_all_nil l : (length (enc_all blk l) < 12)%nat -> l = [].
Proof. destruct l as [|c l]; [done|]; unfold enc_all; cbn [map concat]; rewrite length_app; pose proof (enc_length blk c); lia. Qed.

(** The effect of a packet, in terms of what is still to come. *)
Lemma consumed_stream w seen todo hl b rest r flash : cs = seen ++ todo -> consumed w seen todo hl b rest r flash ->
  stream w flash (r ++ rest) hl /\ left_over r rest /\ size_all blk seen / 512 <= flash.
Proof.
  intros E Hcon; assert (forall c1 c2, todo = c1 ++ c2 -> size_all blk seen / 512 <= size_all blk (seen ++ c1) / 512) as Hm.
  { intros c1 c2 ->; apply Z.div_le_mono; [lia|]; rewrite size_all_app; destruct Hcs as (Fc & _); rewrite E in Fc.
    rewrite !Forall_app in Fc; destruct Fc as (_ & F1 & _); pose proof (size_all_512 blk Hblk H512 c1 F1); lia. }
  destruct Hcon as [c1 c2 Et -> Hr Hl -> Hb|c1 res data c2 k Et -> Hr Hl Hl2 -> Hi].
  - split; [|split; [split; [lia|]|by eapply Hm]]; [|intros ->; rewrite app_nil_r in Hr; subst r; apply enc_all_nil in Hl; by subst c2].
    apply (stream_between _ _ _ _ (seen ++ c1) c2); try done; by rewrite E, Et, <- app_assoc.
  - split; [|split; [split; [done|]|apply (Hm _ c2); by rewrite Et, <- app_assoc]].
    2:{ intros ->; apply (f_equal length) in Hr; rewrite !length_app, length_drop in Hr; cbn in Hr; destruct Hi as (_ & _ & _ & _ & _ & ? & _); lia. }
    apply (stream_inside _ _ _ _ (seen ++ c1) res data c2 k); try done; by rewrite ?E, ?Et, <- ?app_assoc.
Qed.

Definition head_off (w : world D) : world D := with_sp w (set_head 0 (sp w)).

Lemma stream_head_off w flash pending hl : stream w flash pending hl -> stream (head_off w) flash pending 0.
Proof.
  intros [seen todo E (B & Hl & Hn & Hh & Hp) Hf Hpe|seen res data todo k E (B & Hl & Hn & Hx & Hh & Hp) Hf Hpe].
  - apply (stream_between _ _ _ _ seen todo); try done; split; [apply base_with_sp; [done|apply B..]|done].
  - apply (stream_inside _ _ _ _ seen res data todo k); try done; split; [apply base_with_sp; [done|apply B..]|done].
Qed.

Lemma frame_head_off w w' : frame w w' -> frame w (head_off w').
Proof. by intros (Hm & Hi & Ho); split. Qed.

Abbreviation to_media := (optimus_simg_to_media device_boot_flag disk_inited).

(** The end of the function, behind the loop. *)
Lemma loop_to_media w w0 seen todo hl p b rest un0 flash0 : cs = seen ++ todo -> between w seen todo hl -> frame w0 w ->
  b ++ rest = enc_all blk todo -> bytes_at (wmem w) p b -> LOW <= p -> p + Z.of_nat (length b) <= INFO ->
  no_split cs (all_len - Z.of_nat (length rest)) -> size_all blk seen / 512 = flash0 ->
  exists r flash w',
    (r <- loop (length todo) p (Z.of_nat (length b)) flash0 (INFO + 28 + 12 * Z.of_nat (length seen));
     match r with
     | inl e => ret (e, un0)
     | inr (un, flashAddrStart) => _ <- on_sp (set_head 0); ret (s32 (flashAddrStart - flash0), un)
     end) w = Some (flash - flash0, Z.of_nat (length r), w') /\
    frame w0 w' /\ stream w' flash (r ++ rest) 0 /\ left_over r rest /\ flash0 <= flash.
Proof.
  intros E Hbt F0 Hb Hat Hlow Hinfo Hns Hf; pose proof Hcs as Hok; rewrite E in Hok.
  destruct (loop_spec todo w seen hl (length todo) p b rest Hbt Hok) as (r & flash & w' & El & F & Hcon); try done.
  { apply (no_split_app seen); rewrite <- E; replace (_ + _) with (all_len - Z.of_nat (length rest)); [done|].
    unfold all_len; rewrite E, enc_all_app, <- Hb, !length_app; lia. }
  destruct (consumed_stream w' seen todo hl b rest r flash E Hcon) as (Hst & Hr & Hge); pose proof (stream_flash _ _ _ _ Hst) as Hfl.
  pose proof (size_flash seen todo E); subst flash0; exists r, flash, (head_off w'); split.
  - erewrite bind_some by exact El; cbv beta iota; erewrite bind_some by reflexivity; unfold ret; do 3 f_equal; apply s32_small; lia.
  - split; [apply frame_head_off; by eapply frame_trans|]; split; [by eapply stream_head_off|done].
Qed.

Lemma to_media_between w seen todo hl hd p b rest un0 : cs = seen ++ todo -> between w seen todo hl -> Z.of_nat (length hd) = hl ->
  b ++ rest = enc_all blk todo -> bytes_at (wmem w) p (hd ++ b) -> LOW <= p -> p + Z.of_nat (length (hd ++ b)) <= INFO ->
  no_split cs (all_len - Z.of_nat (length rest)) ->
  exists r flash w', to_media p (Z.of_nat (length (hd ++ b))) un0 (size_all blk seen / 512) w =
      Some (flash - size_all blk seen / 512, Z.of_nat (length r), w') /\
    frame w w' /\ stream w' flash (r ++ rest) 0 /\ left_over r rest /\ size_all blk seen / 512 <= flash.
Proof.
  intros E Hbt Hhd Hb Hat Hlow Hinfo Hns; pose proof Hbt as (B & Hl & Hn & Hh & _); apply bytes_at_app in Hat as [_ Hat].
  rewrite length_app, Nat2Z.inj_add in *; unfold optimus_simg_to_media; erewrite bind_some by reflexivity; rewrite Hn, Hh; cbn [Z.eqb negb andb].
  erewrite bind_some by reflexivity; cbv beta iota; rewrite Hl, Nat2Z.id, (base_addr _ _ B), (base_back _ _ B).
  replace (u32 (Z.of_nat (length hd) + Z.of_nat (length b) - hl)) with (Z.of_nat (length b)) by (rewrite wrap_small by layout; lia).
  rewrite <- Hhd; apply (loop_to_media w w seen todo hl); try done; try lia; apply frame_refl.
Qed.

(** Writing the next part of a long chunk. *)
Lemma inside_write w seen res data todo k p d1 d2 : cs = seen ++ Raw res data :: todo -> inside w seen res data todo k 0 ->
  drop (Z.to_nat k) data = d1 ++ d2 -> d1 <> [] -> bytes_at (wmem w) p d1 -> LOW <= p ->
  exists w', optimus_cb_simg_write_media (nextFlashAddr4LastLongChunk (sp w)) (Z.of_nat (length d1)) p w = Some (Z.of_nat (length d1), w') /\
    base w' (seen ++ [Raw res data]) /\ frame w w' /\ sp w' = sp w /\
    part w' (put (apply_all blk seen 0 f0) (size_all blk seen) (take (Z.to_nat (k + Z.of_nat (length d1))) data)).
Proof.
  intros E (B & Hl & Hn & Hx & Hh & Hk & Hkm & Hp) Hd Hne Hb Hlow; pose proof Hcs as Hok; rewrite E in Hok.
  destruct (chunks_ok_snoc seen _ todo Hok) as (_ & Hc & _ & _ & Hcap & _); destruct (size_range seen _ Hok) as [Hsr Hsm]; cbn [out_size] in Hcap.
  pose proof Hc as (Fd & _); assert (length d1 + length d2 = length data - Z.to_nat k)%nat as Hlen by (rewrite <- length_app, <- Hd, length_drop; lia).
  destruct (data_step w (seen ++ [Raw res data]) p d1 (size_all blk seen + k) (put (apply_all blk seen 0 f0) (size_all blk seen) (take (Z.to_nat k) data)) B Hb) as (w' & E' & B' & F' & S' & P'); try exact Hp; try done; try lia.
  - assert (Forall byte_ok (d1 ++ d2)) as F12 by (rewrite <- Hd; by apply Forall_drop); by apply Forall_app in F12 as [? _].
  - layout.
  - by rewrite Z.add_mod, Hsm, Hkm by lia.
  - rewrite Hx; exists w'; split; [done|]; split; [done|]; split; [done|]; split; [done|]; intros a; rewrite P'.
    replace (size_all blk seen + k) with (size_all blk seen + Z.of_nat (length (take (Z.to_nat k) data))) by (rewrite length_take; lia).
    rewrite put_app; f_equal; by rewrite Z2Nat.inj_add, Nat2Z.id, <- take_take_drop, Hd, take_app_length by lia.
Qed.

(** How much of a packet of [b] bytes goes to a chunk that lacks [m]. *)
Definition take_len (b m : Z) : Z := if b <? m then whole_slots b else b.

Lemma take_len_ok b m : 0 < b <= m -> 65536 <= b \/ b = m ->
  0 < take_len b m <= b /\ b - take_len b m < 65536 /\ (b = m -> take_len b m = b) /\ (b < m -> take_len b m mod 512 = 0).
Proof.
  intros Hb Hbig; unfold take_len; destruct (whole_slots_eq b) as (Hw & H1 & H2 & H3); [lia|].
  destruct (Z.ltb_spec b m); [|lia]; pose proof (Z.div_le_lower_bound b 65536 1); split; [lia|]; split; [lia|]; split; [lia|done].
Qed.

(** The state of the parser after a packet that ends in the long chunk. *)
Lemma long_more w seen res data todo k p b d2 un0 : cs = seen ++ Raw res data :: todo -> inside w seen res data todo k 0 ->
  drop (Z.to_nat k) data = b ++ d2 -> 65536 <= Z.of_nat (length b) \/ d2 = [] -> b <> [] -> bytes_at (wmem w) p b -> LOW <= p ->
  p + Z.of_nat (length b) <= INFO ->
  let n := take_len (Z.of_nat (length b)) (Z.of_nat (length data) - k) in
  exists w', long_chunk (sp w) p (Z.of_nat (length b)) (Z.of_nat (length b)) un0 w = Some (inl (0, Z.of_nat (length b) - n), w') /\
    base w' (seen ++ [Raw res data]) /\ frame w w' /\
    sp w' = set_long (Z.of_nat (length data) - k - n) ((size_all blk seen + k + n) / 512) (sp w) /\
    part w' (put (apply_all blk seen 0 f0) (size_all blk seen) (take (Z.to_nat (k + n)) data)).
Proof.
  intros E Hin Hd Hbig Hne Hat Hlow Hinfo n; pose proof Hin as (B & Hl & Hn & Hx & Hh & Hk & Hkm & Hp).
  assert (length b + length d2 = length data - Z.to_nat k)%nat as Hlen by (rewrite <- length_app, <- Hd, length_drop; lia).
  assert (0 < length b)%nat by (destruct b; [done|cbn; lia]).
  destruct (take_len_ok (Z.of_nat (length b)) (Z.of_nat (length data) - k)) as (Hn1 & Hn2 & _); [lia|destruct Hbig as [ | ->]; [by left|right; cbn in Hlen; lia]|]; fold n in Hn1, Hn2.
  assert (length (take (Z.to_nat n) b) = Z.to_nat n) as Ln by (rewrite length_take; lia).
  destruct (inside_write w seen res data todo k p (take (Z.to_nat n) b) (drop (Z.to_nat n) b ++ d2)) as (w' & Ew & B' & F' & S' & P'); try done.
  { by rewrite app_assoc, take_drop. }
  { intros E0; rewrite E0 in Ln; cbn in Ln; lia. }
  { rewrite <- (take_drop (Z.to_nat n) b) in Hat; by apply bytes_at_app in Hat as [Hat _]. }
  rewrite Ln, Z2Nat.id in * by lia; pose proof Hcs as Hok; rewrite E in Hok.
  destruct (chunks_ok_snoc seen _ todo Hok) as (_ & (_ & _ & ?) & _ & _ & Hcap & _); destruct (size_range seen _ Hok) as [Hsr Hsm]; cbn [out_size] in Hcap.
  exists (with_sp w' (set_long (Z.of_nat (length data) - k - n) ((size_all blk seen + k + n) / 512) (sp w))).
  split; [|split; [apply base_with_sp; [done|apply B..]|split; [by destruct F' as (? & ? & ?); split|done]]].
  unfold long_chunk; rewrite Hn; rewrite (proj2 (Z.leb_le (Z.of_nat (length b)) _)) by lia; fold (take_len (Z.of_nat (length b)) (Z.of_nat (length data) - k)); fold n.
  erewrite bind_some by exact Ew; rewrite Z.eqb_refl; cbn [negb]; rewrite (wrap_small 32 (Z.of_nat (length b) - n)) by layout.
  erewrite bind_some by reflexivity; erewrite bind_some by reflexivity; unfold ret, with_sp; cbn [wmem dev info sp _filledBufValidLen _dtb_is_loaded]; rewrite S'.
  cbn [set_long notWrBackSz4LongChunk nextFlashAddr4LastLongChunk leftChunkNum sparseBlkSz pktHeadLen chunkInfoBackAddr backChunkNum chunkOffset].
  rewrite Hn, Hx, sectors by (by rewrite Z.add_mod, Hsm, Hkm); rewrite !wrap_small by (lia || (split; [apply Z.div_pos|apply Z.div_lt_upper_bound]; lia)); done.
Qed.

(** A packet that ends inside the long chunk, or with it. *)
Lemma to_media_more w seen res data todo k p b d2 un0 : cs = seen ++ Raw res data :: todo -> inside w seen res data todo k 0 ->
  drop (Z.to_nat k) data = b ++ d2 -> 65536 <= Z.of_nat (length b) \/ d2 = [] -> b <> [] -> bytes_at (wmem w) p b -> LOW <= p ->
  p + Z.of_nat (length b) <= INFO ->
  exists r w', to_media p (Z.of_nat (length b)) un0 (size_all blk (seen ++ [Raw res data]) / 512) w = Some (0, Z.of_nat (length r), w') /\
    frame w w' /\ stream w' (size_all blk (seen ++ [Raw res data]) / 512) (r ++ d2 ++ enc_all blk todo) 0 /\ left_over r (d2 ++ enc_all blk todo).
Proof.
  intros E Hin Hd Hbig Hne Hat Hlow Hinfo; pose proof Hin as (B & Hl & Hn & Hx & Hh & Hk & Hkm & Hp).
  assert (length b + length d2 = length data - Z.to_nat k)%nat as Hlen by (rewrite <- length_app, <- Hd, length_drop; lia).
  destruct (long_more w seen res data todo k p b d2 un0) as (w' & El & B' & F' & S' & P'); try done.
  set (n := take_len (Z.of_nat (length b)) (Z.of_nat (length data) - k)) in *; assert (0 < length b)%nat by (destruct b; [done|cbn; lia]).
  destruct (take_len_ok (Z.of_nat (length b)) (Z.of_nat (length data) - k)) as (Hn1 & Hn2 & Hn3 & Hn4); [lia|destruct Hbig as [ | ->]; [by left|right; cbn in Hlen; lia]|]; fold n in Hn1, Hn2, Hn3, Hn4.
  exists (drop (Z.to_nat n) b), w'; rewrite length_drop; split; [|split; [done|split; [|split; [rewrite length_drop; lia|]]]].
  3:{ intros [-> _]%app_eq_nil; cbn in Hlen; apply drop_ge; lia. }
  { unfold optimus_simg_to_media; erewrite bind_some by reflexivity; rewrite Hh, Hn, (proj2 (Z.eqb_neq (_ - k) 0)) by lia; cbn [negb andb Z.eqb].
    rewrite Z.sub_0_r, (wrap_small 32 (Z.of_nat (length b))) by layout; erewrite bind_some by exact El; unfold ret; do 3 f_equal; lia. }
  destruct (decide (Z.of_nat (length b) = Z.of_nat (length data) - k)) as [Heq|Hneq].
  - destruct d2; [|cbn in Hlen; lia]; rewrite drop_ge by lia; apply (stream_between _ _ _ _ (seen ++ [Raw res data]) todo); [by rewrite E, <- app_assoc| |done|done].
    split; [done|]; rewrite S'; cbn; rewrite Hl, Hh; split; [done|]; split; [lia|]; split; [done|].
    intros a; rewrite apply_snoc, P'; cbn [apply]; by rewrite take_ge by lia.
  - apply (stream_inside _ _ _ _ seen res data todo (k + n)); try done.
    + split; [done|]; rewrite S'; cbn; rewrite Hl, Hh; repeat split; try done; try lia; [f_equal; lia|].
      rewrite Z.add_mod, Hkm, Hn4 by lia; done.
    + rewrite Z2Nat.inj_add, <- drop_drop, Hd, drop_app_le, <- app_assoc by lia; done.
Qed.

(** A packet that goes on behind the long chunk. *)
Lemma to_media_past w seen res data todo k p b rest un0 : cs = seen ++ Raw res data :: todo -> inside w seen res data todo k 0 ->
  b ++ rest = enc_all blk todo -> b <> [] -> bytes_at (wmem w) p (drop (Z.to_nat k) data ++ b) -> LOW <= p ->
  p + Z.of_nat (length (drop (Z.to_nat k) data ++ b)) <= INFO -> no_split cs (all_len - Z.of_nat (length rest)) ->
  let flash0 := size_all blk (seen ++ [Raw res data]) / 512 in
  exists r flash w', to_media p (Z.of_nat (length (drop (Z.to_nat k) data ++ b))) un0 flash0 w = Some (flash - flash0, Z.of_nat (length r), w') /\
    frame w w' /\ stream w' flash (r ++ rest) 0 /\ left_over r rest /\ flash0 <= flash.
Proof.
  intros E Hin Hb Hne Hat Hlow Hinfo Hns flash0; pose proof Hin as (B & Hl & Hn & Hx & Hh & Hk & Hkm & Hp).
  set (d1 := drop (Z.to_nat k) data) in *; assert (Z.of_nat (length d1) = Z.of_nat (length data) - k) as Ld by (unfold d1; rewrite length_drop; lia).
  rewrite length_app, Nat2Z.inj_add in *; apply bytes_at_app in Hat as [Hd1 Hb2]; assert (0 < length b)%nat by (destruct b; [done|cbn; lia]).
  destruct (inside_write w seen res data todo k p d1 []) as (w1 & Ew & B1 & F1 & S1 & P1); try done; [by rewrite app_nil_r|intros E0; rewrite E0 in Ld; cbn in Ld; lia|].
  set (w2 := with_sp w1 (set_long 0 (nextFlashAddr4LastLongChunk (sp w)) (sp w))).
  assert (frame w w2) as F2 by (by destruct F1 as (? & ? & ?); split).
  assert (between w2 (seen ++ [Raw res data]) todo 0) as Hbt.
  { split; [apply base_with_sp; [done|apply B..]|]; cbn; rewrite Hl, Hh; split; [done|]; split; [done|]; split; [done|].
    intros a; rewrite apply_snoc; cbn [apply]; etransitivity; [apply P1|]; by rewrite Ld, take_ge by lia. }
  destruct (loop_to_media w2 w (seen ++ [Raw res data]) todo 0 (p + (Z.of_nat (length data) - k)) b rest un0 flash0)
    as (r & flash & w' & El & F & Hst & Hr & Hge); try done; try lia.
  { by rewrite E, <- app_assoc. }
  { eapply frame_bytes; [exact F2|by rewrite <- Ld|lia]. }
  exists r, flash, w'; split; [|done].
  pose proof Hcs as Hok; rewrite E in Hok; destruct (chunks_ok_snoc seen _ todo Hok) as (_ & (_ & _ & ?) & _).
  unfold optimus_simg_to_media; erewrite bind_some by reflexivity; rewrite Hh, Hn, (proj2 (Z.eqb_neq (_ - k) 0)) by lia; cbn [negb andb Z.eqb].
  assert (long_chunk (sp w) p (Z.of_nat (length d1) + Z.of_nat (length b)) (u32 (Z.of_nat (length d1) + Z.of_nat (length b) - 0)) un0 w =
    Some (inr (p + (Z.of_nat (length data) - k), Z.of_nat (length b)), w2)) as Elong.
  { unfold long_chunk; rewrite Hn, Hh, (proj2 (Z.leb_gt _ (Z.of_nat (length data) - k))), (Z.ltb_irrefl (_ - k)) by lia; rewrite <- Ld.
    erewrite bind_some by exact Ew; rewrite Z.eqb_refl; cbn [negb]; erewrite bind_some by reflexivity; unfold ret, w2, with_sp; rewrite S1, Hn, Ld, Z.sub_diag.
    rewrite (wrap_small 32 (_ - 0)), !wrap_small by layout; do 3 f_equal; f_equal; lia. }
  erewrite bind_some by exact Elong; cbv beta iota; rewrite Hl, Nat2Z.id, (base_addr _ _ B), (base_back _ _ B); exact El.
Qed.

(** A packet: what it does not use is still to come, with the packets behind
    it. *)
Lemma to_media_stream w flash p b rest un0 : stream w flash (b ++ rest) 0 -> b <> [] -> 65536 <= Z.of_nat (length b) \/ rest = [] ->
  bytes_at (wmem w) p b -> LOW <= p -> p + Z.of_nat (length b) <= INFO -> no_split cs (all_len - Z.of_nat (length rest)) ->
  exists r flash' w', to_media p (Z.of_nat (length b)) un0 flash w = Some (flash' - flash, Z.of_nat (length r), w') /\
    frame w w' /\ stream w' flash' (r ++ rest) 0 /\ left_over r rest /\ flash <= flash'.
Proof.
  intros [seen todo E Hbt -> Hpe|seen res data todo k E Hin -> Hpe] Hne Hbig Hat Hlow Hinfo Hns.
  - by apply (to_media_between w seen todo 0 [] p b rest un0).
  - pose proof Hin as (_ & _ & _ & _ & _ & Hk & _); apply app_eq_inv in Hpe as [(k1 & -> & Hr)|(k1 & Hd & ->)].
    + destruct k1 as [|x k1]; [|by apply (to_media_past w seen res data todo k p (x :: k1) rest un0)]; rewrite app_nil_r in *; cbn [app] in Hr; subst rest.
      destruct (to_media_more w seen res data todo k p (drop (Z.to_nat k) data) [] un0) as (r & w' & Et & F & Hst & Hlo); try done; [by rewrite app_nil_r|by right|].
      exists r, (size_all blk (seen ++ [Raw res data]) / 512), w'; rewrite Z.sub_diag; split; [done|]; split; [done|]; split; [done|]; split; [done|lia].
    + destruct (to_media_more w seen res data todo k p b k1 un0) as (r & w' & Et & F & Hst & Hlo); try done.
      { destruct Hbig as [?|[-> _]%app_eq_nil]; [by left|by right]. }
      exists r, (size_all blk (seen ++ [Raw res data]) / 512), w'; rewrite Z.sub_diag; split; [done|]; split; [done|]; split; [done|]; split; [done|lia].
Qed.

(** At the end the chunks are in the partition. *)
Lemma stream_end w flash : stream w flash [] 0 -> between w cs [] 0.
Proof.
  intros [seen todo E Hbt _ Hpe|seen res data todo k E Hin _ Hpe].
  - assert (todo = []) as -> by (apply enc_all_nil; rewrite <- Hpe; cbn; lia); by rewrite app_nil_r in E; subst seen.
  - symmetry in Hpe; apply app_eq_nil in Hpe as [Hd _]; apply (f_equal length) in Hd; rewrite length_drop in Hd; cbn in Hd.
    destruct Hin as (_ & _ & _ & _ & _ & Hk & _); lia.
Qed.

Lemma payload_4 c : chunk_ok blk c -> Z.of_nat (length (payload c)) mod 4 = 0.
Proof.
  destruct c as [res data|res v n|res n]; cbn [payload]; [|by rewrite le_length|done]; intros (_ & Hm & _).
  pose proof (Z.div_mod (Z.of_nat (length data)) blk ltac:(lia)) as Ed; rewrite Hm, Z.add_0_r, Z.mul_comm in Ed; rewrite Ed; by apply blk_4.
Qed.

Lemma enc_all_4 l : Forall (chunk_ok blk) l -> Z.of_nat (length (enc_all blk l)) mod 4 = 0.
Proof.
  induction 1 as [|c l Hc _ IH]; [done|]; unfold enc_all in *; cbn [map concat]; rewrite length_app, Nat2Z.inj_add, enc_length.
  rewrite Z.add_mod, IH, (Z.add_mod 12), payload_4 by done; done.
Qed.

Lemma stream_4 w flash pending hl : stream w flash pending hl -> Z.of_nat (length pending) mod 4 = 0.
Proof.
  destruct Hcs as (Fc & _); intros [seen todo E _ _ ->|seen res data todo k E Hin _ ->]; rewrite E in Fc; apply Forall_app in Fc as [_ F2]; [by apply enc_all_4|].
  apply Forall_cons in F2 as [Hc F2]; destruct Hin as (_ & _ & _ & _ & _ & Hk & Hkm & _); pose proof (payload_4 _ Hc) as Hd; cbn [payload] in Hd.
  rewrite length_app, length_drop, Nat2Z.inj_add, Z.add_mod, (enc_all_4 todo F2), Z.add_0_r, Z.mod_mod by lia.
  replace (Z.of_nat (length data - Z.to_nat k)) with (Z.of_nat (length data) - k) by lia; rewrite Zminus_mod, Hd.
  rewrite <- (div_512 k Hkm); replace (k / 512 * 512) with (k / 512 * 128 * 4) by lia; by rewrite Z.mod_mul.
Qed.

Lemma stream_pending w flash pending hl : stream w flash pending hl -> Z.of_nat (length pending) <= all_len.
Proof.
  unfold all_len; intros [seen todo E _ _ ->|seen res data todo k E _ _ ->]; rewrite E, enc_all_app, length_app; [lia|].
  change (enc_all blk (Raw res data :: todo)) with (enc blk (Raw res data) ++ enc_all blk todo); rewrite !length_app, length_drop.
  pose proof (enc_length blk (Raw res data)) as El; cbn [payload] in El; lia.
Qed.

(** The memory for packets may change. *)
Lemma base_with_mem w seen m : base w seen -> mapped m LOW (Z.to_nat (FBUF + SLOT - LOW)) -> (forall a, INFO <= a -> m !! a = wmem w !! a) ->
  base (World m (dev w) (info w) (sp w) (_filledBufValidLen w) (_dtb_is_loaded w)) seen.
Proof.
  intros [? ? ? ? ? ? ? Hb ? (Hv & Hv4 & Hf)] Hm He; split; cbn; try done.
  - intros i x Hi; rewrite He by lia; by apply Hb.
  - split; [done|]; split; [done|]; destruct Hf as [|(v & Hv0 & Hfb)]; [by left|right; exists v; split; [done|]].
    intros i x Hi; rewrite He by layout; by apply Hfb.
Qed.

Lemma stream_with_mem w flash pending hl m : stream w flash pending hl -> mapped m LOW (Z.to_nat (FBUF + SLOT - LOW)) ->
  (forall a, INFO <= a -> m !! a = wmem w !! a) ->
  stream (World m (dev w) (info w) (sp w) (_filledBufValidLen w) (_dtb_is_loaded w)) flash pending hl.
Proof.
  intros [seen todo E (B & Hx) Hf Hpe|seen res data todo k E (B & Hx) Hf Hpe] Hm He.
  - apply (stream_between _ _ _ _ seen todo); try done; by split; [apply base_with_mem|].
  - apply (stream_inside _ _ _ _ seen res data todo k); try done; by split; [apply base_with_mem|].
Qed.
End stream.

(** ** The file header *)

Section header.
Context (blk : Z) (cs : list chunk) (minor blks sum : Z).

Definition file_header : bytes :=
  le 4 SPARSE_HEADER_MAGIC ++ le 2 SPARSE_HEADER_MAJOR_VER ++ le 2 minor ++ le 2 FILE_HEAD_SIZE ++ le 2 CHUNK_HEAD_SIZE ++
  le 4 blk ++ le 4 blks ++ le 4 (Z.of_nat (length cs)) ++ le 4 sum.

(** A sparse image. *)
Definition simg : bytes := file_header ++ enc_all blk cs.

Lemma file_header_length : length file_header = 28%nat.
Proof. unfold file_header; by rewrite !length_app, !le_length. Qed.

Lemma file_header_bytes : Forall byte_ok file_header.
Proof. unfold file_header; rewrite !Forall_app; auto 20 using le_bytes. Qed.

Context {D : Type} (w : world D) (p : Z) (Hat : bytes_at (wmem w) p file_header).

(** The field of [n] bytes at offset [o]. *)
Lemma header_field o n v : take n (drop o file_header) = le n v -> 0 <= v < 256 ^ Z.of_nat n ->
  rd_le n (p + Z.of_nat o) w = Some (v, w).
Proof.
  intros E Hv; erewrite rd_le_at; [by rewrite le_Z_le| |apply le_length].
  rewrite <- E; by apply bytes_at_sub.
Qed.

Ltac field := unfold file_header, le; reflexivity.

Lemma probe_ok len : 28 <= len -> optimus_simg_probe p len w = Some (1, w).
Proof.
  intros Hl; unfold optimus_simg_probe, FILE_HEAD_SIZE; rewrite (proj2 (Z.ltb_ge len 28)) by done.
  unfold magic, major_version, file_hdr_sz, chunk_hdr_sz; rewrite <- (Z.add_0_r p) at 1.
  erewrite bind_some by (apply (header_field 0 4 SPARSE_HEADER_MAGIC); [field|done]); rewrite Z.eqb_refl; cbn [negb].
  erewrite bind_some by (apply (header_field 4 2 SPARSE_HEADER_MAJOR_VER); [field|done]).
  erewrite bind_some by (apply (header_field 8 2 FILE_HEAD_SIZE); [field|done]).
  by erewrite bind_some by (apply (header_field 10 2 CHUNK_HEAD_SIZE); [field|done]).
Qed.

Lemma init_ok : 0 < blk < 2 ^ 32 -> Z.of_nat (length cs) < 2 ^ 32 -> mapped (wmem w) INFO 28 -> p + 28 <= INFO ->
  optimus_simg_parser_init p w =
  Some (0, World (write_bytes (wmem w) INFO file_header) (dev w) (info w) (mkSp (Z.of_nat (length cs)) blk 28 0 0 INFO 0 0)
             (_filledBufValidLen w) (_dtb_is_loaded w)).
Proof.
  intros Hb Hc Hm Hp; unfold optimus_simg_parser_init, total_chunks, file_hdr_sz, blk_sz.
  erewrite bind_some by (apply (header_field 20 4 (Z.of_nat (length cs))); [field|cbn; lia]).
  erewrite bind_some by (apply (header_field 8 2 FILE_HEAD_SIZE); [field|done]).
  erewrite bind_some by (apply (header_field 12 4 blk); [field|cbn; lia]).
  erewrite bind_some by reflexivity; unfold FILE_HEAD_SIZE.
  pose proof (copy_at INFO p file_header (World (wmem w) (dev w) (info w) (mkSp (Z.of_nat (length cs)) blk 28 0 0 INFO 0 0) (_filledBufValidLen w) (_dtb_is_loaded w))) as E.
  rewrite file_header_length in E; erewrite bind_some by (apply E; [exact Hat|apply file_header_bytes|done|lia]); done.
Qed.
End header.

End Sparse.
