(* ===== verification/Download.v ===== *)
(** * Downloading and verifying images
    (drivers/usb/gadget/v2_burning/v2_common/optimus_download.c)

    A download is announced with [optimus_parse_img_download_info]; then every
    write-back of the buffer manager calls [optimus_download_img_data] with the
    next part of the image, and at the end [optimus_media_download_verify]
    reads the partition back and compares its SHA-1 with the one given.
    [imgBurnSta] of the static [OptimusImgBurnInfo] is the state machine of
    this sequence.

    The keys of optimus_download_key.c are parameters.  [sha1_buf] is what the
    buffer of the SHA-1 context on the stack holds.  Output is left out. *)

From S2P Require Import Prelude CString CArray Vsprintf Digest Sha1 Burn Sparse.

Module Download.
Import CString CArray Burn Sparse.
#[local] Open Scope burn_scope.

Definition OPTIMUS_IMG_STA_EMPTY : Z := 0.
Definition OPTIMUS_IMG_STA_PRE_BURN : Z := 1.
Definition OPTIMUS_IMG_STA_BURN_ING : Z := 2.
Definition OPTIMUS_IMG_STA_BURN_COMPLETE : Z := 3.
Definition OPTIMUS_IMG_STA_BURN_FAILED : Z := 4.
Definition OPTIMUS_IMG_STA_VERIFY_ING : Z := 5.
Definition OPTIMUS_IMG_STA_VERIFY_END : Z := 6.

Definition IMG_TYPE_SPARSE : Z := 0xfe.
Definition IMG_TYPE_NORMAL : Z := 0.
Definition IMG_TYPE_BOOTLOADER : Z := 0xfd.

Definition MAX_PART_NAME_LEN : nat := 16.
Definition NAND_PART_SIZE_FULL : Z := u64 (-1).

(** A name and a size of [part_table]; the name fills 16 bytes with NULs. *)
Record partition := mkPart { part_name : bytes; part_size : Z }.

(** [strcmp(a, b) == 0] *)
Definition same (a b : bytes) : bool := strcmp_str a b =? 0.

Section code.
Context {D : Type} `{Storage D} (device_boot_flag disk_inited : Z) (part_table : list partition).
#[local] Abbreviation M := (Burn.M D).
Context (v2_key_burn v2_key_read : bytes -> Z -> Z -> M Z) (sha1_buf : bytes).

(** The first of 16 entries whose name starts with the name given; [None] is a
    read behind the table or the name. *)
Fixpoint cap_loop (n : nat) (table : list partition) (name : bytes) (cap : Z) : option Z :=
  match n with
  | O => Some 128
  | S n' =>
      match table with
      | [] => None
      | p :: table' =>
          if (length (part_name p) <? length name)%nat then None
          else if bool_decide (take (length name) (part_name p) = name) then
            Some (if part_size p =? NAND_PART_SIZE_FULL then 0 else if cap <? part_size p then 121 else 0)
          else cap_loop n' table' name cap
      end
  end.

Definition _assert_logic_partition_cap (name : bytes) (nandPartCap : Z) : option Z :=
  cap_loop MAX_PART_NAME_LEN part_table name nandPartCap.

Definition optimus_download_bootloader_image (dataSzReceived data : Z) : M Z :=
  i <- gets info;
  if dataSzReceived <? imgPktSz i then ret 0
  else if 2 * 2 ^ 20 <? dataSzReceived then ret 0
  else
    let size := Z.shiftl (Z.shiftr (dataSzReceived + 2 ^ 20 - 1) 20) 20 in
    r <- store_boot_write data 0 size;
    ret (if negb (r =? 0) then 0 else dataSzReceived).

(** The return value and [genSum]. *)
Definition optimus_verify_bootloader : M (Z * bytes) :=
  i <- gets info;
  r <- store_boot_read OPTIMUS_DOWNLOAD_TRANSFER_BUF_ADDR 0 (imgPktSz i);
  if negb (r =? 0) then ret (177, [])
  else
    data <- rd (fun m => read_bytes m OPTIMUS_DOWNLOAD_TRANSFER_BUF_ADDR (Z.to_nat (u32 (imgPktSz i))));
    ret (r, Sha1.sha1_csum sha1_buf data).

Definition optimus_download_sparse_image (dataSz data : Z) : M Z :=
  i <- gets info;
  '(flashOffset, unParsedDataLen) <- optimus_simg_to_media device_boot_flag disk_inited data dataSz 0 (u32 (Z.shiftr (nextMediaOffset i) 9));
  if flashOffset <? 0 then ret 0
  else
    _ <- on_info (fun i => set_next (u64 (nextMediaOffset i + Z.shiftl flashOffset 9)) i);
    ret (u32 (dataSz - unParsedDataLen)).

Definition optimus_download_normal_image (dataSz data : Z) : M Z :=
  i <- gets info;
  r <- store_write_ops (partName i) data (nextMediaOffset i) dataSz;
  if negb (r =? 0) then ret 0
  else
    _ <- on_info (fun i => set_next (u64 (nextMediaOffset i + dataSz)) i);
    ret dataSz.

(** NAND, SDMMC and STORE *)
Definition is_store (t : Z) : bool :=
  (t =? OPTIMUS_MEDIA_TYPE_NAND) || (t =? OPTIMUS_MEDIA_TYPE_SDMMC) || (t =? OPTIMUS_MEDIA_TYPE_STORE).

Definition optimus_storage_open (data dataSz : Z) : M Z :=
  i <- gets info;
  _ <- (if (imgSzDisposed i =? 0) && (OPTIMUS_IMG_STA_PRE_BURN =? imgBurnSta i) then on_info (set_sta OPTIMUS_IMG_STA_BURN_ING)
        else if (imgSzDisposed i =? imgPktSz i) && (OPTIMUS_IMG_STA_BURN_COMPLETE =? imgBurnSta i) then on_info (set_sta OPTIMUS_IMG_STA_VERIFY_ING)
        else ret tt);
  if is_store (storageMediaType i) then
    if negb (IMG_TYPE_BOOTLOADER =? imgType i) && (devHdle i =? 0) then
      _ <- on_info (set_hdle 1);
      if IMG_TYPE_SPARSE =? imgType i then
        r <- optimus_simg_probe data dataSz;
        if r =? 0 then ret OPT_DOWN_FAIL else optimus_simg_parser_init data
      else ret OPT_DOWN_OK
    else ret OPT_DOWN_OK
  else if (storageMediaType i =? OPTIMUS_MEDIA_TYPE_KEY_UNIFY) || (storageMediaType i =? OPTIMUS_MEDIA_TYPE_MEM) then ret OPT_DOWN_OK
  else ret OPT_DOWN_FAIL.

Definition optimus_storage_close : M Z :=
  i <- gets info;
  _ <- (if (imgSzDisposed i =? imgPktSz i) && (OPTIMUS_IMG_STA_BURN_ING =? imgBurnSta i) then on_info (set_sta OPTIMUS_IMG_STA_BURN_COMPLETE)
        else if (imgSzDisposed i =? 0) && (OPTIMUS_IMG_STA_VERIFY_ING =? imgBurnSta i) then on_info (set_sta OPTIMUS_IMG_STA_VERIFY_END)
        else ret tt);
  ret OPT_DOWN_OK.

(** The number of bytes dealt with. *)
Definition optimus_storage_write (addrOrOffsetInBy dataSz data : Z) : M Z :=
  i <- gets info;
  let addr := u64 (addrOrOffsetInBy + partBaseOffset i) in
  if negb (OPTIMUS_IMG_STA_BURN_ING =? imgBurnSta i) then ret 0
  else if is_store (storageMediaType i) then
    if imgType i =? IMG_TYPE_NORMAL then optimus_download_normal_image dataSz data
    else if imgType i =? IMG_TYPE_BOOTLOADER then optimus_download_bootloader_image dataSz data
    else if imgType i =? IMG_TYPE_SPARSE then optimus_download_sparse_image dataSz data
    else ret 0
  else if storageMediaType i =? OPTIMUS_MEDIA_TYPE_KEY_UNIFY then
    burnSz <- v2_key_burn (partName i) data dataSz;
    ret (if negb (burnSz =? dataSz) then 0 else burnSz)
  else if storageMediaType i =? OPTIMUS_MEDIA_TYPE_MEM then
    if negb (addr =? data) then ret 0
    else
      _ <- (if same (str "dtb") (partName i) then
              _ <- copy OPTIMUS_DTB_LOAD_ADDR data dataSz;
              set_dtb dataSz
            else ret tt);
      ret dataSz
  else ret 0.

Definition optimus_storage_read (addrOrOffsetInBy readSzInBy buff : Z) : M Z :=
  i <- gets info;
  let addr := u64 (addrOrOffsetInBy + partBaseOffset i) in
  if is_store (storageMediaType i) then
    r <- (if IMG_TYPE_BOOTLOADER =? imgType i then store_boot_read buff addr readSzInBy else store_read_ops (partName i) buff addr readSzInBy);
    ret (if negb (r =? 0) then OPT_DOWN_FAIL else r)
  else if storageMediaType i =? OPTIMUS_MEDIA_TYPE_KEY_UNIFY then
    if negb (addr =? 0) then ret OPT_DOWN_FAIL else v2_key_read (partName i) buff readSzInBy
  else if storageMediaType i =? OPTIMUS_MEDIA_TYPE_MEM then ret 0
  else ret OPT_DOWN_FAIL.

(** The number of bytes written to the media. *)
Definition optimus_func_download_image (dataSz data : Z) : M Z :=
  i <- gets info;
  r <- optimus_storage_open data dataSz;
  if negb (r =? OPT_DOWN_OK) then ret 0
  else
    n <- optimus_storage_write (nextMediaOffset i) dataSz data;
    let burnSz := s32 n in
    if burnSz =? 0 then
      _ <- optimus_storage_close;
      _ <- on_info (set_sta OPTIMUS_IMG_STA_BURN_FAILED);
      ret 0
    else
      _ <- on_info (fun i => set_disposed (u64 (imgSzDisposed i + burnSz)) i);
      r <- optimus_storage_close;
      ret (if negb (r =? 0) then 0 else u32 burnSz).

Definition optimus_download_img_data (data size : Z) : M Z := optimus_func_download_image size data.

Definition media_type (mediaType : bytes) : option Z :=
  if same (str "store") mediaType then Some OPTIMUS_MEDIA_TYPE_STORE
  else if same (str "nand") mediaType then Some OPTIMUS_MEDIA_TYPE_NAND
  else if same (str "sdmmc") mediaType then Some OPTIMUS_MEDIA_TYPE_SDMMC
  else if same (str "spiflash") mediaType then Some OPTIMUS_MEDIA_TYPE_SPIFLASH
  else if same (str "key") mediaType then Some OPTIMUS_MEDIA_TYPE_KEY_UNIFY
  else if same (str "mem") mediaType then Some OPTIMUS_MEDIA_TYPE_MEM
  else None.

(** The structure after [memset], with the fields the errors leave set.  The
    name is copied without a bound: 47 characters and a NUL fit the structure. *)
Definition _parse_img_download_info (name : bytes) (imgSz : Z) (type mediaType : bytes) (base : Z) : M Z :=
  _ <- on_info (fun _ => mkInfo 0 0 0 0 0 0 0 0 []);
  match (if same (str "sparse") type then Some IMG_TYPE_SPARSE
         else if same (str "bootloader") name then Some IMG_TYPE_BOOTLOADER
         else if same (str "normal") type then Some IMG_TYPE_NORMAL
         else None) with
  | None => ret 541
  | Some t =>
      _ <- on_info (fun _ => mkInfo t 0 0 0 0 0 0 0 []);
      match media_type mediaType with
      | None => ret 575
      | Some mt =>
          _ <- on_info (fun _ => mkInfo t 0 mt 0 0 0 0 0 []);
          if (mt =? OPTIMUS_MEDIA_TYPE_KEY_UNIFY) && (OPTIMUS_DOWNLOAD_SLOT_SZ <=? imgSz) then ret 566
          else if (47 <? length name)%nat then fault
          else
            _ <- on_info (fun _ => mkInfo t 0 mt 0 0 0 base 0 name);
            r <- (if (mt <? OPTIMUS_MEDIA_TYPE_MEM) && negb (same (str "bootloader") name) then
                    size <- store_get_partititon_size name;
                    match size with
                    | None => ret 588
                    | Some s =>
                        let partCap := u64 (Z.shiftl s 9) in
                        if partCap <? imgSz then ret 594
                        else
                          r <- rd (fun _ => _assert_logic_partition_cap name partCap);
                          ret (if negb (r =? 0) then 599 else 0)
                    end
                  else ret 0);
            if negb (r =? 0) then ret r
            else
              _ <- on_info (fun _ => mkInfo t OPTIMUS_IMG_STA_PRE_BURN mt 0 imgSz 0 base 0 name);
              ret 0
      end
  end.

Definition optimus_parse_img_download_info := _parse_img_download_info.

Definition optimus_download_init : M Z := _ <- on_info (fun _ => mkInfo 0 0 0 0 0 0 0 0 []); ret 0.

Definition is_optimus_on_burn : M bool := i <- gets info; ret (OPTIMUS_IMG_STA_BURN_ING =? imgBurnSta i).
Definition is_optimus_pre_burn : M bool := i <- gets info; ret (OPTIMUS_IMG_STA_PRE_BURN =? imgBurnSta i).
Definition is_optimus_to_burn_ready : M bool := i <- gets info; ret (OPTIMUS_IMG_STA_PRE_BURN =? imgBurnSta i).
Definition is_optimus_burn_complete : M bool := i <- gets info; ret (OPTIMUS_IMG_STA_BURN_COMPLETE =? imgBurnSta i).

(** ** Verification *)

(** Reading [len] bytes from [offset] on in parts of the buffer. *)
Fixpoint read_loop (fuel : nat) (ctx : Digest.context) (offset len : Z) : M (Z * Z * Digest.context) :=
  if len =? 0 then ret (0, len, ctx)
  else
    match fuel with
    | O => fault
    | S fuel' =>
        let thisReadLen := if OPTIMUS_SHA1SUM_BUFFER_LEN <? len then OPTIMUS_SHA1SUM_BUFFER_LEN else len in
        r <- optimus_storage_read offset thisReadLen OPTIMUS_SHA1SUM_BUFFER_ADDR;
        if negb (r =? 0) then ret (r, len, ctx)
        else
          data <- rd (fun m => read_bytes m OPTIMUS_SHA1SUM_BUFFER_ADDR (Z.to_nat thisReadLen));
          read_loop fuel' (Sha1.sha1_update ctx data) (u64 (offset + thisReadLen)) (len - thisReadLen)
    end.

Definition read_fuel (len : Z) : nat := S (Z.to_nat (len / OPTIMUS_SHA1SUM_BUFFER_LEN)).

(** The loop over the chunks of a sparse image: the return value, [leftLen] and
    the context. *)
Fixpoint sparse_loop (fuel : nat) (ctx : Digest.context) (leftLen : Z) : M (Z * Z * Digest.context) :=
  if leftLen =? 0 then ret (0, leftLen, ctx)
  else
    match fuel with
    | O => fault
    | S fuel' =>
        '(r, head, spHeadSz, chunkDataLen, chunkDataOffset) <- optimus_sparse_get_chunk_data;
        if negb (r =? 0) then ret (r, leftLen, ctx)
        else
          h <- rd (fun m => read_bytes m head (Z.to_nat spHeadSz));
          let ctx := Sha1.sha1_update ctx h in
          let leftLen := u64 (leftLen - u32 (spHeadSz + chunkDataLen)) in
          '(r, _, ctx) <- read_loop (read_fuel chunkDataLen) ctx chunkDataOffset chunkDataLen;
          if negb (r =? 0) then ret (r, leftLen, ctx)
          else if negb (leftLen =? 0) && (spHeadSz =? 0) then ret (0, leftLen, ctx)
          else sparse_loop fuel' ctx leftLen
    end.

(** The return value and [genSum]. *)
Definition optimus_sha1sum_verify_partition (name : bytes) (verifyLen type : Z) : M (Z * bytes) :=
  i <- gets info;
  if negb (same name (partName i)) then ret (OPT_DOWN_FAIL, [])
  else
    complete <- is_optimus_burn_complete;
    if negb complete then ret (OPT_DOWN_FAIL, [])
    else
      _ <- on_mem (fun m => '(_, m) ← memset m OPTIMUS_SHA1SUM_BUFFER_ADDR 0xde 1024; Some m);
      if IMG_TYPE_BOOTLOADER =? type then optimus_verify_bootloader
      else
        probe <- (if IMG_TYPE_SPARSE =? type then optimus_sparse_back_info_probe else ret OPT_DOWN_TRUE);
        if negb (probe =? OPT_DOWN_TRUE) then ret (OPT_DOWN_FAIL, [])
        else
          r <- optimus_storage_open 0 0;
          if negb (r =? 0) then ret (OPT_DOWN_FAIL, [])
          else
            let ctx := Sha1.sha1_starts sha1_buf in
            s <- gets sp;
            '(r, leftLen, ctx) <- (if IMG_TYPE_SPARSE =? type then sparse_loop (S (S (Z.to_nat (backChunkNum s)))) ctx verifyLen
                                   else read_loop (read_fuel verifyLen) ctx 0 verifyLen);
            _ <- on_info (set_disposed leftLen);
            _ <- optimus_storage_close;
            ret (r, Sha1.sha1_finish ctx).

(** [optimus_hex_data_2_ascii_str] (optimus_progress.c): the text of each byte
    is that of %02x. *)
Definition hex_byte (b : Z) : bytes := Vsprintf.number_text b 16 2 (-1) (Z.lor Vsprintf.ZEROPAD Vsprintf.SMALL).
Definition optimus_hex_data_2_ascii_str (hexData : bytes) (strSz : Z) : Z * bytes :=
  if strSz <? 2 * Z.of_nat (length hexData) + 1 then (92, []) else (0, concat (map hex_byte hexData)).

Definition optimus_media_download_verify (argv : list bytes) : M Z :=
  match argv with
  | [_; verifyType; srcSum] =>
      if negb (same verifyType (str "sha1sum")) then ret 918
      else
        i <- gets info;
        '(r, verifyResult) <- optimus_sha1sum_verify_partition (partName i) (imgPktSz i) (imgType i);
        if negb (r =? 0) then ret 927
        else
          let '(r, sha1Result) := optimus_hex_data_2_ascii_str verifyResult 42 in
          if negb (r =? 0) then ret 933
          else ret (if negb (same sha1Result srcSum) then 941 else 0)
  | _ => ret (-1)
  end.

(** ** Uploading *)

Definition optimus_dump_storage_data (pBuf wantSz : Z) : M Z :=
  i <- gets info;
  r <- optimus_storage_open pBuf wantSz;
  if negb (r =? OPT_DOWN_OK) then ret 0
  else
    r <- optimus_storage_read (nextMediaOffset i) wantSz pBuf;
    if negb (r =? 0) then
      _ <- optimus_storage_close;
      _ <- on_info (set_sta OPTIMUS_IMG_STA_BURN_FAILED);
      ret 0
    else
      _ <- on_info (fun i => set_next (u64 (nextMediaOffset i + wantSz)) (set_disposed (u64 (imgSzDisposed i + wantSz)) i));
      r <- optimus_storage_close;
      ret (if negb (r =? 0) then 0 else wantSz).
End code.

(** ** What the download code does with a packet *)

Definition with_info {D} (w : world D) (i : ImgBurnInfo) : world D :=
  World (wmem w) (dev w) i (sp w) (_filledBufValidLen w) (_dtb_is_loaded w).
Definition with_mem {D} (w : world D) (m : mem) : world D :=
  World m (dev w) (info w) (sp w) (_filledBufValidLen w) (_dtb_is_loaded w).

(** The buffers up to the end of the fill buffer are RAM. *)
Definition buffers_mapped (m : mem) : Prop := mapped m LOW (Z.to_nat (FBUF + SLOT - LOW)).

Lemma fill_ok_mem m m' valid : fill_ok m valid -> (forall a, INFO <= a -> m' !! a = m !! a) -> fill_ok m' valid.
Proof.
  intros (Hv & Hv4 & Hf) He; split; [done|]; split; [done|]; destruct Hf as [|(v & Hv0 & Hfb)]; [by left|right; exists v; split; [done|]].
  intros i x Hix; rewrite He by layout; by apply Hfb.
Qed.

(** The interface between the buffer manager and the kinds of images: [takes w
    pending] says that [pending] is what the image still lacks.  A packet is a
    part [b] of it at [p]; all of it is used but [r], which is short.  [ends]
    restricts where packets may end, by what follows.  The memory for packets
    belongs to the buffer manager. *)
Class Consumer {D} `{HS : StorageSpec D} (device_boot_flag disk_inited : Z) (v2_key_burn : bytes -> Z -> Z -> M D Z)
    (name image : bytes) (takes : world D -> bytes -> Prop) (ends : Z -> Prop) := {
  consume : forall w p b rest, takes w (b ++ rest) -> b <> [] -> 65536 <= Z.of_nat (length b) \/ rest = [] ->
    bytes_at (wmem w) p b -> LOW <= p -> p + Z.of_nat (length b) <= INFO -> rest = [] \/ ends (Z.of_nat (length rest)) ->
    exists r w', optimus_download_img_data device_boot_flag disk_inited v2_key_burn p (Z.of_nat (length b)) w =
        Some (Z.of_nat (length b) - Z.of_nat (length r), w') /\
      (forall a, a < INFO -> wmem w' !! a = wmem w !! a) /\ takes w' (r ++ rest) /\ left_over r rest /\
      Z.of_nat (length r) mod 4 = 0 /\ untouched name (dev w) (dev w');
  takes_suffix : forall w pending, takes w pending -> exists sent, image = sent ++ pending;
  takes_good : forall w pending, takes w pending -> good (dev w) /\ fill_ok (wmem w) (_filledBufValidLen w);
  takes_mapped : forall w pending, takes w pending -> buffers_mapped (wmem w);
  takes_mem : forall w pending m, takes w pending -> buffers_mapped m -> (forall a, INFO <= a -> m !! a = wmem w !! a) ->
    takes (with_mem w m) pending }.

(** ** Sparse images *)

Section sparse.
Context {D : Type} `{HS : StorageSpec D} (device_boot_flag disk_inited : Z) (v2_key_burn : bytes -> Z -> Z -> M D Z).
Context (blk : Z) (Hblk : 0 < blk < 2 ^ 32) (H512 : blk mod 512 = 0).
Context (name : bytes) (cs : list chunk) (minor blks sum : Z) (cap : Z) (f0 : Z -> Z).
Context (H40 : cap < 2 ^ 40).
Context (Herased : forall v a, need_fill device_boot_flag disk_inited v = false -> 0 <= a < cap -> f0 a = nth (Z.to_nat (a mod 4)) (le 4 v) 0).
Context (Hcs : chunks_ok blk cap cs) (mt pbase : Z) (Hmt : is_store mt = true).

#[local] Abbreviation hdr := (file_header blk cs minor blks sum).
#[local] Abbreviation image := (simg blk cs minor blks sum).
#[local] Abbreviation strm := (stream blk name hdr cap f0 cs).
#[local] Abbreviation T := (Z.of_nat (length image)).

Context (HT : T < 2 ^ 63).

Definition sparse_info (sta next disposed hdle : Z) : ImgBurnInfo :=
  mkInfo IMG_TYPE_SPARSE sta mt next T disposed pbase hdle name.

(** Before the first packet. *)
Record ready (w : world D) : Prop := {
  ready_good : good (dev w);
  ready_cap : capacity (dev w) name = cap;
  ready_part : forall a, contents (dev w) name a = f0 a;
  ready_map : buffers_mapped (wmem w);
  ready_fill : fill_ok (wmem w) (_filledBufValidLen w);
  ready_info : info w = sparse_info OPTIMUS_IMG_STA_PRE_BURN 0 0 0 }.

Inductive sparse_takes (w : world D) : bytes -> Prop :=
  | sparse_start : ready w -> sparse_takes w image
  | sparse_going flash pending : pending <> [] -> strm w flash pending 0 ->
      info w = sparse_info OPTIMUS_IMG_STA_BURN_ING (flash * 512) (T - Z.of_nat (length pending)) 1 -> sparse_takes w pending
  | sparse_over flash : strm w flash [] 0 -> info w = sparse_info OPTIMUS_IMG_STA_BURN_COMPLETE (flash * 512) T 1 -> sparse_takes w [].

(** Packets do not end inside the value of a fill chunk. *)
Definition sparse_ends (rest : Z) : Prop := no_split blk cs (all_len blk cs - rest) /\ rest mod 4 = 0.

Lemma mt_range : mt <= OPTIMUS_MEDIA_TYPE_STORE.
Proof.
  clear - Hmt; unfold is_store, OPTIMUS_MEDIA_TYPE_NAND, OPTIMUS_MEDIA_TYPE_SDMMC, OPTIMUS_MEDIA_TYPE_STORE in *; zbool; lia.
Qed.

Lemma base_with_info w seen i : base blk name hdr cap w seen -> storageMediaType i <= OPTIMUS_MEDIA_TYPE_STORE -> partName i = name ->
  base blk name hdr cap (with_info w i) seen.
Proof. by intros [? ? ? ? ? ? ? ? ? ?]; split. Qed.

Lemma stream_with_info w flash pending hl i : strm w flash pending hl -> storageMediaType i <= OPTIMUS_MEDIA_TYPE_STORE -> partName i = name ->
  strm (with_info w i) flash pending hl.
Proof.
  intros [seen todo E (B & Hx) Hf Hpe|seen res data todo k E (B & Hx) Hf Hpe] Ht Hn.
  - apply (stream_between _ _ _ _ _ _ _ _ _ _ seen todo); try done; by split; [apply base_with_info|].
  - apply (stream_inside _ _ _ _ _ _ _ _ _ _ seen res data todo k); try done; by split; [apply base_with_info|].
Qed.

Lemma ends_at_end : sparse_ends 0.
Proof.
  split; [|done]; intros c1 res v m c2 ->; unfold all_len; rewrite enc_all_app, length_app.
  change (enc_all blk (Fill res v m :: c2)) with (enc blk (Fill res v m) ++ enc_all blk c2); rewrite length_app.
  pose proof (enc_length blk (Fill res v m)) as El; cbn [payload] in El; rewrite le_length in El; lia.
Qed.

Lemma image_length : T = 28 + all_len blk cs.
Proof. unfold simg, all_len; rewrite length_app, file_header_length; lia. Qed.

(** The writes of a packet and the update of the state. *)
Lemma write_packet w p b rest flash :
  info w = sparse_info OPTIMUS_IMG_STA_BURN_ING (flash * 512) (T - Z.of_nat (length (b ++ rest))) 1 -> 0 <= flash < 2 ^ 31 ->
  Z.of_nat (length (b ++ rest)) <= T -> Z.of_nat (length b) < 2 ^ 31 -> b <> [] -> 65536 <= Z.of_nat (length b) \/ rest = [] ->
  Z.of_nat (length rest) mod 4 = 0 ->
  (exists r flash' w', optimus_simg_to_media device_boot_flag disk_inited p (Z.of_nat (length b)) 0 flash w = Some (flash' - flash, Z.of_nat (length r), w') /\
    frame name w w' /\ strm w' flash' (r ++ rest) 0 /\ left_over r rest /\ flash <= flash') ->
  exists r w',
    (n <- optimus_storage_write device_boot_flag disk_inited v2_key_burn (flash * 512) (Z.of_nat (length b)) p;
     let burnSz := s32 n in
     if burnSz =? 0 then
       _ <- optimus_storage_close;
       _ <- on_info (set_sta OPTIMUS_IMG_STA_BURN_FAILED);
       ret 0
     else
       _ <- on_info (fun i => set_disposed (u64 (imgSzDisposed i + burnSz)) i);
       r <- optimus_storage_close;
       ret (if negb (r =? 0) then 0 else u32 burnSz)) w = Some (Z.of_nat (length b) - Z.of_nat (length r), w') /\
    (forall a, a < INFO -> wmem w' !! a = wmem w !! a) /\ sparse_takes w' (r ++ rest) /\ left_over r rest /\
    Z.of_nat (length r) mod 4 = 0 /\ untouched name (dev w) (dev w').
Proof.
  intros Hi Hf HlT Hlb Hne Hbig H4 (r & flash' & w1 & Em & (Fm & Fi & Fo) & Hst & [Hr Hr0] & Hge).
  pose proof (stream_flash blk Hblk H512 name hdr (file_header_length _ _ _ _ _) cap f0 H40 cs Hcs _ _ _ _ Hst) as Hf'; pose proof mt_range as Hmr.
  assert (0 < length b)%nat as Hb0 by (destruct b; [done|cbn; lia]).
  assert (Z.of_nat (length r) < Z.of_nat (length b)) as Hrb by (destruct Hbig as [|Hx]; [lia|rewrite (Hr0 Hx); cbn; lia]).
  rewrite length_app, Nat2Z.inj_add in HlT; set (left_ := Z.of_nat (length (r ++ rest))).
  assert (0 <= left_ < T) as Hleft by (unfold left_; rewrite length_app; lia).
  set (sta := if left_ =? 0 then OPTIMUS_IMG_STA_BURN_COMPLETE else OPTIMUS_IMG_STA_BURN_ING).
  exists r, (with_info w1 (sparse_info sta (flash' * 512) (T - left_) 1)); split; [|split; [exact Fm|split; [|split; [done|split; [|exact Fo]]]]].
  - assert (optimus_storage_write device_boot_flag disk_inited v2_key_burn (flash * 512) (Z.of_nat (length b)) p w =
      Some (Z.of_nat (length b) - Z.of_nat (length r), with_info w1 (set_next (flash' * 512) (info w)))) as Ew.
    { unfold optimus_storage_write; erewrite bind_some by reflexivity; rewrite Hi; cbn [imgBurnSta sparse_info storageMediaType imgType]; rewrite Hmt.
      cbn [Z.eqb Pos.eqb negb OPTIMUS_IMG_STA_BURN_ING IMG_TYPE_SPARSE IMG_TYPE_NORMAL IMG_TYPE_BOOTLOADER].
      unfold optimus_download_sparse_image; erewrite bind_some by reflexivity; rewrite Hi; cbn [nextMediaOffset sparse_info].
      rewrite Z.shiftr_div_pow2, Z.div_mul, wrap_small by lia; erewrite bind_some by exact Em; cbv beta iota.
      rewrite (proj2 (Z.ltb_ge (flash' - flash) 0)) by lia; erewrite bind_some by reflexivity; unfold ret; rewrite Fi, Hi.
      cbn [nextMediaOffset sparse_info]; rewrite Z.shiftl_mul_pow2 by lia; change (2 ^ 9) with 512.
      rewrite !wrap_small by lia; replace (flash * 512 + (flash' - flash) * 512) with (flash' * 512) by lia; done. }
    erewrite bind_some by exact Ew; cbv zeta; rewrite s32_small, (proj2 (Z.eqb_neq (_ - _) 0)) by lia; erewrite bind_some by reflexivity.
    rewrite Hi; cbn [with_info info sparse_info set_next set_disposed imgSzDisposed imgType imgBurnSta storageMediaType nextMediaOffset imgPktSz partBaseOffset devHdle partName].
    replace (u64 (T - Z.of_nat (length (b ++ rest)) + (Z.of_nat (length b) - Z.of_nat (length r)))) with (T - left_)
      by (unfold left_; rewrite wrap_small; rewrite !length_app; lia).
    rewrite (wrap_small 32 (_ - _)) by lia; unfold optimus_storage_close; unfold bind at 1; erewrite bind_some by reflexivity.
    cbn [info set_disposed set_next sparse_info imgSzDisposed imgPktSz imgBurnSta imgType storageMediaType nextMediaOffset partBaseOffset devHdle partName]; unfold sta; destruct (Z.eqb_spec left_ 0) as [E0|E0].
    + rewrite (proj2 (Z.eqb_eq (T - left_) T)) by lia; done.
    + rewrite (proj2 (Z.eqb_neq (T - left_) T)) by lia; cbn [andb]; rewrite andb_false_r; done.
  - unfold sta; destruct (Z.eqb_spec left_ 0) as [E0|E0].
    + assert (r ++ rest = []) as En by (apply nil_length_inv; unfold left_ in E0; lia); rewrite En in *; rewrite E0, Z.sub_0_r.
      apply (sparse_over _ flash'); [by apply stream_with_info|done].
    + apply (sparse_going _ flash'); [intros En; apply E0; unfold left_; by rewrite En|by apply stream_with_info|done].
  - pose proof (stream_4 blk Hblk H512 name hdr (file_header_length _ _ _ _ _) cap f0 cs Hcs _ _ _ _ Hst) as H4'.
    rewrite length_app, Nat2Z.inj_add, Z.add_mod, H4, Z.add_0_r, Z.mod_mod in H4' by lia; done.
Qed.

(** Opening the storage for the first packet. *)
Lemma open_first w p len : ready w -> bytes_at (wmem w) p hdr -> 28 <= len -> p + 28 <= INFO ->
  exists w', optimus_storage_open p len w = Some (0, w') /\ info w' = sparse_info OPTIMUS_IMG_STA_BURN_ING 0 0 1 /\
    (forall a, a < INFO -> wmem w' !! a = wmem w !! a) /\ dev w' = dev w /\ between blk name hdr cap f0 w' [] cs 28.
Proof.
  intros [Hg Hc Hp Hm Hf Hi] Hat Hlen Hp28; unfold optimus_storage_open; erewrite bind_some by reflexivity; rewrite Hi.
  cbn [sparse_info imgSzDisposed imgBurnSta storageMediaType imgType devHdle Z.eqb OPTIMUS_IMG_STA_PRE_BURN Pos.eqb andb negb].
  erewrite bind_some by reflexivity; rewrite Hmt; change (negb (IMG_TYPE_BOOTLOADER =? IMG_TYPE_SPARSE) && true) with true; cbv iota.
  erewrite bind_some by reflexivity; rewrite Z.eqb_refl.
  set (w1 := World (wmem w) (dev w) (sparse_info OPTIMUS_IMG_STA_BURN_ING 0 0 1) (sp w) (_filledBufValidLen w) (_dtb_is_loaded w)).
  assert (mapped (wmem w) INFO 28) as H28 by (apply (mapped_sub _ LOW (Z.to_nat (FBUF + SLOT - LOW))); [exact Hm|layout..]).
  pose proof (probe_ok blk cs minor blks sum w1 p Hat len Hlen) as Ep.
  pose proof (init_ok blk cs minor blks sum w1 p Hat Hblk) as Ei; destruct Hcs as (Fc & Hh & Hs).
  unfold heads_fit, OPTIMUS_DOWNLOAD_SPS_VERIFY_BACK_INFO_SZ in Hh; specialize (Ei ltac:(lia) H28 Hp28).
  eexists; split; [rewrite Hi; erewrite bind_some by exact Ep; cbn [Z.eqb]; exact Ei|]; split; [done|]; split.
  - intros a Ha; cbn; rewrite lookup_write_bytes, decide_False; [done|lia].
  - split; [done|]; split; [|done]; pose proof mt_range; split; cbn; try done.
    + by rewrite app_nil_r; apply bytes_at_write.
    + by apply mapped_write.
    + destruct Hf as (Hv & Hv4 & [E0|(v & Hv0 & Hb)]); (split; [done|split; [done|]]); [by left|right; exists v; split; [done|]].
      apply bytes_at_write_other; [done|left]; rewrite file_header_length; layout.
Qed.

Lemma open_next (w : world D) p len flash disposed : info w = sparse_info OPTIMUS_IMG_STA_BURN_ING flash disposed 1 ->
  optimus_storage_open p len w = Some (0, w).
Proof.
  intros Hi; unfold optimus_storage_open; erewrite bind_some by reflexivity; rewrite Hi; cbn [sparse_info imgSzDisposed imgPktSz imgBurnSta storageMediaType imgType devHdle].
  change (OPTIMUS_IMG_STA_PRE_BURN =? OPTIMUS_IMG_STA_BURN_ING) with false; change (OPTIMUS_IMG_STA_BURN_COMPLETE =? OPTIMUS_IMG_STA_BURN_ING) with false.
  rewrite !andb_false_r; erewrite bind_some by reflexivity; by rewrite Hmt.
Qed.

#[export] Program Instance sparse_consumer : Consumer device_boot_flag disk_inited v2_key_burn name image sparse_takes sparse_ends.
Next Obligation.
  intros w p b rest Ht Hne Hbig Hat Hlow Hinfo Hends; pose proof (file_header_length blk cs minor blks sum) as Hh.
  assert (sparse_ends (Z.of_nat (length rest))) as [Hns H4] by (destruct Hends as [->|He]; [apply ends_at_end|exact He]).
  pose proof image_length as HTl; assert (Z.of_nat (length b) < 2 ^ 31) as Hb31 by layout.
  unfold optimus_download_img_data, optimus_func_download_image; erewrite bind_some by reflexivity; inversion Ht as [Hrd E|flash pending Hpe Hst Hi E|flash Hst Hi E].
  - assert (28 <= length b)%nat as H28.
    { destruct Hbig as [?| ->]; [lia|]; rewrite app_nil_r in E; subst b; unfold simg; rewrite length_app; lia. }
    assert (exists b1, b = hdr ++ b1 /\ b1 ++ rest = enc_all blk cs) as (b1 & -> & Eb1).
    { unfold simg in E; symmetry in E; apply app_eq_inv in E as [(k & -> & Ek)|(k & Eh & ->)]; [by exists k|].
      exists []; rewrite Eh, length_app in Hh; destruct k; [|cbn in Hh; lia]; rewrite app_nil_r in Eh; by rewrite app_nil_r, Eh. }
    destruct (open_first w p (Z.of_nat (length (hdr ++ b1)))) as (w1 & Eo & Hi1 & Fm & Ed & Hbt); try done; try lia.
    { by apply bytes_at_app in Hat as [? _]. }
    rewrite (ready_info w Hrd); cbn [nextMediaOffset sparse_info]; erewrite bind_some by exact Eo; cbn [Z.eqb OPT_DOWN_OK negb].
    destruct (write_packet w1 p (hdr ++ b1) rest 0) as (r & w' & Ew & Fm' & Hx & Hlo & Hr4 & Ho); try done; try lia.
    + by rewrite Hi1, <- E; rewrite Z.sub_diag.
    + by rewrite <- E.
    + apply (to_media_between device_boot_flag disk_inited blk Hblk H512 name hdr Hh cap f0 H40 Herased cs Hcs w1 [] cs 28 hdr p b1 rest 0); try done.
      intros i x Hix; rewrite Fm by (pose proof (lookup_lt_Some _ _ _ Hix); lia); by apply Hat.
    + exists r, w'; split; [exact Ew|]; split; [intros a Ha; by rewrite Fm', Fm|]; rewrite Ed in Ho; done.
  - rewrite Hi; cbn [nextMediaOffset sparse_info]; erewrite bind_some by (by eapply open_next); cbn [Z.eqb OPT_DOWN_OK negb].
    pose proof (stream_flash blk Hblk H512 name hdr Hh cap f0 H40 cs Hcs _ _ _ _ Hst) as Hf; subst pending.
    apply write_packet; try done; [|by apply (to_media_stream device_boot_flag disk_inited blk Hblk H512 name hdr Hh cap f0 H40 Herased cs Hcs)].
    pose proof (stream_pending blk name hdr Hh cap f0 cs _ _ _ _ Hst); lia.
  - symmetry in E; by apply app_eq_nil in E as [-> _].
Qed.
Next Obligation.
  assert (forall w flash pending, strm w flash pending 0 -> exists sent, image = sent ++ pending) as Hst.
  { unfold simg; intros w flash pending [seen todo Ec _ _ ->|seen res data todo k Ec _ _ ->]; rewrite Ec, enc_all_app.
    - exists (file_header blk (seen ++ todo) minor blks sum ++ enc_all blk seen); by rewrite app_assoc.
    - exists (file_header blk (seen ++ Raw res data :: todo) minor blks sum ++ enc_all blk seen ++ head blk (Raw res data) ++ take (Z.to_nat k) data).
      change (enc_all blk (Raw res data :: todo)) with ((head blk (Raw res data) ++ data) ++ enc_all blk todo).
      rewrite <- !app_assoc, (app_assoc (take _ _)), take_drop; done. }
  intros w pending [Hr|flash pe _ Hs _|flash Hs _]; [by exists []|by apply (Hst w flash)..].
Qed.
Next Obligation.
  intros w pending [Hr|flash pe _ Hst _|flash Hst _]; [split; apply Hr|..]; destruct Hst as [seen todo _ [B _] _ _|seen res data todo k _ [B _] _ _]; split; apply B.
Qed.
Next Obligation.
  intros w pending [Hr|flash pe _ Hst _|flash Hst _]; [apply Hr|..]; destruct Hst as [seen todo _ [B _] _ _|seen res data todo k _ [B _] _ _]; apply B.
Qed.
Next Obligation.
  intros w pending m [[Hg Hc Hp Hm Hf Hi]|flash pe Hne Hst Hi|flash Hst Hi] Hmm He.
  - constructor 1; split; try done; by eapply fill_ok_mem.
  - apply (sparse_going _ flash); [done|by apply (stream_with_mem blk name hdr (file_header_length _ _ _ _ _))|done].
  - apply (sparse_over _ flash); [by apply (stream_with_mem blk name hdr (file_header_length _ _ _ _ _))|done].
Qed.
End sparse.

(** ** Plain images *)

Section normal.
Context {D : Type} `{HS : StorageSpec D} (device_boot_flag disk_inited : Z) (v2_key_burn : bytes -> Z -> Z -> M D Z).
Context (name image : bytes) (Fimg : Forall byte_ok image) (cap : Z) (f0 : Z -> Z) (mt pbase : Z) (Hmt : is_store mt = true).
Context (Hcap : Z.of_nat (length image) <= cap) (H40 : cap < 2 ^ 40).

Definition normal_info (sta sent hdle : Z) : ImgBurnInfo :=
  mkInfo IMG_TYPE_NORMAL sta mt sent (Z.of_nat (length image)) sent pbase hdle name.

Definition normal_sta (sent pending : bytes) : Z :=
  match sent, pending with
  | [], _ => OPTIMUS_IMG_STA_PRE_BURN
  | _, [] => OPTIMUS_IMG_STA_BURN_COMPLETE
  | _, _ => OPTIMUS_IMG_STA_BURN_ING
  end.

(** The bytes sent are in the partition. *)
Record normal_state (w : world D) (sent pending : bytes) : Prop := {
  normal_image : image = sent ++ pending;
  normal_good : good (dev w);
  normal_cap : capacity (dev w) name = cap;
  normal_part : forall a, contents (dev w) name a = put f0 0 sent a;
  normal_map : buffers_mapped (wmem w);
  normal_fill : fill_ok (wmem w) (_filledBufValidLen w);
  normal_align : pending = [] \/ Z.of_nat (length sent) mod 512 = 0;
  normal_is : info w = normal_info (normal_sta sent pending) (Z.of_nat (length sent)) (if sent is [] then 0 else 1) }.

Definition normal_takes (w : world D) (pending : bytes) : Prop := exists sent, normal_state w sent pending.
Definition normal_ends (rest : Z) : Prop := (Z.of_nat (length image) - rest) mod 512 = 0.

Lemma normal_open (w : world D) p len sent pending : normal_state w sent pending -> pending <> [] ->
  optimus_storage_open p len w = Some (0, with_info w (normal_info OPTIMUS_IMG_STA_BURN_ING (Z.of_nat (length sent)) 1)).
Proof.
  intros [_ _ _ _ _ _ _ Hi] Hne; unfold optimus_storage_open; erewrite bind_some by reflexivity; rewrite Hi.
  destruct sent as [|x sent]; cbn [normal_info normal_sta imgSzDisposed imgPktSz imgBurnSta storageMediaType imgType devHdle].
  - cbn [length Z.of_nat Z.eqb OPTIMUS_IMG_STA_PRE_BURN Pos.eqb andb]; erewrite bind_some by reflexivity; rewrite Hmt.
    change (negb (IMG_TYPE_BOOTLOADER =? IMG_TYPE_NORMAL) && true) with true; cbv iota; erewrite bind_some by reflexivity; cbn [info]; by rewrite Hi.
  - destruct pending as [|y pending]; [done|]; change (OPTIMUS_IMG_STA_PRE_BURN =? OPTIMUS_IMG_STA_BURN_ING) with false.
    change (OPTIMUS_IMG_STA_BURN_COMPLETE =? OPTIMUS_IMG_STA_BURN_ING) with false; rewrite !andb_false_r; erewrite bind_some by reflexivity; rewrite Hmt.
    change (negb (IMG_TYPE_BOOTLOADER =? IMG_TYPE_NORMAL) && (1 =? 0)) with false; unfold ret, with_info; do 2 f_equal; destruct w as [m d i s f t]; cbn in Hi |- *; by rewrite Hi.
Qed.

(** The write of a packet. *)
Lemma normal_write w p b rest sent : normal_state w sent (b ++ rest) -> b <> [] -> bytes_at (wmem w) p b -> p <> 0 ->
  exists d, store_write_ops name p (Z.of_nat (length sent)) (Z.of_nat (length b)) (with_info w (normal_info OPTIMUS_IMG_STA_BURN_ING (Z.of_nat (length sent)) 1)) =
      Some (0, World (wmem w) d (normal_info OPTIMUS_IMG_STA_BURN_ING (Z.of_nat (length sent)) 1) (sp w) (_filledBufValidLen w) (_dtb_is_loaded w)) /\
    good d /\ capacity d name = cap /\ (forall a, contents d name a = put f0 0 (sent ++ b) a) /\
    untouched name (dev w) d.
Proof.
  intros [E Hg Hc Hp _ _ Ha _] Hne Hat Hp0; set (w1 := with_info w _).
  assert (Forall byte_ok b) as Fb by (clear - E Fimg; rewrite E, !Forall_app in Fimg; tauto).
  assert (Z.of_nat (length sent) mod 512 = 0) as Hal by (destruct Ha as [Ha|]; [by apply app_eq_nil in Ha as [-> _]|done]).
  assert (Z.of_nat (length sent) + Z.of_nat (length b) <= cap) as Hle by (rewrite E, !length_app in Hcap; lia).
  destruct (store_write_ok w1 name p (Z.of_nat (length sent)) b) as (d & Ew & (Hw & Hoth & Hgd)); try done; try lia.
  { cbn; rewrite Hc; lia. }
  exists d; split; [exact Ew|]; split; [done|]; split; [rewrite (proj1 (proj2 Hoth name)); exact Hc|]; split; [|exact Hoth]; intros a; rewrite Hw; cbn.
  rewrite <- put_app; rewrite Z.add_0_l; apply put_ext; exact Hp.
Qed.

#[export] Program Instance normal_consumer : Consumer device_boot_flag disk_inited v2_key_burn name image normal_takes normal_ends.
Next Obligation.
  intros w p b rest [sent Hst] Hne _ Hat Hlow Hinfo Hends; exists [].
  assert (0 < length b)%nat as Hb0 by (destruct b; [done|cbn; lia]); assert (p <> 0) as Hp0 by layout.
  assert (b ++ rest <> []) as Hpe by (intros [-> _]%app_eq_nil; done).
  destruct (normal_write w p b rest sent Hst Hne Hat Hp0) as (d & Ew & Hg & Hc & Hp & Ho); pose proof Hst as [E _ _ _ Hm Hf Ha Hi].
  assert (Z.of_nat (length image) = Z.of_nat (length sent) + Z.of_nat (length b) + Z.of_nat (length rest)) as Hlen by (rewrite E, !length_app; lia).
  set (sta := if Z.of_nat (length rest) =? 0 then OPTIMUS_IMG_STA_BURN_COMPLETE else OPTIMUS_IMG_STA_BURN_ING).
  exists (World (wmem w) d (normal_info sta (Z.of_nat (length (sent ++ b))) 1) (sp w) (_filledBufValidLen w) (_dtb_is_loaded w)); split; [|split; [done|split; [|split; [by split|by split]]]].
  - unfold optimus_download_img_data, optimus_func_download_image; erewrite bind_some by reflexivity.
    erewrite bind_some by (eapply normal_open; [exact Hst|exact Hpe]); cbn [Z.eqb OPT_DOWN_OK negb]; rewrite Hi; cbn [nextMediaOffset normal_info].
    assert (optimus_storage_write device_boot_flag disk_inited v2_key_burn (Z.of_nat (length sent)) (Z.of_nat (length b)) p
        (with_info w (normal_info OPTIMUS_IMG_STA_BURN_ING (Z.of_nat (length sent)) 1)) =
      Some (Z.of_nat (length b), World (wmem w) d (set_next (Z.of_nat (length (sent ++ b))) (normal_info OPTIMUS_IMG_STA_BURN_ING (Z.of_nat (length sent)) 1))
        (sp w) (_filledBufValidLen w) (_dtb_is_loaded w))) as Es.
    { unfold optimus_storage_write; erewrite bind_some by reflexivity; cbn [with_info info imgBurnSta normal_info storageMediaType imgType]; rewrite Hmt.
      change (negb (OPTIMUS_IMG_STA_BURN_ING =? OPTIMUS_IMG_STA_BURN_ING)) with false; cbn [Z.eqb IMG_TYPE_NORMAL]; unfold optimus_download_normal_image.
      erewrite bind_some by reflexivity; cbn [with_info info partName nextMediaOffset normal_info]; erewrite bind_some by exact Ew; cbn [Z.eqb negb].
      erewrite bind_some by reflexivity; cbn [info nextMediaOffset normal_info]; rewrite wrap_small by lia; rewrite length_app, Nat2Z.inj_add; done. }
    erewrite bind_some by exact Es; cbv zeta; rewrite s32_small, (proj2 (Z.eqb_neq (Z.of_nat (length b)) 0)) by layout; erewrite bind_some by reflexivity.
    cbn [info imgSzDisposed set_next normal_info]; replace (u64 (Z.of_nat (length sent) + Z.of_nat (length b))) with (Z.of_nat (length (sent ++ b))) by (rewrite wrap_small; rewrite ?length_app; lia).
    rewrite (wrap_small 32 (Z.of_nat (length b))) by layout; unfold optimus_storage_close; unfold bind at 1; erewrite bind_some by reflexivity.
    cbn [info set_disposed set_next normal_info imgSzDisposed imgPktSz imgBurnSta imgType storageMediaType nextMediaOffset partBaseOffset devHdle partName].
    unfold sta; rewrite Z.sub_0_r; destruct (Z.eqb_spec (Z.of_nat (length rest)) 0) as [E0|E0].
    + rewrite (proj2 (Z.eqb_eq (Z.of_nat (length (sent ++ b))) _)) by (rewrite length_app; lia); done.
    + rewrite (proj2 (Z.eqb_neq (Z.of_nat (length (sent ++ b))) (Z.of_nat (length image)))) by (rewrite length_app; lia); cbn [andb]; rewrite andb_false_r; done.
  - exists (sent ++ b); split; cbn; try done; [by rewrite <- app_assoc| |].
    + destruct Hends as [->|He]; [by left|right]; unfold normal_ends in He; rewrite length_app; rewrite <- He; f_equal; lia.
    + unfold sta; destruct sent; [destruct b; [done|]|]; destruct rest; done.
Qed.
Next Obligation. intros w pending [sent []]; by exists sent. Qed.
Next Obligation. by intros w pending [sent []]. Qed.
Next Obligation. by intros w pending [sent []]. Qed.
Next Obligation. intros w pending m [sent []] Hm He; exists sent; split; try done; by eapply fill_ok_mem. Qed.
End normal.

End Download.
