(* ===== verification/BufManager.v ===== *)
(** * The buffer between receiving and writing
    (drivers/usb/gadget/v2_burning/v2_common/optimus_buffer_manager.c,
    v2_sdc_burn/optimus_sdc_burn.c, v2_sdc_burn/optimus_sdc_update.c)

    An image arrives in slots of 64 KB, over USB or from a file on a card.  The
    buffer manager gives out the place for each slot in the transfer buffer;
    when a write-back unit is full, or the image ends, it hands the buffer to
    the download code, and moves what that has not used in front of the buffer
    for the next round.

    [BufManager] is the static [_bufManager] without its constants; the place
    from which slots come is a class. *)

From S2P Require Import Prelude CString Burn Sparse Download.

Module BufManager.
Import CString Burn Sparse Download.
#[local] Open Scope burn_scope.

Definition PKT_TRANSFER_STA_EMPTY : Z := 0.
Definition PKT_TRANSFER_STA_WORKING : Z := 1.
Definition PKT_TRANSFER_STA_END : Z := 2.

Record BufManager := mkBm {
  writeBackUnitSz : Z;
  tplcmdTotalSz : Z;
  totalSlotNum : Z;
  nextWriteBackSlot : Z;
  leftDataSz : Z;
  isUpload : Z;
  pktTransferSta : Z;
  destMediaType : Z;
  bm_partBaseOffset : Z;
  itemOffsetNotAlignClusterSz_f : Z }.

Definition transferUnitSz : Z := OPTIMUS_DOWNLOAD_SLOT_SZ.
Definition transferBufSz : Z := OPTIMUS_DOWNLOAD_TRANSFER_BUF_TOTALSZ.
Definition transferBuf : Z := OPTIMUS_DOWNLOAD_TRANSFER_BUF_ADDR.

Definition set_pktsta (v : Z) (b : BufManager) : BufManager :=
  mkBm (writeBackUnitSz b) (tplcmdTotalSz b) (totalSlotNum b) (nextWriteBackSlot b) (leftDataSz b) (isUpload b) v (destMediaType b) (bm_partBaseOffset b) (itemOffsetNotAlignClusterSz_f b).
Definition set_slots (v : Z) (b : BufManager) : BufManager :=
  mkBm (writeBackUnitSz b) (tplcmdTotalSz b) v (nextWriteBackSlot b) (leftDataSz b) (isUpload b) (pktTransferSta b) (destMediaType b) (bm_partBaseOffset b) (itemOffsetNotAlignClusterSz_f b).
Definition set_round (next left_ : Z) (b : BufManager) : BufManager :=
  mkBm (writeBackUnitSz b) (tplcmdTotalSz b) (totalSlotNum b) next left_ (isUpload b) (pktTransferSta b) (destMediaType b) (bm_partBaseOffset b) (itemOffsetNotAlignClusterSz_f b).
Definition set_dest (v base : Z) (b : BufManager) : BufManager :=
  mkBm (writeBackUnitSz b) (tplcmdTotalSz b) (totalSlotNum b) (nextWriteBackSlot b) (leftDataSz b) (isUpload b) (pktTransferSta b) v base (itemOffsetNotAlignClusterSz_f b).

(** Rounding up to whole slots, on 32 bits. *)
Definition round_slots (sz : Z) : Z :=
  u32 (Z.shiftl (Z.shiftr (u32 (sz + transferUnitSz - 1)) OPTIMUS_DOWNLOAD_SLOT_SZ_SHIFT_BITS) OPTIMUS_DOWNLOAD_SLOT_SZ_SHIFT_BITS).

(** The return value and the buffer manager. *)
Definition optimus_buf_manager_tplcmd_init (b : BufManager) (mediaType name : bytes) (base : Z) (type : bytes) (pktTotalSz upload itemSizeNotAligned : Z) :
  Z * BufManager :=
  let pktSz4BufManager := u64 (pktTotalSz - itemSizeNotAligned) in
  let wb := if same (str "sparse") type || negb (itemSizeNotAligned =? 0) then OPTIMUS_SIMG_WRITE_BACK_SZ else OPTIMUS_VFAT_IMG_WRITE_BACK_SZ in
  let mem_ := same (str "mem") mediaType in
  if same (str "bootloader") name && (transferBufSz <? pktSz4BufManager) then (OPT_DOWN_FAIL, b)
  else
    let wb := if same (str "bootloader") name then round_slots pktSz4BufManager else wb in
    let b := set_dest OPTIMUS_MEDIA_TYPE_STORE (bm_partBaseOffset b) b in
    let wb := if mem_ then round_slots pktSz4BufManager else wb in
    if mem_ && negb (Z.shiftr base 32 =? 0) then (OPT_DOWN_FAIL, set_dest OPTIMUS_MEDIA_TYPE_MEM (bm_partBaseOffset b) b)
    else
      let b := if mem_ then set_dest OPTIMUS_MEDIA_TYPE_MEM (u32 base) b else b in
      if (transferBufSz <? wb) && negb mem_ then (OPT_DOWN_FAIL, b)
      else if wb <? transferUnitSz then (OPT_DOWN_FAIL, b)
      else
        let next :=
          if negb (upload =? 0) then 0
          else if pktSz4BufManager <? wb then u32 (u32 pktSz4BufManager + transferUnitSz - 1) / transferUnitSz
          else wb / transferUnitSz in
        (OPT_DOWN_OK, mkBm wb pktSz4BufManager 0 next itemSizeNotAligned upload PKT_TRANSFER_STA_EMPTY (destMediaType b) (bm_partBaseOffset b) itemSizeNotAligned).

(** [BufBase] *)
Definition buf_base (b : BufManager) : Z :=
  if negb (OPTIMUS_MEDIA_TYPE_MEM =? destMediaType b) then transferBuf else bm_partBaseOffset b.

(** [leftPktSz] *)
Definition left_pkt (b : BufManager) (totalTransferSz : Z) : Z :=
  if tplcmdTotalSz b <? totalTransferSz then 0 else tplcmdTotalSz b - totalTransferSz.

(** An item of a package.  [image_item_read] reads a number of bytes to an
    address: the return value and the item afterwards. *)
Class Item (D I : Type) := { image_item_read : I -> Z -> Z -> Burn.M D (Z * I) }.

Section code.
Context {D : Type} `{Storage D} (device_boot_flag disk_inited : Z).
#[local] Abbreviation M := (Burn.M D).
Context (v2_key_burn v2_key_read : bytes -> Z -> Z -> M Z).

(** The return value, [*pBuf] and the buffer manager. *)
Definition optimus_buf_manager_get_buf_for_bulk_transfer (b : BufManager) (wantSz sequenceNo : Z) : M (Z * Z * BufManager) :=
  let totalTransferSz := u64 (totalSlotNum b * transferUnitSz) in
  let leftPktSz := left_pkt b totalTransferSz in
  let isLastTransfer := leftPktSz =? wantSz in
  let bufSzNotDisposed := u32 totalTransferSz mod writeBackUnitSz b in
  if (wantSz <? transferUnitSz) && negb isLastTransfer then ret (OPT_DOWN_FAIL, 0, b)
  else
    let pBuf := bufSzNotDisposed + buf_base b in
    let b := set_pktsta PKT_TRANSFER_STA_WORKING b in
    if (bufSzNotDisposed =? 0) && negb (isUpload b =? 0) then
      let wantSz := if writeBackUnitSz b <? leftPktSz then writeBackUnitSz b else u32 leftPktSz in
      readSz <- optimus_dump_storage_data v2_key_read (buf_base b) wantSz;
      ret (if negb (readSz =? wantSz) then OPT_DOWN_FAIL else OPT_DOWN_OK, pBuf, b)
    else ret (OPT_DOWN_OK, pBuf, b).

(** Handing the buffer to the download code: an error, or the data left. *)
Definition write_back (b : BufManager) (size totalTransferSz leftPktSz : Z) : M (option Z) :=
  let data := buf_base b - leftDataSz b in
  let reserveNotAlignSz := if negb (leftPktSz =? 0) then itemOffsetNotAlignClusterSz_f b else 0 in
  burnSz <- optimus_download_img_data device_boot_flag disk_inited v2_key_burn data (u32 (size - reserveNotAlignSz));
  if (burnSz <=? leftDataSz b) || (burnSz =? 0) then ret None
  else if u32 (size - reserveNotAlignSz) <? burnSz then ret None
  else
    let leftSz := u32 (size - burnSz) in
    if negb (leftSz =? 0) then
      if tplcmdTotalSz b <=? totalTransferSz then ret None
      else if OPTIMUS_SPARSE_IMG_LEFT_DATA_MAX_SZ <? leftSz then ret None
      else if negb (Z.land leftSz 3 =? 0) then ret None
      else
        _ <- copy (buf_base b - leftSz) (data + burnSz) leftSz;
        ret (Some leftSz)
    else ret (Some leftSz).

(** The return value and the buffer manager. *)
Definition optimus_buf_manager_report_transfer_complete (b : BufManager) (transferSz : Z) : M (Z * BufManager) :=
  let totalTransferSz := u64 (totalSlotNum b * transferUnitSz + transferSz) in
  let leftPktSz := left_pkt b totalTransferSz in
  let thisWriteBackSz := if transferUnitSz =? transferSz then writeBackUnitSz b else u32 totalTransferSz mod writeBackUnitSz b in
  let b := set_slots (u32 (totalSlotNum b + 1)) b in
  if totalSlotNum b =? nextWriteBackSlot b then
    r <- write_back b (u32 (leftDataSz b + thisWriteBackSz)) totalTransferSz leftPktSz;
    match r with
    | None => ret (OPT_DOWN_FAIL, b)
    | Some leftSz =>
        let next :=
          if writeBackUnitSz b <=? leftPktSz then u32 (nextWriteBackSlot b + writeBackUnitSz b / transferUnitSz)
          else u32 (nextWriteBackSlot b + u32 (u32 leftPktSz + transferUnitSz - 1) / transferUnitSz) in
        ret (OPT_DOWN_OK, set_round next leftSz b)
    end
  else ret (OPT_DOWN_OK, b).

Definition is_largest_data_transferring (b : BufManager) : bool :=
  let totalTransferSz := u64 (totalSlotNum b * transferUnitSz) in
  (PKT_TRANSFER_STA_WORKING =? pktTransferSta b) && (totalTransferSz <? tplcmdTotalSz b).

Definition set_largest_data_transfer_sta_end (b : BufManager) : Z * BufManager := (0, set_pktsta PKT_TRANSFER_STA_END b).

(** The call of [memset] has its last two arguments swapped and sets nothing. *)
Definition optimus_buf_manager_get_command_data_for_upload_transfer (b : BufManager) (cmdDataBuf bufLen : Z) : M (Z * BufManager) :=
  let totalTransferSz := u64 (totalSlotNum b * transferUnitSz) in
  let leftPktSz := left_pkt b totalTransferSz in
  let thisTransDataLen := if transferUnitSz <? leftPktSz then transferUnitSz else u32 leftPktSz in
  _ <- on_mem (fun m => '(_, m) ← memset m cmdDataBuf bufLen 0; Some m);
  _ <- on_mem (fun m => store_le 4 m cmdDataBuf 0xefe8);
  _ <- on_mem (fun m => store_le 4 m (cmdDataBuf + 4) thisTransDataLen);
  ret (0, set_pktsta PKT_TRANSFER_STA_WORKING b).

(** ** Burning a file of a package *)

Context {I : Type} `{Item D I}.

(** The loop of [optimus_burn_one_partition]: the return value. *)
Fixpoint burn_loop (fuel : nat) (b : BufManager) (item : I) (leftItemSz sequenceNo itemSizeNotAligned : Z) : M (Z * I * BufManager) :=
  if 0 <? leftItemSz then
    match fuel with
    | O => fault
    | S fuel' =>
        let thisReadLen := if OPTIMUS_DOWNLOAD_SLOT_SZ <? leftItemSz then OPTIMUS_DOWNLOAD_SLOT_SZ else leftItemSz in
        '(r, downTransBuf, b) <- optimus_buf_manager_get_buf_for_bulk_transfer b thisReadLen sequenceNo;
        if negb (r =? 0) then ret (r, item, b)
        else
          '(r, item) <- (if negb (itemSizeNotAligned =? 0) && (sequenceNo =? 0)
                         then image_item_read item (downTransBuf - itemSizeNotAligned) itemSizeNotAligned else ret (0, item));
          if negb (r =? 0) then ret (r, item, b)
          else
            '(r, item) <- image_item_read item downTransBuf thisReadLen;
            if negb (r =? 0) then ret (r, item, b)
            else
              '(r, b) <- optimus_buf_manager_report_transfer_complete b thisReadLen;
              if negb (r =? 0) then ret (r, item, b)
              else burn_loop fuel' b item (leftItemSz - thisReadLen) (u32 (sequenceNo + 1)) itemSizeNotAligned
    end
  else ret (0, item, b).

Definition slots (n : Z) : nat := Z.to_nat ((n + OPTIMUS_DOWNLOAD_SLOT_SZ - 1) / OPTIMUS_DOWNLOAD_SLOT_SZ).

Definition storage_get_partition_size_in_byte (name : bytes) : M Z :=
  s <- store_get_partititon_size name;
  ret (match s with None => 0 | Some s => s64 (Z.shiftl s 9) end).

Definition sdc_burn_buf_manager_init (part_table : list partition) (b : BufManager) (name : bytes) (imgItemSz : Z) (fileFmt : bytes) (itemSizeNotAligned : Z) :
  M (Z * BufManager) :=
  cap <- (if negb (same (str "bootloader") name) then storage_get_partition_size_in_byte name else ret imgItemSz);
  if negb (same (str "bootloader") name) && ((cap <? imgItemSz) || (cap =? 0)) then ret (128, b)
  else
    r <- optimus_parse_img_download_info part_table name (u64 imgItemSz) fileFmt (str "store") 0;
    if negb (r =? 0) then ret (135, b)
    else
      let '(r, b) := optimus_buf_manager_tplcmd_init b (str "store") name 0 fileFmt (u64 imgItemSz) 0 itemSizeNotAligned in
      ret (if negb (r =? 0) then 140 else r, b).

(** [optimus_burn_one_partition] for an item of [imgItemSz] bytes in the format
    [fileFmt], up to the verification. *)
Definition burn_item (part_table : list partition) (b : BufManager) (name : bytes) (item : I) (imgItemSz : Z) (fileFmt : bytes) (itemSizeNotAligned : Z) :
  M (Z * I * BufManager) :=
  if imgItemSz =? 0 then ret (148, item, b)
  else
    '(r, b) <- sdc_burn_buf_manager_init part_table b name imgItemSz fileFmt itemSizeNotAligned;
    if negb (r =? 0) then ret (158, item, b)
    else
      let leftItemSz := imgItemSz - itemSizeNotAligned in
      burn_loop (slots leftItemSz) b item leftItemSz 0 itemSizeNotAligned.
End code.

(** ** The slots reach the partition *)

(** A source that delivers the bytes [l].  Its position [phase] has to meet the
    address it is read to at the boundaries of sectors, unless the bytes are
    [inside] of what the source has in a buffer. *)
Class ItemSpec (D I : Type) `{Item D I} := {
  delivers : I -> bytes -> Prop;
  phase : I -> Z;
  inside : I -> Z -> Prop;
  delivers_bytes : forall item l, delivers item l -> Forall byte_ok l;
  read_item : forall (w : world D) item p a l, delivers item (a ++ l) -> a <> [] -> mapped (wmem w) p (length a) ->
    (p - phase item) mod 512 = 0 \/ inside item (Z.of_nat (length a)) ->
    exists item', image_item_read item p (Z.of_nat (length a)) w = Some (0, item', with_mem w (write_bytes (wmem w) p a)) /\
      delivers item' l /\ phase item' = phase item + Z.of_nat (length a) }.

Abbreviation BUF := OPTIMUS_DOWNLOAD_TRANSFER_BUF_ADDR.

(** Taking a remainder of 32 bits first changes nothing when units divide 2^32. *)
Lemma unit_mod u x : u = 1 \/ u = 1024 -> u32 x mod (u * 65536) = x mod (u * 65536).
Proof.
  intros Hu; unfold wrap; apply Z.mod_mod_divide.
  destruct Hu as [->| ->]; [by exists 65536|by exists 64].
Qed.

Lemma slot_in_unit u j i x : 0 <= i < u -> 0 <= x < 65536 \/ i + 1 < u /\ x = 65536 -> ((j * u + i) * 65536 + x) mod (u * 65536) = i * 65536 + x.
Proof.
  intros Hi Hx; replace ((j * u + i) * 65536 + x) with (i * 65536 + x + j * (u * 65536)) by lia.
  rewrite Z.mod_add by lia; apply Z.mod_small; nia.
Qed.

Lemma suffix_of {A} (s1 s2 b r rest : list A) : s1 ++ b ++ rest = s2 ++ r ++ rest -> (length r <= length b)%nat -> exists b1, b = b1 ++ r.
Proof.
  rewrite !app_assoc; intros E%app_inv_tail Hl; exists (take (length b - length r) b).
  rewrite <- (take_drop (length b - length r) b) at 1; f_equal.
  rewrite <- (take_drop (length b - length r) b), app_assoc in E; apply app_inj_2 in E as [_ E]; [done|].
  rewrite length_drop; lia.
Qed.

Section rounds.
Context {D : Type} `{HS : StorageSpec D} (device_boot_flag disk_inited : Z).
Context (v2_key_burn v2_key_read : bytes -> Z -> Z -> M D Z).
Context (name image : bytes) (takes : world D -> bytes -> Prop) (ends : Z -> Prop).
Context `{HC : !Consumer device_boot_flag disk_inited v2_key_burn name image takes ends}.
Context (u ns total : Z) (Hu : u = 1 \/ u = 1024) (Hns : 0 <= ns <= 2 ^ 20) (Hns4 : ns mod 4 = 0) (Hnsu : ns = 0 \/ u = 1024).
Context (Htotal : 0 < total < 2 ^ 40) (Fimg : Forall byte_ok image).

#[local] Abbreviation unit_ := (u * 65536).
#[local] Abbreviation N := ((total + 65535) / 65536).

(** The buffer manager in round [j] after [i] slots of it. *)
Definition manager (j i left_ sta pbase : Z) : BufManager :=
  mkBm unit_ total (j * u + i) (Z.min ((j + 1) * u) N) left_ 0 sta OPTIMUS_MEDIA_TYPE_STORE pbase ns.

Definition others (w w' : world D) : Prop := untouched name (dev w) (dev w').

(** The end of the image: all that is in the buffer is used. *)
Lemma write_back_last w j i left_ sta pbase full : takes w full -> 0 <= left_ <= 2 ^ 21 -> left_ < Z.of_nat (length full) ->
  Z.of_nat (length full) <= left_ + unit_ ->
  bytes_at (wmem w) (BUF - left_) full ->
  exists w', write_back device_boot_flag disk_inited v2_key_burn (manager j i left_ sta pbase) (Z.of_nat (length full)) total 0 w = Some (Some 0, w') /\
    takes w' [] /\ others w w'.
Proof.
  intros Ht Hl Hlf Hfu Hat; unfold write_back, buf_base; cbn [manager destMediaType leftDataSz].
  change (negb (OPTIMUS_MEDIA_TYPE_MEM =? OPTIMUS_MEDIA_TYPE_STORE)) with true; cbv iota; rewrite Z.eqb_refl; cbn [negb].
  assert (full <> []) as Hne by (intros ->; cbn in Hlf; lia); rewrite <- (app_nil_r full) in Ht.
  destruct (consume w (BUF - left_) full [] Ht Hne (or_intror eq_refl) Hat) as (r & w' & E & Hm & Ht' & [_ Hr] & _ & Ho).
  1-2: layout. { by left. }
  rewrite (Hr eq_refl) in *; cbn [length Z.of_nat] in E; rewrite Z.sub_0_r in E; rewrite Z.sub_0_r, wrap_small by layout.
  exists w'; split; [|by split]; unfold transferBuf; erewrite bind_some by exact E; rewrite (proj2 (Z.leb_gt _ _)), (proj2 (Z.eqb_neq _ 0)), Z.ltb_irrefl by lia.
  cbn [orb]; by rewrite Z.sub_diag.
Qed.

(** The end of a round: the unused bytes move in front of the buffer. *)
Lemma write_back_more w j i left_ sta pbase b tail rest sent : takes w (b ++ tail ++ rest) -> ns <= left_ <= 2 ^ 21 ->
  Z.of_nat (length tail) = ns -> Z.of_nat (length b) = left_ + unit_ - ns -> rest <> [] -> sent < total ->
  ends (Z.of_nat (length (tail ++ rest))) -> bytes_at (wmem w) (BUF - left_) (b ++ tail) ->
  exists r w', write_back device_boot_flag disk_inited v2_key_burn (manager j i left_ sta pbase) (left_ + unit_) sent (total - sent) w =
      Some (Some (Z.of_nat (length (r ++ tail))), w') /\
    Z.of_nat (length r) < 65536 /\ bytes_at (wmem w') (BUF - Z.of_nat (length (r ++ tail))) (r ++ tail) /\ takes w' ((r ++ tail) ++ rest) /\ others w w'.
Proof.
  intros Ht Hl Htl Hbl Hre Hsent He Hat; unfold write_back, buf_base; cbn [manager destMediaType leftDataSz itemOffsetNotAlignClusterSz_f tplcmdTotalSz].
  change (negb (OPTIMUS_MEDIA_TYPE_MEM =? OPTIMUS_MEDIA_TYPE_STORE)) with true; cbv iota; unfold transferBuf.
  rewrite (proj2 (Z.eqb_neq (total - sent) 0)) by lia; cbn [negb]; rewrite <- Hbl, wrap_small by lia.
  assert (b <> []) as Hne by (intros ->; cbn in Hbl; lia); pose proof Hat as Hat'; apply bytes_at_app in Hat' as [Hab Hatl].
  destruct (consume w (BUF - left_) b (tail ++ rest) Ht Hne) as (r & w1 & E & Hm & Ht1 & [Hr _] & Hr4 & Ho); try done.
  { left; destruct Hu; lia. } 1-2: layout. { by right. }
  destruct (takes_suffix w _ Ht) as [s1 E1], (takes_suffix w1 _ Ht1) as [s2 E2].
  assert (exists b1, b = b1 ++ r) as [b1 ->] by (apply (suffix_of s1 s2 b r (tail ++ rest)); [congruence|layout]).
  replace (Z.of_nat (length (b1 ++ r)) - Z.of_nat (length r)) with (Z.of_nat (length b1)) in E by (rewrite length_app; lia); rewrite length_app, Nat2Z.inj_add in Hbl.
  set (leftSz := Z.of_nat (length (r ++ tail))); assert (leftSz = Z.of_nat (length r) + ns) as Hls by (unfold leftSz; rewrite length_app; lia).
  assert (left_ + unit_ - Z.of_nat (length b1) = leftSz) as Hsz by lia.
  assert (bytes_at (wmem w1) (BUF - left_ + Z.of_nat (length b1)) (r ++ tail)) as Hat1.
  { rewrite <- app_assoc, bytes_at_app in Hat; destruct Hat as [_ Hat]; intros k x Hk; rewrite Hm by (pose proof (lookup_lt_Some _ _ _ Hk); layout); by apply Hat. }
  exists r, (with_mem w1 (write_bytes (wmem w1) (BUF - leftSz) (r ++ tail))); fold leftSz.
  assert (buffers_mapped (wmem w1)) as Hmap by (by eapply takes_mapped).
  split; [|split; [done|split; [apply bytes_at_write|split; [|exact Ho]]]].
  - erewrite bind_some by exact E; rewrite (proj2 (Z.leb_gt _ _)), (proj2 (Z.eqb_neq (Z.of_nat (length b1)) 0)) by (destruct Hnsu; lia).
    cbn [orb]; rewrite length_app, (proj2 (Z.ltb_ge _ _)) by lia; rewrite wrap_small, Hsz by lia.
    destruct (Z.eqb_spec leftSz 0) as [E0|E0]; cbn [negb].
    + assert (r ++ tail = []) as -> by (apply nil_length_inv; unfold leftSz in E0; lia); rewrite E0; by destruct w1.
    + rewrite (proj2 (Z.leb_gt _ _)), (proj2 (Z.ltb_ge OPTIMUS_SPARSE_IMG_LEFT_DATA_MAX_SZ _)) by layout.
      assert (Z.land leftSz 3 = 0) as -> by (change 3 with (Z.ones 2); rewrite Z.land_ones, Hls by lia; change (2 ^ 2) with 4; by rewrite Z.add_mod, Hr4, Hns4).
      cbn [negb Z.eqb].
      erewrite bind_some; [done|]; apply copy_at; [done| | |right; layout].
      * clear - Fimg E2; rewrite E2, app_assoc, app_assoc, Forall_app, <- app_assoc, Forall_app in Fimg; tauto.
      * apply (mapped_sub _ LOW (Z.to_nat (FBUF + SLOT - LOW))); [exact Hmap|fold leftSz; layout..].
  - rewrite <- app_assoc; apply takes_mem; [done|by apply mapped_write|].
    intros a Ha; rewrite lookup_write_bytes, decide_False; [done|fold leftSz; layout].
Qed.

Context (Hend : total mod 65536 <> 0 \/ total mod unit_ = 0) (Hends : forall j, 0 < j -> j * unit_ < total -> ends (total + ns - j * unit_)).

(** In round [j] after [i] slots, [buf] ends at the next slot. *)
Record going (w : world D) (b : BufManager) (j i left_ : Z) (buf rest : bytes) : Prop := {
  going_b : exists sta pbase, b = manager j i left_ sta pbase;
  going_ji : 0 <= j /\ 0 <= i < u;
  going_left : ns <= left_ < ns + 65536;
  going_buf : Z.of_nat (length buf) = left_ + i * 65536;
  going_rest : Z.of_nat (length rest) = total - (j * u + i) * 65536;
  going_at : bytes_at (wmem w) (BUF - left_) buf;
  going_takes : takes w (buf ++ rest) }.

(** The number of bytes of a round with its last slot [x]. *)
Lemma round_size j i x : 0 <= j -> 0 <= i < u -> 0 < x <= 65536 -> (j * u + i) * 65536 + x <= total -> i + 1 = u /\ x = 65536 \/ (j * u + i) * 65536 + x = total ->
  (if 65536 =? x then unit_ else u32 ((j * u + i) * 65536 + x) mod unit_) = i * 65536 + x.
Proof.
  intros Hj Hi Hx Hle Hl; rewrite unit_mod by done; destruct (Z.eqb_spec 65536 x) as [<-|Hne]; [|apply slot_in_unit; lia].
  destruct Hl as [[Hl _]|Hl]; [nia|]; destruct (decide (i + 1 = u)) as [Eu|Eu]; [nia|exfalso].
  destruct Hend as [He|He]; [apply He; rewrite <- Hl; replace ((j * u + i) * 65536 + 65536) with ((j * u + i + 1) * 65536) by lia; by rewrite Z.mod_mul|].
  rewrite <- Hl, slot_in_unit in He by lia; lia.
Qed.

Lemma next_round j sent : 0 <= j -> sent = (j + 1) * unit_ -> sent < total ->
  (if unit_ <=? total - sent then u32 ((j + 1) * u + unit_ / 65536) else u32 ((j + 1) * u + u32 (u32 (total - sent) + 65536 - 1) / 65536)) =
  Z.min ((j + 1 + 1) * u) N.
Proof.
  intros Hj -> Hlt; pose proof (Z.div_mod (total + 65535) 65536 ltac:(lia)) as EN; pose proof (Z.mod_pos_bound (total + 65535) 65536 ltac:(lia)) as BN.
  assert (0 <= j * u) by (apply Z.mul_nonneg_nonneg; lia); rewrite Z.div_mul by lia; destruct (Z.leb_spec unit_ (total - (j + 1) * unit_)) as [Hle|Hgt].
  - rewrite wrap_small by lia; lia.
  - rewrite (wrap_small 32 (total - _)), (wrap_small 32 (_ + 65536 - 1)) by lia.
    replace (total - (j + 1) * unit_ + 65536 - 1) with (total + 65535 + (- ((j + 1) * u)) * 65536) by lia; rewrite Z.div_add by lia.
    rewrite wrap_small by lia; lia.
Qed.

Lemma slot_arrived w b j i left_ buf a rest : going w b j i left_ buf (a ++ rest) -> Z.of_nat (length a) <= 65536 ->
  let w1 := with_mem w (write_bytes (wmem w) (BUF + i * 65536) a) in
  takes w1 ((buf ++ a) ++ rest) /\ bytes_at (wmem w1) (BUF - left_) (buf ++ a) /\ dev w1 = dev w.
Proof.
  intros [_ [Hj Hi] Hl Hb Hr Hat Ht] Ha w1; split; [|split; [|done]].
  - rewrite <- app_assoc; apply takes_mem; [done|apply mapped_write; by eapply takes_mapped|].
    intros x Hx; rewrite lookup_write_bytes, decide_False; [done|destruct Hu; layout].
  - apply bytes_at_app; rewrite Hb; replace (BUF - left_ + (left_ + i * 65536)) with (BUF + i * 65536) by lia.
    split; [|apply bytes_at_write]; apply bytes_at_write_other; [done|lia].
Qed.

Lemma report_ok w b j i left_ buf a rest : going w b j i left_ buf (a ++ rest) -> a <> [] ->
  Z.of_nat (length a) = Z.min 65536 (Z.of_nat (length (a ++ rest))) ->
  exists b' w', optimus_buf_manager_report_transfer_complete device_boot_flag disk_inited v2_key_burn b (Z.of_nat (length a))
      (with_mem w (write_bytes (wmem w) (BUF + i * 65536) a)) = Some (0, b', w') /\ others w w' /\
    (rest = [] /\ takes w' [] \/
     rest <> [] /\ exists j' i' left' buf', j' * u + i' = j * u + i + 1 /\ going w' b' j' i' left' buf' rest).
Proof.
  intros Hg Hne Hla; destruct (slot_arrived w b j i left_ buf a rest Hg ltac:(lia)) as (Ht & Hat & Ed).
  destruct Hg as [(sta & pbase & ->) [Hj Hi] Hl Hb Hr _ _]; set (w1 := with_mem w _) in *.
  assert (0 < Z.of_nat (length a)) as Ha0 by (destruct a; [done|cbn; lia]); rewrite length_app, Nat2Z.inj_add in Hla, Hr.
  unfold optimus_buf_manager_report_transfer_complete; cbn [manager totalSlotNum writeBackUnitSz tplcmdTotalSz set_slots nextWriteBackSlot leftDataSz].
  unfold transferUnitSz, OPTIMUS_DOWNLOAD_SLOT_SZ; change (64 * 2 ^ 10) with 65536.
  set (sent := (j * u + i) * 65536 + Z.of_nat (length a)).
  assert (sent = total - Z.of_nat (length rest)) as Hsent by (unfold sent; lia).
  assert (0 <= j * u) as Hju by (apply Z.mul_nonneg_nonneg; lia).
  rewrite (wrap_small 64 sent) by (unfold sent in *; lia); rewrite (wrap_small 32 (j * u + i + 1)) by (unfold sent in *; lia).
  unfold left_pkt; cbn [tplcmdTotalSz manager]; rewrite (proj2 (Z.ltb_ge total sent)) by lia.
  pose proof (Z.div_mod (total + 65535) 65536 ltac:(lia)) as EN; pose proof (Z.mod_pos_bound (total + 65535) 65536 ltac:(lia)) as BN; set (N_ := N) in *.
  destruct rest as [|x rest'] eqn:Er.
  { assert (j * u + i + 1 = N_) as EN1 by (unfold sent in *; cbn in *; lia); rewrite (proj2 (Z.eqb_eq (j * u + i + 1) _)) by lia.
    pose proof (round_size j i (Z.of_nat (length a))) as RS; fold sent in RS; rewrite RS by (cbn in *; lia); rewrite app_nil_r in Ht.
    destruct (write_back_last w1 j (i + 1) left_ sta pbase (buf ++ a)) as (w' & E & Ht' & Ho); [done|lia|rewrite length_app; nia..|done|].
    replace (total - sent) with 0 by (cbn in *; lia); replace sent with total by (cbn in *; lia).
    replace (u32 (left_ + (i * 65536 + Z.of_nat (length a)))) with (Z.of_nat (length (buf ++ a))) by (rewrite wrap_small; rewrite ?length_app; nia).
    replace (set_slots (j * u + i + 1) (manager j i left_ sta pbase)) with (manager j (i + 1) left_ sta pbase) by (unfold manager, set_slots; cbn; f_equal; lia).
    erewrite bind_some by exact E; eexists _, w'; split; [done|]; split; [done|by left]. }
  assert (Z.of_nat (length a) = 65536) as Ha by (cbn in *; lia); assert (0 < Z.of_nat (length rest)) as Hre by (rewrite Er; cbn; lia); rewrite <- Er in *; destruct (decide (i + 1 = u)) as [Eu|Eu].
  - rewrite (proj2 (Z.eqb_eq (j * u + i + 1) _)) by (unfold sent in *; lia); rewrite Ha, Z.eqb_refl, (wrap_small 32 (left_ + unit_)) by nia.
    assert (exists b0 tail, buf ++ a = b0 ++ tail /\ Z.of_nat (length tail) = ns) as (b0 & tail & Eba & Htl).
    { exists (take (Z.to_nat (Z.of_nat (length (buf ++ a)) - ns)) (buf ++ a)), (drop (Z.to_nat (Z.of_nat (length (buf ++ a)) - ns)) (buf ++ a)).
      rewrite take_drop, length_drop, length_app; split; [done|lia]. }
    assert (Z.of_nat (length b0) + ns = left_ + unit_) as Hb0 by (rewrite <- Htl, <- Nat2Z.inj_add, <- length_app, <- Eba, length_app; nia).
    rewrite Eba in *; rewrite <- app_assoc in Ht.
    destruct (write_back_more w1 j (i + 1) left_ sta pbase b0 tail rest sent) as (r & w' & E & Hlr & Hat' & Ht' & Ho); try done; try lia; [by intros ->| |].
    { replace (Z.of_nat (length (tail ++ rest))) with (total + ns - (j + 1) * unit_) by (rewrite length_app; unfold sent in *; lia).
      apply Hends; unfold sent in *; nia. }
    replace (set_slots (j * u + i + 1) (manager j i left_ sta pbase)) with (manager j (i + 1) left_ sta pbase) by (unfold manager, set_slots; cbn; f_equal; lia).
    erewrite bind_some by exact E; eexists _, w'; split; [done|]; split; [first [done|apply untouched_refl]|right; split; [intros ->; cbn in Hre; lia|]].
    exists (j + 1), 0, (Z.of_nat (length (r ++ tail))), (r ++ tail); split; [lia|]; split; try done; [|nia|rewrite length_app; lia|lia|unfold sent in *; lia].
    exists sta, pbase; unfold manager, set_round; cbn; f_equal; [lia|]; unfold N_ in *; rewrite (Z.min_l ((j + 1) * u)) by (unfold sent in *; lia); apply next_round; unfold sent in *; lia.
  - rewrite (proj2 (Z.eqb_neq (j * u + i + 1) _)) by (unfold sent in *; lia); eexists _, w1; split; [done|]; split; [first [done|apply untouched_refl]|right; split; [intros ->; cbn in Hre; lia|]].
    exists j, (i + 1), left_, (buf ++ a); split; [lia|]; split; try done; [|lia|rewrite length_app; lia|lia].
    exists sta, pbase; unfold manager, set_slots; cbn; f_equal; lia.
Qed.

Lemma get_buf_ok (w : world D) j i left_ sta pbase want seq : 0 <= j -> 0 <= i < u -> (j * u + i) * 65536 < total ->
  want = Z.min 65536 (total - (j * u + i) * 65536) ->
  optimus_buf_manager_get_buf_for_bulk_transfer v2_key_read (manager j i left_ sta pbase) want seq w =
  Some (0, BUF + i * 65536, manager j i left_ PKT_TRANSFER_STA_WORKING pbase, w).
Proof.
  intros Hj Hi Hlt Hw; assert (0 <= j * u) by (apply Z.mul_nonneg_nonneg; lia); unfold optimus_buf_manager_get_buf_for_bulk_transfer, buf_base.
  cbn [manager totalSlotNum set_pktsta isUpload destMediaType writeBackUnitSz]; unfold transferUnitSz, OPTIMUS_DOWNLOAD_SLOT_SZ, transferBuf; change (64 * 2 ^ 10) with 65536.
  rewrite wrap_small by lia; unfold left_pkt; cbn [tplcmdTotalSz manager]; rewrite (proj2 (Z.ltb_ge total _)) by lia.
  rewrite unit_mod by done; pose proof (slot_in_unit u j i 0 Hi ltac:(lia)) as Es; rewrite !Z.add_0_r in Es; rewrite Es.
  replace ((want <? 65536) && negb (total - (j * u + i) * 65536 =? want)) with false.
  - cbn [Z.eqb negb]; rewrite andb_false_r; cbn; by rewrite Z.add_comm.
  - symmetry; destruct (Z.ltb_spec want 65536); [|done]; cbn [andb]; rewrite (proj2 (Z.eqb_eq _ want)) by lia; done.
Qed.

Lemma get_buf_going (w : world D) b j i left_ buf rest seq : going w b j i left_ buf rest -> rest <> [] ->
  exists b', optimus_buf_manager_get_buf_for_bulk_transfer v2_key_read b (Z.min 65536 (Z.of_nat (length rest))) seq w = Some (0, BUF + i * 65536, b', w) /\
    going w b' j i left_ buf rest.
Proof.
  intros [(sta & pbase & ->) [Hj Hi] Hl Hb Hr Hat Ht] Hne; assert (0 < Z.of_nat (length rest)) by (destruct rest; [done|cbn; lia]).
  eexists; split; [apply get_buf_ok; [done|done|lia|by rewrite Hr]|]; split; try done; eauto.
Qed.

Context {I : Type} `{IS : ItemSpec D I}.

Lemma item_read_ok (w : world D) item p a l : delivers item (a ++ l) -> a <> [] -> mapped (wmem w) p (length a) -> (p - phase item) mod 512 = 0 ->
  exists item', image_item_read item p (Z.of_nat (length a)) w = Some (0, item', with_mem w (write_bytes (wmem w) p a)) /\ delivers item' l /\
    phase item' = phase item + Z.of_nat (length a).
Proof. intros Hd Hne Hm Hp; apply read_item; try done; by left. Qed.

(** The slots begin at sectors. *)
Lemma slot_phase i x : x mod 512 = 0 -> (BUF + i * 65536 - x) mod 512 = 0.
Proof.
  intros Hx; replace (BUF + i * 65536 - x) with (- x + (BUF / 512 + i * 128) * 512).
  - rewrite Z.mod_add by lia; rewrite Z.mod_opp_l_z by lia; done.
  - rewrite Z.mul_add_distr_r; change (BUF / 512 * 512) with BUF; lia.
Qed.

#[local] Abbreviation report := (optimus_buf_manager_report_transfer_complete device_boot_flag disk_inited v2_key_burn).
#[local] Abbreviation loop := (burn_loop device_boot_flag disk_inited v2_key_burn v2_key_read).

(** The end of an iteration, with the loop in front of it. *)
Lemma slot_ok {A} w b j i left_ buf a rest item (k : BufManager -> I -> M D A) (e : Z -> BufManager -> I -> M D A) :
  going w b j i left_ buf (a ++ rest) -> a <> [] -> Z.of_nat (length a) = Z.min 65536 (Z.of_nat (length (a ++ rest))) -> delivers item (a ++ rest) ->
  phase item mod 512 = 0 ->
  exists b' item' w',
    ('(r, item) <- image_item_read item (BUF + i * 65536) (Z.of_nat (length a));
     if negb (r =? 0) then e r b item
     else
       '(r, b) <- report b (Z.of_nat (length a));
       if negb (r =? 0) then e r b item else k b item) w = k b' item' w' /\
    delivers item' rest /\ (rest <> [] -> phase item' mod 512 = 0) /\ others w w' /\
    (rest = [] /\ takes w' [] \/ rest <> [] /\ exists j' i' left' buf', j' * u + i' = j * u + i + 1 /\ going w' b' j' i' left' buf' rest).
Proof.
  intros Hg Hne Hla Hd Hph; destruct (report_ok w b j i left_ buf a rest Hg Hne Hla) as (b' & w' & E & Ho & Hx).
  assert (buffers_mapped (wmem w)) as Hm by (eapply takes_mapped, Hg); pose proof (going_ji _ _ _ _ _ _ _ Hg).
  destruct (item_read_ok w item (BUF + i * 65536) a rest Hd Hne) as (item' & Er & Hd' & Eph).
  { apply (mapped_sub _ LOW (Z.to_nat (FBUF + SLOT - LOW))); [exact Hm|layout..]. }
  { by apply slot_phase. }
  exists b', item', w'; split; [|split; [done|split; [|done]]].
  2: { intros Hr; assert (0 < length rest)%nat by (destruct rest; [done|cbn; lia]); rewrite length_app in Hla.
    rewrite Eph; replace (Z.of_nat (length a)) with (128 * 512) by lia; by rewrite Z.mod_add. }
  erewrite bind_some by exact Er; cbn [Z.eqb negb]; by erewrite bind_some by exact E.
Qed.

Definition loops (fuel : nat) : Prop := forall w b j i left_ buf rest item, going w b j i left_ buf rest -> rest <> [] -> delivers item rest ->
  phase item mod 512 = 0 -> Z.of_nat (length rest) <= Z.of_nat fuel * 65536 -> ns = 0 \/ 0 < j * u + i ->
  exists item' b' w', loop fuel b item (Z.of_nat (length rest)) (j * u + i) ns w = Some (0, item', b', w') /\ delivers item' [] /\ takes w' [] /\ others w w'.

(** An iteration behind the read of the first bytes. *)
Lemma iteration fuel w b j i left_ buf rest item : loops fuel -> going w b j i left_ buf rest -> rest <> [] -> delivers item rest ->
  phase item mod 512 = 0 -> Z.of_nat (length rest) <= Z.of_nat (S fuel) * 65536 ->
  let n := Z.min 65536 (Z.of_nat (length rest)) in
  exists item' b' w',
    ('(r, item) <- image_item_read item (BUF + i * 65536) n;
     if negb (r =? 0) then ret (r, item, b)
     else
       '(r, b) <- report b n;
       if negb (r =? 0) then ret (r, item, b) else loop fuel b item (Z.of_nat (length rest) - n) (u32 (j * u + i + 1)) ns) w = Some (0, item', b', w') /\
    delivers item' [] /\ takes w' [] /\ others w w'.
Proof.
  intros IH Hg Hne Hd Hph Hf n; assert (0 < Z.of_nat (length rest)) as Hr0 by (destruct rest; [done|cbn; lia]).
  pose proof (going_ji _ _ _ _ _ _ _ Hg) as [Hj Hi]; pose proof (going_rest _ _ _ _ _ _ _ Hg) as Hr.
  assert (exists a rest', rest = a ++ rest' /\ Z.of_nat (length a) = n) as (a & rest' & -> & Ha).
  { exists (take (Z.to_nat n) rest), (drop (Z.to_nat n) rest); rewrite take_drop, length_take; split; [done|lia]. }
  assert (a <> []) as Hae by (intros ->; cbn in Ha; lia); rewrite <- Ha.
  destruct (slot_ok w b j i left_ buf a rest' item (fun b item => loop fuel b item (Z.of_nat (length (a ++ rest')) - Z.of_nat (length a)) (u32 (j * u + i + 1)) ns)
    (fun r b item => ret (r, item, b))) as (b2 & item2 & w2 & E2 & Hd2 & Hph2 & Ho2 & Hx); [done..|rewrite E2; clear E2].
  destruct Hx as [[-> Ht2]|(Hne' & j' & i' & left' & buf' & Eji & Hg2)].
  - rewrite app_nil_r, Z.sub_diag; exists item2, b2, w2; split; [by destruct fuel|done].
  - assert (0 <= j * u) by (apply Z.mul_nonneg_nonneg; lia).
    destruct (IH w2 b2 j' i' left' buf' rest' item2) as (item3 & b3 & w3 & E3 & Hd3 & Ht3 & Ho3); [done|done|done|by apply Hph2|unfold n in Ha; rewrite length_app in Hf, Hr, Ha; lia|lia|].
    rewrite wrap_small, <- Eji by lia; replace (Z.of_nat (length (a ++ rest')) - Z.of_nat (length a)) with (Z.of_nat (length rest')) by (rewrite length_app; lia).
    exists item3, b3, w3; split; [exact E3|]; split; [done|]; split; [done|]; by eapply untouched_trans.
Qed.

(** The length of a read. *)
Lemma read_len n : (if OPTIMUS_DOWNLOAD_SLOT_SZ <? n then OPTIMUS_DOWNLOAD_SLOT_SZ else n) = Z.min 65536 n.
Proof. unfold OPTIMUS_DOWNLOAD_SLOT_SZ; change (64 * 2 ^ 10) with 65536; destruct (Z.ltb_spec 65536 n); lia. Qed.

Lemma loop_ok fuel : loops fuel.
Proof.
  induction fuel as [|fuel IH]; intros w b j i left_ buf rest item Hg Hne Hd Hph Hf Hseq; [destruct rest; [done|cbn in Hf; lia]|].
  assert (0 < Z.of_nat (length rest)) as Hr0 by (destruct rest; [done|cbn; lia]); cbn [burn_loop]; rewrite (proj2 (Z.ltb_lt 0 _)), read_len by lia.
  destruct (get_buf_going w b j i left_ buf rest (j * u + i) Hg Hne) as (b1 & Eg & Hg1); erewrite bind_some by exact Eg; cbn [Z.eqb negb].
  replace (negb (ns =? 0) && (j * u + i =? 0)) with false by (destruct Hseq as [->|]; [done|]; rewrite (proj2 (Z.eqb_neq (j * u + i) 0)), andb_false_r by lia; done).
  erewrite bind_some by reflexivity; cbn [Z.eqb negb]; by apply (iteration fuel w b1 j i left_ buf rest item).
Qed.

(** The loop over a whole image; its first [ns] bytes come in front of the
    first slot. *)
Lemma burn_loop_ok w item sta pbase : takes w image -> delivers item image -> (phase item + ns) mod 512 = 0 -> Z.of_nat (length image) = ns + total ->
  exists item' b' w', loop (slots total) (manager 0 0 ns sta pbase) item total 0 ns w = Some (0, item', b', w') /\ delivers item' [] /\ takes w' [] /\ others w w'.
Proof.
  intros Ht Hd Hph Hlen; unfold slots, OPTIMUS_DOWNLOAD_SLOT_SZ; change (64 * 2 ^ 10) with 65536.
  pose proof (Z.div_mod (total + 65536 - 1) 65536 ltac:(lia)) as EN; pose proof (Z.mod_pos_bound (total + 65536 - 1) 65536 ltac:(lia)) as BN.
  assert (exists fuel, Z.to_nat ((total + 65536 - 1) / 65536) = S fuel /\ total <= Z.of_nat (S fuel) * 65536) as (fuel & -> & Hfuel).
  { exists (pred (Z.to_nat ((total + 65536 - 1) / 65536))); lia. }
  assert (exists hd rest, image = hd ++ rest /\ Z.of_nat (length hd) = ns) as (hd & rest & Ei & Hhd).
  { exists (take (Z.to_nat ns) image), (drop (Z.to_nat ns) image); rewrite take_drop, length_take; split; [done|lia]. }
  rewrite Ei in Ht, Hd, Hlen; rewrite length_app in Hlen; assert (Z.of_nat (length rest) = total) as Hr by lia.
  destruct (decide (ns = 0)) as [E0|E0].
  { assert (hd = []) as -> by (apply nil_length_inv; lia); rewrite <- Hr.
    apply (loop_ok (S fuel) w (manager 0 0 ns sta pbase) 0 0 ns [] rest item); [|by intros ->; cbn in Hr; lia|done|by rewrite E0, Z.add_0_r in Hph|by rewrite Hr|by left].
    split; cbn; try done; try lia; eauto. }
  cbn [burn_loop]; rewrite (proj2 (Z.ltb_lt 0 total)), read_len by lia.
  erewrite bind_some by (apply get_buf_ok; lia); cbn [Z.eqb negb]; rewrite (proj2 (Z.eqb_neq ns 0)) by done; cbn [negb andb].
  assert (buffers_mapped (wmem w)) as Hm by (by eapply takes_mapped).
  destruct (item_read_ok w item (BUF + 0 * 65536 - ns) hd rest Hd) as (item1 & E1 & Hd1 & Eph1); [by intros ->|apply (mapped_sub _ LOW (Z.to_nat (FBUF + SLOT - LOW))); [exact Hm|layout..]| |].
  { replace (BUF + 0 * 65536 - ns - phase item) with (BUF + 0 * 65536 - (phase item + ns)) by lia; by apply slot_phase. }
  rewrite Hhd in E1; erewrite bind_some by exact E1; cbn [Z.eqb negb]; rewrite <- Hr.
  edestruct (iteration fuel (with_mem w (write_bytes (wmem w) (BUF + 0 * 65536 - ns) hd)) (manager 0 0 ns PKT_TRANSFER_STA_WORKING pbase) 0 0 ns hd rest item1
    (loop_ok fuel)) as (item2 & b2 & w2 & E2 & Hd2 & Ht2 & Ho2); [|by intros ->; cbn in Hr; lia|done|by rewrite Eph1, Hhd|by rewrite Hr|exists item2, b2, w2; split; [exact E2|done]].
  split; cbn; try done; try lia; [eauto|apply bytes_at_write|].
  apply takes_mem; [done|by apply mapped_write|]; intros a Ha; rewrite lookup_write_bytes, decide_False; [done|layout].
Qed.
End rounds.

(** ** Burning an item *)

Lemma s64_small n : 0 <= n < 2 ^ 63 -> s64 n = n.
Proof. intros Hn; unfold to_signed; rewrite wrap_small by lia; by destruct (Z.ltb_spec n (2 ^ (64 - 1))); [|lia]. Qed.

Definition format (sparse : bool) : bytes := str (if sparse then "sparse" else "normal").

(** The download code is told about the image. *)
Lemma announce_ok {D} `{Storage D} part_table (w : world D) name sectors T sparse : same (str "bootloader") name = false -> (length name <= 47)%nat ->
  _assert_logic_partition_cap part_table name (sectors * 512) = Some 0 -> sectors * 512 < 2 ^ 40 -> 0 < T <= sectors * 512 -> size_part (dev w) name = Some sectors ->
  storage_get_partition_size_in_byte name w = Some (sectors * 512, w) /\
  optimus_parse_img_download_info part_table name T (format sparse) (str "store") 0 w =
  Some (0, with_info w (mkInfo (if sparse then IMG_TYPE_SPARSE else IMG_TYPE_NORMAL) OPTIMUS_IMG_STA_PRE_BURN OPTIMUS_MEDIA_TYPE_STORE 0 T 0 0 0 name)).
Proof.
  intros Hname Hlen Htable H40 HT Hs; assert (Z.shiftl sectors 9 = sectors * 512) as Esh by (rewrite Z.shiftl_mul_pow2; done); split.
  { unfold storage_get_partition_size_in_byte, store_get_partititon_size, bind, gets; cbn; rewrite Hs, Esh; cbn; by rewrite s64_small by lia. }
  unfold optimus_parse_img_download_info, _parse_img_download_info; rewrite Hname; erewrite bind_some by reflexivity.
  replace (if same (str "sparse") (format sparse) then _ else _) with (Some (if sparse then IMG_TYPE_SPARSE else IMG_TYPE_NORMAL)) by (by destruct sparse).
  erewrite bind_some by reflexivity; change (media_type (str "store")) with (Some OPTIMUS_MEDIA_TYPE_STORE); cbv iota; erewrite bind_some by reflexivity.
  cbn [Z.eqb Pos.eqb OPTIMUS_MEDIA_TYPE_STORE OPTIMUS_MEDIA_TYPE_KEY_UNIFY andb]; rewrite (proj2 (Nat.ltb_ge _ _)) by done; erewrite bind_some by reflexivity.
  erewrite bind_some.
  2: { cbn [Z.ltb Z.compare Pos.compare Pos.compare_cont negb andb OPTIMUS_MEDIA_TYPE_STORE OPTIMUS_MEDIA_TYPE_MEM].
    unfold store_get_partititon_size; unfold bind at 1; erewrite bind_some by reflexivity; cbn [dev]; rewrite Hs; cbn [ret]; rewrite Esh, wrap_small by lia.
    rewrite (proj2 (Z.ltb_ge _ _)) by lia; unfold bind, rd; rewrite Htable; reflexivity. }
  reflexivity.
Qed.

Section item.
Context {D : Type} `{HS : StorageSpec D} (device_boot_flag disk_inited : Z).
Context (v2_key_burn v2_key_read : bytes -> Z -> Z -> M D Z) {I : Type} `{IS : ItemSpec D I} (part_table : list partition).
Context (name image : bytes) (Fimg : Forall byte_ok image) (Hname : same (str "bootloader") name = false) (Hlen : (length name <= 47)%nat).
Context (sectors ns : Z) (Htable : _assert_logic_partition_cap part_table name (sectors * 512) = Some 0).
Context (Hns : 0 <= ns <= 2 ^ 20) (Hns4 : ns mod 4 = 0) (H40 : sectors * 512 < 2 ^ 40).

#[local] Abbreviation T := (Z.of_nat (length image)).
#[local] Abbreviation total := (T - ns).
Context (HnsT : ns < T) (HT : T <= sectors * 512).

(** Slots per write-back. *)
Definition per_unit (sparse : bool) : Z := if sparse || negb (ns =? 0) then 1024 else 1.

(** The size is announced to the download code and the buffer manager. *)
Lemma buf_manager_init_ok (w : world D) b sparse : size_part (dev w) name = Some sectors ->
  sdc_burn_buf_manager_init part_table b name T (format sparse) ns w =
  Some (0, manager (per_unit sparse) ns total 0 0 ns PKT_TRANSFER_STA_EMPTY (bm_partBaseOffset b),
    with_info w (mkInfo (if sparse then IMG_TYPE_SPARSE else IMG_TYPE_NORMAL) OPTIMUS_IMG_STA_PRE_BURN OPTIMUS_MEDIA_TYPE_STORE 0 T 0 0 0 name)).
Proof.
  intros Hs; unfold sdc_burn_buf_manager_init; rewrite Hname; cbn [negb andb].
  destruct (announce_ok part_table w name sectors T sparse) as [Ep Ei]; try done; try lia.
  erewrite bind_some by exact Ep; rewrite (proj2 (Z.ltb_ge _ _)), (proj2 (Z.eqb_neq (sectors * 512) 0)) by lia; cbn [orb]; rewrite (wrap_small 64 T) by lia.
  erewrite bind_some by exact Ei; cbn [Z.eqb negb]; unfold optimus_buf_manager_tplcmd_init; rewrite Hname; cbn [andb].
  replace (same (str "sparse") (format sparse)) with sparse by (by destruct sparse); fold (per_unit sparse).
  change (same (str "mem") (str "store")) with false; cbn [andb negb]; rewrite (wrap_small 64 total) by lia.
  replace (if sparse || negb (ns =? 0) then _ else _) with (per_unit sparse * 65536) by (unfold per_unit; by destruct (sparse || _)).
  assert (per_unit sparse = 1 \/ per_unit sparse = 1024) as Hu by (unfold per_unit; destruct (sparse || _); auto).
  rewrite (proj2 (Z.ltb_ge transferBufSz _)), (proj2 (Z.ltb_ge _ transferUnitSz)) by (unfold transferBufSz, transferUnitSz; layout); cbn [andb].
  unfold ret, manager; do 4 f_equal; unfold transferUnitSz, OPTIMUS_DOWNLOAD_SLOT_SZ; change (64 * 2 ^ 10) with 65536; rewrite Z.div_mul by lia; cbn [Z.eqb negb].
  pose proof (Z.div_mod (total + 65535) 65536 ltac:(lia)) as EN; pose proof (Z.mod_pos_bound (total + 65535) 65536 ltac:(lia)) as BN.
  destruct (Z.ltb_spec total (per_unit sparse * 65536)) as [Hl|Hl]; [|lia].
  rewrite (wrap_small 32 total), wrap_small by lia; replace (total + 65536 - 1) with (total + 65535) by lia; lia.
Qed.
(** Whatever takes the image after it is announced gets all of it. *)
Lemma burn_item_ok (w : world D) b item sparse takes ends (HC : Consumer device_boot_flag disk_inited v2_key_burn name image takes ends) :
  size_part (dev w) name = Some sectors -> delivers item image -> (phase item + ns) mod 512 = 0 ->
  (total mod 65536 <> 0 \/ total mod (per_unit sparse * 65536) = 0) ->
  (forall j, 0 < j -> j * (per_unit sparse * 65536) < total -> ends (T - j * (per_unit sparse * 65536))) ->
  takes (with_info w (mkInfo (if sparse then IMG_TYPE_SPARSE else IMG_TYPE_NORMAL) OPTIMUS_IMG_STA_PRE_BURN OPTIMUS_MEDIA_TYPE_STORE 0 T 0 0 0 name)) image ->
  exists item' b' w', burn_item device_boot_flag disk_inited v2_key_burn v2_key_read part_table b name item T (format sparse) ns w = Some (0, item', b', w') /\
    delivers item' [] /\ takes w' [] /\ others name w w'.
Proof.
  intros Hs Hd Hph Hend Hends Ht; unfold burn_item; rewrite (proj2 (Z.eqb_neq T 0)) by lia.
  erewrite bind_some by (by apply buf_manager_init_ok); cbn [Z.eqb negb].
  set (w1 := with_info w _) in *; change (others name w) with (others name w1).
  eapply burn_loop_ok; try done; try lia.
  - unfold per_unit; destruct (sparse || _); auto.
  - unfold per_unit; destruct (Z.eqb_spec ns 0); [by left|right]; by rewrite orb_true_r.
  - intros j Hj Hlt; replace (total + ns) with T by lia; by apply Hends.
Qed.
End item.

End BufManager.
