(* ===== verification/BurnVerify.v ===== *)
(** * Verification of a partition
    (optimus_sha1sum_verify_partition, optimus_media_download_verify in
    drivers/usb/gadget/v2_burning/v2_common/optimus_download.c)

    After a download the tool reads the partition back, with the headers that
    it kept of a sparse image, and compares the SHA-1 of the two with the text
    that came with the image.  The definitions are those of [Download] and
    [Sparse]; this file shows that what is read back is the image. *)

From S2P Require Import Prelude CString CArray Vsprintf Digest Sha1 Burn Sparse Download.

Module BurnVerify.
Import CString CArray Burn Sparse Download.
#[local] Open Scope burn_scope.

Abbreviation BUF := OPTIMUS_SHA1SUM_BUFFER_ADDR.
Abbreviation tracks := (Digest.tracks Sha1.sha1_process Sha1.H0).

(** ** The text of a digest *)

Definition hex_digit (d : Z) : Z := if d <? 10 then 48 + d else 87 + d.
Definition hex_text (l : bytes) : bytes := flat_map (fun b => [hex_digit (b / 16); hex_digit (b mod 16)]) l.

Lemma hex_byte_digits b : byte_ok b -> hex_byte b = [hex_digit (b / 16); hex_digit (b mod 16)].
Proof.
  intros Hb; unfold byte_ok in Hb; replace b with (Z.of_nat (Z.to_nat b)) by lia; assert (Z.to_nat b < 256)%nat as Hn by lia.
  assert (forallb (fun n => bool_decide (hex_byte (Z.of_nat n) = [hex_digit (Z.of_nat n / 16); hex_digit (Z.of_nat n mod 16)])) (seq 0 256) = true) as Hall by (vm_compute; done).
  rewrite forallb_forall in Hall; specialize (Hall (Z.to_nat b) ltac:(apply in_seq; lia)); by apply bool_decide_eq_true in Hall.
Qed.

Lemma hex_string l : Forall byte_ok l -> (length l <= 20)%nat -> optimus_hex_data_2_ascii_str l 42 = (0, hex_text l).
Proof.
  intros Fl Hl; unfold optimus_hex_data_2_ascii_str; destruct (Z.ltb_spec 42 (2 * Z.of_nat (length l) + 1)); [lia|]; f_equal.
  clear - Fl; induction Fl as [|b l Hb _ IH]; [done|]; cbn [map concat hex_text flat_map app]; by rewrite IH, hex_byte_digits.
Qed.

Lemma hex_text_ok l : Forall byte_ok l -> cstr_ok (hex_text l).
Proof.
  unfold cstr_ok; induction 1 as [|b l Hb _ IH]; [by apply Forall_nil|]; cbn [hex_text flat_map app].
  assert (forall d, 0 <= d < 16 -> 0 < hex_digit d < 256) as Hd by (intros d Hd; unfold hex_digit; destruct (d <? 10); lia).
  unfold byte_ok in *; apply Forall_cons; split; [apply Hd; split; [apply Z.div_pos|apply Z.div_lt_upper_bound]; lia|].
  apply Forall_cons; split; [apply Hd, Z.mod_pos_bound; lia|done].
Qed.

(** ** Reading back *)

Section verify.
Context {D : Type} `{HS : StorageSpec D} (v2_key_read : bytes -> Z -> Z -> M D Z).
Context (name : bytes) (cap : Z) (H40 : cap < 2 ^ 40).

(** What reading leaves alone. *)
Record view (w w' : world D) : Prop := {
  view_good : good (dev w');
  view_part : forall q a, contents (dev w') q a = contents (dev w) q a;
  view_sizes : forall q, capacity (dev w') q = capacity (dev w) q /\ size_part (dev w') q = size_part (dev w) q;
  view_mem : forall a, INFO <= a -> wmem w' !! a = wmem w !! a;
  view_map : buffers_mapped (wmem w');
  view_info : info w' = info w;
  view_sp : sp w' = sp w;
  view_fill : _filledBufValidLen w' = _filledBufValidLen w }.

Lemma view_trans w1 w2 w3 : view w1 w2 -> view w2 w3 -> view w1 w3.
Proof.
  intros [G1 P1 C1 M1 B1 I1 S1 F1] [G2 P2 C2 M2 B2 I2 S2 F2]; split; [done| | | |done|congruence..].
  - intros q a; by rewrite P2, P1.
  - intros q; destruct (C1 q), (C2 q); split; congruence.
  - intros a Ha; by rewrite M2, M1.
Qed.

(** The same but for the state of the download and of the walk over the
    headers of a sparse image. *)
Record sees (w w' : world D) : Prop := {
  sees_good : good (dev w');
  sees_part : forall q a, contents (dev w') q a = contents (dev w) q a;
  sees_sizes : forall q, capacity (dev w') q = capacity (dev w) q /\ size_part (dev w') q = size_part (dev w) q;
  sees_mem : forall a, INFO <= a -> wmem w' !! a = wmem w !! a;
  sees_map : buffers_mapped (wmem w');
  sees_fill : _filledBufValidLen w' = _filledBufValidLen w }.

Lemma sees_view w0 w w' : view w0 w' -> dev w0 = dev w -> wmem w0 = wmem w -> _filledBufValidLen w0 = _filledBufValidLen w -> sees w w'.
Proof. intros [? ? ? ? ? ? ? ?] Ed Em Ef; split; rewrite <- ?Ed, <- ?Em, <- ?Ef; done. Qed.

Lemma sees_trans w1 w2 w3 : sees w1 w2 -> sees w2 w3 -> sees w1 w3.
Proof.
  intros [G1 P1 C1 M1 B1 F1] [G2 P2 C2 M2 B2 F2]; split; [done| | | |done|congruence].
  - intros q a; by rewrite P2, P1.
  - intros q; destruct (C1 q), (C2 q); split; congruence.
  - intros a Ha; by rewrite M2, M1.
Qed.

(** The partition can be read. *)
Record readable (w : world D) : Prop := {
  readable_good : good (dev w);
  readable_cap : capacity (dev w) name = cap;
  readable_map : buffers_mapped (wmem w);
  readable_type : is_store (storageMediaType (info w)) = true;
  readable_img : imgType (info w) <> IMG_TYPE_BOOTLOADER;
  readable_base : partBaseOffset (info w) = 0;
  readable_name : partName (info w) = name }.

Lemma sees_refl w : readable w -> sees w w.
Proof. by intros []; split. Qed.

Lemma readable_view w w' : readable w -> view w w' -> readable w'.
Proof. intros [? Hc ? ? ? ? ?] [? ? Hs ? ? Ei ? ?]; split; rewrite ?Ei; try done; by rewrite (proj1 (Hs name)). Qed.

Lemma storage_read_ok w off n : readable w -> 0 <= off -> off mod 512 = 0 -> 0 < n <= OPTIMUS_SHA1SUM_BUFFER_LEN -> off + n <= cap ->
  exists w', optimus_storage_read v2_key_read off n BUF w = Some (0, w') /\ view w w' /\
    bytes_at (wmem w') BUF (get (contents (dev w) name) off (Z.to_nat n)).
Proof.
  intros [Hg Hc Hm Ht Hi Hb Hn] Ho Hal Hn0 Hle; unfold OPTIMUS_SHA1SUM_BUFFER_LEN in Hn0; change (OPTIMUS_DOWNLOAD_TRANSFER_BUF_TOTALSZ / 8) with (2 ^ 23) in Hn0; assert (off + n <= capacity (dev w) name) as Hcn by lia; assert (0 < n) as Hnp by lia.
  unfold optimus_storage_read; erewrite bind_some by reflexivity; rewrite Hb, Ht, Hn, Z.add_0_r, wrap_small by lia.
  rewrite (proj2 (Z.eqb_neq _ (imgType (info w)))) by congruence; unfold store_read_ops; change (BUF =? 0) with false; cbv iota.
  unfold bind at 1; erewrite bind_some by reflexivity; destruct (read_part (dev w) name off n) as [[r data] d] eqn:E.
  assert (r = 0) as -> by (pose proof (read_good (dev w) name off n Hg Ho Hal Hnp Hcn) as Hr; by rewrite E in Hr).
  destruct (read_ok (dev w) name off n data d Ho Hal Hnp Hcn E) as (-> & Hco & Hca & Hgo).
  set (data := get _ _ _); assert (Forall byte_ok data) as Fd by (apply get_bytes; intros; apply contents_byte).
  assert (Z.of_nat (length data) = n) as Hl by (unfold data; rewrite get_length; lia).
  assert (mapped (wmem w) BUF (length data)) as Hmb by (apply (mapped_sub _ LOW (Z.to_nat (FBUF + SLOT - LOW))); [exact Hm|unfold OPTIMUS_SHA1SUM_BUFFER_ADDR; layout..]).
  eexists; split; [unfold bind, set_dev, on_mem; cbn [wmem dev info sp]; rewrite store_bytes_ok by done; reflexivity|].
  split; [split; cbn; try done; [auto| |by apply mapped_write]|apply bytes_at_write].
  intros a Ha; rewrite lookup_write_bytes, decide_False; [done|unfold OPTIMUS_SHA1SUM_BUFFER_ADDR in *; layout].
Qed.
Lemma read_loop_ok fuel : forall w ctx msg off len, readable w -> tracks ctx msg -> 0 <= off -> len = 0 \/ off mod 512 = 0 -> 0 <= len -> off + len <= cap ->
  len <= Z.of_nat fuel * OPTIMUS_SHA1SUM_BUFFER_LEN -> Z.of_nat (length msg) + len < 2 ^ 61 ->
  exists ctx' w', read_loop v2_key_read fuel ctx off len w = Some (0, 0, ctx', w') /\ view w w' /\
    tracks ctx' (msg ++ get (contents (dev w) name) off (Z.to_nat len)).
Proof.
  assert (OPTIMUS_SHA1SUM_BUFFER_LEN = 2 ^ 23) as EB by done.
  induction fuel as [|fuel IH]; intros w ctx msg off len Hr Ht Ho Hal Hl Hle Hf Hm; cbn [read_loop]; destruct (Z.eqb_spec len 0) as [->|Hl0]; try lia.
  1-2: exists ctx, w; split; [done|]; split; [by split; try apply Hr|by rewrite app_nil_r].
  destruct Hal as [|Hal]; [done|]; rewrite EB in *; set (n := if 2 ^ 23 <? len then 2 ^ 23 else len).
  assert (0 < n <= len /\ n <= 2 ^ 23 /\ (n = len \/ n = 2 ^ 23)) as (Hn & Hn23 & Hcase) by (unfold n; destruct (Z.ltb_spec (2 ^ 23) len); lia).
  destruct (storage_read_ok w off n Hr Ho Hal) as (w1 & E1 & V1 & B1); [rewrite EB; lia|lia|].
  erewrite bind_some by exact E1; cbn [Z.eqb negb]; set (data := get _ off (Z.to_nat n)) in *.
  assert (length data = Z.to_nat n) as Hdl by apply get_length.
  erewrite bind_some by (unfold rd; rewrite <- Hdl, read_bytes_at by done; reflexivity).
  assert (tracks (Sha1.sha1_update ctx data) (msg ++ data)) as Ht1.
  { apply (Digest.update_tracks Sha1.sha1_process Sha1.H0 64); [lia|done|lia|rewrite length_app; lia]. }
  destruct (IH w1 (Sha1.sha1_update ctx data) (msg ++ data) (u64 (off + n)) (len - n)) as (ctx' & w' & E & V & T'); try done; try lia.
  - by eapply readable_view.
  - apply wrap_range; lia.
  - rewrite wrap_small by lia; destruct Hcase as [Hc|Hc]; [left; lia|right; by rewrite Hc, Z.add_mod, Hal].
  - rewrite wrap_small; lia.
  - rewrite length_app; lia.
  - exists ctx', w'; split; [exact E|]; split; [by eapply view_trans|].
    rewrite wrap_small, <- app_assoc in T' by lia; replace (Z.to_nat len) with (Z.to_nat n + Z.to_nat (len - n))%nat by lia.
    rewrite get_app, Z2Nat.id by lia; rewrite (get_ext (contents (dev w) name) (contents (dev w1) name) (off + n)); [exact T'|]; intros a _; by rewrite (view_part _ _ V1).
Qed.

(** ** Sparse images *)

Section sparse.
Context (blk : Z) (Hblk : 0 < blk < 2 ^ 32) (H512 : blk mod 512 = 0).
Context (cs : list chunk) (hdr : bytes) (Hhdr : length hdr = 28%nat) (Hcs : chunks_ok blk cap cs).

#[local] Abbreviation heads l := (concat (map (head blk) l)).

Lemma size_all_snoc l c : size_all blk (l ++ [c]) = size_all blk l + out_size blk c.
Proof. rewrite size_all_app; unfold size_all; cbn [foldr]; lia. Qed.

(** Chunks do not reach back. *)
Lemma apply_below c off f a : a < off -> apply blk c off f a = f a.
Proof. intros Ha; destruct c; cbn; [by apply put_out; lia..|done]. Qed.

Lemma apply_all_below l : forall off f a, Forall (chunk_ok blk) l -> a < off -> apply_all blk l off f a = f a.
Proof.
  induction l as [|c l IH]; intros off f a Fl Ha; [done|]; apply Forall_cons in Fl as [Hc Fl]; cbn [apply_all].
  destruct (out_size_blocks blk Hblk H512 c Hc) as (_ & ? & _); rewrite IH by (done || lia); by apply apply_below.
Qed.

(** The data of a chunk is where the walk over the headers finds it. *)
Lemma chunk_back s1 c s2 f : Forall (chunk_ok blk) (s1 ++ c :: s2) ->
  get (apply_all blk (s1 ++ c :: s2) 0 f) (size_all blk s1) (length (payload c)) = payload c.
Proof.
  rewrite Forall_app, Forall_cons; intros (F1 & Hc & F2); rewrite apply_all_app; cbn [apply_all]; rewrite Z.add_0_l.
  destruct (out_size_blocks blk Hblk H512 c Hc) as (_ & Hs & _); destruct c as [res data|res v n|res n]; cbn [payload] in *; [| |done].
  - etransitivity; [|apply (get_put (apply_all blk s1 0 f) data (size_all blk s1))]; apply get_ext; intros a Ha; rewrite apply_all_below by (done || cbn; lia); done.
  - pose proof Hc as (Hv & Hn & Hn32); assert (fill_bytes v (n * blk) = le 4 v ++ fill_bytes v (n * blk - 4)) as Ef.
    { pose proof (Z.div_mod blk 512 ltac:(lia)); replace (n * blk) with (4 + (n * blk - 4)) at 1 by lia; rewrite fill_bytes_app by (done || nia); done. }
    etransitivity; [|apply (get_put (apply_all blk s1 0 f) (le 4 v) (size_all blk s1))]; apply get_ext; rewrite le_length; intros a Ha.
    assert (4 <= n * blk) by (pose proof (Z.div_mod blk 512 ltac:(lia)); nia).
    rewrite apply_all_below by (done || cbn; lia); cbn [apply]; rewrite Ef, <- put_app, put_out; [done|rewrite le_length; lia].
Qed.

(** What one call of [optimus_sparse_get_chunk_data] walks over: chunks without
    data, up to one with data or the end. *)
Inductive walked (done_ c1 c2 : list chunk) (dsz off : Z) : Prop :=
  | walked_data c0 c : c1 = c0 ++ [c] -> Forall (fun c => payload c = []) c0 -> payload c <> [] -> dsz = Z.of_nat (length (payload c)) ->
      off = size_all blk (done_ ++ c0) -> walked done_ c1 c2 dsz off
  | walked_end : c2 = [] -> Forall (fun c => payload c = []) c1 -> dsz = 0 -> walked done_ c1 c2 dsz off.

Definition at_chunk (w : world D) (n : nat) : world D :=
  World (wmem w) (dev w) (info w) (set_offset (size_all blk (take n cs)) (set_left (Z.of_nat n) (sp w))) (_filledBufValidLen w) (_dtb_is_loaded w).

Lemma data_loop_ok todo : forall w done_ hsz off0, cs = done_ ++ todo -> bytes_at (wmem w) INFO (hdr ++ heads cs) ->
  sparseBlkSz (sp w) = blk -> leftChunkNum (sp w) = Z.of_nat (length done_) -> backChunkNum (sp w) = Z.of_nat (length cs) ->
  chunkOffset (sp w) = size_all blk done_ -> 0 <= hsz -> hsz + 12 * Z.of_nat (length todo) < 2 ^ 32 ->
  exists c1 c2 dsz off, todo = c1 ++ c2 /\ walked done_ c1 c2 dsz off /\
    data_loop (length todo) (INFO + 28 + 12 * Z.of_nat (length done_)) hsz 0 off0 w =
    Some (0, hsz + 12 * Z.of_nat (length c1), dsz, off, at_chunk w (length (done_ ++ c1))).
Proof.
  induction todo as [|c todo IH]; intros w done_ hsz off0 Ec Hat Hb Hl Hk Ho Hh Hh32.
  { exists [], [], 0, off0; split; [done|]; split; [by apply walked_end|]; rewrite !app_nil_r in *; subst done_; cbn [data_loop length].
    erewrite bind_some by reflexivity; rewrite Hl, Hk, Z.ltb_irrefl; unfold ret; rewrite Z.mul_0_r, Z.add_0_r; do 2 f_equal.
    unfold at_chunk; rewrite firstn_all; rewrite <- Hl, <- Ho; by destruct w as [? ? ? [] ? ?]. }
  assert (chunk_ok blk c) as Hc by (destruct Hcs as (Fc & _); rewrite Ec, Forall_app, Forall_cons in Fc; tauto).
  assert (size_all blk done_ + out_size blk c <= cap /\ 0 <= size_all blk done_) as [Hsz Hsz0].
  { destruct Hcs as (Fc & _ & Hs); rewrite Ec, size_all_app in Hs; rewrite Ec, Forall_app, Forall_cons in Fc; destruct Fc as (F1 & _ & F2).
    pose proof (size_all_512 blk Hblk H512 _ F1); pose proof (size_all_512 blk Hblk H512 _ F2); unfold size_all in Hs at 2; cbn [foldr] in Hs; fold (size_all blk todo) in Hs; lia. }
  assert (bytes_at (wmem w) (INFO + 28 + 12 * Z.of_nat (length done_)) (head blk c)) as Hc12.
  { rewrite Ec, map_app, concat_app, app_assoc in Hat; apply bytes_at_app in Hat as [_ Hat]; rewrite (heads_length blk hdr Hhdr) in Hat.
    cbn [map concat] in Hat; apply bytes_at_app in Hat as [Hat _]; by rewrite Z.add_assoc in Hat. }
  destruct (head_fields blk Hblk H512 w _ c Hc Hc12) as (Ety & Esz & Etot); destruct (out_size_blocks blk Hblk H512 c Hc) as (Eo & Ho32 & _).
  cbn [data_loop length]; erewrite bind_some by reflexivity; rewrite Hl, Hk, Ec, length_app, (proj2 (Z.ltb_lt _ _)) by (cbn; lia).
  erewrite bind_some by exact Esz; erewrite bind_some by exact Ety; erewrite bind_some by exact Etot; rewrite Hb, Eo, (wrap_small 32 (out_size _ _)) by done.
  replace (if type_of c =? CHUNK_TYPE_RAW then _ else _) with (Some (Z.of_nat (length (payload c)))).
  2: { symmetry; destruct c as [res data|res v n|res n]; cbn [type_of payload out_size]; [|done..].
    destruct Hc as (_ & _ & H32); rewrite Z.eqb_refl, wrap_small by (unfold CHUNK_HEAD_SIZE; lia); unfold CHUNK_HEAD_SIZE; by rewrite Z.eqb_refl. }
  set (w1 := at_chunk w (length (done_ ++ [c]))); assert (Z.of_nat (length done_) < 2 ^ 31) as Hd31.
  { destruct Hcs as (_ & Hf & _); unfold heads_fit, OPTIMUS_DOWNLOAD_SPS_VERIFY_BACK_INFO_SZ in Hf; rewrite Ec, length_app in Hf; lia. }
  assert (cs = (done_ ++ [c]) ++ todo) as Ec2 by (by rewrite Ec, <- app_assoc).
  assert (take (length (done_ ++ [c])) cs = done_ ++ [c]) as Etk by (rewrite Ec2; apply take_app_length).
  assert (forall A (k : M D A), (_ <- on_sp (fun s => set_offset (u64 (chunkOffset s + out_size blk c)) s); _ <- on_sp (fun s => set_left (u32 (leftChunkNum s + 1)) s); k) w = k w1) as Ew.
  { intros A k; unfold bind, on_sp; cbn [wmem dev info sp leftChunkNum chunkOffset set_offset]; f_equal; unfold w1, at_chunk.
    rewrite Etk, Ho, Hl, size_all_snoc, length_app; cbn [length]; rewrite !wrap_small by lia.
    replace (Z.of_nat (length done_) + 1) with (Z.of_nat (length done_ + 1)) by lia; by destruct w as [? ? ? [] ? ?]. }
  cbv iota; rewrite Ew; rewrite (wrap_small 32 (hsz + _)) by (unfold CHUNK_HEAD_SIZE; cbn in Hh32; lia); unfold CHUNK_HEAD_SIZE.
  destruct (Z.eqb_spec (Z.of_nat (length (payload c))) 0) as [E0|E0]; cbn [negb].
  - destruct (IH w1 (done_ ++ [c]) (hsz + 12) (chunkOffset (sp w))) as (c1 & c2 & dsz & off & Et & Hw & El); try done; try (cbn in *; lia).
    { cbn; by rewrite Etk. }
    exists (c :: c1), c2, dsz, off; rewrite Et; split; [done|]; split.
    + destruct Hw as [c0 c' -> F0 Hne -> Hoff|Hc2 F0 Hd0]; [|apply walked_end; try done; by constructor; [apply nil_length_inv; lia|]].
      apply (walked_data _ _ _ _ _ (c :: c0) c'); try done; [by constructor; [apply nil_length_inv; lia|]|by rewrite Hoff, <- app_assoc].
    + rewrite length_app in El; cbn [length] in El |- *; replace (INFO + 28 + 12 * Z.of_nat (length done_) + 12) with (INFO + 28 + 12 * Z.of_nat (length done_ + 1)) by lia.
      rewrite E0, <- Et, El, <- app_assoc; replace (hsz + 12 + 12 * Z.of_nat (length c1)) with (hsz + 12 * Z.of_nat (S (length c1))) by lia; done.
  - exists [c], todo, (Z.of_nat (length (payload c))), (size_all blk done_); split; [done|]; split; [|by rewrite Ho].
    apply (walked_data _ _ _ _ _ [] c); rewrite ?app_nil_r; try done; intros E; rewrite E in E0; done.
Qed.

Context (f0 : Z -> Z) (Hpay : Forall (fun c => Z.of_nat (length (payload c)) < 2 ^ 31) cs).
#[local] Abbreviation image := (hdr ++ enc_all blk cs).
Context (Himg : Z.of_nat (length image) < 2 ^ 60).

(** The walk has come to chunk [n]. *)
Record walking (w : world D) (n : nat) : Prop := {
  walking_readable : readable w;
  walking_part : forall a, contents (dev w) name a = apply_all blk cs 0 f0 a;
  walking_heads : bytes_at (wmem w) INFO (hdr ++ heads cs);
  walking_blk : sparseBlkSz (sp w) = blk;
  walking_addr : chunkInfoBackAddr (sp w) = INFO;
  walking_back : backChunkNum (sp w) = Z.of_nat (length cs);
  walking_left : leftChunkNum (sp w) = Z.of_nat n;
  walking_off : chunkOffset (sp w) = size_all blk (take n cs) }.

Lemma walking_view w w' n : walking w n -> view w w' -> walking w' n.
Proof.
  intros [R P B K A C L O] V; pose proof V as [_ Vp _ Vm _ _ Vs _]; split; rewrite ?Vs; try done.
  - by eapply readable_view.
  - intros a; by rewrite Vp.
  - intros i x Hi; rewrite Vm by lia; by apply B.
Qed.

Lemma walking_at w n n' : walking w n -> walking (at_chunk w n') n'.
Proof. by intros [[? ? ? ? ? ? ?] P B K A C L O]; split. Qed.

Lemma payload_le c : chunk_ok blk c -> Z.of_nat (length (payload c)) <= out_size blk c.
Proof.
  intros Hc; destruct c as [res data|res v n|res n]; cbn in *; [lia| |nia].
  destruct Hc as (_ & Hn & _); pose proof (Z.div_mod blk 512 ltac:(lia)); rewrite ?le_length; nia.
Qed.

(** The bytes of a walk: the headers and the data of the last chunk. *)
Lemma walked_bytes done_ c1 c2 dsz off : cs = done_ ++ c1 ++ c2 -> walked done_ c1 c2 dsz off ->
  enc_all blk c1 = heads c1 ++ get (apply_all blk cs 0 f0) off (Z.to_nat dsz) /\ 0 <= dsz < 2 ^ 31 /\
  (dsz = 0 \/ 0 <= off /\ off mod 512 = 0 /\ off + dsz <= cap).
Proof.
  assert (forall l, Forall (fun c => payload c = []) l -> enc_all blk l = heads l) as Hno.
  { induction 1 as [|c l Hc _ IH]; [done|]; unfold enc_all in *; cbn [map concat]; rewrite IH; unfold enc; by rewrite Hc, app_nil_r. }
  intros Ec [c0 c -> F0 Hne -> ->| -> F0 ->]; [|split; [by rewrite app_nil_r, Hno|split; [lia|by left]]].
  assert (cs = (done_ ++ c0) ++ c :: c2) as Ec' by (by rewrite Ec, <- !app_assoc); destruct Hcs as (Fc & _ & Hs).
  pose proof Hpay as Hp; rewrite Ec', Forall_app, Forall_cons in Hp; destruct Hp as (_ & Hp & _); rewrite Nat2Z.id.
  split; [|split; [lia|right]].
  - rewrite Ec', chunk_back by (by rewrite <- Ec'); unfold enc_all; rewrite !map_app, !concat_app; fold (enc_all blk c0); rewrite (Hno c0 F0).
    cbn [map concat]; unfold enc; by rewrite !app_nil_r, app_assoc.
  - rewrite Ec', size_all_app in Hs; rewrite Ec', Forall_app, Forall_cons in Fc; destruct Fc as (F1 & Hc & F2); unfold size_all in Hs at 2; cbn [foldr] in Hs; fold (size_all blk c2) in Hs.
    pose proof (size_all_512 blk Hblk H512 _ F1); pose proof (size_all_512 blk Hblk H512 _ F2); split; [lia|]; split; [tauto|].
    pose proof (payload_le c Hc); lia.
Qed.

#[local] Abbreviation sloop := (sparse_loop v2_key_read).

(** One call of [optimus_sparse_get_chunk_data], after the bytes [pre]. *)
Lemma get_chunk_ok w done_ todo pre : cs = done_ ++ todo -> walking w (length done_) ->
  done_ = [] /\ pre = [] \/ pre = hdr ++ enc_all blk done_ /\ done_ <> [] ->
  exists c1 c2 dsz off seg p, todo = c1 ++ c2 /\ walked done_ c1 c2 dsz off /\
    optimus_sparse_get_chunk_data w = Some (0, p, Z.of_nat (length seg), dsz, off, at_chunk w (length (done_ ++ c1))) /\
    bytes_at (wmem w) p seg /\ INFO <= p /\ pre ++ seg = hdr ++ enc_all blk done_ ++ heads c1 /\ Z.of_nat (length seg) <= 2 ^ 21 /\
    (seg = [] -> todo = []).
Proof.
  intros Ec Hw Hpre; pose proof Hw as [R P B K A C L O]; unfold optimus_sparse_get_chunk_data; erewrite bind_some by reflexivity.
  assert (Z.of_nat (length done_ + length todo) * 12 + 28 <= 2 ^ 21) as Hfit.
  { destruct Hcs as (_ & Hf & _); unfold heads_fit, OPTIMUS_DOWNLOAD_SPS_VERIFY_BACK_INFO_SZ in Hf; rewrite Ec, length_app in Hf; lia. }
  assert (take (length done_) cs = done_) as Etk by (rewrite Ec; apply take_app_length); rewrite Etk in O.
  set (hsz := if leftChunkNum (sp w) =? 0 then 28 else 0).
  destruct (data_loop_ok todo w done_ hsz 0) as (c1 & c2 & dsz & off & Et & Hwk & El); try done; try (unfold hsz; destruct (_ =? 0); lia).
  replace (Z.to_nat (backChunkNum (sp w) - leftChunkNum (sp w))) with (length todo) by (rewrite C, L, Ec, length_app; lia).
  assert (forall l, Z.of_nat (length (heads l)) = 12 * Z.of_nat (length l)) as Hhl by (intros l; pose proof (heads_length blk hdr Hhdr l); rewrite length_app in *; lia).
  assert (cs = done_ ++ c1 ++ c2) as Ec' by (by rewrite Ec, Et); pose proof (f_equal (@length _) Et) as Hlt; rewrite length_app in Hlt.
  exists c1, c2, dsz, off; destruct Hpre as [[-> ->]|[-> Hne]].
  - exists (hdr ++ heads c1), INFO; unfold hsz in El; rewrite L in El |- *; change (Z.of_nat (length [] ) =? 0) with true in El |- *; cbv iota in El |- *; rewrite A.
    erewrite bind_some by exact El; assert (Z.of_nat (length (hdr ++ heads c1)) = 28 + 12 * Z.of_nat (length c1)) as -> by (specialize (Hhl c1); rewrite length_app; lia); split; [done|]; split; [done|]; split; [done|]; split.
    + rewrite Ec' in B; cbn [app] in B; rewrite map_app, concat_app, app_assoc in B; by apply bytes_at_app in B as [B _].
    + split; [done|]; split; [done|]; split; [lia|]; intros E; apply (f_equal (@length _)) in E; rewrite length_app, Hhdr in E; done.
  - assert (0 < length done_)%nat as Hd0 by (destruct done_; [done|cbn; lia]); exists (heads c1), (INFO + 28 + 12 * Z.of_nat (length done_)).
    unfold hsz in El; rewrite L in El |- *; rewrite (proj2 (Z.eqb_neq (Z.of_nat (length done_)) 0)) in El |- * by lia; cbv iota in El |- *; rewrite A.
    erewrite bind_some by exact El; rewrite Hhl; split; [done|]; split; [done|]; split; [done|]; split.
    + rewrite Ec', !map_app, !concat_app, app_assoc in B; apply bytes_at_app in B as [_ B]; rewrite (heads_length blk hdr Hhdr), Z.add_assoc in B.
      by apply bytes_at_app in B as [B _].
    + split; [lia|]; split; [by rewrite <- app_assoc|]; split; [lia|]; intros E; apply (f_equal (@length _)) in E; specialize (Hhl c1).
      destruct c1; [|cbn in *; lia]; destruct Hwk as [c0 c E1 _ _ _ _|E2 _ _]; [by destruct c0|by rewrite Et, E2].
Qed.

(** The data of the walk, possibly none. *)
Lemma read_data_ok w ctx msg off len : readable w -> tracks ctx msg -> 0 <= len < 2 ^ 31 -> len = 0 \/ 0 <= off /\ off mod 512 = 0 /\ off + len <= cap ->
  Z.of_nat (length msg) + len < 2 ^ 61 ->
  exists ctx' w', read_loop v2_key_read (read_fuel len) ctx off len w = Some (0, 0, ctx', w') /\ view w w' /\
    tracks ctx' (msg ++ get (contents (dev w) name) off (Z.to_nat len)).
Proof.
  intros Hr Ht Hl [->|(Ho & Hal & Hle)] Hm.
  - exists ctx, w; split; [done|]; split; [by split; try apply Hr|by rewrite app_nil_r].
  - apply read_loop_ok; try done; try lia; unfold read_fuel; change OPTIMUS_SHA1SUM_BUFFER_LEN with 8388608.
    pose proof (Z.div_mod len 8388608 ltac:(lia)); pose proof (Z.mod_pos_bound len 8388608 ltac:(lia)); pose proof (Z.div_pos len 8388608); lia.
Qed.

(** The whole walk. *)
Lemma sparse_loop_ok fuel : forall w ctx done_ todo pre, cs = done_ ++ todo -> walking w (length done_) ->
  done_ = [] /\ pre = [] \/ pre = hdr ++ enc_all blk done_ /\ (done_ <> [] \/ cs = []) -> tracks ctx pre -> (length todo < fuel)%nat ->
  exists ctx' w', sloop fuel ctx (Z.of_nat (length image) - Z.of_nat (length pre)) w = Some (0, 0, ctx', w') /\ tracks ctx' image /\ info w' = info w /\ sees w w'.
Proof.
  induction fuel as [|fuel IH]; intros w ctx done_ todo pre Ec Hw Hpre Ht Hf; [lia|]; cbn [sparse_loop].
  destruct (Z.eqb_spec (Z.of_nat (length image) - Z.of_nat (length pre)) 0) as [E0|E0].
  { exists ctx, w; rewrite E0; split; [done|]; split; [|split; [done|by apply sees_refl, (walking_readable _ _ Hw)]]; destruct Hpre as [[_ ->]|[-> _]]; [cbn in E0; rewrite length_app, Hhdr in E0; lia|].
    rewrite Ec, enc_all_app, app_assoc in E0 |- *; rewrite (length_app (hdr ++ _)) in E0; rewrite (nil_length_inv (enc_all blk todo)) by lia; by rewrite app_nil_r. }
  assert (done_ = [] /\ pre = [] \/ pre = hdr ++ enc_all blk done_ /\ done_ <> []) as Hpre'.
  { destruct Hpre as [|[-> [?|Hcs0]]]; [by left|by right|]; exfalso; apply E0.
    rewrite Hcs0 in Ec; symmetry in Ec; apply app_eq_nil in Ec as [-> _]; rewrite Hcs0; lia. }
  destruct (get_chunk_ok w done_ todo pre Ec Hw Hpre') as (c1 & c2 & dsz & off & seg & p & Et & Hwk & Eg & Hseg & Hp & Epre & Hseg21 & Hseg0).
  rewrite Et in Ec; destruct (walked_bytes done_ c1 c2 dsz off Ec Hwk) as (Eenc & Hdsz & Hoff).
  set (pre' := hdr ++ enc_all blk (done_ ++ c1)); assert (image = pre' ++ enc_all blk c2) as Ei by (unfold pre'; by rewrite Ec, app_assoc, enc_all_app, app_assoc).
  set (w1 := at_chunk w (length (done_ ++ c1))) in *; assert (walking w1 (length (done_ ++ c1))) as Hw1 by (by eapply walking_at).
  assert (pre ++ seg ++ get (contents (dev w1) name) off (Z.to_nat dsz) = pre') as Epre'.
  { rewrite app_assoc, Epre; unfold pre'; rewrite enc_all_app, Eenc, <- !app_assoc; do 3 f_equal; apply get_ext; intros a _; apply (walking_part _ _ Hw1). }
  pose proof (f_equal (fun l => Z.of_nat (length l)) Epre') as Hlp; pose proof (f_equal (fun l => Z.of_nat (length l)) Ei) as Hli; cbn beta in Hlp, Hli.
  rewrite !length_app, get_length in Hlp; rewrite (length_app pre') in Hli; rewrite Hli in E0 |- *; pose proof Himg as Himg'; rewrite Hli in Himg'.
  erewrite bind_some by exact Eg; cbn [Z.eqb negb]; erewrite bind_some by (unfold rd; rewrite Nat2Z.id, read_bytes_at by done; reflexivity).
  assert (tracks (Sha1.sha1_update ctx seg) (pre ++ seg)) as Ht1.
  { apply (Digest.update_tracks Sha1.sha1_process Sha1.H0 64); [lia|done|lia|rewrite length_app; lia]. }
  destruct (read_data_ok w1 (Sha1.sha1_update ctx seg) (pre ++ seg) off dsz) as (ctx2 & w2 & E2 & V2 & T2); try done; [apply Hw1|rewrite length_app; lia|].
  erewrite bind_some by exact E2; cbn [Z.eqb negb]; rewrite <- app_assoc, Epre' in T2; rewrite (wrap_small 32), (wrap_small 64) by lia.
  replace (Z.of_nat (length pre' + length (enc_all blk c2)) - Z.of_nat (length pre) - (Z.of_nat (length seg) + dsz)) with (Z.of_nat (length (enc_all blk c2))) by lia.
  destruct (Z.eqb_spec (Z.of_nat (length (enc_all blk c2))) 0) as [E3|E3]; cbn [negb andb].
  - exists ctx2, w2; rewrite E3; split; [by destruct fuel|]; split; [|split; [by rewrite (view_info _ _ V2)|by apply (sees_view w1)]].
    rewrite Ei, (nil_length_inv (enc_all blk c2)) by lia; by rewrite app_nil_r.
  - assert (c2 <> []) as Hc2 by (intros ->; done); assert (c1 <> []) as Hc1.
    { intros ->; destruct Hwk as [c0 c E1 _ _ _ _|E4 _ _]; [by destruct c0|done]. }
    rewrite (proj2 (Z.eqb_neq (Z.of_nat (length seg)) 0)) by (intros Es; apply Hc2; assert (todo = []) as -> by (apply Hseg0, nil_length_inv; lia); symmetry in Et; by apply app_eq_nil in Et as [_ ->]).
    destruct (IH w2 ctx2 (done_ ++ c1) c2 pre') as (ctx3 & w3 & E4 & T4 & I4 & S4); [by rewrite Ec, app_assoc|by eapply walking_view| |done| |].
    + right; split; [done|left; intros [_ ->]%app_eq_nil; done].
    + rewrite Et, length_app in Hf; destruct c1; [done|cbn in Hf; lia].
    + exists ctx3, w3; rewrite Hli in E4; rewrite Nat2Z.inj_add, Z.add_simpl_l in E4; split; [exact E4|]; split; [done|]; split; [by rewrite I4, (view_info _ _ V2)|]; eapply sees_trans; [|exact S4]; by apply (sees_view w1).
Qed.
End sparse.

(** ** The comparison *)

Context (sha1_buf : bytes) (Hbuf : length sha1_buf = 64%nat).
#[local] Abbreviation verify_partition := (optimus_sha1sum_verify_partition v2_key_read sha1_buf).

Lemma same_self s : cstr_ok s -> same s s = true.
Proof. intros Hs; unfold same; apply Z.eqb_eq; by apply strcmp_str_zero. Qed.

Lemma same_spec s t : cstr_ok s -> cstr_ok t -> same s t = bool_decide (s = t).
Proof.
  intros Hs Ht; unfold same; destruct (Z.eqb_spec (strcmp_str s t) 0) as [E|E].
  - apply strcmp_str_zero in E; [|done..]; by rewrite bool_decide_eq_true_2.
  - rewrite bool_decide_eq_false_2; [done|]; intros E'; apply E; by apply strcmp_str_zero.
Qed.

Lemma verify_text w img ver s w' : verify_partition (partName (info w)) (imgPktSz (info w)) (imgType (info w)) w = Some (0, Sha1.sha1 img, w') ->
  Forall byte_ok img -> cstr_ok s ->
  optimus_media_download_verify v2_key_read sha1_buf [ver; str "sha1sum"; s] w = Some (if bool_decide (hex_text (Sha1.sha1 img) = s) then 0 else 941, w').
Proof.
  intros E Fi Hs; unfold optimus_media_download_verify; change (negb (same (str "sha1sum") (str "sha1sum"))) with false; cbv iota.
  erewrite bind_some by reflexivity; erewrite bind_some by exact E; cbn [Z.eqb negb]; destruct (Sha1.sha1_bytes img Fi) as [F20 L20].
  rewrite hex_string by (done || lia); cbn [Z.eqb negb]; rewrite same_spec by (done || by apply hex_text_ok); unfold ret; by destruct (bool_decide _).
Qed.

(** The world while the partition is read. *)
Definition verifying (w : world D) : world D :=
  World (write_bytes (wmem w) BUF (replicate 1024 0xde)) (dev w) (set_sta OPTIMUS_IMG_STA_VERIFY_ING (info w)) (sp w) (_filledBufValidLen w) (_dtb_is_loaded w).

Lemma verifying_mem w a : INFO <= a -> wmem (verifying w) !! a = wmem w !! a.
Proof.
  intros Ha; clear - Ha; unfold verifying; cbn [wmem]; rewrite lookup_write_bytes, decide_False; [done|]; rewrite length_replicate; unfold OPTIMUS_SHA1SUM_BUFFER_ADDR; layout.
Qed.

Lemma verify_partition_ok w t mt nx T img ctx w2 : info w = mkInfo t OPTIMUS_IMG_STA_BURN_COMPLETE mt nx T T 0 1 name -> buffers_mapped (wmem w) ->
  is_store mt = true -> t <> IMG_TYPE_BOOTLOADER -> cstr_ok name -> 0 < T ->
  (IMG_TYPE_SPARSE = t -> forall w0 : world D, sp w0 = sp w -> (forall a, INFO <= a -> wmem w0 !! a = wmem w !! a) -> optimus_sparse_back_info_probe w0 = Some (OPT_DOWN_TRUE, w0)) ->
  (if IMG_TYPE_SPARSE =? t then sparse_loop v2_key_read (S (S (Z.to_nat (backChunkNum (sp w))))) (Sha1.sha1_starts sha1_buf) T
   else read_loop v2_key_read (read_fuel T) (Sha1.sha1_starts sha1_buf) 0 T) (verifying w) = Some (0, 0, ctx, w2) ->
  tracks ctx img -> Z.of_nat (length img) < 2 ^ 60 -> Forall byte_ok img -> info w2 = info (verifying w) -> sees (verifying w) w2 ->
  exists w', verify_partition name T t w = Some (0, Sha1.sha1 img, w') /\ imgBurnSta (info w') = OPTIMUS_IMG_STA_VERIFY_END /\ sees w w'.
Proof.
  intros Hi Hm Hmt Ht Hn HT Hpr El Htr Hl Fi Hi2 [Sg Sp Ss Sm Sb Sf]; unfold optimus_sha1sum_verify_partition; erewrite bind_some by reflexivity; rewrite Hi; cbn [partName].
  rewrite same_self by done; cbn [negb]; unfold is_optimus_burn_complete; unfold bind at 1; erewrite bind_some by reflexivity; rewrite Hi; cbn [imgBurnSta ret]; rewrite Z.eqb_refl; cbn [negb].
  assert (mapped (wmem w) BUF 1024) as Hm1 by (apply (mapped_sub _ LOW (Z.to_nat (FBUF + SLOT - LOW))); [exact Hm|unfold OPTIMUS_SHA1SUM_BUFFER_ADDR; layout..]).
  erewrite bind_some by (unfold on_mem; change 1024 with (Z.of_nat 1024); rewrite memset_correct by done; reflexivity).
  change (u8 0xde) with 0xde; set (w0 := World _ _ _ _ _ _).
  rewrite (proj2 (Z.eqb_neq IMG_TYPE_BOOTLOADER t)) by congruence.
  assert ((if IMG_TYPE_SPARSE =? t then optimus_sparse_back_info_probe else ret OPT_DOWN_TRUE) w0 = Some (OPT_DOWN_TRUE, w0)) as Ep.
  { destruct (Z.eqb_spec IMG_TYPE_SPARSE t); [|done]; apply Hpr; [done|done|]; exact (verifying_mem w). }
  erewrite bind_some by exact Ep; rewrite Z.eqb_refl; cbn [negb].
  assert (optimus_storage_open 0 0 w0 = Some (0, verifying w)) as Eo.
  { unfold optimus_storage_open, w0; erewrite bind_some by reflexivity; cbn [info]; rewrite Hi; cbn [imgSzDisposed imgPktSz imgBurnSta storageMediaType imgType devHdle].
    rewrite (proj2 (Z.eqb_neq T 0)), Z.eqb_refl, Hmt by lia; cbn [andb]; erewrite bind_some by reflexivity; rewrite andb_false_r; unfold verifying; by rewrite Hi. }
  erewrite bind_some by exact Eo; cbn [Z.eqb negb]; erewrite bind_some by reflexivity; cbn [verifying sp].
  erewrite bind_some by exact El; cbv beta iota; erewrite bind_some by reflexivity; rewrite Hi2; unfold verifying; rewrite Hi.
  destruct (Sha1.sha1_finish_digest ctx img Htr ltac:(lia) Fi) as [Ef _]; rewrite Ef.
  unfold optimus_storage_close; unfold bind at 1; erewrite bind_some by reflexivity; cbn [info set_disposed set_sta imgSzDisposed imgPktSz imgBurnSta].
  rewrite (proj2 (Z.eqb_neq 0 T)) by lia; eexists; split; [reflexivity|]; split; [done|]; split; try done.
  intros a Ha; cbn [wmem]; rewrite Sm by done; by apply verifying_mem.
Qed.
End verify.

Section after_burning.
Context {D : Type} `{HS : StorageSpec D} (v2_key_read : bytes -> Z -> Z -> M D Z) (sha1_buf : bytes) (Hbuf : length sha1_buf = 64%nat).
Context (name : bytes) (Hname : cstr_ok name) (cap : Z) (H40 : cap < 2 ^ 40) (f0 : Z -> Z) (mt : Z) (Hmt : is_store mt = true).
Context (ver s : bytes) (Hs : cstr_ok s).
#[local] Abbreviation verify := (optimus_media_download_verify v2_key_read sha1_buf [ver; str "sha1sum"; s]).
#[local] Abbreviation answer image := (if bool_decide (hex_text (Sha1.sha1 image) = s) then 0 else 941).

Lemma readable_verifying w t nx T : good (dev w) -> capacity (dev w) name = cap -> buffers_mapped (wmem w) -> t <> IMG_TYPE_BOOTLOADER ->
  info w = mkInfo t OPTIMUS_IMG_STA_BURN_COMPLETE mt nx T T 0 1 name -> readable name cap (verifying w).
Proof. intros Hg Hc Hm Ht Hi; split; unfold verifying; cbn [dev info wmem]; rewrite ?Hi; try done; by apply mapped_write. Qed.

Lemma normal_verified w image : normal_takes name image cap f0 mt 0 w [] -> image <> [] -> Forall byte_ok image -> Z.of_nat (length image) <= cap ->
  exists w', verify w = Some (answer image, w') /\ imgBurnSta (info w') = OPTIMUS_IMG_STA_VERIFY_END /\ sees w w'.
Proof.
  intros [sent [Es Hg Hc Hp Hm _ _ Hi]] Hne Fi Hl; rewrite app_nil_r in Es; subst sent; set (T := Z.of_nat (length image)) in *.
  assert (0 < T) as HT by (unfold T; destruct image; [done|cbn; lia]).
  assert (info w = mkInfo IMG_TYPE_NORMAL OPTIMUS_IMG_STA_BURN_COMPLETE mt T T T 0 1 name) as Hi' by (rewrite Hi; by destruct image).
  assert (readable name cap (verifying w)) as Hr by (by apply (readable_verifying w IMG_TYPE_NORMAL T T)).
  destruct (read_loop_ok v2_key_read name cap H40 (read_fuel T) (verifying w) (Sha1.sha1_starts sha1_buf) [] 0 T) as (ctx & w2 & El & V & Tr); try done; try lia.
  - exact (Sha1.sha1_starts_tracks sha1_buf Hbuf).
  - by right.
  - unfold read_fuel; change OPTIMUS_SHA1SUM_BUFFER_LEN with 8388608.
    pose proof (Z.div_mod T 8388608 ltac:(lia)); pose proof (Z.mod_pos_bound T 8388608 ltac:(lia)); pose proof (Z.div_pos T 8388608); lia.
  - cbn; lia.
  - assert (get (contents (dev (verifying w)) name) 0 (Z.to_nat T) = image) as Eg.
    { unfold T; rewrite Nat2Z.id; etransitivity; [|apply (get_put f0 image 0)]; apply get_ext; intros a _; apply Hp. }
    rewrite Eg in Tr; cbn [app] in Tr.
    destruct (verify_partition_ok v2_key_read name sha1_buf Hbuf w IMG_TYPE_NORMAL mt T T image ctx w2) as (w' & Ev & Hv); try done; [fold T; lia|apply V|by apply (sees_view (verifying w))|].
    exists w'; split; [|done]; apply verify_text; [done| |done|done]; by rewrite Hi'.
Qed.
(** Sparse images: the chunks with data are below 2 GB. *)
Context (blk : Z) (Hblk : 0 < blk < 2 ^ 32) (H512 : blk mod 512 = 0) (cs : list chunk) (Hcs : chunks_ok blk cap cs) (minor blks sum : Z).
Context (Hpay : Forall (fun c => Z.of_nat (length (payload c)) < 2 ^ 31) cs).
#[local] Abbreviation image := (simg blk cs minor blks sum).

Lemma simg_bytes : Forall byte_ok image.
Proof.
  unfold simg; apply Forall_app; split; [apply file_header_bytes|]; destruct Hcs as (Fc & _); clear - Fc Hblk; unfold enc_all.
  induction Fc as [|c l Hc _ IH]; [by apply Forall_nil|]; cbn [map concat]; apply Forall_app; split; [by apply (enc_bytes blk)|done].
Qed.

Lemma sparse_verified w : sparse_takes blk name cs minor blks sum cap f0 mt 0 w [] -> Z.of_nat (length image) < 2 ^ 60 ->
  exists w', verify w = Some (answer image, w') /\ imgBurnSta (info w') = OPTIMUS_IMG_STA_VERIFY_END /\ sees w w'.
Proof.
  intros Ht Hl; pose proof simg_bytes as Fimg; pose proof (file_header_length blk cs minor blks sum) as Hh; set (T := Z.of_nat (length image)).
  assert (28 <= T) as HT by (unfold T, simg; rewrite length_app; lia).
  inversion Ht as [|flash pe Hne Hst Hi E|flash Hst Hi]; [done|].
  assert (between blk name (file_header blk cs minor blks sum) cap f0 w cs [] 0) as Hbt by (eapply stream_end; eauto); destruct Hbt as (B & Hlc & _ & _ & Hp).
  destruct B as [Hg _ _ Hc Hb Ha Hk Hheads Hm _ Ho]; fold T in Hi.
  assert (readable name cap (verifying w)) as Hr by (by apply (readable_verifying w IMG_TYPE_SPARSE (flash * 512) T)).
  assert (walking name cap blk cs (file_header blk cs minor blks sum) f0 (verifying w) 0) as Hw.
  { split; try done; intros i x Hix; rewrite verifying_mem by lia; by apply Hheads. }
  destruct (sparse_loop_ok v2_key_read name cap H40 blk Hblk H512 cs (file_header blk cs minor blks sum) Hh Hcs f0 Hpay Hl (S (S (length cs)))
    (verifying w) (Sha1.sha1_starts sha1_buf) [] cs []) as (ctx & w2 & El & Tr & Hi2 & Hsee); try done; [by left|by apply Sha1.sha1_starts_tracks|lia|].
  destruct (verify_partition_ok v2_key_read name sha1_buf Hbuf w IMG_TYPE_SPARSE mt (flash * 512) T image ctx w2) as (w' & Ev & Hv); try done; try lia.
  - intros _ w0 Es Em; unfold optimus_sparse_back_info_probe; erewrite bind_some by reflexivity; rewrite Es, Hlc, Ha; cbn [Z.eqb length Z.of_nat negb].
    apply (probe_ok blk cs minor blks sum w0); [|done]; apply bytes_at_app in Hheads as [Hhd _]; intros i x Hix; rewrite Em by lia; by apply Hhd.
  - rewrite Hk, Nat2Z.id; cbn [length Z.of_nat] in El; rewrite Z.sub_0_r in El; exact El.
  - exists w'; split; [|done]; apply verify_text; [done|by rewrite Hi|done|done].
Qed.
End after_burning.

End BurnVerify.
