(* ===== verification/SdcBurn.v ===== *)
(** * Burning the partitions of a package
    (drivers/usb/gadget/v2_burning/v2_sdc_burn/optimus_sdc_burn.c)

    A package holds an item PARTITION for every partition and an item VERIFY
    with the text "sha1sum" and a digest.  [optimus_burn_one_partition] burns
    one, over the buffer manager and the download code, and verifies it.

    The package reader (optimus_img_decoder.c over FAT or the storage) is the
    class [Package], of which ImgDecoder.v gives the instance.  The values of
    __LINE__ are as in the source; output is left out. *)

From S2P Require Import Prelude CString CArray Ctype Cli Digest Sha1 Burn Sparse Download BufManager BurnVerify.

Module SdcBurn.
Import CString CArray Burn Sparse Download BufManager BurnVerify.
#[local] Open Scope burn_scope.

Definition ITEM_NOT_EXIST : Z := 0x55.
Definition IMAGE_ITEM_TYPE_NORMAL : Z := 0.
Definition IMAGE_ITEM_TYPE_SPARSE : Z := 0xFE.
Definition MaxSz : Z := 64 - 7.
Definition CONFIG_SYS_MAXARGS : nat := 64.

(** The items of a package: opening one by its types, which gives the item, or
    the package when there is none, its size, its format and the distance from
    its start to the end of the cluster it starts in.  An item stands for the
    package moved to its data; closing it gives the package back. *)
Class Package (P I : Type) := {
  image_item_open : P -> bytes -> bytes -> I + P;
  image_item_close : I -> P;
  image_item_get_size : I -> Z;
  image_item_get_type : I -> Z;
  image_item_get_first_cluster_size : I -> Z }.

(** The text in an array of characters. *)
Fixpoint before_nul (l : bytes) : bytes := match l with [] => [] | c :: l' => if c =? 0 then [] else c :: before_nul l' end.

Section code.
Context {D : Type} `{Storage D} (device_boot_flag disk_inited : Z) (part_table : list partition).
#[local] Abbreviation M := (Burn.M D).
Context (v2_key_burn v2_key_read : bytes -> Z -> Z -> M Z) (sha1_buf : bytes) (CmdVerify : Z).
Context {P I : Type} `{Item D I} `{Package P I}.

(** Runs an operation on an array of [n] bytes at an address of the stack:
    nothing else is mapped.  The result, what is in the array, and the world. *)
Definition on_array {A} (p : Z) (n : nat) (f : M A) : M (A * bytes) := fun w =>
  match f (with_mem w (write_bytes ∅ p (replicate n 0))) with
  | Some (a, w') => text ← read_bytes (wmem w') p n; Some (a, text, with_mem w' (wmem w))
  | None => None
  end.

(** [CmdVerify], at an address on the stack, has room for 64 bytes and [argv]
    for four pointers, the last one for the NULL behind two words. *)
Definition optimus_verify_partition (name : bytes) (hImg : P) : M (Z * P) :=
  match image_item_open hImg (str "VERIFY") name with
  | inr hImg => ret (ITEM_NOT_EXIST, hImg)
  | inl hImgItem =>
      let imgItemSz := s32 (image_item_get_size hImgItem) in
      if (MaxSz <? imgItemSz) || (imgItemSz =? 0) then ret (91, image_item_close hImgItem)
      else
        '(r, hImgItem, text) <- on_array CmdVerify 64 (image_item_read hImgItem CmdVerify (u32 imgItemSz));
        let hImg := image_item_close hImgItem in
        if negb (r =? 0) then ret (r, hImg)
        else if imgItemSz <? 0 then fault
        else
          let '(args, _) := Cli.cli_simple_parse_line CONFIG_SYS_MAXARGS (before_nul (take (Z.to_nat imgItemSz) text)) in
          if (2 <? length args)%nat then fault
          else if negb (Z.of_nat (length args) =? 2) then ret (107, hImg)
          else
            r <- optimus_media_download_verify v2_key_read sha1_buf (str "verify" :: args);
            ret (if negb (r =? 0) then 113 else 0, hImg)
  end.

(** The return value, the package and the buffer manager. *)
Definition optimus_burn_one_partition (b : BufManager) (name : bytes) (hImg : P) (NeedVerify : bool) : M (Z * P * BufManager) :=
  match image_item_open hImg (str "PARTITION") name with
  | inr hImg => ret (142, hImg, b)
  | inl hImgItem =>
      let imgItemSz := s64 (image_item_get_size hImgItem) in
      let fileFmt := if IMAGE_ITEM_TYPE_SPARSE =? image_item_get_type hImgItem then str "sparse" else str "normal" in
      let itemSizeNotAligned := image_item_get_first_cluster_size hImgItem in
      '(rcode, hImgItem, b) <- burn_item device_boot_flag disk_inited v2_key_burn v2_key_read part_table b name hImgItem imgItemSz fileFmt itemSizeNotAligned;
      let hImg := image_item_close hImgItem in
      if negb (rcode =? 0) then ret (rcode, hImg, b)
      else if negb NeedVerify then ret (rcode, hImg, b)
      else
        '(rcode, hImg) <- optimus_verify_partition name hImg;
        ret (if ITEM_NOT_EXIST =? rcode then 0 else if negb (rcode =? 0) then 224 else rcode, hImg, b)
  end.

(** The loop of [optimus_sdc_burn_partitions] over the partitions configured. *)
Fixpoint burn_parts (b : BufManager) (names : list bytes) (hImg : P) (NeedVerify : bool) : M (Z * P * BufManager) :=
  match names with
  | [] => ret (0, hImg, b)
  | name :: names' =>
      '(rcode, hImg, b) <- optimus_burn_one_partition b name hImg NeedVerify;
      if negb (rcode =? 0) then ret (261, hImg, b) else burn_parts b names' hImg NeedVerify
  end.

Definition optimus_burn_bootlader (b : BufManager) (hImg : P) : M (Z * P * BufManager) :=
  '(rcode, hImg, b) <- optimus_burn_one_partition b (str "bootloader") hImg true;
  ret (if negb (rcode =? 0) then 283 else rcode, hImg, b).
End code.

(** ** A partition holds its image *)

(** What is burned: the bytes of a partition, or a sparse image. *)
Inductive source :=
  | Plain (data : bytes)
  | SparseFile (blk : Z) (cs : list chunk) (minor blks sum : Z).

Definition bytes_of (src : source) : bytes :=
  match src with Plain data => data | SparseFile blk cs minor blks sum => simg blk cs minor blks sum end.
Definition is_sparse (src : source) : bool := match src with Plain _ => false | SparseFile _ _ _ _ _ => true end.

(** The partition afterwards, given what it held. *)
Definition expand (src : source) (f : Z -> Z) : Z -> Z :=
  match src with Plain data => put f 0 data | SparseFile blk cs _ _ _ => apply_all blk cs 0 f end.

(** Conditions on the partition and the memory. *)
Definition target {D} `{StorageSpec D} (part_table : list partition) (d : D) (name : bytes) (sectors : Z) : Prop :=
  capacity d name = sectors * 512 /\ size_part d name = Some sectors /\ sectors * 512 < 2 ^ 40 /\
  _assert_logic_partition_cap part_table name (sectors * 512) = Some 0 /\
  cstr_ok name /\ (length name <= 47)%nat /\ same (str "bootloader") name = false.
Definition prepared {D} `{StorageSpec D} (w : world D) : Prop :=
  good (dev w) /\ buffers_mapped (wmem w) /\ fill_ok (wmem w) (_filledBufValidLen w).

(** An item of [T] bytes whose first cluster has [ns] bytes.  When what
    remains behind them is a whole number of slots, it has to be a whole number
    of write-back units. *)
Record item_fits (sparse : bool) (sectors ns T : Z) : Prop := {
  fits_ns : 0 <= ns <= 2 ^ 20 /\ ns mod 4 = 0 /\ ns < T;
  fits_part : T <= sectors * 512;
  fits_end : (T - ns) mod 65536 <> 0 \/ (T - ns) mod (per_unit ns sparse * 65536) = 0 }.

(** A word without blanks. *)
Definition word (s : bytes) : Prop := s <> [] /\ Forall (fun c => 0 < c < 256 /\ Ctype.isblank c = false) s.

(** A sparse image: its sizes, no fill chunk whose value is split by the end of
    a write-back, and where the code relies on erased storage, erased storage. *)
Definition source_ok (device_boot_flag disk_inited cap ns : Z) (f0 : Z -> Z) (src : source) : Prop :=
  match src with
  | Plain _ => True
  | SparseFile blk cs minor blks sum =>
      0 < blk < 2 ^ 32 /\ blk mod 512 = 0 /\ chunks_ok blk cap cs /\ Forall (fun c => Z.of_nat (length (payload c)) < 2 ^ 31) cs /\
      (forall j, 0 < j -> j * 2 ^ 26 < Z.of_nat (length (bytes_of src)) - ns -> no_split blk cs (j * 2 ^ 26 - 28)) /\
      (forall v a, need_fill device_boot_flag disk_inited v = false -> 0 <= a < cap -> f0 a = nth (Z.to_nat (a mod 4)) (le 4 v) 0)
  end.

(** Whatever was read of an item, the package is intact when it is closed. *)
Class PackageSpec (D P I : Type) `{ItemSpec D I} `{!Package P I} := {
  intact : P -> Prop;
  close_intact : forall item l, delivers item l -> intact (image_item_close item) }.

Section burned.
Context {D : Type} `{HS : StorageSpec D} (device_boot_flag disk_inited : Z) (part_table : list partition).
Context (v2_key_burn v2_key_read : bytes -> Z -> Z -> M D Z) (sha1_buf : bytes) (Hbuf : length sha1_buf = 64%nat) (CmdVerify : Z).
Context {P I : Type} `{IS : ItemSpec D I} `{HP : !Package P I} `{!PackageSpec D P I}.
#[local] Abbreviation burn_one := (optimus_burn_one_partition device_boot_flag disk_inited part_table v2_key_burn v2_key_read sha1_buf CmdVerify).

(** The item of a partition in an intact package. *)
Record item_of (name : bytes) (src : source) (ns : Z) (item : I) : Prop := {
  packed_size : image_item_get_size item = Z.of_nat (length (bytes_of src));
  packed_type : image_item_get_type item = if is_sparse src then IMAGE_ITEM_TYPE_SPARSE else IMAGE_ITEM_TYPE_NORMAL;
  packed_first : image_item_get_first_cluster_size item = ns;
  packed_data : delivers item (bytes_of src);
  packed_phase : (phase item + ns) mod 512 = 0 }.

Definition packed (name : bytes) (src : source) (ns : Z) : Prop :=
  forall hImg, intact hImg -> exists item, image_item_open hImg (str "PARTITION") name = inl item /\ item_of name src ns item.

(** The text of its item VERIFY, if there is one. *)
Definition verify_item (name : bytes) (s : option bytes) : Prop :=
  match s with
  | None => forall hImg, intact hImg -> exists hImg', image_item_open hImg (str "VERIFY") name = inr hImg' /\ intact hImg'
  | Some s => word s /\ (length s <= 49)%nat /\ forall hImg, intact hImg -> exists item, image_item_open hImg (str "VERIFY") name = inl item /\
      image_item_get_size item = 8 + Z.of_nat (length s) /\ delivers item (str "sha1sum " ++ s) /\
      ((CmdVerify - phase item) mod 512 = 0 \/ inside item (8 + Z.of_nat (length s)))
  end.

Lemma parse_verify s : word s -> Cli.cli_simple_parse_line CONFIG_SYS_MAXARGS (str "sha1sum " ++ s) = ([str "sha1sum"; s], true).
Proof.
  intros [Hne Fs]; assert (Cli.take_word s = (s, [])) as Et.
  { clear - Fs; induction Fs as [|c s [_ Hc] _ IH]; [done|]; cbn [Cli.take_word]; rewrite Hc, IH; done. }
  destruct s as [|c s]; [done|]; apply Forall_cons in Fs as [[_ Hc] _]; unfold Cli.cli_simple_parse_line, CONFIG_SYS_MAXARGS.
  change (str "sha1sum ") with (str "sha1sum" ++ [32]); rewrite <- app_assoc.
  assert (forall n l, Cli.parse_loop (S n) (str "sha1sum" ++ 32 :: l) = let '(a, t) := Cli.parse_loop n l in (str "sha1sum" :: a, t)) as E1 by (intros; reflexivity).
  cbn [app]; rewrite E1; cbn [Cli.parse_loop Cli.skip_blanks]; by rewrite Hc, Et.
Qed.

(** A text in an array of zeros. *)
Lemma array_write p text n : (length text <= n)%nat ->
  write_bytes ∅ p (text ++ replicate (n - length text) 0) = write_bytes (write_bytes ∅ p (replicate n 0)) p text.
Proof.
  intros Hl; apply map_eq; intros a; rewrite !lookup_write_bytes, length_app, !length_replicate.
  destruct (decide (p <= a < p + Z.of_nat (length text))); [rewrite decide_True by lia; apply lookup_app_l; lia|].
  destruct (decide (p <= a < p + Z.of_nat n)); [|by rewrite decide_False by lia].
  rewrite decide_True, lookup_app_r by lia; rewrite !lookup_replicate_2 by lia; done.
Qed.

Lemma before_nul_id s : Forall (fun c => c <> 0) s -> before_nul s = s.
Proof. induction 1 as [|c s Hc _ IH]; [done|]; cbn; rewrite (proj2 (Z.eqb_neq c 0)) by done; by rewrite IH. Qed.

#[local] Abbreviation verify_one := (optimus_verify_partition v2_key_read sha1_buf CmdVerify).

(** The answer of the verification. *)
Lemma verify_answer w hImg name image s : intact hImg -> verify_item name s -> sees w w ->
  (forall t, cstr_ok t -> exists w', optimus_media_download_verify v2_key_read sha1_buf [str "verify"; str "sha1sum"; t] w =
     Some (if bool_decide (hex_text (Sha1.sha1 image) = t) then 0 else 941, w') /\ sees w w') ->
  exists hImg' w', verify_one name hImg w =
    Some (match s with None => ITEM_NOT_EXIST | Some t => if bool_decide (hex_text (Sha1.sha1 image) = t) then 0 else 113 end, hImg', w') /\
    intact hImg' /\ sees w w'.
Proof.
  intros Hi Hv Hw Ht; unfold optimus_verify_partition; destruct s as [t|]; [|destruct (Hv hImg Hi) as (hImg' & -> & Hi'); by exists hImg', w].
  destruct Hv as (Hword & Hl & Hv); destruct (Hv hImg Hi) as (item & Eo & Es & Hd & Hin); clear Hv; rewrite Eo, Es.
  assert (cstr_ok t) as Hc by (destruct Hword as [_ Fw]; eapply Forall_impl; [exact Fw|]; by intros c [? _]).
  assert (length (str "sha1sum " ++ t) = (8 + length t)%nat) as Hlen by (by rewrite length_app).
  assert (Z.of_nat (length (str "sha1sum " ++ t)) = 8 + Z.of_nat (length t)) as HlenZ by lia.
  set (text := str "sha1sum " ++ t) in *; assert (read_bytes (write_bytes (write_bytes ∅ CmdVerify (replicate 64 0)) CmdVerify text) CmdVerify 64 = Some (text ++ replicate (64 - length text) 0)) as Etext.
  { rewrite <- (array_write CmdVerify text 64) by lia; pose proof (read_bytes_at (text ++ replicate (64 - length text) 0) _ CmdVerify (bytes_at_write ∅ CmdVerify _)) as E.
    by replace (length (text ++ replicate (64 - length text) 0)) with 64%nat in E by (rewrite length_app, length_replicate; lia). }
  rewrite <- (app_nil_r text) in Hd; destruct (read_item (with_mem w (write_bytes ∅ CmdVerify (replicate 64 0))) item CmdVerify _ [] Hd) as (item' & Er & Hd' & _).
  { done. }
  { rewrite Hlen; intros i Hlt; cbn [wmem with_mem]; rewrite lookup_write_bytes, decide_True by (rewrite length_replicate; lia); exists 0; apply lookup_replicate; split; [done|lia]. }
  { by rewrite HlenZ. }
  rewrite s32_small by lia; rewrite (proj2 (Z.ltb_ge MaxSz _)), (proj2 (Z.eqb_neq (8 + _) 0)) by (unfold MaxSz; lia); cbn [orb]; rewrite wrap_small by lia.
  rewrite HlenZ in Er; cbn [wmem with_mem] in Er; erewrite bind_some.
  2: { unfold on_array; rewrite Er; cbn [wmem with_mem]; rewrite Etext; reflexivity. }
  cbn [Z.eqb negb]; rewrite (proj2 (Z.ltb_ge (8 + _) 0)) by lia.
  replace (Z.to_nat (8 + Z.of_nat (length t))) with (length text) by lia; rewrite take_app_length.
  replace (with_mem _ (wmem w)) with w by (by destruct w); unfold text in *.
  assert (Forall (fun c => c <> 0) (str "sha1sum " ++ t)) as Fn.
  { apply Forall_app; split; [repeat (apply Forall_cons; split; [done|]); by apply Forall_nil|eapply Forall_impl; [exact Hc|]; intros c Hx; unfold char_ok in Hx; lia]. }
  rewrite before_nul_id, parse_verify by done.
  destruct (Ht t Hc) as (w' & E & S'); exists (image_item_close item'), w'; split; [|split; [by eapply close_intact|done]].
  change (2 <? length [str "sha1sum"; t])%nat with false; change (negb (Z.of_nat (length [str "sha1sum"; t]) =? 2)) with false; cbv iota; erewrite bind_some by exact E; unfold ret; by destruct (bool_decide _).
Qed.

(** What a burn achieves: the partition, the rest of the storage, and what the
    verification says later. *)
Definition achieved (w w' : world D) (name : bytes) (src : source) : Prop :=
  (forall a, contents (dev w') name a = expand src (contents (dev w) name) a) /\ untouched name (dev w) (dev w') /\ prepared w' /\
  (forall t, cstr_ok t -> exists w'', optimus_media_download_verify v2_key_read sha1_buf [str "verify"; str "sha1sum"; t] w' =
     Some (if bool_decide (hex_text (Sha1.sha1 (bytes_of src)) = t) then 0 else 941, w'') /\ sees w' w'').

#[local] Abbreviation burn := (burn_item device_boot_flag disk_inited v2_key_burn v2_key_read part_table).

Lemma plain_burned w b name data ns item sectors : prepared w -> target part_table (dev w) name sectors ->
  item_fits false sectors ns (Z.of_nat (length data)) -> delivers item data -> (phase item + ns) mod 512 = 0 ->
  exists item' b' w', burn b name item (Z.of_nat (length data)) (str "normal") ns w = Some (0, item', b', w') /\ delivers item' [] /\ achieved w w' name (Plain data).
Proof.
  intros (Hg & Hm & Hf) (Hc & Hsz & H40 & Htab & Hn & Hl47 & Hboot) [(Hns & Hns4 & HnsT) Hfit Hend] Hd Hph.
  pose proof (delivers_bytes _ _ Hd) as Fd; assert (data <> []) as Hne by (intros ->; cbn in HnsT; lia).
  pose proof (normal_consumer device_boot_flag disk_inited v2_key_burn name data Fd (sectors * 512) (contents (dev w) name) OPTIMUS_MEDIA_TYPE_STORE 0 eq_refl Hfit H40) as HC.
  destruct (burn_item_ok device_boot_flag disk_inited v2_key_burn v2_key_read part_table name data Fd Hboot Hl47 sectors ns Htab Hns Hns4 H40 HnsT Hfit w b item false _ _ HC Hsz Hd Hph Hend)
    as (item' & b' & w' & E & Hd' & Ht & Ho).
  - intros j Hj Hjt; unfold normal_ends; replace (Z.of_nat (length data) - (Z.of_nat (length data) - j * (per_unit ns false * 65536))) with (j * per_unit ns false * 128 * 512) by lia.
    by rewrite Z.mod_mul.
  - exists []; split; try done; [by intros a; rewrite put_nil|by right].
  - exists item', b', w'; split; [exact E|]; split; [done|]; pose proof (takes_good _ _ Ht) as [Hg' Hf']; pose proof (takes_mapped _ _ Ht) as Hm'.
    split; [|split; [done|split; [done|]]].
    + intros a; destruct Ht as [sent []]; by rewrite app_nil_r in *; subst.
    + intros t Ht'; destruct (normal_verified v2_key_read sha1_buf Hbuf name Hn (sectors * 512) H40 (contents (dev w) name) OPTIMUS_MEDIA_TYPE_STORE eq_refl (str "verify") t Ht' w' data) as (w'' & Ev & _ & Hs); eauto.
Qed.

Lemma sparse_burned w b name blk cs minor blks sum ns item sectors : prepared w -> target part_table (dev w) name sectors ->
  item_fits true sectors ns (Z.of_nat (length (simg blk cs minor blks sum))) -> delivers item (simg blk cs minor blks sum) -> (phase item + ns) mod 512 = 0 ->
  source_ok device_boot_flag disk_inited (sectors * 512) ns (contents (dev w) name) (SparseFile blk cs minor blks sum) ->
  exists item' b' w', burn b name item (Z.of_nat (length (simg blk cs minor blks sum))) (str "sparse") ns w = Some (0, item', b', w') /\
    delivers item' [] /\ achieved w w' name (SparseFile blk cs minor blks sum).
Proof.
  intros (Hg & Hm & Hf) (Hc & Hsz & H40 & Htab & Hn & Hl47 & Hboot) [(Hns & Hns4 & HnsT) Hfit Hend] Hd Hph (Hblk & H512 & Hcs & Hpay & Hsplit & Herased).
  pose proof (delivers_bytes _ _ Hd) as Fd; set (image := simg blk cs minor blks sum) in *.
  assert (Z.of_nat (length image) < 2 ^ 60) as H60 by lia; assert (Z.of_nat (length image) < 2 ^ 63) as H63 by lia.
  assert (Z.of_nat (length image) = 28 + all_len blk cs) as Hlen by apply image_length.
  assert (Z.of_nat (length image) mod 4 = 0) as Hlen4.
  { rewrite Hlen, Z.add_mod by lia; assert (all_len blk cs mod 4 = 0) as -> by (destruct Hcs as (Fc & _); unfold all_len; by apply (enc_all_4 blk Hblk H512 _ (file_header_length blk cs minor blks sum))); done. }
  pose proof (sparse_consumer device_boot_flag disk_inited v2_key_burn blk Hblk H512 name cs minor blks sum (sectors * 512) (contents (dev w) name) H40 Herased Hcs
    OPTIMUS_MEDIA_TYPE_STORE 0 eq_refl H63) as HC.
  destruct (burn_item_ok device_boot_flag disk_inited v2_key_burn v2_key_read part_table name image Fd Hboot Hl47 sectors ns Htab Hns Hns4 H40 HnsT Hfit w b item true _ _ HC Hsz Hd Hph Hend)
    as (item' & b' & w' & E & Hd' & Ht & Ho).
  - intros j Hj Hjt; change (per_unit ns true * 65536) with (2 ^ 26) in *; split; [|rewrite Zminus_mod, Hlen4; replace (j * 2 ^ 26) with (j * 2 ^ 24 * 4) by lia; by rewrite Z.mod_mul].
    replace (all_len blk cs - (Z.of_nat (length image) - j * 2 ^ 26)) with (j * 2 ^ 26 - 28) by lia; by apply Hsplit.
  - by constructor 1.
  - exists item', b', w'; split; [exact E|]; split; [done|]; pose proof (takes_good _ _ Ht) as [Hg' Hf']; pose proof (takes_mapped _ _ Ht) as Hm'.
    split; [|split; [done|split; [done|]]].
    + inversion Ht as [|flash pe Hne Hst Hi Ee|flash Hst Hi]; [done|].
      assert (between blk name (file_header blk cs minor blks sum) (sectors * 512) (contents (dev w) name) w' cs [] 0) as (_ & _ & _ & _ & Hp) by (eapply stream_end; [apply file_header_length|exact Hst]); exact Hp.
    + intros t Ht'; destruct (sparse_verified v2_key_read sha1_buf Hbuf name Hn (sectors * 512) H40 (contents (dev w) name) OPTIMUS_MEDIA_TYPE_STORE eq_refl (str "verify") t Ht'
        blk Hblk H512 cs Hcs minor blks sum Hpay w' Ht H60) as (w'' & Ev & _ & Hs); eauto.
Qed.

(** The result code for the text of the item VERIFY. *)
Definition verdict (image : bytes) (s : option bytes) : Z :=
  match s with None => 0 | Some t => if bool_decide (hex_text (Sha1.sha1 image) = t) then 0 else 224 end.

Lemma sees_prepared w w' : prepared w -> sees w w' -> prepared w'.
Proof. intros (_ & _ & Hf) [Hg _ _ Hmem Hm Hfl]; split; [done|]; split; [done|]; rewrite Hfl; by eapply fill_ok_mem. Qed.

Lemma one_burned w b hImg name src ns sectors s : prepared w -> intact hImg -> target part_table (dev w) name sectors ->
  item_fits (is_sparse src) sectors ns (Z.of_nat (length (bytes_of src))) -> source_ok device_boot_flag disk_inited (sectors * 512) ns (contents (dev w) name) src ->
  packed name src ns -> verify_item name s ->
  exists hImg' b' w', burn_one b name hImg true w = Some (verdict (bytes_of src) s, hImg', b', w') /\ intact hImg' /\
    (forall a, contents (dev w') name a = expand src (contents (dev w) name) a) /\ untouched name (dev w) (dev w') /\ prepared w'.
Proof.
  intros Hp Hi Ht Hfit Hok Hpk Hv; destruct (Hpk hImg Hi) as (item & Ho & [Hsz Hty Hfc Hd Hph]); unfold optimus_burn_one_partition; rewrite Ho, Hsz, Hty, Hfc.
  assert (exists item' b' w', burn b name item (Z.of_nat (length (bytes_of src))) (if is_sparse src then str "sparse" else str "normal") ns w = Some (0, item', b', w') /\
    delivers item' [] /\ achieved w w' name src)
    as (item' & b' & w' & E & Hd' & Ha & Hu & Hp' & Hver) by (destruct src; [by eapply plain_burned|by eapply sparse_burned]).
  rewrite s64_small by (destruct Ht as (_ & _ & H40 & _); pose proof (fits_part _ _ _ _ Hfit); lia).
  replace (if IMAGE_ITEM_TYPE_SPARSE =? _ then _ else _) with (if is_sparse src then str "sparse" else str "normal") by (by destruct (is_sparse src)).
  erewrite bind_some by exact E; cbn [Z.eqb negb].
  assert (sees w' w') as Hw' by (destruct Hp' as (? & ? & ?); by split).
  destruct (verify_answer w' (image_item_close item') name (bytes_of src) s (close_intact _ _ Hd') Hv Hw' Hver) as (hImg' & w2 & E2 & Hi2 & S2).
  exists hImg', b', w2; split; [|split; [done|split; [|split; [|by eapply sees_prepared]]]].
  - erewrite bind_some by exact E2; unfold ret, verdict; destruct s as [t|]; [|done]; by destruct (bool_decide _).
  - intros a; by rewrite (sees_part _ _ S2).
  - eapply untouched_trans; [exact Hu|]; split; [intros q a _; apply S2|apply S2].
Qed.

(** *** All partitions *)

Record job := Job {
  j_name : bytes;
  j_src : source;
  j_ns : Z;
  j_sectors : Z;
  j_text : option bytes }.

Definition job_ok (d : D) (j : job) : Prop :=
  target part_table d (j_name j) (j_sectors j) /\
  item_fits (is_sparse (j_src j)) (j_sectors j) (j_ns j) (Z.of_nat (length (bytes_of (j_src j)))) /\
  source_ok device_boot_flag disk_inited (j_sectors j * 512) (j_ns j) (contents d (j_name j)) (j_src j) /\
  packed (j_name j) (j_src j) (j_ns j) /\ verify_item (j_name j) (j_text j).

Definition passes (j : job) : bool := verdict (bytes_of (j_src j)) (j_text j) =? 0.

Lemma apply_all_ext blk cs : forall off f g a, (forall x, f x = g x) -> apply_all blk cs off f a = apply_all blk cs off g a.
Proof.
  induction cs as [|c cs IH]; intros off f g a Hfg; [apply Hfg|]; cbn [apply_all]; apply IH; intros x.
  destruct c; cbn; [by apply put_ext..|apply Hfg].
Qed.

Lemma expand_ext src f g a : (forall x, f x = g x) -> expand src f a = expand src g a.
Proof. intros Hfg; destruct src; cbn; [by apply put_ext|by apply apply_all_ext]. Qed.

Lemma job_ok_untouched name d d' j : untouched name d d' -> j_name j <> name -> job_ok d j -> job_ok d' j.
Proof.
  intros [Ho Hs] Hne ((Hc & Hsz & H40 & Ht) & Hf & Hok & Hp); destruct (Hs (j_name j)) as [Ec Es].
  split; [split; [by rewrite Ec|split; [by rewrite Es|by split]]|]; split; [done|]; split; [|done].
  destruct (j_src j); [done|]; destruct Hok as (? & ? & ? & ? & ? & Her); repeat (split; [done|]); intros v a Hv Ha; rewrite Ho by done; by apply Her.
Qed.

Lemma parts_burned js : forall w b hImg, prepared w -> intact hImg -> NoDup (map j_name js) -> Forall (job_ok (dev w)) js ->
  exists hImg' b' w', burn_parts device_boot_flag disk_inited part_table v2_key_burn v2_key_read sha1_buf CmdVerify b (map j_name js) hImg true w =
      Some (if forallb passes js then 0 else 261, hImg', b', w') /\ prepared w' /\
    (forallb passes js = true -> Forall (fun j => forall a, contents (dev w') (j_name j) a = expand (j_src j) (contents (dev w) (j_name j)) a) js) /\
    (forall q a, q ∉ map j_name js -> contents (dev w') q a = contents (dev w) q a).
Proof.
  induction js as [|j js IH]; intros w b hImg Hp Hi Hnd Fj; [by exists hImg, b, w|]; apply NoDup_cons in Hnd as [Hni Hnd]; apply Forall_cons in Fj as [(Ht & Hf & Hok & Hpk & Hv) Fj].
  destruct (one_burned w b hImg _ _ _ _ _ Hp Hi Ht Hf Hok Hpk Hv) as (p1 & b1 & w1 & E1 & Hi1 & Hc1 & Hu1 & Hp1); cbn [map burn_parts forallb].
  erewrite bind_some by exact E1; cbv beta iota; fold (passes j); destruct (passes j) eqn:Epass; cbn [negb andb].
  - destruct (IH w1 b1 p1 Hp1 Hi1 Hnd) as (p2 & b2 & w2 & E2 & Hp2 & Hc2 & Ho2).
    { rewrite Forall_forall in Fj |- *; intros j' Hj'; eapply job_ok_untouched; [exact Hu1| |by apply Fj]; intros E; apply Hni; rewrite <- E; by apply list_elem_of_fmap_2. }
    exists p2, b2, w2; split; [exact E2|]; split; [done|]; split.
    + intros Hall; specialize (Hc2 Hall); apply Forall_cons; split; [intros a; by rewrite Ho2, Hc1|].
      rewrite Forall_forall in Hc2 |- *; intros j' Hj' a; rewrite Hc2 by done; apply expand_ext; intros x; apply Hu1.
      intros E; apply Hni; rewrite <- E; by apply list_elem_of_fmap_2.
    + intros q a Hq; rewrite not_elem_of_cons in Hq; destruct Hq as [Hq1 Hq2]; rewrite Ho2 by done; by apply Hu1.
  - exists p1, b1, w1; split; [done|]; split; [done|]; split; [done|]; intros q a Hq; rewrite not_elem_of_cons in Hq; destruct Hq; by apply Hu1.
Qed.

(** ** Theorems *)


(** C18: The loop over the partitions of a package: it returns 0 if and only if
    every partition passes its verification.  Then each of them holds its
    image, however many came after it; the partitions that are not listed never
    change. *)
Theorem package_burned w b hImg js : prepared w -> intact hImg -> NoDup (map j_name js) -> Forall (job_ok (dev w)) js ->
  exists hImg' b' w', burn_parts device_boot_flag disk_inited part_table v2_key_burn v2_key_read sha1_buf CmdVerify b (map j_name js) hImg true w =
      Some (if forallb passes js then 0 else 261, hImg', b', w') /\
    (forallb passes js = true -> Forall (fun j => forall a, contents (dev w') (j_name j) a = expand (j_src j) (contents (dev w) (j_name j)) a) js) /\
    (forall q a, q ∉ map j_name js -> contents (dev w') q a = contents (dev w) q a).
Proof. intros Hp Hi Hnd Fj; destruct (parts_burned js w b hImg Hp Hi Hnd Fj) as (p' & b' & w' & E & _ & Hx); by exists p', b', w'. Qed.

(** An item that ends in its first cluster is not burned at all: the loop does
    not run, and without an item VERIFY the function reports success. *)
Theorem small_item_not_burned w b hImg name src ns sectors : intact hImg -> target part_table (dev w) name sectors -> packed name src ns -> verify_item name None ->
  0 < Z.of_nat (length (bytes_of src)) <= ns -> ns < 2 ^ 32 -> Z.of_nat (length (bytes_of src)) <= sectors * 512 ->
  exists hImg' b' w', burn_one b name hImg true w = Some (0, hImg', b', w') /\ dev w' = dev w.
Proof.
  intros Hi (Hc & Hsz & H40 & Htab & Hn & Hl47 & Hboot) Hpk Hv HT Hns Hle; destruct (Hpk hImg Hi) as (item & Ho & [Hs Hty Hfc Hd _]); set (T := Z.of_nat (length (bytes_of src))) in *.
  destruct (announce_ok part_table w name sectors T (is_sparse src)) as [Ep Ei]; try done; try lia.
  unfold optimus_burn_one_partition; rewrite Ho, Hs, Hty, Hfc; fold T; rewrite s64_small by lia.
  replace (if IMAGE_ITEM_TYPE_SPARSE =? _ then _ else _) with (format (is_sparse src)) by (by destruct (is_sparse src)).
  assert (exists b', sdc_burn_buf_manager_init part_table b name T (format (is_sparse src)) ns w = Some (0, b',
    with_info w (mkInfo (if is_sparse src then IMG_TYPE_SPARSE else IMG_TYPE_NORMAL) OPTIMUS_IMG_STA_PRE_BURN OPTIMUS_MEDIA_TYPE_STORE 0 T 0 0 0 name))) as [b' Eb].
  { unfold sdc_burn_buf_manager_init; rewrite Hboot; cbn [negb andb]; erewrite bind_some by exact Ep.
    rewrite (proj2 (Z.ltb_ge _ T)), (proj2 (Z.eqb_neq (sectors * 512) 0)), wrap_small by lia; cbn [orb]; erewrite bind_some by exact Ei; cbn [Z.eqb negb].
    unfold optimus_buf_manager_tplcmd_init; rewrite Hboot; cbn [andb]; change (same (str "mem") (str "store")) with false; cbn [andb negb].
    rewrite (proj2 (Z.eqb_neq ns 0)) by lia; cbn [negb]; rewrite orb_true_r; eexists; reflexivity. }
  erewrite bind_some.
  2: { unfold burn_item; rewrite (proj2 (Z.eqb_neq T 0)) by lia; erewrite bind_some by exact Eb; cbn [Z.eqb negb]; cbv zeta.
    replace (slots (T - ns)) with 0%nat by (unfold slots, OPTIMUS_DOWNLOAD_SLOT_SZ; change (64 * 2 ^ 10) with 65536; pose proof (Z.div_lt_upper_bound (T - ns + 65536 - 1) 65536 1); lia).
    cbn [burn_loop]; rewrite (proj2 (Z.ltb_ge 0 _)) by lia; reflexivity. }
  cbn [Z.eqb negb]; unfold optimus_verify_partition; destruct (Hv (image_item_close item) (close_intact _ _ Hd)) as (p' & Ev & _); rewrite Ev; eexists _, _, _; split; reflexivity.
Qed.
End burned.

(** ** A package on a small disk *)

(** Partitions of 1 MB; writes succeed. *)
Definition disk : Type := bytes -> Z -> Z.

#[export] Instance disk_storage : Storage disk := {
  write_part d p off data := (0, fun q a => if bool_decide (q = p) then put (d p) off data a else d q a);
  read_part d p off n := (0, get (fun a => u8 (d p a)) off (Z.to_nat n), d);
  write_boot d off data := (0, d);
  read_boot d off n := (0, replicate (Z.to_nat n) 0, d);
  size_part d p := Some 2048 }.

#[export] Program Instance disk_spec : StorageSpec disk := {
  contents d p a := u8 (d p a);
  capacity d p := 2048 * 512;
  good d := True }.
Next Obligation. intros; apply wrap_range; lia. Qed.
Next Obligation.
  intros d p off data d' Ho Hal Hne Fd Hle [= <-]; split; [|split; [intros q a Hq; by rewrite bool_decide_eq_false_2|done]].
  intros a; rewrite bool_decide_eq_true_2 by done; unfold put; destruct (_ && _) eqn:E; [|done]; apply wrap_small.
  apply andb_prop in E as [E1%Z.leb_le E2%Z.ltb_lt]; rewrite (Forall_nth _ 0) in Fd; apply Fd; lia.
Qed.
Next Obligation. done. Qed.
Next Obligation. intros d p off n data d' Ho Hal Hn Hle [= <- <-]; by split. Qed.
Next Obligation. done. Qed.

(** A package is a function from the types to the items; an item is what is left
    of its bytes, its size, its type and its position, with the package.  Reads
    need no alignment. *)
Record file := mkFile { left_bytes : bytes; file_size : Z; file_type : Z; file_pos : Z }.
Definition whole (t : Z) (l : bytes) : file := mkFile l (Z.of_nat (length l)) t 0.
Definition packages : Type := bytes -> bytes -> option file.

#[export] Instance file_item {D} : Item D (file * packages) := {
  image_item_read '(f, pkg) p n :=
    let data := take (Z.to_nat n) (left_bytes f) in
    _ <- on_mem (fun m => store_bytes m p data);
    ret (0, (mkFile (drop (Z.to_nat n) (left_bytes f)) (file_size f) (file_type f) (file_pos f + n), pkg)) }.

#[export] Instance package_files : Package packages (file * packages) := {
  image_item_open pkg main sub := match pkg main sub with Some f => inl (f, pkg) | None => inr pkg end;
  image_item_close := snd;
  image_item_get_size it := file_size (fst it);
  image_item_get_type it := file_type (fst it);
  image_item_get_first_cluster_size _ := 512 }.

Definition demo_cs : list chunk := [Raw 0 (replicate 512 0x5a ++ replicate 512 0xa5); DontCare 0 3; Fill 0 0x12345678 2; Fill 0 0 4].
Definition demo_sparse : source := SparseFile 512 demo_cs 0 11 0.
Definition demo_plain : source := Plain (replicate 700 0x11).

Definition demo_text : bytes := hex_text (Sha1.sha1 (bytes_of demo_sparse)).

Definition demo_pkg : packages := fun main sub =>
  if bool_decide (main = str "PARTITION") then
    if bool_decide (sub = str "system") then Some (whole IMAGE_ITEM_TYPE_SPARSE (bytes_of demo_sparse))
    else if bool_decide (sub = str "logo") then Some (whole IMAGE_ITEM_TYPE_NORMAL (bytes_of demo_plain))
    else if bool_decide (sub = str "tiny") then Some (whole IMAGE_ITEM_TYPE_NORMAL [1; 2; 3]) else None
  else if bool_decide (main = str "VERIFY") && bool_decide (sub = str "system")
  then Some (whole IMAGE_ITEM_TYPE_NORMAL (str "sha1sum " ++ demo_text)) else None.

#[export] Program Instance file_item_spec {D} : ItemSpec D (file * packages) := {
  delivers it l := left_bytes (fst it) = l /\ Forall byte_ok l /\ snd it = demo_pkg;
  phase it := file_pos (fst it);
  inside _ _ := True }.
Next Obligation. by intros D it l (_ & ? & _). Qed.
Next Obligation.
  intros D w [f pkg] p a l (E & F & Ep) _ Hm _; eexists; cbn [image_item_read file_item fst snd] in *; apply Forall_app in F as [Fa Fl].
  rewrite Nat2Z.id, E, take_app_length, drop_app_length; erewrite bind_some by (unfold on_mem; rewrite store_bytes_ok by done; reflexivity); done.
Qed.

#[export] Program Instance file_package_spec {D} : PackageSpec D packages (file * packages) := { intact pkg := pkg = demo_pkg }.
Next Obligation. by intros D it l (_ & _ & ?). Qed.

Definition pad16 (s : bytes) : bytes := s ++ replicate (16 - length s) 0.
Definition demo_table : list partition := [mkPart (pad16 (str "logo")) NAND_PART_SIZE_FULL; mkPart (pad16 (str "system")) (2048 * 512); mkPart (pad16 (str "tiny")) 512].

(** The memory of the buffers. *)
Lemma zeros_mapped p n : mapped (write_bytes ∅ p (replicate n 0)) p n.
Proof.
  intros i Hi; rewrite lookup_write_bytes, decide_True by (rewrite length_replicate; lia).
  exists 0; apply lookup_replicate; split; [done|lia].
Qed.

Lemma ram_exists : { m : mem | buffers_mapped m }.
Proof. eexists; apply zeros_mapped. Qed.
Definition ram : mem := proj1_sig ram_exists.
Definition demo_world : world disk := World ram (fun _ _ => 0) (mkInfo 0 0 0 0 0 0 0 0 []) (mkSp 0 0 0 0 0 0 0 0) 0 0.
Definition demo_bm : BufManager := mkBm 0 0 0 0 0 0 0 0 0 0.
Definition no_key : bytes -> Z -> Z -> M disk Z := fun _ _ _ => ret 0.

Lemma demo_prepared : prepared demo_world.
Proof. split; [done|]; split; [exact (proj2_sig ram_exists)|]; cbn [wmem _filledBufValidLen demo_world]; split; [layout|split; [done|by left]]. Qed.

Lemma demo_target name : cstr_ok name -> (length name <= 47)%nat -> same (str "bootloader") name = false ->
  _assert_logic_partition_cap demo_table name (2048 * 512) = Some 0 -> target demo_table (dev demo_world) name 2048.
Proof. by intros; repeat split. Qed.

Lemma demo_sparse_length : Z.of_nat (length (bytes_of demo_sparse)) = 1108.
Proof. vm_compute; reflexivity. Qed.

Lemma demo_chunks : chunks_ok 512 (2048 * 512) demo_cs /\ Forall (fun c => Z.of_nat (length (payload c)) < 2 ^ 31) demo_cs.
Proof.
  split; [|unfold demo_cs; repeat (apply Forall_cons; split; [vm_compute; reflexivity|]); by apply Forall_nil].
  split; [|split; [vm_compute; discriminate|vm_compute; discriminate]].
  unfold demo_cs; apply Forall_cons; split; [|apply Forall_cons; split; [|apply Forall_cons; split; [|apply Forall_cons; split; [|by apply Forall_nil]]]].
  - split; [apply Forall_app; split; apply Forall_replicate; done|split; [vm_compute; reflexivity|vm_compute; reflexivity]].
  - split; [lia|vm_compute; reflexivity].
  - split; [lia|split; [lia|vm_compute; reflexivity]].
  - split; [lia|split; [lia|vm_compute; reflexivity]].
Qed.

Lemma demo_system_ok : source_ok EMMC_BOOT_FLAG 0x10000 (2048 * 512) 512 (contents (dev demo_world) (str "system")) demo_sparse.
Proof.
  destruct demo_chunks as [Hc Hp]; split; [lia|]; split; [done|]; split; [exact Hc|]; split; [exact Hp|]; split.
  - intros j Hj Hjt; exfalso; fold demo_sparse in Hjt; rewrite demo_sparse_length in Hjt; lia.
  - intros v a Hv _; assert (v = 0) as ->.
    { unfold need_fill in Hv; change (EMMC_BOOT_FLAG =? EMMC_BOOT_FLAG) with true in Hv; cbn [orb] in Hv; by destruct (Z.eqb_spec v 0). }
    change (0 = nth (Z.to_nat (a mod 4)) [0; 0; 0; 0] 0); by destruct (Z.to_nat (a mod 4)) as [|[|[|[|[|k]]]]].
Qed.

(** The text that belongs to an image is a word that fits its item. *)
Lemma hex_text_word l : Forall byte_ok l -> l <> [] -> word (hex_text l) /\ length (hex_text l) = (2 * length l)%nat.
Proof.
  assert (forall d, 0 <= d < 16 -> 0 < hex_digit d < 256 /\ Ctype.isblank (hex_digit d) = false) as Hd.
  { intros d Hd; unfold hex_digit, Ctype.isblank; destruct (Z.ltb_spec d 10); (split; [lia|]); rewrite !(proj2 (Z.eqb_neq _ _)) by lia; done. }
  intros Fl Hne; split; [split; [by destruct l|]|].
  - clear Hne; induction Fl as [|b l Hb _ IH]; [by apply Forall_nil|]; unfold byte_ok in Hb; cbn [hex_text flat_map app].
    apply Forall_cons; split; [apply Hd; split; [apply Z.div_pos|apply Z.div_lt_upper_bound]; lia|].
    apply Forall_cons; split; [apply Hd, Z.mod_pos_bound; lia|exact IH].
  - clear; induction l as [|b l IH]; [done|]; unfold hex_text in *; cbn [flat_map app length]; rewrite IH; lia.
Qed.


Lemma demo_bytes : Forall byte_ok (bytes_of demo_sparse) /\ Forall byte_ok (bytes_of demo_plain).
Proof.
  split; [|apply Forall_replicate; done]; destruct demo_chunks as [Hc _].
  exact (simg_bytes (2048 * 512) 512 ltac:(lia) demo_cs Hc 0 11 0).
Qed.

Lemma demo_text_ok : word demo_text /\ length demo_text = 40%nat.
Proof.
  destruct (Sha1.sha1_bytes (bytes_of demo_sparse) (proj1 demo_bytes)) as [Fs Ls].
  destruct (hex_text_word (Sha1.sha1 (bytes_of demo_sparse)) Fs) as [Hw Hl]; [intros E; rewrite E in Ls; clear - Ls; discriminate Ls|]; split; [exact Hw|].
  unfold demo_text; rewrite Hl, Ls; reflexivity.
Qed.

Definition demo_jobs : list job := [
  Job (str "system") demo_sparse 512 2048 (Some demo_text);
  Job (str "logo") demo_plain 512 2048 None ].

Lemma verdict_self image : verdict image (Some (hex_text (Sha1.sha1 image))) = 0.
Proof. unfold verdict; by rewrite bool_decide_eq_true_2. Qed.

Lemma demo_system_passes : passes (Job (str "system") demo_sparse 512 2048 (Some demo_text)) = true.
Proof. unfold passes; cbn [j_text j_src]; unfold demo_text; rewrite verdict_self; reflexivity. Qed.

Lemma demo_passes : forallb passes demo_jobs = true.
Proof.
  apply andb_true_intro; split; [exact demo_system_passes|reflexivity].
Qed.

#[local] Opaque demo_text.

Lemma demo_verify : verify_item (D := disk) (P := packages) 0 (str "system") (Some demo_text) /\ verify_item (D := disk) (P := packages) 0 (str "logo") None /\ verify_item (D := disk) (P := packages) 0 (str "tiny") None.
Proof.
  destruct demo_text_ok as [Hw Hl]; split; [|split; intros ? ->; eexists; split; reflexivity]; split; [exact Hw|]; split; [lia|]; intros ? ->.
  exists (whole IMAGE_ITEM_TYPE_NORMAL (str "sha1sum " ++ demo_text), demo_pkg); split; [reflexivity|].
  cbn [image_item_get_size package_files whole file_size fst]; rewrite length_app, Hl; split; [reflexivity|].
  split; [|by right]; split; [reflexivity|]; split; [|reflexivity].
  apply Forall_app; split; [apply str_ok|]; destruct Hw as [_ Fw]; eapply Forall_impl; [exact Fw|]; intros c [Hc _]; unfold byte_ok; lia.
Qed.

Lemma demo_packed : packed (D := disk) (P := packages) (str "system") demo_sparse 512 /\
  packed (D := disk) (P := packages) (str "logo") demo_plain 512 /\ packed (D := disk) (P := packages) (str "tiny") (Plain [1; 2; 3]) 512.
Proof.
  split; [|split]; intros ? ->; (eexists; split; [reflexivity|]); (split; [reflexivity..| |reflexivity]); (split; [reflexivity|]); (split; [|reflexivity]);
    [apply demo_bytes|apply demo_bytes|].
  repeat (apply Forall_cons; split; [done|]); by apply Forall_nil.
Qed.

#[local] Abbreviation demo_burn := (optimus_burn_one_partition EMMC_BOOT_FLAG 0x10000 demo_table no_key no_key (replicate 64 0) 0).


Lemma package_burned_witness : forallb passes demo_jobs = true /\
  exists hImg' b' w', burn_parts EMMC_BOOT_FLAG 0x10000 demo_table no_key no_key (replicate 64 0) 0 demo_bm (map j_name demo_jobs) demo_pkg true demo_world =
      Some (if forallb passes demo_jobs then 0 else 261, hImg', b', w') /\
    (forallb passes demo_jobs = true -> Forall (fun j => forall a, contents (dev w') (j_name j) a = expand (j_src j) (contents (dev demo_world) (j_name j)) a) demo_jobs) /\
    (forall q a, q ∉ map j_name demo_jobs -> contents (dev w') q a = contents (dev demo_world) q a).
Proof.
  split; [exact demo_passes|].
  apply (package_burned EMMC_BOOT_FLAG 0x10000 demo_table no_key no_key (replicate 64 0) eq_refl 0 demo_world demo_bm demo_pkg demo_jobs).
  - exact demo_prepared.
  - reflexivity.
  - cbn [map demo_jobs j_name]; apply NoDup_cons; split; [|apply NoDup_singleton]; intros E%list_elem_of_singleton; discriminate E.
  - apply Forall_cons; split; [|apply Forall_cons; split; [|by apply Forall_nil]]; (split; [|split; [|split; [|split]]]); cbn [j_name j_src j_ns j_sectors j_text].
    + apply demo_target; [repeat (apply Forall_cons; split; [done|]); by apply Forall_nil|cbn; lia|reflexivity|reflexivity].
    + rewrite demo_sparse_length; split; [split; [lia|split; [reflexivity|lia]]|lia|left; discriminate].
    + exact demo_system_ok.
    + apply demo_packed.
    + apply demo_verify.
    + apply demo_target; [repeat (apply Forall_cons; split; [done|]); by apply Forall_nil|cbn; lia|reflexivity|reflexivity].
    + change (Z.of_nat (length (bytes_of demo_plain))) with 700; split; [split; [lia|split; [reflexivity|lia]]|lia|left; discriminate].
    + exact I.
    + apply demo_packed.
    + apply demo_verify.
Defined.

Lemma small_item_not_burned_witness : exists hImg' b' w', demo_burn demo_bm (str "tiny") demo_pkg true demo_world = Some (0, hImg', b', w') /\ dev w' = dev demo_world.
Proof.
  apply (small_item_not_burned EMMC_BOOT_FLAG 0x10000 demo_table no_key no_key (replicate 64 0) eq_refl 0 demo_world demo_bm demo_pkg (str "tiny") (Plain [1; 2; 3]) 512 2048).
  - reflexivity.
  - apply demo_target; [repeat (apply Forall_cons; split; [done|]); by apply Forall_nil|cbn; lia|reflexivity|reflexivity].
  - apply demo_packed.
  - apply demo_verify.
  - cbn; lia.
  - lia.
  - cbn; lia.
Defined.

(** ** What goes wrong *)

(** Memory with a packet in the transfer buffer. *)
Definition packet_ram (packet : bytes) : mem :=
  write_bytes (write_bytes (write_bytes ∅ OPTIMUS_DOWNLOAD_TRANSFER_BUF_ADDR packet) INFO (replicate 1024 0)) FBUF (replicate 1024 0).
Definition packet_world {D} (d : D) (packet : bytes) : world D :=
  World (packet_ram packet) d (mkInfo IMG_TYPE_SPARSE OPTIMUS_IMG_STA_BURN_ING OPTIMUS_MEDIA_TYPE_STORE 0 0 0 0 1 (str "system")) (mkSp 0 0 0 0 0 0 0 0) 0 0.

(** The first packet of a sparse image, of [len] bytes: the sectors the flash
    address moves on and the bytes said to be left over. *)
Definition first_packet {D} `{Storage D} (d : D) (packet : bytes) (len : Z) : option (Z * Z) :=
  option_map fst ((_ <- optimus_simg_parser_init OPTIMUS_DOWNLOAD_TRANSFER_BUF_ADDR;
                   optimus_simg_to_media EMMC_BOOT_FLAG 0 OPTIMUS_DOWNLOAD_TRANSFER_BUF_ADDR len 0 0) (packet_world d packet)).

(** A packet that ends behind the header of a fill chunk, before its value: the
    chunk is taken as complete, with the bytes that happen to follow, and the
    number of bytes left over wraps around. *)
Theorem fill_value_split :
  let cs := [Fill 0 0x11223344 1] in
  first_packet (fun _ _ => 0 : Z) (simg 512 cs 0 1 0) 44 = Some (1, 0) /\
  first_packet (fun _ _ => 0 : Z) (simg 512 cs 0 1 0) 40 = Some (1, 2 ^ 32 - 4).
Proof. split; vm_compute; reflexivity. Qed.

(** A gap of 4 GB moves the flash address on by nothing. *)
Theorem gap_of_4G_lost :
  let cs := [DontCare 0 (2 ^ 20)] in
  size_all 4096 cs = 2 ^ 32 /\ first_packet (fun _ _ => 0 : Z) (simg 4096 cs 0 (2 ^ 20) 0) 40 = Some (0, 0).
Proof. split; vm_compute; reflexivity. Qed.

(** Storage on which writes fail. *)
Definition broken : Storage unit := {|
  write_part _ _ _ _ := (1, tt); read_part _ _ _ _ := (1, [], tt); write_boot _ _ _ := (1, tt); read_boot _ _ _ := (1, [], tt); size_part _ _ := Some 2048 |}.

(** The failure to write the data of a chunk is reported, that of a fill chunk
    is not. *)
Theorem fill_failure_ignored :
  first_packet (H := broken) tt (simg 512 [Raw 0 (replicate 512 1)] 0 1 0) 552 = Some (-188, 0) /\
  first_packet (H := broken) tt (simg 512 [Fill 0 0x11223344 1] 0 1 0) 44 = Some (1, 0).
Proof. split; vm_compute; reflexivity. Qed.

(** More than two words in an item VERIFY overflow [argv]. *)
Theorem verify_words_overflow (w : world disk) :
  let pkg : packages := fun _ _ => Some (whole IMAGE_ITEM_TYPE_NORMAL (str "sha1sum a b")) in
  optimus_verify_partition no_key (replicate 64 0) 0 (str "system") pkg w = None.
Proof. reflexivity. Qed.

(** A sparse image of exactly one slot: all of it is written, and reported as
    an error. *)
Definition slot_cs : list chunk := Raw 0 (replicate (127 * 512) 1) :: Fill 0 7 1 :: replicate 38 (DontCare 0 1).
Definition slot_image : bytes := simg 512 slot_cs 0 166 0.
Definition slot_world : world disk :=
  World (packet_ram (replicate (Z.to_nat 65536) 0)) (fun _ _ => 0) (mkInfo 0 0 0 0 0 0 0 0 []) (mkSp 0 0 0 0 0 0 0 0) 0 0.

Theorem whole_slot_fails :
  Z.of_nat (length slot_image) = 65536 /\
  match burn_item EMMC_BOOT_FLAG 0 no_key no_key demo_table demo_bm (str "system") (whole IMAGE_ITEM_TYPE_SPARSE slot_image, demo_pkg) 65536 (str "sparse") 0 slot_world with
  | Some (r, _, _, w') => r = OPT_DOWN_FAIL /\ imgBurnSta (info w') = OPTIMUS_IMG_STA_BURN_COMPLETE /\
      forallb (fun a => contents (dev w') (str "system") a =? expand (SparseFile 512 slot_cs 0 166 0) (fun _ => 0) a) [0; 65023; 65024; 65028; 65535] = true
  | None => False
  end.
Proof. split; [vm_compute; reflexivity|]; vm_compute; repeat split. Qed.

End SdcBurn.
