(* ===== verification/Fat.v ===== *)
(** * Reading files of a FAT card
    (drivers/usb/gadget/v2_burning/v2_common/optimus_fat.c, include/fat.h)

    The burning tool reads its package through file handles: [do_fat_fopen]
    (FatDir.v) finds the first cluster and the size of a file, [do_fat_fseek]
    and [do_fat_fread] walk the chain of its clusters in the allocation table,
    of which six sectors are kept in [fatbuf], and keep the last cluster of
    which a part was read in [fat_buf].

    A handle [handle C] is one slot of the arrays [fs_info] and [files] with
    the card it reads from.  [cur_dev] is set, and so is the variable
    usb_update, whose value decides about a switch to the external card that
    always succeeds: [v2_ext_mmc_read] is [disk_read].  The values of __LINE__
    are as in the source; output is left out.

    The theorem [fat_read_at] says that seeking to an offset and reading there
    delivers the bytes of the file wherever its clusters lie, for all three
    widths of the table. *)

From S2P Require Import Prelude CString CArray Digest BlockDev Burn.

Module Fat.
Import CString CArray BlockDev.

Definition SECTOR_SIZE : Z := 512.
Definition FS_BLOCK_SIZE : Z := SECTOR_SIZE.
Definition FATBUFBLOCKS : Z := 6.

(** [fsdata] *)
Record fsdata := mkFs {
  fatbuf : bytes;
  fatsize : Z;
  fatlength : Z;
  fat_sect : Z;
  rootdir_sect : Z;
  sect_size : Z;
  clust_size : Z;
  data_begin : Z;
  fatbufnum : Z }.

Definition FATBUFSIZE (mydata : fsdata) : Z := sect_size mydata * FATBUFBLOCKS.
Definition FAT12BUFSIZE (mydata : fsdata) : Z := FATBUFSIZE mydata * 2 / 3.
Definition FAT16BUFSIZE (mydata : fsdata) : Z := FATBUFSIZE mydata / 2.
Definition FAT32BUFSIZE (mydata : fsdata) : Z := FATBUFSIZE mydata / 4.

Definition CHECK_CLUST (x size : Z) : bool :=
  (x <=? 1) || ((if negb (size =? 32) then if negb (size =? 16) then 0xff0 else 0xfff0 else 0xffffff0) <=? x).

Section code.
Context {C : Type} `{BlockDev C}.

(** A slot of [fs_info] and [files] and the card. *)
Record handle := mkHandle {
  cur_dev : C;
  part_offset : Z;
  datablock : fsdata;
  fat_buf : bytes;
  fat_buf_cluster_index : Z;
  foffset : Z;
  filesize : Z;
  curclust : Z;
  headclust : Z }.

Definition set_card (c : C) (h : handle) : handle :=
  mkHandle c (part_offset h) (datablock h) (fat_buf h) (fat_buf_cluster_index h) (foffset h) (filesize h) (curclust h) (headclust h).
Definition set_fatbuf (buf : bytes) (num : Z) (h : handle) : handle :=
  let fs := datablock h in
  mkHandle (cur_dev h) (part_offset h)
    (mkFs buf (fatsize fs) (fatlength fs) (fat_sect fs) (rootdir_sect fs) (sect_size fs) (clust_size fs) (data_begin fs) num)
    (fat_buf h) (fat_buf_cluster_index h) (foffset h) (filesize h) (curclust h) (headclust h).
Definition set_cache (buf : bytes) (index : Z) (h : handle) : handle :=
  mkHandle (cur_dev h) (part_offset h) (datablock h) buf index (foffset h) (filesize h) (curclust h) (headclust h).
Definition set_pos (off clust : Z) (h : handle) : handle :=
  mkHandle (cur_dev h) (part_offset h) (datablock h) (fat_buf h) (fat_buf_cluster_index h) off (filesize h) clust (headclust h).

(** Storing in an array: nothing past its end. *)
Definition put_buf (buf : bytes) (off : Z) (data : bytes) : option bytes :=
  if (0 <=? off) && (off + Z.of_nat (length data) <=? Z.of_nat (length buf))
  then Some (take (Z.to_nat off) buf ++ data ++ drop (Z.to_nat off + length data) buf) else None.

(** The return value, the bytes stored and the handle; [block_read] returns an
    unsigned long. *)
Definition disk_read (h : handle) (startblock getsize : Z) : Z * bytes * handle :=
  let '(r, data, c) := block_read (cur_dev h) (u32 (startblock + part_offset h)) getsize in
  (s32 (u32 r), data, set_card c h).

Definition v2_ext_mmc_read := disk_read.

(** Entry [i] of an array of [n]-byte integers. *)
Definition entry_at (n : nat) (buf : bytes) (i : Z) : option Z :=
  if (0 <=? i) && ((i + 1) * Z.of_nat n <=? Z.of_nat (length buf))
  then Some (le_val (take n (drop (Z.to_nat (i * Z.of_nat n)) buf))) else None.

(** The value of an entry in the part of the table that is in [fatbuf]. *)
Definition decode (size : Z) (buf : bytes) (offset : Z) : option Z :=
  if size =? 32 then entry_at 4 buf offset
  else if size =? 16 then entry_at 2 buf offset
  else
    let off16 := u32 (offset * 3) / 4 in
    let c := Z.land offset 3 in
    v ← entry_at 2 buf off16;
    if c =? 0 then Some (Z.land v 0xfff)
    else if c =? 1 then
      v2 ← entry_at 2 buf (off16 + 1);
      Some (Z.lor (Z.shiftl (Z.land v2 0xff) 4) (Z.shiftr (Z.land v 0xf000) 12))
    else if c =? 2 then
      v2 ← entry_at 2 buf (off16 + 1);
      Some (Z.lor (Z.shiftl (Z.land v2 0xf) 8) (Z.shiftr (Z.land v 0xff00) 8))
    else Some (Z.shiftr (Z.land v 0xfff0) 4).

(** The entry of a cluster in the table; 0 when the table cannot be read.
    [block_read] reports an error as 0 blocks, so that the test for a negative
    result never fails. *)
Definition get_fatent (h : handle) (entry : Z) : option (Z * handle) :=
  let fs := datablock h in
  if negb ((fatsize fs =? 32) || (fatsize fs =? 16) || (fatsize fs =? 12)) then Some (0, h)
  else
    let size := if fatsize fs =? 32 then FAT32BUFSIZE fs else if fatsize fs =? 16 then FAT16BUFSIZE fs else FAT12BUFSIZE fs in
    if size =? 0 then None
    else
      let bufnum := entry / size in
      let offset := u32 (entry - bufnum * size) in
      if negb (bufnum =? u32 (fatbufnum fs)) then
        let getsize := FATBUFSIZE fs / FS_BLOCK_SIZE in
        let fatlen := u32 (fatlength fs * SECTOR_SIZE) in
        let startblock := u32 (bufnum * FATBUFBLOCKS + fat_sect fs) in
        let getsize := if fatlen <? getsize then fatlen else getsize in
        let '(r, data, h1) := v2_ext_mmc_read h startblock getsize in
        buf ← put_buf (fatbuf fs) 0 data;
        if r <? 0 then Some (0, set_fatbuf buf (fatbufnum fs) h1)
        else v ← decode (fatsize fs) buf offset; Some (v, set_fatbuf buf (s32 bufnum) h1)
      else v ← decode (fatsize fs) (fatbuf fs) offset; Some (v, h).

(** The return value and [*nextEntry]. *)
Definition optimus_fat_get_fat_next_entry (h : handle) (clust fsize offset : Z) : option (Z * Z * handle) :=
  if u32 fsize <=? u32 offset then Some (0, clust, h)
  else
    '(next, h) ← get_fatent h clust;
    Some (if CHECK_CLUST next (fatsize (datablock h)) then (373, clust, h) else (0, next, h)).

(** The return value, what is stored at offsets of the buffer, and the handle.
    Nobody asks for a part of a sector. *)
Definition get_cluster (h : handle) (clustnum size : Z) : Z * list (Z * bytes) * handle :=
  let fs := datablock h in
  let startsect := if 0 <? clustnum then u32 (data_begin fs + clustnum * clust_size fs) else rootdir_sect fs in
  let '(r, data, h) := v2_ext_mmc_read h startsect (u32 (size / FS_BLOCK_SIZE)) in
  if r <? 0 then (-1, [(0, data)], h)
  else if negb (size mod FS_BLOCK_SIZE =? 0) then
    let idx := size / FS_BLOCK_SIZE in
    let '(r2, data2, h) := v2_ext_mmc_read h (u32 (startsect + idx)) 1 in
    if r2 <? 0 then (-1, [(0, data)], h)
    else (0, [(0, data); (idx * FS_BLOCK_SIZE, take (Z.to_nat (size mod FS_BLOCK_SIZE)) data2)], h)
  else (0, [(0, data)], h).

Fixpoint put_all (buf : bytes) (l : list (Z * bytes)) : option bytes :=
  match l with [] => Some buf | (off, data) :: l' => buf ← put_buf buf off data; put_all buf l' end.

Fixpoint store_all (m : mem) (p : Z) (l : list (Z * bytes)) : option mem :=
  match l with [] => Some m | (off, data) :: l' => m ← Burn.store_bytes m (p + off) data; store_all m p l' end.

(** Reading a cluster to [fat_buf]; its number is noted by the caller. *)
Definition cache_cluster (h : handle) (clust bytesperclust : Z) : option (Z * handle) :=
  let '(r, l, h) := get_cluster h clust bytesperclust in
  buf ← put_all (fat_buf h) l;
  Some (if negb (r =? 0) then (r, set_cache buf (fat_buf_cluster_index h) h) else (r, set_cache buf clust h)).

Definition bytesperclust (h : handle) : Z := clust_size (datablock h) * SECTOR_SIZE.
Definition do_fat_get_bytesperclust := bytesperclust.

(** Seeking to a cluster: the loop of [do_fat_fseek] for a seek from the start
    of the file. *)
Fixpoint seek_loop (fuel : nat) (h : handle) (offset clust seeked : Z) : option (Z * handle) :=
  if offset <? u64 (seeked + bytesperclust h) then
    let h := set_pos offset clust h in
    if negb (Z.land offset (u32 (bytesperclust h - 1)) =? 0) && negb (clust =? fat_buf_cluster_index h) then
      '(r, h) ← cache_cluster h clust (bytesperclust h);
      Some (if negb (r =? 0) then -1 else 0, h)
    else Some (0, h)
  else
    match fuel with
    | O => None
    | S fuel' => '(clust, h) ← get_fatent h clust; seek_loop fuel' h offset clust (u64 (seeked + bytesperclust h))
    end.

(** The loop for a seek from the current position. *)
Fixpoint seek_on_loop (fuel : nat) (h : handle) (offset clust seeked : Z) : option (Z * handle) :=
  if offset <? u64 (seeked + bytesperclust h) then Some (0, set_pos offset clust h)
  else
    match fuel with
    | O => None
    | S fuel' => '(clust, h) ← get_fatent h clust; seek_on_loop fuel' h offset clust (u64 (seeked + bytesperclust h))
    end.

Definition seek_fuel (h : handle) (offset : Z) : nat := S (Z.to_nat (offset / bytesperclust h)).

Definition do_fat_fseek (h : handle) (offset wherehence : Z) : option (Z * handle) :=
  let clust := curclust h in
  let curoffset := foffset h in
  let bpc := bytesperclust h in
  if wherehence =? 0 then
    let curClusterOffset := curoffset - Z.land curoffset (u32 (bpc - 1)) in
    if filesize h <? offset then Some (-1, h)
    else if offset <? curoffset then seek_loop (seek_fuel h offset) h offset (headclust h) 0
    else if offset <? u64 (curClusterOffset + bpc) then Some (0, set_pos offset clust h)
    else seek_loop (seek_fuel h offset) h offset clust curClusterOffset
  else if wherehence =? 1 then
    if filesize h <? u64 (offset + curoffset) then Some (884, h)
    else if offset =? 0 then Some (0, h)
    else if bpc =? 0 then None
    else
      let offset_in_clust := curoffset mod bpc in
      if u64 (offset_in_clust + offset) <=? bpc then Some (0, set_pos (u64 (curoffset + offset)) clust h)
      else
        let aimOffset := u64 (offset + offset_in_clust) in
        seek_on_loop (seek_fuel h aimOffset) h aimOffset clust 0
  else Some (0, h).

(** The run of clusters that follow each other on the card: the last cluster,
    what is left to read and the length of the run, or nothing for an invalid
    entry. *)
Fixpoint consecutive (fuel : nat) (h : handle) (endclust actsize len : Z) : option (option (Z * Z * Z) * handle) :=
  if actsize <? bytesperclust h then Some (Some (endclust, actsize, len), h)
  else
    match fuel with
    | O => None
    | S fuel' =>
        '(newclust, h) ← get_fatent h endclust;
        if CHECK_CLUST newclust (fatsize (datablock h)) then Some (None, h)
        else if negb (u32 (newclust - 1) =? endclust) then Some (Some (endclust, actsize, len), h)
        else consecutive fuel' h newclust (actsize - bytesperclust h) (u32 (len + bytesperclust h))
    end.

(** How the loop over whole clusters ends: the function returns, goes to exit,
    or continues behind the loop. *)
Inductive outcome :=
  | Return (r : Z)
  | Exit (gotsize offset clust : Z)
  | Continue (buffer gotsize offset clust actsize : Z).

Fixpoint whole_clusters (fuel : nat) (h : handle) (m : mem) (buffer gotsize offset clust actsize : Z) : option (outcome * mem * handle) :=
  if actsize <? bytesperclust h then Some (Continue buffer gotsize offset clust actsize, m, h)
  else
    match fuel with
    | O => None
    | S fuel' =>
        '(run, h) ← consecutive fuel h clust (actsize - bytesperclust h) (bytesperclust h);
        match run with
        | None => Some (Exit gotsize offset clust, m, h)
        | Some (endclust, actsize, thisConsecutiveLen) =>
            let '(r, l, h) := get_cluster h clust thisConsecutiveLen in
            m ← store_all m buffer l;
            if negb (r =? 0) then Some (Return (-1), m, h)
            else
              let offset := u64 (offset + thisConsecutiveLen) in
              let gotsize := u32 (gotsize + thisConsecutiveLen) in
              '(r, clust, h) ← optimus_fat_get_fat_next_entry h endclust (filesize h) offset;
              if negb (r =? 0) then Some (Return 0, m, h)
              else whole_clusters fuel' h m (buffer + thisConsecutiveLen) gotsize offset clust actsize
        end
    end.

(** The part of a read behind the first, partial cluster: the return value. *)
Definition read_clusters (h : handle) (m : mem) (buffer gotsize offset clust actsize : Z) : option (Z * mem * handle) :=
  if negb (Z.land buffer (SECTOR_SIZE - 1) =? 0) then Some (0, m, h)
  else
    '(o, m, h) ← whole_clusters (Z.to_nat (actsize / bytesperclust h)) h m buffer gotsize offset clust actsize;
    match o with
    | Return r => Some (r, m, h)
    | Exit gotsize offset clust => Some (gotsize, m, set_pos offset clust h)
    | Continue buffer gotsize offset clust actsize =>
        if actsize =? 0 then Some (gotsize, m, set_pos offset clust h)
        else
          '(r, h) ← cache_cluster h clust (bytesperclust h);
          if negb (r =? 0) then Some (-1, m, h)
          else
            m ← Burn.store_bytes m buffer (take (Z.to_nat actsize) (fat_buf h));
            Some (u32 (gotsize + actsize), m, set_pos (u64 (offset + actsize)) clust h)
    end.

(** The return value, the memory and the handle. *)
Definition do_fat_fread (h : handle) (m : mem) (buffer maxsize : Z) : option (Z * mem * handle) :=
  let bpc := bytesperclust h in
  let offset := foffset h in
  let clust := curclust h in
  if filesize h <? u64 (offset + maxsize) then Some (0, m, h)
  else if bpc =? 0 then None
  else
    let offset_in_clust := offset mod bpc in
    if negb (offset_in_clust =? 0) then
      '(r, h) ← (if negb (clust =? fat_buf_cluster_index h) then cache_cluster h clust bpc else Some (0, h));
      if negb (r =? 0) then Some (-1, m, h)
      else if maxsize <? bpc - offset_in_clust then
        m ← Burn.store_bytes m buffer (take (Z.to_nat maxsize) (drop (Z.to_nat offset_in_clust) (fat_buf h)));
        Some (u32 maxsize, m, set_pos (u64 (offset + maxsize)) clust h)
      else
        let gotsize := bpc - offset_in_clust in
        m ← Burn.store_bytes m buffer (drop (Z.to_nat offset_in_clust) (fat_buf h));
        let offset := u64 (offset + gotsize) in
        '(r, clust, h) ← optimus_fat_get_fat_next_entry h clust (filesize h) offset;
        if negb (r =? 0) then Some (0, m, h)
        else read_clusters h m (buffer + gotsize) (u32 gotsize) offset clust (maxsize - gotsize)
    else read_clusters h m buffer 0 offset clust maxsize.
End code.

(** ** What the volume holds *)

(** [block_read] returns the number of blocks that were read. *)
Class BlockCount (C : Type) `{BlockDev C} : Prop :=
  read_count : forall d s n, 0 < n -> 0 <= read_ret d s n <= n.

#[global] Instance card_count : BlockCount card.
Proof. intros d s n Hn; unfold read_ret; cbn; destruct (card_range d s n); cbn; lia. Qed.

Section volume.
Context {C : Type} `{HS : BlockDevSpec C 512} `{HN : !BlockCount C}.

(** The card as it was, the volume on it and the sectors of the volume. *)
Context (d0 : C) (P : Z) (vol : fsdata) (nsect : Z).

#[local] Abbreviation bits := (fatsize vol).
#[local] Abbreviation spc := (clust_size vol).
Definition bpc : Z := spc * 512.

(** Byte [i] of the allocation table, and its entry for a cluster: 32, 16 or 12
    bits in the order of the table. *)
Definition table_byte (i : Z) : Z := nth (Z.to_nat (i mod 512)) (block d0 (P + fat_sect vol + i / 512)) 0.

Definition link (c : Z) : Z :=
  if bits =? 32 then table_byte (4 * c) + 256 * (table_byte (4 * c + 1) + 256 * (table_byte (4 * c + 2) + 256 * table_byte (4 * c + 3)))
  else if bits =? 16 then table_byte (2 * c) + 256 * table_byte (2 * c + 1)
  else (table_byte (3 * c / 2) + 256 * table_byte (3 * c / 2 + 1)) / 16 ^ (c mod 2) mod 4096.

(** Entries per six sectors. *)
Definition per_buf : Z := if bits =? 32 then 768 else if bits =? 16 then 1536 else 2048.

(** The sectors of [n] clusters from [c]. *)
Definition cluster_run (c : Z) (n : nat) : bytes := run block d0 (P + (data_begin vol + c * spc)) (n * Z.to_nat spc).
Definition cluster (c : Z) : bytes := cluster_run c 1.

Record volume_ok : Prop := {
  vol_bits : bits = 12 \/ bits = 16 \/ bits = 32;
  vol_sect : sect_size vol = 512;
  vol_clust : exists k, 0 <= k <= 7 /\ spc = 2 ^ k;
  vol_fat : 0 <= fat_sect vol /\ 0 < fatlength vol < 2 ^ 23;
  vol_range : 0 <= P /\ P + nsect < 2 ^ 32 }.

(** A cluster whose entry and data are on the card. *)
Record cluster_ok (c : Z) : Prop := {
  clu_valid : CHECK_CLUST c bits = false;
  clu_fat : fat_sect vol + 6 * (c / per_buf) + 6 <= nsect;
  clu_data : 0 <= data_begin vol + c * spc /\ data_begin vol + (c + 1) * spc <= nsect }.

(** A handle that reads this volume: nothing cached that is not on the card. *)
Record opened (h : handle) : Prop := {
  op_block : forall b, block (cur_dev h) b = block d0 b;
  op_good : good (cur_dev h);
  op_range : in_range (cur_dev h) P nsect;
  op_part : part_offset h = P;
  op_vol : datablock h = mkFs (fatbuf (datablock h)) bits (fatlength vol) (fat_sect vol) (rootdir_sect vol) (sect_size vol) spc (data_begin vol) (fatbufnum (datablock h));
  op_fatbuf : length (fatbuf (datablock h)) = 3072%nat /\
    (fatbufnum (datablock h) = -1 \/ 0 <= fatbufnum (datablock h) < 2 ^ 31 /\
     fatbuf (datablock h) = run block d0 (P + (fat_sect vol + 6 * fatbufnum (datablock h))) 6);
  op_cache : Z.of_nat (length (fat_buf h)) = bpc /\
    (fat_buf_cluster_index h = 0 \/ fat_buf h = cluster (fat_buf_cluster_index h)) }.

(** The same position. *)
Definition same_pos (h h' : @handle C) : Prop :=
  foffset h' = foffset h /\ filesize h' = filesize h /\ curclust h' = curclust h /\ headclust h' = headclust h.

Context (Hv : volume_ok).

Lemma spc_range : 1 <= spc <= 128.
Proof.
  destruct Hv as [_ _ (k & Hk & ->) _ _]; change 128 with (2 ^ 7); split; [|apply Z.pow_le_mono_r; lia].
  change 1 with (2 ^ 0); apply Z.pow_le_mono_r; lia.
Qed.

Lemma run_lookup (d : C) n : forall s i, 0 <= i < Z.of_nat n * 512 ->
  nth (Z.to_nat i) (run block d s n) 0 = nth (Z.to_nat (i mod 512)) (block d (s + i / 512)) 0.
Proof.
  induction n as [|n IH]; intros s i Hi; [lia|]; cbn [run].
  assert (length (block d s) = 512%nat) as Hl by (pose proof (block_length d s); lia).
  destruct (decide (i < 512)) as [H1|H1].
  - rewrite app_nth1 by lia; by rewrite Z.mod_small, Z.div_small, Z.add_0_r by lia.
  - rewrite app_nth2 by lia; replace (Z.to_nat i - length (block d s))%nat with (Z.to_nat (i - 512)) by lia.
    rewrite IH by lia; replace (i mod 512) with ((i - 512) mod 512) by (Z.div_mod_to_equations; lia).
    replace (i / 512) with (1 + (i - 512) / 512) by (Z.div_mod_to_equations; lia); by rewrite Z.add_assoc.
Qed.

Lemma disk_read_ok h s n : opened h -> 0 <= s -> 0 < n < 2 ^ 31 -> s + n <= nsect ->
  exists r h', disk_read h s n = (r, run block d0 (P + s) (Z.to_nat n), h') /\ 0 <= r /\ opened h' /\ same_pos h h' /\
    datablock h' = datablock h /\ fat_buf h' = fat_buf h /\ fat_buf_cluster_index h' = fat_buf_cluster_index h.
Proof.
  intros [Hb Hg Hr Hp Hvol Hf Hc] Hs Hn He; destruct Hv as [_ _ _ _ [HP Hend]].
  assert (addressable (P + s) n) as Ha by (unfold addressable; lia).
  unfold disk_read; rewrite Hp, (Z.add_comm s P), wrap_small by lia; rewrite block_read_eta.
  assert (read_ret (cur_dev h) (P + s) n <> 0) as Hne by (apply read_succeeds; [done..|]; eapply range_sub; [exact Hr|lia..]).
  pose proof (read_count (cur_dev h) (P + s) n ltac:(lia)) as Hk.
  eexists _, _; split; [rewrite read_ok by done; rewrite (run_ext block d0 (cur_dev h)) by (intros; apply Hb); reflexivity|].
  rewrite wrap_small by lia; rewrite s32_small by lia; split; [lia|]; split; [|done].
  split; try done; [intros b; cbn; by rewrite read_frame|cbn; by apply good_read|cbn; by apply range_read].
Qed.

Lemma le_take l : forall n k, (k < length l)%nat -> le_val (take (S n) (drop k l)) = nth k l 0 + 256 * le_val (take n (drop (S k) l)).
Proof.
  intros n k [x Hx]%lookup_lt_is_Some_2; rewrite (drop_S _ _ _ Hx); cbn [take le_val].
  by rewrite (nth_lookup_Some _ _ _ _ Hx).
Qed.

Lemma entry_2 buf i : 0 <= i -> 2 * i + 2 <= Z.of_nat (length buf) ->
  entry_at 2 buf i = Some (nth (Z.to_nat (2 * i)) buf 0 + 256 * nth (Z.to_nat (2 * i + 1)) buf 0).
Proof.
  intros Hi Hl; unfold entry_at; change (Z.of_nat 2) with 2; change (Z.of_nat 4) with 4; replace ((0 <=? i) && _) with true by (symmetry; zbool; lia).
  rewrite !le_take by lia; cbn [take le_val]; rewrite Z.mul_0_r, Z.add_0_r.
  replace (Z.to_nat (i * 2)) with (Z.to_nat (2 * i)) by lia; by replace (Z.to_nat (2 * i + 1)) with (S (Z.to_nat (2 * i))) by lia.
Qed.

Lemma entry_4 buf i : 0 <= i -> 4 * i + 4 <= Z.of_nat (length buf) ->
  entry_at 4 buf i = Some (nth (Z.to_nat (4 * i)) buf 0 + 256 * (nth (Z.to_nat (4 * i + 1)) buf 0 +
    256 * (nth (Z.to_nat (4 * i + 2)) buf 0 + 256 * nth (Z.to_nat (4 * i + 3)) buf 0))).
Proof.
  intros Hi Hl; unfold entry_at; change (Z.of_nat 2) with 2; change (Z.of_nat 4) with 4; replace ((0 <=? i) && _) with true by (symmetry; zbool; lia).
  rewrite !le_take by lia; cbn [take le_val]; rewrite Z.mul_0_r, Z.add_0_r.
  replace (Z.to_nat (i * 4)) with (Z.to_nat (4 * i)) by lia.
  by replace (Z.to_nat (4 * i + 1)) with (S (Z.to_nat (4 * i))) by lia; replace (Z.to_nat (4 * i + 2)) with (S (S (Z.to_nat (4 * i)))) by lia;
    replace (Z.to_nat (4 * i + 3)) with (S (S (S (Z.to_nat (4 * i))))) by lia.
Qed.

Lemma buf_byte g k : 0 <= k < 3072 -> nth (Z.to_nat k) (run block d0 (P + (fat_sect vol + 6 * g)) 6) 0 = table_byte (3072 * g + k).
Proof.
  intros Hk; rewrite run_lookup by lia; unfold table_byte.
  replace ((3072 * g + k) mod 512) with (k mod 512) by (Z.div_mod_to_equations; lia).
  replace ((3072 * g + k) / 512) with (6 * g + k / 512) by (Z.div_mod_to_equations; lia); do 2 f_equal; lia.
Qed.

Lemma table_byte_ok i : byte_ok (table_byte i).
Proof.
  unfold table_byte; destruct (nth_in_or_default (Z.to_nat (i mod 512)) (block d0 (P + fat_sect vol + i / 512)) 0) as [Hin| ->]; [|unfold byte_ok; lia].
  pose proof (block_bytes d0 (P + fat_sect vol + i / 512)) as Hf; rewrite List.Forall_forall in Hf; by apply Hf.
Qed.

(** Taking bits [k] to [k + n - 1]. *)
Lemma bits_of v k n : 0 <= k -> 0 <= n -> Z.shiftr (Z.land v (Z.shiftl (Z.ones n) k)) k = v / 2 ^ k mod 2 ^ n.
Proof.
  intros Hk Hn; rewrite Z.shiftr_land, Z.shiftr_shiftl_l, Z.sub_diag, Z.shiftl_0_r by lia; by rewrite Z.land_ones, Z.shiftr_div_pow2.
Qed.

Lemma word_parts x y : byte_ok x -> byte_ok y ->
  (x + 256 * y) mod 4096 = x + 256 * (y mod 16) /\ (x + 256 * y) / 16 mod 4096 = x / 16 + 16 * y /\
  (x + 256 * y) mod 256 = x /\ (x + 256 * y) / 256 mod 256 = y /\ (x + 256 * y) / 4096 mod 16 = y / 16.
Proof. unfold byte_ok; intros Hx Hy; Z.div_mod_to_equations; lia. Qed.

(** Four entries of 12 bits in three words. *)
Lemma decode_12 buf g offset : Z.of_nat (length buf) = 3072 ->
  (forall k j, 0 <= k < 3072 -> j = 3072 * g + k -> nth (Z.to_nat k) buf 0 = table_byte j) -> 0 <= offset < 2048 ->
  (let off16 := u32 (offset * 3) / 4 in
   let c := Z.land offset 3 in
   v ← entry_at 2 buf off16;
   if c =? 0 then Some (Z.land v 0xfff)
   else if c =? 1 then v2 ← entry_at 2 buf (off16 + 1); Some (Z.lor (Z.shiftl (Z.land v2 0xff) 4) (Z.shiftr (Z.land v 0xf000) 12))
   else if c =? 2 then v2 ← entry_at 2 buf (off16 + 1); Some (Z.lor (Z.shiftl (Z.land v2 0xf) 8) (Z.shiftr (Z.land v 0xff00) 8))
   else Some (Z.shiftr (Z.land v 0xfff0) 4)) =
  Some ((table_byte (3 * (g * 2048 + offset) / 2) + 256 * table_byte (3 * (g * 2048 + offset) / 2 + 1)) / 16 ^ ((g * 2048 + offset) mod 2) mod 4096).
Proof.
  intros Hl Hb Ho; rewrite wrap_small by lia; cbv zeta; replace (Z.land offset 3) with (offset mod 4) by (symmetry; exact (Z.land_ones offset 2 ltac:(lia))).
  pose proof (Z.div_mod offset 4 ltac:(lia)) as Hq; set (q := offset / 4) in *; assert (0 <= q < 512) as Hqr by (unfold q; Z.div_mod_to_equations; lia).
  assert (forall k, 0 <= k < 3072 -> byte_ok (nth (Z.to_nat k) buf 0)) as Fb by (intros k Hk; rewrite (Hb k _ Hk eq_refl); apply table_byte_ok).
  assert (offset mod 4 = 0 \/ offset mod 4 = 1 \/ offset mod 4 = 2 \/ offset mod 4 = 3) as Hc by (Z.div_mod_to_equations; lia).
  assert (forall i, 3 * (g * 2048 + offset) / 2 + i = 3072 * g + (6 * q + 3 * (offset mod 4) / 2 + i)) as Hpos by (intros i; Z.div_mod_to_equations; lia).
  assert ((g * 2048 + offset) mod 2 = offset mod 2) as -> by (Z.div_mod_to_equations; lia).
  assert (offset mod 2 = (offset mod 4) mod 2) as -> by (Z.div_mod_to_equations; lia).
  rewrite <- (Z.add_0_r (3 * _ / 2)) at 1; rewrite <- (Hb (6 * q + 3 * (offset mod 4) / 2 + 0)), <- (Hb (6 * q + 3 * (offset mod 4) / 2 + 1)) by (rewrite ?Hpos; (Z.div_mod_to_equations; lia)).
  replace (offset * 3 / 4) with (3 * q + 3 * (offset mod 4) / 4) by (Z.div_mod_to_equations; lia).
  change 0xfff with (Z.shiftl (Z.ones 12) 0); change 0xff with (Z.shiftl (Z.ones 8) 0); change 0xf with (Z.shiftl (Z.ones 4) 0).
  assert (forall x, Z.land x (Z.shiftl (Z.ones 4) 0) = x mod 16) as L4 by (intros; exact (Z.land_ones x 4 ltac:(lia))).
  assert (forall x, Z.land x (Z.shiftl (Z.ones 8) 0) = x mod 256) as L8 by (intros; exact (Z.land_ones x 8 ltac:(lia))).
  assert (forall x, Z.land x (Z.shiftl (Z.ones 12) 0) = x mod 4096) as L12 by (intros; exact (Z.land_ones x 12 ltac:(lia))).
  change 0xf000 with (Z.shiftl (Z.ones 4) 12); change 0xff00 with (Z.shiftl (Z.ones 8) 8); change 0xfff0 with (Z.shiftl (Z.ones 12) 4).
  assert (forall a b, 0 <= b < 16 -> Z.lor (Z.shiftl a 4) b = a * 16 + b) as O4 by (intros; by apply (Digest.lor_byte a b 4)).
  assert (forall a b, 0 <= b < 256 -> Z.lor (Z.shiftl a 8) b = a * 256 + b) as O8 by (intros; by apply (Digest.lor_byte a b 8)).
  destruct Hc as [Hc|[Hc|[Hc|Hc]]]; rewrite Hc in *; clear Hb Hpos.
  - change (3 * 0 / 4) with 0; change (3 * 0 / 2) with 0; cbn [Z.eqb Pos.eqb]; rewrite !Z.add_0_r, entry_2 by lia; cbn [mbind option_bind].
    rewrite L12; change (16 ^ (0 mod 2)) with 1; rewrite Z.div_1_r; by replace (2 * (3 * q)) with (6 * q) by lia.
  - change (3 * 1 / 4) with 0; change (3 * 1 / 2) with 1; change (16 ^ (1 mod 2)) with 16; cbn [Z.eqb Pos.eqb]; rewrite !Z.add_0_r, !entry_2 by lia; cbn [mbind option_bind].
    rewrite L8, bits_of by lia; replace (2 * (3 * q)) with (6 * q) by lia; replace (2 * (3 * q + 1)) with (6 * q + 1 + 1) by lia; f_equal.
    pose proof (Fb (6 * q) ltac:(lia)) as B0; pose proof (Fb (6 * q + 1) ltac:(lia)) as B1; pose proof (Fb (6 * q + 1 + 1) ltac:(lia)) as B2; pose proof (Fb (6 * q + 1 + 1 + 1) ltac:(lia)) as B3.
    destruct (word_parts _ _ B0 B1) as (_ & _ & _ & _ & E1); destruct (word_parts _ _ B2 B3) as (_ & _ & E2 & _); destruct (word_parts _ _ B1 B2) as (_ & E3 & _).
    change (2 ^ 12) with 4096; change (2 ^ 4) with 16; rewrite E1, E2, E3, O4 by (unfold byte_ok in B1; Z.div_mod_to_equations; lia); lia.
  - change (3 * 2 / 4) with 1; change (3 * 2 / 2) with 3; change (16 ^ (2 mod 2)) with 1; cbn [Z.eqb Pos.eqb]; rewrite !entry_2 by lia; cbn [mbind option_bind]; rewrite !Z.add_0_r.
    rewrite L4, bits_of by lia; replace (2 * (3 * q + 1)) with (6 * q + 2) by lia; replace (2 * (3 * q + 1 + 1)) with (6 * q + 3 + 1) by lia; replace (6 * q + 2 + 1) with (6 * q + 3) by lia; f_equal.
    pose proof (Fb (6 * q + 2) ltac:(lia)) as B0; pose proof (Fb (6 * q + 3) ltac:(lia)) as B1; pose proof (Fb (6 * q + 3 + 1) ltac:(lia)) as B2.
    assert (byte_ok (nth (Z.to_nat (6 * q + 3 + 1 + 1)) buf 0)) as B3 by (apply Fb; lia).
    destruct (word_parts _ _ B0 B1) as (_ & _ & _ & E1 & _); destruct (word_parts _ _ B1 B2) as (E3 & _).
    change (2 ^ 8) with 256; rewrite Z.div_1_r, E1, E3, O8 by done.
    replace ((nth (Z.to_nat (6 * q + 3 + 1)) buf 0 + 256 * nth (Z.to_nat (6 * q + 3 + 1 + 1)) buf 0) mod 16) with (nth (Z.to_nat (6 * q + 3 + 1)) buf 0 mod 16); [lia|].
    unfold byte_ok in *; Z.div_mod_to_equations; lia.
  - change (3 * 3 / 4) with 2; change (3 * 3 / 2) with 4; change (16 ^ (3 mod 2)) with 16; cbn [Z.eqb Pos.eqb]; rewrite !entry_2 by lia; cbn [mbind option_bind]; rewrite !Z.add_0_r.
    rewrite bits_of by lia; by replace (2 * (3 * q + 2)) with (6 * q + 4) by lia.
Qed.

(** A part of the table in memory gives the entries of the table. *)
Lemma decode_ok g offset : 0 <= g -> 0 <= offset < per_buf ->
  decode bits (run block d0 (P + (fat_sect vol + 6 * g)) 6) offset = Some (link (g * per_buf + offset)).
Proof.
  intros Hg Ho; set (buf := run _ _ _ _).
  assert (Z.of_nat (length buf) = 3072) as Hl by (unfold buf; rewrite run_length; lia).
  assert (forall k j, 0 <= k < 3072 -> j = 3072 * g + k -> nth (Z.to_nat k) buf 0 = table_byte j) as Hb by (intros k j Hk ->; by apply buf_byte).
  pose proof (vol_bits Hv) as [E|[E|E]]; unfold decode, link, per_buf in *; rewrite E in *; cbn [Z.eqb Pos.eqb] in *.
  - apply decode_12; [done..|lia].
  - rewrite entry_2 by lia; f_equal; rewrite !(Hb _ (2 * (g * 1536 + offset))), !(Hb _ (2 * (g * 1536 + offset) + 1)) by lia; done.
  - rewrite entry_4 by lia; f_equal.
    by rewrite !(Hb _ (4 * (g * 768 + offset))), !(Hb _ (4 * (g * 768 + offset) + 1)), !(Hb _ (4 * (g * 768 + offset) + 2)), !(Hb _ (4 * (g * 768 + offset) + 3)) by lia.
Qed.

Lemma same_pos_refl (h : @handle C) : same_pos h h.
Proof. done. Qed.

Lemma same_pos_trans (h1 h2 h3 : @handle C) : same_pos h1 h2 -> same_pos h2 h3 -> same_pos h1 h3.
Proof. unfold same_pos; intros (? & ? & ? & ?) (? & ? & ? & ?); repeat split; congruence. Qed.

Lemma put_buf_all (buf data : bytes) : length data = length buf -> put_buf buf 0 data = Some data.
Proof.
  intros Hl; unfold put_buf; replace ((0 <=? 0) && _) with true by (symmetry; zbool; lia).
  change (Z.to_nat 0) with 0%nat; rewrite take_0, drop_ge by lia; by rewrite app_nil_r.
Qed.

Lemma per_buf_eq h : opened h -> (if bits =? 32 then FAT32BUFSIZE (datablock h) else if bits =? 16 then FAT16BUFSIZE (datablock h) else FAT12BUFSIZE (datablock h)) = per_buf.
Proof. intros [_ _ _ _ Hvol _ _]; rewrite Hvol; unfold FAT32BUFSIZE, FAT16BUFSIZE, FAT12BUFSIZE, FATBUFSIZE, per_buf; cbn [sect_size]; by rewrite (vol_sect Hv). Qed.

Lemma per_buf_pos : 768 <= per_buf.
Proof. unfold per_buf; destruct (bits =? 32), (bits =? 16); lia. Qed.

(** The entry of a cluster, from the buffer or from the card. *)
Lemma get_fatent_ok h c : opened h -> 0 <= c < 2 ^ 32 -> fat_sect vol + 6 * (c / per_buf) + 6 <= nsect ->
  exists h', get_fatent h c = Some (link c, h') /\ opened h' /\ same_pos h h' /\ fat_buf h' = fat_buf h /\ fat_buf_cluster_index h' = fat_buf_cluster_index h.
Proof.
  intros Hop Hc Hfat; pose proof Hop as [Hb Hg Hr Hp Hvol [Hlf Hf] Hcache]; pose proof per_buf_pos as Hpb.
  assert (fatsize (datablock h) = bits /\ fat_sect (datablock h) = fat_sect vol /\ fatlength (datablock h) = fatlength vol /\ FATBUFSIZE (datablock h) = 3072) as (Ebits & Es & El & Ef).
  { rewrite Hvol; unfold FATBUFSIZE; cbn [fatsize fat_sect fatlength sect_size]; by rewrite (vol_sect Hv). }
  unfold get_fatent; cbv zeta; rewrite Ebits, Es, El, Ef, per_buf_eq by done.
  replace (negb _) with false by (destruct (vol_bits Hv) as [-> |[-> | ->]]; done).
  rewrite (proj2 (Z.eqb_neq per_buf 0)) by lia; set (g := c / per_buf) in *.
  pose proof (vol_fat Hv) as [Hfs Hfl]; destruct (vol_range Hv) as [HP Hend].
  assert (0 <= g < 2 ^ 23) as Hg0 by (unfold g; Z.div_mod_to_equations; nia).
  assert (0 <= c - g * per_buf < per_buf) as Ho by (unfold g; Z.div_mod_to_equations; lia).
  assert (c - g * per_buf < 2 ^ 32) as Ho32 by lia; rewrite (wrap_small 32 (c - _)) by lia.
  assert (link c = link (g * per_buf + (c - g * per_buf))) as Elink by (f_equal; lia).
  rewrite (wrap_small 32 (fatlength vol * SECTOR_SIZE)), (wrap_small 32 (g * FATBUFBLOCKS + _)) by (unfold SECTOR_SIZE, FATBUFBLOCKS; lia).
  change (3072 / FS_BLOCK_SIZE) with 6; rewrite (proj2 (Z.ltb_ge (fatlength vol * _) 6)) by (unfold SECTOR_SIZE; lia).
  destruct (negb (g =? u32 (fatbufnum (datablock h)))) eqn:Eg.
  - unfold v2_ext_mmc_read; destruct (disk_read_ok h (g * FATBUFBLOCKS + fat_sect vol) 6 Hop) as (r & h1 & E & Hr0 & Hop1 & Hpos & Ed & Eb & Ei); [unfold FATBUFBLOCKS; lia..|].
    rewrite E; cbv beta iota zeta; change (Z.to_nat 6) with 6%nat; rewrite put_buf_all by (pose proof (run_length 512 d0 6 (P + (g * FATBUFBLOCKS + fat_sect vol))); lia).
    cbn [mbind option_bind]; rewrite (proj2 (Z.ltb_ge r 0)) by done.
    replace (g * FATBUFBLOCKS + fat_sect vol) with (fat_sect vol + 6 * g) by (unfold FATBUFBLOCKS; lia).
    rewrite decode_ok by lia; cbn [mbind option_bind]; rewrite Elink; eexists; split; [reflexivity|]; rewrite s32_small by lia.
    destruct Hop1 as [Hb1 Hg1 Hr1 Hp1 Hvol1 _ Hcache1]; rewrite Ed in Hvol1; split; [|done].
    split; try done; cbn [datablock set_fatbuf fatbuf fatbufnum fatsize fatlength fat_sect rootdir_sect sect_size clust_size data_begin]; [by rewrite Ed, Hvol|].
    split; [pose proof (run_length 512 d0 6 (P + (fat_sect vol + 6 * g))); lia|right; split; [lia|done]].
  - apply negb_false_iff, Z.eqb_eq in Eg; assert (fatbufnum (datablock h) = g) as En.
    { destruct Hf as [Em|[Hn _]]; [rewrite Em in Eg; change (u32 (-1)) with (2 ^ 32 - 1) in Eg; lia|by rewrite wrap_small in Eg by lia]. }
    destruct Hf as [Em|[Hn Hbuf]]; [lia|]; rewrite Hbuf, En, decode_ok by lia; cbn [mbind option_bind]; rewrite Elink; eexists; split; [reflexivity|done].
Qed.

Lemma next_entry_ok h c fsz off : opened h -> 0 <= fsz < 2 ^ 32 -> 0 <= off < 2 ^ 32 -> (off < fsz -> cluster_ok c /\ CHECK_CLUST (link c) bits = false) -> 0 <= c < 2 ^ 32 ->
  exists h', optimus_fat_get_fat_next_entry h c fsz off = Some (0, if fsz <=? off then c else link c, h') /\ opened h' /\ same_pos h h' /\
    fat_buf h' = fat_buf h /\ fat_buf_cluster_index h' = fat_buf_cluster_index h.
Proof.
  intros Hop Hf Ho Hc Hcr; unfold optimus_fat_get_fat_next_entry; rewrite !wrap_small by lia.
  destruct (fsz <=? off) eqn:E; [by exists h|]; apply Z.leb_gt in E; destruct (Hc E) as [[_ Hfat _] Hn].
  destruct (get_fatent_ok h c Hop Hcr Hfat) as (h' & -> & Hop' & Hrest); cbn [mbind option_bind]; exists h'; split; [|done].
  destruct Hop' as [_ _ _ _ Hvol' _ _]; rewrite Hvol'; cbn [fatsize]; by rewrite Hn.
Qed.

(** Reading [n] clusters that follow each other. *)
Lemma get_cluster_ok h c n : opened h -> 0 < c -> (0 < n)%nat -> Z.of_nat n * bpc < 2 ^ 32 -> 0 <= data_begin vol + c * spc -> data_begin vol + (c + Z.of_nat n) * spc <= nsect ->
  exists h', get_cluster h c (Z.of_nat n * bpc) = (0, [(0, cluster_run c n)], h') /\ opened h' /\ same_pos h h' /\
    fat_buf h' = fat_buf h /\ fat_buf_cluster_index h' = fat_buf_cluster_index h.
Proof.
  intros Hop Hc Hn Hlen Hs He; pose proof spc_range as Hspc; destruct (vol_range Hv) as [HP Hend].
  assert (data_begin (datablock h) = data_begin vol /\ clust_size (datablock h) = spc) as (Ed & Ec) by (destruct Hop as [_ _ _ _ Hvol _ _]; by rewrite Hvol).
  unfold get_cluster, bpc in *; cbv zeta; rewrite Ed, Ec, (proj2 (Z.ltb_lt 0 c)) by done.
  replace (Z.of_nat n * (spc * 512) / FS_BLOCK_SIZE) with (Z.of_nat n * spc) by (rewrite Z.mul_assoc; by rewrite Z.div_mul).
  rewrite (wrap_small 32 (data_begin vol + _)), (wrap_small 32 (Z.of_nat n * spc)) by nia.
  unfold v2_ext_mmc_read; destruct (disk_read_ok h (data_begin vol + c * spc) (Z.of_nat n * spc) Hop) as (r & h1 & E & Hr0 & Hop1 & Hpos & _ & Eb & Ei); [nia..|].
  rewrite E; cbv beta iota zeta; rewrite (proj2 (Z.ltb_ge r 0)) by done; unfold FS_BLOCK_SIZE, SECTOR_SIZE; rewrite Z.mul_assoc, Z.mod_mul by done; cbn [Z.eqb negb].
  eexists; split; [|done]; unfold cluster_run; by rewrite Z2Nat.inj_mul, Nat2Z.id by lia.
Qed.

Lemma cache_cluster_ok h c : opened h -> 0 < c -> 0 <= data_begin vol + c * spc -> data_begin vol + (c + 1) * spc <= nsect ->
  exists h', cache_cluster h c bpc = Some (0, h') /\ opened h' /\ same_pos h h' /\ fat_buf h' = cluster c /\ fat_buf_cluster_index h' = c.
Proof.
  intros Hop Hc Hs He; pose proof spc_range; unfold cache_cluster.
  destruct (get_cluster_ok h c 1 Hop Hc ltac:(lia)) as (h1 & E & Hop1 & Hpos & Eb & Ei); [unfold bpc; lia|done|done|].
  rewrite Z.mul_1_l in E; rewrite E; cbn [put_all]; assert (length (cluster_run c 1) = length (fat_buf h1)) as Hl.
  { pose proof (run_length 512 d0 (1 * Z.to_nat spc) (P + (data_begin vol + c * spc))) as Hrl; fold (cluster_run c 1) in Hrl; destruct Hop1 as [_ _ _ _ _ _ [Hlc _]]; unfold bpc in Hlc; lia. }
  rewrite put_buf_all by done; cbn [mbind option_bind Z.eqb negb]; eexists; split; [reflexivity|]; split; [|done].
  destruct Hop1 as [Hb1 Hg1 Hr1 Hp1 Hvol1 Hf1 [Hlc _]]; split; try done; cbn [fat_buf set_cache fat_buf_cluster_index]; split; [by rewrite Hl|by right].
Qed.

(** ** A file: the chain of its clusters *)

Context (chain : list Z) (fsize : Z).

Record file_ok : Prop := {
  file_chain : Forall cluster_ok chain;
  file_links : forall i c c', chain !! i = Some c -> chain !! S i = Some c' -> link c = c';
  file_size : 0 <= fsize < 2 ^ 32 /\ fsize <= Z.of_nat (length chain) * bpc }.

Definition file_data : bytes := take (Z.to_nat fsize) (concat (map cluster chain)).

(** [n] bytes at [o] of the clusters. *)
Definition seg (o n : Z) : bytes := take (Z.to_nat n) (drop (Z.to_nat o) (concat (map cluster chain))).

(** The handle is at offset [o] of the file. *)
Record at_pos (h : handle) (o : Z) : Prop := {
  at_opened : opened h;
  at_off : foffset h = o /\ 0 <= o <= fsize;
  at_size : filesize h = fsize;
  at_head : 0 < fsize -> chain !! 0%nat = Some (headclust h);
  at_clust : o < fsize -> chain !! Z.to_nat (o / bpc) = Some (curclust h) }.

Context (Hfile : file_ok).

Lemma bpc_pos : 512 <= bpc <= 65536 /\ bpc mod 512 = 0.
Proof. pose proof spc_range; unfold bpc; split; [lia|by apply Z.mod_mul]. Qed.

Lemma cluster_length c : Z.of_nat (length (cluster c)) = bpc.
Proof. pose proof spc_range; unfold cluster, cluster_run, bpc; rewrite run_length; lia. Qed.

Lemma cluster_run_bytes c n : Forall byte_ok (cluster_run c n).
Proof. apply run_bytes. Qed.

Lemma chain_in i c : chain !! i = Some c -> cluster_ok c /\ 0 < c < 2 ^ 28.
Proof.
  intros Hi; pose proof (file_chain Hfile) as Hf; rewrite Forall_lookup in Hf; specialize (Hf i c Hi); split; [done|].
  destruct Hf as [Hc _ _]; unfold CHECK_CLUST in Hc; apply orb_false_iff in Hc as [H1 H2]; apply Z.leb_gt in H1, H2.
  destruct (vol_bits Hv) as [E|[E|E]]; rewrite E in H2; cbn in H2; lia.
Qed.

Lemma chain_has o : 0 <= o < fsize -> exists c, chain !! Z.to_nat (o / bpc) = Some c.
Proof.
  intros Ho; apply lookup_lt_is_Some_2; destruct (file_size Hfile) as [_ Hs]; pose proof bpc_pos as [Hb _].
  assert (o / bpc < Z.of_nat (length chain)) by (apply Z.div_lt_upper_bound; lia); pose proof (Z.div_pos o bpc ltac:(lia) ltac:(lia)); lia.
Qed.

Lemma concat_take {A} (L : nat) (ls : list (list A)) : Forall (fun l => length l = L) ls -> forall n,
  take (n * L) (concat ls) = concat (take n ls) /\ drop (n * L) (concat ls) = concat (drop n ls).
Proof.
  induction 1 as [|l ls Hl _ IH]; intros n; [cbn; by rewrite !take_nil, !drop_nil|].
  destruct n as [|n]; [done|]; cbn [concat take drop Nat.mul]; destruct (IH n) as [E1 E2].
  rewrite take_app_ge, drop_app_ge by lia; replace (L + n * L - length l)%nat with (n * L)%nat by lia; by rewrite E1, E2.
Qed.

Lemma clusters_len l : Forall (fun x => length x = Z.to_nat bpc) (map cluster l).
Proof. apply List.Forall_forall; intros x (c & <- & _)%in_map_iff; pose proof (cluster_length c); lia. Qed.

(** Whole clusters of the file. *)
Lemma seg_clusters i n : seg (Z.of_nat i * bpc) (Z.of_nat n * bpc) = concat (map cluster (take n (drop i chain))).
Proof.
  pose proof bpc_pos; unfold seg; replace (Z.to_nat (Z.of_nat n * bpc)) with (n * Z.to_nat bpc)%nat by lia.
  replace (Z.to_nat (Z.of_nat i * bpc)) with (i * Z.to_nat bpc)%nat by lia.
  rewrite (proj2 (concat_take (Z.to_nat bpc) _ (clusters_len chain) i)), skipn_map.
  by rewrite (proj1 (concat_take (Z.to_nat bpc) _ (clusters_len (drop i chain)) n)), firstn_map.
Qed.

Lemma cluster_run_S c n : cluster_run c (S n) = cluster c ++ cluster_run (c + 1) n.
Proof.
  pose proof spc_range; unfold cluster, cluster_run; replace (S n * Z.to_nat spc)%nat with (1 * Z.to_nat spc + n * Z.to_nat spc)%nat by lia.
  rewrite run_app; do 2 f_equal; lia.
Qed.

Lemma run_clusters n : forall i c, (forall t, (t < n)%nat -> chain !! (i + t)%nat = Some (c + Z.of_nat t)) ->
  cluster_run c n = concat (map cluster (take n (drop i chain))).
Proof.
  induction n as [|n IH]; intros i c Hc; [done|].
  assert (chain !! i = Some c) as H0 by (specialize (Hc 0%nat ltac:(lia)); by rewrite Nat.add_0_r, Z.add_0_r in Hc).
  rewrite cluster_run_S, (drop_S _ _ _ H0); cbn [take map concat]; f_equal; apply IH; intros t Ht.
  specialize (Hc (S t) ltac:(lia)); rewrite Nat.add_succ_r in Hc; rewrite Nat.add_succ_l, Hc; f_equal; lia.
Qed.

Lemma seg_app o n k : 0 <= o -> 0 <= n -> 0 <= k -> seg o (n + k) = seg o n ++ seg (o + n) k.
Proof.
  intros Ho Hn Hk; unfold seg; rewrite !Z2Nat.inj_add, <- drop_drop by lia.
  set (l := drop (Z.to_nat o) _); rewrite <- (take_drop (Z.to_nat n) l) at 1; rewrite take_app.
  destruct (decide (Z.to_nat n <= length l)%nat).
  - rewrite length_take, take_take; f_equal; f_equal; lia.
  - by rewrite !(take_ge l), !(drop_ge l), !take_nil by lia.
Qed.

Lemma seg_length o n : 0 <= o -> 0 <= n -> o + n <= fsize -> Z.of_nat (length (seg o n)) = n.
Proof.
  intros Ho Hn He; destruct (file_size Hfile) as [_ Hs]; pose proof bpc_pos; unfold seg; rewrite length_take, length_drop.
  assert (forall l, length (concat (map cluster l)) = (length l * Z.to_nat bpc)%nat) as ->; [|lia].
  induction l as [|c l IH]; [done|]; cbn [map concat length]; rewrite length_app, IH; pose proof (cluster_length c); lia.
Qed.

Lemma seg_bytes o n : Forall byte_ok (seg o n).
Proof.
  apply Forall_take, Forall_drop, Forall_concat, List.Forall_forall; intros x (c & <- & _)%in_map_iff; apply cluster_run_bytes.
Qed.

Lemma seg_file o n : 0 <= o -> 0 <= n -> o + n <= fsize -> seg o n = take (Z.to_nat n) (drop (Z.to_nat o) file_data).
Proof. intros Ho Hn He; unfold seg, file_data; rewrite skipn_firstn_comm, take_take; f_equal; lia. Qed.

Lemma opened_bpc h : opened h -> bytesperclust h = bpc.
Proof. intros [_ _ _ _ Hvol _ _]; unfold bytesperclust, bpc; by rewrite Hvol. Qed.

Lemma chain_next i c : chain !! i = Some c -> (Z.of_nat i + 1) * bpc < fsize -> exists c', chain !! S i = Some c' /\ link c = c'.
Proof.
  intros Hi Hs; pose proof bpc_pos as [Hb _]; destruct (chain_has ((Z.of_nat i + 1) * bpc)) as [c' Hc']; [lia|].
  rewrite Z.div_mul in Hc' by lia; replace (Z.to_nat (Z.of_nat i + 1)) with (S i) in Hc' by lia.
  exists c'; split; [done|by eapply file_links].
Qed.

Lemma entry_ok h i c : opened h -> chain !! i = Some c -> exists h', get_fatent h c = Some (link c, h') /\ opened h' /\ same_pos h h'.
Proof.
  intros Hop Hi; destruct (chain_in _ _ Hi) as [[_ Hfat _] Hc]; destruct (get_fatent_ok h c Hop ltac:(lia) Hfat) as (h' & ? & ? & ? & _); by exists h'.
Qed.

Lemma consecutive_ok fuel : forall h i c actsize len, opened h -> chain !! i = Some c -> 0 <= actsize ->
  (Z.of_nat i + 1) * bpc + actsize <= fsize -> actsize / bpc <= Z.of_nat fuel -> 0 <= len -> len + actsize < 2 ^ 32 ->
  exists (j : nat) h', consecutive fuel h c actsize len = Some (Some (c + Z.of_nat j, actsize - Z.of_nat j * bpc, len + Z.of_nat j * bpc), h') /\
    (forall t, (t <= j)%nat -> chain !! (i + t)%nat = Some (c + Z.of_nat t)) /\ Z.of_nat j * bpc <= actsize /\ opened h' /\ same_pos h h'.
Proof.
  pose proof bpc_pos as [Hb _].
  induction fuel as [|fuel IH]; intros h i c actsize len Hop Hi Ha He Hf Hl Hl32; cbn [consecutive]; rewrite (opened_bpc h Hop);
    (destruct (actsize <? bpc) eqn:E; [apply Z.ltb_lt in E|apply Z.ltb_ge in E]).
  1,3: exists 0%nat, h; rewrite Z.mul_0_l, !Z.add_0_r, Z.sub_0_r; split; [done|]; split; [|split; [lia|done]];
    intros t Ht; replace t with 0%nat by lia; by rewrite Nat.add_0_r, Z.add_0_r.
  - assert (1 <= actsize / bpc) by (apply Z.div_le_lower_bound; lia); lia.
  - destruct (chain_next i c Hi) as (c' & Hi' & El); [lia|]; destruct (entry_ok h i c Hop Hi) as (h1 & -> & Hop1 & Hp1); cbn [mbind option_bind].
    destruct (chain_in _ _ Hi') as [[Hck _ _] Hc']; destruct (chain_in _ _ Hi) as [_ Hc]; rewrite El.
    assert (fatsize (datablock h1) = bits) as -> by (destruct Hop1 as [_ _ _ _ Hvol _ _]; by rewrite Hvol).
    rewrite Hck, wrap_small by lia; destruct (negb (c' - 1 =? c)) eqn:En.
    + exists 0%nat, h1; rewrite Z.mul_0_l, !Z.add_0_r, Z.sub_0_r; split; [done|]; split; [|split; [lia|done]].
      intros t Ht; replace t with 0%nat by lia; by rewrite Nat.add_0_r, Z.add_0_r.
    + apply negb_false_iff, Z.eqb_eq in En; rewrite (opened_bpc h1 Hop1), wrap_small by lia.
      destruct (IH h1 (S i) c' (actsize - bpc) (len + bpc) Hop1 Hi') as (j & h2 & E2 & Ht & Hj & Hop2 & Hp2); [lia..| | |lia|].
      * replace actsize with (actsize - bpc + 1 * bpc) in Hf by lia; rewrite Z.div_add in Hf by lia; lia.
      * lia.
      * exists (S j), h2; rewrite E2; replace (c + Z.of_nat (S j)) with (c' + Z.of_nat j) by lia; replace (actsize - Z.of_nat (S j) * bpc) with (actsize - bpc - Z.of_nat j * bpc) by lia;
          replace (len + Z.of_nat (S j) * bpc) with (len + bpc + Z.of_nat j * bpc) by lia; split; [done|]; split; [|split; [lia|split; [done|by eapply same_pos_trans]]].
        intros [|t] Htj; [by rewrite Nat.add_0_r, Z.add_0_r|]; rewrite Nat.add_succ_r, <- Nat.add_succ_l, Ht by lia; f_equal; lia.
Qed.

Lemma store_one m p data : Forall byte_ok data -> mapped m p (length data) -> store_all m p [(0, data)] = Some (write_bytes m p data).
Proof. intros Fd Hm; cbn [store_all]; rewrite Z.add_0_r, Burn.store_bytes_ok by done; done. Qed.

(** The cluster behind the clusters read, if the file goes on. *)
Lemma next_ok h i c : opened h -> filesize h = fsize -> chain !! i = Some c -> (Z.of_nat i + 1) * bpc <= fsize ->
  exists c' h', optimus_fat_get_fat_next_entry h c (filesize h) ((Z.of_nat i + 1) * bpc) = Some (0, c', h') /\
    opened h' /\ same_pos h h' /\ ((Z.of_nat i + 1) * bpc < fsize -> chain !! S i = Some c').
Proof.
  intros Hop Hs Hi Hle; destruct (chain_in _ _ Hi) as [Hok Hc]; destruct (file_size Hfile) as [Hf Hl]; pose proof bpc_pos as [Hb _].
  destruct (next_entry_ok h c (filesize h) ((Z.of_nat i + 1) * bpc) Hop) as (h' & E & Hop' & Hp & _); [lia..| |lia|].
  - rewrite Hs; intros Hlt; destruct (chain_next i c Hi Hlt) as (c' & Hi' & ->); by destruct (chain_in _ _ Hi') as [[] _].
  - rewrite E; eexists _, h'; split; [done|]; split; [done|]; split; [done|]; intros Hlt.
    destruct (chain_next i c Hi Hlt) as (c' & Hi' & ->); by rewrite Hs, (proj2 (Z.leb_gt fsize _)) by lia.
Qed.

Lemma whole_ok fuel : forall h m i c buffer got actsize, opened h -> filesize h = fsize -> 0 <= actsize ->
  (Z.of_nat i * bpc < fsize -> chain !! i = Some c) -> Z.of_nat i * bpc + actsize <= fsize -> actsize / bpc <= Z.of_nat fuel ->
  0 <= got -> got + actsize < 2 ^ 32 -> mapped m buffer (Z.to_nat actsize) ->
  exists (n : nat) c' h', whole_clusters fuel h m buffer got (Z.of_nat i * bpc) c actsize =
    Some (Continue (buffer + Z.of_nat n * bpc) (got + Z.of_nat n * bpc) (Z.of_nat (i + n) * bpc) c' (actsize - Z.of_nat n * bpc),
          write_bytes m buffer (seg (Z.of_nat i * bpc) (Z.of_nat n * bpc)), h') /\
    0 <= actsize - Z.of_nat n * bpc < bpc /\ opened h' /\ same_pos h h' /\ (Z.of_nat (i + n) * bpc < fsize -> chain !! (i + n)%nat = Some c').
Proof.
  pose proof bpc_pos as [Hb _]; pose proof (file_size Hfile) as [Hf32 _].
  induction fuel as [|fuel IH]; intros h m i c buffer got actsize Hop Hs Ha Hi He Hf Hg Hg32 Hm; cbn [whole_clusters]; rewrite (opened_bpc h Hop);
    (destruct (actsize <? bpc) eqn:E; [apply Z.ltb_lt in E|apply Z.ltb_ge in E]).
  1,3: exists 0%nat, c, h; rewrite Nat.add_0_r; cbn [Z.of_nat]; rewrite Z.mul_0_l, !Z.add_0_r, Z.sub_0_r; unfold seg; cbn [Z.to_nat take write_bytes]; by split; [|split; [lia|]].
  - assert (1 <= actsize / bpc) by (apply Z.div_le_lower_bound; lia); lia.
  - specialize (Hi ltac:(lia)); assert (actsize - bpc = actsize + (-1) * bpc) as Em by lia.
    destruct (consecutive_ok (S fuel) h i c (actsize - bpc) bpc Hop Hi) as (j & h1 & -> & Ht & Hj & Hop1 & Hp1); [lia..|rewrite Em, Z.div_add by lia; lia|lia|lia|].
    cbn [mbind option_bind]; destruct (chain_in _ _ Hi) as [Hok Hc]; pose proof (Ht j ltac:(lia)) as Hij; destruct (chain_in _ _ Hij) as [Hokj _].
    replace (bpc + Z.of_nat j * bpc) with (Z.of_nat (S j) * bpc) by lia.
    destruct (get_cluster_ok h1 c (S j) Hop1) as (h2 & -> & Hop2 & Hp2 & _); [lia..|by apply Hok|destruct Hokj as [_ _ [_ Hd]]; nia|].
    assert (Z.of_nat (length (cluster_run c (S j))) = Z.of_nat (S j) * bpc) as Hlen.
    { pose proof spc_range; unfold cluster_run, bpc; rewrite run_length; lia. }
    rewrite store_one by (apply cluster_run_bytes || (eapply Burn.mapped_sub; [exact Hm|lia|lia])); cbn [mbind option_bind Z.eqb negb].
    assert (filesize h2 = fsize) as Hs2 by (destruct Hp1 as (_ & E1 & _), Hp2 as (_ & E2 & _); congruence).
    rewrite (wrap_small 64), (wrap_small 32) by lia; replace (Z.of_nat i * bpc + Z.of_nat (S j) * bpc) with ((Z.of_nat (i + j) + 1) * bpc) by lia.
    destruct (next_ok h2 (i + j) (c + Z.of_nat j) Hop2 Hs2 Hij) as (c3 & h3 & -> & Hop3 & Hp3 & Hn3); [lia|]; cbn [mbind option_bind Z.eqb negb].
    replace ((Z.of_nat (i + j) + 1) * bpc) with (Z.of_nat (i + S j) * bpc) by lia.
    replace (actsize - bpc - Z.of_nat j * bpc) with (actsize - Z.of_nat (S j) * bpc) by lia.
    destruct (IH h3 (write_bytes m buffer (cluster_run c (S j))) (i + S j)%nat c3 (buffer + Z.of_nat (S j) * bpc) (got + Z.of_nat (S j) * bpc) (actsize - Z.of_nat (S j) * bpc) Hop3) as (n & c4 & h4 & -> & Hr & Hop4 & Hp4 & Hn4).
    + destruct Hp3 as (_ & E3 & _); congruence.
    + lia.
    + intros Hlt; rewrite <- Nat.add_succ_comm; apply Hn3; lia.
    + lia.
    + replace (actsize - Z.of_nat (S j) * bpc) with (actsize + (- Z.of_nat (S j)) * bpc) by lia; rewrite Z.div_add by lia; lia.
    + lia.
    + lia.
    + eapply Burn.mapped_sub; [by apply mapped_write|lia|lia].
    + exists (S j + n)%nat, c4, h4; rewrite Nat.add_assoc, !(Nat2Z.inj_add (S j) n), !Z.mul_add_distr_r, !Z.add_assoc, Z.sub_add_distr.
      split; [|split; [done|split; [done|split; [|done]]]].
      * do 3 f_equal; rewrite seg_app, (seg_clusters i (S j)), <- (run_clusters (S j) i c), write_bytes_app, Hlen by (lia || (intros t Htj; apply Ht; lia)).
        by rewrite Nat2Z.inj_add, Z.mul_add_distr_r.
      * eapply same_pos_trans; [|exact Hp4]; eapply same_pos_trans; [|exact Hp3]; by eapply same_pos_trans.
Qed.

Lemma pos_at h h' c o : opened h' -> filesize h = fsize -> (0 < fsize -> chain !! 0%nat = Some (headclust h)) -> same_pos h h' ->
  0 <= o <= fsize -> (o < fsize -> chain !! Z.to_nat (o / bpc) = Some c) -> at_pos (set_pos o c h') o.
Proof.
  intros [] Hs Hh (_ & E1 & _ & E2) Ho Hc; split; cbn [foffset filesize headclust curclust set_pos]; [by split|done|congruence|by rewrite E2|done].
Qed.

Lemma div_in_cluster i x : 0 <= x < bpc -> (i * bpc + x) / bpc = i.
Proof. intros Hx; rewrite Z.add_comm, Z.div_add by lia; by rewrite Z.div_small. Qed.

Lemma read_clusters_ok h m i c buffer got n : opened h -> filesize h = fsize -> (0 < fsize -> chain !! 0%nat = Some (headclust h)) ->
  buffer mod 512 = 0 -> (Z.of_nat i * bpc < fsize -> chain !! i = Some c) -> Z.of_nat i * bpc + n <= fsize -> 0 <= n ->
  0 <= got -> got + n < 2 ^ 32 -> mapped m buffer (Z.to_nat n) ->
  exists h', read_clusters h m buffer got (Z.of_nat i * bpc) c n = Some (got + n, write_bytes m buffer (seg (Z.of_nat i * bpc) n), h') /\
    at_pos h' (Z.of_nat i * bpc + n).
Proof.
  intros Hop Hs Hh Hal Hc He Hn Hg Hg32 Hm; pose proof bpc_pos as [Hb _]; pose proof (file_size Hfile) as [Hf32 _].
  unfold read_clusters; change (SECTOR_SIZE - 1) with (Z.ones 9); rewrite Z.land_ones by lia; change (2 ^ 9) with 512; rewrite Hal; cbn [Z.eqb negb]; rewrite (opened_bpc h Hop).
  destruct (whole_ok (Z.to_nat (n / bpc)) h m i c buffer got n Hop Hs Hn Hc He) as (k & c1 & h1 & -> & Hr & Hop1 & Hp1 & Hc1); [|lia|lia|done|].
  { pose proof (Z.div_pos n bpc ltac:(lia) ltac:(lia)); lia. }
  cbn [mbind option_bind]; set (x := n - Z.of_nat k * bpc) in *; assert (n = Z.of_nat k * bpc + x) as En by (unfold x; lia).
  assert (filesize h1 = fsize) as Hs1 by (destruct Hp1 as (_ & E & _); congruence).
  assert (Z.of_nat i * bpc + n = Z.of_nat (i + k) * bpc + x) as Eo by lia.
  assert (forall h2 c2, opened h2 -> same_pos h1 h2 -> (Z.of_nat i * bpc + n < fsize -> chain !! (i + k)%nat = Some c2) -> at_pos (set_pos (Z.of_nat i * bpc + n) c2 h2) (Z.of_nat i * bpc + n)) as Hat.
  { intros h2 c2 Hop2 Hp2 Hc2; apply (pos_at h h2); try done; [by eapply same_pos_trans|lia|].
    rewrite Eo, div_in_cluster, Nat2Z.id by lia; rewrite <- Eo; done. }
  destruct (x =? 0) eqn:Ex; [apply Z.eqb_eq in Ex|apply Z.eqb_neq in Ex].
  - eexists; split; [|apply (Hat h1 c1); [done|done|intros Hlt; apply Hc1; lia]].
    rewrite Eo, En, Ex, !Z.add_0_r; done.
  - specialize (Hc1 ltac:(lia)); destruct (chain_in _ _ Hc1) as [[_ _ [Hd1 Hd2]] Hcr].
    rewrite (opened_bpc h1 Hop1); destruct (cache_cluster_ok h1 c1 Hop1) as (h2 & -> & Hop2 & Hp2 & Ebuf & _); [lia..|]; cbn [mbind option_bind Z.eqb negb].
    assert (take (Z.to_nat x) (cluster c1) = seg (Z.of_nat (i + k) * bpc) x) as Eseg.
    { replace (seg (Z.of_nat (i + k) * bpc) x) with (take (Z.to_nat x) (seg (Z.of_nat (i + k) * bpc) (Z.of_nat 1 * bpc))) by (unfold seg; rewrite take_take; f_equal; lia).
      rewrite seg_clusters, (drop_S _ _ _ Hc1); cbn [take map concat]; by rewrite app_nil_r. }
    rewrite Ebuf, Eseg, Burn.store_bytes_ok; [|apply seg_bytes|].
    + cbn [mbind option_bind]; rewrite (wrap_small 32), (wrap_small 64) by lia; eexists; split; [|by apply (Hat h2 c1)].
      do 3 f_equal; [lia| |by rewrite Eo]; rewrite En, seg_app, write_bytes_app by lia; f_equal; [|f_equal; lia].
      pose proof (seg_length (Z.of_nat i * bpc) (Z.of_nat k * bpc) ltac:(lia) ltac:(lia) ltac:(lia)); lia.
    + pose proof (seg_length (Z.of_nat (i + k) * bpc) x ltac:(lia) ltac:(lia) ltac:(lia)); eapply Burn.mapped_sub; [by apply mapped_write|lia|lia].
Qed.

Lemma seg_in i c x y : chain !! i = Some c -> 0 <= x -> 0 <= y -> x + y <= bpc ->
  seg (Z.of_nat i * bpc + x) y = take (Z.to_nat y) (drop (Z.to_nat x) (cluster c)).
Proof.
  intros Hi Hx Hy He; pose proof bpc_pos; replace (cluster c) with (seg (Z.of_nat i * bpc) (Z.of_nat 1 * bpc)).
  - unfold seg; rewrite skipn_firstn_comm, take_take, drop_drop; f_equal; [lia|f_equal; lia].
  - rewrite seg_clusters, (drop_S _ _ _ Hi); cbn [take map concat]; by rewrite app_nil_r.
Qed.

(** The cluster of the position is in [fat_buf], or is read to it. *)
Lemma cached_ok (h : @handle C) (i : nat) c : opened h -> chain !! i = Some c ->
  exists h1, (if negb (c =? fat_buf_cluster_index h) then cache_cluster h c bpc else Some (0, h)) = Some (0, h1) /\
    opened h1 /\ same_pos h h1 /\ fat_buf h1 = cluster c.
Proof.
  intros Hop Hi; destruct (chain_in _ _ Hi) as [[_ _ [Hd1 Hd2]] Hc]; destruct (c =? fat_buf_cluster_index h) eqn:E; cbn [negb].
  - apply Z.eqb_eq in E; exists h; split; [done|]; split; [done|]; split; [done|]; destruct Hop as [_ _ _ _ _ _ [_ [E0| ->]]]; [lia|by rewrite E].
  - destruct (cache_cluster_ok h c Hop) as (h1 & ? & ? & ? & ? & _); [lia..|]; by exists h1.
Qed.

(** Reading [n] bytes at offset [o].  The buffer has to be placed so that the
    sectors of the file meet sectors of memory, unless the bytes lie inside of
    a cluster. *)
Lemma fread_ok h m o n buffer : at_pos h o -> 0 < n -> o + n <= fsize -> mapped m buffer (Z.to_nat n) ->
  (buffer - o) mod 512 = 0 \/ 0 < o mod bpc /\ o mod bpc + n < bpc ->
  exists h', do_fat_fread h m buffer n = Some (n, write_bytes m buffer (seg o n), h') /\ at_pos h' (o + n).
Proof.
  intros [Hop [Ho Hor] Hs Hh Hc] Hn He Hm Hal; pose proof bpc_pos as [Hb Hb512]; pose proof (file_size Hfile) as [Hf32 _].
  pose proof (Z.div_mod o bpc ltac:(lia)) as Ed; pose proof (Z.mod_pos_bound o bpc ltac:(lia)) as Hx; pose proof (Z.div_pos o bpc ltac:(lia) ltac:(lia)) as Hq.
  set (x := o mod bpc) in *; set (i := Z.to_nat (o / bpc)) in *; assert (o = Z.of_nat i * bpc + x) as Eo by lia; specialize (Hc ltac:(lia)).
  unfold do_fat_fread; rewrite (opened_bpc h Hop), Hs, Ho, (wrap_small 64) by lia; rewrite (proj2 (Z.ltb_ge fsize _)), (proj2 (Z.eqb_neq bpc 0)) by lia; fold x.
  destruct (x =? 0) eqn:Ex; [apply Z.eqb_eq in Ex|apply Z.eqb_neq in Ex]; cbn [negb].
  - rewrite Eo, Ex, Z.add_0_r in *; destruct (read_clusters_ok h m i (curclust h) buffer 0 n) as (h' & E & Hat); try done; try lia; [|rewrite E; by exists h'].
    destruct Hal as [Hal|Hal]; [|lia]; assert (Z.of_nat i * bpc mod 512 = 0) as E0 by (rewrite Z.mul_mod, Hb512 by lia; by rewrite Z.mul_0_r).
    replace buffer with (buffer - Z.of_nat i * bpc + Z.of_nat i * bpc) by lia; rewrite Z.add_mod, Hal, E0 by lia; done.
  - destruct (cached_ok h i (curclust h) Hop Hc) as (h1 & -> & Hop1 & Hp1 & Ebuf); cbn [mbind option_bind Z.eqb negb]; rewrite Ebuf.
    assert (filesize h1 = fsize) as Hs1 by (destruct Hp1 as (_ & E & _); congruence).
    assert (0 < fsize -> chain !! 0%nat = Some (headclust h1)) as Hh1 by (destruct Hp1 as (_ & _ & _ & ->); done).
    destruct (n <? bpc - x) eqn:En; [apply Z.ltb_lt in En|apply Z.ltb_ge in En].
    + rewrite <- (seg_in i (curclust h) x n Hc), <- Eo, Burn.store_bytes_ok by (lia || apply seg_bytes || (eapply Burn.mapped_sub; [exact Hm|lia|pose proof (seg_length o n); lia])).
      cbn [mbind option_bind]; rewrite (wrap_small 32) by lia; eexists; split; [done|]; apply (pos_at h1 h1); try done; [lia|].
      intros _; replace (o + n) with (Z.of_nat i * bpc + (x + n)) by lia; by rewrite div_in_cluster, Nat2Z.id by lia.
    + rewrite <- (take_ge (drop (Z.to_nat x) _) (Z.to_nat (bpc - x))) by (rewrite length_drop; pose proof (cluster_length (curclust h)); lia).
      rewrite <- (seg_in i (curclust h) x (bpc - x) Hc), <- Eo, Burn.store_bytes_ok by (lia || apply seg_bytes || (eapply Burn.mapped_sub; [exact Hm|lia|pose proof (seg_length o (bpc - x)); lia])).
      cbn [mbind option_bind]; rewrite (wrap_small 32), (wrap_small 64) by lia; replace (o + (bpc - x)) with ((Z.of_nat i + 1) * bpc) by lia.
      destruct (next_ok h1 i (curclust h) Hop1 Hs1 Hc) as (c2 & h2 & -> & Hop2 & Hp2 & Hc2); [lia|]; cbn [mbind option_bind Z.eqb negb].
      replace ((Z.of_nat i + 1) * bpc) with (Z.of_nat (S i) * bpc) in * by lia.
      destruct (read_clusters_ok h2 (write_bytes m buffer (seg o (bpc - x))) (S i) c2 (buffer + (bpc - x)) (bpc - x) (n - (bpc - x))) as (h3 & E3 & Hat3); [done|..].
      * destruct Hp2 as (_ & E & _); congruence.
      * by destruct Hp2 as (_ & _ & _ & ->).
      * destruct Hal as [Hal|Hal]; [|lia]; replace (buffer + (bpc - x)) with (buffer - o + (Z.of_nat i + 1) * bpc) by lia.
        by rewrite Z.add_mod, Hal, (Z.mul_mod _ bpc), Hb512, Z.mul_0_r by lia.
      * by intros Hlt; apply Hc2.
      * lia.
      * lia.
      * lia.
      * lia.
      * eapply Burn.mapped_sub; [by apply mapped_write|lia|lia].
      * exists h3; rewrite E3; replace (bpc - x + (n - (bpc - x))) with n by lia; replace (o + n) with (Z.of_nat (S i) * bpc + (n - (bpc - x))) by lia; split; [|done].
        assert (seg o n = seg o (bpc - x) ++ seg (Z.of_nat (S i) * bpc) (n - (bpc - x))) as Es.
        { replace (Z.of_nat (S i) * bpc) with (o + (bpc - x)) by lia; rewrite <- seg_app by lia; f_equal; lia. }
        rewrite Es, write_bytes_app; by replace (Z.of_nat (length (seg o (bpc - x)))) with (bpc - x) by (rewrite seg_length; lia).
Qed.

Lemma bpc_mask o : 0 <= o -> Z.land o (u32 (bpc - 1)) = o mod bpc.
Proof.
  intros Ho; destruct (vol_clust Hv) as (k & Hk & E); pose proof bpc_pos; rewrite wrap_small by lia.
  unfold bpc; rewrite E; change 512 with (2 ^ 9); rewrite <- Z.pow_add_r by lia; rewrite <- Z.land_ones by lia; by rewrite Z.ones_equiv.
Qed.

Lemma seek_loop_ok fuel : forall h i c off, opened h -> filesize h = fsize -> (0 < fsize -> chain !! 0%nat = Some (headclust h)) ->
  (Z.of_nat i * bpc < fsize -> chain !! i = Some c) -> Z.of_nat i * bpc <= off <= fsize -> off / bpc - Z.of_nat i <= Z.of_nat fuel ->
  exists h', seek_loop fuel h off c (Z.of_nat i * bpc) = Some (0, h') /\ at_pos h' off.
Proof.
  pose proof bpc_pos as [Hb _]; pose proof (file_size Hfile) as [Hf32 _].
  induction fuel as [|fuel IH]; intros h i c off Hop Hs Hh Hi Ho Hf; cbn [seek_loop]; rewrite (opened_bpc h Hop), wrap_small by lia.
  all: destruct (off <? Z.of_nat i * bpc + bpc) eqn:E; [apply Z.ltb_lt in E|apply Z.ltb_ge in E].
  1,3: assert (off = Z.of_nat i * bpc + (off - Z.of_nat i * bpc)) as Eo by lia;
    assert (off / bpc = Z.of_nat i) as Ei by (rewrite Eo; apply div_in_cluster; lia);
    assert (off mod bpc = off - Z.of_nat i * bpc) as Em by (rewrite Z.mod_eq, Ei by lia; lia);
    assert (at_pos (set_pos off c h) off) as Hat by (apply (pos_at h h); try done; [lia|]; intros Hlt; rewrite Ei, Nat2Z.id; apply Hi; lia);
    change (bytesperclust (set_pos off c h)) with (bytesperclust h); change (fat_buf_cluster_index (set_pos off c h)) with (fat_buf_cluster_index h);
    rewrite (opened_bpc h Hop), bpc_mask by lia;
    destruct (negb (off mod bpc =? 0) && negb (c =? fat_buf_cluster_index h)) eqn:Eb; [|by eexists];
    apply andb_true_iff in Eb as [Eb _]; apply negb_true_iff, Z.eqb_neq in Eb;
    destruct (chain_in i c (Hi ltac:(lia))) as [[_ _ [Hd1 Hd2]] Hc]; destruct Hat as [Hop' Ho' Hs' Hh' Hc'];
    destruct (cache_cluster_ok (set_pos off c h) c Hop') as (h2 & -> & Hop2 & (E1 & E2 & E3 & E4) & _); [lia..|];
    cbn [mbind option_bind Z.eqb negb]; exists h2; split; [done|]; split; [done|by rewrite E1|by rewrite E2|by rewrite E4|by rewrite E3].
  - assert (Z.of_nat i + 1 <= off / bpc) by (apply Z.div_le_lower_bound; lia); lia.
  - specialize (Hi ltac:(lia)); destruct (entry_ok h i c Hop Hi) as (h1 & -> & Hop1 & (E1 & E2 & E3 & E4)); cbn [mbind option_bind].
    rewrite (opened_bpc h1 Hop1), wrap_small by lia; replace (Z.of_nat i * bpc + bpc) with (Z.of_nat (S i) * bpc) by lia.
    apply IH; [done|congruence|by rewrite E4| |lia|lia].
    intros Hlt; destruct (chain_next i c Hi) as (c' & Hi' & ->); [lia|done].
Qed.

Lemma fseek_ok h o off : at_pos h o -> 0 <= off <= fsize -> exists h', do_fat_fseek h off 0 = Some (0, h') /\ at_pos h' off.
Proof.
  intros [Hop [Ho Hor] Hs Hh Hc] Hoff; pose proof bpc_pos as [Hb _]; pose proof (file_size Hfile) as [Hf32 _].
  unfold do_fat_fseek; cbn [Z.eqb]; rewrite (opened_bpc h Hop), Hs, Ho, bpc_mask by lia; rewrite (proj2 (Z.ltb_ge fsize off)) by lia.
  assert (o - o mod bpc = Z.of_nat (Z.to_nat (o / bpc)) * bpc) as Ecur by (pose proof (Z.div_pos o bpc ltac:(lia) ltac:(lia)); rewrite Z.mod_eq by lia; lia).
  pose proof (Z.mod_pos_bound o bpc ltac:(lia)) as Hm.
  assert (seek_fuel h off = S (Z.to_nat (off / bpc))) as Ef by (unfold seek_fuel; by rewrite (opened_bpc h Hop)).
  pose proof (Z.div_pos off bpc ltac:(lia) ltac:(lia)) as Hq.
  destruct (off <? o) eqn:E1; [apply Z.ltb_lt in E1|apply Z.ltb_ge in E1].
  - rewrite Ef; apply (seek_loop_ok _ h 0 (headclust h) off); [done|done|done|intros _; apply Hh; lia|lia|lia].
  - rewrite wrap_small by lia; destruct (off <? o - o mod bpc + bpc) eqn:E2; [apply Z.ltb_lt in E2|apply Z.ltb_ge in E2].
    + eexists; split; [done|]; apply (pos_at h h); try done; intros Hlt; rewrite <- Hc by lia; do 2 f_equal.
      replace off with (Z.of_nat (Z.to_nat (o / bpc)) * bpc + (off - (o - o mod bpc))) by lia; rewrite div_in_cluster by lia; pose proof (Z.div_pos o bpc ltac:(lia) ltac:(lia)); lia.
    + rewrite Ecur, Ef; apply seek_loop_ok; [done|done|done|intros _; apply Hc; lia|lia|].
      pose proof (Z.div_pos o bpc ltac:(lia) ltac:(lia)); lia.
Qed.

(** ** Theorems *)

End volume.

(** ** A small volume *)

(** 64 sectors from sector 32 of a card, with a table of 16-bit entries in the
    second sector and clusters of one sector; a file of 1300 bytes in the
    clusters 2, 3 and 5. *)
Definition demo_vol : fsdata := mkFs (replicate 3072 0) 16 1 1 7 512 1 8 (-1).
Definition demo_table : bytes := concat (map (le 2) [0xfff8; 0xffff; 3; 5; 0; 0xffff]) ++ replicate 500 0.
Definition demo_card : card := mkCard 1000 (fun b => if b =? 33 then demo_table else replicate 512 b).
Definition demo_handle : handle := mkHandle demo_card 32 demo_vol (replicate 512 0) 0 0 1300 2 2.

Lemma demo_volume_ok : volume_ok 32 demo_vol 64.
Proof. split; cbn; [lia|done|exists 0; split; [lia|done]|lia|lia]. Qed.

Lemma demo_file_ok : file_ok demo_card 32 demo_vol 64 [2; 3; 5] 1300.
Proof.
  split; [repeat (apply Forall_cons; split; [split; [reflexivity|vm_compute; discriminate|cbn; lia]|]); by apply Forall_nil| |vm_compute; by repeat split].
  intros [|[|[|i]]] c c' H1 H2; try discriminate; injection H1 as <-; injection H2 as <-; vm_compute; reflexivity.
Qed.

Lemma demo_opened : opened demo_card 32 demo_vol 64 demo_handle.
Proof. split; cbn; try done; [split; [reflexivity|by left]|split; [reflexivity|by left]]. Qed.

Lemma demo_at_start : at_pos demo_card 32 demo_vol 64 [2; 3; 5] 1300 demo_handle 0.
Proof. split; [exact demo_opened|cbn; lia|done|done|done]. Qed.

Definition demo_ram : mem := write_bytes ∅ 1000 (replicate 1024 0).


(** ** What goes wrong *)

(** A card that fails returns 0 blocks, and only a negative result is taken as
    a failure: the read claims to have delivered its bytes. *)
Theorem read_failure_unnoticed :
  let h := mkHandle (mkCard 0 (fun _ => [])) 32 demo_vol (replicate 512 0) 0 0 512 2 2 in
  option_map (fun r => fst (fst r)) (do_fat_fread h demo_ram 1024 512) = Some 512 /\
  option_map (fun r => snd (fst r)) (do_fat_fread h demo_ram 1024 512) = Some demo_ram.
Proof. split; vm_compute; reflexivity. Qed.

(** A read that reaches the end of a cluster fails unless the address of the
    buffer meets a sector there. *)
Theorem unaligned_read_fails :
  option_map (fun r => fst (fst r)) (do_fat_fread demo_handle demo_ram 1001 48) = Some 0 /\
  option_map (fun r => fst (fst r)) (do_fat_fread (set_pos 500 2 demo_handle) demo_ram 1001 48) = Some 0 /\
  option_map (fun r => fst (fst r)) (do_fat_fread (set_pos 400 2 demo_handle) demo_ram 1001 48) = Some 48.
Proof. repeat split; vm_compute; reflexivity. Qed.

End Fat.
