(* ===== verification/FatDir.v ===== *)
(** * Opening files of a FAT card by their name
    (drivers/usb/gadget/v2_burning/v2_common/optimus_fat.c, include/fat.h)

    [do_fat_fopen] takes one of two descriptors, reads the boot sector, searches
    the root directory sector by sector for the first part of the path, in its
    short or its long form, and the further parts in the directories found
    ([get_dentfromdir]).  The result is a handle of Fat.v at the start of the
    file.

    A record [fat C] holds the card and the static variables: the table of
    descriptors and the three buffers for directories, which keep their contents
    from one call to the next.  The allocator is a parameter [alloc], with an
    unknown content for a new block.  The search of the root directory ends only
    at an entry that matches or at the end mark, so that it has fuel; the
    theorems give an amount that is enough.  Listing directories ([dols]) is
    left out, as nobody asks for it, and so is output. *)

From S2P Require Import Prelude Ctype CString CArray BlockDev Burn Fat.

Module FatDir.
Import CString CArray BlockDev Fat.

Definition MAX_CLUSTSIZE : Z := 65536.
Definition OPTIMUS_FD_MAGIC : Z := 0xEFE80025.
Definition ATTR_VOLUME : Z := 8.
Definition ATTR_DIR : Z := 16.
Definition ATTR_VFAT : Z := 15.
Definition DELETED_FLAG : Z := 0xe5.
Definition aRING : Z := 0x05.
Definition LAST_LONG_ENTRY_MASK : Z := 0x40.
Definition FAT12_SIGN : bytes := str "FAT12   ".
Definition FAT16_SIGN : bytes := str "FAT16   ".
Definition FAT32_SIGN : bytes := str "FAT32   ".

Definition ISDIRDELIM (c : Z) : bool := (c =? 47) || (c =? 92).

Definition DIRENTSPERBLOCK (mydata : fsdata) : Z := sect_size mydata / 32.
Definition DIRENTSPERCLUST (mydata : fsdata) : Z := clust_size mydata * sect_size mydata / 32.

Definition downcase (s : bytes) : bytes := map Ctype.tolower s.

(** The index of the first delimiter, or -1. *)
Fixpoint dirdelim (s : bytes) : Z :=
  match s with
  | [] => -1
  | c :: s' => if ISDIRDELIM c then 0 else let i := dirdelim s' in if i <? 0 then -1 else i + 1
  end.

Fixpoint skip_delims (s : bytes) : bytes :=
  match s with [] => [] | c :: s' => if ISDIRDELIM c then skip_delims s' else s end.

(** ** Directory entries *)

(** Entry [i] of a buffer, 32 bytes; its fields as a [dir_entry] and as a
    [dir_slot]. *)
Definition dent (block : bytes) (i : Z) : option bytes :=
  if (0 <=? i) && (32 * (i + 1) <=? Z.of_nat (length block)) then Some (take 32 (drop (Z.to_nat (32 * i)) block)) else None.

Definition num (d : bytes) (off n : nat) : Z := le_val (take n (drop off d)).
Definition id (d : bytes) : Z := num d 0 1.
Definition attr (d : bytes) : Z := num d 11 1.
Definition starthi (d : bytes) : Z := num d 20 2.
Definition start (d : bytes) : Z := num d 26 2.
Definition size (d : bytes) : Z := num d 28 4.

Definition START (mydata : fsdata) (d : bytes) : Z :=
  u32 (start d + if negb (fatsize mydata =? 32) then 0 else Z.shiftl (starthi d) 16).

(** The text before the first NUL or blank. *)
Fixpoint upto (l : bytes) : bytes :=
  match l with [] => [] | c :: l' => if (c =? 0) || (c =? 32) then [] else c :: upto l' end.

(** The first character of a name: nothing for a deleted entry; 0x05 stands
    for 0xe5. *)
Definition first_char (s : bytes) : bytes :=
  match s with
  | [] => []
  | c :: t => if c =? DELETED_FLAG then [] else if c =? aRING then DELETED_FLAG :: t else s
  end.

Definition get_name (dirent : bytes) : bytes :=
  let base := upto (take 8 dirent) in
  let ext0 := num dirent 8 1 in
  let s_name := if negb (ext0 =? 0) && negb (ext0 =? 32) then base ++ [46] ++ upto (take 3 (drop 8 dirent)) else base in
  downcase (first_char s_name).

(** The 13 characters of a slot. *)
Definition slot_chars (slot : bytes) : bytes :=
  map (fun off => num slot off 1) [1; 3; 5; 7; 9; 14; 16; 18; 20; 22; 24; 28; 30]%nat.

(** Appending characters to [l_name], which has room for 256; whether a NUL was
    found. *)
Fixpoint put_chars (chars l_name : bytes) : option (bool * bytes) :=
  match chars with
  | [] => Some (false, l_name)
  | c :: chars' =>
      if (256 <=? length l_name)%nat then None
      else if c =? 0 then Some (true, l_name) else put_chars chars' (l_name ++ [c])
  end.

Definition slot2str (slot l_name : bytes) : option (bool * bytes) := put_chars (slot_chars slot) l_name.

(** ** Long names *)

(** The first loop of [get_vfatname]: the index behind the slots, or nothing
    when their numbers do not count down. *)
Fixpoint count_slots (counter : nat) (block : bytes) (nextclust i : Z) : option (option Z) :=
  match counter with
  | O => Some (Some i)
  | S counter' =>
      if 32 * i <? nextclust then
        slot ← dent block i;
        if negb (Z.land (id slot) 0xbf =? Z.of_nat counter) then Some None else count_slots counter' block nextclust (i + 1)
      else Some (Some i)
  end.

(** The slot with number 1 in the next cluster. *)
Fixpoint first_slot (fuel : nat) (block : bytes) (k : nat) : option nat :=
  match fuel with
  | O => None
  | S fuel' => slot ← dent block (Z.of_nat k); if 0x01 <? id slot then first_slot fuel' block (S k) else Some k
  end.

(** The slots before [k], from the last one down to the first. *)
Fixpoint slots_down (k : nat) (block l_name : bytes) : option bytes :=
  match k with
  | O => Some l_name
  | S k' => slot ← dent block (Z.of_nat k'); '(_, l_name) ← slot2str slot l_name; slots_down k' block l_name
  end.

(** The last loop: the slots before [i] down to the one with the mark. *)
Fixpoint name_loop (i : nat) (block l_name : bytes) : option bytes :=
  match i with
  | O => None
  | S i' =>
      slot ← dent block (Z.of_nat i');
      '(e, l_name) ← slot2str slot l_name;
      if (e : bool) || negb (Z.land (id slot) LAST_LONG_ENTRY_MASK =? 0) then Some l_name else name_loop i' block l_name
  end.

Section code.
Context {C : Type} `{BlockDev C}.
#[local] Abbreviation handle := (@handle C).

(** What [get_vfatname] knows behind its first part: the directory entry, the
    characters so far and the slot to go on before. *)
Inductive slots :=
  | NoSlots (r : Z)
  | Slots (realdent l_name : bytes) (slotptr : Z).

Definition next_slots (h : handle) (clust : Z) (vblock : bytes) (nextclust j : Z) : option (slots * bytes * handle) :=
  '(c, h) ← get_fatent h (u32 clust);
  if CHECK_CLUST (s32 c) (fatsize (datablock h)) then Some (NoSlots (-1), vblock, h)
  else
    let '(r, l, h) := get_cluster h c nextclust in
    vblock ← put_all vblock l;
    if negb (r =? 0) then Some (NoSlots (-1), vblock, h)
    else
      k ← first_slot (S (length vblock)) vblock 0;
      realdent ← dent vblock (Z.of_nat k + 1);
      l_name ← slots_down (S k) vblock [];
      Some (Slots realdent l_name (j - 1), vblock, h).

(** The return value, [l_name], which the caller has set to the empty text, the
    buffer with the entry, [get_vfatname_block] and the handle. *)
Definition get_vfatname (h : handle) (clust : Z) (block vblock : bytes) (i : Z) : option (Z * bytes * bytes * bytes * handle) :=
  let nextclust := clust_size (datablock h) * SECTOR_SIZE in
  retdent ← dent block i;
  r ← count_slots (Z.to_nat (Z.land (id retdent) 0xbf)) block nextclust i;
  match r with
  | None => Some (-1, [], block, vblock, h)
  | Some j =>
      '(s, vblock, h) ← (if nextclust <=? 32 * j then next_slots h clust vblock nextclust j
                        else realdent ← dent block j; Some (Slots realdent [] j, vblock, h));
      match s with
      | NoSlots r => Some (r, [], block, vblock, h)
      | Slots realdent l_name slotptr =>
          l_name ← name_loop (Z.to_nat slotptr) block l_name;
          if (256 <=? length l_name)%nat then None
          else
            block ← put_buf block (32 * i) realdent;
            Some (0, downcase (first_char l_name), block, vblock, h)
      end
  end.

(** ** Searching a directory *)

(** How the search of a buffer ends: the function returns with an entry or
    without, or nothing was found. *)
Inductive scan :=
  | Found (d : bytes)
  | Failed
  | GoOn.

(** The loop over [n] entries of a cluster, from entry [i]. *)
Fixpoint dir_entries (n : nat) (h : handle) (clust : Z) (block vblock : bytes) (i : Z) (filename : bytes) : option (scan * bytes * bytes * handle) :=
  match n with
  | O => Some (GoOn, block, vblock, h)
  | S n' =>
      d ← dent block i;
      if id d =? DELETED_FLAG then dir_entries n' h clust block vblock (i + 1) filename
      else if negb (Z.land (attr d) ATTR_VOLUME =? 0) && negb (negb (Z.land (attr d) ATTR_VFAT =? 0) && negb (Z.land (id d) LAST_LONG_ENTRY_MASK =? 0))
      then dir_entries n' h clust block vblock (i + 1) filename
      else
        '(l_name, block, vblock, h) ← (if negb (Z.land (attr d) ATTR_VOLUME =? 0)
                                     then '(_, l_name, block, vblock, h) ← get_vfatname h clust block vblock i; Some (l_name, block, vblock, h)
                                     else Some ([], block, vblock, h));
        d ← dent block i;
        if id d =? 0 then Some (Failed, block, vblock, h)
        else if negb (strcmp_str filename (get_name d) =? 0) && negb (strcmp_str filename l_name =? 0)
        then dir_entries n' h clust block vblock (i + 1) filename
        else Some (Found d, block, vblock, h)
  end.

(** The loop over the clusters of a directory. *)
Fixpoint dir_clusters (fuel : nat) (h : handle) (clust : Z) (block vblock : bytes) (filename : bytes) : option (option bytes * bytes * bytes * handle) :=
  match fuel with
  | O => None
  | S fuel' =>
      let '(r, l, h) := get_cluster h clust (clust_size (datablock h) * SECTOR_SIZE) in
      block ← put_all block l;
      if negb (r =? 0) then Some (None, block, vblock, h)
      else
        '(s, block, vblock, h) ← dir_entries (Z.to_nat (DIRENTSPERCLUST (datablock h))) h clust block vblock 0 filename;
        match s with
        | Found d => Some (Some d, block, vblock, h)
        | Failed => Some (None, block, vblock, h)
        | GoOn =>
            '(c, h) ← get_fatent h clust;
            if CHECK_CLUST c (fatsize (datablock h)) then Some (None, block, vblock, h) else dir_clusters fuel' h c block vblock filename
        end
  end.

Definition get_dentfromdir (fuel : nat) (h : handle) (block vblock filename retdent : bytes) : option (option bytes * bytes * bytes * handle) :=
  dir_clusters fuel h (START (datablock h) retdent) block vblock filename.

(** The loop over [n] entries of a sector of the root directory. *)
Fixpoint root_entries (n : nat) (h : handle) (block vblock : bytes) (i : Z) (fnamecopy : bytes) (isdir : bool) : option (scan * bytes * bytes * handle) :=
  match n with
  | O => Some (GoOn, block, vblock, h)
  | S n' =>
      d ← dent block i;
      if negb (Z.land (attr d) ATTR_VOLUME =? 0) && negb ((Z.land (attr d) ATTR_VFAT =? ATTR_VFAT) && negb (Z.land (id d) LAST_LONG_ENTRY_MASK =? 0))
      then root_entries n' h block vblock (i + 1) fnamecopy isdir
      else if (Z.land (attr d) ATTR_VOLUME =? 0) && (id d =? 0) then Some (Failed, block, vblock, h)
      else
        '(l_name, block, vblock, h) ← (if negb (Z.land (attr d) ATTR_VOLUME =? 0)
                                     then '(_, l_name, block, vblock, h) ← get_vfatname h 0 block vblock i; Some (l_name, block, vblock, h)
                                     else Some ([], block, vblock, h));
        d ← dent block i;
        if negb (strcmp_str fnamecopy (get_name d) =? 0) && negb (strcmp_str fnamecopy l_name =? 0)
        then root_entries n' h block vblock (i + 1) fnamecopy isdir
        else if isdir && (Z.land (attr d) ATTR_DIR =? 0) then Some (Failed, block, vblock, h)
        else Some (Found d, block, vblock, h)
  end.

(** The loop over the sectors of the root directory. *)
Fixpoint root_loop (fuel : nat) (h : handle) (cursect : Z) (block vblock fnamecopy : bytes) (isdir : bool) : option (option bytes * bytes * bytes * handle) :=
  match fuel with
  | O => None
  | S fuel' =>
      let '(r, data, h) := v2_ext_mmc_read h (u32 cursect) (clust_size (datablock h)) in
      block ← put_buf block 0 data;
      if r <? 0 then Some (None, block, vblock, h)
      else
        '(s, block, vblock, h) ← root_entries (Z.to_nat (DIRENTSPERBLOCK (datablock h))) h block vblock 0 fnamecopy isdir;
        match s with
        | Found d => Some (Some d, block, vblock, h)
        | Failed => Some (None, block, vblock, h)
        | GoOn => root_loop fuel' h (cursect + 1) block vblock fnamecopy isdir
        end
  end.

(** The loop over the further parts of the path. *)
Fixpoint walk (n fuel : nat) (h : handle) (block vblock d subname : bytes) : option (option bytes * bytes * bytes * handle) :=
  match n with
  | O => None
  | S n' =>
      let idx := dirdelim subname in
      let name := if 0 <=? idx then take (Z.to_nat idx) subname else subname in
      '(r, block, vblock, h) ← get_dentfromdir fuel h block vblock name d;
      match r with
      | None => Some (None, block, vblock, h)
      | Some d =>
          if 0 <=? idx then
            if Z.land (attr d) ATTR_DIR =? 0 then Some (None, block, vblock, h)
            else walk n' fuel h block vblock d (skip_delims (drop (Z.to_nat idx + 1) subname))
          else Some (Some d, block, vblock, h)
      end
  end.

(** ** The volume *)

(** Fields of the boot sector. *)
Definition sector_size (bs : bytes) : Z := num bs 11 2.
Definition cluster_size (bs : bytes) : Z := num bs 13 1.
Definition reserved (bs : bytes) : Z := num bs 14 2.
Definition fats (bs : bytes) : Z := num bs 16 1.
Definition num_dir_entries (bs : bytes) : Z := num bs 17 2.
Definition fat_length (bs : bytes) : Z := num bs 22 2.
Definition fat32_length (bs : bytes) : Z := num bs 36 4.

Definition compare_sign (sign : bytes) (block : bytes) (fs_type : nat) : bool := bool_decide (take 8 (drop fs_type block) = sign).

(** The return value, the boot sector and the width of the table.  The array
    [block] is not initialised when nothing is read. *)
Definition read_bootsectandvi (h : handle) : option (Z * bytes * Z * handle) :=
  let '(r, block, h) := disk_read h 0 1 in
  if r <? 0 then Some (-1, [], fatsize (datablock h), h)
  else if (length block <? 512)%nat then None
  else if fat_length block =? 0 then
    Some (if compare_sign FAT32_SIGN block 82 then 0 else -1, block, 32, h)
  else if compare_sign FAT12_SIGN block 54 then Some (0, block, 12, h)
  else if compare_sign FAT16_SIGN block 54 then Some (0, block, 16, h)
  else Some (-1, block, 0, h).

(** [mydata] from the boot sector, without [fatbuf]. *)
Definition volume (bs : bytes) (bits : Z) : fsdata :=
  let fatlength := if bits =? 32 then fat32_length bs else fat_length bs in
  let rootdir_sect := u32 (reserved bs + fatlength * fats bs) in
  let rootdir_size := if bits =? 32 then 0 else num_dir_entries bs * 32 / SECTOR_SIZE in
  mkFs [] bits fatlength (reserved bs) rootdir_sect (sector_size bs) (cluster_size bs) (s32 (rootdir_sect + rootdir_size - cluster_size bs * 2)) (-1).

(** ** Opening and closing *)

Context (alloc : Z -> option bytes).

(** The card and the static variables. *)
Record fat := mkFat {
  fat_card : C;
  fat_part : Z;
  _fd : list Z;
  _do_fat_read_block : bytes;
  get_dentfromdir_block : bytes;
  get_vfatname_block : bytes }.

Definition set_fds (fds : list Z) (f : fat) : fat := mkFat (fat_card f) (fat_part f) fds (_do_fat_read_block f) (get_dentfromdir_block f) (get_vfatname_block f).

Fixpoint free_fd (fds : list Z) (index : Z) : Z :=
  match fds with [] => -1 | x :: fds' => if negb (OPTIMUS_FD_MAGIC =? x) then index else free_fd fds' (index + 1) end.

Definition get_fd (f : fat) : Z * fat :=
  let fd := free_fd (_fd f) 0 in
  (fd, if 0 <=? fd then set_fds (<[Z.to_nat fd := OPTIMUS_FD_MAGIC]> (_fd f)) f else f).

Definition put_fd (fd : Z) (f : fat) : fat := if 0 <=? fd then set_fds (<[Z.to_nat fd := 0]> (_fd f)) f else f.

(** A slot of [fs_info] and [files] for a volume, before a file is found. *)
Definition slot_for (f : fat) (fs : fsdata) : handle := mkHandle (fat_card f) (fat_part f) fs [] 0 0 0 0 0.

(** The variables as the search leaves them. *)
Definition searched (f : fat) (h : handle) (rblock dblock vblock : bytes) : fat := mkFat (cur_dev h) (fat_part f) (_fd f) rblock dblock vblock.

(** The card as a handle leaves it. *)
Definition with_card (h : handle) (f : fat) : fat := mkFat (cur_dev h) (fat_part f) (_fd f) (_do_fat_read_block f) (get_dentfromdir_block f) (get_vfatname_block f).

(** Filling the slot of a file. *)
Definition file_slot (h : handle) (d fat_buf : bytes) : handle :=
  let clust := START (datablock h) d in
  mkHandle (cur_dev h) (part_offset h) (datablock h) fat_buf 0 0 (size d) clust clust.

(** From the path to the entry of the file. *)
Definition find_file (fuel : nat) (f : fat) (h : handle) (fnamecopy : bytes) : option (option bytes * fat * handle) :=
  let idx := dirdelim fnamecopy in
  let isdir := 0 <=? idx in
  let rootname := if isdir then take (Z.to_nat idx) fnamecopy else fnamecopy in
  let subname := if isdir then skip_delims (drop (Z.to_nat idx + 1) fnamecopy) else [] in
  '(r, rblock, vblock, h) ← root_loop fuel h (rootdir_sect (datablock h)) (_do_fat_read_block f) (get_vfatname_block f) rootname isdir;
  match r with
  | None => Some (None, searched f h rblock (get_dentfromdir_block f) vblock, h)
  | Some d =>
      if isdir then
        '(r, dblock, vblock, h) ← walk (S (length subname)) fuel h (get_dentfromdir_block f) vblock d subname;
        Some (r, searched f h rblock dblock vblock, h)
      else Some (Some d, searched f h rblock (get_dentfromdir_block f) vblock, h)
  end.

(** The descriptor with its slot, or nothing for the return value -1. *)
Definition do_fat_fopen (fuel : nat) (f : fat) (filename : bytes) : option (option (Z * handle) * fat) :=
  let '(fd, f) := get_fd f in
  if fd <? 0 then Some (None, f)
  else
    '(r, bs, bits, h) ← read_bootsectandvi (slot_for f (mkFs [] 0 0 0 0 0 0 0 (-1)));
    let f := with_card h f in
    if negb (r =? 0) then Some (None, put_fd fd f)
    else
      let fs := volume bs bits in
      match alloc (FATBUFSIZE fs) with
      | None => Some (None, put_fd fd f)
      | Some buf =>
          let h := set_fatbuf buf (-1) (slot_for f fs) in
          let name := skip_delims filename in
          if (2048 <=? length name)%nat then None
          else
            let fnamecopy := downcase name in
            if bool_decide (fnamecopy = []) then Some (None, put_fd fd f)
            else
              '(r, f, h) ← find_file fuel f h fnamecopy;
              match r with
              | None => Some (None, put_fd fd f)
              | Some d =>
                  match alloc (bytesperclust h) with
                  | None => Some (None, put_fd fd f)
                  | Some fat_buf => Some (Some (fd, file_slot h d fat_buf), f)
                  end
              end
      end.

(** Closing a file of the card in [h].  The slots are cleared before the
    buffers are looked for. *)
Definition do_fat_fclose (fd : Z) (h : handle) (f : fat) : fat :=
  put_fd fd (with_card h f).
End code.

(** ** Specification *)

(** The text of slots: their characters, up to the first NUL. *)
Fixpoint upto_nul (l : bytes) : bytes := match l with [] => [] | c :: l' => if c =? 0 then [] else c :: upto_nul l' end.

Section root.
Context {C : Type} `{HS : BlockDevSpec C 512} `{HN : !BlockCount C}.
Context (d0 : C) (P : Z) (vol : fsdata) (nsect : Z) (Hv : volume_ok P vol nsect).

#[local] Abbreviation lim := (bpc vol).

(** Entry [i] of the root directory on the card. *)
Definition ent (i : Z) : bytes := take 32 (drop (Z.to_nat (32 * (i mod 16))) (block d0 (P + (rootdir_sect vol + i / 16)))).

Definition is_volume (d : bytes) : bool := negb (Z.land (attr d) ATTR_VOLUME =? 0).
Definition is_long (d : bytes) : bool := (Z.land (attr d) ATTR_VFAT =? ATTR_VFAT) && negb (Z.land (id d) LAST_LONG_ENTRY_MASK =? 0).
Definition number (d : bytes) : Z := Z.land (id d) 0xbf.

(** [k] slots from entry [i] on whose numbers count down from that of the
    first. *)
Definition counts (i k : Z) : Prop := forall t, 0 <= t < k -> number (ent (i + t)) = number (ent i) - t.

(** The characters of the [n] slots before entry [j], in the order of the
    name. *)
Fixpoint chars_before (n : nat) (j : Z) : bytes :=
  match n with O => [] | S n' => slot_chars (ent (j - 1)) ++ chars_before n' (j - 1) end.

(** What entry [i] is to the search: the names it is found under, and the
    directory entry they name.  A long name counts when its slots are those of
    one name, and when they are together in what one read delivers; slots that
    do not count down, which are left over from deleted files, are taken for a
    short name. *)
Inductive shown (i : Z) : list bytes -> bytes -> Prop :=
  | shown_label : is_volume (ent i) = true -> is_long (ent i) = false -> shown i [] (ent i)
  | shown_short : is_volume (ent i) = false -> id (ent i) <> 0 -> shown i [get_name (ent i)] (ent i)
  | shown_long n l : is_volume (ent i) = true -> is_long (ent i) = true -> n = number (ent i) -> 0 < n -> counts i n ->
      (forall t, 0 < t < n -> Z.land (id (ent (i + t))) LAST_LONG_ENTRY_MASK = 0) ->
      32 * (i mod 16 + n) < lim -> l = upto_nul (chars_before (Z.to_nat n) (i + n)) -> (length l <= 255)%nat ->
      shown i [get_name (ent (i + n)); downcase (first_char l)] (ent (i + n))
  | shown_broken k : is_volume (ent i) = true -> is_long (ent i) = true -> 0 < k < number (ent i) -> counts i k ->
      number (ent (i + k)) <> number (ent i) - k -> 32 * (i mod 16 + k) < lim -> shown i [get_name (ent i)] (ent i).

Definition ends (i : Z) : Prop := is_volume (ent i) = false /\ id (ent i) = 0.

(** Searching for a name among the entries from [i] on: the first entry that
    has it, or the end of the directory. *)
Inductive search (name : bytes) : Z -> option bytes -> Z -> Prop :=
  | search_found i names d : shown i names d -> name ∈ names -> search name i (Some d) i
  | search_end i : ends i -> search name i None i
  | search_next i names d r k : shown i names d -> name ∉ names -> search name (i + 1) r k -> search name i r k.

(** *** Entries in the buffer *)

#[local] Ltac in_bounds := apply andb_true_intro; split; apply Z.leb_le; lia.

Lemma byte_num d off : Forall byte_ok d -> byte_ok (num d off 1).
Proof.
  intros Fd; unfold num; apply (Forall_drop _ off) in Fd; destruct (drop off d) as [|c l]; [cbn; unfold byte_ok; lia|].
  apply Forall_cons in Fd as [Hc _]; cbn [take le_val]; by rewrite Z.mul_0_r, Z.add_0_r.
Qed.

Lemma ent_bytes i : Forall byte_ok (ent i).
Proof. apply Forall_take, Forall_drop, block_bytes. Qed.

Lemma lim_pos : 512 <= lim <= 65536 /\ lim = 512 * clust_size vol.
Proof. pose proof (bpc_pos P vol nsect Hv) as [? _]; split; [done|unfold bpc; lia]. Qed.

(** The buffer holds the entries of sector [s] of the directory, and those of
    the sectors that one read delivers with it, from entry [i] on. *)
Definition holds (blk : bytes) (s i : Z) : Prop :=
  forall j, i <= j -> 32 * (j + 1) <= lim -> dent blk j = Some (ent (16 * s + j)).

Lemma dent_run n s j : 0 <= j -> 32 * (j + 1) <= 512 * Z.of_nat n -> dent (run block d0 s n) j =
  Some (take 32 (drop (Z.to_nat (32 * (j mod 16))) (block d0 (s + j / 16)))).
Proof.
  revert s j; induction n as [|n IH]; intros s j Hj Hn; [lia|]; unfold dent in *; rewrite run_length in *.
  replace (_ && _) with true by (symmetry; in_bounds); f_equal; cbn [run].
  assert (length (block d0 s) = 512%nat) as Hl by (pose proof (block_length d0 s); lia).
  destruct (decide (j < 16)) as [Hlt|Hge].
  - rewrite Z.mod_small, Z.div_small, Z.add_0_r, drop_app_le, take_app_le by (rewrite ?length_drop; lia); done.
  - specialize (IH (s + 1) (j - 16) ltac:(lia) ltac:(lia)); rewrite run_length in IH; replace (_ && _) with true in IH by (symmetry; in_bounds); injection IH as IH.
    rewrite drop_app_ge by lia; replace (Z.to_nat (32 * j) - length (block d0 s))%nat with (Z.to_nat (32 * (j - 16))) by lia; rewrite IH.
    replace ((j - 16) mod 16) with (j mod 16) by (Z.div_mod_to_equations; lia); do 3 f_equal; (Z.div_mod_to_equations; lia).
Qed.

Lemma dent_app l1 l2 j : 32 * (j + 1) <= Z.of_nat (length l1) -> dent (l1 ++ l2) j = dent l1 j.
Proof.
  intros Hl; unfold dent; rewrite length_app; destruct (decide (0 <= j)) as [Hj|Hj]; [|by rewrite (proj2 (Z.leb_gt 0 j)) by lia].
  rewrite (proj2 (Z.leb_le 0 j)), !(proj2 (Z.leb_le _ _)) by lia; cbn [andb]; f_equal.
  rewrite drop_app_le, take_app_le by (rewrite ?length_drop; lia); done.
Qed.

(** A read of the directory fills the buffer. *)
Lemma read_holds blk s : 0 <= s -> Z.of_nat (length blk) = MAX_CLUSTSIZE ->
  exists blk', put_buf blk 0 (run block d0 (P + (rootdir_sect vol + s)) (Z.to_nat (clust_size vol))) = Some blk' /\
    length blk' = length blk /\ holds blk' s 0.
Proof.
  pose proof lim_pos as [Hlim Hc]; unfold MAX_CLUSTSIZE; intros Hs Hl; unfold put_buf.
  assert (Z.of_nat (length (run block d0 (P + (rootdir_sect vol + s)) (Z.to_nat (clust_size vol)))) = lim) as Hrl by (rewrite run_length; lia).
  replace (_ && _) with true by (symmetry; in_bounds); eexists; split; [reflexivity|]; split; [rewrite !length_app, length_take, length_drop; lia|].
  intros j Hj Hjl; change (Z.to_nat 0) with 0%nat; rewrite take_0; cbn [app]; rewrite dent_app, dent_run by lia; unfold ent; do 2 f_equal.
  - replace ((16 * s + j) mod 16) with (j mod 16) by (Z.div_mod_to_equations; lia).
    replace ((16 * s + j) / 16) with (s + j / 16) by (Z.div_mod_to_equations; lia); do 2 f_equal; lia.
Qed.

(** Replacing an entry. *)
Lemma put_entry blk i d : 0 <= i -> 32 * (i + 1) <= Z.of_nat (length blk) -> length d = 32%nat ->
  exists blk', put_buf blk (32 * i) d = Some blk' /\ length blk' = length blk /\ dent blk' i = Some d /\
    (forall j, i < j -> dent blk' j = dent blk j).
Proof.
  intros Hi Hl Hd; unfold put_buf; rewrite Hd; replace (_ && _) with true by (symmetry; in_bounds); eexists; split; [reflexivity|].
  assert (forall l1 l2 : bytes, length l1 = Z.to_nat (32 * i) -> length (l1 ++ d ++ l2) = length blk -> dent (l1 ++ d ++ l2) i = Some d) as Hself.
  { intros l1 l2 H1 H2; unfold dent; rewrite H2; replace (_ && _) with true by (symmetry; in_bounds); f_equal; rewrite <- H1, drop_app_length, <- Hd; apply take_app_length. }
  assert (length (take (Z.to_nat (32 * i)) blk ++ d ++ drop (Z.to_nat (32 * i) + 32) blk) = length blk) as Hlen by (rewrite !length_app, length_take, length_drop; lia).
  split; [done|]; split; [apply Hself; [rewrite length_take; lia|done]|].
  intros j Hj; unfold dent; rewrite Hlen; destruct (_ && _); [|done]; f_equal; rewrite app_assoc, drop_app_ge by (rewrite length_app, length_take; lia).
  rewrite length_app, length_take, drop_drop; do 2 f_equal; lia.
Qed.

Lemma ent_length i : length (ent i) = 32%nat.
Proof.
  unfold ent; rewrite length_take, length_drop; pose proof (block_length d0 (P + (rootdir_sect vol + i / 16))); pose proof (Z.mod_pos_bound i 16 ltac:(lia)); lia.
Qed.

(** *** Long names *)

Lemma count_ok blk s i0 n : forall i, holds blk s i0 -> i0 <= i ->
  (forall t, 0 <= t < Z.of_nat n -> number (ent (16 * s + i + t)) = Z.of_nat n - t) -> 32 * (i + Z.of_nat n) <= lim ->
  count_slots n blk lim i = Some (Some (i + Z.of_nat n)).
Proof.
  induction n as [|n IH]; intros i Hh Hi Hn Hlim; [by rewrite Z.add_0_r|]; cbn [count_slots].
  rewrite (proj2 (Z.ltb_lt _ _)) by lia; rewrite Hh by lia; cbn [mbind option_bind]; fold (number (ent (16 * s + i))).
  pose proof (Hn 0 ltac:(lia)) as H0; rewrite Z.add_0_r in H0; rewrite H0, Z.sub_0_r, Z.eqb_refl; cbn [negb].
  rewrite IH; [do 2 f_equal; lia|done|lia| |lia]; intros t Ht; replace (16 * s + (i + 1) + t) with (16 * s + i + (t + 1)) by lia; rewrite Hn; lia.
Qed.

Lemma count_broken blk s i0 n : forall k i, holds blk s i0 -> i0 <= i -> 0 <= k < Z.of_nat n ->
  (forall t, 0 <= t < k -> number (ent (16 * s + i + t)) = Z.of_nat n - t) -> number (ent (16 * s + i + k)) <> Z.of_nat n - k ->
  32 * (i + k) < lim -> count_slots n blk lim i = Some None.
Proof.
  pose proof lim_pos as [_ Hc]; induction n as [|n IH]; intros k i Hh Hi Hk Hn Hne Hlim; [lia|]; cbn [count_slots].
  rewrite (proj2 (Z.ltb_lt _ _)) by lia; rewrite Hh by lia; cbn [mbind option_bind]; fold (number (ent (16 * s + i))).
  destruct (decide (k = 0)) as [->|Hk0].
  - rewrite Z.add_0_r, Z.sub_0_r in Hne; by rewrite (proj2 (Z.eqb_neq _ _)).
  - pose proof (Hn 0 ltac:(lia)) as H0; rewrite Z.add_0_r in H0; rewrite H0, Z.sub_0_r, Z.eqb_refl; cbn [negb].
    apply (IH (k - 1)); [done|lia|lia| | |lia].
    + intros t Ht; replace (16 * s + (i + 1) + t) with (16 * s + i + (t + 1)) by lia; rewrite Hn; lia.
    + replace (16 * s + (i + 1) + (k - 1)) with (16 * s + i + k) by lia; lia.
Qed.

Definition has_nul (l : bytes) : bool := existsb (Z.eqb 0) l.

Lemma upto_nul_app a b : upto_nul (a ++ b) = if has_nul a then upto_nul a else a ++ upto_nul b.
Proof.
  induction a as [|c a IH]; [done|]; cbn [upto_nul has_nul existsb app]; rewrite (Z.eqb_sym 0 c); destruct (c =? 0); [done|]; cbn [orb]; fold (has_nul a).
  rewrite IH; by destruct (has_nul a).
Qed.

Lemma upto_nul_all a : has_nul a = false -> upto_nul a = a.
Proof. intros E; pose proof (upto_nul_app a []) as Ha; rewrite E, app_nil_r in Ha; cbn [upto_nul] in Ha; by rewrite app_nil_r in Ha. Qed.

Lemma put_chars_ok chars : forall l, (length l + length (upto_nul chars) <= 255)%nat -> put_chars chars l = Some (has_nul chars, l ++ upto_nul chars).
Proof.
  induction chars as [|c chars IH]; intros l Hl; cbn [put_chars upto_nul has_nul existsb] in *; [by rewrite app_nil_r|].
  rewrite (Z.eqb_sym 0 c); destruct (c =? 0); rewrite (proj2 (Nat.leb_gt _ _)) by (cbn [length] in Hl; lia); cbn [orb]; [by rewrite app_nil_r|].
  fold (has_nul chars); rewrite IH, <- app_assoc by (rewrite length_app; cbn [length] in *; lia); done.
Qed.

Lemma name_loop_ok blk s i : holds blk s i -> 0 <= i -> Z.land (id (ent (16 * s + i))) LAST_LONG_ENTRY_MASK <> 0 ->
  forall n l, (0 < n)%nat -> 32 * (i + Z.of_nat n) <= lim ->
  (forall t, 0 < t < Z.of_nat n -> Z.land (id (ent (16 * s + i + t))) LAST_LONG_ENTRY_MASK = 0) ->
  (length l + length (upto_nul (chars_before n (16 * s + i + Z.of_nat n))) <= 255)%nat ->
  name_loop (Z.to_nat i + n) blk l = Some (l ++ upto_nul (chars_before n (16 * s + i + Z.of_nat n))).
Proof.
  intros Hh Hi Hmark; induction n as [|n IH]; intros l Hn Hlim Hno Hl; [lia|]; rewrite Nat.add_succ_r; cbn [name_loop chars_before] in *.
  replace (16 * s + i + Z.of_nat (S n) - 1) with (16 * s + i + Z.of_nat n) in * by lia.
  replace (Z.of_nat (Z.to_nat i + n)) with (i + Z.of_nat n) by lia; rewrite Hh by lia; cbn [mbind option_bind]; rewrite Z.add_assoc.
  set (c := slot_chars (ent (16 * s + i + Z.of_nat n))) in *; rewrite upto_nul_app in Hl |- *; unfold slot2str; fold c.
  assert (has_nul c = false -> (length l + length c + length (upto_nul (chars_before n (16 * s + i + Z.of_nat n))) <= 255)%nat) as Hl2 by (intros E; rewrite E, length_app in Hl; lia).
  rewrite put_chars_ok by (destruct (has_nul c) eqn:E; [done|]; rewrite upto_nul_all by done; lia); cbn [mbind option_bind].
  destruct (has_nul c) eqn:E; cbn [orb]; [done|]; rewrite upto_nul_all by done; destruct n as [|n].
  - change (Z.of_nat 0) with 0; rewrite Z.add_0_r, (proj2 (Z.eqb_neq _ _)) by done; cbn [negb chars_before upto_nul]; by rewrite app_nil_r.
  - rewrite Hno by lia; cbn [Z.eqb negb]; rewrite IH; [by rewrite app_assoc|lia|lia|intros t Ht; apply Hno; lia|rewrite length_app; lia].
Qed.

(** *** One entry *)

#[local] Abbreviation on_volume h := (clust_size (datablock h) = clust_size vol).

Lemma vfatname_long h blk vb s i n l : on_volume h -> 0 <= s -> 0 <= i < 16 -> Z.of_nat (length blk) = MAX_CLUSTSIZE -> holds blk s i -> is_long (ent (16 * s + i)) = true ->
  n = number (ent (16 * s + i)) -> 0 < n -> counts (16 * s + i) n -> (forall t, 0 < t < n -> Z.land (id (ent (16 * s + i + t))) LAST_LONG_ENTRY_MASK = 0) ->
  32 * (i + n) < lim -> l = upto_nul (chars_before (Z.to_nat n) (16 * s + i + n)) -> (length l <= 255)%nat ->
  exists blk', get_vfatname h 0 blk vb i = Some (0, downcase (first_char l), blk', vb, h) /\
    length blk' = length blk /\ dent blk' i = Some (ent (16 * s + i + n)) /\ holds blk' s (i + 1).
Proof.
  intros Hvol Hs Hi Hlen Hh Hlong En Hn Hcnt Hno Hlim El Hl; pose proof lim_pos as [Hlp Hc].
  assert (clust_size (datablock h) * SECTOR_SIZE = lim) as Elim by (rewrite Hvol; unfold bpc, SECTOR_SIZE; lia).
  unfold get_vfatname; rewrite Elim, Hh by lia; cbn [mbind option_bind]; fold (number (ent (16 * s + i))); rewrite <- En.
  rewrite (count_ok blk s i (Z.to_nat n) i); [|done|lia|intros t Ht; rewrite Hcnt, En by lia; lia|lia]; cbn [mbind option_bind]; rewrite Z2Nat.id by lia.
  rewrite (proj2 (Z.leb_gt lim _)), Hh by lia; cbn [mbind option_bind]; rewrite Z.add_assoc.
  unfold is_long in Hlong; apply andb_prop in Hlong as [_ Hmark]; apply negb_true_iff, Z.eqb_neq in Hmark.
  replace (Z.to_nat (i + n)) with (Z.to_nat i + Z.to_nat n)%nat by lia; pose proof (name_loop_ok blk s i Hh ltac:(lia) Hmark (Z.to_nat n) []) as E.
  rewrite Z2Nat.id in E by lia; rewrite E by (lia || done || (cbn [length]; rewrite <- El; lia)); cbn [mbind option_bind app]; rewrite <- El, (proj2 (Nat.leb_gt 256 _)) by lia.
  destruct (put_entry blk i (ent (16 * s + i + n))) as (blk' & -> & Hl' & Hd' & Ho'); [lia|unfold MAX_CLUSTSIZE in Hlen; lia|apply ent_length|].
  exists blk'; split; [done|]; split; [done|]; split; [done|]; intros j Hj Hjl; rewrite Ho' by lia; apply Hh; lia.
Qed.

Lemma vfatname_broken h blk vb s i k : on_volume h -> 0 <= i -> holds blk s i -> 0 < k < number (ent (16 * s + i)) -> counts (16 * s + i) k ->
  number (ent (16 * s + i + k)) <> number (ent (16 * s + i)) - k -> 32 * (i + k) < lim -> get_vfatname h 0 blk vb i = Some (-1, [], blk, vb, h).
Proof.
  intros Hvol Hi Hh Hk Hcnt Hne Hlim; pose proof lim_pos as [Hlp Hc].
  assert (clust_size (datablock h) * SECTOR_SIZE = lim) as Elim by (rewrite Hvol; unfold bpc, SECTOR_SIZE; lia).
  unfold get_vfatname; rewrite Elim, Hh by lia; cbn [mbind option_bind]; fold (number (ent (16 * s + i))).
  rewrite (count_broken blk s i (Z.to_nat (number (ent (16 * s + i)))) k i); [done|done|lia|lia| | |done].
  - intros t Ht; rewrite Z2Nat.id by lia; by apply Hcnt.
  - by rewrite Z2Nat.id by lia.
Qed.

Lemma tolower_char c : char_ok c -> char_ok (Ctype.tolower c).
Proof.
  intros Hc; assert ((c =? 0) || (0 <? Ctype.tolower c) && (Ctype.tolower c <? 256) = true) as E
    by (apply (Ctype.all_bytes (fun c => (c =? 0) || (0 <? Ctype.tolower c) && (Ctype.tolower c <? 256))); [vm_compute; reflexivity|unfold char_ok, byte_ok in *; lia]).
  unfold char_ok in *; rewrite (proj2 (Z.eqb_neq c 0)) in E by lia; cbn [orb] in E; lia.
Qed.

Lemma downcase_ok s : cstr_ok s -> cstr_ok (downcase s).
Proof. intros Fs; unfold downcase; apply Forall_fmap; eapply Forall_impl; [exact Fs|]; apply tolower_char. Qed.

Lemma first_char_ok s : cstr_ok s -> cstr_ok (first_char s).
Proof.
  destruct 1 as [|c s Hc Fs]; [by apply Forall_nil|]; cbn [first_char]; destruct (c =? _); [by apply Forall_nil|].
  destruct (c =? _); apply Forall_cons; split; done.
Qed.

Lemma upto_ok l : Forall byte_ok l -> cstr_ok (upto l).
Proof.
  induction 1 as [|c l Hc _ IH]; [by apply Forall_nil|]; cbn [upto]; destruct (Z.eqb_spec c 0); [by apply Forall_nil|]; destruct (c =? 32); [by apply Forall_nil|].
  apply Forall_cons; split; [unfold char_ok, byte_ok in *; lia|done].
Qed.

Lemma upto_nul_ok l : Forall byte_ok l -> cstr_ok (upto_nul l).
Proof.
  induction 1 as [|c l Hc _ IH]; [by apply Forall_nil|]; cbn [upto_nul]; destruct (Z.eqb_spec c 0); [by apply Forall_nil|].
  apply Forall_cons; split; [unfold char_ok, byte_ok in *; lia|done].
Qed.

Lemma get_name_ok d : Forall byte_ok d -> cstr_ok (get_name d).
Proof.
  intros Fd; unfold get_name; apply downcase_ok, first_char_ok; destruct (_ && _); [|by apply upto_ok, Forall_take].
  apply Forall_app; split; [by apply upto_ok, Forall_take|]; apply Forall_app; split; [|by apply upto_ok, Forall_take, Forall_drop].
  apply Forall_cons; split; [done|by apply Forall_nil].
Qed.

Lemma chars_before_bytes n : forall j, Forall byte_ok (chars_before n j).
Proof.
  induction n as [|n IH]; intros j; [by apply Forall_nil|]; cbn [chars_before]; apply Forall_app; split; [|done].
  unfold slot_chars; apply Forall_fmap, List.Forall_forall; intros off _; apply byte_num, ent_bytes.
Qed.

Lemma differs name s : cstr_ok name -> cstr_ok s -> negb (strcmp_str name s =? 0) = negb (bool_decide (name = s)).
Proof.
  intros Fn Fs; f_equal; pose proof (strcmp_str_zero name s Fn Fs) as Hz; destruct (Z.eqb_spec (strcmp_str name s) 0) as [E|E].
  - by rewrite bool_decide_eq_true_2 by (by apply Hz).
  - rewrite bool_decide_eq_false_2; [done|]; intros E'; apply E; by apply Hz.
Qed.

(** The names of an entry are texts. *)
Lemma shown_names i names d : shown i names d -> Forall cstr_ok names.
Proof.
  intros Hs; destruct Hs as [| | n l| ]; repeat (apply Forall_cons; split; [|try by apply Forall_nil]); try (by apply Forall_nil); try (apply get_name_ok, ent_bytes).
  subst l; apply downcase_ok, first_char_ok, upto_nul_ok, chars_before_bytes.
Qed.

Section search.
Context (name : bytes) (Fname : cstr_ok name) (Hname : name <> []) (h : @handle C) (Hvol : clust_size (datablock h) = clust_size vol).

(** The end of a step of the loop. *)
Lemma step_end names s_name l_name d (blk vb : bytes) n i : Forall cstr_ok names -> names = [s_name] /\ l_name = [] \/ names = [s_name; l_name] ->
  (if negb (strcmp_str name s_name =? 0) && negb (strcmp_str name l_name =? 0)
   then root_entries n h blk vb (i + 1) name false else if false && (Z.land (attr d) ATTR_DIR =? 0) then Some (Failed, blk, vb, h) else Some (Found d, blk, vb, h)) =
  if bool_decide (name ∈ names) then Some (Found d, blk, vb, h) else root_entries n h blk vb (i + 1) name false.
Proof.
  intros Fn Hcase; assert (cstr_ok s_name /\ cstr_ok l_name) as [Fs Fl].
  { destruct Hcase as [[-> ->]| ->]; apply Forall_cons in Fn as [? Fn]; (split; [done|]); [by apply Forall_nil|by apply Forall_cons in Fn as [? _]]. }
  assert (name ∈ names <-> name = s_name \/ name = l_name) as Hin.
  { destruct Hcase as [[-> ->]| ->]; rewrite !elem_of_cons, elem_of_nil; intuition. }
  rewrite !differs by done; destruct (decide (name = s_name)) as [E1|E1]; [|destruct (decide (name = l_name)) as [E2|E2]].
  - by rewrite (bool_decide_eq_true_2 (name = s_name)), (bool_decide_eq_true_2 (name ∈ names)) by tauto.
  - by rewrite (bool_decide_eq_false_2 (name = s_name)), (bool_decide_eq_true_2 (name = l_name)), (bool_decide_eq_true_2 (name ∈ names)) by tauto.
  - by rewrite (bool_decide_eq_false_2 (name = s_name)), (bool_decide_eq_false_2 (name = l_name)), (bool_decide_eq_false_2 (name ∈ names)) by tauto.
Qed.

Lemma entry_step n blk vb s i names d : 0 <= s -> 0 <= i < 16 -> Z.of_nat (length blk) = MAX_CLUSTSIZE -> holds blk s i -> shown (16 * s + i) names d ->
  exists blk', length blk' = length blk /\ holds blk' s (i + 1) /\
    root_entries (S n) h blk vb i name false =
      if bool_decide (name ∈ names) then Some (Found d, blk', vb, h) else root_entries n h blk' vb (i + 1) name false.
Proof.
  intros Hs Hi Hlen Hh Hsh; pose proof lim_pos as [Hlp Hc]; assert ((16 * s + i) mod 16 = i) as Em by (Z.div_mod_to_equations; lia).
  assert (holds blk s (i + 1)) as Hh1 by (intros j Hj; apply Hh; lia); pose proof (shown_names _ _ _ Hsh) as Fnames.
  cbn [root_entries]; rewrite (Hh i) by lia; cbn [mbind option_bind]; fold (is_volume (ent (16 * s + i))) (is_long (ent (16 * s + i))); rewrite <- (negb_involutive (Z.land _ ATTR_VOLUME =? 0)).
  fold (is_volume (ent (16 * s + i))); destruct Hsh as [Hvl Hlg|Hvl Hid|m l Hvl Hlg Em' Hm Hcnt Hno Hlim El Hl|k Hvl Hlg Hk Hcnt Hne Hlim]; rewrite Hvl; cbn [negb andb].
  - rewrite Hlg; exists blk; by rewrite bool_decide_eq_false_2 by apply not_elem_of_nil.
  - rewrite (proj2 (Z.eqb_neq _ 0)) by done; cbn [andb mbind option_bind]; exists blk; split; [done|]; split; [done|].
    rewrite (Hh i) by lia; cbn [mbind option_bind]; apply step_end; [done|by left].
  - rewrite Hlg; cbn [negb]; rewrite Em in Hlim; destruct (vfatname_long h blk vb s i m l) as (blk' & -> & Hl' & Hd' & Hh'); try done.
    exists blk'; split; [done|]; split; [done|]; cbn [mbind option_bind]; rewrite Hd'; cbn [mbind option_bind]; apply step_end; [done|by right].
  - rewrite Hlg; cbn [negb]; rewrite Em in Hlim; rewrite (vfatname_broken h blk vb s i k) by (done || lia); cbn [mbind option_bind].
    exists blk; split; [done|]; split; [done|]; rewrite (Hh i) by lia; cbn [mbind option_bind]; apply step_end; [done|by left].
Qed.

Lemma search_ge i r k : search name i r k -> i <= k.
Proof. induction 1; lia. Qed.

(** A sector of the directory. *)
Lemma root_entries_ok s r k vb : 0 <= s -> forall n blk i, 0 <= i -> i + Z.of_nat n = 16 -> Z.of_nat (length blk) = MAX_CLUSTSIZE -> holds blk s i -> search name (16 * s + i) r k ->
  exists blk' x, root_entries n h blk vb i name false = Some (x, blk', vb, h) /\ length blk' = length blk /\
    (k < 16 * (s + 1) /\ x = match r with Some d => Found d | None => Failed end \/ x = GoOn /\ search name (16 * (s + 1)) r k).
Proof.
  intros Hs; induction n as [|n IH]; intros blk i Hi Hn Hlen Hh Hsr.
  - exists blk, GoOn; split; [done|]; split; [done|]; right; split; [done|]; by replace (16 * (s + 1)) with (16 * s + i) by lia.
  - pose proof lim_pos as [Hlp Hc]; inversion Hsr as [i' names d Hsh Hin|i' [Hvl Hid]|i' names d r' k' Hsh Hin Hnext]; subst.
    + destruct (entry_step n blk vb s i names d) as (blk' & Hl' & _ & ->); try done; [lia|]; rewrite bool_decide_eq_true_2 by done.
      exists blk', (Found d); split; [done|]; split; [done|]; left; split; [lia|done].
    + exists blk, Failed; split; [|split; [done|left; split; [lia|done]]]; cbn [root_entries]; rewrite (Hh i) by lia; cbn [mbind option_bind].
      unfold is_volume in Hvl; apply negb_false_iff in Hvl; by rewrite Hvl, Hid.
    + destruct (entry_step n blk vb s i names d) as (blk' & Hl' & Hh' & ->); try done; [lia|]; rewrite bool_decide_eq_false_2 by done.
      destruct (IH blk' (i + 1)) as (blk2 & x & E & Hl2 & Hx); [lia|lia|lia|done|by rewrite Z.add_assoc|]; exists blk2, x; split; [done|]; split; [lia|done].
Qed.
End search.

(** A handle that reads the card. *)
Record on_card (h : @handle C) : Prop := {
  oc_block : forall b, block (cur_dev h) b = block d0 b;
  oc_good : good (cur_dev h);
  oc_range : in_range (cur_dev h) P nsect;
  oc_part : part_offset h = P }.

Lemma disk_read_card h s n : on_card h -> 0 <= s -> 0 < n < 2 ^ 31 -> s + n <= nsect ->
  exists r h', disk_read h s n = (r, run block d0 (P + s) (Z.to_nat n), h') /\ 0 <= r /\ on_card h' /\ h' = set_card (cur_dev h') h.
Proof.
  intros [Hb Hg Hr Hp] Hs Hn He; destruct Hv as [_ _ _ _ [HP Hend]]; assert (addressable (P + s) n) as Ha by (unfold addressable; lia).
  unfold disk_read; rewrite Hp, (Z.add_comm s P), wrap_small by lia; rewrite block_read_eta.
  assert (read_ret (cur_dev h) (P + s) n <> 0) as Hne by (apply read_succeeds; [done..|]; eapply range_sub; [exact Hr|lia..]).
  pose proof (read_count (cur_dev h) (P + s) n ltac:(lia)) as Hk.
  eexists _, _; split; [rewrite read_ok by done; rewrite (run_ext block d0 (cur_dev h)) by (intros; apply Hb); reflexivity|].
  rewrite wrap_small by lia; rewrite s32_small by lia; split; [lia|]; split; [|done].
  split; [intros b; cbn; by rewrite read_frame|cbn; by apply good_read|cbn; by apply range_read|done].
Qed.

(** The whole directory. *)
Lemma root_loop_ok name r k vb : cstr_ok name -> name <> [] -> 0 <= rootdir_sect vol -> rootdir_sect vol + k / 16 + clust_size vol <= nsect ->
  forall fuel s h blk, on_card h -> clust_size (datablock h) = clust_size vol -> sect_size (datablock h) = 512 -> 0 <= s -> Z.of_nat (length blk) = MAX_CLUSTSIZE ->
  search name (16 * s) r k -> k / 16 - s < Z.of_nat fuel ->
  exists blk' h', root_loop fuel h (rootdir_sect vol + s) blk vb name false = Some (r, blk', vb, h') /\ length blk' = length blk /\
    on_card h' /\ h' = set_card (cur_dev h') h.
Proof.
  intros Fn Hne Hr0 Hend; pose proof (spc_range P vol nsect Hv) as Hspc; destruct Hv as [_ _ _ _ [HP Hn32]].
  induction fuel as [|fuel IH]; intros s h blk Hoc Hcs Hss Hs Hlen Hsr Hf; pose proof (search_ge name _ _ _ Hsr) as Hge; assert (s <= k / 16) as Hsk by (apply Z.div_le_lower_bound; lia); [lia|].
  cbn [root_loop]; rewrite Hcs; unfold v2_ext_mmc_read; rewrite wrap_small by lia.
  destruct (disk_read_card h (rootdir_sect vol + s) (clust_size vol) Hoc) as (r0 & h1 & -> & Hr & Hoc1 & E1); [lia..|].
  destruct (read_holds blk s Hs Hlen) as (blk1 & -> & Hl1 & Hh1); cbn [mbind option_bind]; rewrite (proj2 (Z.ltb_ge r0 0)) by done.
  assert (datablock h1 = datablock h) as Ed by (rewrite E1; done); unfold DIRENTSPERBLOCK; rewrite Ed, Hss; change (Z.to_nat (512 / 32)) with 16%nat.
  destruct (root_entries_ok name Fn Hne h1 ltac:(by rewrite Ed) s r k vb Hs 16 blk1 0) as (blk2 & x & -> & Hl2 & Hx); [lia|lia|lia|done|by rewrite Z.add_0_r|]; cbn [mbind option_bind].
  destruct Hx as [[Hk ->]|[-> Hnext]]; [destruct r; (exists blk2, h1; split; [done|split; [lia|done]])|].
  destruct (IH (s + 1) h1 blk2) as (blk3 & h3 & E3 & Hl3 & Hoc3 & Eh3); try done; [by rewrite Ed|by rewrite Ed|lia|lia|lia|].
  exists blk3, h3; split; [by rewrite <- Z.add_assoc|]; split; [lia|]; split; [done|]; rewrite Eh3, E1; reflexivity.
Qed.
End root.

(** *** Opening a file of the root directory *)

(** The allocator: blocks of the size asked for. *)
Definition allocates (alloc : Z -> option bytes) (n : Z) : Prop := exists b, alloc n = Some b /\ Z.of_nat (length b) = n.

(** The boot sector names its file system. *)
Definition boot_ok (bs : bytes) (bits : Z) : Prop :=
  if fat_length bs =? 0 then bits = 32 /\ compare_sign FAT32_SIGN bs 82 = true
  else bits = 12 /\ compare_sign FAT12_SIGN bs 54 = true \/ bits = 16 /\ compare_sign FAT12_SIGN bs 54 = false /\ compare_sign FAT16_SIGN bs 54 = true.

Section opening.
Context {C : Type} `{HS : BlockDevSpec C 512} `{HN : !BlockCount C}.
Context (d0 : C) (P : Z) (nsect bits : Z) (Hboot : boot_ok (block d0 P) bits).

Definition the_volume : fsdata := volume (block d0 P) bits.
#[local] Abbreviation vol := the_volume.
Context (Hv : volume_ok P vol nsect) (Hroot : 0 <= rootdir_sect vol) (Hnsect : 0 < nsect).
Context (alloc : Z -> option bytes) (Hfatbuf : allocates alloc 3072) (Hcluster : allocates alloc (bpc vol)).

(** The variables between two calls: the card, the buffers and the table with a
    free descriptor. *)
Record idle (f : @fat C) : Prop := {
  idle_block : forall b, block (fat_card f) b = block d0 b;
  idle_good : good (fat_card f);
  idle_range : in_range (fat_card f) P nsect;
  idle_part : fat_part f = P;
  idle_fd : 0 <= free_fd (_fd f) 0;
  idle_buffer : Z.of_nat (length (_do_fat_read_block f)) = MAX_CLUSTSIZE }.

(** A path that names a file of the root directory. *)
Record root_path (path name : bytes) : Prop := {
  rp_name : name = downcase (skip_delims path);
  rp_some : name <> [];
  rp_root : dirdelim name = -1;
  rp_text : cstr_ok path;
  rp_short : (length path <= 2047)%nat }.

Lemma slot_on_card (f : @fat C) fs : (forall b, block (fat_card f) b = block d0 b) -> good (fat_card f) -> in_range (fat_card f) P nsect -> fat_part f = P ->
  on_card d0 P nsect (slot_for f fs).
Proof. by split. Qed.

Lemma boot_read h : on_card d0 P nsect h -> exists h', read_bootsectandvi h = Some (0, block d0 P, bits, h') /\ on_card d0 P nsect h'.
Proof.
  intros Hoc; destruct (disk_read_card d0 P vol nsect Hv h 0 1 Hoc) as (r & h' & E & Hr & Hoc' & _); [lia..|]; exists h'; split; [|done].
  unfold read_bootsectandvi; rewrite E, Z.add_0_r; change (run block d0 P (Z.to_nat 1)) with (block d0 P ++ []); rewrite app_nil_r, (proj2 (Z.ltb_ge r 0)) by done.
  pose proof (block_length d0 P) as Hl; rewrite (proj2 (Nat.ltb_ge _ 512)) by lia; unfold boot_ok in Hboot.
  destruct (fat_length (block d0 P) =? 0); [by destruct Hboot as [-> ->]|]; destruct Hboot as [[-> ->]|(-> & -> & ->)]; done.
Qed.

Lemma skip_delims_ok s : cstr_ok s -> cstr_ok (skip_delims s) /\ (length (skip_delims s) <= length s)%nat.
Proof.
  induction 1 as [|c s Hc Fs [IH1 IH2]]; cbn [skip_delims]; [split; [by apply Forall_nil|done]|].
  destruct (ISDIRDELIM c); [split; [done|cbn; lia]|split; [by apply Forall_cons|done]].
Qed.

(** The slot of a file that was found. *)
Lemma slot_opened h buf cbuf d : on_card d0 P nsect h -> datablock h = mkFs buf bits (fatlength vol) (fat_sect vol) (rootdir_sect vol) (sect_size vol) (clust_size vol) (data_begin vol) (-1) ->
  Z.of_nat (length buf) = 3072 -> Z.of_nat (length cbuf) = bpc vol -> opened d0 P vol nsect (file_slot h d cbuf).
Proof.
  intros [Hb Hg Hr Hp] Ed Hl Hc; split; cbn [file_slot cur_dev part_offset datablock fat_buf fat_buf_cluster_index]; try done.
  - by rewrite Ed.
  - rewrite Ed; cbn [fatbuf fatbufnum]; split; [lia|by left].
  - split; [done|by left].
Qed.

(** *** The names in directory entries *)

Definition plain (c : Z) : Prop := c <> 0 /\ c <> 32.

Lemma upto_padded s n rest : Forall plain s -> upto (s ++ replicate (S n) 32 ++ rest) = s.
Proof.
  induction 1 as [|c s [H0 H32] _ IH]; [done|]; cbn [upto app]; rewrite (proj2 (Z.eqb_neq c 0)), (proj2 (Z.eqb_neq c 32)) by done; cbn [orb]; by rewrite IH.
Qed.

Lemma upto_full s : Forall plain s -> upto s = s.
Proof.
  induction 1 as [|c s [H0 H32] _ IH]; [done|]; cbn [upto]; rewrite (proj2 (Z.eqb_neq c 0)), (proj2 (Z.eqb_neq c 32)) by done; cbn [orb]; by rewrite IH.
Qed.

(** A field of [w] characters, filled with blanks. *)
Definition blank_field (w : nat) (s : bytes) : bytes := s ++ replicate (w - length s) 32.

Lemma upto_field w s : Forall plain s -> upto (blank_field w s) = s.
Proof.
  intros Fs; unfold blank_field; destruct (w - length s)%nat as [|n]; [by rewrite app_nil_r, upto_full|].
  rewrite <- (app_nil_r (replicate _ _)); by apply upto_padded.
Qed.

Lemma blank_field_length w s : (length s <= w)%nat -> length (blank_field w s) = w.
Proof. intros Hl; unfold blank_field; rewrite length_app, length_replicate; lia. Qed.

(** The short name of a file: base and extension with a dot between them, in
    lower case. *)
Theorem get_name_short base ext rest : Forall plain base -> Forall plain ext -> (length base <= 8)%nat -> (length ext <= 3)%nat ->
  (forall c s, base = c :: s -> c <> DELETED_FLAG /\ c <> aRING) ->
  get_name (blank_field 8 base ++ blank_field 3 ext ++ rest) = downcase (if bool_decide (ext = []) then base else base ++ [46] ++ ext).
Proof.
  intros Fb Fe Hb He Hfirst; unfold get_name; rewrite take_app_le, (take_ge (blank_field 8 base)), upto_field by (rewrite ?blank_field_length by lia; done || lia).
  assert (drop 8 (blank_field 8 base ++ blank_field 3 ext ++ rest) = blank_field 3 ext ++ rest) as Ed by (apply drop_app_length'; by rewrite blank_field_length).
  unfold num; rewrite Ed, !take_app_le, (take_ge (blank_field 3 ext) 3), upto_field by (rewrite ?blank_field_length by lia; done || lia).
  assert (forall s, (forall c t, s = c :: t -> c <> DELETED_FLAG /\ c <> aRING) -> first_char s = s) as Hfc.
  { intros [|c t] Hs; [done|]; destruct (Hs c t eq_refl) as [H1 H2]; cbn [first_char]; by rewrite (proj2 (Z.eqb_neq c DELETED_FLAG)), (proj2 (Z.eqb_neq c aRING)). }
  destruct Fe as [|c ext [H0 H32] Fe].
  - cbn [blank_field app length replicate take le_val]; change (negb (32 + 256 * 0 =? 0) && negb (32 + 256 * 0 =? 32)) with false; by rewrite Hfc, bool_decide_eq_true_2.
  - rewrite bool_decide_eq_false_2 by done; unfold blank_field; cbn [app take le_val]; rewrite Z.mul_0_r, Z.add_0_r, (proj2 (Z.eqb_neq c 0)), (proj2 (Z.eqb_neq c 32)) by done; cbn [negb andb].
    rewrite Hfc; [done|]; intros c' t Et; destruct base as [|b base]; [injection Et as <- _; done|]; injection Et as <- _; by apply (Hfirst b base).
Qed.

Lemma path_opened f path name r k fuel : idle f -> root_path path name -> search d0 P vol name 0 r k ->
  rootdir_sect vol + k / 16 + clust_size vol <= nsect -> k / 16 < Z.of_nat fuel ->
  let fd := free_fd (_fd f) 0 in
  match r with
  | None => exists f', do_fat_fopen alloc fuel f path = Some (None, f') /\ _fd f' = <[Z.to_nat fd := 0]> (_fd f)
  | Some d => exists h f', do_fat_fopen alloc fuel f path = Some (Some (fd, h), f') /\ _fd f' = <[Z.to_nat fd := OPTIMUS_FD_MAGIC]> (_fd f) /\
      filesize h = size d /\
      forall chain, file_ok d0 P vol nsect chain (size d) -> (0 < size d -> chain !! 0%nat = Some (START vol d)) -> at_pos d0 P vol nsect chain (size d) h 0
  end.
Proof.
  intros [Hb Hg Hr Hp Hfd Hlen] [-> Hne Hdl Fp Hl2] Hsr Hend Hfuel fd; pose proof (vol_sect _ _ _ Hv) as Hss; destruct (skip_delims_ok path Fp) as [Fs Hls].
  unfold do_fat_fopen, get_fd; fold fd; rewrite (proj2 (Z.leb_le 0 fd)), (proj2 (Z.ltb_ge fd 0)) by done.
  set (f1 := set_fds (<[Z.to_nat fd := OPTIMUS_FD_MAGIC]> (_fd f)) f).
  destruct (boot_read (slot_for f1 (mkFs [] 0 0 0 0 0 0 0 (-1)))) as (h1 & -> & Hoc1); [by apply slot_on_card|]; cbn [mbind option_bind Z.eqb negb].
  set (f2 := with_card h1 f1); fold vol; destruct Hfatbuf as (buf & Ebuf & Hbuf); unfold FATBUFSIZE; rewrite Hss; change (512 * FATBUFBLOCKS) with 3072; rewrite Ebuf.
  rewrite (proj2 (Nat.leb_gt 2048 _)), bool_decide_eq_false_2 by (done || lia); set (name := downcase (skip_delims path)) in *; unfold find_file; rewrite Hdl; cbn [Z.leb Z.compare].
  set (h2 := set_fatbuf buf (-1) (slot_for f2 vol)); destruct Hoc1 as [Hb1 Hg1 Hr1 Hp1].
  assert (on_card d0 P nsect h2) as Hoc2 by by split.
  destruct (root_loop_ok d0 P vol nsect Hv name r k (get_vfatname_block f2)) with (fuel := fuel) (s := 0) (h := h2) (blk := _do_fat_read_block f2) as (blk' & h3 & E3 & _ & Hoc3 & Eh3);
    try done; [by apply downcase_ok|by rewrite Z.sub_0_r|]; rewrite Z.add_0_r in E3; change (rootdir_sect (datablock h2)) with (rootdir_sect vol); rewrite E3; cbn [mbind option_bind].
  assert (_fd f2 = <[Z.to_nat fd := OPTIMUS_FD_MAGIC]> (_fd f)) as Efd by done; unfold put_fd; rewrite (proj2 (Z.leb_le 0 fd)) by done.
  destruct r as [d|]; [|eexists; split; [reflexivity|]; cbn [set_fds searched _fd]; rewrite Efd; apply list_insert_insert_eq].
  assert (datablock h3 = datablock h2) as Ed by (rewrite Eh3; done); destruct Hcluster as (cbuf & Ecb & Hcb); cbn [mbind option_bind].
  replace (bytesperclust h3) with (bpc vol) by (unfold bytesperclust; rewrite Ed; reflexivity); rewrite Ecb; eexists _, _; split; [reflexivity|]; split; [exact Efd|]; split; [done|].
  intros chain Hf Hc; assert (opened d0 P vol nsect (file_slot h3 d cbuf)) as Hop by (apply (slot_opened h3 buf); [done|by rewrite Ed|lia|done]).
  assert (START (datablock h3) d = START vol d) as Est by (unfold START; rewrite Ed; done).
  destruct (file_size _ _ _ _ _ _ Hf) as [Hf0 _]; split; [done|cbn; lia|done| |]; cbn [file_slot headclust curclust]; by rewrite Est.
Qed.

(** ** Theorems *)

(** C20: Opening a path in the root directory.  [do_fat_fopen] reads the boot
    sector and searches the directory; it finds the first entry with the name,
    as a short or a long name, among labels, other files and the remains of
    deleted ones.  The handle it returns is at the start of the file, of the
    size in the entry, and can be read; the descriptor is taken.  When the
    directory ends without the name the result is -1 and the descriptor is
    free. *)
Theorem fat_open_finds f path name r k fuel : idle f -> root_path path name -> search d0 P vol name 0 r k ->
  rootdir_sect vol + k / 16 + clust_size vol <= nsect -> k / 16 < Z.of_nat fuel ->
  let fd := free_fd (_fd f) 0 in
  match r with
  | None => exists f', do_fat_fopen alloc fuel f path = Some (None, f') /\ _fd f' = <[Z.to_nat fd := 0]> (_fd f)
  | Some d => exists h f', do_fat_fopen alloc fuel f path = Some (Some (fd, h), f') /\ _fd f' = <[Z.to_nat fd := OPTIMUS_FD_MAGIC]> (_fd f) /\
      filesize h = size d /\
      forall chain, file_ok d0 P vol nsect chain (size d) -> (0 < size d -> chain !! 0%nat = Some (START vol d)) -> at_pos d0 P vol nsect chain (size d) h 0
  end.
Proof. apply path_opened. Qed.
End opening.

(** ** A small card *)

(** A volume with tables of 16 bits and clusters of one sector.  Its root
    directory has a label, a slot of a deleted file and a file with a long name
    in two slots. *)
Definition mk_slot (number : Z) (chars : bytes) : bytes :=
  let pairs l := flat_map (fun c => [c; 0]) l in
  [number] ++ pairs (take 5 chars) ++ [15; 0; 0] ++ pairs (take 6 (drop 5 chars)) ++ [0; 0] ++ pairs (take 2 (drop 11 chars)).

Definition mk_entry (name : bytes) (attr start size : Z) : bytes := name ++ [attr] ++ replicate 14 0 ++ le 2 start ++ le 4 size.

Definition name_boot : bytes :=
  replicate 11 0 ++ le 2 512 ++ [1] ++ le 2 1 ++ [1] ++ le 2 16 ++ replicate 3 0 ++ le 2 1 ++ replicate 30 0 ++ str "FAT16   ".
Definition name_fat : bytes := concat (map (le 2) [0xfff8; 0xffff; 3; 0xffff]).
Definition dir_entries_of (size : Z) : list bytes := [
  mk_entry (str "CARD       ") 8 0 0; mk_slot 0xe5 (str "deleted.txt.." );
  mk_slot 0x42 (str "ackage.img" ++ [0; 0xff; 0xff]); mk_slot 1 (str "aml_upgrade_p"); mk_entry (str "AML_UP~1IMG") 32 2 size ].
Definition name_card : card := mkCard 1000 (fun b => if b =? 32 then name_boot else if b =? 33 then name_fat else if b =? 34 then concat (dir_entries_of 700) else replicate 512 b).

Definition zeros_alloc (n : Z) : option bytes := Some (replicate (Z.to_nat n) 0).
Definition name_vars : @fat card := mkFat name_card 32 [0; 0] (replicate (Z.to_nat MAX_CLUSTSIZE) 0) [] [].
Definition path_given : bytes := str "/AML_Upgrade_Package.img".
Definition name_given : bytes := str "aml_upgrade_package.img".

Lemma name_boot_ok : boot_ok (block name_card 32) 16.
Proof. vm_compute; right; by repeat split. Qed.

Lemma name_volume_ok : volume_ok 32 (the_volume name_card 32 16) 64.
Proof. split; [by right; left|reflexivity|exists 0; split; [lia|reflexivity]|vm_compute; by repeat split|lia]. Qed.

Lemma zeros_allocates n : 0 <= n -> allocates zeros_alloc n.
Proof. intros Hn; eexists; split; [reflexivity|]; rewrite length_replicate; lia. Qed.

Lemma name_idle : idle name_card 32 64 name_vars.
Proof. split; try done; cbn [_do_fat_read_block name_vars]; rewrite length_replicate; unfold MAX_CLUSTSIZE; lia. Qed.

Lemma name_path : root_path path_given name_given.
Proof. split; [reflexivity|done|reflexivity|repeat (apply Forall_cons; split; [done|]); by apply Forall_nil|cbn; lia]. Qed.

#[local] Abbreviation entry_of := (ent name_card 32 (the_volume name_card 32 16)).

Lemma dir_search {C} `{BlockDev C} `{!BlockDevSpec C 512} (d0 : C) P vol e : (forall i x, [mk_entry (str "CARD       ") 8 0 0; mk_slot 0xe5 (str "deleted.txt.." );
    mk_slot 0x42 (str "ackage.img" ++ [0; 0xff; 0xff]); mk_slot 1 (str "aml_upgrade_p"); e] !! i = Some x -> ent d0 P vol (Z.of_nat i) = x) ->
  512 <= bpc vol -> search d0 P vol name_given 0 (Some (ent d0 P vol 4)) 2.
Proof.
  intros Hent Hlim; pose proof (Hent 0%nat _ eq_refl) as E0; pose proof (Hent 1%nat _ eq_refl) as E1; pose proof (Hent 2%nat _ eq_refl) as E2; pose proof (Hent 3%nat _ eq_refl) as E3.
  change (Z.of_nat 0) with 0 in E0; change (Z.of_nat 1) with 1 in E1; change (Z.of_nat 2) with 2 in E2; change (Z.of_nat 3) with 3 in E3; eapply search_next; [apply shown_label; by rewrite E0|apply not_elem_of_nil|].
  change (0 + 1) with 1; eapply search_next; [apply (shown_broken _ _ _ _ 1); change (1 + 1) with 2; rewrite ?E1, ?E2; [reflexivity|reflexivity|vm_compute; by split| |vm_compute; discriminate|change (1 mod 16) with 1; lia]| |].
  - intros t Ht; assert (t = 0) as -> by lia; change (1 + 0) with 1; by rewrite E1.
  - rewrite E1, elem_of_cons, elem_of_nil; intros [E|[]]; vm_compute in E; discriminate E.
  - change (search d0 P vol name_given 2 (Some (ent d0 P vol (2 + 2))) 2); eapply search_found; [apply (shown_long _ _ _ 2 2 name_given); rewrite ?E2; try reflexivity; try (change (2 mod 16) with 2; lia); try (cbn; lia)|].
    + intros t Ht; assert (t = 0 \/ t = 1) as [-> | ->] by lia; [change (2 + 0) with 2|change (2 + 1) with 3]; rewrite ?E2, ?E3; reflexivity.
    + intros t Ht; assert (t = 1) as -> by lia; change (2 + 1) with 3; rewrite E3; reflexivity.
    + change (Z.to_nat 2) with 2%nat; cbn [chars_before]; change (2 + 2 - 1) with 3; change (3 - 1) with 2; rewrite E2, E3; vm_compute; reflexivity.
    + rewrite !elem_of_cons; right; left; vm_compute; reflexivity.
Qed.

Lemma name_search : search name_card 32 (the_volume name_card 32 16) name_given 0 (Some (entry_of 4)) 2.
Proof.
  apply (dir_search _ _ _ (mk_entry (str "AML_UP~1IMG") 32 2 700)); [|vm_compute; discriminate].
  intros [|[|[|[|[|i]]]]] x Hx; try discriminate Hx; injection Hx as <-; vm_compute; reflexivity.
Qed.

Lemma fat_open_finds_witness : exists h f', do_fat_fopen zeros_alloc 1 name_vars path_given = Some (Some (0, h), f') /\
  _fd f' = [OPTIMUS_FD_MAGIC; 0] /\ filesize h = size (entry_of 4) /\
  forall chain, file_ok name_card 32 (the_volume name_card 32 16) 64 chain (size (entry_of 4)) -> (0 < size (entry_of 4) -> chain !! 0%nat = Some (START (the_volume name_card 32 16) (entry_of 4))) ->
    at_pos name_card 32 (the_volume name_card 32 16) 64 chain (size (entry_of 4)) h 0.
Proof.
  apply (fat_open_finds name_card 32 64 16 name_boot_ok name_volume_ok ltac:(vm_compute; discriminate) ltac:(lia) zeros_alloc (zeros_allocates 3072 ltac:(lia)) (zeros_allocates 512 ltac:(lia))
    name_vars path_given name_given (Some (entry_of 4)) 2 1 name_idle name_path name_search); [vm_compute; discriminate|reflexivity].
Defined.

(** ** Where the code does not do what it means to *)

Definition other_entry : bytes := mk_entry (str "OTHER   TXT") 32 2 1.

(** The search of the root directory ends only at a match or at the end mark.
    When the card fails, the buffer keeps what it has, and the search never
    ends. *)
Theorem root_without_end fuel : forall cursect,
  root_loop fuel (slot_for (mkFat (mkCard 0 (fun _ => [])) 32 [] [] [] []) (the_volume name_card 32 16)) cursect (concat (replicate 16 other_entry)) [] name_given false = None.
Proof.
  set (h := slot_for _ _); set (blk := concat _); induction fuel as [|fuel IH]; intros cursect; [done|]; cbn [root_loop].
  assert (v2_ext_mmc_read h (u32 cursect) (clust_size (datablock h)) = (0, [], h)) as ->.
  { unfold v2_ext_mmc_read, disk_read; change (clust_size (datablock h)) with 1; cbn [block_read card_dev cur_dev h slot_for fat_card].
    unfold card_range; cbn [lba]; pose proof (wrap_range 32 (u32 cursect + part_offset h) ltac:(lia)) as Hr; change (0 <? 1) with true; rewrite (proj2 (Z.leb_gt _ 0)) by lia; reflexivity. }
  change (put_buf blk 0 []) with (Some blk); cbn [mbind option_bind].
  assert (root_entries (Z.to_nat (DIRENTSPERBLOCK (datablock h))) h blk [] 0 name_given false = Some (GoOn, blk, [], h)) as -> by (vm_compute; reflexivity).
  cbn [mbind option_bind]; apply IH.
Qed.

(** Twenty slots of 13 characters are more than [l_name] has room for. *)
Definition full_slots (n : Z) : bytes := concat (map (fun k => mk_slot (if k =? n then 0x40 + k else k) (replicate 13 97)) (rev (seqZ 1 n))).
Definition full_name (n : Z) : option (Z * bytes) :=
  option_map (fun r => fst (fst (fst r))) (get_vfatname (slot_for name_vars (volume (take 13 name_boot ++ [4] ++ drop 14 name_boot) 16)) 0 (full_slots n ++ replicate 1408 0) [] 0).

Theorem long_name_overflow : full_name 19 = Some (0, replicate 247 97) /\ full_name 20 = None.
Proof. vm_compute; by split. Qed.

(** A long name whose slots lie in two clusters is never found: the last slot of
    the first cluster is left out.  The same name in one cluster is found. *)
Definition split_dir (before : nat) : bytes :=
  concat (replicate before other_entry) ++
  mk_slot 0x42 (str "ackage.img" ++ [0; 0xff; 0xff]) ++ mk_slot 1 (str "aml_upgrade_p") ++ mk_entry (str "AML_UP~1IMG") 32 9 700.
Definition split_vars (before : nat) : @fat card :=
  mkFat (mkCard 1000 (fun b => if b =? 33 then name_fat else take 512 (drop (Z.to_nat (512 * (b - 35))) (split_dir before)))) 32 [] [] [] [].
Definition find_in (before : nat) (name : bytes) : option (option bytes) :=
  option_map (fun r => fst (fst (fst r))) (get_dentfromdir 3 (set_fatbuf (replicate 3072 0) (-1) (slot_for (split_vars before) (the_volume name_card 32 16)))
    (replicate 512 0) (replicate 512 0) name (mk_entry (str "DIR        ") 16 2 0)).

Theorem split_name_not_found :
  find_in 13 name_given = Some (Some (mk_entry (str "AML_UP~1IMG") 32 9 700)) /\
  find_in 15 name_given = Some None /\ find_in 15 (str "aml_up~1.img") = Some (Some (mk_entry (str "AML_UP~1IMG") 32 9 700)).
Proof. vm_compute; by repeat split. Qed.

End FatDir.
