(* ===== verification/ImgDecoder.v ===== *)
(** * The reader of packages
    (drivers/usb/gadget/v2_burning/v2_common/optimus_img_decoder.c,
    amlImage_if.h)

    A package is a file of a FAT card, or the contents of a partition: a header
    with a table of up to 48 items, each with its types, size and offset, and
    the data of the items.  [image_open] reads header and table,
    [image_item_open] finds an item by its types and moves to its data.

    An [image] is the block at OPTIMUS_BURN_PKG_HEAD_BUF_ADDR, which only this
    file touches, with the open file: its descriptor [_hFile] and its slot.  The
    static variable [theItem], which every opened item shares, belongs to the
    item here: nobody uses an item after opening another.  The values of
    __LINE__ are as in the source; output is left out.

    The package reader is an instance of the classes [Package] and [Item] of the
    burning tool, and its laws hold for packages on a card
    ([decoder_item_spec]): together with SdcBurn.v they give
    [card_package_burned], from the sectors of the card to the contents of the
    partitions. *)

From S2P Require Import Prelude CString CArray BlockDev Burn Sparse Download BufManager BurnVerify SdcBurn Fat FatDir.

Module ImgDecoder.
Import CString CArray BlockDev Burn Download BufManager SdcBurn Fat FatDir.
#[local] Open Scope burn_scope.

Definition IMAGE_MAGIC : Z := 0x27b51956.
Definition AML_FRMWRM_VER_V1 : Z := 1.
Definition AML_FRMWRM_VER_V2 : Z := 2.
Definition MAX_ITEM_NUM : Z := 48.
Definition IMAGE_IF_TYPE_STORE : Z := 0xEE + 2.
Definition IMG_OFFSET_IN_PART : Z := 0.

(** The sizes of AmlFirmwareImg_t, ItemInfo_V1 and ItemInfo_V2, and of the
    header with the table. *)
Definition IMG_HEAD_SZ : Z := 64.
Definition ITEM_V1_SZ : Z := 128.
Definition ITEM_V2_SZ : Z := 576.
Definition HeadSz : Z := IMG_HEAD_SZ + MAX_ITEM_NUM * ITEM_V2_SZ.

(** [n] bytes at [off] of the header. *)
Definition field (head : bytes) (off : Z) (n : nat) : Z := le_val (take n (drop (Z.to_nat off) head)).

Definition hd_version (head : bytes) : Z := field head 4 4.
Definition hd_magic (head : bytes) : Z := field head 8 4.
Definition hd_itemNum (head : bytes) : Z := field head 24 4.

(** [ItemInfo]; the types are offsets in the header. *)
Record ItemInfo := mkItem {
  itemId : Z;
  fileType : Z;
  curoffsetInItem : Z;
  offsetInImage : Z;
  itemSz : Z;
  itemMainType : Z;
  itemSubType : Z }.

Definition image_item_get_item_info_byid (head : bytes) (itemIndex : Z) : option ItemInfo :=
  let imgVer := hd_version head in
  if imgVer =? AML_FRMWRM_VER_V2 then
    let p := IMG_HEAD_SZ + itemIndex * ITEM_V2_SZ in
    Some (mkItem (field head p 4) (field head (p + 4) 4) (field head (p + 8) 8) (field head (p + 16) 8) (field head (p + 24) 8) (p + 32) (p + 288))
  else if imgVer =? AML_FRMWRM_VER_V1 then
    let p := IMG_HEAD_SZ + itemIndex * ITEM_V1_SZ in
    Some (mkItem (field head p 4) (field head (p + 4) 4) (field head (p + 8) 8) (field head (p + 16) 8) (field head (p + 24) 8) (p + 32) (p + 64))
  else None.

(** Whether [strcmp] of a string and the text in an array is 0; nothing when it
    reads past the array. *)
Fixpoint strcmp_in (s arr : bytes) : option bool :=
  match arr with
  | [] => None
  | c :: arr' =>
      match s with
      | [] => Some (c =? 0)
      | d :: s' => if c =? d then strcmp_in s' arr' else Some false
      end
  end.

Definition type_is (head s : bytes) (p : Z) : option bool := strcmp_in s (drop (Z.to_nat p) head).

(** The loop of [image_item_open]: the index and the item found, or nothing
    found; no answer for a read past the header. *)
Fixpoint find_item (n : nat) (head main sub : bytes) (i : Z) : option (option (Z * ItemInfo)) :=
  match n with
  | O => Some None
  | S n' =>
      match image_item_get_item_info_byid head i with
      | None => Some None
      | Some pItem =>
          m ← type_is head main (itemMainType pItem);
          s ← (if (m : bool) then type_is head sub (itemSubType pItem) else Some false);
          if (s : bool) then Some (Some (i, pItem)) else find_item n' head main sub (i + 1)
      end
  end.

Section code.
Context {C : Type} `{BlockDev C}.

Record image := mkImage {
  devIf : Z;
  devAlignSz : Z;
  itemCurSeekOffsetInImg : Z;
  img_part : bytes;
  head : bytes;
  _hFile : Z;
  hFile : @handle C }.

Definition set_file (h : handle) (img : image) : image := mkImage (devIf img) (devAlignSz img) (itemCurSeekOffsetInImg img) (img_part img) (head img) (_hFile img) h.
Definition set_seek (off : Z) (img : image) : image := mkImage (devIf img) (devAlignSz img) off (img_part img) (head img) (_hFile img) (hFile img).

(** The item, or NULL; in both cases with the package as it is left. *)
Definition move_to (img : image) (i : Z) (pItem : ItemInfo) : option ((image * ItemInfo) + image) :=
  if negb (u32 i =? itemId pItem) then Some (inr img)
  else if negb (IMAGE_IF_TYPE_STORE =? devIf img) then
    '(r, h) ← do_fat_fseek (hFile img) (offsetInImage pItem) 0;
    if negb (r =? 0) then Some (inr (set_file h img))
    else Some (inl (set_seek (offsetInImage pItem) (set_file h img), pItem))
  else Some (inl (set_seek (offsetInImage pItem) img, pItem)).

Definition image_item_open (img : image) (main sub : bytes) : option ((image * ItemInfo) + image) :=
  let itemNr := s32 (hd_itemNum (head img)) in
  r ← find_item (Z.to_nat itemNr) (head img) main sub 0;
  match r with
  | None => Some (inr img)
  | Some (i, pItem) => move_to img i pItem
  end.

Definition image_item_get_first_cluster_size (img : image) (pItem : ItemInfo) : Z :=
  let fat_bytesPerCluste := devAlignSz img in
  let itemSizeNotAligned := u32 (Z.land (offsetInImage pItem) (u32 (fat_bytesPerCluste - 1))) in
  u32 (fat_bytesPerCluste - itemSizeNotAligned).

Definition image_get_cluster_size (img : image) : Z := devAlignSz img.
Definition image_item_get_size (pItem : ItemInfo) : Z := itemSz pItem.
Definition image_item_get_type (pItem : ItemInfo) : Z := s32 (fileType pItem).
Definition get_total_itemnr (img : image) : Z := s32 (hd_itemNum (head img)).

(** Opening an item by its index. *)
Definition get_item (img : image) (id : Z) : option ((image * ItemInfo) + image) :=
  match image_item_get_item_info_byid (head img) id with
  | None => Some (inr img)
  | Some pItem => move_to img id pItem
  end.

(** The return value and the offsets of the types. *)
Definition get_item_name (img : image) (id : Z) : Z * Z * Z :=
  match image_item_get_item_info_byid (head img) id with
  | None => (383, 0, 0)
  | Some pItem => if negb (u32 id =? itemId pItem) then (387, 0, 0) else (0, itemMainType pItem, itemSubType pItem)
  end.

Definition image_get_item_size_by_index (img : image) (id : Z) : Z :=
  match image_item_get_item_info_byid (head img) id with
  | None => 0
  | Some pItem => if negb (u32 id =? itemId pItem) then 408 else itemSz pItem
  end.

(** The size of the partitions to burn and whether there is a boot loader; in
    recovery mode the partition that holds the package is not counted. *)
Fixpoint parts_loop (n : nat) (img : image) (recovery : bool) (i dataPartsSz : Z) (hasBootloader : bool) : option (Z * bool) :=
  match n with
  | O => Some (dataPartsSz, hasBootloader)
  | S n' =>
      let '(r, main, sub) := get_item_name img i in
      if negb (r =? 0) then Some (431, hasBootloader)
      else
        p ← type_is (head img) (str "PARTITION") main;
        if negb (p : bool) then parts_loop n' img recovery (i + 1) dataPartsSz hasBootloader
        else
          b ← type_is (head img) (str "bootloader") sub;
          if (b : bool) then parts_loop n' img recovery (i + 1) dataPartsSz true
          else
            y ← type_is (head img) (str "aml_sysrecovery") sub;
            if (y : bool) && recovery then parts_loop n' img recovery (i + 1) dataPartsSz hasBootloader
            else parts_loop n' img recovery (i + 1) (u64 (dataPartsSz + image_get_item_size_by_index img i)) hasBootloader
  end.

Definition optimus_img_decoder_get_data_parts_size (img : image) (recovery : bool) : option (Z * bool) :=
  parts_loop (Z.to_nat (get_total_itemnr img)) img recovery 0 0 false.

(** *** Opening and reading *)

Context {D : Type} `{Storage D} (alloc : Z -> option bytes) (fuel : nat).
#[local] Abbreviation M := (Burn.M D).

(** The address of the header. *)
Definition HEAD : Z := OPTIMUS_SPARSE_IMG_FILL_VAL_BUF + OPTIMUS_SPARSE_IMG_FILL_BUF_SZ + 512.

Definition head_ok (hd : bytes) : bool :=
  (hd_magic hd =? IMAGE_MAGIC) && ((hd_version hd =? AML_FRMWRM_VER_V1) || (hd_version hd =? AML_FRMWRM_VER_V2)) && (hd_itemNum hd <=? MAX_ITEM_NUM).

(** The package, or NULL, and the variables of optimus_fat.c; a file that is not
    a package stays open.  [partName] has room for 28 characters. *)
Definition image_open (f : fat) (interface part imgPath : bytes) : M (option image * fat) :=
  if same (str "store") interface then
    d <- gets dev;
    let '(r, data, d) := read_part d part IMG_OFFSET_IN_PART HeadSz in
    _ <- set_dev d;
    if negb (r =? 0) then ret (None, f)
    else if (28 <=? length part)%nat then fault
    else ret (if head_ok data then Some (mkImage IMAGE_IF_TYPE_STORE (4 * 1024) 0 part data (-1) (slot_for f (mkFs [] 0 0 0 0 0 0 0 0))) else None, f)
  else
    match do_fat_fopen alloc fuel f imgPath with
    | None => fault
    | Some (None, f) => ret (None, f)
    | Some (Some (pFile, h), f) =>
        match do_fat_fread h (write_bytes ∅ HEAD (replicate (Z.to_nat HeadSz) 0)) HEAD HeadSz with
        | None => fault
        | Some (r, m, h) =>
            let f := with_card h f in
            if negb (s32 r =? HeadSz) then ret (None, f)
            else
              match read_bytes m HEAD (Z.to_nat HeadSz) with
              | None => fault
              | Some data => ret (if head_ok data then Some (mkImage 0 (do_fat_get_bytesperclust h) 0 [] data pFile h) else None, f)
              end
        end
    end.

Definition image_close (img : image) (f : fat) : fat :=
  if 0 <=? _hFile img then do_fat_fclose (_hFile img) (hFile img) f else f.

(** The return value and the package. *)
Definition store_item_read (img : image) (pBuf wantSz : Z) : M (Z * image) :=
  let offsetInPart := u64 (itemCurSeekOffsetInImg img + IMG_OFFSET_IN_PART) in
  let storeBlkSz := devAlignSz img in
  let offsetNotAlign := Z.land offsetInPart (u32 (storeBlkSz - 1)) in
  let sizeNotAlignInFirstBlk := u32 (storeBlkSz - offsetNotAlign) in
  let next := set_seek (u64 (itemCurSeekOffsetInImg img + wantSz)) img in
  if negb (offsetNotAlign =? 0) then
    let readOffset := u64 (offsetInPart - offsetNotAlign) in
    let bufLen := if sizeNotAlignInFirstBlk <? wantSz then sizeNotAlignInFirstBlk else wantSz in
    d <- gets dev;
    let '(r, data, d) := read_part d (img_part img) readOffset storeBlkSz in
    _ <- set_dev d;
    if negb (r =? 0) then ret (299, img)
    else
      _ <- on_mem (fun m => store_bytes m pBuf (take (Z.to_nat bufLen) (drop (Z.to_nat offsetNotAlign) data)));
      if sizeNotAlignInFirstBlk <? wantSz then
        r <- store_read_ops (img_part img) (pBuf + bufLen) (u64 (offsetInPart + sizeNotAlignInFirstBlk)) (u32 (wantSz - bufLen));
        ret (if negb (r =? 0) then (312, img) else (0, next))
      else ret (0, next)
  else
    r <- store_read_ops (img_part img) pBuf offsetInPart wantSz;
    ret (if negb (r =? 0) then (321, img) else (0, next)).

Definition image_item_read (img : image) (pBuf wantSz : Z) : M (Z * image) :=
  if IMAGE_IF_TYPE_STORE =? devIf img then store_item_read img pBuf wantSz
  else
    '(readSz, m, h) <- rd (fun m => do_fat_fread (hFile img) m pBuf wantSz);
    _ <- on_mem (fun _ => Some m);
    ret (if negb (u32 readSz =? wantSz) then 332 else 0, set_file h img).
End code.
Arguments image : clear implicits.

(** The package reader of the burning tool. *)
#[export] Instance decoder_item {C D} `{BlockDev C} `{Storage D} : Item D (image C * ItemInfo) := {
  image_item_read it pBuf wantSz :=
    '(r, img) <- image_item_read (fst it) pBuf wantSz;
    ret (r, (img, snd it)) }.

#[export] Instance decoder_package {C} `{BlockDev C} : Package (image C) (image C * ItemInfo) := {
  image_item_open img main sub := match image_item_open img main sub with Some r => r | None => inr img end;
  image_item_close := fst;
  image_item_get_size it := image_item_get_size (snd it);
  image_item_get_type it := image_item_get_type (snd it);
  image_item_get_first_cluster_size it := image_item_get_first_cluster_size (fst it) (snd it) }.

(** ** Packages *)

(** An item: its types, its place in the file, its size and its format. *)
Record entry := mkEntry {
  e_main : bytes;
  e_sub : bytes;
  e_off : Z;
  e_size : Z;
  e_type : Z }.

Definition key (e : entry) : bytes * bytes := (e_main e, e_sub e).

Section format.
(** The version says how long the types may be. *)
Context (ver : Z) (Hver : ver = AML_FRMWRM_VER_V1 \/ ver = AML_FRMWRM_VER_V2).

Definition width : nat := if ver =? AML_FRMWRM_VER_V2 then 256 else 32.
Definition text_field (s : bytes) : bytes := s ++ replicate (width - length s) 0.

Definition entry_bytes (i : nat) (e : entry) : bytes :=
  le 4 (Z.of_nat i) ++ le 4 (e_type e) ++ le 8 0 ++ le 8 (e_off e) ++ le 8 (e_size e) ++ text_field (e_main e) ++ text_field (e_sub e) ++ replicate 32 0.

Fixpoint entries (i : nat) (es : list entry) : bytes :=
  match es with [] => [] | e :: es' => entry_bytes i e ++ entries (S i) es' end.

Definition pkg_header (crc size align : Z) (es : list entry) : bytes :=
  le 4 crc ++ le 4 ver ++ le 4 IMAGE_MAGIC ++ le 8 size ++ le 4 align ++ le 4 (Z.of_nat (length es)) ++ replicate 36 0 ++ entries 0 es.

Record entry_ok (e : entry) : Prop := {
  main_ok : cstr_ok (e_main e) /\ (length (e_main e) < width)%nat;
  sub_ok : cstr_ok (e_sub e) /\ (length (e_sub e) < width)%nat;
  fields_ok : 0 <= e_type e < 2 ^ 32 /\ 0 <= e_off e < 2 ^ 64 /\ 0 <= e_size e < 2 ^ 64 }.

(** The header of a package with the items [es]. *)
Definition header_of (hd : bytes) (es : list entry) : Prop :=
  Z.of_nat (length hd) = HeadSz /\ (length es <= 48)%nat /\ Forall entry_ok es /\
  exists crc size align rest, 0 <= crc < 2 ^ 32 /\ 0 <= size < 2 ^ 64 /\ 0 <= align < 2 ^ 32 /\ hd = pkg_header crc size align es ++ rest.

Lemma field_at l1 n v l2 : 0 <= v < 256 ^ Z.of_nat n -> field (l1 ++ le n v ++ l2) (Z.of_nat (length l1)) n = v.
Proof.
  intros Hv; unfold field; rewrite Nat2Z.id, drop_app_length; replace (take n _) with (le n v); [by apply le_val_le|].
  symmetry; apply take_exact, le_length.
Qed.

(** A field behind [k] bytes of a part of the header. *)
Lemma field_in l1 k n v l2 p : 0 <= v < 256 ^ Z.of_nat n -> p = Z.of_nat (length (l1 ++ k)) -> field (l1 ++ (k ++ le n v ++ l2)) p n = v.
Proof. intros Hv ->; rewrite app_assoc; by apply field_at. Qed.

Lemma width_eq : Z.of_nat width = if ver =? AML_FRMWRM_VER_V2 then 256 else 32.
Proof. unfold width; by destruct (ver =? _). Qed.

Lemma text_field_length s : (length s < width)%nat -> length (text_field s) = width.
Proof. intros Hl; unfold text_field; rewrite length_app, length_replicate; lia. Qed.

Definition item_bytes : Z := 64 + 2 * Z.of_nat width.

Lemma entry_length i e : entry_ok e -> Z.of_nat (length (entry_bytes i e)) = item_bytes.
Proof.
  intros [[_ Hm] [_ Hs] _]; unfold entry_bytes, item_bytes; rewrite !length_app, !le_length, !text_field_length, length_replicate by done; lia.
Qed.

Lemma entries_length es : Forall entry_ok es -> forall i, Z.of_nat (length (entries i es)) = Z.of_nat (length es) * item_bytes.
Proof.
  induction 1 as [|e es He _ IH]; intros i; [done|]; cbn [entries length]; rewrite length_app, Nat2Z.inj_add, IH, entry_length by done; lia.
Qed.

Lemma entries_app es1 : forall i es2, entries i (es1 ++ es2) = entries i es1 ++ entries (i + length es1) es2.
Proof.
  induction es1 as [|e es1 IH]; intros i es2; cbn [entries app length]; [by rewrite Nat.add_0_r|].
  rewrite IH, <- app_assoc; by rewrite Nat.add_succ_r.
Qed.

Lemma strcmp_in_ok s t rest : cstr_ok s -> cstr_ok t -> strcmp_in s (t ++ 0 :: rest) = Some (bool_decide (t = s)).
Proof.
  intros Fs Ft; revert s Fs; induction Ft as [|c t Hc _ IH]; intros s Fs; destruct Fs as [|d s Hd Fs]; unfold char_ok in *; cbn [strcmp_in app].
  - done.
  - by rewrite (proj2 (Z.eqb_neq 0 d)) by lia.
  - by rewrite (proj2 (Z.eqb_neq c 0)) by lia.
  - destruct (Z.eqb_spec c d) as [->|Hne]; [|by rewrite bool_decide_eq_false_2 by congruence].
    rewrite IH by done; f_equal; apply bool_decide_ext; split; [by intros ->|by intros [= ->]].
Qed.

Lemma type_is_ok l1 t rest s : cstr_ok s -> cstr_ok t -> (length t < width)%nat ->
  type_is (l1 ++ text_field t ++ rest) s (Z.of_nat (length l1)) = Some (bool_decide (t = s)).
Proof.
  intros Fs Ft Hl; unfold type_is; rewrite Nat2Z.id, drop_app_length; unfold text_field.
  replace (width - length t)%nat with (S (width - length t - 1)) by lia; cbn [replicate]; rewrite <- app_assoc; by apply strcmp_in_ok.
Qed.

(** What the reader makes of an entry. *)
Definition info_of (i : nat) (e : entry) : ItemInfo :=
  let p := IMG_HEAD_SZ + Z.of_nat i * item_bytes in
  mkItem (Z.of_nat i) (e_type e) 0 (e_off e) (e_size e) (p + 32) (p + 32 + Z.of_nat width).
End format.

Section header.
Context (ver : Z) (Hver : ver = AML_FRMWRM_VER_V1 \/ ver = AML_FRMWRM_VER_V2) (hd : bytes) (es : list entry) (Hhd : header_of ver hd es).

#[local] Ltac len_le := rewrite ?length_app, ?le_length; cbn [length]; lia.

Lemma ver_range : 0 <= ver < 2 ^ 32.
Proof. clear Hhd; destruct Hver as [-> | ->]; done. Qed.

Lemma header_fields : hd_version hd = ver /\ hd_magic hd = IMAGE_MAGIC /\ hd_itemNum hd = Z.of_nat (length es).
Proof.
  destruct Hhd as (_ & Hl & _ & crc & size & align & rest & Hc & Hs & Ha & ->); pose proof ver_range.
  unfold hd_version, hd_magic, hd_itemNum, pkg_header; rewrite <- !app_assoc; split; [|split].
  - by apply (field_in [] (le 4 crc) 4 ver _ 4).
  - rewrite (app_assoc (le 4 crc)); by apply (field_in [] (le 4 crc ++ le 4 ver) 4 IMAGE_MAGIC _ 8).
  - rewrite (app_assoc (le 4 crc)), (app_assoc (_ ++ le 4 ver)), (app_assoc (_ ++ le 4 IMAGE_MAGIC)), (app_assoc (_ ++ le 8 size)), (app_assoc (_ ++ le 4 align)).
    apply (field_in [] (((((le 4 crc ++ le 4 ver) ++ le 4 IMAGE_MAGIC) ++ le 8 size) ++ le 4 align)) 4 (Z.of_nat (length es)) _ 24); [lia|cbn [app]; len_le].
Qed.

Lemma header_accepted : head_ok hd = true.
Proof.
  destruct header_fields as (Ev & Em & En); destruct Hhd as (_ & Hl & _); unfold head_ok; rewrite Ev, Em, En; rewrite (proj2 (Z.leb_le _ MAX_ITEM_NUM)) by (unfold MAX_ITEM_NUM; lia).
  by destruct Hver as [-> | ->].
Qed.

(** The place of an entry. *)
Lemma entry_place i e : es !! i = Some e -> exists L R, hd = L ++ entry_bytes ver i e ++ R /\ Z.of_nat (length L) = IMG_HEAD_SZ + Z.of_nat i * item_bytes ver /\ entry_ok ver e.
Proof.
  intros Hi; destruct Hhd as (_ & Hl & Fe & crc & size & align & rest & _ & _ & _ & ->).
  assert (entry_ok ver e) as He by (rewrite Forall_lookup in Fe; by eapply Fe).
  rewrite <- (take_drop_middle es i e Hi) in Fe |- *; apply Forall_app in Fe as [F1 _].
  unfold pkg_header; rewrite entries_app; cbn [entries]; rewrite length_take, Nat.min_l, Nat.add_0_l by (apply lookup_lt_Some in Hi; lia).
  eexists (le 4 crc ++ le 4 ver ++ le 4 IMAGE_MAGIC ++ le 8 size ++ le 4 align ++ le 4 _ ++ replicate 36 0 ++ entries ver 0 (take i es)), (entries ver (S i) (drop (S i) es) ++ rest).
  split; [by rewrite <- !app_assoc|]; split; [|done].
  pose proof (entries_length ver (take i es) F1 0) as E; rewrite length_take in E; apply lookup_lt_Some in Hi.
  rewrite !length_app, !le_length, length_replicate, !Nat2Z.inj_add, E; unfold IMG_HEAD_SZ; lia.
Qed.

Lemma by_id_ok i e : es !! i = Some e -> image_item_get_item_info_byid hd (Z.of_nat i) = Some (info_of ver i e).
Proof.
  intros Hi; destruct header_fields as (Ev & _ & _); destruct (entry_place i e Hi) as (L & R & E & HL & [_ _ (Ht & Ho & Hs)]).
  destruct Hhd as (_ & Hn & _); apply lookup_lt_Some in Hi as Hi'.
  assert (forall p, p = IMG_HEAD_SZ + Z.of_nat i * item_bytes ver ->
    field hd p 4 = Z.of_nat i /\ field hd (p + 4) 4 = e_type e /\ field hd (p + 8) 8 = 0 /\ field hd (p + 16) 8 = e_off e /\ field hd (p + 24) 8 = e_size e) as Hf.
  { intros p ->; rewrite <- HL, E; unfold entry_bytes; rewrite <- !app_assoc.
    split; [rewrite <- (Z.add_0_r (Z.of_nat (length L))); apply (field_in L [] 4); [lia|by rewrite app_nil_r, Z.add_0_r]|].
    split; [apply (field_in L (le 4 (Z.of_nat i)) 4); [done|len_le]|].
    split; [rewrite (app_assoc (le 4 _)); apply (field_in L (le 4 _ ++ le 4 _) 8); [done|len_le]|].
    split; [rewrite (app_assoc (le 4 _)), (app_assoc (_ ++ le 4 _)); apply (field_in L ((le 4 _ ++ le 4 _) ++ le 8 _) 8); [done|len_le]|].
    rewrite (app_assoc (le 4 _)), (app_assoc (_ ++ le 4 _)), (app_assoc (_ ++ le 8 _)); apply (field_in L (((le 4 _ ++ le 4 _) ++ le 8 _) ++ le 8 _) 8); [done|len_le]. }
  unfold image_item_get_item_info_byid, info_of; rewrite Ev; pose proof (width_eq ver) as Hw; unfold item_bytes in *.
  destruct Hver as [Ever|Ever]; rewrite Ever in Hw, Hf |- *; cbn [Z.eqb Pos.eqb AML_FRMWRM_VER_V1 AML_FRMWRM_VER_V2] in Hw |- *; rewrite Hw in Hf |- *; change (64 + 2 * 32) with ITEM_V1_SZ in *; change (64 + 2 * 256) with ITEM_V2_SZ in *;
    destruct (Hf _ eq_refl) as (-> & -> & -> & -> & ->); do 2 f_equal; lia.
Qed.

Lemma types_ok i e s : es !! i = Some e -> cstr_ok s ->
  type_is hd s (itemMainType (info_of ver i e)) = Some (bool_decide (e_main e = s)) /\ type_is hd s (itemSubType (info_of ver i e)) = Some (bool_decide (e_sub e = s)).
Proof.
  intros Hi Fs; destruct (entry_place i e Hi) as (L & R & E & HL & [[Fm Hm] [Fb Hb] _]); cbn [info_of itemMainType itemSubType]; rewrite <- HL, E; unfold entry_bytes.
  set (k := le 4 (Z.of_nat i) ++ le 4 (e_type e) ++ le 8 0 ++ le 8 (e_off e) ++ le 8 (e_size e)).
  assert (length k = 32%nat) as Hk by (unfold k; rewrite !length_app, !le_length; done).
  replace (L ++ _ ++ R) with ((L ++ k) ++ text_field ver (e_main e) ++ text_field ver (e_sub e) ++ replicate 32 0 ++ R) by (unfold k; by rewrite <- !app_assoc); split.
  - replace (Z.of_nat (length L) + 32) with (Z.of_nat (length (L ++ k))) by (rewrite length_app; lia); by apply type_is_ok.
  - replace (Z.of_nat (length L) + 32 + Z.of_nat (width ver)) with (Z.of_nat (length ((L ++ k) ++ text_field ver (e_main e)))) by (rewrite !length_app, text_field_length by done; lia).
    rewrite app_assoc; by apply type_is_ok.
Qed.

Lemma find_from main sub : cstr_ok main -> cstr_ok sub -> forall es2 es1, es = es1 ++ es2 ->
  (forall e, e ∈ es2 -> key e <> (main, sub)) -> find_item (length es2) hd main sub (Z.of_nat (length es1)) = Some None.
Proof.
  intros Fm Fs; induction es2 as [|e es2 IH]; intros es1 Ees Hk; [done|]; cbn [find_item length].
  assert (es !! length es1 = Some e) as Hi by (rewrite Ees; by apply list_lookup_middle).
  rewrite (by_id_ok _ _ Hi); destruct (types_ok _ _ main Hi Fm) as [-> _]; destruct (types_ok _ _ sub Hi Fs) as [_ Es].
  assert ((if bool_decide (e_main e = main) then type_is hd sub (itemSubType (info_of ver (length es1) e)) else Some false) = Some false) as E2.
  { destruct (decide (e_main e = main)) as [E1|E1]; [rewrite bool_decide_eq_true_2 by done|by rewrite bool_decide_eq_false_2]; rewrite Es; f_equal; apply bool_decide_eq_false_2; intros E2; apply (Hk e); [left|unfold key; by rewrite E1, E2]. }
  cbn [mbind option_bind]; rewrite E2; cbn [mbind option_bind].
  replace (Z.of_nat (length es1) + 1) with (Z.of_nat (length (es1 ++ [e]))) by (rewrite length_app; cbn [length]; lia).
  apply IH; [by rewrite <- app_assoc|]; intros e' He'; apply Hk; by right.
Qed.

(** The search finds the entry with the types, if there is one. *)
Lemma find_ok i e : es !! i = Some e -> NoDup (map key es) -> find_item (length es) hd (e_main e) (e_sub e) 0 = Some (Some (Z.of_nat i, info_of ver i e)).
Proof.
  intros Hi Hnd; assert (cstr_ok (e_main e) /\ cstr_ok (e_sub e)) as [Fm Fs] by (destruct (entry_place i e Hi) as (_ & _ & _ & _ & [[? _] [? _] _]); done).
  assert (forall n k, (k + n = length es)%nat -> (k <= i)%nat -> find_item n hd (e_main e) (e_sub e) (Z.of_nat k) = Some (Some (Z.of_nat i, info_of ver i e))) as Hfind;
    [|by apply (Hfind (length es) 0%nat); lia].
  induction n as [|n IH]; intros k Hk Hki; [apply lookup_lt_Some in Hi; lia|]; cbn [find_item].
  destruct (lookup_lt_is_Some_2 es k ltac:(lia)) as [x Hx]; rewrite (by_id_ok _ _ Hx).
  destruct (types_ok _ _ (e_main e) Hx Fm) as [-> _]; destruct (types_ok _ _ (e_sub e) Hx Fs) as [_ Es]; cbn [mbind option_bind].
  destruct (decide (k = i)) as [->|Hne].
  - assert (x = e) as -> by congruence; rewrite bool_decide_eq_true_2 by done; rewrite Es; cbn [mbind option_bind]; by rewrite bool_decide_eq_true_2.
  - assert (key x <> key e) as Hke.
    { intros E; apply Hne; eapply (NoDup_lookup (map key es) k i (key e)); [done|rewrite list_lookup_fmap, Hx; cbn; by rewrite E|by rewrite list_lookup_fmap, Hi]. }
    replace (if bool_decide (e_main x = e_main e) then _ else _) with (Some false); [cbn [mbind option_bind]; replace (Z.of_nat k + 1) with (Z.of_nat (S k)) by lia; apply IH; lia|].
    destruct (decide (e_main x = e_main e)) as [E1|E1]; [rewrite bool_decide_eq_true_2 by done|by rewrite bool_decide_eq_false_2]; rewrite Es; f_equal; symmetry; apply bool_decide_eq_false_2.
    intros E2; apply Hke; unfold key; by rewrite E1, E2.
Qed.

Lemma find_none main sub : cstr_ok main -> cstr_ok sub -> (main, sub) ∉ map key es -> find_item (length es) hd main sub 0 = Some None.
Proof.
  intros Fm Fs Hn; apply (find_from main sub Fm Fs es []); [done|]; intros e He E; apply Hn; rewrite <- E; by apply list_elem_of_fmap_2.
Qed.
End header.

(** ** A package on a card *)

Section on_card.
Context {C : Type} `{HSC : BlockDevSpec C 512} `{HN : !BlockCount C}.
Context (d0 : C) (P : Z) (vol : fsdata) (nsect : Z) (Hv : volume_ok P vol nsect).
Context (chain : list Z) (fsize : Z) (Hfile : file_ok d0 P vol nsect chain fsize).
Context (ver : Z) (Hver : ver = AML_FRMWRM_VER_V1 \/ ver = AML_FRMWRM_VER_V2) (es : list entry).

#[local] Abbreviation data := (file_data d0 P vol chain fsize).
#[local] Abbreviation position := (at_pos d0 P vol nsect chain fsize).
#[local] Abbreviation cluster_size := (bpc vol).

Definition pkg_head : bytes := take (Z.to_nat HeadSz) data.

(** The items are inside of the file and have different names. *)
Definition items_ok : Prop := header_of ver pkg_head es /\ NoDup (map key es) /\ Forall (fun e => e_off e + e_size e <= fsize) es /\ HeadSz <= fsize.
Context (Hes : items_ok).

Definition entry_data (e : entry) : bytes := take (Z.to_nat (e_size e)) (drop (Z.to_nat (e_off e)) data).

(** The open package, wherever its file was read last. *)
Record open_package (img : image C) : Prop := {
  opk_if : devIf img = 0;
  opk_align : devAlignSz img = cluster_size;
  opk_head : head img = pkg_head;
  opk_file : exists o, position (hFile img) o }.

Definition remaining (it : image C * ItemInfo) (l : bytes) : Prop :=
  open_package (fst it) /\ exists o, position (hFile (fst it)) o /\ o + Z.of_nat (length l) <= fsize /\ l = take (length l) (drop (Z.to_nat o) data).

Context {D : Type} `{HSD : StorageSpec D}.

#[local] Abbreviation items := (image C * ItemInfo)%type.

Lemma remaining_bytes it l : remaining it l -> Forall byte_ok l.
Proof.
  intros [_ (o & _ & _ & ->)]; apply Forall_take, Forall_drop, Forall_take, Forall_concat, List.Forall_forall; intros x (c & <- & _)%in_map_iff.
  apply cluster_run_bytes.
Qed.

Lemma card_read (w : world D) (it : items) p a l : remaining it (a ++ l) -> a <> [] -> mapped (wmem w) p (length a) ->
  (p - foffset (hFile (fst it))) mod 512 = 0 \/ 0 < foffset (hFile (fst it)) mod cluster_size /\ foffset (hFile (fst it)) mod cluster_size + Z.of_nat (length a) < cluster_size ->
  exists it' : items, BufManager.image_item_read it p (Z.of_nat (length a)) w = Some (0, it', with_mem w (write_bytes (wmem w) p a)) /\
    remaining it' l /\ foffset (hFile (fst it')) = foffset (hFile (fst it)) + Z.of_nat (length a).
Proof.
  intros [[Hif Hal Hh _] (o & Hat & He & E)] Hne Hm Hph; pose proof Hat as [_ [Eo Ho] _ _ _]; rewrite Eo in Hph |- *.
  rewrite length_app, Nat2Z.inj_add in He; assert (0 < Z.of_nat (length a)) as Ha by (destruct a; [done|cbn; lia]).
  assert (seg d0 P vol chain o (Z.of_nat (length a)) = a /\ l = take (length l) (drop (Z.to_nat (o + Z.of_nat (length a))) data)) as [Ea El].
  { rewrite (seg_file d0 P vol chain fsize) by lia; rewrite Nat2Z.id; rewrite length_app, <- take_take_drop in E.
    assert (length (take (length a) (drop (Z.to_nat o) data)) = length a) as Hl.
    { pose proof (seg_length d0 P vol nsect Hv chain fsize Hfile o (Z.of_nat (length a)) ltac:(lia) ltac:(lia) ltac:(lia)) as Hs; rewrite (seg_file d0 P vol chain fsize), Nat2Z.id in Hs by lia; lia. }
    apply app_inj_1 in E as [E1 E2]; [|lia]; split; [done|]; rewrite E2 at 1; rewrite drop_drop; do 2 f_equal; lia. }
  destruct (fread_ok d0 P vol nsect Hv chain fsize Hfile (hFile (fst it)) (wmem w) o (Z.of_nat (length a)) p Hat Ha) as (h' & Er & Hat'); [lia|by rewrite Nat2Z.id|done|].
  rewrite Ea in Er; exists (set_file h' (fst it), snd it); split; [|split].
  - cbn [BufManager.image_item_read decoder_item]; unfold image_item_read at 1; rewrite Hif; change (IMAGE_IF_TYPE_STORE =? 0) with false; cbv iota.
    unfold bind, rd; rewrite Er; cbn [on_mem ret fst snd]; unfold on_mem; rewrite wrap_small by (destruct (file_size _ _ _ _ _ _ Hfile); lia).
    rewrite (proj2 (Z.eqb_eq _ _)) by done; destruct w; reflexivity.
  - split; [by split; [..|by exists (o + Z.of_nat (length a))]|]; exists (o + Z.of_nat (length a)); split; [done|]; split; [lia|done].
  - by destruct Hat' as [_ [Eo' _] _ _ _].
Qed.

Definition decoder_item_spec : ItemSpec D items := {|
  delivers := remaining;
  phase it := foffset (hFile (fst it));
  inside it n := 0 < foffset (hFile (fst it)) mod cluster_size /\ foffset (hFile (fst it)) mod cluster_size + n < cluster_size;
  delivers_bytes := remaining_bytes;
  read_item := card_read |}.

#[local] Existing Instance decoder_item_spec.

Lemma closed_package (it : items) l : remaining it l -> open_package (fst it).
Proof. by intros [? _]. Qed.

Definition decoder_package_spec : PackageSpec D (image C) items := {| intact := open_package; close_intact := closed_package |}.
#[local] Existing Instance decoder_package_spec.

Lemma data_length : Z.of_nat (length data) = fsize.
Proof.
  pose proof (seg_length d0 P vol nsect Hv chain fsize Hfile 0 fsize) as Hs; destruct (file_size _ _ _ _ _ _ Hfile) as [Hf _].
  rewrite (seg_file d0 P vol chain fsize), drop_0, take_ge in Hs by (unfold file_data; rewrite ?length_take; lia); apply Hs; lia.
Qed.

Lemma entry_in e : e ∈ es -> exists i, es !! i = Some e /\ entry_ok ver e /\ e_off e + e_size e <= fsize.
Proof.
  destruct Hes as ((_ & _ & Fe & _) & _ & Fs & _); rewrite Forall_forall in Fe, Fs; intros He.
  destruct (proj1 (list_elem_of_lookup es e) He) as [i Hi]; exists i; split; [done|]; split; [by apply Fe|by apply Fs].
Qed.

Lemma entry_data_length e : e ∈ es -> Z.of_nat (length (entry_data e)) = e_size e.
Proof.
  intros He; destruct (entry_in e He) as (i & _ & [_ _ (_ & Ho & Hs)] & Hle); pose proof data_length; unfold entry_data; rewrite length_take, length_drop; lia.
Qed.

(** Opening an item moves to its data, from wherever the file was. *)
Lemma open_found img e : open_package img -> e ∈ es ->
  exists it : items, SdcBurn.image_item_open img (e_main e) (e_sub e) = inl it /\ remaining it (entry_data e) /\
    SdcBurn.image_item_get_size it = e_size e /\ SdcBurn.image_item_get_type it = s32 (e_type e) /\
    SdcBurn.image_item_get_first_cluster_size it = cluster_size - e_off e mod cluster_size /\ foffset (hFile (fst it)) = e_off e.
Proof.
  intros [Hif Hal Hh [o Hat]] He; destruct (entry_in e He) as (i & Hi & [_ _ (_ & Ho & Hsz)] & Hle); destruct Hes as (Hhd & Hnd & _).
  destruct (header_fields ver Hver pkg_head es Hhd) as (_ & _ & En); destruct Hhd as (Hl & Hn & Hrest).
  destruct (fseek_ok d0 P vol nsect Hv chain fsize Hfile (hFile img) o (e_off e) Hat) as (h' & Es & Hat'); [lia|].
  exists (set_seek (e_off e) (set_file h' img), info_of ver i e); split.
  { cbn [SdcBurn.image_item_open decoder_package]; unfold image_item_open; rewrite Hh, En, s32_small, Nat2Z.id by lia.
    rewrite (find_ok ver Hver pkg_head es (conj Hl (conj Hn Hrest)) i e Hi Hnd); cbn [mbind option_bind]; unfold move_to.
    cbn [itemId info_of offsetInImage]; apply lookup_lt_Some in Hi; rewrite wrap_small, Z.eqb_refl by lia; cbn [negb]; rewrite Hif, Es; reflexivity. }
  assert (foffset h' = e_off e) as Eo by (destruct Hat' as [_ [Eo _] _ _ _]; done); pose proof (bpc_pos P vol nsect Hv) as [Hb _].
  split; [|split; [done|split; [done|split; [|done]]]].
  - split; [by split; [..|by exists (e_off e)]|]; exists (e_off e); split; [done|]; rewrite entry_data_length by done; split; [lia|].
    pose proof (entry_data_length e He) as El; unfold entry_data at 1; f_equal; lia.
  - cbn [SdcBurn.image_item_get_first_cluster_size decoder_package fst snd]; unfold image_item_get_first_cluster_size; cbn [devAlignSz set_seek set_file offsetInImage info_of].
    rewrite Hal, (bpc_mask P vol nsect Hv) by lia; pose proof (Z.mod_pos_bound (e_off e) cluster_size ltac:(lia)); rewrite !wrap_small by (rewrite ?wrap_small; lia); done.
Qed.

Lemma open_missing img main sub : open_package img -> cstr_ok main -> cstr_ok sub -> (main, sub) ∉ map key es ->
  SdcBurn.image_item_open (I := items) img main sub = inr img.
Proof.
  intros [_ _ Hh _] Fm Fs Hn; destruct Hes as (Hhd & _); destruct (header_fields ver Hver pkg_head es Hhd) as (_ & _ & En).
  cbn [SdcBurn.image_item_open decoder_package]; unfold image_item_open; destruct Hhd as (Hl & Hn48 & Hrest); rewrite Hh, En, s32_small, Nat2Z.id by lia.
  by rewrite (find_none ver Hver pkg_head es (conj Hl (conj Hn48 Hrest)) main sub Fm Fs Hn).
Qed.

(** Opening the package reads its header. *)
Lemma image_open_ok alloc fuel (w : world D) f fd h f1 interface part path : same (str "store") interface = false ->
  do_fat_fopen alloc fuel f path = Some (Some (fd, h), f1) -> position h 0 ->
  exists img f2, image_open alloc fuel f interface part path w = Some (Some img, f2, w) /\ open_package img.
Proof.
  intros Hif Hop Hat; destruct Hes as (Hhd & _ & _ & Hle); pose proof Hhd as (Hl & _ & _); assert (0 < HeadSz) as Hpos by done.
  set (m := write_bytes ∅ HEAD (replicate (Z.to_nat HeadSz) 0)).
  assert (mapped m HEAD (Z.to_nat HeadSz)) as Hm.
  { intros i Hi; unfold m; rewrite lookup_write_bytes, decide_True by (rewrite length_replicate; lia); exists 0; apply lookup_replicate; split; [done|lia]. }
  destruct (fread_ok d0 P vol nsect Hv chain fsize Hfile h m 0 HeadSz HEAD Hat Hpos Hle Hm) as (h' & Er & Hat'); [left; vm_compute; reflexivity|].
  rewrite (seg_file d0 P vol chain fsize), drop_0 in Er by lia; fold pkg_head in Er.
  exists (mkImage 0 (bytesperclust h') 0 [] pkg_head fd h'), (with_card h' f1); split; [|split; [done|apply (opened_bpc d0 P vol nsect); by destruct Hat'|done|by exists HeadSz]].
  unfold image_open; rewrite Hif, Hop; fold m; rewrite Er; change (s32 HeadSz =? HeadSz) with true; cbn [negb].
  replace (Z.to_nat HeadSz) with (length pkg_head) by lia; rewrite read_bytes_at by apply bytes_at_write; by rewrite (header_accepted ver Hver pkg_head es Hhd).
Qed.

(** *** From the card to the partitions *)

Context (device_boot_flag disk_inited : Z) (part_table : list partition).
Context (v2_key_burn v2_key_read : bytes -> Z -> Z -> M D Z) (sha1_buf : bytes) (Hbuf : length sha1_buf = 64%nat) (CmdVerify : Z).

(** The entry of a partition, and the entry with its digest, which the reader
    can deliver to [CmdVerify]. *)
Definition image_entry (j : job) (e : entry) : Prop :=
  key e = (str "PARTITION", j_name j) /\ entry_data e = bytes_of (j_src j) /\
  e_type e = (if is_sparse (j_src j) then IMAGE_ITEM_TYPE_SPARSE else IMAGE_ITEM_TYPE_NORMAL) /\ j_ns j = cluster_size - e_off e mod cluster_size.

Definition verify_entry (name s : bytes) (e : entry) : Prop :=
  key e = (str "VERIFY", name) /\ entry_data e = str "sha1sum " ++ s /\
  ((CmdVerify - e_off e) mod 512 = 0 \/ 0 < e_off e mod cluster_size /\ e_off e mod cluster_size + e_size e < cluster_size).

Definition on_card (j : job) : Prop :=
  (exists e, e ∈ es /\ image_entry j e) /\
  match j_text j with
  | None => (str "VERIFY", j_name j) ∉ map key es
  | Some s => word s /\ (length s <= 49)%nat /\ exists e, e ∈ es /\ verify_entry (j_name j) s e
  end.

Lemma card_packed j : on_card j -> packed (D := D) (P := image C) (j_name j) (j_src j) (j_ns j).
Proof.
  intros [(e & He & Ek & Ed & Et & En) _] img Hi; destruct (open_found img e Hi He) as (it & Eo & Hd & Hs & Hty & Hf & Hp).
  unfold key in Ek; injection Ek as Em Eb; rewrite Em, Eb in Eo; exists it; split; [exact Eo|]; split.
  - by rewrite Hs, <- Ed, entry_data_length.
  - rewrite Hty, Et; by destruct (is_sparse _).
  - by rewrite Hf, En.
  - by rewrite <- Ed.
  - cbn [phase decoder_item_spec]; rewrite Hp, En; pose proof (bpc_pos P vol nsect Hv) as [Hb Hb512].
    replace (e_off e + (cluster_size - e_off e mod cluster_size)) with ((e_off e / cluster_size + 1) * cluster_size) by (rewrite Z.mod_eq by lia; lia).
    by rewrite Z.mul_mod, Hb512, Z.mul_0_r by lia.
Qed.

Lemma card_verify j : cstr_ok (j_name j) -> on_card j -> verify_item (D := D) (P := image C) CmdVerify (j_name j) (j_text j).
Proof.
  intros Fn [_ Ht]; destruct (j_text j) as [s|].
  - destruct Ht as (Hw & Hl & e & He & Ek & Ed & Hin); split; [done|]; split; [done|]; intros img Hi; destruct (open_found img e Hi He) as (it & Eo & Hd & Hs & _ & _ & Hp).
    unfold key in Ek; injection Ek as Em Eb; rewrite Em, Eb in Eo; exists it; split; [exact Eo|].
    assert (e_size e = 8 + Z.of_nat (length s)) as Esz by (rewrite <- (entry_data_length e He), Ed, length_app; change (length (str "sha1sum ")) with 8%nat; lia).
    split; [by rewrite Hs|]; split; [by rewrite <- Ed|]; cbn [phase inside decoder_item_spec]; by rewrite Hp, <- Esz.
  - intros img Hi; exists img; split; [|done]; apply open_missing; try done; repeat (apply Forall_cons; split; [done|]); by apply Forall_nil.
Qed.

Definition card_job (d : D) (j : job) : Prop :=
  target part_table d (j_name j) (j_sectors j) /\
  item_fits (is_sparse (j_src j)) (j_sectors j) (j_ns j) (Z.of_nat (length (bytes_of (j_src j)))) /\
  source_ok device_boot_flag disk_inited (j_sectors j * 512) (j_ns j) (contents d (j_name j)) (j_src j) /\ on_card j.

Lemma card_job_ok d j : card_job d j -> job_ok (D := D) (P := image C) (I := items) device_boot_flag disk_inited part_table CmdVerify d j.
Proof.
  intros (Ht & Hf & Hs & Hc); split; [done|]; split; [done|]; split; [done|]; split; [by apply card_packed|apply card_verify; [|done]].
  by destruct Ht as (_ & _ & _ & _ & Hn & _).
Qed.

Lemma card_burned (w : world D) b img js : prepared w -> open_package img -> NoDup (map j_name js) -> Forall (card_job (dev w)) js ->
  exists img' b' w', burn_parts device_boot_flag disk_inited part_table v2_key_burn v2_key_read sha1_buf CmdVerify b (map j_name js) img true w =
      Some (if forallb passes js then 0 else 261, img', b', w') /\
    (forallb passes js = true -> Forall (fun j => forall a, contents (dev w') (j_name j) a = expand (j_src j) (contents (dev w) (j_name j)) a) js) /\
    (forall q a, q ∉ map j_name js -> contents (dev w') q a = contents (dev w) q a).
Proof.
  intros Hp Hi Hnd Fj; assert (Forall (job_ok (P := image C) (I := items) device_boot_flag disk_inited part_table CmdVerify (dev w)) js) as Fj' by (eapply Forall_impl; [exact Fj|]; intros j; apply card_job_ok).
  assert (intact (D := D) (P := image C) (I := items) img) as Hi' by exact Hi.
  destruct (parts_burned (D := D) (P := image C) (I := items) device_boot_flag disk_inited part_table v2_key_burn v2_key_read sha1_buf Hbuf CmdVerify js w b img Hp Hi' Hnd Fj')
    as (img' & b' & w' & E & _ & Hx); by exists img', b', w'.
Qed.
End on_card.

Section from_path.
Context {C : Type} `{HSC : BlockDevSpec C 512} `{HN : !BlockCount C} {D : Type} `{HSD : StorageSpec D}.
Context (d0 : C) (P nsect bits : Z) (Hboot : boot_ok (block d0 P) bits).
#[local] Abbreviation vol := (the_volume d0 P bits).
Context (Hv : volume_ok P vol nsect) (Hroot : 0 <= rootdir_sect vol) (Hnsect : 0 < nsect).
Context (alloc : Z -> option bytes) (Hfatbuf : allocates alloc 3072) (Hcluster : allocates alloc (bpc vol)).
Context (device_boot_flag disk_inited : Z) (part_table : list partition).
Context (v2_key_burn v2_key_read : bytes -> Z -> Z -> M D Z) (sha1_buf : bytes) (Hbuf : length sha1_buf = 64%nat) (CmdVerify : Z).

(** The file of a package: what the path leads to, its clusters, and a header
    that describes what is in it. *)
Record package_file (path : bytes) (d : bytes) (chain : list Z) (ver : Z) (es : list entry) (fuel : nat) : Prop := {
  pf_name : exists name k, root_path path name /\ search d0 P vol name 0 (Some d) k /\ rootdir_sect vol + k / 16 + clust_size vol <= nsect /\ k / 16 < Z.of_nat fuel;
  pf_file : file_ok d0 P vol nsect chain (FatDir.size d);
  pf_start : chain !! 0%nat = Some (START vol d);
  pf_version : ver = AML_FRMWRM_VER_V1 \/ ver = AML_FRMWRM_VER_V2;
  pf_items : items_ok d0 P vol chain (FatDir.size d) ver es }.

(** C17: Burning a package of a FAT card, given its path: from the sectors of
    the card, through the boot sector, the root directory, the clusters of the
    file, the header of the package, the items, the slots of the transfer buffer
    and the write-backs, to the partitions.  Opening the package succeeds; the
    burn returns 0 if and only if every image has the SHA-1 that its item VERIFY
    names, and then every partition holds its image and the others are as
    before. *)
Theorem card_package_burned (w : world D) b f interface part path d chain ver es fuel js : prepared w -> same (str "store") interface = false ->
  idle d0 P nsect f -> package_file path d chain ver es fuel ->
  NoDup (map j_name js) -> Forall (card_job d0 P vol chain (FatDir.size d) es device_boot_flag disk_inited part_table CmdVerify (dev w)) js ->
  exists img f', image_open alloc fuel f interface part path w = Some (Some img, f', w) /\
  exists img' b' w', burn_parts device_boot_flag disk_inited part_table v2_key_burn v2_key_read sha1_buf CmdVerify b (map j_name js) img true w =
      Some (if forallb passes js then 0 else 261, img', b', w') /\
    (forallb passes js = true -> Forall (fun j => forall a, contents (dev w') (j_name j) a = expand (j_src j) (contents (dev w) (j_name j)) a) js) /\
    (forall q a, q ∉ map j_name js -> contents (dev w') q a = contents (dev w) q a).
Proof.
  intros Hp Hif Hidle [(name & k & Hpath & Hs & Hend & Hfuel) Hfile Hstart Hver Hes] Hnd Fj.
  destruct (path_opened d0 P nsect bits Hboot Hv Hroot Hnsect alloc Hfatbuf Hcluster f path name (Some d) k fuel Hidle Hpath Hs Hend Hfuel) as (h & f1 & Eo & _ & _ & Hat).
  destruct (image_open_ok d0 P vol nsect Hv chain (FatDir.size d) Hfile ver Hver es Hes alloc fuel w f _ h f1 interface part path Hif Eo) as (img & f2 & Ei & Hi); [by apply Hat|].
  exists img, f2; split; [done|]; by apply (card_burned d0 P vol nsect Hv chain (FatDir.size d) Hfile ver Hver es Hes device_boot_flag disk_inited part_table v2_key_burn v2_key_read sha1_buf Hbuf CmdVerify).
Qed.
End from_path.

(** ** A package on a small card *)

(** The sectors of [l], the last one filled with zeros. *)
Lemma run_content (d : card) n : forall s l, (forall i, 0 <= i < Z.of_nat n -> content d (s + i) = take 512 (drop (Z.to_nat (512 * i)) l)) ->
  Forall byte_ok l -> (length l <= n * 512)%nat -> exists k, run card_block d s n = l ++ replicate k 0.
Proof.
  induction n as [|n IH]; intros s l Hc Fl Hl; [exists 0%nat; destruct l; [done|cbn in Hl; lia]|]; cbn [run].
  destruct (IH (s + 1) (drop 512 l)) as [k ->].
  - intros i Hi; replace (s + 1 + i) with (s + (1 + i)) by lia; rewrite Hc, drop_drop by lia; do 2 f_equal; lia.
  - by apply Forall_drop.
  - rewrite length_drop; lia.
  - unfold card_block; rewrite <- (Z.add_0_r s), Hc, drop_0, u8_bytes by (lia || by apply Forall_take).
    destruct (decide (512 <= length l)%nat) as [Hg|Hs].
    + exists k; rewrite app_assoc; f_equal; rewrite <- (take_drop 512 l) at 3; f_equal; apply take_exact; rewrite length_take; lia.
    + rewrite (drop_ge l), (take_ge l) by lia; cbn [app]; rewrite take_app, take_ge by lia; exists (512 - length l + k)%nat.
      rewrite take_replicate, replicate_add, app_assoc; do 3 f_equal; lia.
Qed.

(** A volume with clusters of 64 sectors; the package is in the clusters 2 and
    3. *)
Definition pkg_vol : fsdata := mkFs [] 16 1 1 2 512 64 (-125) (-1).
Definition pkg_boot : bytes := take 13 name_boot ++ [64] ++ drop 14 name_boot.

Lemma pkg_volume_ok : volume_ok 32 pkg_vol 131.
Proof. split; cbn; [lia|done|exists 6; split; [lia|done]|lia|lia]. Qed.

Section pkg_card.
Context (body : bytes) (Fbody : Forall byte_ok body) (Hbody : Z.of_nat (length body) = 33364).

Definition pkg_card : card := mkCard 1000 (fun b => if b =? 32 then pkg_boot else if b =? 33 then name_fat else
  if b =? 34 then concat (dir_entries_of 33364) else take 512 (drop (Z.to_nat (512 * (b - 35))) body)).
Definition pkg_vars : @fat card := mkFat pkg_card 32 [0; 0] (replicate (Z.to_nat MAX_CLUSTSIZE) 0) [] [].

Lemma pkg_boot_ok : boot_ok (block pkg_card 32) 16.
Proof. vm_compute; right; by repeat split. Qed.

Lemma pkg_volume : the_volume pkg_card 32 16 = pkg_vol.
Proof. vm_compute; reflexivity. Qed.

Lemma pkg_file_ok : file_ok pkg_card 32 pkg_vol 131 [2; 3] 33364.
Proof.
  split; [repeat (apply Forall_cons; split; [split; [reflexivity|vm_compute; discriminate|cbn; lia]|]); by apply Forall_nil| |].
  - intros [|[|i]] c c' H1 H2; try discriminate; injection H1 as <-; injection H2 as <-; reflexivity.
  - split; [lia|]; change (Z.of_nat (length [2; 3]) * bpc pkg_vol) with 65536; lia.
Qed.

Lemma pkg_data : file_data pkg_card 32 pkg_vol [2; 3] 33364 = body.
Proof.
  unfold file_data; cbn [map concat]; rewrite app_nil_r; change (cluster pkg_card 32 pkg_vol 3) with (cluster_run pkg_card 32 pkg_vol (2 + 1) 1).
  rewrite <- (cluster_run_S pkg_card 32 pkg_vol 131 pkg_volume_ok 2 1).
  unfold cluster_run; cbn [clust_size data_begin pkg_vol]; change (block pkg_card) with (card_block pkg_card).
  destruct (run_content pkg_card (2 * Z.to_nat 64) (32 + (-125 + 2 * 64)) body) as [k E]; [|done|lia|].
  - intros i Hi; unfold pkg_card; cbn [content]; rewrite !(proj2 (Z.eqb_neq _ _)) by lia; do 2 f_equal; lia.
  - change block with card_block; rewrite E, <- Hbody, Nat2Z.id; apply take_app_length.
Qed.

Lemma pkg_idle : idle pkg_card 32 131 pkg_vars.
Proof. split; try done; cbn [_do_fat_read_block pkg_vars]; rewrite length_replicate; unfold MAX_CLUSTSIZE; lia. Qed.

Lemma pkg_search : search pkg_card 32 pkg_vol name_given 0 (Some (ent pkg_card 32 pkg_vol 4)) 2.
Proof.
  apply (dir_search _ _ _ (mk_entry (str "AML_UP~1IMG") 32 2 33364)); [|vm_compute; discriminate].
  intros [|[|[|[|[|i]]]]] x Hx; try discriminate Hx; injection Hx as <-; vm_compute; reflexivity.
Qed.

Lemma pkg_entry : ent pkg_card 32 pkg_vol 4 = mk_entry (str "AML_UP~1IMG") 32 2 33364.
Proof. vm_compute; reflexivity. Qed.
End pkg_card.

(** The item of the image ends the first cluster with 512 bytes; its item
    VERIFY stands behind the header. *)
Definition pkg_entries : list entry := [
  mkEntry (str "VERIFY") (str "system") 27712 48 IMAGE_ITEM_TYPE_NORMAL;
  mkEntry (str "PARTITION") (str "system") 32256 1108 IMAGE_ITEM_TYPE_SPARSE ].

Definition pkg_front : bytes := pkg_header AML_FRMWRM_VER_V1 0 0 4 pkg_entries ++ replicate (Z.to_nat 27392) 0.
Definition pkg_text : bytes := str "sha1sum " ++ demo_text.
Definition pkg_body : bytes := pkg_front ++ pkg_text ++ replicate (Z.to_nat 4496) 0 ++ bytes_of demo_sparse.

#[local] Opaque demo_text.

Lemma pkg_front_length : Z.of_nat (length pkg_front) = 27712.
Proof. unfold pkg_front; rewrite length_app, length_replicate, Nat2Z.inj_add, Z2Nat.id by lia; reflexivity. Qed.

Lemma pkg_text_length : Z.of_nat (length pkg_text) = 48.
Proof. unfold pkg_text; rewrite length_app, (proj2 demo_text_ok); reflexivity. Qed.

Lemma pkg_body_length : Z.of_nat (length pkg_body) = 33364.
Proof.
  pose proof pkg_front_length; pose proof pkg_text_length; pose proof demo_sparse_length.
  unfold pkg_body; rewrite !length_app, length_replicate; lia.
Qed.

Lemma pkg_body_bytes : Forall byte_ok pkg_body.
Proof.
  unfold pkg_body; apply Forall_app; split; [apply Forall_app; split|apply Forall_app; split; [|apply Forall_app; split; [|apply demo_bytes]]].
  - assert (forallb (fun c => (0 <=? c) && (c <? 256)) (pkg_header AML_FRMWRM_VER_V1 0 0 4 pkg_entries) = true) as E by (vm_compute; reflexivity).
    apply List.Forall_forall; intros c Hc; rewrite forallb_forall in E; specialize (E c Hc); unfold byte_ok; lia.
  - by apply Forall_replicate.
  - apply Forall_app; split; [apply str_ok|]; destruct demo_text_ok as [[_ Fw] _]; eapply Forall_impl; [exact Fw|]; intros c [Hc _]; unfold byte_ok; lia.
  - by apply Forall_replicate.
Qed.

(** A part of the package. *)
Lemma pkg_part l1 l l2 off n : pkg_body = l1 ++ l ++ l2 -> Z.of_nat (length l1) = off -> Z.of_nat (length l) = n ->
  take (Z.to_nat n) (drop (Z.to_nat off) pkg_body) = l.
Proof. intros -> <- <-; by rewrite !Nat2Z.id, drop_app_length, take_app_length. Qed.

#[local] Abbreviation the_card := (pkg_card pkg_body).

Lemma pkg_system_data : entry_data the_card 32 pkg_vol [2; 3] 33364 (mkEntry (str "PARTITION") (str "system") 32256 1108 IMAGE_ITEM_TYPE_SPARSE) = bytes_of demo_sparse.
Proof.
  unfold entry_data; rewrite pkg_data by (apply pkg_body_bytes || apply pkg_body_length); cbn [e_size e_off].
  apply (pkg_part (pkg_front ++ pkg_text ++ replicate (Z.to_nat 4496) 0) _ []); [unfold pkg_body; by rewrite app_nil_r, <- !app_assoc| |exact demo_sparse_length].
  pose proof pkg_front_length; pose proof pkg_text_length; rewrite !length_app, length_replicate; lia.
Qed.

Lemma pkg_verify_data : entry_data the_card 32 pkg_vol [2; 3] 33364 (mkEntry (str "VERIFY") (str "system") 27712 48 IMAGE_ITEM_TYPE_NORMAL) = pkg_text.
Proof.
  unfold entry_data; rewrite pkg_data by (apply pkg_body_bytes || apply pkg_body_length); cbn [e_size e_off].
  exact (pkg_part pkg_front pkg_text (replicate (Z.to_nat 4496) 0 ++ bytes_of demo_sparse) 27712 48 eq_refl pkg_front_length pkg_text_length).
Qed.

Lemma pkg_entries_ok : Forall (entry_ok AML_FRMWRM_VER_V1) pkg_entries.
Proof.
  apply Forall_cons; split; [|apply Forall_cons; split; [|by apply Forall_nil]]; (split; [split|split|]); cbn [e_main e_sub e_type e_off e_size];
    try (repeat (apply Forall_cons; split; [done|]); by apply Forall_nil); try (vm_compute; lia); vm_compute; repeat split; discriminate.
Qed.

Lemma pkg_items_ok : items_ok the_card 32 pkg_vol [2; 3] 33364 AML_FRMWRM_VER_V1 pkg_entries.
Proof.
  assert (pkg_head the_card 32 pkg_vol [2; 3] 33364 = pkg_front) as E.
  { unfold pkg_head; rewrite pkg_data by (apply pkg_body_bytes || apply pkg_body_length); exact (pkg_part [] pkg_front (pkg_text ++ replicate (Z.to_nat 4496) 0 ++ bytes_of demo_sparse) 0 HeadSz eq_refl eq_refl pkg_front_length). }
  split; [rewrite E; split; [exact pkg_front_length|]; split; [cbn; lia|]; split|split; [|split]].
  - exact pkg_entries_ok.
  - exists 0, 0, 4, (replicate (Z.to_nat 27392) 0); split; [lia|split; [lia|split; [lia|exact eq_refl]]].
  - cbn [map pkg_entries]; apply NoDup_cons; split; [|apply NoDup_singleton]; intros H%list_elem_of_singleton; discriminate H.
  - repeat (apply Forall_cons; split; [cbn; lia|]); by apply Forall_nil.
  - change HeadSz with 27712; lia.
Qed.

Definition pkg_job : job := Job (str "system") demo_sparse 512 2048 (Some demo_text).

Lemma pkg_job_ok : card_job the_card 32 pkg_vol [2; 3] 33364 pkg_entries EMMC_BOOT_FLAG 0x10000 SdcBurn.demo_table 0 (dev demo_world) pkg_job.
Proof.
  split; [|split; [|split; [exact demo_system_ok|split]]]; cbn [j_name j_src j_ns j_sectors j_text pkg_job].
  - apply demo_target; [repeat (apply Forall_cons; split; [done|]); by apply Forall_nil|cbn; lia|reflexivity|reflexivity].
  - rewrite demo_sparse_length; split; [split; [lia|split; [reflexivity|lia]]|lia|left; discriminate].
  - eexists; split; [right; left|]; split; [reflexivity|]; split; [exact pkg_system_data|]; split; reflexivity.
  - destruct demo_text_ok as [Hw Hl]; split; [exact Hw|]; split; [lia|]; eexists; split; [left|]; split; [reflexivity|]; split; [exact pkg_verify_data|].
    right; cbn [e_off e_size]; change (bpc pkg_vol) with 32768; vm_compute; by split.
Qed.

(** The digest in the package is that of the image. *)
Lemma pkg_job_passes : forallb passes [pkg_job] = true.
Proof. apply forallb_forall; intros x [<- | []]; exact demo_system_passes. Qed.

(** The sparse image [demo_sparse] from the card: its first 512 bytes end a
    cluster, the others are in the next one. *)
Definition pkg_dirent : bytes := mk_entry (str "AML_UP~1IMG") 32 2 33364.

Lemma pkg_is_file : package_file the_card 32 131 16 path_given pkg_dirent [2; 3] AML_FRMWRM_VER_V1 pkg_entries 1.
Proof.
  split; rewrite ?pkg_volume; change (FatDir.size pkg_dirent) with 33364.
  - exists name_given, 2; split; [exact name_path|]; split; [|split; [vm_compute; discriminate|reflexivity]].
    pose proof (pkg_search pkg_body) as Hs; rewrite pkg_entry in Hs; exact Hs.
  - exact (pkg_file_ok pkg_body).
  - reflexivity.
  - by left.
  - exact pkg_items_ok.
Qed.

Lemma pkg_job_on_card : card_job the_card 32 (the_volume the_card 32 16) [2; 3] (FatDir.size pkg_dirent) pkg_entries EMMC_BOOT_FLAG 0x10000 SdcBurn.demo_table 0 (dev demo_world) pkg_job.
Proof. rewrite pkg_volume; exact pkg_job_ok. Qed.

Lemma pkg_volume_facts : volume_ok 32 (the_volume the_card 32 16) 131 /\ 0 <= rootdir_sect (the_volume the_card 32 16) /\ allocates zeros_alloc (bpc (the_volume the_card 32 16)).
Proof. rewrite pkg_volume; split; [exact pkg_volume_ok|]; split; [discriminate|]; apply zeros_allocates; discriminate. Qed.

Lemma card_package_burned_witness : forallb passes [pkg_job] = true /\ exists img f', image_open zeros_alloc 1 (pkg_vars pkg_body) [] [] path_given demo_world = Some (Some img, f', demo_world) /\
  exists img' b' w', burn_parts EMMC_BOOT_FLAG 0x10000 SdcBurn.demo_table no_key no_key (replicate 64 0) 0 demo_bm (map j_name [pkg_job]) img true demo_world =
      Some (if forallb passes [pkg_job] then 0 else 261, img', b', w') /\
    (forallb passes [pkg_job] = true -> Forall (fun j => forall a, contents (dev w') (j_name j) a = expand (j_src j) (contents (dev demo_world) (j_name j)) a) [pkg_job]) /\
    (forall q a, q ∉ map j_name [pkg_job] -> contents (dev w') q a = contents (dev demo_world) q a).
Proof.
  split; [exact pkg_job_passes|].
  apply (card_package_burned the_card 32 131 16 (pkg_boot_ok pkg_body) (proj1 pkg_volume_facts) (proj1 (proj2 pkg_volume_facts)) eq_refl zeros_alloc (zeros_allocates 3072 ltac:(discriminate)) (proj2 (proj2 pkg_volume_facts))
    EMMC_BOOT_FLAG 0x10000 SdcBurn.demo_table no_key no_key (replicate 64 0) eq_refl 0 demo_world demo_bm (pkg_vars pkg_body) [] [] path_given pkg_dirent [2; 3] AML_FRMWRM_VER_V1 pkg_entries 1 [pkg_job]).
  - exact demo_prepared.
  - reflexivity.
  - exact (pkg_idle pkg_body).
  - exact pkg_is_file.
  - apply NoDup_singleton.
  - apply Forall_cons; split; [exact pkg_job_on_card|by apply Forall_nil].
Defined.

End ImgDecoder.
